(* ===== verification/_CoqProject ===== *)
-Q . S2P
Prelude.v
Dlist.v
TimeUnits.v
Timeout.v
PriorityQ.v
RbTree.v
RbModel.v
RbInsert.v
RbRemove.v
RbSet.v
PriqRb.v
KState.v
KLogic.v
MemOps.v
RingBuf.v
SysHeap.v
HeapModel.v
HeapOps.v
HeapAlloc.v
HeapSpec.v
HeapAlign.v
HeapRealloc.v
HeapInit.v
HeapProps.v
BitOps.v
Crc.v
CrcRoutines.v
CrcByType.v
Buffer.v
Base64.v
TextUtils.v
Bitarray.v
BitarraySet.v
BitarrayProps.v
MemBlocks.v
Sched.v
SchedInv.v
SchedOps.v
Switch.v
ThreadOps.v
ThreadApi.v
Halt.v
Create.v
Clock.v
Sem.v
Mutex.v
Condvar.v
Stack.v
Msgq.v
Events.v
MemSlab.v
KInv.v
Api.v
System.v
Demo.v
Findings.v
