(* ===== verification/Prelude.v ===== *)
(** * Verification of the Zephyr kernel

    A model in Rocq of the kernel of Zephyr 3.7, the operating system under
    src/zephyr-3.7-branch, with the theorems that make its parts correct one by one
    and together.  File names below are relative to that directory.

    ** The program

    The kernel schedules threads by priority on one CPU.  A thread is ready, and then
    in the ready queue; or it waits on the wait queue of a kernel object; or it is
    asleep, suspended, not started, or dead.  Kernel objects (semaphores, mutexes,
    condition variables, message queues, stacks, events, memory slabs) wake their
    waiters through the scheduler, which switches to the best ready thread.  Timeouts
    are kept in one queue of relative ticks; the clock interrupt announces ticks,
    which wakes the threads whose time has come and ends time slices.

    The build that is modelled: one CPU, CONFIG_USE_SWITCH, the sorted list as ready
    and wait queue (CONFIG_SCHED_DUMB, CONFIG_WAITQ_DUMB), 64-bit timeouts, assertions
    on, CHECKIF as an [if]; user mode, tracing, object cores, polling, deadlines, CPU
    masks and per-thread time slices off.  Pointers are 32 bits wide.  Options that the
    modelled code reads in other ways (numbers of priorities, tick rate, ceiling, time
    slicing, SWAP_NONATOMIC, ...) are the fields of the class [KConfig], and the
    theorems hold for all their values unless they say otherwise.

    ** The files

    - [Prelude]: machine integers at their width, bit tests, list and map lemmas.
    - [Dlist]: include/zephyr/sys/dlist.h on a heap of nodes.
    - [TimeUnits]: the conversions of include/zephyr/sys/time_units.h.
    - [Timeout]: kernel/timeout.c, the timeout queue, the announce loop (over an
      arbitrary client, the class [AnnounceClient]), uptime and timepoints.
    - [PriorityQ]: kernel/include/priority_q.h, the sorted list and the multi-queue.
    - [RbTree]: lib/utils/rb.c, the red-black tree, on nodes in memory; [RbModel]: trees
      in memory, their balance and order; [RbInsert], [RbRemove], [RbSet]: its operations
      as those of a sorted set; [PriqRb]: the queue of priority_q.h built on it.
    - [RingBuf]: lib/utils/ring_buffer.c as a bounded queue of bytes and of items.
    - [SysHeap]: lib/heap/heap.c and heap.h, the chunk allocator, on bytes in memory;
      [HeapModel]: chunks that tile the heap, and the free lists; [HeapOps], [HeapAlloc],
      [HeapSpec], [HeapAlign], [HeapRealloc], [HeapInit]: what each function does to them;
      [HeapProps]: what the heap promises to the users of its blocks.
    - [BitOps]: bits of words and of byte strings; [Buffer]: writing to arrays from the front.
    - [Crc]: the checksum routines of lib/crc, and the shift register and the division over
      GF(2) that specify them; [CrcRoutines]: that they do what is specified; [CrcByType]: the
      choice among them against a table of their parameters, and messages in blocks.
    - [Base64]: lib/utils/base64.c; [TextUtils]: lib/utils/hex.c, dec.c and utf8.c.
    - [Bitarray]: lib/utils/bitarray.c; [BitarraySet]: the set of the bits that are set and
      what the regions of words do to it; [BitarrayProps]: every function on that set.
    - [MemBlocks]: lib/mem_blocks/mem_blocks.c, pools of blocks over bit arrays, and groups.
    - [KState]: struct k_thread, the objects and struct z_kernel as the record
      [kstate]; the monads [K] (code that does not switch) and [M] (code that may give
      up the CPU: [Swap] carries the state handed over and the rest of the code).
    - [KLogic]: weakest preconditions of the two, total and by rely and guarantee.
    - [MemOps]: byte copies and memory regions.
    - [Sched]: kernel/sched.c, kernel/timeslicing.c, kernel/include/ksched.h,
      kernel/include/kswap.h, kernel/thread.c: every operation as a definition with
      the name it has in C.
    - [SchedInv]: the invariant [SInv] of threads and queues, and that the scheduler's
      building blocks keep it; [SchedOps]: what other threads can tell of them;
      [Switch]: context switches, the rely [Rely] and guarantee [Guar], and the
      interfaces [ObjInv], [Holds], [MemInv] between scheduler and objects.
    - [ThreadOps], [ThreadApi], [Halt], [Create]: the thread calls; [Clock]: the clock
      interrupt, where the kernel is shown to be an [AnnounceClient].
    - [Sem], [Mutex], [Condvar], [Stack], [Msgq], [Events], [MemSlab]: the objects of
      kernel/sem.c, mutex.c, condvar.c, stack.c, msg_q.c, events.c and mem_slab.c,
      each with its abstract state, what its calls do to it, and the proof that the
      code does that, against the interfaces only.
    - [KInv]: the invariant [OInv] of all objects, which discharges the interfaces.
    - [Api]: the resulting contract of every call, [call_ok].
    - [System]: threads, interrupts and switches as one transition system.
    - [Demo]: a concrete kernel on which the theorems are applied; [Findings]: runs of
      it that show where code and documentation differ.

    ** What the theorems show

    A call is specified by [call_ok n c s V m P]: made in a state [s] that satisfies
    the invariants, by the running thread [c] or by an interrupt handler at nesting
    level [n], it does not fail; what it does before the first context switch is the
    effect [V], usually "the abstract state of this object is mapped by that function,
    these threads are woken with that value, nothing else changes"; every state in
    which it gives up the CPU satisfies the invariants again and keeps what the other
    threads may rely on; and its result satisfies [P].  Failing covers failed
    assertions, dereferencing what is not there, and loops that do not end.  A thread
    gives up the CPU with the return value -EAGAIN; the value in its thread structure
    when it is switched in again ([resumed]) is the one it was woken with, or still that,
    and [P] says what a call that waited makes of it.  Calls that may make a better thread
    ready end [rescheduled]: without a switch only if the caller is the scheduler's choice.
    Waiters are served from the head of the wait queue, which is in order of the
    priorities the threads had when they began to wait ([Findings.raised_waiter_not_first]).

    [System] composes the calls: any interleaving of allowed calls, switches, resumed
    calls and interrupts is free of crashes and keeps the invariants ([system_safe]),
    no thread is ever lost or queued twice ([threads_accounted]), mutexes exclude
    ([mutex_exclusion]), dead threads stay dead ([dead_never_runs]) and deadlines are
    met by the announcement that covers them ([timeout_wakes]).  Its callbacks run once
    each, in deadline order and with the clock at the deadline, although they change the
    queue that the loop walks ([announce_callbacks_on_time]).  The theorems of
    [Timeout], [PriorityQ], [Dlist], [TimeUnits], [RingBuf] and of the red-black tree are
    about those data structures on their own: each is shown to implement a sequence, a
    queue or a sorted set.  The three priority queues are interchangeable
    ([mq_refines_dumb], [rb_queue_refines_dumb]).  The blocks that the heap gives out are
    disjoint and keep their contents over all calls ([heap_safe] and the theorems after
    it), a refused request could not be met from a list that is certain to serve it, and
    what is freed is joined again ([heap_whole_again]).

    Of the libraries: checksums are remainders of polynomial division, fast and slow
    routines agree, and bursts of errors are noticed ([crc_is_remainder],
    [crc_routines_agree], [crc_detects_bursts]; [crc4] with [reversed] set is an exception,
    [crc4_reversed_misses_burst]), and the choice by type takes the right one
    ([crc_by_type_correct]); Base64 and hexadecimal text is read back as written and
    everything else is rejected ([base64_correct], [base64_roundtrip], [hex_roundtrip]);
    strings are cut between characters ([utf8_lcpy_correct]); a bit array
    is a finite set ([bitarray_refines_set]), and so is a pool of memory blocks built on it
    ([mem_blocks_refine_set]); blocks of a group go back to the pool they came from
    ([multi_mem_blocks_roundtrip]).

    ** Assumptions and bounds

    - The theorems about the scheduler are for builds without MetaIRQ priorities.
    - A call runs without interruption up to its context switch; interrupt handlers
      run between calls.  On one CPU the kernel masks interrupts around its critical
      sections; that the unmasked remainder may be interrupted is not modelled.
    - Calls are made as the API allows ([System.allowed]): objects exist and have the
      right type, buffers are memory the caller may write, freed blocks were allocated
      and are not used any more, a thread is created in fresh memory, relative timeouts
      stay 2^31 ticks below the largest 64-bit value, locks nest less than 2^32 deep.
    - Loops over a queue that the code empties run with the length of the queue as
      fuel; [announce_loop] with the number of queued timeouts times the ticks
      announced, which bounds the ticks left to announce over all timeouts, and every
      iteration lowers that.  The theorems show that the fuel suffices.
    - Walks down the red-black tree run with [max_depth] as fuel, and the array of
      ancestors has the [max_depth + 1] entries the code gives it.  That both suffice is
      part of [balanced]: [max_depth] bounds the height and is at least twice the black
      height less one, which removals cannot exceed.
    - The loop of [alloc_chunk] runs at most CONFIG_SYS_HEAP_ALLOC_LOOPS times, which must
      not be 0.  Requests to the heap fit into it with their header and padding
      ([in_range]), or are rejected by [size_too_big]: for those in between the code
      indexes [buckets] past its end ([heap_alloc_past_buckets]).
    - The loops of the ring buffer move at least one byte per round but the last.
    - The search of [sys_bitarray_alloc] starts anew behind the bit that did not match and
      so runs at most once per bit of the array.  Region and length arguments of bit arrays
      do not wrap around ([valid]); what happens otherwise is in [bitarray_sum_wraps].
    - [size_t] has 32 bits.  The loops over texts and messages are bounded by their length.
    - sys_clock_elapsed() and sys_clock_set_timeout(), the timer driver, are fields of
      the queue: the former returns any value below 2^31 - 1, the latter records its
      argument.

    ** Not modelled

    SMP, user mode, the memory domains and the MMU, object cores and tracing are not
    part of the build above.  kernel/timer.c holds no timer code.  Queues, mailboxes,
    pipes, work queues and the kernel heap in front of lib/heap are left out, and so are
    the hash maps of lib/hash.  Start-up, the idle
    loop and fatal errors are architecture and device I/O.  The two calls of message
    queues and stacks that allocate their buffer from the kernel heap are left out.  Of the
    heap, the statistics, the listeners and the validator are left out.  Of lib/utils,
    json.c works through descriptors of structure layouts, onoff.c and notify.c call back
    into drivers, timeutil.c uses floating-point numbers, and winstream.c is shared with
    another processor.
    Drivers, subsystems, boards and the other projects under src/ (U-Boot, metaRTC and
    the audio, speech and vision programs) are outside the scope: device, network and
    codec I/O around external libraries. *)

From Stdlib Require Export ZArith Lia Bool.
From stdpp Require Export base option list gmap sets strings sorting.

#[export] Set Default Goal Selector "!".

Declare Scope kernel_scope.
Delimit Scope kernel_scope with K.

(** ** Machine integers *)

Local Open Scope Z_scope.

(** Two's complement reinterpretation of [x] at [w] bits. *)
Definition wrap_u (w x : Z) : Z := x mod 2 ^ w.
Definition wrap_s (w x : Z) : Z := (x + 2 ^ (w - 1)) mod 2 ^ w - 2 ^ (w - 1).

Abbreviation u8 := (wrap_u 8).
Abbreviation u16 := (wrap_u 16).
Abbreviation u32 := (wrap_u 32).
Abbreviation u64 := (wrap_u 64).
Abbreviation s8 := (wrap_s 8).
Abbreviation s32 := (wrap_s 32).
Abbreviation s64 := (wrap_s 64).

Definition INT_MAX : Z := 2 ^ 31 - 1.
Definition INT64_MAX : Z := 2 ^ 63 - 1.
Definition UINT64_MAX : Z := 2 ^ 64 - 1.
Definition BIT (n : Z) : Z := Z.shiftl 1 n.

Lemma wrap_u_range w x : 0 <= w -> 0 <= wrap_u w x < 2 ^ w.
Proof. intros. apply Z.mod_pos_bound. lia. Qed.

Lemma wrap_u_small w x : 0 <= x < 2 ^ w -> wrap_u w x = x.
Proof. apply Z.mod_small. Qed.

Lemma wrap_s_small w x :
  0 < w -> - 2 ^ (w - 1) <= x < 2 ^ (w - 1) -> wrap_s w x = x.
Proof.
  intros Hw Hx. unfold wrap_s.
  assert (2 ^ w = 2 * 2 ^ (w - 1)) by (rewrite <- Z.pow_succ_r by lia; f_equal; lia).
  rewrite Z.mod_small; lia.
Qed.

Lemma wrap_s_range w x : 0 < w -> - 2 ^ (w - 1) <= wrap_s w x < 2 ^ (w - 1).
Proof.
  intros Hw. unfold wrap_s.
  assert (2 ^ w = 2 * 2 ^ (w - 1)) by (rewrite <- Z.pow_succ_r by lia; f_equal; lia).
  pose proof (Z.mod_pos_bound (x + 2 ^ (w - 1)) (2 ^ w)). lia.
Qed.

(** ** Bits of a state word *)

Create HintDb bits.

Lemma testbit_BIT n i : 0 <= n -> Z.testbit (BIT n) i = (i =? n).
Proof.
  intros. unfold BIT. destruct (Z.ltb_spec i 0).
  - rewrite Z.testbit_neg_r by lia. symmetry. apply Z.eqb_neq. lia.
  - rewrite Z.shiftl_spec by lia. destruct (Z.eqb_spec i n) as [->|Hne].
    + by rewrite Z.sub_diag.
    + destruct (Z.ltb_spec i n).
      * by rewrite Z.testbit_neg_r by lia.
      * apply Z.bits_above_log2; cbn; lia.
Qed.

Lemma land_BIT_eqb x n : 0 <= n -> (Z.land x (BIT n) =? 0) = negb (Z.testbit x n).
Proof.
  intros Hn. apply eq_true_iff_eq. rewrite Z.eqb_eq, negb_true_iff. split.
  - intros H. apply (f_equal (fun z => Z.testbit z n)) in H.
    rewrite Z.land_spec, testbit_BIT, Z.eqb_refl, andb_true_r, Z.bits_0 in H by lia.
    done.
  - intros H. apply Z.bits_inj'. intros i Hi.
    rewrite Z.land_spec, testbit_BIT, Z.bits_0 by lia.
    destruct (Z.eqb_spec i n) as [->|]; [by rewrite H | by rewrite andb_false_r].
Qed.

Lemma testbit_setflag x n i :
  0 <= n -> Z.testbit (Z.lor x (BIT n)) i = Z.testbit x i || (i =? n).
Proof. intros. by rewrite Z.lor_spec, testbit_BIT. Qed.

Lemma testbit_clrflag x n i :
  0 <= n -> Z.testbit (Z.land x (Z.lnot (BIT n))) i = Z.testbit x i && negb (i =? n).
Proof.
  intros. rewrite Z.land_spec. destruct (Z.ltb_spec i 0).
  - by rewrite !Z.testbit_neg_r by lia.
  - by rewrite Z.lnot_spec, testbit_BIT by lia.
Qed.

#[export] Hint Rewrite testbit_setflag testbit_clrflag land_BIT_eqb testbit_BIT
  Z.land_spec Z.lor_spec Z.bits_0 using lia : bits.

(** ** Lists *)

Section Lists.
Context {A : Type}.
Implicit Types (l : list A).

Lemma list_filter_all (P : A -> Prop) `{!forall x, Decision (P x)} l :
  (forall x, x ∈ l -> P x) -> filter P l = l.
Proof.
  intros HP. induction l as [|y l IH]; [done|].
  rewrite filter_cons, decide_True by (apply HP; set_solver).
  f_equal. apply IH. set_solver.
Qed.

(** Take every occurrence of [x] out of [l]. *)
Definition remove_elem `{EqDecision A} (x : A) l : list A := filter (fun y => y <> x) l.

Lemma elem_of_remove_elem `{EqDecision A} (x y : A) l :
  y ∈ remove_elem x l <-> y <> x /\ y ∈ l.
Proof. unfold remove_elem. by rewrite list_elem_of_filter. Qed.

Lemma filter_ext_in (P Q : A -> Prop) `{!forall x, Decision (P x), !forall x, Decision (Q x)} l :
  (forall x, x ∈ l -> P x <-> Q x) -> filter P l = filter Q l.
Proof.
  induction l as [|y l IH]; intros Hl; [done|]. rewrite !filter_cons, IH by (intros x Hx; apply Hl; by right).
  pose proof (Hl y (list_elem_of_here _ _)). destruct (decide (P y)), (decide (Q y)); tauto.
Qed.

Lemma NoDup_remove_elem `{EqDecision A} (x : A) l :
  NoDup l -> NoDup (remove_elem x l).
Proof. apply NoDup_filter. Qed.

Lemma remove_elem_notin `{EqDecision A} (x : A) l :
  x ∉ l -> remove_elem x l = l.
Proof. intros H. apply list_filter_all. naive_solver. Qed.

Lemma remove_elem_head `{EqDecision A} (x : A) l :
  x ∉ l -> remove_elem x (x :: l) = l.
Proof.
  intros H. unfold remove_elem. rewrite filter_cons, decide_False by naive_solver.
  by apply remove_elem_notin.
Qed.

Lemma StronglySorted_remove_elem `{EqDecision A} (R : A -> A -> Prop) (x : A) l :
  StronglySorted R l -> StronglySorted R (remove_elem x l).
Proof.
  intros H. induction H as [|y l Hs IH Hf]; [constructor|].
  unfold remove_elem in *. rewrite filter_cons. case_decide; [|done].
  constructor; [done|]. apply Forall_forall. intros z [_ Hz]%list_elem_of_filter.
  by eapply Forall_forall in Hf.
Qed.
End Lists.

(** ** Tactics *)

(** Split a boolean guard of the code and turn it into a proposition. *)
(** Decide a closed goal by running its decision procedure. *)
Ltac by_decision := apply (bool_decide_unpack _); vm_compute; exact I.

Ltac bool_to_prop :=
  repeat match goal with
  | H : _ && _ = true |- _ => apply andb_prop in H as [? ?]
  | H : _ || _ = false |- _ => apply orb_false_elim in H as [? ?]
  | H : negb _ = true |- _ => apply negb_true_iff in H
  | H : negb _ = false |- _ => apply negb_false_iff in H
  | H : (_ =? _) = true |- _ => apply Z.eqb_eq in H
  | H : (_ =? _) = false |- _ => apply Z.eqb_neq in H
  | H : (_ <? _) = true |- _ => apply Z.ltb_lt in H
  | H : (_ <? _) = false |- _ => apply Z.ltb_ge in H
  | H : (_ <=? _) = true |- _ => apply Z.leb_le in H
  | H : (_ <=? _) = false |- _ => apply Z.leb_gt in H
  | H : (_ >? _) = _ |- _ => rewrite Z.gtb_ltb in H
  | H : (_ >=? _) = _ |- _ => rewrite Z.geb_leb in H
  end.
