(* ===== verification/Dlist.v ===== *)
(** * Doubly-linked lists (include/zephyr/sys/dlist.h)

    The intrusive list every kernel queue is built on, at pointer level: a
    store of [_dnode] structures addressed by location, each operation the
    sequence of loads and stores of the C function, [None] where the C code
    would follow a null or dangling pointer.  [dlist h l ns] says that the list
    head at [l] links the nodes [ns] in that order; the refinement lemmas show
    that every operation acts on [ns] as the list operation the components
    above use, and leaves every node outside the list alone. *)

From S2P Require Import Prelude.

Abbreviation loc := positive.

(** [struct _dnode]: [head]/[next] and [tail]/[prev] share their storage. *)
Record dnode := mkDnode { dn_next : option loc; dn_prev : option loc }.

Abbreviation dheap := (gmap loc dnode).

(** ** Loads and stores *)

Definition ld_next (h : dheap) (a : loc) : option (option loc) := dn_next <$> h !! a.
Definition ld_prev (h : dheap) (a : loc) : option (option loc) := dn_prev <$> h !! a.

Definition st_next (a : loc) (v : option loc) (h : dheap) : option dheap :=
  n ← h !! a; Some (<[a := mkDnode v (dn_prev n)]> h).
Definition st_prev (a : loc) (v : option loc) (h : dheap) : option dheap :=
  n ← h !! a; Some (<[a := mkDnode (dn_next n) v]> h).

(** ** Operations *)

Definition sys_dlist_init (l : loc) (h : dheap) : option dheap :=
  h ← st_next l (Some l) h;
  st_prev l (Some l) h.

Definition sys_dnode_init (n : loc) (h : dheap) : option dheap :=
  h ← st_next n None h;
  st_prev n None h.

Definition sys_dnode_is_linked (h : dheap) (n : loc) : option bool :=
  v ← ld_next h n; Some (bool_decide (v ≠ None)).

Definition sys_dlist_is_head (h : dheap) (l n : loc) : option bool :=
  v ← ld_next h l; Some (bool_decide (v = Some n)).

Definition sys_dlist_is_tail (h : dheap) (l n : loc) : option bool :=
  v ← ld_prev h l; Some (bool_decide (v = Some n)).

Definition sys_dlist_is_empty (h : dheap) (l : loc) : option bool :=
  v ← ld_next h l; Some (bool_decide (v = Some l)).

Definition sys_dlist_has_multiple_nodes (h : dheap) (l : loc) : option bool :=
  v ← ld_next h l; w ← ld_prev h l; Some (bool_decide (v ≠ w)).

Definition sys_dlist_peek_head (h : dheap) (l : loc) : option (option loc) :=
  e ← sys_dlist_is_empty h l;
  if (e : bool) then Some None else ld_next h l.

Definition sys_dlist_peek_head_not_empty (h : dheap) (l : loc) : option (option loc) :=
  ld_next h l.

Definition sys_dlist_peek_next_no_check (h : dheap) (l n : loc) : option (option loc) :=
  t ← ld_prev h l;
  if decide (t = Some n) then Some None else ld_next h n.

Definition sys_dlist_peek_next (h : dheap) (l : loc) (n : option loc) : option (option loc) :=
  match n with
  | Some n => sys_dlist_peek_next_no_check h l n
  | None => Some None
  end.

Definition sys_dlist_peek_prev_no_check (h : dheap) (l n : loc) : option (option loc) :=
  t ← ld_next h l;
  if decide (t = Some n) then Some None else ld_prev h n.

Definition sys_dlist_peek_prev (h : dheap) (l : loc) (n : option loc) : option (option loc) :=
  match n with
  | Some n => sys_dlist_peek_prev_no_check h l n
  | None => Some None
  end.

Definition sys_dlist_peek_tail (h : dheap) (l : loc) : option (option loc) :=
  e ← sys_dlist_is_empty h l;
  if (e : bool) then Some None else ld_prev h l.

Definition sys_dlist_append (l n : loc) (h : dheap) : option dheap :=
  tail ← ld_prev h l;
  h ← st_next n (Some l) h;
  h ← st_prev n tail h;
  tail ← tail;
  h ← st_next tail (Some n) h;
  st_prev l (Some n) h.

Definition sys_dlist_prepend (l n : loc) (h : dheap) : option dheap :=
  head ← ld_next h l;
  h ← st_next n head h;
  h ← st_prev n (Some l) h;
  head ← head;
  h ← st_prev head (Some n) h;
  st_next l (Some n) h.

Definition sys_dlist_insert (successor n : loc) (h : dheap) : option dheap :=
  prev ← ld_prev h successor;
  h ← st_prev n prev h;
  h ← st_next n (Some successor) h;
  prev ← prev;
  h ← st_next prev (Some n) h;
  st_prev successor (Some n) h.

Definition sys_dlist_remove (n : loc) (h : dheap) : option dheap :=
  prev ← ld_prev h n;
  next ← ld_next h n;
  prev ← prev;
  h ← st_next prev next h;
  next ← next;
  h ← st_prev next (Some prev) h;
  sys_dnode_init n h.

Definition sys_dlist_get (l : loc) (h : dheap) : option (option loc * dheap) :=
  e ← sys_dlist_is_empty h l;
  if (e : bool) then Some (None, h)
  else (node ← ld_next h l;
        node ← node;
        h ← sys_dlist_remove node h;
        Some (Some node, h)).

(** The [while] loop of [sys_dlist_insert_at]: walk from [pos] to the first node
    on which [cond] holds. *)
Fixpoint insert_at_pos (fuel : nat) (h : dheap) (l : loc) (cond : loc -> bool)
    (pos : option loc) : option (option loc) :=
  match fuel, pos with
  | _, None => Some None
  | O, Some _ => None
  | S fuel, Some p =>
      if cond p then Some (Some p)
      else (q ← sys_dlist_peek_next h l (Some p); insert_at_pos fuel h l cond q)
  end.

Definition sys_dlist_insert_at (fuel : nat) (l n : loc) (cond : loc -> bool)
    (h : dheap) : option dheap :=
  e ← sys_dlist_is_empty h l;
  if (e : bool) then sys_dlist_append l n h
  else (pos ← sys_dlist_peek_head h l;
        pos ← insert_at_pos fuel h l cond pos;
        match pos with
        | Some p => sys_dlist_insert p n h
        | None => sys_dlist_append l n h
        end).

(** [SYS_DLIST_FOR_EACH_NODE] counting the nodes it visits. *)
Fixpoint len_loop (fuel : nat) (h : dheap) (l : loc) (node : option loc) (len : nat)
    : option nat :=
  match fuel, node with
  | _, None => Some len
  | O, Some _ => None
  | S fuel, Some _ => q ← sys_dlist_peek_next h l node; len_loop fuel h l q (S len)
  end.

Definition sys_dlist_len (fuel : nat) (h : dheap) (l : loc) : option nat :=
  p ← sys_dlist_peek_head h l; len_loop fuel h l p 0.

(** ** Representation *)

(** [dseg h p ns q]: following [next] from [p] visits [ns] and reaches [q], and
    every [prev] field on the way points back. *)
Fixpoint dseg (h : dheap) (p : loc) (ns : list loc) (q : loc) : Prop :=
  match ns with
  | [] => ld_next h p = Some (Some q) /\ ld_prev h q = Some (Some p)
  | x :: ns => (ld_next h p = Some (Some x) /\ ld_prev h x = Some (Some p)) /\ dseg h x ns q
  end.

Definition dlist (h : dheap) (l : loc) (ns : list loc) : Prop :=
  NoDup (l :: ns) /\ dseg h l ns l.

(** [h'] agrees with [h] on every node outside [X]. *)
Definition same_outside (X : list loc) (h h' : dheap) : Prop :=
  forall a, a ∉ X -> h' !! a = h !! a.

Section Laws.
Implicit Types (h : dheap) (a b l n p q : loc) (ns : list loc).

Lemma st_next_spec a v h :
  is_Some (h !! a) ->
  exists h', st_next a v h = Some h' /\
    (forall b, ld_next h' b = if decide (b = a) then Some v else ld_next h b) /\
    (forall b, ld_prev h' b = ld_prev h b) /\ same_outside [a] h h'.
Proof.
  intros [x Hx]. unfold st_next, ld_next, ld_prev, same_outside. rewrite Hx. cbn.
  eexists. split; [done|]. split_and!.
  - intros b. case_decide as E; subst; by simplify_map_eq.
  - intros b. destruct (decide (b = a)); subst; by simplify_map_eq.
  - intros b Hb. rewrite lookup_insert_ne; set_solver.
Qed.

Lemma st_prev_spec a v h :
  is_Some (h !! a) ->
  exists h', st_prev a v h = Some h' /\
    (forall b, ld_prev h' b = if decide (b = a) then Some v else ld_prev h b) /\
    (forall b, ld_next h' b = ld_next h b) /\ same_outside [a] h h'.
Proof.
  intros [x Hx]. unfold st_prev, ld_next, ld_prev, same_outside. rewrite Hx. cbn.
  eexists. split; [done|]. split_and!.
  - intros b. case_decide as E; subst; by simplify_map_eq.
  - intros b. destruct (decide (b = a)); subst; by simplify_map_eq.
  - intros b Hb. rewrite lookup_insert_ne; set_solver.
Qed.

Lemma ld_next_is_Some h a v : ld_next h a = Some v -> is_Some (h !! a).
Proof. unfold ld_next. destruct (h !! a); naive_solver. Qed.

Lemma ld_prev_is_Some h a v : ld_prev h a = Some v -> is_Some (h !! a).
Proof. unfold ld_prev. destruct (h !! a); naive_solver. Qed.

Lemma ld_next_Some h a : is_Some (h !! a) <-> is_Some (ld_next h a).
Proof. unfold ld_next. by rewrite fmap_is_Some. Qed.

Lemma ld_prev_Some h a : is_Some (h !! a) <-> is_Some (ld_prev h a).
Proof. unfold ld_prev. by rewrite fmap_is_Some. Qed.

Lemma same_outside_trans X Y h1 h2 h3 :
  same_outside X h1 h2 -> same_outside Y h2 h3 -> same_outside (X ++ Y) h1 h3.
Proof. unfold same_outside. intros H1 H2 a Ha. rewrite H2, H1; set_solver. Qed.

Lemma same_outside_mono X Y h1 h2 :
  X ⊆ Y -> same_outside X h1 h2 -> same_outside Y h1 h2.
Proof. unfold same_outside. set_solver. Qed.

Lemma dseg_app h p ns1 x ns2 q :
  dseg h p (ns1 ++ x :: ns2) q <-> dseg h p ns1 x /\ dseg h x ns2 q.
Proof. revert p. induction ns1 as [|y ns1 IH]; intros p; cbn; [tauto|]. rewrite IH. tauto. Qed.

(** A segment only depends on the [next] fields of its sources and the [prev]
    fields of its targets. *)
Lemma dseg_frame h h' p ns q :
  (forall a, a ∈ p :: ns -> ld_next h' a = ld_next h a) ->
  (forall a, a ∈ ns ++ [q] -> ld_prev h' a = ld_prev h a) ->
  dseg h p ns q -> dseg h' p ns q.
Proof.
  revert p. induction ns as [|x ns IH]; intros p Hn Hp; cbn.
  - intros [H1 H2]. rewrite Hn, Hp by set_solver. done.
  - intros [[H1 H2] H3]. rewrite Hn, Hp by set_solver. split; [done|].
    apply IH; [| |done]; intros; [apply Hn | apply Hp]; set_solver.
Qed.

Lemma dseg_source h p ns q : dseg h p ns q -> is_Some (h !! p).
Proof. destruct ns; cbn; intros H; eapply ld_next_is_Some; apply H. Qed.

Lemma default_last_cons {A} (a x : A) (l : list A) :
  default a (last (x :: l)) = default x (last l).
Proof. rewrite last_cons. by destruct (last l). Qed.

Lemma dseg_last h p ns q :
  dseg h p ns q -> ld_prev h q = Some (Some (default p (last ns))).
Proof.
  revert p. induction ns as [|x ns IH]; intros p; [cbn; tauto|].
  rewrite default_last_cons. intros [_ H]. by apply IH.
Qed.

Lemma dseg_split h p ns1 ns2 q :
  dseg h p (ns1 ++ ns2) q ->
  dseg h p ns1 (default q (head ns2)) /\ dseg h (default p (last ns1)) ns2 q.
Proof.
  revert p. induction ns1 as [|x ns1 IH]; intros p; [|rewrite default_last_cons]; cbn.
  - intros H. split; [|done]. destruct ns2; cbn in *; tauto.
  - intros [H1 H2]. specialize (IH x H2). tauto.
Qed.

(** Redirect the end of a segment to [n]. *)
Lemma dseg_new_end h h' p ns q n :
  let t := default p (last ns) in
  NoDup (p :: ns) ->
  (forall a, a ∈ p :: ns -> a <> t -> ld_next h' a = ld_next h a) ->
  (forall a, a ∈ ns -> ld_prev h' a = ld_prev h a) ->
  ld_next h' t = Some (Some n) -> ld_prev h' n = Some (Some t) ->
  dseg h p ns q -> dseg h' p ns n.
Proof.
  revert p. induction ns as [|x ns IH]; intros p t Hnd Hn Hp Ht Hq; [done|].
  unfold t in *. rewrite default_last_cons in *. cbn. intros [[H1 H2] H3].
  apply NoDup_cons in Hnd as [Hpx Hnd].
  assert (default x (last ns) <> p).
  { intros <-. apply Hpx. destruct (last ns) as [y|] eqn:E; cbn; [|set_solver].
    apply last_Some in E as [l' ->]. set_solver. }
  rewrite Hn, Hp by set_solver. split; [done|]. apply IH; try done; intros; [apply Hn|apply Hp]; set_solver.
Qed.

(** The effect of linking [n] between the two neighbours [p] and [q]. *)
Definition linked_between (h h' : dheap) (p n q : loc) : Prop :=
  (forall b, ld_next h' b = if decide (b = p) then Some (Some n)
                            else if decide (b = n) then Some (Some q) else ld_next h b) /\
  (forall b, ld_prev h' b = if decide (b = q) then Some (Some n)
                            else if decide (b = n) then Some (Some p) else ld_prev h b).

Lemma default_last_elem {A} (a : A) (l : list A) : default a (last l) ∈ a :: l.
Proof. destruct (last l) as [y|] eqn:E; cbn; [|set_solver].
  apply last_Some in E as [l' ->]. set_solver. Qed.

Lemma default_head_elem {A} (a : A) (l : list A) : default a (head l) ∈ l ++ [a].
Proof. destruct l; cbn; set_solver. Qed.

Lemma dlist_link h h' l ns1 ns2 n :
  dlist h l (ns1 ++ ns2) -> n ∉ l :: ns1 ++ ns2 ->
  linked_between h h' (default l (last ns1)) n (default l (head ns2)) ->
  dlist h' l (ns1 ++ n :: ns2).
Proof.
  intros [Hnd Hd] Hn [H1 H2]. pose proof (dseg_split _ _ _ _ _ Hd) as [Ha Hb].
  pose proof (default_last_elem l ns1) as Hp. pose proof (default_head_elem l ns2) as Hq.
  set (p := default l (last ns1)) in *. set (q := default l (head ns2)) in *.
  assert (Hnd' := Hnd). apply NoDup_cons in Hnd' as [Hl Hnd'].
  apply NoDup_app in Hnd' as (Hnd1 & Hdis & Hnd2).
  rewrite not_elem_of_cons, not_elem_of_app in Hn. destruct Hn as (Hnl & Hn1 & Hn2).
  rewrite not_elem_of_app in Hl. destruct Hl as (Hl1 & Hl2).
  assert (Hpn : p <> n) by (intros E; rewrite E in Hp; apply elem_of_cons in Hp as [?|?]; congruence).
  assert (Hqn : q <> n) by (intros E; rewrite E in Hq;
    apply elem_of_app in Hq as [?|?%list_elem_of_singleton]; congruence).
  split.
  { rewrite <- Permutation_middle, Permutation_swap. apply NoDup_cons. split; [|done].
    by rewrite not_elem_of_cons, not_elem_of_app. }
  apply dseg_app. split.
  - eapply dseg_new_end; try exact Ha.
    + by apply NoDup_cons.
    + intros a Hin Hne. rewrite H1, !decide_False; [done| |done].
      intros ->. apply elem_of_cons in Hin as [?|?]; congruence.
    + intros a Hin. rewrite H2, !decide_False; [done|congruence|].
      intros ->. apply elem_of_app in Hq as [?|?%list_elem_of_singleton]; [by eapply Hdis|congruence].
    + by rewrite H1, decide_True.
    + by rewrite H2, decide_False, decide_True.
  - unfold q in *. destruct ns2 as [|y ns2]; cbn in *.
    + by rewrite H1, H2, decide_False, !decide_True.
    + rewrite H1, H2, decide_False, !decide_True by done. split; [done|].
      apply NoDup_cons in Hnd2 as [Hy Hnd2]. rewrite not_elem_of_cons in Hn2, Hl2.
      eapply dseg_frame; [| |apply Hb]; intros a Hin.
      * rewrite H1, !decide_False; [done| |]; intros ->.
        -- apply elem_of_cons in Hin as [?|?]; naive_solver.
        -- apply elem_of_cons in Hp as [Hp|Hp].
           ++ apply elem_of_cons in Hin as [?|?]; rewrite Hp in *; naive_solver.
           ++ by apply (Hdis p).
      * rewrite H2, !decide_False; [done| |]; intros ->;
          apply elem_of_app in Hin as [?|?%list_elem_of_singleton]; naive_solver.
Qed.

Lemma dseg_join h p ns1 ns2 q :
  dseg h p ns1 (default q (head ns2)) -> dseg h (default p (last ns1)) ns2 q ->
  dseg h p (ns1 ++ ns2) q.
Proof.
  revert p. induction ns1 as [|x ns1 IH]; intros p; [done|].
  rewrite default_last_cons. cbn. intros [H1 H2] H3. auto.
Qed.

(** The effect of unlinking [n] from between [p] and [q]. *)
Definition unlinked_between (h h' : dheap) (p n q : loc) : Prop :=
  (forall b, b <> n -> ld_next h' b = if decide (b = p) then Some (Some q) else ld_next h b) /\
  (forall b, b <> n -> ld_prev h' b = if decide (b = q) then Some (Some p) else ld_prev h b).

Lemma dlist_unlink h h' l ns1 ns2 n :
  dlist h l (ns1 ++ n :: ns2) ->
  unlinked_between h h' (default l (last ns1)) n (default l (head ns2)) ->
  dlist h' l (ns1 ++ ns2).
Proof.
  intros [Hnd Hd] [H1 H2]. apply dseg_app in Hd as [Ha Hb].
  pose proof (default_last_elem l ns1) as Hp. pose proof (default_head_elem l ns2) as Hq.
  rewrite <- Permutation_middle, Permutation_swap in Hnd.
  apply NoDup_cons in Hnd as [Hn Hnd]. assert (Hnd' := Hnd).
  apply NoDup_cons in Hnd' as [Hl Hnd'].
  apply NoDup_app in Hnd' as (Hnd1 & Hdis & Hnd2).
  rewrite not_elem_of_cons, not_elem_of_app in Hn. destruct Hn as (Hnl & Hn1 & Hn2).
  rewrite not_elem_of_app in Hl. destruct Hl as (Hl1 & Hl2).
  set (p := default l (last ns1)) in *. set (q := default l (head ns2)) in *.
  assert (Hpn : p <> n) by (intros E; rewrite E in Hp; apply elem_of_cons in Hp as [?|?]; congruence).
  assert (Hqn : q <> n) by (intros E; rewrite E in Hq;
    apply elem_of_app in Hq as [?|?%list_elem_of_singleton]; congruence).
  split; [done|]. apply dseg_join.
  - eapply dseg_new_end; try exact Ha; try (by rewrite ?H1, ?H2, ?decide_True).
    + by apply NoDup_cons.
    + intros a Hin Hne. rewrite H1, !decide_False; [done|done|].
      intros ->. apply elem_of_cons in Hin as [?|?]; congruence.
    + intros a Hin. rewrite H2, !decide_False; [done| |congruence].
      intros ->. apply elem_of_app in Hq as [?|?%list_elem_of_singleton]; [by eapply Hdis|congruence].
  - fold p. unfold q in *. destruct ns2 as [|y ns2]; cbn in *.
    + by rewrite H1, H2, !decide_True.
    + rewrite H1, H2, !decide_True by done. split; [done|].
      apply NoDup_cons in Hnd2 as [Hy Hnd2]. rewrite not_elem_of_cons in Hn2, Hl2.
      eapply dseg_frame; [| |apply Hb]; intros a Hin.
      * rewrite H1, !decide_False; [done| |]; intros ->.
        -- apply elem_of_cons in Hp as [Hp|Hp].
           ++ apply elem_of_cons in Hin as [?|?]; rewrite Hp in *; naive_solver.
           ++ by apply (Hdis p).
        -- apply elem_of_cons in Hin as [?|?]; naive_solver.
      * rewrite H2, !decide_False; [done| |]; intros ->;
          apply elem_of_app in Hin as [?|?%list_elem_of_singleton]; naive_solver.
Qed.

(** What a list head's own fields hold. *)
Lemma dlist_next h l ns : dlist h l ns -> ld_next h l = Some (Some (default l (head ns))).
Proof. intros [_ H]. destruct ns; cbn in *; apply H. Qed.

Lemma dlist_prev h l ns : dlist h l ns -> ld_prev h l = Some (Some (default l (last ns))).
Proof. intros [_ H]. by apply dseg_last. Qed.

Lemma dlist_mid h l ns1 n ns2 :
  dlist h l (ns1 ++ n :: ns2) ->
  ld_prev h n = Some (Some (default l (last ns1))) /\
  ld_next h n = Some (Some (default l (head ns2))).
Proof.
  intros [_ H]. apply dseg_app in H as [H1 H2]. split; [by apply dseg_last|].
  destruct ns2; cbn in *; apply H2.
Qed.

Lemma dlist_elem_Some h l ns a : dlist h l ns -> a ∈ l :: ns -> is_Some (h !! a).
Proof.
  intros Hd. rewrite elem_of_cons. intros [->|Ha].
  - by eapply ld_next_is_Some, dlist_next.
  - apply list_elem_of_split in Ha as (ns1 & ns2 & ->).
    eapply ld_next_is_Some, dlist_mid, Hd.
Qed.

Lemma head_elem_default l ns : default l (head ns) ∈ l :: ns.
Proof. destruct ns; cbn; set_solver. Qed.
End Laws.

(** Run the next store of an operation. *)
Ltac dl_store :=
  match goal with
  | |- context [st_next ?a ?v ?h] =>
      let h' := fresh "h" in let E := fresh "E" in let N := fresh "N" in
      let P := fresh "P" in let S := fresh "S" in
      destruct (st_next_spec a v h) as (h' & E & N & P & S);
      [| rewrite E; cbn [mbind option_bind]]
  | |- context [st_prev ?a ?v ?h] =>
      let h' := fresh "h" in let E := fresh "E" in let N := fresh "N" in
      let P := fresh "P" in let S := fresh "S" in
      destruct (st_prev_spec a v h) as (h' & E & P & N & S);
      [| rewrite E; cbn [mbind option_bind]]
  end.

(** A location stays allocated across the stores made so far. *)
Ltac dl_alloc :=
  repeat match goal with
  | P : forall b, ld_prev ?h b = if decide (b = _) then _ else _ |- is_Some (?h !! _) =>
      rewrite ld_prev_Some, P; case_decide; [by eexists|rewrite <- ld_prev_Some]
  | N : forall b, ld_next ?h b = if decide (b = _) then _ else _ |- is_Some (?h !! _) =>
      rewrite ld_next_Some, N; case_decide; [by eexists|rewrite <- ld_next_Some]
  end.

(** The frame of a run of stores. *)
Ltac dl_frame :=
  let a := fresh "a" in let Ha := fresh "Ha" in
  intros a Ha;
  repeat match goal with
  | S : same_outside [_] _ ?h |- ?h !! a = _ => rewrite (S a); [| set_solver]
  end; done.

Section Operations.
Implicit Types (h : dheap) (a b l n p q : loc) (ns : list loc).

(** [sys_dlist_append] adds the node at the end of the list. *)
Lemma sys_dlist_append_spec h l ns n :
  dlist h l ns -> n ∉ l :: ns -> is_Some (h !! n) ->
  exists h', sys_dlist_append l n h = Some h' /\ dlist h' l (ns ++ [n]) /\
    same_outside (n :: l :: ns) h h'.
Proof.
  intros Hd Hn Hs. unfold sys_dlist_append. rewrite (dlist_prev _ _ _ Hd). cbn.
  set (t := default l (last ns)).
  assert (Ht : t ∈ l :: ns) by apply default_last_elem.
  assert (is_Some (h !! t)) by (by eapply dlist_elem_Some).
  assert (is_Some (h !! l)) by (eapply dlist_elem_Some; [done|set_solver]).
  assert (n <> t) by (intros ->; done). assert (n <> l) by set_solver.
  do 4 (dl_store; [by dl_alloc|]). eexists. split; [done|]. split; [|dl_frame].
  eapply (dlist_link h); rewrite ?app_nil_r; [done..|]. split; intros b; fold t; cbn [default head from_option id].
  - rewrite N2, N1, N0, N. repeat case_decide; subst; congruence.
  - rewrite P2, P1, P0, P. repeat case_decide; subst; congruence.
Qed.

(** [sys_dlist_prepend] adds the node at the front of the list. *)
Lemma sys_dlist_prepend_spec h l ns n :
  dlist h l ns -> n ∉ l :: ns -> is_Some (h !! n) ->
  exists h', sys_dlist_prepend l n h = Some h' /\ dlist h' l (n :: ns) /\
    same_outside (n :: l :: ns) h h'.
Proof.
  intros Hd Hn Hs. unfold sys_dlist_prepend. rewrite (dlist_next _ _ _ Hd). cbn.
  set (t := default l (head ns)).
  assert (Ht : t ∈ l :: ns) by apply head_elem_default.
  assert (is_Some (h !! t)) by (by eapply dlist_elem_Some).
  assert (is_Some (h !! l)) by (eapply dlist_elem_Some; [done|set_solver]).
  assert (n <> t) by (intros ->; done). assert (n <> l) by set_solver.
  do 4 (dl_store; [by dl_alloc|]). eexists. split; [done|]. split; [|dl_frame].
  eapply (dlist_link h _ _ []); [done..|]. split; intros b; fold t; cbn [default last from_option id].
  - rewrite N2, N1, N0, N. repeat case_decide; subst; congruence.
  - rewrite P2, P1, P0, P. repeat case_decide; subst; congruence.
Qed.

(** [sys_dlist_insert] adds the node just before its successor. *)
Lemma sys_dlist_insert_spec h l ns1 s ns2 n :
  dlist h l (ns1 ++ s :: ns2) -> n ∉ l :: ns1 ++ s :: ns2 -> is_Some (h !! n) ->
  exists h', sys_dlist_insert s n h = Some h' /\ dlist h' l (ns1 ++ n :: s :: ns2) /\
    same_outside (n :: l :: ns1 ++ s :: ns2) h h'.
Proof.
  intros Hd Hn Hs. unfold sys_dlist_insert.
  destruct (dlist_mid _ _ _ _ _ Hd) as [Hprev _]. rewrite Hprev. cbn.
  set (t := default l (last ns1)).
  assert (Ht : t ∈ l :: ns1 ++ s :: ns2).
  { pose proof (default_last_elem l ns1). unfold t. set_solver. }
  assert (is_Some (h !! t)) by (by eapply dlist_elem_Some).
  assert (is_Some (h !! s)) by (eapply dlist_elem_Some; [done|set_solver]).
  assert (n <> t) by (intros ->; done). assert (n <> s) by set_solver.
  do 4 (dl_store; [by dl_alloc|]). eexists. split; [done|]. split; [|dl_frame].
  eapply (dlist_link h); [done..|]. split; intros b; fold t; cbn [default head from_option id].
  - rewrite N2, N1, N0, N. repeat case_decide; subst; congruence.
  - rewrite P2, P1, P0, P. repeat case_decide; subst; congruence.
Qed.

(** [sys_dlist_remove] takes the node out and leaves it unlinked. *)
Lemma sys_dlist_remove_spec h l ns1 n ns2 :
  dlist h l (ns1 ++ n :: ns2) ->
  exists h', sys_dlist_remove n h = Some h' /\ dlist h' l (ns1 ++ ns2) /\
    sys_dnode_is_linked h' n = Some false /\ same_outside (l :: ns1 ++ n :: ns2) h h'.
Proof.
  intros Hd. unfold sys_dlist_remove, sys_dnode_init.
  destruct (dlist_mid _ _ _ _ _ Hd) as [Hprev Hnext]. rewrite Hprev, Hnext. cbn.
  set (t := default l (last ns1)) in *. set (q := default l (head ns2)) in *.
  assert (Ht : t ∈ l :: ns1 ++ n :: ns2).
  { pose proof (default_last_elem l ns1). unfold t. set_solver. }
  assert (Hq : q ∈ l :: ns1 ++ n :: ns2).
  { pose proof (head_elem_default l ns2). unfold q. set_solver. }
  assert (is_Some (h !! t)) by (by eapply dlist_elem_Some).
  assert (is_Some (h !! q)) by (by eapply dlist_elem_Some).
  assert (is_Some (h !! n)) by (eapply dlist_elem_Some; [done|set_solver]).
  do 4 (dl_store; [by dl_alloc|]). eexists. split; [done|]. split_and!; [| |dl_frame].
  - eapply dlist_unlink; [done|]. split; intros b Hb; fold t; fold q.
    + rewrite N2, N1, N0, N. repeat case_decide; subst; congruence.
    + rewrite P2, P1, P0, P. repeat case_decide; subst; congruence.
  - unfold sys_dnode_is_linked. rewrite N2, N1. by rewrite decide_True.
Qed.

Lemma sys_dlist_is_empty_spec h l ns :
  dlist h l ns -> sys_dlist_is_empty h l = Some (bool_decide (ns = [])).
Proof.
  intros Hd. unfold sys_dlist_is_empty. rewrite (dlist_next _ _ _ Hd). cbn. f_equal.
  destruct ns as [|x ns]; cbn.
  - by rewrite !bool_decide_true.
  - destruct Hd as [Hnd _]. apply NoDup_cons in Hnd as [Hl _].
    rewrite bool_decide_false; [done|]. intros [= E]. apply Hl. rewrite <- E. set_solver.
Qed.

Lemma sys_dlist_peek_head_spec h l ns :
  dlist h l ns -> sys_dlist_peek_head h l = Some (head ns).
Proof.
  intros Hd. unfold sys_dlist_peek_head.
  rewrite (sys_dlist_is_empty_spec _ _ _ Hd), (dlist_next _ _ _ Hd). cbn.
  by destruct ns.
Qed.

Lemma sys_dlist_peek_tail_spec h l ns :
  dlist h l ns -> sys_dlist_peek_tail h l = Some (last ns).
Proof.
  intros Hd. unfold sys_dlist_peek_tail.
  rewrite (sys_dlist_is_empty_spec _ _ _ Hd), (dlist_prev _ _ _ Hd). cbn.
  destruct ns as [|x ns]; [done|]. cbn.
  by destruct (last (x :: ns)) eqn:E; [|apply last_None in E].
Qed.

Lemma sys_dlist_peek_next_spec h l ns1 n ns2 :
  dlist h l (ns1 ++ n :: ns2) -> sys_dlist_peek_next h l (Some n) = Some (head ns2).
Proof.
  intros Hd. cbn. unfold sys_dlist_peek_next_no_check.
  rewrite (dlist_prev _ _ _ Hd). cbn. rewrite last_app_cons.
  destruct (dlist_mid _ _ _ _ _ Hd) as [_ ->].
  destruct ns2 as [|x ns2]; cbn [head default from_option].
  - by rewrite decide_True.
  - rewrite decide_False; [done|]. rewrite !default_last_cons. intros [= E].
    destruct Hd as [Hnd _]. apply NoDup_cons in Hnd as [_ Hnd].
    apply NoDup_app in Hnd as (_ & _ & Hnd). apply NoDup_cons in Hnd as [Hn _].
    apply Hn. rewrite <- E. apply default_last_elem.
Qed.

(** Walking from a node reaches the first later node that satisfies [cond]. *)
Lemma insert_at_pos_spec fuel h l cond ns1 ns2 :
  dlist h l (ns1 ++ ns2) -> length ns2 <= fuel ->
  insert_at_pos fuel h l cond (head ns2) = Some (list_find cond ns2 ≫= Some ∘ snd).
Proof.
  revert fuel ns1. induction ns2 as [|x ns2 IH]; intros fuel ns1 Hd Hf; [by destruct fuel|].
  destruct fuel as [|fuel]; cbn in Hf; [lia|]. cbn [insert_at_pos head].
  rewrite (sys_dlist_peek_next_spec _ _ _ _ _ Hd). cbn [mbind option_bind].
  cbn [list_find]. destruct (cond x) eqn:Ec; [by rewrite decide_True|].
  rewrite decide_False by (cbn; tauto). rewrite (IH fuel (ns1 ++ [x])); [|by rewrite <- app_assoc|lia].
  by destruct (list_find cond ns2) as [[]|].
Qed.

Lemma len_loop_spec fuel h l ns1 ns2 k :
  dlist h l (ns1 ++ ns2) -> length ns2 <= fuel ->
  len_loop fuel h l (head ns2) k = Some (k + length ns2).
Proof.
  revert fuel ns1 k. induction ns2 as [|x ns2 IH]; intros fuel ns1 k Hd Hf.
  { cbn. rewrite Nat.add_0_r. by destruct fuel. }
  destruct fuel as [|fuel]; cbn in Hf; [lia|]. cbn [len_loop head].
  rewrite (sys_dlist_peek_next_spec _ _ _ _ _ Hd). cbn [mbind option_bind].
  rewrite (IH fuel (ns1 ++ [x])); [|by rewrite <- app_assoc|lia]. cbn. f_equal. lia.
Qed.

Lemma sys_dlist_init_spec h l :
  is_Some (h !! l) -> exists h', sys_dlist_init l h = Some h' /\ dlist h' l [] /\ same_outside [l] h h'.
Proof.
  intros Hs. unfold sys_dlist_init. do 2 (dl_store; [by dl_alloc|]).
  eexists. split; [done|]. split; [|dl_frame]. split; [apply NoDup_singleton|]. cbn.
  by rewrite N0, N, P0, !decide_True.
Qed.

(** Where [sys_dlist_insert_at] puts a node. *)
Definition insert_at_spec (cond : loc -> bool) (n : loc) ns : list loc :=
  match list_find cond ns with
  | Some (i, _) => take i ns ++ n :: drop i ns
  | None => ns ++ [n]
  end.

Lemma sys_dlist_insert_at_spec fuel cond h l ns n :
  dlist h l ns -> n ∉ l :: ns -> is_Some (h !! n) -> length ns <= fuel ->
  exists h', sys_dlist_insert_at fuel l n cond h = Some h' /\
    dlist h' l (insert_at_spec cond n ns) /\ same_outside (n :: l :: ns) h h'.
Proof.
  intros Hd Hn Hs Hf. unfold sys_dlist_insert_at.
  rewrite (sys_dlist_is_empty_spec _ _ _ Hd), (sys_dlist_peek_head_spec _ _ _ Hd). cbn [mbind option_bind].
  destruct (bool_decide_reflect (ns = [])) as [->|_]; [by apply (sys_dlist_append_spec h l [])|].
  rewrite (insert_at_pos_spec fuel h l cond [] ns Hd Hf). cbn [mbind option_bind].
  unfold insert_at_spec. destruct (list_find cond ns) as [[i x]|] eqn:E; cbn;
    [|by apply sys_dlist_append_spec].
  apply list_find_Some in E as (Hi & _ & _).
  pose proof (take_drop_middle ns i x Hi) as Hsp. rewrite (drop_S _ _ _ Hi).
  destruct (sys_dlist_insert_spec h l (take i ns) x (drop (S i) ns) n) as (h' & E & Hd' & Hso);
    [by rewrite Hsp..|done|].
  rewrite Hsp in Hso. eauto.
Qed.

Lemma sys_dlist_get_spec h l ns :
  dlist h l ns ->
  exists h', sys_dlist_get l h = Some (head ns, h') /\ dlist h' l (tail ns) /\
    (forall n, head ns = Some n -> sys_dnode_is_linked h' n = Some false) /\
    same_outside (l :: ns) h h'.
Proof.
  intros Hd. unfold sys_dlist_get.
  rewrite (sys_dlist_is_empty_spec _ _ _ Hd), (dlist_next _ _ _ Hd).
  destruct ns as [|x ns]; cbn; [by exists h|].
  destruct (sys_dlist_remove_spec h l [] x ns Hd) as (h' & -> & Hd' & Hl & Hso). cbn.
  exists h'. split_and!; [done..| |done]. by intros n [= <-].
Qed.

Lemma dlist_size h l ns : dlist h l ns -> length ns <= size h.
Proof.
  intros Hd. assert (Hnd := proj1 Hd). apply NoDup_cons in Hnd as [_ Hnd].
  rewrite <- size_dom, <- (size_list_to_set (C := gset loc) ns Hnd).
  apply subseteq_size. intros a Ha%elem_of_list_to_set. apply elem_of_dom.
  eapply dlist_elem_Some; [done|]. by right.
Qed.
End Operations.

(** ** Refinement *)

(** A call on the list at [l]; the result is the node [sys_dlist_get] returns. *)
Inductive dl_op :=
  | DL_append (n : loc)
  | DL_prepend (n : loc)
  | DL_insert (successor n : loc)
  | DL_insert_at (n : loc) (cond : loc -> bool)
  | DL_remove (n : loc)
  | DL_get.

Definition dl_exec (l : loc) (o : dl_op) (h : dheap) : option (option loc * dheap) :=
  match o with
  | DL_append n => h ← sys_dlist_append l n h; Some (None, h)
  | DL_prepend n => h ← sys_dlist_prepend l n h; Some (None, h)
  | DL_insert s n => h ← sys_dlist_insert s n h; Some (None, h)
  | DL_insert_at n cond => h ← sys_dlist_insert_at (size h) l n cond h; Some (None, h)
  | DL_remove n => h ← sys_dlist_remove n h; Some (None, h)
  | DL_get => sys_dlist_get l h
  end.

(** The same call on the sequence of nodes; [None] when the caller breaks the rule
    that a node being added is in no list and one being removed is in this one. *)
Definition dl_spec (l : loc) (o : dl_op) (ns : list loc) : option (option loc * list loc) :=
  match o with
  | DL_append n => if decide (n ∈ l :: ns) then None else Some (None, ns ++ [n])
  | DL_prepend n => if decide (n ∈ l :: ns) then None else Some (None, n :: ns)
  | DL_insert s n =>
      if decide (n ∈ l :: ns) then None
      else '(i, _) ← list_find (s =.) ns; Some (None, take i ns ++ n :: drop i ns)
  | DL_insert_at n cond =>
      if decide (n ∈ l :: ns) then None else Some (None, insert_at_spec cond n ns)
  | DL_remove n => '(i, _) ← list_find (n =.) ns; Some (None, delete i ns)
  | DL_get => Some (head ns, tail ns)
  end.

Definition dl_op_node (o : dl_op) : option loc :=
  match o with
  | DL_append n | DL_prepend n | DL_insert _ n | DL_insert_at n _ | DL_remove n => Some n
  | DL_get => None
  end.

Fixpoint run_ops {S} (step : dl_op -> S -> option (option loc * S)) (os : list dl_op) (s : S)
    : option (list (option loc) * S) :=
  match os with
  | [] => Some ([], s)
  | o :: os => '(r, s) ← step o s; '(rs, s) ← run_ops step os s; Some (r :: rs, s)
  end.

(** Every operation keeps nodes allocated. *)
Lemma same_outside_alloc X h h' a :
  same_outside X h h' -> (a ∈ X -> is_Some (h' !! a)) -> is_Some (h !! a) -> is_Some (h' !! a).
Proof. intros Hso Hin Ha. destruct (decide (a ∈ X)); [auto|]. by rewrite Hso. Qed.

Lemma is_linked_alloc h n b : sys_dnode_is_linked h n = Some b -> is_Some (h !! n).
Proof. unfold sys_dnode_is_linked, ld_next. destruct (h !! n); [by eexists|done]. Qed.

(** A node that was added is part of the new list, one that was removed is left
    allocated: the operation's touched nodes all stay allocated. *)
Lemma dlist_alloc h h' l ns' X :
  dlist h' l ns' -> same_outside X h h' ->
  (forall a, a ∈ X -> a ∈ l :: ns' \/ is_Some (h' !! a)) ->
  forall a, is_Some (h !! a) -> is_Some (h' !! a).
Proof.
  intros Hd Hso HX a. apply (same_outside_alloc X); [done|].
  intros [Ha|Ha]%HX; [by eapply dlist_elem_Some|done].
Qed.

Lemma list_find_eq_split (n : loc) ns i x :
  list_find (n =.) ns = Some (i, x) -> x = n /\ ns = take i ns ++ n :: drop (S i) ns.
Proof.
  intros (Hi & E & _)%list_find_Some. subst x. split; [done|]. symmetry. by apply take_drop_middle.
Qed.

Lemma insert_at_spec_elem cond n ns a : a ∈ n :: ns -> a ∈ insert_at_spec cond n ns.
Proof.
  unfold insert_at_spec. destruct (list_find cond ns) as [[i x]|]; [|set_solver].
  rewrite <- (take_drop i ns) at 1. set_solver.
Qed.

Lemma dl_exec_refines l o h ns r ns' :
  dlist h l ns -> (forall n, dl_op_node o = Some n -> is_Some (h !! n)) ->
  dl_spec l o ns = Some (r, ns') ->
  exists h', dl_exec l o h = Some (r, h') /\ dlist h' l ns' /\
    forall a, is_Some (h !! a) -> is_Some (h' !! a).
Proof.
  intros Hd Ha Hs. destruct o as [n|n|s n|n cond|n|]; cbn in *.
  - case_decide; [done|]. simplify_eq.
    destruct (sys_dlist_append_spec h l ns n) as (h' & -> & Hd' & Hso); [auto..|].
    exists h'. split_and!; [done..|]. eapply dlist_alloc; [done..|]. set_solver.
  - case_decide; [done|]. simplify_eq.
    destruct (sys_dlist_prepend_spec h l ns n) as (h' & -> & Hd' & Hso); [auto..|].
    exists h'. split_and!; [done..|]. eapply dlist_alloc; [done..|]. set_solver.
  - case_decide as Hn; [done|]. destruct (list_find (s =.) ns) as [[i x]|] eqn:E; [|done].
    cbn in Hs. simplify_eq. destruct (list_find_eq_split _ _ _ _ E) as [-> Esp].
    rewrite Esp in Hn, Hd.
    destruct (sys_dlist_insert_spec h l (take i ns) s (drop (S i) ns) n) as (h' & -> & Hd' & Hso);
      [auto..|].
    assert (Ed : s :: drop (S i) ns = drop i ns).
    { apply list_find_Some in E as (Hi & _). by rewrite (drop_S _ _ _ Hi). }
    rewrite Ed in Hd'. exists h'. split_and!; [done..|]. eapply dlist_alloc; [done..|].
    rewrite Ed. set_solver.
  - case_decide; [done|]. simplify_eq.
    destruct (sys_dlist_insert_at_spec (size h) cond h l ns n) as (h' & -> & Hd' & Hso);
      [eauto using dlist_size..|].
    exists h'. split_and!; [done..|]. eapply dlist_alloc; [done..|].
    intros a Hin. left. pose proof (insert_at_spec_elem cond n ns a). set_solver.
  - destruct (list_find (n =.) ns) as [[i x]|] eqn:E; [|done].
    cbn in Hs. simplify_eq. destruct (list_find_eq_split _ _ _ _ E) as [-> Esp].
    rewrite Esp in Hd. destruct (sys_dlist_remove_spec h l (take i ns) n (drop (S i) ns) Hd)
      as (h' & -> & Hd' & Hl & Hso).
    apply is_linked_alloc in Hl. rewrite <- delete_take_drop in Hd'.
    exists h'. split_and!; [done..|]. eapply dlist_alloc; [done..|].
    intros a Hin. destruct (decide (a = n)) as [->|]; [by right|left].
    rewrite delete_take_drop. set_solver.
  - simplify_eq. destruct (sys_dlist_get_spec h l ns Hd) as (h' & -> & Hd' & Hl & Hso).
    exists h'. split_and!; [done..|]. eapply dlist_alloc; [done..|].
    intros a Hin. destruct ns as [|x ns]; [by left|].
    destruct (decide (a = x)) as [->|]; [right; by eapply is_linked_alloc, Hl|left; set_solver].
Qed.

(** ** Properties *)

(** C11: the pointer operations of dlist.h implement a sequence.  Starting from a heap
    that holds the list [ns] at [l], any run of appends, prepends, insertions,
    conditional insertions, removals and gets that the sequence allows runs without
    an invalid access, returns the same nodes, and ends in a heap that holds the
    resulting sequence, on which the list's length, emptiness, first and last node
    read back correctly. *)
Theorem dlist_refines_sequence l os h ns rs ns' :
  dlist h l ns -> (forall o n, o ∈ os -> dl_op_node o = Some n -> is_Some (h !! n)) ->
  run_ops (dl_spec l) os ns = Some (rs, ns') ->
  exists h', run_ops (dl_exec l) os h = Some (rs, h') /\ dlist h' l ns' /\
    sys_dlist_len (size h') h' l = Some (length ns') /\
    sys_dlist_is_empty h' l = Some (bool_decide (ns' = [])) /\
    sys_dlist_peek_head h' l = Some (head ns') /\ sys_dlist_peek_tail h' l = Some (last ns').
Proof.
  intros Hd Ha Hr. cut (exists h', run_ops (dl_exec l) os h = Some (rs, h') /\ dlist h' l ns').
  { intros (h' & E & Hd'). exists h'. split_and!; auto using sys_dlist_is_empty_spec,
      sys_dlist_peek_head_spec, sys_dlist_peek_tail_spec.
    unfold sys_dlist_len. rewrite (sys_dlist_peek_head_spec _ _ _ Hd'). cbn.
    apply (len_loop_spec _ h' l [] ns' 0); [done|by eapply dlist_size]. }
  revert h ns rs Hd Ha Hr. induction os as [|o os IH]; intros h ns rs Hd Ha Hr; cbn in *.
  { simplify_eq. by exists h. }
  destruct (dl_spec l o ns) as [[r ns1]|] eqn:E1; [|done]. cbn in Hr.
  destruct (run_ops (dl_spec l) os ns1) as [[rs1 ns2]|] eqn:E2; [|done]. cbn in Hr. simplify_eq.
  destruct (dl_exec_refines l o h ns r ns1 Hd) as (h1 & -> & Hd1 & Hal); [|done|].
  { intros n. apply Ha. set_solver. }
  destruct (IH h1 ns1 rs1 Hd1) as (h' & E & Hd'); [|done|].
  { intros o' n Ho Hn. apply Hal, (Ha o'); [set_solver|done]. }
  cbn. rewrite E. cbn. by exists h'.
Qed.

Definition example_heap : dheap :=
  <[1%positive := mkDnode (Some 1%positive) (Some 1%positive)]>
    (<[2%positive := mkDnode None None]> (<[3%positive := mkDnode None None]> ∅)).

Lemma dlist_refines_sequence_witness :
  exists h', run_ops (dl_exec 1) [DL_append 2; DL_prepend 3; DL_remove 2; DL_insert 3 2; DL_get]%positive
               example_heap = Some ([None; None; None; None; Some 2%positive], h') /\
    dlist h' 1 [3%positive].
Proof.
  destruct (dlist_refines_sequence 1 [DL_append 2; DL_prepend 3; DL_remove 2; DL_insert 3 2; DL_get]%positive
    example_heap [] [None; None; None; None; Some 2%positive] [3%positive]) as (h' & E & Hd & _).
  - split; [apply NoDup_singleton|]. split; reflexivity.
  - intros o n Ho Hn. repeat (apply elem_of_cons in Ho as [->|Ho]; [injection Hn as <- || done; vm_compute; eauto|]).
    by apply not_elem_of_nil in Ho.
  - vm_compute. reflexivity.
  - exists h'. split; [exact E|exact Hd].
Defined.
