(* ===== verification/TimeUnits.v ===== *)
(** * Time unit conversion (include/zephyr/sys/time_units.h)

    The macros that convert a time between two frequencies.  They choose between
    an identity, a division, a multiplication and two general algorithms; the
    theorems show that all of them compute the same thing, the exact quotient with
    the rounding asked for, as long as the exact result fits its type, and that
    the algorithm chosen for its speed does not overflow within the longest
    timeout the build supports.

    Arguments are mathematical integers; every cast and every operation at a
    machine width is written out. *)

From S2P Require Import Prelude.

Local Open Scope Z_scope.

(** Build options read by the conversions. *)
Class TimeUnitsConfig := {
  CONFIG_SYS_CLOCK_TICKS_PER_SEC : Z;
  CONFIG_SYS_CLOCK_MAX_TIMEOUT_DAYS : Z
}.

Definition UINT32_MAX : Z := 2 ^ 32 - 1.

(** [DIV_ROUND_UP(n, d)] (include/zephyr/sys/util.h) *)
Definition DIV_ROUND_UP (n d : Z) : Z := (n + d - 1) / d.

Section Convert.
Context `{TimeUnitsConfig}.

Definition z_tmcvt_use_fast_algo (from_hz to_hz : Z) : bool :=
  u64 (DIV_ROUND_UP (u64 (CONFIG_SYS_CLOCK_MAX_TIMEOUT_DAYS * 24 * 3600 * from_hz)) UINT32_MAX
       * to_hz) <=? UINT32_MAX.

Definition z_tmcvt_is_identity (from_hz to_hz : Z) : bool := to_hz =? from_hz.
Definition z_tmcvt_is_int_mul (from_hz to_hz : Z) : bool :=
  (to_hz >? from_hz) && (to_hz mod from_hz =? 0).
Definition z_tmcvt_is_int_div (from_hz to_hz : Z) : bool :=
  (from_hz >? to_hz) && (from_hz mod to_hz =? 0).

Definition z_tmcvt_off_div (from_hz to_hz : Z) (round_up round_off : bool) : Z :=
  if round_off then (from_hz / to_hz) / 2
  else if round_up then from_hz / to_hz - 1
  else 0.

Definition z_tmcvt_divisor (a b : Z) : Z := if negb (a / b =? 0) then a / b else 1.

Definition z_tmcvt_off_gen (from_hz to_hz : Z) (round_up round_off : bool) : Z :=
  if round_off then from_hz / 2
  else if round_up then from_hz - 1
  else 0.

Definition z_tmcvt_int_div_32 (t from_hz to_hz : Z) (round_up round_off : bool) : Z :=
  let off := z_tmcvt_off_div from_hz to_hz round_up round_off in
  if u64 t <=? u32 (UINT32_MAX - off)
  then u32 (t + off) / z_tmcvt_divisor from_hz to_hz
  else u32 (u64 (u64 t + off) / z_tmcvt_divisor from_hz to_hz).

Definition z_tmcvt_int_mul_32 (t from_hz to_hz : Z) : Z := u32 (u32 t * (to_hz / from_hz)).

Definition z_tmcvt_gen_32 (t from_hz to_hz : Z) (round_up round_off : bool) : Z :=
  u32 (u64 (u64 t * to_hz + z_tmcvt_off_gen from_hz to_hz round_up round_off) / from_hz).

Definition z_tmcvt_int_div_64 (t from_hz to_hz : Z) (round_up round_off : bool) : Z :=
  u64 (u64 t + z_tmcvt_off_div from_hz to_hz round_up round_off) / z_tmcvt_divisor from_hz to_hz.

Definition z_tmcvt_int_mul_64 (t from_hz to_hz : Z) : Z := u64 (u64 t * (to_hz / from_hz)).

Definition z_tmcvt_gen_64_fast (t from_hz to_hz : Z) (round_up round_off : bool) : Z :=
  u64 (u64 t * to_hz + z_tmcvt_off_gen from_hz to_hz round_up round_off) / from_hz.

Definition z_tmcvt_gen_64_slow (t from_hz to_hz : Z) (round_up round_off : bool) : Z :=
  u64 (u64 t / from_hz * to_hz +
       u64 (u64 t mod from_hz * to_hz + z_tmcvt_off_gen from_hz to_hz round_up round_off) / from_hz).

Definition z_tmcvt_gen_64 (t from_hz to_hz : Z) (round_up round_off : bool) : Z :=
  if z_tmcvt_use_fast_algo from_hz to_hz
  then z_tmcvt_gen_64_fast t from_hz to_hz round_up round_off
  else z_tmcvt_gen_64_slow t from_hz to_hz round_up round_off.

Definition z_tmcvt_32 (t from_hz to_hz : Z) (const_hz round_up round_off : bool) : Z :=
  if const_hz then
    if z_tmcvt_is_identity from_hz to_hz then u32 t
    else if z_tmcvt_is_int_div from_hz to_hz then z_tmcvt_int_div_32 t from_hz to_hz round_up round_off
    else if z_tmcvt_is_int_mul from_hz to_hz then z_tmcvt_int_mul_32 t from_hz to_hz
    else z_tmcvt_gen_32 t from_hz to_hz round_up round_off
  else z_tmcvt_gen_32 t from_hz to_hz round_up round_off.

Definition z_tmcvt_64 (t from_hz to_hz : Z) (const_hz round_up round_off : bool) : Z :=
  if const_hz then
    if z_tmcvt_is_identity from_hz to_hz then u64 t
    else if z_tmcvt_is_int_div from_hz to_hz then z_tmcvt_int_div_64 t from_hz to_hz round_up round_off
    else if z_tmcvt_is_int_mul from_hz to_hz then z_tmcvt_int_mul_64 t from_hz to_hz
    else z_tmcvt_gen_64 t from_hz to_hz round_up round_off
  else z_tmcvt_gen_64_slow t from_hz to_hz round_up round_off.

Definition z_tmcvt (t from_hz to_hz : Z) (const_hz result32 round_up round_off : bool) : Z :=
  if result32 then z_tmcvt_32 t from_hz to_hz const_hz round_up round_off
  else z_tmcvt_64 t from_hz to_hz const_hz round_up round_off.

Definition Z_HZ_sec : Z := 1.
Definition Z_HZ_ms : Z := 1000.
Definition Z_HZ_us : Z := 1000000.
Definition Z_HZ_ns : Z := 1000000000.
Definition Z_HZ_ticks : Z := CONFIG_SYS_CLOCK_TICKS_PER_SEC.

(** The conversions the kernel calls. *)
Definition k_ms_to_ticks_ceil32 (t : Z) : Z := z_tmcvt_32 t Z_HZ_ms Z_HZ_ticks true true false.
Definition k_ms_to_ticks_ceil64 (t : Z) : Z := z_tmcvt_64 t Z_HZ_ms Z_HZ_ticks true true false.
Definition k_us_to_ticks_ceil64 (t : Z) : Z := z_tmcvt_64 t Z_HZ_us Z_HZ_ticks true true false.
Definition k_ticks_to_ms_floor64 (t : Z) : Z := z_tmcvt_64 t Z_HZ_ticks Z_HZ_ms true false false.
Definition k_ticks_to_ms_ceil64 (t : Z) : Z := z_tmcvt_64 t Z_HZ_ticks Z_HZ_ms true true false.
Definition k_ticks_to_us_ceil64 (t : Z) : Z := z_tmcvt_64 t Z_HZ_ticks Z_HZ_us true true false.

(** ** The exact conversion *)

(** The quotient [t * to_hz / from_hz], rounded down, to the nearest or up. *)
Definition convert_exact (t from_hz to_hz : Z) (round_up round_off : bool) : Z :=
  (t * to_hz + z_tmcvt_off_gen from_hz to_hz round_up round_off) / from_hz.

(** A frequency the macros are used with: a positive [int]. *)
Definition valid_hz (hz : Z) : Prop := 0 < hz < 2 ^ 31.

Implicit Types (t from_hz to_hz : Z) (ru ro : bool).

Lemma off_gen_bound from_hz to_hz ru ro :
  valid_hz from_hz -> 0 <= z_tmcvt_off_gen from_hz to_hz ru ro < from_hz.
Proof.
  unfold z_tmcvt_off_gen, valid_hz. intros Hf.
  assert (0 <= from_hz / 2 < from_hz) by (split; [apply Z.div_pos; lia|apply Z.div_lt; lia]).
  destruct ro, ru; lia.
Qed.

Lemma convert_exact_id t hz ru ro : valid_hz hz -> convert_exact t hz hz ru ro = t.
Proof.
  intros Hh. pose proof (off_gen_bound hz hz ru ro Hh). unfold convert_exact.
  rewrite Z.div_add_l, Z.div_small; unfold valid_hz in *; lia.
Qed.

(** Multiplying the frequency multiplies the time exactly. *)
Lemma convert_exact_mul t from_hz to_hz ru ro :
  valid_hz from_hz -> to_hz mod from_hz = 0 ->
  convert_exact t from_hz to_hz ru ro = t * (to_hz / from_hz).
Proof.
  intros Hh Hm. pose proof (off_gen_bound from_hz to_hz ru ro Hh). unfold valid_hz in *.
  unfold convert_exact. rewrite (Z.div_mod to_hz from_hz) at 1 by lia. rewrite Hm.
  replace (t * (from_hz * (to_hz / from_hz) + 0)) with (t * (to_hz / from_hz) * from_hz) by lia.
  rewrite Z.div_add_l, (Z.div_small (z_tmcvt_off_gen _ _ _ _)); lia.
Qed.

(** Dividing it divides the time, with the offset of the division macro. *)
Lemma convert_exact_div t from_hz to_hz ru ro :
  valid_hz from_hz -> valid_hz to_hz -> from_hz mod to_hz = 0 ->
  convert_exact t from_hz to_hz ru ro =
  (t + z_tmcvt_off_div from_hz to_hz ru ro) / (from_hz / to_hz).
Proof.
  unfold valid_hz, convert_exact, z_tmcvt_off_gen, z_tmcvt_off_div. intros Hf Ht Hm.
  assert (Ef : from_hz = to_hz * (from_hz / to_hz))
    by (rewrite (Z.div_mod from_hz to_hz) at 1 by lia; lia).
  set (q := from_hz / to_hz) in *. clearbody q. assert (Hq : 0 < q) by nia. subst from_hz.
  rewrite (Z.mul_comm to_hz q).
  assert (Hdd : forall x, x / (q * to_hz) = (x / to_hz) / q)
    by (intros x; rewrite (Z.mul_comm q), Z.div_div by lia; done).
  rewrite Hdd. f_equal. destruct ro; [|destruct ru].
  - rewrite Z.div_add_l by lia. f_equal.
    rewrite Z.div_div, (Z.mul_comm 2 to_hz), <- Z.div_div, Z.div_mul by lia. done.
  - rewrite Z.div_add_l by lia. f_equal.
    replace (q * to_hz - 1) with ((q - 1) * to_hz + (to_hz - 1)) by lia.
    rewrite Z.div_add_l, Z.div_small; lia.
  - rewrite Z.add_0_r, Z.div_mul by lia. lia.
Qed.

(** The longest time the build supports, in units of [hz]. *)
Definition max_timeout (hz : Z) : Z := CONFIG_SYS_CLOCK_MAX_TIMEOUT_DAYS * 24 * 3600 * hz.

Lemma off_div_bound from_hz to_hz ru ro :
  valid_hz from_hz -> valid_hz to_hz -> to_hz <= from_hz ->
  0 <= z_tmcvt_off_div from_hz to_hz ru ro < from_hz / to_hz /\ from_hz / to_hz <= from_hz.
Proof.
  unfold z_tmcvt_off_div, valid_hz. intros Hf Ht Hle.
  assert (1 <= from_hz / to_hz <= from_hz).
  { split; [apply Z.div_le_lower_bound; lia|apply Z.div_le_upper_bound; nia]. }
  assert (0 <= from_hz / to_hz / 2 < from_hz / to_hz) by (split; [apply Z.div_pos; lia|apply Z.div_lt; lia]).
  destruct ro, ru; lia.
Qed.

Lemma divisor_div from_hz to_hz :
  valid_hz to_hz -> to_hz <= from_hz -> z_tmcvt_divisor from_hz to_hz = from_hz / to_hz.
Proof.
  unfold z_tmcvt_divisor, valid_hz. intros Ht Hle.
  assert (1 <= from_hz / to_hz) by (apply Z.div_le_lower_bound; lia).
  by rewrite (proj2 (Z.eqb_neq (from_hz / to_hz) 0)) by lia.
Qed.

Lemma gen_64_slow_exact t from_hz to_hz ru ro :
  valid_hz from_hz -> valid_hz to_hz -> 0 <= t < 2 ^ 64 ->
  convert_exact t from_hz to_hz ru ro < 2 ^ 64 ->
  z_tmcvt_gen_64_slow t from_hz to_hz ru ro = convert_exact t from_hz to_hz ru ro.
Proof.
  intros Hf Ht Hr Hfit. pose proof (off_gen_bound from_hz to_hz ru ro Hf) as Hoff.
  unfold z_tmcvt_gen_64_slow, convert_exact, valid_hz in *.
  set (off := z_tmcvt_off_gen from_hz to_hz ru ro) in *. clearbody off.
  rewrite (wrap_u_small 64 t) by lia. pose proof (Z.mod_pos_bound t from_hz ltac:(lia)) as Hm.
  rewrite (wrap_u_small 64 (t mod from_hz * to_hz + off)) by nia.
  assert (E : t / from_hz * to_hz + (t mod from_hz * to_hz + off) / from_hz =
              (t * to_hz + off) / from_hz).
  { rewrite <- Z.div_add_l by lia. f_equal.
    replace (t * to_hz) with ((from_hz * (t / from_hz) + t mod from_hz) * to_hz)
      by (rewrite <- Z.div_mod by lia; done). ring. }
  rewrite E. apply wrap_u_small. split; [apply Z.div_pos; nia|done].
Qed.

(** The fast algorithm is chosen only when its product fits. *)
Lemma gen_64_fast_exact t from_hz to_hz ru ro :
  valid_hz from_hz -> valid_hz to_hz -> 0 <= t <= max_timeout from_hz ->
  max_timeout from_hz < 2 ^ 64 - 2 ^ 33 -> z_tmcvt_use_fast_algo from_hz to_hz = true ->
  z_tmcvt_gen_64_fast t from_hz to_hz ru ro = convert_exact t from_hz to_hz ru ro.
Proof.
  unfold max_timeout, z_tmcvt_use_fast_algo, valid_hz. intros Hf Ht Hr Hmax Hfast.
  pose proof (off_gen_bound from_hz to_hz ru ro Hf) as Hoff.
  set (M := CONFIG_SYS_CLOCK_MAX_TIMEOUT_DAYS * 24 * 3600 * from_hz) in *. clearbody M.
  rewrite (wrap_u_small 64 M) in Hfast by lia. apply Z.leb_le in Hfast.
  unfold DIV_ROUND_UP, UINT32_MAX in *. set (u := 2 ^ 32 - 1) in *.
  assert (Hu : u = 4294967295) by done. clearbody u.
  pose proof (Z.mul_succ_div_gt (M + u - 1) u ltac:(lia)) as Hlo.
  assert (Hhi : (M + u - 1) / u <= 2 ^ 32) by (apply Z.div_le_upper_bound; lia).
  set (d := (M + u - 1) / u) in *.
  assert (0 <= d) by (apply Z.div_pos; lia). clearbody d.
  rewrite wrap_u_small in Hfast by nia.
  unfold z_tmcvt_gen_64_fast, convert_exact. rewrite (wrap_u_small 64 t) by lia.
  rewrite wrap_u_small; [done|]. split; [nia|].
  assert (M <= d * u) by lia. assert (t * to_hz <= M * to_hz) by nia.
  assert (M * to_hz <= d * u * to_hz) by nia. assert (d * to_hz * u <= u * u) by nia. lia.
Qed.

Lemma tmcvt_64_correct t from_hz to_hz const ru ro :
  valid_hz from_hz -> valid_hz to_hz -> 0 <= t <= max_timeout from_hz ->
  max_timeout from_hz < 2 ^ 64 - 2 ^ 33 -> convert_exact t from_hz to_hz ru ro < 2 ^ 64 ->
  z_tmcvt_64 t from_hz to_hz const ru ro = convert_exact t from_hz to_hz ru ro.
Proof.
  intros Hf Ht Hr Hmax Hfit. unfold z_tmcvt_64.
  destruct const; [|apply gen_64_slow_exact; [done..|lia|done]].
  unfold z_tmcvt_is_identity. destruct (Z.eqb_spec to_hz from_hz) as [->|Hne].
  { rewrite convert_exact_id by done. apply wrap_u_small. lia. }
  unfold z_tmcvt_is_int_div. rewrite Z.gtb_ltb. destruct (Z.ltb_spec to_hz from_hz) as [Hlt|Hge]; cbn [andb].
  - destruct (Z.eqb_spec (from_hz mod to_hz) 0) as [Hm|Hm].
    + unfold z_tmcvt_int_div_64. rewrite divisor_div, convert_exact_div by (done || lia).
      pose proof (off_div_bound from_hz to_hz ru ro Hf Ht ltac:(lia)). unfold valid_hz in *.
      rewrite (wrap_u_small 64 t), wrap_u_small by lia. done.
    + unfold z_tmcvt_is_int_mul. rewrite Z.gtb_ltb, (proj2 (Z.ltb_ge from_hz to_hz)) by lia. cbn [andb].
      unfold z_tmcvt_gen_64. destruct (z_tmcvt_use_fast_algo from_hz to_hz) eqn:E;
        [by apply gen_64_fast_exact|apply gen_64_slow_exact; [done..|lia|done]].
  - unfold z_tmcvt_is_int_mul. rewrite Z.gtb_ltb.
    destruct ((from_hz <? to_hz) && (to_hz mod from_hz =? 0)) eqn:Hb.
    + apply andb_true_iff in Hb as [_ Hm%Z.eqb_eq]. rewrite convert_exact_mul in * by done.
      unfold z_tmcvt_int_mul_64. rewrite (wrap_u_small 64 t) by lia. apply wrap_u_small.
      split; [|done]. assert (0 <= to_hz / from_hz) by (apply Z.div_pos; unfold valid_hz in *; lia). nia.
    + unfold z_tmcvt_gen_64. destruct (z_tmcvt_use_fast_algo from_hz to_hz) eqn:E;
        [by apply gen_64_fast_exact|apply gen_64_slow_exact; [done..|lia|done]].
Qed.

Lemma gen_32_exact t from_hz to_hz ru ro :
  valid_hz from_hz -> valid_hz to_hz -> 0 <= t < 2 ^ 32 ->
  convert_exact t from_hz to_hz ru ro < 2 ^ 32 ->
  z_tmcvt_gen_32 t from_hz to_hz ru ro = convert_exact t from_hz to_hz ru ro.
Proof.
  intros Hf Ht Hr Hfit. pose proof (off_gen_bound from_hz to_hz ru ro Hf).
  unfold z_tmcvt_gen_32, convert_exact, valid_hz in *. rewrite (wrap_u_small 64 t) by lia.
  rewrite (wrap_u_small 64 (_ + _)) by nia. apply wrap_u_small. split; [apply Z.div_pos; nia|done].
Qed.

Lemma int_div_32_exact t from_hz to_hz ru ro :
  valid_hz from_hz -> valid_hz to_hz -> to_hz <= from_hz -> from_hz mod to_hz = 0 ->
  0 <= t < 2 ^ 32 -> convert_exact t from_hz to_hz ru ro < 2 ^ 32 ->
  z_tmcvt_int_div_32 t from_hz to_hz ru ro = convert_exact t from_hz to_hz ru ro.
Proof.
  intros Hf Ht Hle Hm Hr Hfit. pose proof (off_div_bound from_hz to_hz ru ro Hf Ht Hle).
  rewrite convert_exact_div in * by done. unfold z_tmcvt_int_div_32, UINT32_MAX, valid_hz in *.
  set (off := z_tmcvt_off_div from_hz to_hz ru ro) in *. clearbody off. cbv zeta.
  rewrite divisor_div by (unfold valid_hz; lia).
  rewrite (wrap_u_small 64 t), (wrap_u_small 32 (_ - off)) by lia.
  destruct (Z.leb_spec t (2 ^ 32 - 1 - off)).
  - rewrite wrap_u_small by lia. done.
  - rewrite (wrap_u_small 64) by lia. apply wrap_u_small.
    split; [apply Z.div_pos; lia|done].
Qed.

Lemma tmcvt_32_correct t from_hz to_hz const ru ro :
  valid_hz from_hz -> valid_hz to_hz -> 0 <= t < 2 ^ 32 ->
  convert_exact t from_hz to_hz ru ro < 2 ^ 32 ->
  z_tmcvt_32 t from_hz to_hz const ru ro = convert_exact t from_hz to_hz ru ro.
Proof.
  intros Hf Ht Hr Hfit. unfold z_tmcvt_32. destruct const; [|by apply gen_32_exact].
  unfold z_tmcvt_is_identity. destruct (Z.eqb_spec to_hz from_hz) as [->|Hne].
  { rewrite convert_exact_id by done. by apply wrap_u_small. }
  unfold z_tmcvt_is_int_div, z_tmcvt_is_int_mul. rewrite !Z.gtb_ltb.
  destruct ((to_hz <? from_hz) && (from_hz mod to_hz =? 0)) eqn:Hb.
  { apply andb_true_iff in Hb as [Hlt%Z.ltb_lt Hm%Z.eqb_eq]. apply int_div_32_exact; (done || lia). }
  destruct ((from_hz <? to_hz) && (to_hz mod from_hz =? 0)) eqn:Hb'; [|by apply gen_32_exact].
  apply andb_true_iff in Hb' as [_ Hm%Z.eqb_eq]. rewrite convert_exact_mul in * by done.
  unfold z_tmcvt_int_mul_32. rewrite (wrap_u_small 32 t) by lia. apply wrap_u_small.
  split; [|done]. assert (0 <= to_hz / from_hz) by (apply Z.div_pos; unfold valid_hz in *; lia). nia.
Qed.

Lemma convert_exact_ceil t from_hz to_hz n :
  valid_hz from_hz -> convert_exact t from_hz to_hz true false <= n <-> t * to_hz <= n * from_hz.
Proof.
  unfold convert_exact, z_tmcvt_off_gen, valid_hz. intros Hf. split; intros Hn.
  - pose proof (Z.mul_succ_div_gt (t * to_hz + (from_hz - 1)) from_hz ltac:(lia)). nia.
  - apply Z.lt_succ_r, Z.div_lt_upper_bound; lia.
Qed.

Lemma convert_exact_floor t from_hz to_hz n :
  valid_hz from_hz -> n <= convert_exact t from_hz to_hz false false <-> n * from_hz <= t * to_hz.
Proof.
  unfold convert_exact, z_tmcvt_off_gen, valid_hz. intros Hf. rewrite Z.add_0_r. split; intros Hn.
  - pose proof (Z.mul_div_le (t * to_hz) from_hz ltac:(lia)). nia.
  - apply Z.div_le_lower_bound; lia.
Qed.
End Convert.

(** ** Properties *)

(** A 32768 Hz tick with timeouts of up to a year. *)
Definition rtc_ticks : TimeUnitsConfig :=
  {| CONFIG_SYS_CLOCK_TICKS_PER_SEC := 32768; CONFIG_SYS_CLOCK_MAX_TIMEOUT_DAYS := 365 |}.

(** whichever algorithm they select, the 64-bit and the 32-bit conversion macros
    return the exact quotient of the product with the rounding asked for (down, to
    the nearest, up), provided it fits the result type and, for the 64-bit one, the
    time is within the longest timeout of the build; no intermediate overflow can
    change the result. *)
Theorem tmcvt_exact `{TimeUnitsConfig} t from_hz to_hz const_hz ru ro :
  valid_hz from_hz -> valid_hz to_hz -> 0 <= t ->
  (t <= max_timeout from_hz -> max_timeout from_hz < 2 ^ 64 - 2 ^ 33 ->
   convert_exact t from_hz to_hz ru ro < 2 ^ 64 ->
   z_tmcvt t from_hz to_hz const_hz false ru ro = convert_exact t from_hz to_hz ru ro) /\
  (t < 2 ^ 32 -> convert_exact t from_hz to_hz ru ro < 2 ^ 32 ->
   z_tmcvt t from_hz to_hz const_hz true ru ro = convert_exact t from_hz to_hz ru ro).
Proof.
  intros Hf Ht Hr. unfold z_tmcvt. split; intros.
  - apply tmcvt_64_correct; auto.
  - apply tmcvt_32_correct; auto.
Qed.

Lemma tmcvt_exact_witness :
  @z_tmcvt rtc_ticks 86400001 Z_HZ_ms 32768 true false true false = 2831155233.
Proof.
  destruct (@tmcvt_exact rtc_ticks 86400001 Z_HZ_ms 32768 true true false) as [E _].
  - split; vm_compute; reflexivity.
  - split; vm_compute; reflexivity.
  - lia.
  - rewrite E; vm_compute; congruence.
Defined.

(** converting milliseconds to ticks rounding up never shortens a delay and adds
    less than one tick, and converting the ticks back rounding down never loses
    time; with a tick of at most a millisecond the round trip is the identity. *)
Theorem ms_ticks_roundtrip `{TimeUnitsConfig} t :
  valid_hz Z_HZ_ticks -> 0 <= t ->
  t <= max_timeout Z_HZ_ms -> k_ms_to_ticks_ceil64 t <= max_timeout Z_HZ_ticks ->
  max_timeout Z_HZ_ms < 2 ^ 64 - 2 ^ 33 -> max_timeout Z_HZ_ticks < 2 ^ 64 - 2 ^ 33 ->
  convert_exact t Z_HZ_ms Z_HZ_ticks true false < 2 ^ 64 ->
  convert_exact (k_ms_to_ticks_ceil64 t) Z_HZ_ticks Z_HZ_ms false false < 2 ^ 64 ->
  let n := k_ms_to_ticks_ceil64 t in
  (n - 1) * Z_HZ_ms < t * Z_HZ_ticks <= n * Z_HZ_ms /\
  t <= k_ticks_to_ms_floor64 n /\ (Z_HZ_ms <= Z_HZ_ticks -> k_ticks_to_ms_floor64 n = t).
Proof.
  intros Hh Ht Ht1 Hn1 Hm1 Hm2 Hf1 Hf2 n.
  assert (Hms : valid_hz Z_HZ_ms) by (unfold valid_hz, Z_HZ_ms; lia).
  assert (En : n = convert_exact t Z_HZ_ms Z_HZ_ticks true false)
    by (apply tmcvt_64_correct; auto).
  assert (Hn0 : 0 <= n).
  { rewrite En. unfold convert_exact, z_tmcvt_off_gen, valid_hz, Z_HZ_ms in *. apply Z.div_pos; nia. }
  assert (Eb : k_ticks_to_ms_floor64 n = convert_exact n Z_HZ_ticks Z_HZ_ms false false)
    by (apply tmcvt_64_correct; auto).
  pose proof (convert_exact_ceil t Z_HZ_ms Z_HZ_ticks n Hms) as Hc1.
  pose proof (convert_exact_ceil t Z_HZ_ms Z_HZ_ticks (n - 1) Hms) as Hc2.
  pose proof (convert_exact_floor n Z_HZ_ticks Z_HZ_ms t Hh) as Hfl1.
  pose proof (convert_exact_floor n Z_HZ_ticks Z_HZ_ms (t + 1) Hh) as Hfl2.
  rewrite <- En in Hc1, Hc2. rewrite <- Eb in Hfl1, Hfl2. split_and!; [lia|lia|lia|].
  intros Hfine. assert (k_ticks_to_ms_floor64 n < t + 1); [|lia].
  apply Z.nle_gt. rewrite Hfl2. unfold valid_hz in *. nia.
Qed.

Lemma ms_ticks_roundtrip_witness :
  @k_ticks_to_ms_floor64 rtc_ticks (@k_ms_to_ticks_ceil64 rtc_ticks 1001) = 1001.
Proof.
  apply (@ms_ticks_roundtrip rtc_ticks 1001); try (vm_compute; congruence).
  split; vm_compute; reflexivity.
Defined.
