(* ===== verification/Timeout.v ===== *)
(** * The timeout queue (kernel/timeout.c, kernel/include/timeout_q.h)

    The queue of pending timeouts, each stored as the number of ticks after its
    predecessor ([dticks]).  [timeout_q] holds the static variables of
    kernel/timeout.c together with what the code exchanges with the system timer
    driver: the value [sys_clock_elapsed()] would return and the last argument
    given to [sys_clock_set_timeout()].  The queue is a list of entries in queue
    order; [Dlist] shows that the linked list behind it behaves as such a list.

    The abstract view is [deadlines]: every active timeout with the number of
    ticks, counted from [curr_tick], at which it expires.  Adding a timeout is a
    stable insertion by deadline, aborting one removes just that one, and neither
    moves the deadline of any other timeout. *)

From S2P Require Import Prelude.

Local Open Scope Z_scope.

(** ** Data *)

(** The [struct _timeout] objects of the modelled code: one in every thread, and
    the time-slice timeout of the CPU. *)
Inductive timeout_node :=
  | TN_thread (thread : positive)
  | TN_slice.

#[export] Instance timeout_node_eq_dec : EqDecision timeout_node.
Proof. solve_decision. Defined.

(** The functions stored in [_timeout.fn]. *)
Inductive timeout_fn := fn_z_thread_timeout | fn_slice_timeout.

#[export] Instance timeout_fn_eq_dec : EqDecision timeout_fn.
Proof. solve_decision. Defined.

Record timeout := mkTimeout { node : timeout_node; fn : timeout_fn; dticks : Z }.

#[export] Instance timeout_eq_dec : EqDecision timeout.
Proof. solve_decision. Defined.

Definition set_dticks (d : Z) (t : timeout) : timeout := mkTimeout (node t) (fn t) d.

Record timeout_q := mkTimeoutQ {
  curr_tick : Z;                (* uint64_t *)
  timeout_list : list timeout;
  announce_remaining : Z;       (* int *)
  hw_elapsed : Z;               (* what sys_clock_elapsed() returns, uint32_t *)
  hw_timeout : option Z         (* last sys_clock_set_timeout() request *)
}.

#[export] Instance timeout_q_eq_dec : EqDecision timeout_q.
Proof. solve_decision. Defined.

Definition with_list (l : list timeout) (q : timeout_q) : timeout_q :=
  mkTimeoutQ (curr_tick q) l (announce_remaining q) (hw_elapsed q) (hw_timeout q).
Definition with_curr_tick (c : Z) (q : timeout_q) : timeout_q :=
  mkTimeoutQ c (timeout_list q) (announce_remaining q) (hw_elapsed q) (hw_timeout q).
Definition with_announce_remaining (r : Z) (q : timeout_q) : timeout_q :=
  mkTimeoutQ (curr_tick q) (timeout_list q) r (hw_elapsed q) (hw_timeout q).
Definition with_hw_elapsed (e : Z) (q : timeout_q) : timeout_q :=
  mkTimeoutQ (curr_tick q) (timeout_list q) (announce_remaining q) e (hw_timeout q).

(** The driver call [sys_clock_set_timeout(ticks, false)]. *)
Definition sys_clock_set_timeout (ticks : Z) (q : timeout_q) : timeout_q :=
  mkTimeoutQ (curr_tick q) (timeout_list q) (announce_remaining q) (hw_elapsed q) (Some ticks).

(** [k_timeout_t] is its [ticks] member. *)
Abbreviation k_timeout_t := Z (only parsing).
Definition K_TICKS_FOREVER : Z := -1.
Definition K_FOREVER : k_timeout_t := K_TICKS_FOREVER.
Definition K_NO_WAIT : k_timeout_t := 0.
Definition K_TICKS (t : Z) : k_timeout_t := t.
Definition K_TIMEOUT_EQ (a b : k_timeout_t) : bool := a =? b.
Definition Z_TICK_ABS (t : Z) : Z := K_TICKS_FOREVER - 1 - t.

(** Build options read by kernel/timeout.c.  [CONFIG_TIMEOUT_64BIT] is taken as
    enabled: ticks are 64 bits wide and absolute timeouts exist. *)
Class TimeoutConfig := {
  CONFIG_TICKLESS_KERNEL : bool;
  CONFIG_SYSTEM_CLOCK_SLOPPY_IDLE : bool
}.

Section Timeout.
Context `{TimeoutConfig}.

Definition MAX_WAIT : Z := if CONFIG_SYSTEM_CLOCK_SLOPPY_IDLE then K_TICKS_FOREVER else INT_MAX.

(** ** Operations *)

Definition first (q : timeout_q) : option timeout := head (timeout_list q).

(** [sys_dnode_is_linked(&to->node)] *)
Definition is_linked (n : timeout_node) (q : timeout_q) : bool :=
  bool_decide (n ∈ node <$> timeout_list q).

Definition z_is_inactive_timeout (n : timeout_node) (q : timeout_q) : bool :=
  negb (is_linked n q).

(** [remove_timeout]: the follower takes over the removed entry's ticks. *)
Fixpoint remove_timeout (n : timeout_node) (l : list timeout) : list timeout :=
  match l with
  | [] => []
  | t :: l' =>
      if decide (node t = n) then
        match l' with
        | [] => []
        | x :: r => set_dticks (s64 (dticks x + dticks t)) x :: r
        end
      else t :: remove_timeout n l'
  end.

Definition elapsed (q : timeout_q) : Z :=
  if announce_remaining q =? 0 then s32 (hw_elapsed q) else 0.

Definition next_timeout (q : timeout_q) : Z :=
  let ticks_elapsed := elapsed q in
  match first q with
  | None => MAX_WAIT
  | Some to =>
      if s64 (dticks to - ticks_elapsed) >? INT_MAX then MAX_WAIT
      else Z.max 0 (s64 (dticks to - ticks_elapsed))
  end.

(** The insertion loop of [z_add_timeout]. *)
Fixpoint insert_timeout (to : timeout) (l : list timeout) : list timeout :=
  match l with
  | [] => [to]
  | t :: l' =>
      if dticks t >? dticks to
      then to :: set_dticks (s64 (dticks t - dticks to)) t :: l'
      else t :: insert_timeout (set_dticks (s64 (dticks to - dticks t)) to) l'
  end.

(** The [dticks] a new timeout starts from. *)
Definition timeout_dticks (timeout : k_timeout_t) (q : timeout_q) : Z :=
  if Z_TICK_ABS timeout >=? 0
  then Z.max 1 (s64 (Z_TICK_ABS timeout - curr_tick q))
  else s64 (timeout + 1 + elapsed q).

(** [z_add_timeout]; [None] when the assertion that [to] is not linked fails. *)
Definition z_add_timeout (n : timeout_node) (f : timeout_fn) (timeout : k_timeout_t)
    (q : timeout_q) : option timeout_q :=
  if K_TIMEOUT_EQ timeout K_FOREVER then Some q
  else if is_linked n q then None
  else
    let to := mkTimeout n f (timeout_dticks timeout q) in
    let q := with_list (insert_timeout to (timeout_list q)) q in
    Some (if bool_decide (node <$> first q = Some n) && (announce_remaining q =? 0)
          then sys_clock_set_timeout (next_timeout q) q else q).

Definition EINVAL : Z := 22.

Definition z_abort_timeout (n : timeout_node) (q : timeout_q) : Z * timeout_q :=
  if is_linked n q then (0, with_list (remove_timeout n (timeout_list q)) q)
  else (- EINVAL, q).

Fixpoint timeout_rem_loop (n : timeout_node) (ticks : Z) (l : list timeout) : Z :=
  match l with
  | [] => ticks
  | t :: l' =>
      let ticks := s64 (ticks + dticks t) in
      if decide (node t = n) then ticks else timeout_rem_loop n ticks l'
  end.

Definition timeout_rem (n : timeout_node) (q : timeout_q) : Z :=
  timeout_rem_loop n 0 (timeout_list q).

Definition z_timeout_remaining (n : timeout_node) (q : timeout_q) : Z :=
  if z_is_inactive_timeout n q then 0 else s64 (timeout_rem n q - elapsed q).

Definition z_timeout_expires (n : timeout_node) (q : timeout_q) : Z :=
  if z_is_inactive_timeout n q then s64 (curr_tick q)
  else s64 (curr_tick q + timeout_rem n q).

Definition z_get_next_timeout_expiry (q : timeout_q) : Z := next_timeout q.

Definition sys_clock_tick_get (q : timeout_q) : Z := s64 (u64 (curr_tick q + elapsed q)).

Definition sys_clock_tick_get_32 (q : timeout_q) : Z :=
  if CONFIG_TICKLESS_KERNEL then u32 (sys_clock_tick_get q) else u32 (curr_tick q).

Definition k_uptime_ticks (q : timeout_q) : Z := sys_clock_tick_get q.

(** [k_timepoint_t] is its [tick] member (uint64_t). *)
Definition sys_timepoint_calc (timeout : k_timeout_t) (q : timeout_q) : Z :=
  if K_TIMEOUT_EQ timeout K_FOREVER then UINT64_MAX
  else if K_TIMEOUT_EQ timeout K_NO_WAIT then 0
  else
    let dt := timeout in
    if Z_TICK_ABS dt >=? 0 then u64 (Z_TICK_ABS dt)
    else u64 (sys_clock_tick_get q + Z.max 1 dt).

Definition sys_timepoint_timeout (timepoint : Z) (q : timeout_q) : k_timeout_t :=
  if timepoint =? UINT64_MAX then K_FOREVER
  else if timepoint =? 0 then K_NO_WAIT
  else
    let now := u64 (sys_clock_tick_get q) in
    let remaining := if timepoint >? now then timepoint - now else 0 in
    K_TICKS (s64 remaining).

(** One iteration's bookkeeping of the loop in [sys_clock_announce], before the
    callback: the expired head leaves the queue and [curr_tick] advances to it. *)
Definition announce_expire (t : timeout) (q : timeout_q) : timeout_q :=
  let dt := s32 (dticks t) in
  let q := with_curr_tick (u64 (curr_tick q + dt)) q in
  let l := match timeout_list q with [] => [] | _ :: l => set_dticks 0 t :: l end in
  with_list (remove_timeout (node t) l) q.

(** The tail of [sys_clock_announce], after the last expired timeout. *)
Definition announce_finish (q : timeout_q) : timeout_q :=
  let l := match timeout_list q with
           | [] => []
           | t :: l => set_dticks (s64 (dticks t - announce_remaining q)) t :: l
           end in
  let q := with_list l q in
  let q := with_curr_tick (u64 (curr_tick q + announce_remaining q)) q in
  let q := with_announce_remaining 0 q in
  sys_clock_set_timeout (next_timeout q) q.
End Timeout.

(** ** The announce loop

    [sys_clock_announce] calls back into the rest of the kernel, so its loop is
    over the whole state [St]; [run] is the call [t->fn(t)]. *)

Section AnnounceLoop.
Context `{TimeoutConfig} {St : Type}.
Context (getq : St -> timeout_q) (setq : timeout_q -> St -> St).
Context (run : timeout_fn -> timeout_node -> St -> option St).

Fixpoint announce_loop (fuel : nat) (s : St) : option St :=
  match first (getq s) with
  | None => Some s
  | Some t =>
      if dticks t <=? announce_remaining (getq s) then
        match fuel with
        | O => None
        | S fuel =>
            let dt := s32 (dticks t) in
            let s := setq (announce_expire t (getq s)) s in
            s ← run (fn t) (node t) s;
            let s := setq (with_announce_remaining
                             (s32 (announce_remaining (getq s) - dt)) (getq s)) s in
            announce_loop fuel s
        end
      else Some s
  end.

(** Every expiry lowers the sum over the queue of the ticks left to announce, so
    this many iterations are enough. *)
Definition announce_fuel (ticks : Z) (q : timeout_q) : nat :=
  length (timeout_list q) * S (Z.to_nat ticks).

(** [sys_clock_announce] up to the call of [z_time_slice]. *)
Definition announce (ticks : Z) (s : St) : option St :=
  let s := setq (with_announce_remaining ticks (getq s)) s in
  s ← announce_loop (announce_fuel ticks (getq s)) s;
  Some (setq (announce_finish (getq s)) s).
End AnnounceLoop.

(** ** Deadlines *)

Abbreviation deadline := (timeout_node * timeout_fn * Z)%type (only parsing).

Fixpoint deadlines_from (base : Z) (l : list timeout) : list deadline :=
  match l with
  | [] => []
  | t :: l => (node t, fn t, base + dticks t) :: deadlines_from (base + dticks t) l
  end.

Definition deadlines (q : timeout_q) : list deadline := deadlines_from 0 (timeout_list q).

(** The reference insertion: after every deadline that is not later. *)
Fixpoint insert_deadline (x : deadline) (l : list deadline) : list deadline :=
  match l with
  | [] => [x]
  | y :: l' => if x.2 <? y.2 then x :: l else y :: insert_deadline x l'
  end.

Fixpoint total_dticks (l : list timeout) : Z :=
  match l with
  | [] => 0
  | t :: l => dticks t + total_dticks l
  end.

(** What kernel/timeout.c maintains. *)
Definition wf_list (l : list timeout) : Prop :=
  NoDup (node <$> l) /\ Forall (fun t => 0 <= dticks t) l /\ total_dticks l <= INT64_MAX.

Definition wf_timeouts (q : timeout_q) : Prop := wf_list (timeout_list q).

#[export] Instance wf_list_dec l : Decision (wf_list l).
Proof. unfold wf_list. apply _. Defined.

Section Laws.
Context `{TimeoutConfig}.
Implicit Types (t to : timeout) (l : list timeout) (q : timeout_q) (n : timeout_node).

Lemma total_dticks_nonneg l : Forall (fun t => 0 <= dticks t) l -> 0 <= total_dticks l.
Proof. induction 1; cbn in *; lia. Qed.

Lemma s64_id x : 0 <= x <= INT64_MAX -> s64 x = x.
Proof. intros. apply wrap_s_small; unfold INT64_MAX in *; lia. Qed.

Lemma nodes_deadlines b l : (fun x : deadline => x.1.1) <$> deadlines_from b l = node <$> l.
Proof. revert b. induction l as [|t l IH]; intros b; cbn; [done|]. f_equal. apply IH. Qed.

Lemma insert_timeout_deadlines b to l :
  Forall (fun t => 0 <= dticks t <= INT64_MAX) (to :: l) ->
  deadlines_from b (insert_timeout to l) =
    insert_deadline (node to, fn to, b + dticks to) (deadlines_from b l).
Proof.
  revert b to. induction l as [|t l IH]; intros b to; [done|].
  rewrite !Forall_cons. intros (Hto & Ht & Hl). cbv beta in Hto, Ht.
  cbn [insert_timeout deadlines_from insert_deadline snd].
  rewrite Z.gtb_ltb.
  replace (b + dticks to <? b + dticks t) with (dticks to <? dticks t)
    by (destruct (Z.ltb_spec (dticks to) (dticks t)), (Z.ltb_spec (b + dticks to) (b + dticks t)); lia).
  destruct (Z.ltb_spec (dticks to) (dticks t)); cbn [deadlines_from set_dticks node fn dticks].
  - rewrite s64_id by lia.
    by replace (b + dticks to + (dticks t - dticks to)) with (b + dticks t) by lia.
  - rewrite s64_id by lia. rewrite IH by (constructor; [cbn; lia|done]). cbn.
    by replace (b + dticks t + (dticks to - dticks t)) with (b + dticks to) by lia.
Qed.

Lemma remove_timeout_deadlines b n l :
  wf_list l ->
  deadlines_from b (remove_timeout n l) =
    filter (fun x : deadline => x.1.1 <> n) (deadlines_from b l).
Proof.
  revert b. induction l as [|t l IH]; intros b (Hnd & Hpos & Htot); [done|].
  cbn in Hnd, Htot. apply NoDup_cons in Hnd as [Hn Hnd]. apply Forall_cons in Hpos as [Ht Hpos].
  pose proof (total_dticks_nonneg l Hpos).
  cbn [remove_timeout deadlines_from]. rewrite filter_cons. cbn [fst snd].
  destruct (decide (node t = n)) as [<-|Hne].
  - rewrite decide_False by tauto.
    assert (Hf : filter (fun x : deadline => x.1.1 <> node t) (deadlines_from (b + dticks t) l) =
            deadlines_from (b + dticks t) l).
    { apply list_filter_all. intros x Hx E. cbn in E. apply Hn.
      rewrite <- E, <- (nodes_deadlines (b + dticks t)). apply list_elem_of_fmap. eauto. }
    rewrite Hf. destruct l as [|x r]; [done|]. apply Forall_cons in Hpos as [Hx Hr].
    pose proof (total_dticks_nonneg r Hr). cbn in Htot.
    cbn [deadlines_from set_dticks node fn dticks]. rewrite s64_id by lia.
    by replace (b + (dticks x + dticks t)) with (b + dticks t + dticks x) by lia.
  - rewrite decide_True by done. cbn [deadlines_from]. f_equal. apply IH. repeat split; [done..|lia].
Qed.

Lemma insert_timeout_perm to l : node <$> insert_timeout to l ≡ₚ node to :: (node <$> l).
Proof.
  revert to. induction l as [|t l IH]; intros to; [done|]. cbn. case_match; cbn; [done|].
  rewrite IH. cbn. apply Permutation_swap.
Qed.

Lemma insert_timeout_wf to l :
  wf_list l -> node to ∉ node <$> l -> 0 <= dticks to <= INT64_MAX ->
  wf_list (insert_timeout to l).
Proof.
  intros (Hnd & Hpos & Htot) Hn Hto. repeat split.
  - rewrite insert_timeout_perm. by apply NoDup_cons.
  - clear Hnd Hn. revert to Hto. induction l as [|t l IH]; intros to Hto; cbn.
    { rewrite Forall_singleton. lia. }
    apply Forall_cons in Hpos as [Ht Hpos]. cbn in Htot. pose proof (total_dticks_nonneg l Hpos).
    rewrite Z.gtb_ltb. destruct (Z.ltb_spec (dticks to) (dticks t)).
    + rewrite !Forall_cons. cbn. rewrite s64_id by lia. split_and!; [lia|lia|done].
    + rewrite Forall_cons. split; [done|]. apply IH; [done|lia|]. cbn. rewrite s64_id; lia.
  - assert (total_dticks (insert_timeout to l) <= Z.max (dticks to) (total_dticks l)); [|lia].
    clear Hnd Hn. revert to Hto. induction l as [|t l IH]; intros to Hto; cbn; [lia|].
    apply Forall_cons in Hpos as [Ht Hpos]. cbn in Htot. pose proof (total_dticks_nonneg l Hpos).
    rewrite Z.gtb_ltb. destruct (Z.ltb_spec (dticks to) (dticks t)); cbn.
    + rewrite s64_id by lia. lia.
    + assert (Hto' : 0 <= dticks (set_dticks (s64 (dticks to - dticks t)) to) <= INT64_MAX)
        by (cbn; rewrite s64_id; lia).
      specialize (IH Hpos ltac:(lia) _ Hto'). rewrite !s64_id in * by lia.
      cbn [dticks set_dticks] in IH. lia.
Qed.

Lemma remove_timeout_nodes n l :
  NoDup (node <$> l) -> node <$> remove_timeout n l = filter (fun m => m <> n) (node <$> l).
Proof.
  induction l as [|t l IH]; [done|]. rewrite fmap_cons. intros [Hn Hnd]%NoDup_cons.
  rewrite filter_cons. cbn [remove_timeout]. destruct (decide (node t = n)) as [<-|Hne].
  - rewrite decide_False by tauto. rewrite list_filter_all by (intros x Hx ->; done).
    by destruct l.
  - rewrite decide_True by done. rewrite fmap_cons. f_equal. by apply IH.
Qed.

Lemma remove_timeout_wf n l : wf_list l -> wf_list (remove_timeout n l).
Proof.
  intros (Hnd & Hpos & Htot).
  assert (Hsum : total_dticks (remove_timeout n l) <= total_dticks l /\
                 Forall (fun t => 0 <= dticks t) (remove_timeout n l)).
  { clear Hnd. induction l as [|t l IH]; [done|]. cbn. apply Forall_cons in Hpos as [Ht Hpos].
    cbn in Htot. pose proof (total_dticks_nonneg l Hpos). case_decide.
    - destruct l as [|x r]; cbn; [split; [lia|done]|]. apply Forall_cons in Hpos as [Hx Hr].
      cbn in Htot. pose proof (total_dticks_nonneg r Hr). rewrite Forall_cons. cbn.
      rewrite s64_id by lia. repeat split; [lia|lia|done].
    - destruct IH as [IH1 IH2]; [done|lia|]. cbn. rewrite Forall_cons. repeat split; [lia|done..]. }
  repeat split; [|tauto|lia]. rewrite remove_timeout_nodes by done. by apply NoDup_filter.
Qed.

Lemma is_linked_true n q : is_linked n q = true <-> n ∈ node <$> timeout_list q.
Proof. unfold is_linked. by rewrite bool_decide_eq_true. Qed.

Lemma is_linked_false n q : is_linked n q = false <-> n ∉ node <$> timeout_list q.
Proof. unfold is_linked. by rewrite bool_decide_eq_false. Qed.

(** A relative timeout that cannot overflow, or an absolute one. *)
Definition valid_timeout (timeout : k_timeout_t) : Prop :=
  timeout <> K_FOREVER /\ timeout <= INT64_MAX - 2 ^ 31.

Definition valid_elapsed (q : timeout_q) : Prop := 0 <= hw_elapsed q < 2 ^ 31 - 1.

Lemma elapsed_range q : valid_elapsed q -> 0 <= elapsed q < 2 ^ 31 - 1.
Proof.
  unfold valid_elapsed, elapsed. intros. destruct (_ =? _); [|lia].
  rewrite wrap_s_small; lia.
Qed.

Lemma timeout_dticks_range timeout q :
  valid_timeout timeout -> valid_elapsed q -> 1 <= timeout_dticks timeout q <= INT64_MAX.
Proof.
  unfold valid_timeout, K_FOREVER, timeout_dticks, Z_TICK_ABS, K_TICKS_FOREVER. intros [Hf Ht] He.
  rewrite Z.geb_leb. destruct (Z.leb_spec 0 (-1 - 1 - timeout)).
  - pose proof (wrap_s_range 64 (-1 - 1 - timeout - curr_tick q)). unfold INT64_MAX. lia.
  - pose proof (elapsed_range _ He). rewrite s64_id; lia.
Qed.

(** The fields of the queue [z_add_timeout] and [z_abort_timeout] leave alone. *)
Definition same_clock q q' : Prop :=
  curr_tick q' = curr_tick q /\ announce_remaining q' = announce_remaining q /\
  hw_elapsed q' = hw_elapsed q.

Lemma wf_list_bounds l : wf_list l -> Forall (fun t => 0 <= dticks t <= INT64_MAX) l.
Proof.
  intros (_ & Hpos & Htot). induction Hpos as [|t l Ht Hpos IH]; [constructor|].
  cbn [total_dticks] in Htot. cbv beta in Ht. pose proof (total_dticks_nonneg l Hpos).
  constructor; [lia|apply IH; lia].
Qed.

Lemma z_add_timeout_ok n f timeout q :
  wf_timeouts q -> n ∉ node <$> timeout_list q ->
  valid_timeout timeout -> valid_elapsed q ->
  exists q', z_add_timeout n f timeout q = Some q' /\ wf_timeouts q' /\ same_clock q q' /\
    node <$> timeout_list q' ≡ₚ n :: (node <$> timeout_list q) /\
    deadlines q' = insert_deadline (n, f, timeout_dticks timeout q) (deadlines q).
Proof.
  intros Hwf Hn Ht He. pose proof (timeout_dticks_range _ _ Ht He) as Hd.
  unfold z_add_timeout, K_TIMEOUT_EQ. rewrite (proj2 (Z.eqb_neq _ _) (proj1 Ht)).
  rewrite (proj2 (is_linked_false _ _) Hn).
  set (to := mkTimeout n f (timeout_dticks timeout q)).
  set (q1 := with_list (insert_timeout to (timeout_list q)) q).
  exists (if bool_decide (node <$> first q1 = Some n) && (announce_remaining q1 =? 0)
     then sys_clock_set_timeout (next_timeout q1) q1 else q1).
  split; [done|].
  assert (Hl : forall q' : timeout_q, q' = q1 \/ q' = sys_clock_set_timeout (next_timeout q1) q1 ->
    timeout_list q' = insert_timeout to (timeout_list q) /\ same_clock q q')
    by (intros q' [->| ->]; done).
  destruct (Hl (if bool_decide (node <$> first q1 = Some n) && (announce_remaining q1 =? 0)
     then sys_clock_set_timeout (next_timeout q1) q1 else q1)) as [El Hc];
    [destruct (_ && _); tauto|].
  unfold wf_timeouts, deadlines. rewrite El. split_and!; [|apply Hc..| |].
  - apply insert_timeout_wf; [done|done|cbn; lia].
  - apply insert_timeout_perm.
  - apply insert_timeout_deadlines. constructor; [cbn; lia|by apply wf_list_bounds].
Qed.

Lemma z_abort_timeout_ok n q :
  wf_timeouts q ->
  let '(ret, q') := z_abort_timeout n q in
  (ret = if decide (n ∈ node <$> timeout_list q) then 0 else - EINVAL) /\
  wf_timeouts q' /\ same_clock q q' /\
  node <$> timeout_list q' = filter (fun m => m <> n) (node <$> timeout_list q) /\
  deadlines q' = filter (fun x : deadline => x.1.1 <> n) (deadlines q).
Proof.
  intros Hwf. unfold z_abort_timeout, is_linked.
  destruct (bool_decide_reflect (n ∈ node <$> timeout_list q)) as [Hin|Hout].
  - rewrite decide_True by done. split_and!; [done| |done..| |].
    + by apply remove_timeout_wf.
    + apply remove_timeout_nodes, Hwf.
    + by apply remove_timeout_deadlines.
  - rewrite decide_False by done. split_and!; [done..| |].
    + symmetry. apply list_filter_all. intros m Hm ->. done.
    + symmetry. apply list_filter_all. intros x Hx E. apply Hout.
      rewrite <- E, <- (nodes_deadlines 0). apply list_elem_of_fmap. eauto.
Qed.
End Laws.

(** ** Termination of the announce loop *)

(** The ticks of the running announcement that lie at or after each deadline. *)
Fixpoint weight_from (r : Z) (l : list timeout) : Z :=
  match l with
  | [] => 0
  | t :: l => Z.max 0 (r - dticks t + 1) + weight_from (r - dticks t) l
  end.

Definition announce_weight (q : timeout_q) : Z :=
  weight_from (announce_remaining q) (timeout_list q).

(** What a client of the timeout queue promises to [sys_clock_announce]: running
    the callback of an expired timeout keeps its invariant and makes progress. *)
Class AnnounceClient `{TimeoutConfig} {St : Type} (getq : St -> timeout_q)
    (setq : timeout_q -> St -> St) (run : timeout_fn -> timeout_node -> St -> option St)
    (Inv : St -> Prop) := {
  announce_step : forall s t,
    Inv s -> first (getq s) = Some t -> dticks t <= announce_remaining (getq s) ->
    exists s', run (fn t) (node t) (setq (announce_expire t (getq s)) s) = Some s' /\
      let s'' := setq (with_announce_remaining
                         (s32 (announce_remaining (getq s') - s32 (dticks t))) (getq s')) s' in
      Inv s'' /\ announce_weight (getq s'') < announce_weight (getq s)
}.

Section Termination.
Context `{AnnounceClient St getq setq run Inv}.

Lemma weight_from_nonneg r l : 0 <= weight_from r l.
Proof. revert r. induction l as [|t l IH]; intros r; cbn; [lia|]. specialize (IH (r - dticks t)). lia. Qed.

Lemma weight_from_bound r r0 l :
  Forall (fun t => 0 <= dticks t) l -> r <= r0 -> 0 <= r0 ->
  weight_from r l <= Z.of_nat (length l) * (r0 + 1).
Proof.
  intros Hpos. revert r. induction Hpos as [|t l Ht Hpos IH]; intros r Hr Hr0; cbn [weight_from length]; [lia|].
  cbn in Ht. specialize (IH (r - dticks t)). rewrite Nat2Z.inj_succ. lia.
Qed.

(** The loop ends within the fuel, with no expired timeout left. *)
Lemma announce_loop_total fuel s :
  Inv s -> announce_weight (getq s) <= Z.of_nat fuel ->
  exists s', announce_loop getq setq run fuel s = Some s' /\ Inv s' /\
    (forall t, first (getq s') = Some t -> announce_remaining (getq s') < dticks t).
Proof.
  revert s. induction fuel as [|fuel IH]; intros s Hi Hw; cbn [announce_loop];
    (destruct (first (getq s)) as [t|] eqn:Ef;
      [|exists s; split_and!; [done..|]; intros t Et; congruence]);
    (destruct (Z.leb_spec (dticks t) (announce_remaining (getq s))) as [Hle|Hgt];
      [|exists s; split_and!; [done..|]; intros t' Et; congruence]);
    destruct (announce_step s t Hi Ef Hle) as (s' & E & Hi' & Hlt).
  - exfalso. revert Hlt. generalize (getq (setq (with_announce_remaining
      (s32 (announce_remaining (getq s') - s32 (dticks t))) (getq s')) s')). intros q Hlt.
    pose proof (weight_from_nonneg (announce_remaining q) (timeout_list q)).
    unfold announce_weight in *. lia.
  - rewrite E. cbn. apply IH; [done|lia].
Qed.
End Termination.

Section Progress.
Context `{TimeoutConfig}.
Implicit Types (t to : timeout) (l : list timeout) (q : timeout_q) (n : timeout_node).

Lemma weight_insert r to l :
  wf_list l -> 0 <= dticks to <= INT64_MAX ->
  weight_from r (insert_timeout to l) = Z.max 0 (r - dticks to + 1) + weight_from r l.
Proof.
  intros Hwf%wf_list_bounds. revert r to.
  induction Hwf as [|t l Ht Hl IH]; intros r to Hto; [done|]. cbv beta in Ht.
  cbn [insert_timeout weight_from]. rewrite Z.gtb_ltb.
  destruct (Z.ltb_spec (dticks to) (dticks t)); cbn [weight_from dticks set_dticks].
  - rewrite s64_id by lia.
    replace (r - dticks to - (dticks t - dticks to)) with (r - dticks t) by lia. lia.
  - rewrite IH by (cbn; rewrite s64_id; lia). cbn [dticks set_dticks].
    rewrite s64_id by lia.
    replace (r - dticks t - (dticks to - dticks t)) with (r - dticks to) by lia. lia.
Qed.

Lemma weight_remove r n l : wf_list l -> weight_from r (remove_timeout n l) <= weight_from r l.
Proof.
  intros (_ & Hpos & Htot). revert r. induction Hpos as [|t l Ht Hl IH]; intros r; [done|].
  cbv beta in Ht. cbn [total_dticks] in Htot. pose proof (total_dticks_nonneg l Hl).
  cbn [remove_timeout weight_from]. case_decide.
  - destruct l as [|x l]; [cbn; lia|]. apply Forall_cons in Hl as [Hx Hl]. cbv beta in Hx.
    cbn [total_dticks] in Htot. pose proof (total_dticks_nonneg l Hl).
    cbn [weight_from dticks set_dticks]. rewrite s64_id by lia.
    replace (r - (dticks x + dticks t)) with (r - dticks t - dticks x) by lia. lia.
  - cbn [weight_from]. specialize (IH ltac:(lia) (r - dticks t)). lia.
Qed.

Lemma announce_expire_list t l q :
  timeout_list q = t :: l -> wf_timeouts q -> timeout_list (announce_expire t q) = l.
Proof.
  intros El Hwf. unfold announce_expire. cbn. rewrite El. cbn. rewrite decide_True by done.
  unfold wf_timeouts in Hwf. rewrite El in Hwf. apply wf_list_bounds in Hwf.
  destruct l as [|x l]; [done|]. rewrite !Forall_cons in Hwf. cbv beta in Hwf.
  rewrite Z.add_0_r, s64_id by lia. by destruct x.
Qed.

Lemma wf_list_tail t l : wf_list (t :: l) -> wf_list l.
Proof.
  intros (Hnd & Hpos & Htot). apply Forall_cons in Hpos as [Ht Hpos]. cbv beta in Ht.
  cbn [total_dticks] in Htot. rewrite fmap_cons in Hnd. apply NoDup_cons in Hnd as [_ Hnd].
  repeat split; [done..|lia].
Qed.

Lemma s32_id x : 0 <= x <= INT_MAX -> s32 x = x.
Proof. intros. apply wrap_s_small; unfold INT_MAX in *; lia. Qed.

(** ** The end of an announcement *)

Lemma deadlines_from_shift b c l :
  deadlines_from (b + c) l = (fun x : deadline => (x.1, x.2 + c)) <$> deadlines_from b l.
Proof.
  revert b. induction l as [|t l IH]; intros b; [done|]. cbn [deadlines_from]. rewrite fmap_cons.
  cbn. replace (b + c + dticks t) with (b + dticks t + c) by lia. f_equal. apply IH.
Qed.

Lemma deadlines_from_ge b l :
  Forall (fun t => 0 <= dticks t) l -> Forall (fun x : deadline => b <= x.2) (deadlines_from b l).
Proof.
  intros Hl. revert b. induction Hl as [|t l Ht Hl IH]; intros b; cbn; constructor; cbn in *; [lia|].
  eapply Forall_impl; [apply IH|]. cbn. lia.
Qed.

(** The reference behaviour of an announcement of [ticks]. *)
Definition expired (ticks : Z) (l : list deadline) : list deadline :=
  filter (fun x => x.2 <= ticks) l.
Definition surviving (ticks : Z) (l : list deadline) : list deadline :=
  (fun x => (x.1, x.2 - ticks)) <$> filter (fun x => ticks < x.2) l.

Lemma expired_none R (l : list deadline) : Forall (fun x : deadline => R < x.2) l -> expired R l = [].
Proof.
  unfold expired. induction 1 as [|x l Hx Hl IH]; [done|]. cbv beta in Hx.
  by rewrite filter_cons, decide_False by lia.
Qed.

Lemma surviving_all R (l : list deadline) :
  Forall (fun x : deadline => R < x.2) l -> surviving R l = (fun x => (x.1, x.2 - R)) <$> l.
Proof. intros Hl. unfold surviving. f_equal. apply list_filter_all. by apply Forall_forall. Qed.

(** The end of the announcement when nothing is due. *)
Lemma announce_finish_ok q :
  wf_timeouts q -> 0 <= announce_remaining q ->
  (forall t, first q = Some t -> announce_remaining q < dticks t) ->
  let q' := announce_finish q in
  expired (announce_remaining q) (deadlines q) = [] /\ wf_timeouts q' /\
  deadlines q' = surviving (announce_remaining q) (deadlines q) /\
  curr_tick q' = u64 (curr_tick q + announce_remaining q) /\ announce_remaining q' = 0.
Proof.
  intros Hwf HR Hs. unfold first, wf_timeouts, deadlines in *. cbn.
  destruct (timeout_list q) as [|t l]; [by repeat split; try constructor|].
  specialize (Hs t eq_refl). assert (Hwl := wf_list_tail _ _ Hwf).
  assert (Hb := wf_list_bounds _ Hwf). apply Forall_cons in Hb as [Ht _]. cbv beta in Ht.
  assert (Hall : Forall (fun x : deadline => announce_remaining q < x.2) (deadlines_from 0 (t :: l))).
  { cbn. constructor; [cbn; lia|].
    eapply Forall_impl; [apply deadlines_from_ge; apply Hwl|]. cbn. lia. }
  rewrite expired_none, surviving_all by done. cbn. rewrite s64_id by lia.
  split_and!; [done| | |done..].
  - destruct Hwf as (Hnd & Hpos & Htot). cbn in Htot. repeat split; [done| |cbn; lia].
    apply Forall_cons in Hpos as [_ Hpos]. constructor; [cbn; lia|done].
  - rewrite ?Z.add_0_l. f_equal.
    replace (dticks t - announce_remaining q) with (dticks t + (- announce_remaining q)) by lia.
    rewrite ?Z.add_0_l, (deadlines_from_shift (dticks t) (- announce_remaining q)).
    apply list_fmap_ext. intros i x _. f_equal.
Qed.

End Progress.

(** ** Remaining time *)

Section Remaining.
Context `{TimeoutConfig}.
Implicit Types (t to : timeout) (l : list timeout) (q : timeout_q) (n : timeout_node).

Lemma timeout_rem_loop_spec n f d l base :
  NoDup (node <$> l) -> Forall (fun t => 0 <= dticks t) l ->
  0 <= base -> base + total_dticks l <= INT64_MAX ->
  (n, f, d) ∈ deadlines_from base l -> timeout_rem_loop n base l = d /\ base <= d <= INT64_MAX.
Proof.
  intros Hnd Hpos. revert base Hnd. induction Hpos as [|t l Ht Hpos IH]; intros base Hnd Hb Htot Hin.
  { by apply not_elem_of_nil in Hin. }
  cbv beta in Ht. cbn [total_dticks fmap list_fmap] in *. apply NoDup_cons in Hnd as [Hn Hnd].
  pose proof (total_dticks_nonneg l Hpos). cbn [timeout_rem_loop deadlines_from] in *.
  rewrite s64_id by lia. apply elem_of_cons in Hin as [[= -> -> ->]|Hin].
  - rewrite decide_True by done. lia.
  - rewrite decide_False; [destruct (IH (base + dticks t)); [done|lia|lia|done|lia]|].
    intros E. apply Hn. rewrite E, <- (nodes_deadlines (base + dticks t)). apply list_elem_of_fmap. by exists (n, f, d).
Qed.

Lemma timeout_rem_spec n f d q :
  wf_timeouts q -> (n, f, d) ∈ deadlines q ->
  timeout_rem n q = d /\ 0 <= d <= INT64_MAX /\ z_is_inactive_timeout n q = false.
Proof.
  intros (Hnd & Hpos & Htot) Hin. unfold deadlines in Hin.
  destruct (timeout_rem_loop_spec n f d (timeout_list q) 0) as [E ?]; [done..|].
  split_and!; [done|lia|lia|]. unfold z_is_inactive_timeout. rewrite negb_false_iff, is_linked_true.
  rewrite <- (nodes_deadlines 0). apply list_elem_of_fmap. by exists (n, f, d).
Qed.

Lemma elem_of_insert_deadline x y (l : list deadline) :
  x ∈ insert_deadline y l <-> x = y \/ x ∈ l.
Proof.
  induction l as [|z l IH]; cbn; [set_solver|]. destruct (_ <? _); [set_solver|].
  rewrite !elem_of_cons, IH. tauto.
Qed.

Lemma first_deadline_min q t x :
  wf_timeouts q -> first q = Some t -> x ∈ deadlines q -> dticks t <= x.2.
Proof.
  unfold first, deadlines, wf_timeouts. destruct (timeout_list q) as [|t' l]; [done|].
  cbn. intros Hwf [= ->] Hin. apply wf_list_tail in Hwf as (_ & Hpos & _).
  apply elem_of_cons in Hin as [->|Hin]; [cbn; lia|].
  pose proof (deadlines_from_ge (0 + dticks t) l Hpos) as Hge.
  eapply Forall_forall in Hge; [|done]. cbn in Hge. lia.
Qed.
End Remaining.

(** ** Properties *)

(** A configuration and a queue used by the examples: a thread timeout in 3 ticks
    and the time slice in 10. *)
Definition tickless : TimeoutConfig :=
  {| CONFIG_TICKLESS_KERNEL := true; CONFIG_SYSTEM_CLOCK_SLOPPY_IDLE := false |}.

Definition example_q : timeout_q :=
  mkTimeoutQ 100 [mkTimeout (TN_thread 1) fn_z_thread_timeout 3; mkTimeout TN_slice fn_slice_timeout 7]
    0 2 (Some 3).

(** C8: [z_add_timeout] succeeds on an inactive timeout, keeps the queue well
    formed and the clock unchanged, and in terms of deadlines is a stable insertion:
    the new timeout gets its own deadline, behind those that are not later, and
    every other deadline stays the same. *)
Theorem z_add_timeout_refines `{TimeoutConfig} n f timeout q :
  wf_timeouts q -> n ∉ node <$> timeout_list q -> valid_timeout timeout -> valid_elapsed q ->
  exists q', z_add_timeout n f timeout q = Some q' /\ wf_timeouts q' /\ same_clock q q' /\
    deadlines q' = insert_deadline (n, f, timeout_dticks timeout q) (deadlines q).
Proof.
  intros Hwf Hn Ht He.
  destruct (z_add_timeout_ok n f timeout q Hwf Hn Ht He) as (q' & E & Hwf' & Hc & _ & Hd). eauto.
Qed.

Lemma z_add_timeout_refines_witness :
  exists q', @z_add_timeout tickless (TN_thread 2) fn_z_thread_timeout 4 example_q = Some q' /\
    deadlines q' = [(TN_thread 1, fn_z_thread_timeout, 3); (TN_thread 2, fn_z_thread_timeout, 7);
                    (TN_slice, fn_slice_timeout, 10)].
Proof.
  destruct (@z_add_timeout_refines tickless (TN_thread 2) fn_z_thread_timeout 4 example_q) as (q' & E & _ & _ & D).
  - by apply (bool_decide_unpack _); vm_compute.
  - by apply (bool_decide_unpack _); vm_compute.
  - split; vm_compute; congruence.
  - split; vm_compute; congruence.
  - exists q'. split; [exact E|]. rewrite D. reflexivity.
Defined.

(** C9: [z_abort_timeout] removes exactly the given timeout: it reports 0 when the
    timeout was active and -EINVAL when it was not, and no other deadline moves. *)
Theorem z_abort_timeout_refines n q :
  wf_timeouts q ->
  let '(ret, q') := z_abort_timeout n q in
  (ret = if decide (n ∈ node <$> timeout_list q) then 0 else - EINVAL) /\
  wf_timeouts q' /\ same_clock q q' /\
  deadlines q' = filter (fun x : deadline => x.1.1 <> n) (deadlines q).
Proof.
  intros Hwf. pose proof (z_abort_timeout_ok n q Hwf) as Ha.
  destruct (z_abort_timeout n q) as [ret q']. naive_solver.
Qed.

Lemma z_abort_timeout_refines_witness :
  deadlines (z_abort_timeout (TN_thread 1) example_q).2 = [(TN_slice, fn_slice_timeout, 10)].
Proof.
  pose proof (z_abort_timeout_refines (TN_thread 1) example_q
    ltac:(by apply (bool_decide_unpack _); vm_compute)) as Ha.
  destruct (z_abort_timeout (TN_thread 1) example_q) as [ret q']. cbn [snd].
  destruct Ha as (_ & _ & _ & ->). reflexivity.
Defined.

(** [z_timeout_remaining] and [z_timeout_expires] report the deadline: a timeout
    started for [t] ticks has [t + 1] ticks left at once (the partial first tick is
    rounded up), and one that is queued has its deadline left, less the ticks that
    have elapsed. *)
Theorem timeout_remaining_correct `{TimeoutConfig} n f t q q' m g d :
  wf_timeouts q -> n ∉ node <$> timeout_list q -> 0 <= t <= INT64_MAX - 2 ^ 31 -> valid_elapsed q ->
  z_add_timeout n f (K_TICKS t) q = Some q' -> (m, g, d) ∈ deadlines q ->
  z_timeout_remaining n q' = t + 1 /\
  z_timeout_remaining m q' = d - elapsed q /\ z_timeout_remaining m q = d - elapsed q /\
  z_timeout_expires m q' = s64 (curr_tick q + d).
Proof.
  intros Hwf Hn Ht He Eq Hm. pose proof (elapsed_range q He) as Hel.
  destruct (z_add_timeout_ok n f (K_TICKS t) q Hwf Hn) as (q1 & E & Hwf' & Hc & _ & Hd); [|done|].
  { unfold valid_timeout, K_FOREVER, K_TICKS_FOREVER, K_TICKS. lia. }
  rewrite Eq in E. injection E as <-.
  assert (Ed : timeout_dticks (K_TICKS t) q = t + 1 + elapsed q).
  { unfold timeout_dticks, Z_TICK_ABS, K_TICKS_FOREVER, K_TICKS. rewrite Z.geb_leb.
    rewrite (proj2 (Z.leb_gt 0 (-1 - 1 - t))) by lia. apply s64_id. lia. }
  assert (Hee : elapsed q' = elapsed q).
  { destruct Hc as (_ & E1 & E2). unfold elapsed. by rewrite E1, E2. }
  destruct (timeout_rem_spec n f (timeout_dticks (K_TICKS t) q) q' Hwf') as (R1 & B1 & I1).
  { rewrite Hd. apply elem_of_insert_deadline. by left. }
  destruct (timeout_rem_spec m g d q' Hwf') as (R2 & B2 & I2).
  { rewrite Hd. apply elem_of_insert_deadline. by right. }
  destruct (timeout_rem_spec m g d q Hwf Hm) as (R3 & B3 & I3).
  unfold z_timeout_remaining, z_timeout_expires. rewrite I1, I2, I3, R1, R2, R3, Hee, Ed.
  destruct Hc as (-> & _). rewrite !wrap_s_small by (unfold INT64_MAX in *; lia). lia.
Qed.

Lemma timeout_remaining_correct_witness :
  exists q', @z_add_timeout tickless (TN_thread 2) fn_z_thread_timeout 4 example_q = Some q' /\
    z_timeout_remaining (TN_thread 2) q' = 5 /\ z_timeout_expires TN_slice q' = 110.
Proof.
  eexists. split; [vm_compute; reflexivity|].
  match goal with |- z_timeout_remaining _ ?q' = _ /\ _ =>
    destruct (@timeout_remaining_correct tickless (TN_thread 2) fn_z_thread_timeout 4 example_q q'
                TN_slice fn_slice_timeout 10) as (A & _ & _ & B) end.
  - by apply (bool_decide_unpack _); vm_compute.
  - by apply (bool_decide_unpack _); vm_compute.
  - split; vm_compute; congruence.
  - split; vm_compute; congruence.
  - vm_compute. reflexivity.
  - by apply (bool_decide_unpack _); vm_compute.
  - split; [exact A|exact B].
Defined.

(** a timepoint computed from a relative timeout of [t] ticks, converted back
    after the clock has moved from [now] to [now + k], is a timeout of the ticks that
    are left, or of no ticks when the timepoint has passed. *)
Theorem timepoint_roundtrip t k q q' :
  0 < t -> 0 <= k -> sys_clock_tick_get q' = sys_clock_tick_get q + k ->
  0 <= sys_clock_tick_get q -> sys_clock_tick_get q + t <= INT64_MAX ->
  sys_timepoint_timeout (sys_timepoint_calc (K_TICKS t) q) q' = K_TICKS (Z.max 0 (t - k)).
Proof.
  intros Ht Hk Hq' H0 Hmax. unfold sys_timepoint_calc, sys_timepoint_timeout, K_TIMEOUT_EQ,
    K_FOREVER, K_NO_WAIT, K_TICKS, Z_TICK_ABS, K_TICKS_FOREVER, INT64_MAX, UINT64_MAX in *.
  pose proof (wrap_s_range 64 (u64 (curr_tick q' + elapsed q'))) as Hr.
  change (s64 (u64 (curr_tick q' + elapsed q'))) with (sys_clock_tick_get q') in Hr.
  rewrite (proj2 (Z.eqb_neq t (-1))), (proj2 (Z.eqb_neq t 0)) by lia.
  rewrite Z.geb_leb, (proj2 (Z.leb_gt 0 (-1 - 1 - t))) by lia.
  rewrite (Z.max_r 1 t), (wrap_u_small 64 (_ + t)) by lia.
  rewrite (proj2 (Z.eqb_neq _ (2 ^ 64 - 1))), (proj2 (Z.eqb_neq _ 0)) by lia.
  rewrite Hq', (wrap_u_small 64 (_ + k)) by lia. rewrite Z.gtb_ltb.
  destruct (Z.ltb_spec (sys_clock_tick_get q + k) (sys_clock_tick_get q + t));
    rewrite wrap_s_small; lia.
Qed.

Lemma timepoint_roundtrip_witness :
  sys_timepoint_timeout (sys_timepoint_calc (K_TICKS 20) example_q)
    (with_hw_elapsed 7 example_q) = K_TICKS 15.
Proof.
  rewrite (timepoint_roundtrip 20 5 example_q (with_hw_elapsed 7 example_q));
    [reflexivity|lia|lia|reflexivity|vm_compute; congruence|vm_compute; congruence].
Defined.

(** the timer is asked to interrupt in time: the wait [z_get_next_timeout_expiry]
    hands to the driver never passes the earliest deadline still ahead, and is the
    maximum wait only when no deadline lies within it. *)
Theorem next_timeout_in_time `{TimeoutConfig} q x :
  wf_timeouts q -> valid_elapsed q -> CONFIG_SYSTEM_CLOCK_SLOPPY_IDLE = false ->
  x ∈ deadlines q ->
  0 <= z_get_next_timeout_expiry q <= Z.max 0 (x.2 - elapsed q).
Proof.
  intros Hwf He Hs Hx. pose proof (elapsed_range q He) as Hel.
  unfold z_get_next_timeout_expiry, next_timeout, MAX_WAIT. rewrite Hs.
  destruct (first q) as [t|] eqn:Ef.
  - pose proof (first_deadline_min q t x Hwf Ef Hx).
    assert (Hb : 0 <= dticks t <= INT64_MAX).
    { apply wf_list_bounds in Hwf. unfold first in Ef. destruct (timeout_list q); [done|].
      injection Ef as ->. by apply Forall_cons in Hwf as [? _]. }
    unfold INT_MAX, INT64_MAX in *. rewrite wrap_s_small by lia. rewrite Z.gtb_ltb.
    destruct (Z.ltb_spec (2 ^ 31 - 1) (dticks t - elapsed q)); lia.
  - unfold first, deadlines in *. destruct (timeout_list q); [|done]. by apply not_elem_of_nil in Hx.
Qed.

Lemma next_timeout_in_time_witness : 0 <= @z_get_next_timeout_expiry tickless example_q <= 1.
Proof.
  apply (@next_timeout_in_time tickless example_q (TN_thread 1, fn_z_thread_timeout, 3)).
  - by apply (bool_decide_unpack _); vm_compute.
  - split; vm_compute; congruence.
  - reflexivity.
  - by apply (bool_decide_unpack _); vm_compute.
Defined.
