(* ===== verification/PriorityQ.v ===== *)
(** * Thread priority queues (kernel/include/priority_q.h, kernel/priority_queues.c)

    The two list-based queue implementations a build selects from.  The "dumb"
    queue keeps one list sorted by priority, oldest first among equals; the
    multi-queue keeps a list per priority and a bitmap of the non-empty ones.
    Threads are their addresses; [prio] reads [thread->base.prio].

    The dumb queue is the reference: [mq_repr] relates a multi-queue to the dumb
    queue with the same content, and adding, removing and picking the best thread
    agree on related queues. *)

From S2P Require Import Prelude.

Local Open Scope Z_scope.

Abbreviation tid := positive (only parsing).

(** [z_sched_prio_cmp] (kernel/sched.c) on the priorities of two threads: positive
    when the first thread goes before the second.  [CONFIG_SCHED_DEADLINE] is off. *)
Definition z_sched_prio_cmp (b1 b2 : Z) : Z := if negb (b1 =? b2) then b2 - b1 else 0.

Lemma z_sched_prio_cmp_pos b1 b2 : z_sched_prio_cmp b1 b2 > 0 <-> b1 < b2.
Proof. unfold z_sched_prio_cmp. destruct (Z.eqb_spec b1 b2); cbn; lia. Qed.

Section Queues.
Context (prio : tid -> Z).

(** ** The sorted list *)

Fixpoint z_priq_dumb_add (thread : tid) (pq : list tid) : list tid :=
  match pq with
  | [] => [thread]
  | t :: pq' =>
      if z_sched_prio_cmp (prio thread) (prio t) >? 0 then thread :: pq
      else t :: z_priq_dumb_add thread pq'
  end.

(** [sys_dlist_remove] on the thread's own node. *)
Definition z_priq_dumb_remove (thread : tid) (pq : list tid) : list tid :=
  remove_elem thread pq.

Definition z_priq_dumb_best (pq : list tid) : option tid := head pq.

(** [z_priq_rb_lessthan] (kernel/priority_queues.c): the order of the tree queue. *)
Definition z_priq_rb_lessthan (order_key : tid -> Z) (a b : tid) : bool :=
  let cmp := z_sched_prio_cmp (prio a) (prio b) in
  if cmp >? 0 then true
  else if cmp <? 0 then false
  else order_key a <? order_key b.

Definition prio_sorted (pq : list tid) : Prop := StronglySorted (fun a b => prio a <= prio b) pq.

(** ** The multi-queue *)

Context (highest : Z).   (* K_HIGHEST_THREAD_PRIO *)
Context (nbits : Z).     (* NBITS *)

Record priq_mq := mkMq { queues : list (list tid); bitmask : list Z }.

Record prio_info := mkPrioInfo { offset_prio : Z; idx : Z; bit : Z }.

Definition get_prio_info (old_prio : Z) : prio_info :=
  let offset_prio := u8 (old_prio - highest) in
  mkPrioInfo offset_prio (offset_prio / nbits) (offset_prio mod nbits).

Definition z_priq_mq_add (pq : priq_mq) (thread : tid) : priq_mq :=
  let pos := get_prio_info (prio thread) in
  mkMq (alter (fun q => q ++ [thread]) (Z.to_nat (offset_prio pos)) (queues pq))
       (alter (fun w => Z.lor w (BIT (bit pos))) (Z.to_nat (idx pos)) (bitmask pq)).

Definition z_priq_mq_remove (pq : priq_mq) (thread : tid) : priq_mq :=
  let pos := get_prio_info (prio thread) in
  let queues := alter (z_priq_dumb_remove thread) (Z.to_nat (offset_prio pos)) (queues pq) in
  match queues !! Z.to_nat (offset_prio pos) with
  | Some [] => mkMq queues (alter (fun w => Z.land w (Z.lnot (BIT (bit pos))))
                                  (Z.to_nat (idx pos)) (bitmask pq))
  | _ => mkMq queues (bitmask pq)
  end.

(** [u32_count_trailing_zeros] / [u64_count_trailing_zeros] of a non-zero word. *)
Fixpoint ctz_pos (p : positive) : Z :=
  match p with
  | xO p => 1 + ctz_pos p
  | _ => 0
  end.
Definition count_trailing_zeros (w : Z) : Z :=
  match w with
  | Zpos p => ctz_pos p
  | _ => nbits
  end.

(** The loop of [z_priq_mq_best] over the bitmap words, from word [i]. *)
Fixpoint mq_best_loop (i : Z) (words : list Z) (qs : list (list tid)) : option tid :=
  match words with
  | [] => None
  | w :: words =>
      if w =? 0 then mq_best_loop (i + 1) words qs
      else
        match qs !! Z.to_nat (i * nbits + count_trailing_zeros w) with
        | Some (t :: _) => Some t
        | _ => mq_best_loop (i + 1) words qs
        end
  end.

Definition z_priq_mq_best (pq : priq_mq) : option tid := mq_best_loop 0 (bitmask pq) (queues pq).
End Queues.

Arguments queues _ : clear implicits.
Arguments bitmask _ : clear implicits.

(** ** The sorted list: laws *)

Section DumbLaws.
Context (prio : tid -> Z).
Implicit Types (t : tid) (pq : list tid).

Lemma dumb_add_cases t x pq :
  z_priq_dumb_add prio t (x :: pq) =
    if decide (prio t < prio x) then t :: x :: pq else x :: z_priq_dumb_add prio t pq.
Proof.
  cbn. rewrite Z.gtb_ltb. pose proof (z_sched_prio_cmp_pos (prio t) (prio x)).
  destruct (Z.ltb_spec 0 (z_sched_prio_cmp (prio t) (prio x))), (decide (prio t < prio x)); done || lia.
Qed.

Lemma dumb_add_perm t pq : z_priq_dumb_add prio t pq ≡ₚ t :: pq.
Proof.
  induction pq as [|x pq IH]; [done|]. rewrite dumb_add_cases. case_decide; [done|].
  rewrite IH. apply Permutation_swap.
Qed.

Lemma elem_of_dumb_add x t pq : x ∈ z_priq_dumb_add prio t pq <-> x = t \/ x ∈ pq.
Proof. by rewrite dumb_add_perm, elem_of_cons. Qed.

Lemma dumb_add_NoDup t pq : NoDup pq -> t ∉ pq -> NoDup (z_priq_dumb_add prio t pq).
Proof. intros. rewrite dumb_add_perm. by apply NoDup_cons. Qed.

Lemma dumb_add_app t pq1 pq2 :
  (forall x, x ∈ pq1 -> prio x <= prio t) ->
  z_priq_dumb_add prio t (pq1 ++ pq2) = pq1 ++ z_priq_dumb_add prio t pq2.
Proof.
  intros H. induction pq1 as [|x pq1 IH]; [done|]. cbn [app]. rewrite dumb_add_cases.
  rewrite decide_False by (apply Z.le_ngt, H; set_solver). f_equal. apply IH. set_solver.
Qed.

Lemma dumb_add_front t pq :
  (forall x, x ∈ pq -> prio t < prio x) -> z_priq_dumb_add prio t pq = t :: pq.
Proof. intros H. destruct pq as [|x pq]; [done|]. rewrite dumb_add_cases, decide_True; [done|]. apply H. set_solver. Qed.

(** A new thread goes behind every thread of the same or a more urgent priority
    and in front of all others. *)
Lemma dumb_add_position t pq :
  prio_sorted prio pq ->
  z_priq_dumb_add prio t pq =
    filter (fun x => prio x <= prio t) pq ++ t :: filter (fun x => prio t < prio x) pq.
Proof.
  induction 1 as [|x pq Hs IH Hx]; [done|]. rewrite dumb_add_cases, !filter_cons.
  destruct (decide (prio t < prio x)).
  - rewrite decide_False by lia. assert (Hall : forall y, y ∈ pq -> prio t < prio y).
    { intros y Hy. eapply Forall_forall in Hx; [|done]. cbn in Hx. lia. }
    rewrite (list_filter_all _ pq Hall).
    replace (filter (fun y => prio y <= prio t) pq) with (@nil tid); [done|].
    symmetry. clear -Hall. induction pq as [|y pq IH]; [done|]. rewrite filter_cons.
    rewrite decide_False by (pose proof (Hall y ltac:(set_solver)); lia). apply IH. set_solver.
  - rewrite decide_True by lia. cbn. by rewrite IH.
Qed.

Lemma dumb_add_sorted t pq : prio_sorted prio pq -> prio_sorted prio (z_priq_dumb_add prio t pq).
Proof.
  unfold prio_sorted. induction 1 as [|x pq Hs IH Hx]; [repeat constructor|].
  rewrite dumb_add_cases. case_decide.
  - constructor; [by constructor|]. constructor; [lia|].
    eapply Forall_impl; [done|]. cbn. lia.
  - constructor; [done|]. rewrite Forall_forall in *. intros y [->|Hy]%elem_of_dumb_add; [lia|auto].
Qed.

Lemma dumb_remove_sorted t pq : prio_sorted prio pq -> prio_sorted prio (z_priq_dumb_remove t pq).
Proof. apply StronglySorted_remove_elem. Qed.

(** The best thread has the most urgent priority. *)
Lemma dumb_best_min t pq x :
  prio_sorted prio pq -> z_priq_dumb_best pq = Some t -> x ∈ pq -> prio t <= prio x.
Proof.
  intros Hs Ht Hx. destruct pq as [|y pq]; [done|]. cbn in Ht. simplify_eq.
  apply StronglySorted_inv in Hs as [_ Hs]. apply elem_of_cons in Hx as [->|Hx]; [lia|].
  by eapply Forall_forall in Hs.
Qed.

(** Only the priorities matter. *)
Lemma dumb_add_ext prio' t pq :
  (forall x, x ∈ t :: pq -> prio' x = prio x) -> z_priq_dumb_add prio' t pq = z_priq_dumb_add prio t pq.
Proof.
  intros He. induction pq as [|x pq IH]; cbn; [done|]. rewrite !He, IH by set_solver. done.
Qed.

(** Changing the priority of a thread outside the queue does not reorder it. *)
Lemma prio_sorted_ext prio' pq :
  (forall x, x ∈ pq -> prio' x = prio x) -> prio_sorted prio pq -> prio_sorted prio' pq.
Proof.
  intros He Hs. unfold prio_sorted in *. induction Hs as [|x pq Hs IH Hx]; [constructor|].
  constructor; [apply IH; set_solver|]. rewrite Forall_forall in *. intros y Hy.
  rewrite !He by set_solver. auto.
Qed.
End DumbLaws.

(** ** The multi-queue refines the sorted list *)

Section MqLaws.
Context (prio : tid -> Z) (highest nbits : Z).
Hypothesis nbits_pos : 0 < nbits.
Implicit Types (t : tid) (pq : list tid) (qs : list (list tid)).

(** The queue at index [i] holds threads of priority [base + i] only. *)
Definition by_prio (base : Z) qs : Prop :=
  forall i q t, qs !! i = Some q -> t ∈ q -> prio t = base + Z.of_nat i.

(** Bit [i] of the bitmap says whether the queue at index [i] has a thread; no
    other bit is set. *)
Definition bitmap_ok (words : list Z) qs : Prop :=
  forall j w b, words !! j = Some w -> 0 <= w /\
    (0 <= b < nbits -> Z.testbit w b = true <->
      exists t q, qs !! Z.to_nat (Z.of_nat j * nbits + b) = Some (t :: q)) /\
    (nbits <= b -> Z.testbit w b = false).

(** [pq] is the content of the multi-queue [mq]. *)
Record mq_repr (mq : priq_mq) (pq : list tid) : Prop := {
  mq_prio : by_prio highest (queues mq);
  mq_len : Z.of_nat (length (queues mq)) <= Z.of_nat (length (bitmask mq)) * nbits;
  mq_len_u8 : Z.of_nat (length (queues mq)) <= 256;
  mq_bits : bitmap_ok (bitmask mq) (queues mq);
  mq_list : pq = concat (queues mq)
}.

(** The priority of [t] has a queue in [mq]. *)
Definition prio_in_range (mq : priq_mq) t : Prop :=
  0 <= prio t - highest < Z.of_nat (length (queues mq)).

Lemma by_prio_cons base q qs :
  by_prio base (q :: qs) -> (forall t, t ∈ q -> prio t = base) /\ by_prio (base + 1) qs.
Proof.
  intros H. split.
  - intros t Ht. specialize (H O q t eq_refl Ht). lia.
  - intros i q' t Hq Ht. specialize (H (S i) q' t Hq Ht). lia.
Qed.

Lemma by_prio_concat_ge base qs x : by_prio base qs -> x ∈ concat qs -> base <= prio x.
Proof.
  revert base. induction qs as [|q qs IH]; intros base Hb; cbn; [set_solver|].
  destruct (by_prio_cons _ _ _ Hb) as [Hq Hqs]. rewrite elem_of_app. intros [Hx|Hx].
  - rewrite (Hq x Hx). lia.
  - specialize (IH _ Hqs Hx). lia.
Qed.

Lemma concat_alter_add base qs i t :
  by_prio base qs -> (i < length qs)%nat -> prio t = base + Z.of_nat i ->
  concat (alter (fun q => q ++ [t]) i qs) = z_priq_dumb_add prio t (concat qs).
Proof.
  revert base i. induction qs as [|q qs IH]; intros base i Hb Hi Ht; cbn in Hi; [lia|].
  destruct (by_prio_cons _ _ _ Hb) as [Hq Hqs]. destruct i as [|i]; cbn.
  - rewrite dumb_add_app by (intros x Hx; rewrite (Hq x Hx); lia).
    rewrite <- app_assoc. f_equal. rewrite dumb_add_front; [done|].
    intros x Hx. pose proof (by_prio_concat_ge _ _ _ Hqs Hx). lia.
  - rewrite dumb_add_app by (intros x Hx; rewrite (Hq x Hx); lia). f_equal.
    apply (IH (base + 1)); [done|lia|lia].
Qed.

Lemma concat_alter_remove base qs i t :
  by_prio base qs -> (i < length qs)%nat -> prio t = base + Z.of_nat i ->
  concat (alter (z_priq_dumb_remove t) i qs) = z_priq_dumb_remove t (concat qs).
Proof.
  revert base i. induction qs as [|q qs IH]; intros base i Hb Hi Ht; cbn in Hi; [lia|].
  destruct (by_prio_cons _ _ _ Hb) as [Hq Hqs]. unfold z_priq_dumb_remove, remove_elem in *.
  destruct i as [|i]; cbn; rewrite filter_app.
  - f_equal. symmetry. apply list_filter_all. intros x Hx ->.
    pose proof (by_prio_concat_ge _ _ _ Hqs Hx). lia.
  - rewrite (list_filter_all _ q) by (intros x Hx ->; rewrite (Hq t Hx) in Ht; lia).
    f_equal. apply (IH (base + 1)); [done|lia|lia].
Qed.

Lemma by_prio_alter_add base qs i t :
  by_prio base qs -> prio t = base + Z.of_nat i ->
  by_prio base (alter (fun q => q ++ [t]) i qs).
Proof.
  intros Hb Ht j q x Hq Hx. destruct (decide (i = j)) as [->|Hne].
  - rewrite list_lookup_alter_eq in Hq. destruct (qs !! j) as [q'|] eqn:E; [|done].
    cbn in Hq. simplify_eq. apply elem_of_app in Hx as [Hx|Hx]; [by eapply Hb|].
    by apply list_elem_of_singleton in Hx as ->.
  - rewrite list_lookup_alter_ne in Hq by done. by eapply Hb.
Qed.

Lemma by_prio_alter_remove base qs i t :
  by_prio base qs -> by_prio base (alter (z_priq_dumb_remove t) i qs).
Proof.
  intros Hb j q x Hq Hx. destruct (decide (i = j)) as [->|Hne].
  - rewrite list_lookup_alter_eq in Hq. destruct (qs !! j) as [q'|] eqn:E; [|done].
    cbn in Hq. simplify_eq. apply elem_of_remove_elem in Hx as [_ Hx]. by eapply Hb.
  - rewrite list_lookup_alter_ne in Hq by done. by eapply Hb.
Qed.

Lemma index_inj (j j' : nat) b b' :
  0 <= b < nbits -> 0 <= b' < nbits ->
  Z.to_nat (Z.of_nat j * nbits + b) = Z.to_nat (Z.of_nat j' * nbits + b') -> j = j' /\ b = b'.
Proof.
  intros Hb Hb' E. assert (E' : Z.of_nat j * nbits + b = Z.of_nat j' * nbits + b') by nia.
  assert (Z.of_nat j = Z.of_nat j'); [|split; lia].
  assert (Z.of_nat j = (Z.of_nat j * nbits + b) / nbits) by (rewrite Z.div_add_l, Z.div_small; lia).
  assert (Z.of_nat j' = (Z.of_nat j' * nbits + b') / nbits) by (rewrite Z.div_add_l, Z.div_small; lia).
  congruence.
Qed.

Definition has_thread qs (i : nat) : Prop := exists t q, qs !! i = Some (t :: q).

(** Rewriting one word of the bitmap along with one queue. *)
Lemma bitmap_ok_update words qs qs' j b (f : Z -> Z) :
  0 <= b < nbits -> bitmap_ok words qs ->
  let i := Z.to_nat (Z.of_nat j * nbits + b) in
  (forall k, k <> i -> qs' !! k = qs !! k) ->
  (forall w, words !! j = Some w -> 0 <= w -> 0 <= f w /\
     (Z.testbit (f w) b = true <-> has_thread qs' i) /\
     (forall b', b' <> b -> Z.testbit (f w) b' = Z.testbit w b')) ->
  bitmap_ok (alter f j words) qs'.
Proof.
  intros Hb Hok i Hqs Hf j' w b' Hw.
  destruct (decide (j = j')) as [<-|Hne].
  - rewrite list_lookup_alter_eq in Hw. destruct (words !! j) as [w0|] eqn:E; [|done].
    cbn in Hw. simplify_eq. destruct (Hok j w0 b' E) as (H0 & H1 & H2).
    destruct (Hf w0 eq_refl H0) as (F0 & F1 & F2). split; [done|]. split.
    + intros Hb'. destruct (decide (b' = b)) as [->|Hne]; [done|]. rewrite F2 by done.
      rewrite Hqs; [by apply H1|]. intros Ei. apply index_inj in Ei; [|done..]. by destruct Ei.
    + intros Hb'. rewrite F2 by lia. by apply H2.
  - rewrite list_lookup_alter_ne in Hw by done. destruct (Hok j' w b' Hw) as (H0 & H1 & H2).
    split; [done|]. split; [|done]. intros Hb'. rewrite Hqs; [by apply H1|].
    intros Ei. apply index_inj in Ei; [|done..]. by destruct Ei.
Qed.

Lemma prio_info_small mq t :
  Z.of_nat (length (queues mq)) <= 256 -> prio_in_range mq t ->
  let pos := get_prio_info highest nbits (prio t) in
  offset_prio pos = prio t - highest /\ 0 <= bit pos < nbits /\ 0 <= idx pos /\
  Z.to_nat (offset_prio pos) = Z.to_nat (Z.of_nat (Z.to_nat (idx pos)) * nbits + bit pos).
Proof.
  intros H256 Hr. unfold prio_in_range in Hr. cbn. rewrite wrap_u_small by lia.
  pose proof (Z.mod_pos_bound (prio t - highest) nbits).
  pose proof (Z.div_pos (prio t - highest) nbits). split_and!; [done|lia..|].
  rewrite Z2Nat.id by lia. f_equal. rewrite (Z.div_mod (prio t - highest) nbits) at 1 by lia. lia.
Qed.

Lemma mq_add_repr mq pq t :
  mq_repr mq pq -> prio_in_range mq t ->
  mq_repr (z_priq_mq_add prio highest nbits mq t) (z_priq_dumb_add prio t pq).
Proof.
  intros [Hp Hl H8 Hb ->] Hr. unfold z_priq_mq_add. cbv zeta.
  destruct (prio_info_small mq t H8 Hr) as (Eo & Hbit & Hidx & Ei).
  set (pos := get_prio_info highest nbits (prio t)) in *. clearbody pos. unfold prio_in_range in Hr.
  split; cbn; rewrite ?length_alter; [|done..| |].
  - apply by_prio_alter_add; [done|lia].
  - rewrite Ei. apply bitmap_ok_update with (qs := queues mq) (b := bit pos); [done|done| |].
    + intros k Hk. by rewrite list_lookup_alter_ne.
    + intros w Hw H0. split; [apply Z.lor_nonneg; unfold BIT; rewrite Z.shiftl_nonneg; lia|].
      split.
      * rewrite testbit_setflag, Z.eqb_refl, orb_true_r by lia. split; [|done]. intros _.
        destruct (lookup_lt_is_Some_2 (queues mq) (Z.to_nat (offset_prio pos))) as [q Hq]; [lia|].
        rewrite <- Ei. unfold has_thread. rewrite list_lookup_alter_eq, Hq. cbn.
        destruct q; cbn; eauto.
      * intros b' Hb'. rewrite testbit_setflag by lia.
        by rewrite (proj2 (Z.eqb_neq b' (bit pos)) Hb'), orb_false_r.
  - symmetry. eapply concat_alter_add; [done|lia|lia].
Qed.

Lemma mq_remove_repr mq pq t :
  mq_repr mq pq -> prio_in_range mq t ->
  mq_repr (z_priq_mq_remove prio highest nbits mq t) (z_priq_dumb_remove t pq).
Proof.
  intros [Hp Hl H8 Hb ->] Hr. unfold z_priq_mq_remove. cbv zeta.
  destruct (prio_info_small mq t H8 Hr) as (Eo & Hbit & Hidx & Ei).
  set (pos := get_prio_info highest nbits (prio t)) in *. clearbody pos. unfold prio_in_range in Hr.
  destruct (lookup_lt_is_Some_2 (queues mq) (Z.to_nat (offset_prio pos))) as [q Hq]; [lia|].
  assert (Hc : concat (alter (z_priq_dumb_remove t) (Z.to_nat (offset_prio pos)) (queues mq)) =
               z_priq_dumb_remove t (concat (queues mq)))
    by (eapply concat_alter_remove; [done|lia|lia]).
  assert (Hlk := list_lookup_alter_eq (z_priq_dumb_remove t) (queues mq) (Z.to_nat (offset_prio pos))).
  rewrite Hq in Hlk. cbn in Hlk.
  set (qs := alter (z_priq_dumb_remove t) (Z.to_nat (offset_prio pos)) (queues mq)) in *.
  assert (Hqs : forall k, k <> Z.to_nat (offset_prio pos) -> qs !! k = queues mq !! k)
    by (intros k Hk; apply list_lookup_alter_ne; done).
  assert (Hlen : length qs = length (queues mq)) by apply length_alter.
  assert (Hpr : by_prio highest qs) by (by apply by_prio_alter_remove).
  rewrite Hlk. destruct (z_priq_dumb_remove t q) as [|x r] eqn:Er; split; cbn;
    rewrite ?length_alter, ?Hlen; try done.
  - rewrite Ei in *. apply bitmap_ok_update with (qs := queues mq) (b := bit pos); [done|done|done|].
    intros w Hw H0. split; [apply Z.land_nonneg; by left|]. split.
    + rewrite testbit_clrflag, Z.eqb_refl, andb_false_r by lia. split; [done|].
      intros (? & ? & E). congruence.
    + intros b' Hb'. rewrite testbit_clrflag by lia.
      by rewrite (proj2 (Z.eqb_neq b' (bit pos)) Hb'), andb_true_r.
  - rewrite <- (list_alter_id (fun w => w) (bitmask mq) (Z.to_nat (idx pos))) by done.
    apply bitmap_ok_update with (qs := queues mq) (b := bit pos); [done|done|by rewrite <- Ei|].
    intros w Hw H0. split; [done|]. split; [|done]. rewrite <- Ei.
    destruct (Hb _ w (bit pos) Hw) as (_ & H1 & _). rewrite H1 by done. rewrite <- Ei, Hq.
    split; intros _; [by exists x, r|]. destruct q; [by cbn in Er|eauto].
Qed.

Lemma ctz_spec w :
  0 < w -> let c := count_trailing_zeros nbits w in
  0 <= c /\ Z.testbit w c = true /\ forall b, 0 <= b < c -> Z.testbit w b = false.
Proof.
  destruct w as [|p|]; [lia| |lia]. intros _. cbn [count_trailing_zeros].
  induction p as [p IH|p IH|]; cbn [ctz_pos]; cbv zeta in *.
  - split; [lia|]. split; [done|]. lia.
  - destruct IH as (H0 & H1 & H2). split; [lia|].
    rewrite (Pos2Z.inj_xO p). split.
    + rewrite Z.add_1_l. by rewrite Z.double_bits_succ.
    + intros b Hb. destruct (decide (b = 0)) as [->|]; [apply Z.testbit_even_0|].
      replace b with (Z.succ (b - 1)) by lia. rewrite Z.double_bits_succ. apply H2. lia.
  - split; [lia|]. split; [done|]. lia.
Qed.

(** The head of a concatenation is the head of the first non-empty list. *)
Lemma head_concat_drop qs k i t q :
  (k <= i)%nat -> qs !! i = Some (t :: q) ->
  (forall j, (k <= j < i)%nat -> ~ has_thread qs j) -> head (concat (drop k qs)) = Some t.
Proof.
  intros Hk Hi. remember (i - k)%nat as d eqn:Ed. revert k Hk Ed.
  induction d as [|d IH]; intros k Hk Ed Hno.
  - replace k with i by lia. by rewrite (drop_S _ _ _ Hi).
  - assert (Hl : (k < length qs)%nat) by (apply lookup_lt_Some in Hi; lia).
    destruct (lookup_lt_is_Some_2 qs k Hl) as [r Hr]. rewrite (drop_S _ _ _ Hr). cbn.
    destruct r as [|x r]; [apply IH; [lia|lia|intros j Hj; apply Hno; lia]|].
    exfalso. apply (Hno k); [lia|]. by exists x, r.
Qed.

Lemma concat_drop_skip qs k i :
  (k <= i)%nat -> (forall j, (k <= j < i)%nat -> ~ has_thread qs j) ->
  concat (drop k qs) = concat (drop i qs).
Proof.
  intros Hk. remember (i - k)%nat as d eqn:Ed. revert k Hk Ed.
  induction d as [|d IH]; intros k Hk Ed Hno; [by replace k with i by lia|].
  destruct (qs !! k) as [r|] eqn:Hr.
  - rewrite (drop_S _ _ _ Hr). destruct r as [|x r].
    + apply IH; [lia|lia|]. intros j Hj. apply Hno. lia.
    + exfalso. apply (Hno k); [lia|]. by exists x, r.
  - apply lookup_ge_None in Hr. rewrite !drop_ge by lia. done.
Qed.

(** Word [k + j] of the bitmap describes the queues from [(k + j) * nbits]. *)
Definition bitmap_from (k : Z) (words : list Z) qs : Prop :=
  forall j w b, words !! j = Some w -> 0 <= w /\
    (0 <= b < nbits ->
       Z.testbit w b = true <-> has_thread qs (Z.to_nat ((k + Z.of_nat j) * nbits + b))) /\
    (nbits <= b -> Z.testbit w b = false).

Lemma mq_best_loop_spec words : forall k qs,
  0 <= k -> bitmap_from k words qs ->
  Z.of_nat (length qs) <= (k + Z.of_nat (length words)) * nbits ->
  mq_best_loop nbits k words qs = head (concat (drop (Z.to_nat (k * nbits)) qs)).
Proof.
  induction words as [|w words IH]; intros k qs Hk Hb Hl.
  - cbn in *. rewrite drop_ge by lia. done.
  - assert (Hw := fun b => Hb O w b eq_refl).
    assert (Hrest : mq_best_loop nbits (k + 1) words qs =
                    head (concat (drop (Z.to_nat ((k + 1) * nbits)) qs))).
    { apply IH; [lia| |cbn in Hl; lia]. intros j v b Hj.
      destruct (Hb (S j) v b Hj) as (H0 & H1 & H2). split; [done|]. split; [|done].
      intros Hbn. rewrite (H1 Hbn). do 3 f_equiv. lia. }
    cbn [mq_best_loop]. destruct (Z.eqb_spec w 0) as [->|Hne].
    + rewrite Hrest. f_equal. symmetry. apply concat_drop_skip; [nia|]. intros j Hj Ht.
      destruct (Hw (Z.of_nat j - k * nbits)) as (_ & H1 & _).
      rewrite Z.bits_0 in H1. cut (false = true); [done|]. apply H1; [nia|].
      by replace (Z.to_nat _) with j by nia.
    + destruct (ctz_spec w) as (Hc0 & Hc1 & Hc2); [destruct (Hw 0); lia|].
      set (c := count_trailing_zeros nbits w) in *. clearbody c.
      assert (c < nbits).
      { destruct (Hw c) as (_ & _ & H2). destruct (Z.lt_ge_cases c nbits) as [|Hge]; [done|].
        rewrite (H2 Hge) in Hc1. done. }
      destruct (Hw c) as (_ & H1 & _). destruct (proj1 (H1 ltac:(lia)) Hc1) as (t & q & Hq).
      replace (k + Z.of_nat 0) with k in Hq by lia. rewrite Hq. symmetry.
      eapply head_concat_drop; [|exact Hq|]; [nia|]. intros j Hj Ht.
      destruct (Hw (Z.of_nat j - k * nbits)) as (_ & H3 & _).
      rewrite Hc2 in H3 by nia. cut (false = true); [done|]. apply H3; [nia|].
      by replace (Z.to_nat _) with j by nia.
Qed.

Lemma mq_best_repr mq pq : mq_repr mq pq -> z_priq_mq_best nbits mq = z_priq_dumb_best pq.
Proof.
  intros [Hp Hl H8 Hb ->]. unfold z_priq_mq_best, z_priq_dumb_best.
  rewrite mq_best_loop_spec; [done|lia| |lia]. exact Hb.
Qed.
End MqLaws.

(** ** Refinement *)

Inductive queue_op := Qadd (t : tid) | Qremove (t : tid).

Definition queue_op_thread (o : queue_op) : tid := match o with Qadd t | Qremove t => t end.

Definition mq_run (prio : tid -> Z) (highest nbits : Z) : list queue_op -> priq_mq -> priq_mq :=
  flip (foldl (fun pq o => match o with
                           | Qadd t => z_priq_mq_add prio highest nbits pq t
                           | Qremove t => z_priq_mq_remove prio highest nbits pq t
                           end)).

Definition dumb_run (prio : tid -> Z) : list queue_op -> list tid -> list tid :=
  flip (foldl (fun pq o => match o with
                           | Qadd t => z_priq_dumb_add prio t pq
                           | Qremove t => z_priq_dumb_remove t pq
                           end)).

Lemma mq_op_range prio highest nbits mq t u :
  prio_in_range prio highest mq u ->
  prio_in_range prio highest (z_priq_mq_add prio highest nbits mq t) u /\
  prio_in_range prio highest (z_priq_mq_remove prio highest nbits mq t) u.
Proof.
  unfold prio_in_range, z_priq_mq_add, z_priq_mq_remove. cbv zeta.
  split; [|repeat case_match]; cbn [queues]; by rewrite length_alter.
Qed.

(** An empty multi-queue: a list per priority and the bitmap words they need. *)
Definition mq_empty (nqueues nwords : nat) : priq_mq := mkMq (replicate nqueues []) (replicate nwords 0).

(** C10: the multi-queue with its bitmap (z_priq_mq_add, z_priq_mq_remove,
    z_priq_mq_best) behaves as the sorted list of the dumb queue: from related
    queues, any sequence of additions and removals of threads whose priority has a
    queue ends in related queues, which pick the same thread as best. *)
Theorem mq_refines_dumb prio highest nbits ops mq pq :
  0 < nbits -> mq_repr prio highest nbits mq pq ->
  Forall (fun o => prio_in_range prio highest mq (queue_op_thread o)) ops ->
  let mq' := mq_run prio highest nbits ops mq in
  let pq' := dumb_run prio ops pq in
  mq_repr prio highest nbits mq' pq' /\ z_priq_mq_best nbits mq' = z_priq_dumb_best pq'.
Proof.
  intros Hn Hr Hops mq' pq'.
  cut (mq_repr prio highest nbits mq' pq'); [eauto using mq_best_repr|].
  unfold mq', pq', mq_run, dumb_run, flip. clear mq' pq'.
  revert mq pq Hr Hops. induction ops as [|o ops IH]; intros mq pq Hr Hops; [done|].
  apply Forall_cons in Hops as [Ho Hops]. cbn [foldl].
  destruct o as [t|t]; cbn in Ho; apply IH;
    eauto using mq_add_repr, mq_remove_repr; eapply Forall_impl; try exact Hops;
    intros o Hr'; by apply mq_op_range.
Qed.

Lemma mq_empty_repr prio highest nbits nq nw :
  0 < nbits -> Z.of_nat nq <= Z.of_nat nw * nbits -> Z.of_nat nq <= 256 ->
  mq_repr prio highest nbits (mq_empty nq nw) [].
Proof.
  intros H0 Hn H256. split; cbn; rewrite ?length_replicate; try done.
  - intros i q t Hq Ht. apply lookup_replicate in Hq as [-> _]. by apply not_elem_of_nil in Ht.
  - intros j w b Hw. apply lookup_replicate in Hw as [-> _]. rewrite Z.bits_0.
    split; [done|]. split; [|done]. intros _. split; [done|]. intros (t & q & Hq).
    by apply lookup_replicate in Hq as [? _].
  - clear. induction nq as [|nq IH]; [done|]. cbn. done.
Qed.

Lemma mq_refines_dumb_witness :
  let prio (t : tid) := Z.pos t in
  let ops := [Qadd 40; Qadd 3; Qadd 33; Qremove 3]%positive in
  z_priq_mq_best 32 (mq_run prio 0 32 ops (mq_empty 64 2)) = Some 33%positive.
Proof.
  intros prio ops.
  rewrite (proj2 (mq_refines_dumb prio 0 32 ops (mq_empty 64 2) [] ltac:(lia)
    (mq_empty_repr prio 0 32 64 2 ltac:(lia) ltac:(lia) ltac:(lia))
    ltac:(unfold ops; repeat (apply Forall_cons_2; [unfold prio_in_range, prio; cbn; lia|]); apply Forall_nil_2))).
  reflexivity.
Defined.
