(* ===== verification/RbTree.v ===== *)
(** * Red-black trees (lib/utils/rb.c, include/zephyr/sys/rb.h)

    The intrusive balanced tree behind the scalable scheduler and wait queues, at pointer
    level: a store of [struct rbnode] by address, the colour of a node in the lowest bit of
    its first child pointer, and the array of ancestors that the algorithms keep in place
    of parent pointers.  Following a pointer that is not a node and leaving the bounds of
    the array are [None].

    The theorems show that the tree is a sorted set, that it stays balanced, and that the
    array, sized by [max_depth], is never overrun, although removals rotate nodes down
    without touching [max_depth]. *)

From S2P Require Import Prelude.

Local Open Scope Z_scope.

(** ** Nodes *)

(** Addresses are integers; [NULL] is 0.  [children0] is the word with the colour. *)
Record rbnode := mkRb { children0 : Z; children1 : Z }.

Inductive rb_color := RED | BLACK.
Definition color_val (c : rb_color) : Z := match c with RED => 0 | BLACK => 1 end.

#[global] Instance rb_color_eq_dec : EqDecision rb_color.
Proof. solve_decision. Defined.

Abbreviation rbheap := (gmap Z rbnode).

(** [side != 0] is [true]. *)
Definition get_child (h : rbheap) (n : Z) (side : bool) : option Z :=
  c ← h !! n;
  Some (if side then children1 c else Z.land (children0 c) (Z.lnot 1)).

Definition set_child (h : rbheap) (n : Z) (side : bool) (val : Z) : option rbheap :=
  c ← h !! n;
  Some (<[n := if side then mkRb (children0 c) val
               else mkRb (Z.lor val (Z.land (children0 c) 1)) (children1 c)]> h).

Definition get_color (h : rbheap) (n : Z) : option rb_color :=
  c ← h !! n;
  Some (if Z.land (children0 c) 1 =? color_val BLACK then BLACK else RED).

Definition is_black (h : rbheap) (n : Z) : option bool := c ← get_color h n; Some (bool_decide (c = BLACK)).
Definition is_red (h : rbheap) (n : Z) : option bool := c ← get_color h n; Some (bool_decide (c = RED)).

Definition set_color (h : rbheap) (n : Z) (color : rb_color) : option rbheap :=
  c ← h !! n;
  Some (<[n := mkRb (Z.lor (Z.land (children0 c) (Z.lnot 1)) (color_val color)) (children1 c)]> h).

Definition get_side (h : rbheap) (parent child : Z) : option bool :=
  c ← get_child h parent true; Some (c =? child).

(** [(n == NULL) || is_black(n)] and [(n != NULL) && is_red(n)]. *)
Definition null_or_black (h : rbheap) (n : Z) : option bool := if n =? 0 then Some true else is_black h n.
Definition non_null_red (h : rbheap) (n : Z) : option bool := if n =? 0 then Some false else is_red h n.

(** ** The array of ancestors

    Entries are [None] until they are written. *)

Abbreviation rbstack := (list (option Z)).

Definition stack_new (sz : Z) : rbstack := replicate (Z.to_nat sz) None.

Definition stack_get (stack : rbstack) (i : Z) : option Z :=
  if i <? 0 then None else v ← stack !! Z.to_nat i; v.

Definition stack_set (stack : rbstack) (i : Z) (v : Z) : option rbstack :=
  if (0 <=? i) && (i <? Z.of_nat (length stack)) then Some (<[Z.to_nat i := Some v]> stack) else None.

(** ** The tree *)

Record rbtree := mkRbtree { rb_root : Z; max_depth : Z }.

Definition with_root (v : Z) (t : rbtree) : rbtree := mkRbtree v (max_depth t).
Definition with_max_depth (v : Z) (t : rbtree) : rbtree := mkRbtree (rb_root t) v.

Section Code.
Context (lessthan_fn : Z -> Z -> bool).

(** The loop of [find_and_stack]; every iteration fills an entry of the array. *)
Fixpoint find_loop (fuel : nat) (h : rbheap) (node : Z) (stack : rbstack) (sz : Z) : option (Z * rbstack) :=
  match fuel with
  | O => None
  | S fuel =>
      top ← stack_get stack (sz - 1);
      if top =? node then Some (sz, stack)
      else
        let side := if lessthan_fn node top then false else true in
        ch ← get_child h top side;
        if negb (ch =? 0) then
          stack ← stack_set stack sz ch;
          find_loop fuel h node stack (sz + 1)
        else Some (sz, stack)
  end.

Definition find_and_stack (h : rbheap) (tree : rbtree) (node : Z) (stack : rbstack) : option (Z * rbstack) :=
  stack ← stack_set stack 0 (rb_root tree);
  find_loop (S (length stack)) h node stack 1.

Fixpoint minmax_loop (fuel : nat) (h : rbheap) (n : Z) (side : bool) : option Z :=
  match fuel with
  | O => None
  | S fuel =>
      if n =? 0 then Some n
      else
        ch ← get_child h n side;
        if ch =? 0 then Some n else minmax_loop fuel h ch side
  end.

(** A walk down the tree has at most [max_depth] steps. *)
Definition walk_fuel (tree : rbtree) : nat := S (Z.to_nat (max_depth tree)).

Definition z_rb_get_minmax (h : rbheap) (tree : rbtree) (side : bool) : option Z :=
  minmax_loop (walk_fuel tree) h (rb_root tree) side.
Definition rb_get_min (h : rbheap) (tree : rbtree) : option Z := z_rb_get_minmax h tree false.
Definition rb_get_max (h : rbheap) (tree : rbtree) : option Z := z_rb_get_minmax h tree true.

Definition rotate (h : rbheap) (stack : rbstack) (stacksz : Z) : option (rbheap * rbstack) :=
  parent ← stack_get stack (stacksz - 2);
  child ← stack_get stack (stacksz - 1);
  side ← get_side h parent child;
  a ← get_child h child side;
  b ← get_child h child (negb side);
  h ← (if stacksz >=? 3 then
         grandparent ← stack_get stack (stacksz - 3);
         gside ← get_side h grandparent parent;
         set_child h grandparent gside child
       else Some h);
  h ← set_child h child side a;
  h ← set_child h child (negb side) parent;
  h ← set_child h parent side b;
  stack ← stack_set stack (stacksz - 2) child;
  stack ← stack_set stack (stacksz - 1) parent;
  Some (h, stack).

Fixpoint fix_extra_red (fuel : nat) (h : rbheap) (stack : rbstack) (stacksz : Z) : option (rbheap * rbstack) :=
  match fuel with
  | O => None
  | S fuel =>
      if stacksz >? 1 then
        node ← stack_get stack (stacksz - 1);
        parent ← stack_get stack (stacksz - 2);
        pb ← is_black h parent;
        if (pb : bool) then Some (h, stack)
        else
          grandparent ← stack_get stack (stacksz - 3);
          side ← get_side h grandparent parent;
          aunt ← get_child h grandparent (negb side);
          ar ← non_null_red h aunt;
          if (ar : bool) then
            h ← set_color h grandparent RED;
            h ← set_color h parent BLACK;
            h ← set_color h aunt BLACK;
            fix_extra_red fuel h stack (stacksz - 2)
          else
            parent_side ← get_side h parent node;
            '(h, stack) ← (if negb (eqb parent_side side) then rotate h stack stacksz else Some (h, stack));
            '(h, stack) ← rotate h stack (stacksz - 1);
            g ← stack_get stack (stacksz - 3);
            h ← set_color h g BLACK;
            p ← stack_get stack (stacksz - 2);
            h ← set_color h p RED;
            Some (h, stack)
      else
        r ← stack_get stack 0;
        h ← set_color h r BLACK;
        Some (h, stack)
  end.

Definition rb_insert (h : rbheap) (tree : rbtree) (node : Z) : option (rbheap * rbtree) :=
  h ← set_child h node false 0;
  h ← set_child h node true 0;
  if rb_root tree =? 0 then
    h ← set_color h node BLACK;
    Some (h, mkRbtree node 1)
  else
    let stack := stack_new (max_depth tree + 1) in
    '(stacksz, stack) ← find_and_stack h tree node stack;
    parent ← stack_get stack (stacksz - 1);
    let side := if lessthan_fn node parent then false else true in
    h ← set_child h parent side node;
    h ← set_color h node RED;
    stack ← stack_set stack stacksz node;
    let stacksz := stacksz + 1 in
    '(h, stack) ← fix_extra_red (Z.to_nat stacksz) h stack stacksz;
    let tree := if stacksz >? max_depth tree then with_max_depth stacksz tree else tree in
    root ← stack_get stack 0;
    Some (h, with_root root tree).

(** The part of the loop of [fix_missing_black] that makes the sibling black. *)
Definition blacken_sibling (h : rbheap) (stack : rbstack) (stacksz n parent sib : Z) (n_side : bool)
    : option (rbheap * rbstack * Z * Z * Z) :=
  sb ← is_black h sib;
  if negb sb then
    stack ← stack_set stack (stacksz - 1) sib;
    '(h, stack) ← rotate h stack stacksz;
    h ← set_color h parent RED;
    h ← set_color h sib BLACK;
    stack ← stack_set stack stacksz n;
    let stacksz := stacksz + 1 in
    parent ← stack_get stack (stacksz - 2);
    sib ← get_child h parent (negb n_side);
    Some (h, stack, stacksz, parent, sib)
  else Some (h, stack, stacksz, parent, sib).

(** The part that makes the outer child of the sibling red; [stacksz] is in the end what
    it was. *)
Definition redden_outer (h : rbheap) (stack : rbstack) (stacksz n sib : Z) (n_side : bool)
    : option (rbheap * rbstack * Z * Z) :=
  outer ← get_child h sib (negb n_side);
  o_red ← non_null_red h outer;
  if negb o_red then
    inner ← get_child h sib n_side;
    stack ← stack_set stack (stacksz - 1) sib;
    stack ← stack_set stack stacksz inner;
    let stacksz := stacksz + 1 in
    '(h, stack) ← rotate h stack stacksz;
    h ← set_color h sib RED;
    h ← set_color h inner BLACK;
    sib ← stack_get stack (stacksz - 2);
    outer ← get_child h sib (negb n_side);
    stack ← stack_set stack (stacksz - 2) n;
    Some (h, stack, sib, outer)
  else Some (h, stack, sib, outer).

Fixpoint fix_missing_black (fuel : nat) (h : rbheap) (stack : rbstack) (stacksz null_node : Z)
    : option (rbheap * rbstack) :=
  match fuel with
  | O => None
  | S fuel =>
      if stacksz >? 1 then
        n ← stack_get stack (stacksz - 1);
        parent ← stack_get stack (stacksz - 2);
        n_side ← get_side h parent n;
        sib ← get_child h parent (negb n_side);
        '(h, stack, stacksz, parent, sib) ← blacken_sibling h stack stacksz n parent sib n_side;
        c0 ← get_child h sib false;
        c1 ← get_child h sib true;
        b0 ← null_or_black h c0;
        b ← (if (b0 : bool) then null_or_black h c1 else Some false);
        if (b : bool) then
          h ← (if n =? null_node then set_child h parent n_side 0 else Some h);
          h ← set_color h sib RED;
          pb ← is_black h parent;
          if (pb : bool) then fix_missing_black fuel h stack (stacksz - 1) null_node
          else
            h ← set_color h parent BLACK;
            Some (h, stack)
        else
          '(h, stack, sib, outer) ← redden_outer h stack stacksz n sib n_side;
          pc ← get_color h parent;
          h ← set_color h sib pc;
          h ← set_color h parent BLACK;
          h ← set_color h outer BLACK;
          stack ← stack_set stack (stacksz - 1) sib;
          '(h, stack) ← rotate h stack stacksz;
          h ← (if n =? null_node then set_child h parent n_side 0 else Some h);
          Some (h, stack)
      else Some (h, stack)
  end.

(** The loop of [rb_remove] down to the last node before [node] in the order. *)
Fixpoint rightmost_loop (fuel : nat) (h : rbheap) (stack : rbstack) (stacksz node2 : Z)
    : option (rbstack * Z * Z) :=
  match fuel with
  | O => None
  | S fuel =>
      r ← get_child h node2 true;
      if negb (r =? 0) then
        stack ← stack_set stack stacksz r;
        rightmost_loop fuel h stack (stacksz + 1) r
      else Some (stack, stacksz, node2)
  end.

(** The part of [rb_remove] that swaps a node with two children with the one before it. *)
Definition swap_down (h : rbheap) (tree : rbtree) (stack : rbstack) (stacksz node : Z)
    : option (rbheap * rbtree * rbstack * Z) :=
  let stacksz0 := stacksz in
  node2 ← get_child h node false;
  hiparent ← (if stacksz >? 1 then stack_get stack (stacksz - 2) else Some 0);
  stack ← stack_set stack stacksz node2;
  '(stack, stacksz, node2) ← rightmost_loop (S (length stack)) h stack (stacksz + 1) node2;
  loparent ← stack_get stack (stacksz - 2);
  '(h, tree) ← (if negb (hiparent =? 0) then
                  side ← get_side h hiparent node;
                  h ← set_child h hiparent side node2;
                  Some (h, tree)
                else Some (h, with_root node2 tree));
  h ← (if loparent =? node then
         l2 ← get_child h node2 false;
         h ← set_child h node false l2;
         set_child h node2 false node
       else
         side ← get_side h loparent node2;
         h ← set_child h loparent side node;
         tmp ← get_child h node false;
         l2 ← get_child h node2 false;
         h ← set_child h node false l2;
         set_child h node2 false tmp);
  r ← get_child h node true;
  h ← set_child h node2 true r;
  h ← set_child h node true 0;
  tmp ← stack_get stack (stacksz0 - 1);
  last ← stack_get stack (stacksz - 1);
  stack ← stack_set stack (stacksz0 - 1) last;
  stack ← stack_set stack (stacksz - 1) tmp;
  ctmp ← get_color h node;
  c2 ← get_color h node2;
  h ← set_color h node c2;
  h ← set_color h node2 ctmp;
  Some (h, tree, stack, stacksz).

(** The part of [rb_remove] that takes out a node with at most one child. *)
Definition remove_node (h : rbheap) (tree : rbtree) (stack : rbstack) (stacksz node : Z)
    : option (rbheap * rbtree) :=
  c0 ← get_child h node false;
  child ← (if c0 =? 0 then get_child h node true else Some c0);
  if stacksz <? 2 then
    let tree := with_root child tree in
    if negb (child =? 0) then
      h ← set_color h child BLACK;
      Some (h, tree)
    else Some (h, with_max_depth 0 tree)
  else
    parent ← stack_get stack (stacksz - 2);
    '(h, stack) ← (if child =? 0 then
        nb ← is_black h node;
        if (nb : bool) then fix_missing_black (S (Z.to_nat stacksz)) h stack stacksz node
        else
          side ← get_side h parent node;
          h ← set_child h parent side 0;
          Some (h, stack)
      else
        side ← get_side h parent node;
        h ← set_child h parent side child;
        nb ← is_black h node;
        cb ← is_black h child;
        if negb (nb || cb) then None      (* __ASSERT *)
        else if negb nb || negb cb then
          h ← set_color h child BLACK;
          Some (h, stack)
        else Some (h, stack));
    root ← stack_get stack 0;
    Some (h, with_root root tree).

Definition rb_remove (h : rbheap) (tree : rbtree) (node : Z) : option (rbheap * rbtree) :=
  let stack := stack_new (max_depth tree + 1) in
  '(stacksz, stack) ← find_and_stack h tree node stack;
  top ← stack_get stack (stacksz - 1);
  if negb (node =? top) then Some (h, tree)
  else
    c0 ← get_child h node false;
    c1 ← get_child h node true;
    '(h, tree, stack, stacksz) ←
      (if negb (c0 =? 0) && negb (c1 =? 0) then swap_down h tree stack stacksz node
       else Some (h, tree, stack, stacksz));
    remove_node h tree stack stacksz node.

(** ** Reading the tree *)

Fixpoint contains_loop (fuel : nat) (h : rbheap) (n node : Z) : option Z :=
  match fuel with
  | O => None
  | S fuel =>
      if negb (n =? 0) && negb (n =? node) then
        n ← get_child h n (lessthan_fn n node);
        contains_loop fuel h n node
      else Some n
  end.

Definition rb_contains (h : rbheap) (tree : rbtree) (node : Z) : option bool :=
  n ← contains_loop (walk_fuel tree) h (rb_root tree) node;
  Some (n =? node).
End Code.

Definition z_rb_child (h : rbheap) (node : Z) (side : bool) : option Z := get_child h node side.
Definition z_rb_is_black (h : rbheap) (node : Z) : option bool := is_black h node.

(** [visit_fn] acts on what the [cookie] points to. *)
Fixpoint z_rb_walk {C} (fuel : nat) (h : rbheap) (visit_fn : Z -> C -> C) (node : Z) (cookie : C) : option C :=
  match fuel with
  | O => None
  | S fuel =>
      if negb (node =? 0) then
        l ← get_child h node false;
        cookie ← z_rb_walk fuel h visit_fn l cookie;
        let cookie := visit_fn node cookie in
        r ← get_child h node true;
        z_rb_walk fuel h visit_fn r cookie
      else Some cookie
  end.

Definition rb_walk {C} (h : rbheap) (tree : rbtree) (visit_fn : Z -> C -> C) (cookie : C) : option C :=
  z_rb_walk (walk_fuel tree) h visit_fn (rb_root tree) cookie.

(** [struct _rb_foreach]; the arrays have [max_depth] entries. *)
Record rb_foreach := mkForeach { fe_stack : rbstack; fe_is_left : rbstack; fe_top : Z }.

Definition RB_FOREACH_INIT (tree : rbtree) : rb_foreach :=
  mkForeach (stack_new (max_depth tree)) (stack_new (max_depth tree)) (- 1).

Definition foreach_push (f : rb_foreach) (n is_left : Z) : option rb_foreach :=
  let top := fe_top f + 1 in
  st ← stack_set (fe_stack f) top n;
  il ← stack_set (fe_is_left f) top is_left;
  Some (mkForeach st il top).

Fixpoint left_limb_loop (fuel : nat) (h : rbheap) (n : Z) (f : rb_foreach) : option rb_foreach :=
  match fuel with
  | O => None
  | S fuel =>
      if negb (n =? 0) then
        f ← foreach_push f n 1;
        n ← get_child h n false;
        left_limb_loop fuel h n f
      else Some f
  end.

Definition stack_left_limb (fuel : nat) (h : rbheap) (n : Z) (f : rb_foreach) : option (Z * rb_foreach) :=
  f ← foreach_push f n 0;
  n ← get_child h n false;
  f ← left_limb_loop fuel h n f;
  n ← stack_get (fe_stack f) (fe_top f);
  Some (n, f).

(** The loop at the end of [z_rb_foreach_next]. *)
Fixpoint pop_loop (fuel : nat) (f : rb_foreach) : option rb_foreach :=
  match fuel with
  | O => None
  | S fuel =>
      if fe_top f >? 0 then
        l ← stack_get (fe_is_left f) (fe_top f);
        if l =? 0 then pop_loop fuel (mkForeach (fe_stack f) (fe_is_left f) (fe_top f - 1)) else Some f
      else Some f
  end.

Definition z_rb_foreach_next (h : rbheap) (tree : rbtree) (f : rb_foreach) : option (Z * rb_foreach) :=
  if rb_root tree =? 0 then Some (0, f)
  else if fe_top f =? - 1 then stack_left_limb (walk_fuel tree) h (rb_root tree) f
  else
    cur ← stack_get (fe_stack f) (fe_top f);
    n ← get_child h cur true;
    if negb (n =? 0) then stack_left_limb (walk_fuel tree) h n f
    else
      l ← stack_get (fe_is_left f) (fe_top f);
      if negb (l =? 0) then
        let f := mkForeach (fe_stack f) (fe_is_left f) (fe_top f - 1) in
        n ← stack_get (fe_stack f) (fe_top f);
        Some (n, f)
      else
        f ← pop_loop (walk_fuel tree) f;
        let f := mkForeach (fe_stack f) (fe_is_left f) (fe_top f - 1) in
        if fe_top f >=? 0 then n ← stack_get (fe_stack f) (fe_top f); Some (n, f) else Some (0, f).

(** The nodes [RB_FOR_EACH] visits, with a body that changes nothing. *)
Fixpoint foreach_loop (fuel : nat) (h : rbheap) (tree : rbtree) (f : rb_foreach) : option (list Z) :=
  match fuel with
  | O => None
  | S fuel =>
      '(n, f) ← z_rb_foreach_next h tree f;
      if n =? 0 then Some [] else ns ← foreach_loop fuel h tree f; Some (n :: ns)
  end.
