(* ===== verification/RbModel.v ===== *)
(** * Red-black trees: trees in the store, balance, order

    What it means that the store of [RbTree] holds a tree, with the way down to a node
    taken apart as the code sees it through its array of ancestors; the effect of single
    writes and of rotations on the tree; the balance conditions; the order and the search. *)

From S2P Require Import Prelude RbTree.

Local Open Scope Z_scope.

(** ** Trees in the store *)

Inductive tree := E | N (c : rb_color) (l : tree) (n : Z) (r : tree).

Definition ptr (t : tree) : Z := match t with E => 0 | N _ _ n _ => n end.
Definition color (t : tree) : rb_color := match t with E => BLACK | N c _ _ _ => c end.

Fixpoint elems (t : tree) : list Z :=
  match t with E => [] | N _ l n r => elems l ++ n :: elems r end.

(** A node whose child on side [s] is [x] and on the other side [y], as a tree and as a
    structure in the store: left and right are treated alike below. *)
Definition node (s : bool) (c : rb_color) (x : tree) (n : Z) (y : tree) : tree :=
  if s then N c y n x else N c x n y.

Definition cell (c : rb_color) (s : bool) (x y : Z) : rbnode :=
  if s then mkRb (Z.lor y (color_val c)) x else mkRb (Z.lor x (color_val c)) y.

Definition aligned (a : Z) : Prop := Z.testbit a 0 = false.

Fixpoint holds (h : rbheap) (t : tree) : Prop :=
  match t with
  | E => True
  | N c l n r => (n <> 0 /\ aligned n) /\ h !! n = Some (cell c false (ptr l) (ptr r)) /\ holds h l /\ holds h r
  end.

(** Lists that differ in the nesting of [++]. *)
Ltac list_assoc := cbn; repeat (rewrite <- app_assoc; cbn); reflexivity.

Section Bits.
Implicit Types (a x y : Z).

Lemma child_bits a c : aligned a -> Z.land (Z.lor a (color_val c)) (Z.lnot 1) = a.
Proof.
  intros Ha. apply Z.bits_inj'. intros i Hi. rewrite Z.land_spec, Z.lor_spec, Z.lnot_spec by lia.
  change 1 with (BIT 0). rewrite testbit_BIT by lia. destruct (Z.eqb_spec i 0) as [->|Hne].
  - cbn [negb]. by rewrite andb_false_r, Ha.
  - rewrite andb_true_r. destruct c; cbn [color_val]; [by rewrite Z.bits_0, orb_false_r|].
    change 1 with (BIT 0). rewrite testbit_BIT by lia. rewrite (proj2 (Z.eqb_neq i 0) Hne). by rewrite orb_false_r.
Qed.

Lemma color_bits a c : aligned a -> Z.land (Z.lor a (color_val c)) 1 = color_val c.
Proof.
  intros Ha. rewrite Z.land_lor_distr_l. replace (Z.land a 1) with 0.
  - by destruct c.
  - symmetry. apply Z.eqb_eq. change 1 with (BIT 0). rewrite land_BIT_eqb by lia. by rewrite Ha.
Qed.
End Bits.

Section Cells.
Context (h : rbheap) (n : Z) (c : rb_color) (s : bool) (x y : Z).
Hypothesis (Hn : h !! n = Some (cell c s x y)) (Hx : aligned x) (Hy : aligned y).

Lemma get_child_same : get_child h n s = Some x.
Proof. unfold get_child. rewrite Hn. destruct s; cbn; [done|]. by rewrite child_bits. Qed.

Lemma get_child_other : get_child h n (negb s) = Some y.
Proof. unfold get_child. rewrite Hn. destruct s; cbn; [|done]. by rewrite child_bits. Qed.

Lemma set_child_same v : set_child h n s v = Some (<[n := cell c s v y]> h).
Proof. unfold set_child. rewrite Hn. destruct s; cbn; [done|]. by rewrite color_bits. Qed.

Lemma set_child_other v : set_child h n (negb s) v = Some (<[n := cell c s x v]> h).
Proof. unfold set_child. rewrite Hn. destruct s; cbn; [|done]. by rewrite color_bits. Qed.

Lemma get_color_cell : get_color h n = Some c.
Proof. unfold get_color. rewrite Hn. destruct s; cbn; rewrite color_bits by done; by destruct c. Qed.

Lemma set_color_cell c' : set_color h n c' = Some (<[n := cell c' s x y]> h).
Proof. unfold set_color. rewrite Hn. destruct s; cbn; by rewrite child_bits. Qed.

Lemma is_black_cell : is_black h n = Some (bool_decide (c = BLACK)).
Proof. unfold is_black. by rewrite get_color_cell. Qed.

Lemma is_red_cell : is_red h n = Some (bool_decide (c = RED)).
Proof. unfold is_red. by rewrite get_color_cell. Qed.

Lemma get_side_same : (s = false -> y <> x) -> get_side h n x = Some s.
Proof.
  intros Hne. unfold get_side. pose proof get_child_same as E1. pose proof get_child_other as E2.
  destruct s; cbn [negb] in E2; [rewrite E1|rewrite E2]; cbn; f_equal; [apply Z.eqb_refl|apply Z.eqb_neq; auto].
Qed.
End Cells.

Lemma cell_flip c s x y : cell c (negb s) y x = cell c s x y.
Proof. by destruct s. Qed.

Lemma node_flip c s x n y : node (negb s) c y n x = node s c x n y.
Proof. by destruct s. Qed.

Section Holds.
Implicit Types (h : rbheap) (t : tree).

Lemma holds_ptr h t : holds h t -> aligned (ptr t).
Proof. by destruct t; [|intros ((_ & ?) & _)]. Qed.

Lemma ptr_node s c x n y : ptr (node s c x n y) = n.
Proof. by destruct s. Qed.

Lemma holds_node h s c x n y :
  holds h (node s c x n y) <->
  (n <> 0 /\ aligned n) /\ h !! n = Some (cell c s (ptr x) (ptr y)) /\ holds h x /\ holds h y.
Proof. destruct s; cbn; unfold cell; tauto. Qed.

Lemma elem_of_node s c x n y z : z ∈ elems (node s c x n y) <-> z = n \/ z ∈ elems x \/ z ∈ elems y.
Proof. destruct s; cbn; rewrite elem_of_app, elem_of_cons; tauto. Qed.

Lemma NoDup_node s c x n y :
  NoDup (elems (node s c x n y)) <->
  NoDup (elems x) /\ NoDup (elems y) /\ (n ∉ elems x) /\ (n ∉ elems y) /\ (forall z, z ∈ elems x -> z ∉ elems y).
Proof. destruct s; cbn; rewrite NoDup_app, NoDup_cons; set_solver. Qed.

Lemma holds_frame h n v t : n ∉ elems t -> holds h t -> holds (<[n := v]> h) t.
Proof.
  induction t as [|c l IHl m r IHr]; [done|]. cbn. rewrite elem_of_app, elem_of_cons. intros Hn (? & Hm & Hl & Hr).
  rewrite lookup_insert_ne by (intros ->; tauto). split_and!; [tauto|tauto|done| |]; [apply IHl|apply IHr]; tauto.
Qed.

Lemma holds_dom h t x : holds h t -> x ∈ elems t -> is_Some (h !! x).
Proof.
  induction t as [|c l IHl n r IHr]; cbn; [by intros _ ?%elem_of_nil|]. intros (_ & Hn & Hl & Hr) [Hx|[->|Hx]%elem_of_cons]%elem_of_app; eauto.
Qed.

Lemma ptr_elem h t : holds h t -> t = E \/ ptr t ∈ elems t.
Proof. destruct t; [by left|]. right. cbn. set_solver. Qed.
End Holds.

(** ** The way down to a node *)

(** A node on the way: its colour, the side the way goes, its address and the subtree on
    the other side.  A way lists them from the bottom up. *)
Record frame := Fr { f_c : rb_color; f_s : bool; f_n : Z; f_t : tree }.
Abbreviation way := (list frame).

Definition fill (f : frame) (t : tree) : tree := node (f_s f) (f_c f) t (f_n f) (f_t f).
Definition plug (w : way) (t : tree) : tree := foldl (fun t f => fill f t) t w.

Definition names (w : way) : list Z := reverse (f_n <$> w).

Fixpoint welems (w : way) : list Z :=
  match w with [] => [] | f :: w => f_n f :: elems (f_t f) ++ welems w end.

Fixpoint holds_way (h : rbheap) (w : way) (hole : Z) : Prop :=
  match w with
  | [] => True
  | f :: w => (f_n f <> 0 /\ aligned (f_n f)) /\ h !! f_n f = Some (cell (f_c f) (f_s f) hole (ptr (f_t f))) /\
              holds h (f_t f) /\ holds_way h w (f_n f)
  end.

(** What is in the order before and after the hole. *)
Fixpoint before (w : way) : list Z :=
  match w with [] => [] | f :: w => before w ++ if f_s f then elems (f_t f) ++ [f_n f] else [] end.
Fixpoint after (w : way) : list Z :=
  match w with [] => [] | f :: w => (if f_s f then [] else f_n f :: elems (f_t f)) ++ after w end.

Section Ways.
Implicit Types (h : rbheap) (t : tree) (w : way).

Lemma elems_fill f t : elems (fill f t) = (if f_s f then elems (f_t f) ++ [f_n f] else []) ++ elems t ++ if f_s f then [] else f_n f :: elems (f_t f).
Proof. destruct f as [c s n u]. unfold fill, node. cbn. destruct s; cbn; by rewrite <- ?app_assoc, ?app_nil_r. Qed.

Lemma elems_plug w t : elems (plug w t) = before w ++ elems t ++ after w.
Proof.
  revert t. induction w as [|f w IH]; intros t; cbn [before after]; [cbn; by rewrite app_nil_r|].
  change (plug (f :: w) t) with (plug w (fill f t)). rewrite IH, elems_fill. by rewrite <- !app_assoc.
Qed.

Lemma holds_plug h w t : holds h (plug w t) <-> holds_way h w (ptr t) /\ holds h t.
Proof.
  revert t. induction w as [|f w IH]; intros t; [cbn; tauto|]. cbn [plug foldl holds_way]. fold (plug w (fill f t)).
  rewrite IH. unfold fill at 1. rewrite ptr_node. unfold fill. rewrite holds_node. tauto.
Qed.

Lemma elem_of_welems w z : z ∈ welems w <-> z ∈ before w ++ after w.
Proof.
  induction w as [|f w IH]; [done|]. cbn. rewrite elem_of_cons, !elem_of_app, IH. destruct (f_s f); set_solver.
Qed.

Lemma elem_of_plug w t z : z ∈ elems (plug w t) <-> z ∈ welems w \/ z ∈ elems t.
Proof. rewrite elems_plug, elem_of_welems. set_solver. Qed.

Lemma NoDup_plug w t :
  NoDup (elems (plug w t)) <-> NoDup (before w ++ after w) /\ NoDup (elems t) /\ forall z, z ∈ elems t -> z ∉ welems w.
Proof.
  rewrite elems_plug. setoid_rewrite elem_of_welems. rewrite !NoDup_app. setoid_rewrite elem_of_app. naive_solver.
Qed.

Lemma holds_way_frame h n v w hole : n ∉ welems w -> holds_way h w hole -> holds_way (<[n := v]> h) w hole.
Proof.
  revert hole. induction w as [|f w IH]; intros hole; [done|]. cbn. rewrite elem_of_cons, elem_of_app.
  intros Hn (? & Hf & Ht & Hw). rewrite lookup_insert_ne by (intros ->; tauto).
  split_and!; [tauto|tauto|done|apply holds_frame; tauto|apply IH; tauto].
Qed.

Lemma NoDup_way f w :
  NoDup (before (f :: w) ++ after (f :: w)) <->
  NoDup (before w ++ after w) /\ NoDup (elems (f_t f)) /\ (f_n f ∉ elems (f_t f)) /\ (f_n f ∉ welems w) /\
  forall z, z ∈ elems (f_t f) -> z ∉ welems w.
Proof.
  pose proof (NoDup_plug w (fill f E)) as H. rewrite elems_plug, elems_fill in H. cbn [elems app] in H.
  rewrite <- !app_assoc in H. cbn [before after]. rewrite <- !app_assoc. rewrite H.
  assert (Hnd : NoDup (elems (fill f E)) <-> NoDup (elems (f_t f)) /\ (f_n f ∉ elems (f_t f))).
  { unfold fill. rewrite NoDup_node. cbn. pose proof NoDup_nil_2 (A:=Z). set_solver. }
  rewrite elems_fill in Hnd. cbn [elems app] in Hnd. rewrite Hnd. destruct (f_s f); set_solver.
Qed.
End Ways.

(** ** Changing the tree in the store *)

Definition rep (h : rbheap) (t : tree) : Prop := holds h t /\ NoDup (elems t).

(** Only nodes of [l] have changed, and none is gone. *)
Record upd (h h' : rbheap) (l : list Z) : Prop := {
  upd_out : forall y, y ∉ l -> h' !! y = h !! y;
  upd_in : forall y, is_Some (h !! y) -> is_Some (h' !! y)
}.

Lemma upd_refl h l : upd h h l.
Proof. done. Qed.

Lemma upd_trans h1 h2 h3 l : upd h1 h2 l -> upd h2 h3 l -> upd h1 h3 l.
Proof. intros [H1 H1'] [H2 H2']. split; [intros y Hy; by rewrite H2, H1|auto]. Qed.

Lemma upd_one h h' n l : upd h h' [n] -> n ∈ l -> upd h h' l.
Proof. intros [Hu Hi] Hn. split; [|done]. intros y Hy. apply Hu. by intros ->%list_elem_of_singleton. Qed.

Lemma upd_insert h n v l : n ∈ l -> upd h (<[n := v]> h) l.
Proof.
  intros Hn. split; intros y Hy; [apply lookup_insert_ne; by intros ->|].
  destruct (decide (n = y)) as [->|Hne]; [rewrite lookup_insert_eq|rewrite lookup_insert_ne by done]; eauto.
Qed.

(** The node above the hole points to [q]. *)
Definition hook (w : way) (q : Z) (h : rbheap) : rbheap :=
  match w with [] => h | f :: _ => <[f_n f := cell (f_c f) (f_s f) q (ptr (f_t f))]> h end.

Lemma holds_way_hook h w q q' :
  holds_way h w q -> NoDup (before w ++ after w) -> holds_way (hook w q' h) w q'.
Proof.
  destruct w as [|f w]; [done|]. rewrite NoDup_way. cbn. intros (? & _ & Ht & Hw) (_ & _ & ? & ? & _).
  rewrite lookup_insert_eq. split_and!; [tauto|tauto|done|by apply holds_frame|by apply holds_way_frame].
Qed.

Lemma holds_hook h w q t : (forall z, z ∈ elems t -> z ∉ welems w) -> holds h t -> holds (hook w q h) t.
Proof. destruct w as [|f w]; [done|]. intros Hz. apply holds_frame. intros Hin. apply (Hz _ Hin). cbn. set_solver. Qed.

Lemma lookup_hook h w q n : n ∉ welems w -> hook w q h !! n = h !! n.
Proof. destruct w as [|f w]; [done|]. cbn. rewrite elem_of_cons. intros Hn. apply lookup_insert_ne. intros <-. tauto. Qed.

Lemma upd_hook h w q l : (forall z, z ∈ welems w -> z ∈ l) -> upd h (hook w q h) l.
Proof. destruct w as [|f w]; [done|]. intros Hl. apply upd_insert, Hl. cbn. set_solver. Qed.

(** One structure written: the node [n] gets another colour or another child. *)
Lemma rep_cell h w s c x n y c' x' :
  rep h (plug w (node s c x n y)) -> holds h x' -> NoDup (elems (plug w (node s c' x' n y))) ->
  rep (<[n := cell c' s (ptr x') (ptr y)]> h) (plug w (node s c' x' n y)).
Proof.
  intros [Hh _] Hx' Hnd. split; [|done]. apply holds_plug in Hh as [Hw Ht]. apply holds_node in Ht as (Hn & _ & _ & Hy).
  apply NoDup_plug in Hnd as (_ & Hnd & Hd). apply NoDup_node in Hnd as (_ & _ & Hnx & Hny & _).
  assert (n ∉ welems w) by (apply Hd, elem_of_node; by left).
  apply holds_plug. rewrite ptr_node in *. split; [by apply holds_way_frame|]. apply holds_node.
  rewrite lookup_insert_eq. split_and!; [tauto|tauto|done|by apply holds_frame|by apply holds_frame].
Qed.

Lemma elems_color s c c' x n y : elems (node s c x n y) = elems (node s c' x n y).
Proof. by destruct s. Qed.

Lemma elems_plug_eq w t t' : elems t = elems t' -> elems (plug w t) = elems (plug w t').
Proof. intros Ht. by rewrite !elems_plug, Ht. Qed.

(** What the code reads at a node of the tree. *)
Lemma rep_node h w s c x n y :
  rep h (plug w (node s c x n y)) ->
  h !! n = Some (cell c s (ptr x) (ptr y)) /\ aligned (ptr x) /\ aligned (ptr y) /\ n <> 0 /\
  (n <> ptr x) /\ (ptr x = ptr y -> x = E /\ y = E).
Proof.
  intros [Hh Hnd]. apply holds_plug in Hh as [_ Ht]. apply holds_node in Ht as ((Hn & _) & Hc & Hx & Hy).
  apply NoDup_plug in Hnd as (_ & Hnd & _). apply NoDup_node in Hnd as (_ & _ & Hnx & Hny & Hd).
  split_and!; [done|by eapply holds_ptr|by eapply holds_ptr|done| |].
  - destruct x as [|cx xl m xr]; cbn in *; [done|]. intros ->. apply Hnx. set_solver.
  - destruct x as [|cx xl m xr], y as [|cy yl k yr]; cbn in *; [done|intros; subst; tauto|intros; subst; tauto|].
    intros ->. exfalso. apply (Hd k); set_solver.
Qed.

Lemma rep_color h w s c x n y c' :
  rep h (plug w (node s c x n y)) ->
  exists h', set_color h n c' = Some h' /\ rep h' (plug w (node s c' x n y)) /\ upd h h' [n].
Proof.
  intros Hr. pose proof Hr as [Hh Hnd]. destruct (rep_node _ _ _ _ _ _ _ Hr) as (Hc & Hx & Hy & _).
  rewrite (set_color_cell _ _ _ _ _ _ Hc Hx Hy). eexists. split; [done|]. split; [|apply upd_insert; set_solver].
  eapply rep_cell; [done| |by rewrite (elems_plug_eq _ _ (node s c x n y)) by apply elems_color].
  apply holds_plug in Hh as [_ Ht]. apply holds_node in Ht. tauto.
Qed.

Lemma rep_child h w s c x n y x' :
  rep h (plug w (node s c x n y)) -> holds h x' -> NoDup (elems (plug w (node s c x' n y))) ->
  exists h', set_child h n s (ptr x') = Some h' /\ rep h' (plug w (node s c x' n y)) /\ upd h h' [n].
Proof.
  intros Hr Hx' Hnd. destruct (rep_node _ _ _ _ _ _ _ Hr) as (Hc & Hx & Hy & _).
  rewrite (set_child_same _ _ _ _ _ _ Hc Hx). eexists. split; [done|]. split; [|apply upd_insert; set_solver].
  by eapply rep_cell.
Qed.

(** ** The array *)

Definition stack_is (st : rbstack) (l : list Z) : Prop := forall i v, l !! i = Some v -> st !! i = Some (Some v).

Lemma stack_is_length st l : stack_is st l -> (length l <= length st)%nat.
Proof.
  intros Hs. destruct (decide (length l <= length st)%nat) as [|Hn]; [done|].
  destruct (lookup_lt_is_Some_2 l (length st)) as [v Hv]; [lia|]. apply Hs, lookup_lt_Some in Hv. lia.
Qed.

Lemma stack_is_app st l1 l2 : stack_is st (l1 ++ l2) -> stack_is st l1.
Proof. intros Hs i v Hv. apply Hs. by apply lookup_app_l_Some. Qed.

Lemma stack_get_is st l1 x l2 i : stack_is st (l1 ++ x :: l2) -> i = Z.of_nat (length l1) -> stack_get st i = Some x.
Proof.
  intros Hs ->. unfold stack_get. rewrite (proj2 (Z.ltb_ge _ _)), Nat2Z.id by lia.
  by rewrite (Hs (length l1) x) by (by rewrite list_lookup_middle).
Qed.

Lemma stack_set_is st l1 x l2 i v :
  stack_is st (l1 ++ x :: l2) -> i = Z.of_nat (length l1) ->
  exists st', stack_set st i v = Some st' /\ length st' = length st /\ stack_is st' (l1 ++ v :: l2).
Proof.
  intros Hs ->. pose proof (stack_is_length _ _ Hs) as Hl. rewrite length_app in Hl. cbn in Hl. unfold stack_set.
  rewrite (proj2 (Z.leb_le _ _)), (proj2 (Z.ltb_lt _ _)), Nat2Z.id by lia. eexists. split; [done|].
  split; [apply length_insert|]. intros j u Hj. destruct (decide (j = length l1)) as [->|Hne].
  - rewrite list_lookup_middle in Hj by done. rewrite list_lookup_insert_eq by lia. congruence.
  - rewrite list_lookup_insert_ne by done. apply Hs. destruct (decide (j < length l1)%nat).
    + rewrite lookup_app_l in Hj |- * by done. done.
    + rewrite lookup_app_r in Hj |- * by lia. destruct (j - length l1)%nat eqn:Ej; [lia|done].
Qed.

Lemma stack_push_is st l i v :
  stack_is st l -> i = Z.of_nat (length l) -> (length l < length st)%nat ->
  exists st', stack_set st i v = Some st' /\ length st' = length st /\ stack_is st' (l ++ [v]).
Proof.
  intros Hs -> Hl. unfold stack_set. rewrite (proj2 (Z.leb_le _ _)), (proj2 (Z.ltb_lt _ _)), Nat2Z.id by lia.
  eexists. split; [done|]. split; [apply length_insert|]. intros j u Hj. apply lookup_app_Some in Hj as [Hj|[Hge Hj]].
  - pose proof (lookup_lt_Some _ _ _ Hj). rewrite list_lookup_insert_ne by lia. by apply Hs.
  - destruct (j - length l)%nat as [|k] eqn:Ej; [|done]. cbn in Hj. replace j with (length l) by lia.
    rewrite list_lookup_insert_eq by lia. congruence.
Qed.

Lemma names_cons f w : names (f :: w) = names w ++ [f_n f].
Proof. unfold names. by rewrite fmap_cons, reverse_cons. Qed.

Lemma names_length w : length (names w) = length w.
Proof. unfold names. by rewrite length_reverse, length_fmap. Qed.

(** ** Rotation *)

Lemma rep_side h w s c x n y : rep h (plug w (node s c x n y)) -> x <> E -> get_side h n (ptr x) = Some s.
Proof.
  intros Hr Hx. destruct (rep_node _ _ _ _ _ _ _ Hr) as (Hc & Ax & Ay & _ & _ & Hd).
  apply (get_side_same _ _ _ _ _ _ Hc Ax Ay). intros _ Heq. by destruct (Hd (eq_sym Heq)).
Qed.

Lemma rep_children h w s c x n y :
  rep h (plug w (node s c x n y)) -> get_child h n s = Some (ptr x) /\ get_child h n (negb s) = Some (ptr y).
Proof.
  intros Hr. destruct (rep_node _ _ _ _ _ _ _ Hr) as (Hc & Ax & Ay & _).
  by rewrite (get_child_same _ _ _ _ _ _ Hc Ax), (get_child_other _ _ _ _ _ _ Hc Ay).
Qed.

Lemma rotate_hook h w t st l q z :
  rep h (plug w t) -> t <> E -> stack_is st (names w ++ l) -> z = Z.of_nat (length w) + 2 ->
  (if z >=? 3 then
     grandparent ← stack_get st (z - 3);
     gside ← get_side h grandparent (ptr t);
     set_child h grandparent gside q
   else Some h) = Some (hook w q h).
Proof.
  intros Hr Ht Hs ->. destruct w as [|[c s g u] w]; [done|]. cbn [length]. rewrite (proj2 (Z.geb_le _ _)) by lia.
  rewrite names_cons, <- app_assoc in Hs.
  rewrite (stack_get_is _ _ _ _ _ Hs) by (rewrite names_length; lia). cbn [mbind option_bind f_n].
  change (plug (Fr c s g u :: w) t) with (plug w (node s c t g u)) in Hr. rewrite (rep_side _ _ _ _ _ _ _ Hr Ht). cbn [mbind option_bind].
  destruct (rep_node _ _ _ _ _ _ _ Hr) as (Hc & Ax & _). by rewrite (set_child_same _ _ _ _ _ _ Hc Ax).
Qed.

Lemma elems_rotate s cp cc a n b p e :
  elems (node s cc a n (node s cp b p e)) = elems (node s cp (node s cc a n b) p e).
Proof. destruct s; cbn; by rewrite <- ?app_assoc. Qed.

(** The store after a rotation. *)
Lemma rotate_rep h w s cp cc a n b p e :
  rep h (plug w (node s cp (node s cc a n b) p e)) ->
  rep (<[p := cell cp s (ptr b) (ptr e)]> (<[n := cell cc s (ptr a) p]> (hook w n h)))
      (plug w (node s cc a n (node s cp b p e))).
Proof.
  intros [Hh Hnd]. split; [|by rewrite (elems_plug_eq _ _ _ (elems_rotate _ _ _ _ _ _ _ _))].
  apply holds_plug in Hh as [Hw Ht]. apply holds_node in Ht as (Hp & _ & Hn & He). apply holds_node in Hn as (Hn & _ & Ha & Hb).
  apply NoDup_plug in Hnd as (Hnw & Hnd & Hd). apply NoDup_node in Hnd as (Hnd & _ & Hpn & Hpe & Hne).
  apply NoDup_node in Hnd as (_ & _ & Hna & Hnb & Hab).
  setoid_rewrite elem_of_node in Hd. setoid_rewrite elem_of_node in Hd. setoid_rewrite elem_of_node in Hne. rewrite elem_of_node in Hpn.
  assert (Hpw : p ∉ welems w) by (apply Hd; tauto). assert (Hnw' : n ∉ welems w) by (apply Hd; tauto).
  apply holds_plug. rewrite ptr_node. split.
  - apply holds_way_frame; [done|]. apply holds_way_frame; [done|]. by eapply holds_way_hook.
  - apply holds_node. rewrite ptr_node, lookup_insert_ne, lookup_insert_eq by (intros ->; tauto).
    split_and!; [tauto|tauto|done| |].
    + apply holds_frame; [tauto|]. apply holds_frame; [done|]. apply holds_hook; [|done]. intros z Hz. apply Hd. tauto.
    + apply holds_node. rewrite lookup_insert_eq. split_and!; [tauto|tauto|done| |].
      * apply holds_frame; [tauto|]. apply holds_frame; [done|]. apply holds_hook; [|done]. intros z Hz. apply Hd. tauto.
      * apply holds_frame; [tauto|]. apply holds_frame; [apply Hne; tauto|]. apply holds_hook; [|done]. intros z Hz. apply Hd. tauto.
Qed.

Lemma rb_rotate_spec h st w s cp cc a n b p e l z :
  rep h (plug w (node s cp (node s cc a n b) p e)) ->
  stack_is st (names w ++ p :: n :: l) -> z = Z.of_nat (length w) + 2 ->
  exists h' st', rotate h st z = Some (h', st') /\ rep h' (plug w (node s cc a n (node s cp b p e))) /\
    stack_is st' (names w ++ n :: p :: l) /\ length st' = length st /\
    upd h h' (elems (plug w (node s cp (node s cc a n b) p e))).
Proof.
  intros Hr Hs Ez. set (t := node s cp (node s cc a n b) p e) in *. pose proof (names_length w) as Hl. unfold rotate.
  rewrite (stack_get_is _ _ _ _ (z - 2) Hs) by lia. pose proof Hs as Hs1. rewrite (cons_middle p), app_assoc in Hs1.
  rewrite (stack_get_is _ _ _ _ (z - 1) Hs1) by (rewrite length_app; cbn; lia). cbn [mbind option_bind].
  assert (Hne : node s cc a n b <> E) by (by destruct s). pose proof (rep_side _ _ _ _ _ _ _ Hr Hne) as Es.
  rewrite ptr_node in Es. rewrite Es. cbn [mbind option_bind].
  assert (Hr1 : rep h (plug (Fr cp s p e :: w) (node s cc a n b))) by exact Hr.
  destruct (rep_children _ _ _ _ _ _ _ Hr1) as [-> ->]. cbn [mbind option_bind].
  assert (Ep : ptr t = p) by apply ptr_node. pose proof (rotate_hook h w t st (p :: n :: l) n z Hr) as Eh. rewrite Ep in Eh.
  rewrite Eh by (done || by destruct s). cbn [mbind option_bind]. destruct (rep_node _ _ _ _ _ _ _ Hr1) as (Hc & Aa & Ab & _).
  destruct (rep_node _ _ _ _ _ _ _ Hr) as (Hcp & _ & Ae & _ & Hpn & _). rewrite ptr_node in Hpn.
  pose proof Hr as [_ Hnd]. apply NoDup_plug in Hnd as (_ & _ & Hd). unfold t in Hd. do 2 setoid_rewrite elem_of_node in Hd.
  rewrite <- (lookup_hook h w n n) in Hc by (apply Hd; tauto). rewrite (set_child_same _ _ _ _ _ _ Hc Aa). cbn [mbind option_bind].
  erewrite set_child_other; [|apply lookup_insert_eq|done]. cbn [mbind option_bind]. rewrite insert_insert_eq.
  rewrite <- (lookup_hook h w n p), <- (lookup_insert_ne _ n p (cell cc s (ptr a) p)) in Hcp by (done || apply Hd; tauto).
  rewrite (set_child_same _ _ _ _ _ _ Hcp) by (by rewrite ptr_node; destruct Hr1 as [Hh _]; apply holds_plug in Hh as [_ Hh]; apply holds_ptr in Hh; rewrite ptr_node in Hh).
  cbn [mbind option_bind].
  destruct (stack_set_is _ _ _ _ (z - 2) n Hs ltac:(lia)) as (st1 & -> & El1 & Hs2). cbn [mbind option_bind].
  rewrite (cons_middle n), app_assoc in Hs2.
  destruct (stack_set_is _ _ _ _ (z - 1) p Hs2 ltac:(rewrite length_app; cbn; lia)) as (st2 & -> & El2 & Hs3). cbn [mbind option_bind].
  rewrite <- app_assoc in Hs3. eexists _, _. split; [done|]. split; [by apply rotate_rep|]. split; [done|]. split; [congruence|].
  eapply upd_trans; [apply (upd_hook _ w n)|eapply upd_trans; apply upd_insert];
    setoid_rewrite elem_of_plug; unfold t; do 2 setoid_rewrite elem_of_node; tauto.
Qed.

(** ** Balance *)

(** A valid tree with [k] black nodes on every way down. *)
Fixpoint is_rb (t : tree) (k : nat) : Prop :=
  match t, k with
  | E, _ => k = O
  | N RED l _ r, _ => (color l = BLACK /\ color r = BLACK) /\ is_rb l k /\ is_rb r k
  | N BLACK l _ r, S k => is_rb l k /\ is_rb r k
  | N BLACK _ _ _, O => False
  end.

(** The colour above the hole; above the root it is red, so that the root is black. *)
Definition top (w : way) : rb_color := match w with [] => RED | f :: _ => f_c f end.

(** A way on which a tree with [k] black nodes on every way down belongs in the hole. *)
Fixpoint way_ok (w : way) (k : nat) : Prop :=
  match w with
  | [] => True
  | f :: w => is_rb (f_t f) k /\ (f_c f = RED -> color (f_t f) = BLACK /\ top w = BLACK) /\
              way_ok w (match f_c f with RED => k | BLACK => S k end)
  end.

Fixpoint blacks (w : way) : nat :=
  match w with [] => O | f :: w => (match f_c f with RED => 0 | BLACK => 1 end + blacks w)%nat end.

Fixpoint height (t : tree) : nat :=
  match t with E => O | N _ l _ r => S (Nat.max (height l) (height r)) end.

(** The subtrees beside the way end at depth [D] or above. *)
Fixpoint fits (D : nat) (w : way) : Prop :=
  match w with [] => True | f :: w => (height (f_t f) + S (length w) <= D)%nat /\ fits D w end.

(** A valid tree for which an array of [D] entries is enough; the last conjunct is what
    keeps it enough when removals move nodes down. *)
Definition balanced (t : tree) (D : nat) : Prop :=
  exists k, is_rb t k /\ color t = BLACK /\ (height t <= D)%nat /\ (2 * k <= D + 1)%nat.

Section Balance.
Implicit Types (t : tree) (w : way) (k D : nat).
Local Open Scope nat_scope.

Lemma color_node s c x n y : color (node s c x n y) = c.
Proof. by destruct s. Qed.

Lemma is_rb_red s x n y k :
  is_rb (node s RED x n y) k <-> (color x = BLACK /\ color y = BLACK) /\ is_rb x k /\ is_rb y k.
Proof. destruct s; cbn; tauto. Qed.

Lemma is_rb_black s x n y k : is_rb (node s BLACK x n y) (S k) <-> is_rb x k /\ is_rb y k.
Proof. destruct s; cbn; tauto. Qed.

Lemma is_rb_black_inv s x n y k : is_rb (node s BLACK x n y) k -> exists k', k = S k' /\ is_rb x k' /\ is_rb y k'.
Proof. destruct k; [by destruct s|]. rewrite is_rb_black. eauto. Qed.

Lemma height_node s c x n y : height (node s c x n y) = S (Nat.max (height x) (height y)).
Proof. destruct s; cbn; lia. Qed.

Lemma plug_rb w t k :
  is_rb t k -> way_ok w k -> (color t = RED -> top w = BLACK) ->
  is_rb (plug w t) (k + blacks w) /\ color (plug w t) = BLACK.
Proof.
  revert t k. induction w as [|[c s n u] w IH]; intros t k Ht Hw Hc.
  - cbn. rewrite Nat.add_0_r. split; [done|]. destruct (color t); [by discriminate Hc|done].
  - destruct Hw as (Hu & Hr & Hw). change (plug (_ :: w) t) with (plug w (node s c t n u)). cbn in *.
    destruct c; cbn in *.
    + apply IH; [|done|rewrite color_node; intros; by apply Hr]. apply is_rb_red. destruct (Hr eq_refl).
      destruct (color t); [by discriminate Hc|done].
    + replace (k + S (blacks w)) with (S k + blacks w) by lia. apply IH; [by apply is_rb_black|done|by rewrite color_node].
Qed.

Lemma plug_rb_inv w t K :
  is_rb (plug w t) K -> color (plug w t) = BLACK ->
  exists k, K = k + blacks w /\ is_rb t k /\ way_ok w k /\ (color t = RED -> top w = BLACK).
Proof.
  revert t. induction w as [|[c s n u] w IH]; intros t Ht Hc.
  - exists K. cbn in *. split_and!; [lia|done|done|congruence].
  - destruct (IH (node s c t n u) Ht Hc) as (k & -> & Hk & Hw & Hr). rewrite color_node in Hr. destruct c; cbn.
    + apply is_rb_red in Hk as ((Hct & Hcu) & Hkt & Hku). exists k. split_and!; [done|done|done|by auto|done|congruence].
    + apply is_rb_black_inv in Hk as (k' & -> & Hkt & Hku). exists k'. split_and!; [lia|done|done|done|done|done].
Qed.

Lemma height_plug w t D : height (plug w t) <= D <-> height t + length w <= D /\ fits D w.
Proof.
  revert t. induction w as [|f w IH]; intros t; [cbn; rewrite Nat.add_0_r; tauto|].
  change (plug (f :: w) t) with (plug w (fill f t)). rewrite IH. unfold fill. rewrite height_node. cbn [length fits].
  split; [intros [? ?]|intros (? & ? & ?)]; split_and!; (done || lia).
Qed.

Lemma height_rb t k : is_rb t k -> height t <= 2 * k + match color t with RED => 1 | BLACK => 0 end.
Proof.
  revert k. induction t as [|c l IHl n r IHr]; intros k; [cbn; lia|]. destruct c; cbn.
  - intros ((Hl & Hr) & Hkl & Hkr). apply IHl in Hkl. apply IHr in Hkr. rewrite Hl in Hkl. rewrite Hr in Hkr. lia.
  - destruct k as [|k]; [done|]. intros (Hkl & Hkr). apply IHl in Hkl. apply IHr in Hkr.
    destruct (color l), (color r); lia.
Qed.

Lemma is_rb_height t k : is_rb t k -> k <= height t.
Proof.
  revert k. induction t as [|c l IHl n r IHr]; intros k; [cbn; lia|]. destruct c; cbn.
  - intros (_ & Hl & _). apply IHl in Hl. lia.
  - destruct k as [|k]; [done|]. intros (Hl & _). apply IHl in Hl. lia.
Qed.

Lemma length_way w k : way_ok w k -> length w + match top w with RED => 0 | BLACK => 1 end <= 2 * blacks w.
Proof.
  revert k. induction w as [|f w IH]; intros k; [cbn; lia|]. cbn. intros (_ & Hr & Hw). apply IH in Hw.
  destruct (f_c f); [|destruct (top w); lia]. destruct (Hr eq_refl) as [_ Ht]. rewrite Ht in Hw. lia.
Qed.

Lemma balanced_plug w t k D :
  is_rb t k -> way_ok w k -> (color t = RED -> top w = BLACK) -> height t + length w <= D -> fits D w ->
  2 * (k + blacks w) <= D + 1 -> balanced (plug w t) D.
Proof.
  intros Ht Hw Hc Hh Hf HK. destruct (plug_rb w t k Ht Hw Hc). exists (k + blacks w). split_and!; [done|done| |done].
  by apply height_plug.
Qed.

Lemma balanced_plug_inv w t D :
  balanced (plug w t) D ->
  exists k, is_rb t k /\ way_ok w k /\ (color t = RED -> top w = BLACK) /\ height t + length w <= D /\ fits D w /\
    2 * (k + blacks w) <= D + 1.
Proof.
  intros (K & HK & Hc & Hh & HD). destruct (plug_rb_inv w t K HK Hc) as (k & -> & ? & ? & ?).
  apply height_plug in Hh as []. exists k. split_and!; done.
Qed.

Lemma fits_mono w D D' : fits D w -> D <= D' -> fits D' w.
Proof. intros Hf HD. induction w as [|f w IH]; [done|]. cbn in *. destruct Hf. split; [lia|auto]. Qed.

Lemma balanced_mono t D D' : balanced t D -> D <= D' -> balanced t D'.
Proof. intros (k & ? & ? & ? & ?) HD. exists k. split_and!; (done || lia). Qed.
End Balance.

(** ** Reading colours; the root *)

Lemma rep_is_black h w t : rep h (plug w t) -> t <> E -> is_black h (ptr t) = Some (bool_decide (color t = BLACK)).
Proof.
  intros Hr Ht. destruct t as [|c l n r]; [done|]. change (N c l n r) with (node false c l n r) in Hr.
  destruct (rep_node _ _ _ _ _ _ _ Hr) as (Hc & Al & Ar & _). cbn [ptr color]. by rewrite (is_black_cell _ _ _ _ _ _ Hc).
Qed.

Lemma rep_is_red h w t : rep h (plug w t) -> t <> E -> is_red h (ptr t) = Some (bool_decide (color t = RED)).
Proof.
  intros Hr Ht. destruct t as [|c l n r]; [done|]. change (N c l n r) with (node false c l n r) in Hr.
  destruct (rep_node _ _ _ _ _ _ _ Hr) as (Hc & Al & Ar & _). cbn [ptr color]. by rewrite (is_red_cell _ _ _ _ _ _ Hc).
Qed.

Lemma rep_ptr h w t : rep h (plug w t) -> t <> E -> (ptr t =? 0) = false.
Proof.
  intros [Hh _] Ht. apply holds_plug in Hh as [_ Hh]. destruct t; [done|]. cbn in *. apply Z.eqb_neq. tauto.
Qed.

Lemma rep_null_or_black h w t : rep h (plug w t) -> null_or_black h (ptr t) = Some (bool_decide (color t = BLACK)).
Proof.
  intros Hr. unfold null_or_black. assert (t = E \/ t <> E) as [->|Ht] by (destruct t; [by left|by right]); [done|].
  by rewrite (rep_ptr _ _ _ Hr Ht), (rep_is_black _ _ _ Hr Ht).
Qed.

Lemma rep_non_null_red h w t : rep h (plug w t) -> non_null_red h (ptr t) = Some (bool_decide (color t = RED)).
Proof.
  intros Hr. unfold non_null_red. assert (t = E \/ t <> E) as [->|Ht] by (destruct t; [by left|by right]); [done|].
  by rewrite (rep_ptr _ _ _ Hr Ht), (rep_is_red _ _ _ Hr Ht).
Qed.

(** The same tree with the hole at the other child. *)
Lemma plug_other w s c x n y : plug w (node s c x n y) = plug (Fr c (negb s) n x :: w) y.
Proof. change (plug (Fr c (negb s) n x :: w) y) with (plug w (node (negb s) c y n x)). by rewrite node_flip. Qed.

Lemma names_root w t l : exists l', names w ++ ptr t :: l = ptr (plug w t) :: l'.
Proof.
  revert t l. induction w as [|f w IH]; intros t l; [by eexists|]. rewrite names_cons, <- app_assoc. cbn [app].
  destruct (IH (fill f t) (ptr t :: l)) as [l' E']. unfold fill in E' at 1. rewrite ptr_node in E'. by exists l'.
Qed.

Lemma stack_root st w t l : stack_is st (names w ++ ptr t :: l) -> stack_get st 0 = Some (ptr (plug w t)).
Proof. intros Hs. destruct (names_root w t l) as [l' E']. rewrite E' in Hs. by apply (stack_get_is st [] _ l'). Qed.

(** ** The order *)

Section Order.
Context (lessthan_fn : Z -> Z -> bool).
Abbreviation lt := (fun x y => lessthan_fn x y = true).
Implicit Types (h : rbheap) (t : tree) (w : way) (l ns : list Z).

(** [lessthan_fn] is a strict total order on [l]. *)
Record strict_on l : Prop := {
  so_irrefl : forall x, x ∈ l -> lessthan_fn x x = false;
  so_total : forall x y, x ∈ l -> y ∈ l -> x <> y -> lessthan_fn x y = negb (lessthan_fn y x);
  so_trans : forall x y z, x ∈ l -> y ∈ l -> z ∈ l -> lt x y -> lt y z -> lt x z
}.

Definition sorted ns : Prop := StronglySorted lt ns.

(** The search for [x] goes down this way. *)
Definition toward (x : Z) (f : frame) : Prop :=
  f_n f <> x /\ f_s f = if lessthan_fn x (f_n f) then false else true.

Lemma strict_on_incl l l' : strict_on l -> (forall x, x ∈ l' -> x ∈ l) -> strict_on l'.
Proof. intros [H0 H1 H2] Hi. split; eauto 10. Qed.

Lemma sorted_app ns1 ns2 :
  sorted (ns1 ++ ns2) <-> sorted ns1 /\ sorted ns2 /\ forall x y, x ∈ ns1 -> y ∈ ns2 -> lt x y.
Proof.
  unfold sorted. induction ns1 as [|a ns1 IH]; cbn.
  - split; [intros; split_and!; [constructor|done|set_solver]|tauto].
  - split.
    + intros H. inversion H as [|? ? Hs Hf]; subst. apply IH in Hs as (H1 & H2 & H3). rewrite Forall_forall in Hf.
      split_and!; [constructor; [done|]|done|]; [apply Forall_forall; set_solver|]. intros x y [->|Hx]%elem_of_cons Hy; set_solver.
    + intros (H1 & H2 & H3). inversion H1 as [|? ? Hs Hf]; subst. constructor; [apply IH; set_solver|].
      rewrite Forall_forall in Hf |- *. set_solver.
Qed.

Lemma way_between w x :
  strict_on (x :: before w ++ after w) -> sorted (before w ++ after w) -> Forall (toward x) w ->
  (forall y, y ∈ before w -> lt y x) /\ (forall y, y ∈ after w -> lt x y).
Proof.
  induction w as [|[c s n u] w IH]; intros Hso Hs Hf; [set_solver|]. apply Forall_cons in Hf as [[Hn Hside] Hf]. cbn in Hn, Hside.
  set (m := elems (fill (Fr c s n u) E)).
  assert (Em : before (Fr c s n u :: w) ++ after (Fr c s n u :: w) = before w ++ m ++ after w).
  { unfold m. rewrite elems_fill. cbn. destruct s; by rewrite <- ?app_assoc, ?app_nil_r. }
  rewrite Em in Hso, Hs. destruct IH as [IHb IHa]; [|apply sorted_app in Hs as (? & Hs & ?)|done|].
  - eapply strict_on_incl; [exact Hso|]. set_solver.
  - apply sorted_app in Hs as (? & ? & ?). apply sorted_app. set_solver.
  - apply sorted_app in Hs as (_ & Hs & _). apply sorted_app in Hs as (Hm & _ & _). unfold m in *. rewrite elems_fill in *. cbn in *.
    destruct Hso as [_ Htot Htr]. setoid_rewrite elem_of_cons in Htot. setoid_rewrite elem_of_cons in Htr.
    destruct s, (lessthan_fn x n) eqn:Exn; try done; rewrite ?app_nil_r in *.
    + assert (lt n x) by (rewrite (Htot n x), Exn; [done|set_solver|set_solver|done]).
      apply sorted_app in Hm as (_ & _ & Hm). split; [|done]. intros y [Hy|[Hy| ->%list_elem_of_singleton]%elem_of_app]%elem_of_app; [by apply IHb| |done].
      apply (Htr y n x); try set_solver.
    + inversion Hm as [|? ? _ Hfu]; subst. rewrite Forall_forall in Hfu. split; [done|].
      intros y [->|[Hy|Hy]%elem_of_app]%elem_of_cons; [done| |by apply IHa]. apply (Htr x n y); set_solver.
Qed.

(** ** Searching *)

(** Where the search for [x] ends: at [x], or below the last node on the way. *)
Definition search_end (x : Z) (t : tree) (w : way) (t' : tree) (st : rbstack) (sz : Z) : Prop :=
  plug w t' = t /\ Forall (toward x) w /\
  ((t' <> E /\ ptr t' = x /\ stack_is st (names w ++ [x]) /\ sz = Z.of_nat (length w) + 1) \/
   (t' = E /\ w <> [] /\ stack_is st (names w) /\ sz = Z.of_nat (length w))).

Lemma find_loop_spec fuel h x st w t sz :
  rep h (plug w t) -> t <> E -> stack_is st (names w ++ [ptr t]) -> sz = Z.of_nat (length w) + 1 ->
  (height t + length w <= length st)%nat -> (height t <= fuel)%nat -> Forall (toward x) w ->
  exists w' t' st' sz', find_loop lessthan_fn fuel h x st sz = Some (sz', st') /\ length st' = length st /\
    search_end x (plug w t) w' t' st' sz'.
Proof.
  revert st w t sz. induction fuel as [|fuel IH]; intros st w t sz Hr Ht Hs -> Hl Hf Hw; [destruct t; cbn in Hf; [done|lia]|].
  cbn [find_loop]. pose proof (names_length w) as Hn. rewrite (stack_get_is _ _ _ _ (_ - 1) Hs) by lia. cbn [mbind option_bind].
  destruct (Z.eqb_spec (ptr t) x) as [Ex|Hne].
  { exists w, t, st. eexists. split; [done|]. split; [done|]. split; [done|]. split; [done|]. left. rewrite <- Ex. by split_and!. }
  set (s := if lessthan_fn x (ptr t) then false else true).
  assert (exists c a b, t = node s c a (ptr t) b) as (c & a & b & Et).
  { destruct t as [|c l n r]; [done|]. destruct s; [by exists c, r, l|by exists c, l, r]. }
  set (n := ptr t) in *. clearbody n. subst t. destruct (rep_children _ _ _ _ _ _ _ Hr) as [-> _]. cbn [mbind option_bind].
  assert (Hw' : Forall (toward x) (Fr c s n b :: w)) by (by apply Forall_cons).
  change (plug w (node s c a n b)) with (plug (Fr c s n b :: w) a) in *. rewrite height_node in *.
  assert (a = E \/ a <> E) as [->|Ha] by (destruct a; [by left|by right]).
  - cbn [ptr Z.eqb negb]. exists (Fr c s n b :: w), E, st. eexists. split; [done|]. split; [done|]. split; [done|]. split; [done|].
    right. split; [done|]. split; [done|]. rewrite names_cons. split; [done|]. cbn [length]. lia.
  - rewrite (rep_ptr _ _ _ Hr Ha). cbn [negb]. destruct a as [|ca la na ra] eqn:Ea; [done|]. rewrite <- Ea in *. assert (1 <= height a)%nat by (subst a; cbn; lia).
    destruct (stack_push_is st (names w ++ [n]) (Z.of_nat (length w) + 1) (ptr a) Hs) as (st1 & -> & El1 & Hs1);
      [rewrite length_app, Hn; cbn; lia|rewrite length_app, Hn; cbn; lia|]. cbn [mbind option_bind].
    destruct (IH st1 (Fr c s n b :: w) a (Z.of_nat (length w) + 1 + 1) Hr) as (w' & t' & st' & sz' & E' & El' & Hend); try done.
    + by rewrite names_cons.
    + cbn [length]. lia.
    + cbn [length]. lia.
    + lia.
    + exists w', t', st', sz'. split; [exact E'|]. split; [congruence|exact Hend].
Qed.

Lemma stack_new_length d : length (stack_new d) = Z.to_nat d.
Proof. apply length_replicate. Qed.

Lemma find_and_stack_spec h T t x :
  rep h t -> t <> E -> rb_root T = ptr t -> (Z.of_nat (height t) <= max_depth T) ->
  exists w t' st sz, find_and_stack lessthan_fn h T x (stack_new (max_depth T + 1)) = Some (sz, st) /\
    length st = Z.to_nat (max_depth T + 1) /\ search_end x t w t' st sz.
Proof.
  intros Hr Ht Hroot Hh. unfold find_and_stack. rewrite Hroot.
  destruct (stack_push_is (stack_new (max_depth T + 1)) [] 0 (ptr t)) as (st & -> & El & Hs); [done|done|rewrite stack_new_length; cbn; lia|].
  cbn [mbind option_bind]. rewrite stack_new_length in El.
  destruct (find_loop_spec (S (length st)) h x st [] t 1) as (w & t' & st' & sz & E' & El' & Hend); try done; try (cbn; lia).
  exists w, t', st', sz. split; [exact E'|]. split; [congruence|exact Hend].
Qed.

(** ** The sorted set *)

(** The tree [T] in the store [h] holds the nodes [ns], in this order. *)
Definition rb_holds (h : rbheap) (T : rbtree) (ns : list Z) : Prop :=
  exists t, rep h t /\ rb_root T = ptr t /\ elems t = ns /\ 0 <= max_depth T /\
    balanced t (Z.to_nat (max_depth T)) /\ sorted ns.

Fixpoint sorted_add (x : Z) (ns : list Z) : list Z :=
  match ns with
  | [] => [x]
  | y :: ns' => if lessthan_fn x y then x :: ns else y :: sorted_add x ns'
  end.

Lemma sorted_add_between x ns1 ns2 :
  strict_on (x :: ns1 ++ ns2) -> x ∉ ns1 -> (forall y, y ∈ ns1 -> lt y x) -> (forall y, y ∈ ns2 -> lt x y) ->
  sorted_add x (ns1 ++ ns2) = ns1 ++ x :: ns2.
Proof.
  intros Hso Hx H1 H2. induction ns1 as [|y ns1 IH]; cbn.
  - destruct ns2 as [|y ns2]; [done|]. cbn. by rewrite H2 by set_solver.
  - rewrite (so_total _ Hso), (H1 y) by set_solver. cbn [negb]. f_equal. apply IH; try set_solver.
    eapply strict_on_incl; [exact Hso|]. set_solver.
Qed.

Lemma sorted_between x ns1 ns2 :
  sorted (ns1 ++ ns2) -> (forall y, y ∈ ns1 -> lt y x) -> (forall y, y ∈ ns2 -> lt x y) -> sorted (ns1 ++ x :: ns2).
Proof.
  intros Hs H1 H2. apply sorted_app in Hs as (Hs1 & Hs2 & H12). apply sorted_app. split; [done|]. split.
  - constructor; [done|]. by apply Forall_forall.
  - intros y z Hy [->|Hz]%elem_of_cons; [by apply H1|by apply H12].
Qed.
End Order.
