(* ===== verification/RbInsert.v ===== *)
(** * Red-black trees: insertion

    The repair loop [fix_extra_red] and [rb_insert]. *)

From S2P Require Import Prelude RbTree RbModel.

Local Open Scope Z_scope.

(** ** Insertion *)

(** What the two repair loops leave behind. *)
Definition repaired (h : rbheap) (l : list Z) (D : nat) (L : list Z) (h' : rbheap) (st : rbstack) : Prop :=
  exists t, rep h' t /\ elems t = l /\ balanced t D /\ stack_get st 0 = Some (ptr t) /\ upd h h' L.

(** The last rotation: a red node over a red node on the same side, under the black [g]. *)
Lemma extra_red_rotate h st w s t m e g u k D l z :
  rep h (plug w (node s BLACK (node s RED t m e) g u)) -> stack_is st (names w ++ g :: m :: l) ->
  z = Z.of_nat (length w) + 3 -> is_rb t k -> is_rb e k -> color e = BLACK -> is_rb u k -> color u = BLACK ->
  way_ok w (S k) -> (height t + length w + 1 <= D)%nat -> (height e + length w + 2 <= D)%nat ->
  (2 * k + length w + 2 <= D)%nat -> fits D w -> (2 * (S k + blacks w) <= D + 1)%nat ->
  exists h' st',
    ('(h, stack) ← rotate h st (z - 1);
     g ← stack_get stack (z - 3);
     h ← set_color h g BLACK;
     p ← stack_get stack (z - 2);
     h ← set_color h p RED;
     Some (h, stack)) = Some (h', st') /\
    repaired h (elems (plug w (node s BLACK (node s RED t m e) g u))) D
      (elems (plug w (node s BLACK (node s RED t m e) g u))) h' st'.
Proof.
  intros Hr Hs -> Ht He Ce Hu Cu Hw Dt De Du Df HK. set (T := elems (plug w _)). pose proof (names_length w) as Hl.
  destruct (rb_rotate_spec _ _ _ _ _ _ _ _ _ _ _ _ (Z.of_nat (length w) + 3 - 1) Hr Hs) as (h1 & st1 & -> & Hr1 & Hs1 & _ & Hu1); [lia|].
  cbn [mbind option_bind]. rewrite (stack_get_is _ _ _ _ (_ - 3) Hs1) by lia. cbn [mbind option_bind].
  destruct (rep_color _ _ _ _ _ _ _ BLACK Hr1) as (h2 & -> & Hr2 & Hu2). cbn [mbind option_bind].
  pose proof Hs1 as Hs1'. rewrite (cons_middle m), app_assoc in Hs1'.
  rewrite (stack_get_is _ _ _ _ (_ - 2) Hs1') by (rewrite length_app; cbn; lia). cbn [mbind option_bind].
  rewrite plug_other in Hr2. destruct (rep_color _ _ _ _ _ _ _ RED Hr2) as (h3 & -> & Hr3 & Hu3). cbn [mbind option_bind].
  rewrite <- plug_other in Hr3. eexists _, _. split; [done|]. eexists. split; [exact Hr3|].
  assert (ET : elems (plug w (node s BLACK t m (node s RED e g u))) = T).
  { unfold T. apply elems_plug_eq. by destruct s; cbn; rewrite <- ?app_assoc. }
  split; [done|]. split; [|split].
  - apply (balanced_plug w _ (S k)); [| |by rewrite color_node| |done|done].
    + apply is_rb_black. split; [done|]. by apply is_rb_red.
    + done.
    + rewrite !height_node. pose proof (height_rb u k Hu) as Hhu. rewrite Cu in Hhu. lia.
  - apply (stack_root st1 w _ (g :: l)). by rewrite ptr_node.
  - eapply upd_trans; [exact Hu1|]. eapply upd_trans; eapply upd_one; try done;
      unfold T; rewrite elem_of_plug, !elem_of_node; tauto.
Qed.

Lemma red_node t k s :
  is_rb t k -> color t = RED ->
  exists a n b, t = node s RED a n b /\ color a = BLACK /\ color b = BLACK /\ is_rb a k /\ is_rb b k.
Proof.
  destruct t as [|[] l n r]; try done. intros ((? & ?) & ? & ?) _.
  destruct s; [exists r, n, l|exists l, n, r]; by split_and!.
Qed.

Lemma black_node t k s :
  is_rb t (S k) -> color t = BLACK -> exists a n b, t = node s BLACK a n b /\ is_rb a k /\ is_rb b k.
Proof.
  destruct t as [|[] l n r]; try done. intros (? & ?) _. destruct s; [exists r, n, l|exists l, n, r]; by split_and!.
Qed.

Lemma repaired_after h h1 l l1 D L L1 h' st :
  upd h h1 L -> l1 = l -> L1 = L -> repaired h1 l1 D L1 h' st -> repaired h l D L h' st.
Proof. intros Hu -> -> (t & ? & ? & ? & ? & ?). exists t. split_and!; try done. by eapply upd_trans. Qed.

Lemma repaired_weaken h h1 l l1 D L L1 h' st :
  upd h h1 L -> l1 = l -> (forall z, z ∈ L1 -> z ∈ L) -> repaired h1 l1 D L1 h' st -> repaired h l D L h' st.
Proof.
  intros Hu -> Hi (t & ? & ? & ? & ? & Hu'). exists t. split_and!; try done. eapply upd_trans; [done|]. destruct Hu' as [Hu' Hs']. split; [|done]. intros y Hy. apply Hu'. auto.
Qed.

(** A red aunt: the three colours change and the loop goes on from the grandparent. *)
Lemma extra_red_recolor h w s t p e sg g ul m ur sp :
  let T := plug w (node sg BLACK (node sp RED t p e) g (node s RED ul m ur)) in
  let T' := plug w (node sg RED (node sp BLACK t p e) g (node s BLACK ul m ur)) in
  rep h T ->
  exists h1 h2 h3, set_color h g RED = Some h1 /\ set_color h1 p BLACK = Some h2 /\ set_color h2 m BLACK = Some h3 /\
    rep h3 T' /\ elems T' = elems T /\ upd h h3 (elems T).
Proof.
  intros T T' Hr. assert (ET : elems T' = elems T) by (apply elems_plug_eq; by destruct sg, sp, s).
  assert (Hin : forall z, z ∈ [g; p; m] -> z ∈ elems T).
  { intros z Hz. unfold T. rewrite elem_of_plug, !elem_of_node. set_solver. }
  destruct (rep_color _ _ _ _ _ _ _ RED Hr) as (h1 & E1 & Hr1 & Hu1).
  change (rep h1 (plug (Fr RED sg g (node s RED ul m ur) :: w) (node sp RED t p e))) in Hr1.
  destruct (rep_color _ _ _ _ _ _ _ BLACK Hr1) as (h2 & E2 & Hr2 & Hu2).
  change (rep h2 (plug w (node sg RED (node sp BLACK t p e) g (node s RED ul m ur)))) in Hr2. rewrite plug_other in Hr2.
  destruct (rep_color _ _ _ _ _ _ _ BLACK Hr2) as (h3 & E3 & Hr3 & Hu3). rewrite <- plug_other in Hr3.
  exists h1, h2, h3. split_and!; try done.
  eapply upd_trans; [eapply upd_one; [exact Hu1|]|eapply upd_trans; eapply upd_one; [exact Hu2| |exact Hu3|]]; apply Hin; set_solver.
Qed.

(** A black aunt: one or two rotations end the loop. *)
Lemma extra_red_black_aunt h st w t p e g u sp sg k D z :
  rep h (plug w (node sg BLACK (node sp RED t p e) g u)) -> stack_is st (names w ++ [g; p; ptr t]) ->
  z = Z.of_nat (length w) + 3 -> is_rb t k -> color t = RED -> is_rb e k -> color e = BLACK -> is_rb u k -> color u = BLACK ->
  way_ok w (S k) -> (height t + length w + 2 <= D)%nat -> (height e + length w + 2 <= D)%nat ->
  (length w + 3 + 2 * k <= D)%nat -> fits D w -> (2 * (S k + blacks w) <= D + 1)%nat ->
  exists h' st',
    ('(h, stack) ← (if negb (eqb sp sg) then rotate h st z else Some (h, st));
     '(h, stack) ← rotate h stack (z - 1);
     g ← stack_get stack (z - 3);
     h ← set_color h g BLACK;
     p ← stack_get stack (z - 2);
     h ← set_color h p RED;
     Some (h, stack)) = Some (h', st') /\
    repaired h (elems (plug w (node sg BLACK (node sp RED t p e) g u))) D
      (elems (plug w (node sg BLACK (node sp RED t p e) g u))) h' st'.
Proof.
  intros Hr Hs Ez Ht Ct He Ce Hu Cu Hw Dt De Dk Df HK. destruct (Bool.eqb_spec sp sg) as [->|Hne]; cbn [negb].
  - cbn [mbind option_bind]. eapply extra_red_rotate; try done; lia.
  - destruct (red_node t k sp Ht Ct) as (a & n & b & -> & Ca & Cb & Ha & Hb). rewrite ptr_node in Hs.
    rewrite height_node in Dt. assert (Eg : sg = negb sp) by (by destruct sp, sg).
    change (rep h (plug (Fr BLACK sg g u :: w) (node sp RED (node sp RED a n b) p e))) in Hr.
    rewrite cons_middle, app_assoc in Hs.
    destruct (rb_rotate_spec h st (Fr BLACK sg g u :: w) _ _ _ _ _ _ _ _ [] z Hr) as (h1 & st1 & -> & Hr1 & Hs1 & _ & Hu1);
      [by rewrite names_cons|cbn; lia|]. cbn [mbind option_bind].
    change (rep h1 (plug w (node sg BLACK (node sp RED a n (node sp RED b p e)) g u))) in Hr1.
    rewrite <- (node_flip RED sp a n), <- Eg in Hr1. rewrite names_cons, <- app_assoc in Hs1.
    destruct (extra_red_rotate h1 st1 w sg (node sp RED b p e) n a g u k D [p] z Hr1) as (h' & st' & E' & Hrep); try done; try lia.
    + by apply is_rb_red.
    + rewrite height_node. lia.
    + exists h', st'. split; [exact E'|]. eapply repaired_after; [exact Hu1| | |exact Hrep];
        apply elems_plug_eq; rewrite Eg; destruct sp; list_assoc.
Qed.

Lemma extra_red_spec fuel h st w t k D z :
  rep h (plug w t) -> is_rb t k -> color t = RED -> way_ok w k -> stack_is st (names w ++ [ptr t]) ->
  z = Z.of_nat (length w) + 1 -> (length w < fuel)%nat -> (length w + 1 + 2 * k <= D)%nat ->
  (height t + length w <= D)%nat -> fits D w -> (2 * (k + blacks w) <= D + 1)%nat ->
  exists h' st', fix_extra_red fuel h st z = Some (h', st') /\ repaired h (elems (plug w t)) D (elems (plug w t)) h' st'.
Proof.
  revert h w t k z. induction fuel as [|fuel IH]; [lia|]. intros h w t k z Hr Ht Ct Hw Hs -> Hf HD Hh Hfit HK.
  pose proof (names_length w) as Hl. cbn [fix_extra_red]. destruct w as [|[cp sp p e] w1].
  - (* the root *)
    destruct (red_node t k false Ht Ct) as (a & n & b & -> & Ca & Cb & Ha & Hb). cbn [length Z.of_nat Z.add Z.gtb Z.compare].
    rewrite (stack_get_is _ [] _ [] 0 Hs) by done. cbn [mbind option_bind].
    destruct (rep_color _ _ _ _ _ _ _ BLACK Hr) as (h1 & E1 & Hr1 & Hu1). rewrite ptr_node, E1. cbn [mbind option_bind].
    eexists _, _. split; [done|]. eexists. split; [exact Hr1|]. split; [done|]. split; [|split].
    + exists (S k). split; [by apply is_rb_black|]. split; [done|]. rewrite height_node in *. cbn in *. lia.
    + by rewrite (stack_get_is _ [] _ [] 0 Hs).
    + eapply upd_one; [exact Hu1|]. rewrite elem_of_plug, elem_of_node. tauto.
  - rewrite names_cons, <- app_assoc in Hs. cbn [length] in *. pose proof (names_length w1) as Hl1.
    rewrite Z.gtb_ltb, (proj2 (Z.ltb_lt _ _)) by lia. pose proof Hs as Hs'. rewrite app_assoc in Hs'.
    rewrite (stack_get_is _ _ _ _ (_ + 1 - 1) Hs') by (rewrite length_app; cbn; lia).
    rewrite (stack_get_is _ _ _ _ (_ + 1 - 2) Hs) by lia. cbn [mbind option_bind f_n] in *.
    change (plug (Fr cp sp p e :: w1) t) with (plug w1 (node sp cp t p e)) in *.
    assert (Hpe : node sp cp t p e <> E) by (by destruct sp). assert (Hte : t <> E) by (by destruct t).
    pose proof (rep_is_black _ _ _ Hr Hpe) as Eb. rewrite ptr_node, color_node in Eb. rewrite Eb. cbn [mbind option_bind].
    pose proof Hw as (He & Hred & Hw1). cbn in He, Hred, Hw1. destruct Hfit as [Hfe Hfit]. cbn in Hfe. destruct cp; cbn [bool_decide decide decide_rel].
    2:{ rewrite bool_decide_true by done. exists h, st. split; [done|]. eexists. split; [exact Hr|]. split; [done|]. split; [|split; [|done]].
        - by apply (balanced_plug (Fr BLACK sp p e :: w1) t k).
        - apply (stack_root st (Fr BLACK sp p e :: w1) t []). by rewrite names_cons, <- app_assoc. }
    rewrite bool_decide_false by done. destruct (Hred eq_refl) as [Ce Htop]. destruct w1 as [|[cg sg g u] w]; [done|]. cbn in Htop; subst cg.
    change (plug (Fr BLACK sg g u :: w) (node sp RED t p e)) with (plug w (node sg BLACK (node sp RED t p e) g u)) in *.
    rewrite names_cons, <- !app_assoc in Hs. cbn [length app f_n] in *. rewrite (stack_get_is _ _ _ _ (_ + 1 - 3) Hs) by (rewrite names_length; lia).
    cbn [mbind option_bind]. pose proof (rep_side _ _ _ _ _ _ _ Hr Hpe) as Es. rewrite ptr_node in Es. rewrite Es. cbn [mbind option_bind].
    destruct (rep_children _ _ _ _ _ _ _ Hr) as [_ ->]. cbn [mbind option_bind].
    pose proof Hr as Hru. rewrite plug_other in Hru. rewrite (rep_non_null_red _ _ _ Hru). cbn [mbind option_bind].
    destruct Hw1 as (Hu & _ & Hw2). cbn in Hu, Hw2. destruct Hfit as [Hfu Hfit]. cbn in Hfu. cbn [blacks f_c Nat.add] in HK.
    destruct (color u) eqn:Cu.
    + rewrite bool_decide_true by done. destruct (red_node u k false Hu Cu) as (ul & m & ur & -> & Cul & Cur & Hul & Hur).
      destruct (extra_red_recolor _ _ _ _ _ _ _ _ _ _ _ _ Hr) as (h1 & h2 & h3 & E1 & E2 & E3 & Hr3 & ET & Hupd).
      rewrite ptr_node, E1. cbn [mbind option_bind]. rewrite E2. cbn [mbind option_bind]. rewrite E3. cbn [mbind option_bind].
      rewrite !height_node in *. destruct (IH h3 w _ (S k) (Z.of_nat (S (S (length w))) + 1 - 2) Hr3) as (h' & st' & E' & Hrep); try done; try lia.
      * apply is_rb_red. rewrite !color_node. split; [done|]. split; by apply is_rb_black.
      * apply color_node.
      * rewrite ptr_node. by apply (stack_is_app _ _ [p; ptr t]); rewrite <- app_assoc.
      * rewrite !height_node. lia.
      * exists h', st'. split; [exact E'|]. by eapply repaired_after.
    + rewrite bool_decide_false by done. assert (Hr1 : rep h (plug (Fr BLACK sg g u :: w) (node sp RED t p e))) by exact Hr.
      rewrite (rep_side _ _ _ _ _ _ _ Hr1 Hte). cbn [mbind option_bind].
      eapply extra_red_black_aunt; try done; lia.
Qed.


(** A node that is about to be inserted, whatever it held before. *)
Lemma clear_children h x :
  is_Some (h !! x) ->
  exists h' c, (h ← set_child h x false 0; set_child h x true 0) = Some h' /\
    h' !! x = Some (cell c false 0 0) /\ upd h h' [x].
Proof.
  intros [[a b] Hx]. unfold set_child. rewrite Hx. cbn [mbind option_bind children0 children1].
  rewrite lookup_insert_eq. cbn [mbind option_bind children0 children1 fmap].
  assert (exists c, Z.land a 1 = color_val c) as [c Ec].
  { change 1 with (Z.ones 1). rewrite Z.land_ones by lia. pose proof (Z.mod_pos_bound a (2 ^ 1) ltac:(lia)).
    destruct (decide (a mod 2 ^ 1 = 0)); [exists RED|exists BLACK]; cbn; lia. }
  eexists _, c. split; [done|]. rewrite insert_insert_eq, lookup_insert_eq. split; [by rewrite Ec|]. apply upd_insert. set_solver.
Qed.

Lemma upd_weaken h h' l l' : upd h h' l -> (forall z, z ∈ l -> z ∈ l') -> upd h h' l'.
Proof. intros [Hu Hs] Hi. split; [|done]. intros y Hy. apply Hu. naive_solver. Qed.

Lemma holds_upd h h' l t : upd h h' l -> (forall z, z ∈ elems t -> z ∉ l) -> holds h t -> holds h' t.
Proof.
  intros Hu. induction t as [|c tl IHl n tr IHr]; [done|]. cbn [elems holds]. setoid_rewrite elem_of_app. setoid_rewrite elem_of_cons.
  intros Hd (? & Hn & Hl & Hr). split_and!; [tauto|tauto| |apply IHl|apply IHr]; try done; try (intros z Hz; apply Hd; tauto).
  rewrite (upd_out _ _ _ Hu); [done|]. apply Hd. tauto.
Qed.

Section Insert.
Context (lessthan_fn : Z -> Z -> bool).

(** The new node in the place where the search ended. *)
Lemma insert_leaf h f w x c :
  rep h (plug (f :: w) E) -> h !! x = Some (cell c false 0 0) -> x <> 0 -> aligned x -> x ∉ elems (plug (f :: w) E) ->
  exists h1 h2, set_child h (f_n f) (f_s f) x = Some h1 /\ set_color h1 x RED = Some h2 /\
    rep h2 (plug (f :: w) (N RED E x E)) /\ upd h h2 (x :: elems (plug (f :: w) E)).
Proof.
  intros Hr Hx Hx0 Hxa Hin. destruct f as [cf s p u]. cbn [f_n f_s].
  assert (Hnd : NoDup (elems (plug (Fr cf s p u :: w) (N c E x E)))).
  { pose proof Hr as [_ Hnd]. rewrite elems_plug in *. cbn [elems app] in *. rewrite NoDup_app in *. rewrite NoDup_cons. set_solver. }
  destruct (rep_child h w s cf E p u (N c E x E) Hr) as (h1 & E1 & Hr1 & Hu1); [cbn; tauto|done|].
  destruct (rep_color h1 (Fr cf s p u :: w) false c E x E RED Hr1) as (h2 & E2 & Hr2 & Hu2).
  exists h1, h2. split_and!; [done|done|done|]. eapply upd_trans; eapply upd_one; [exact Hu1| |exact Hu2|]; [|set_solver].
  apply elem_of_cons. right. apply elem_of_plug. left. cbn. set_solver.
Qed.

Lemma rb_insert_spec h T ns x :
  rb_holds lessthan_fn h T ns -> strict_on lessthan_fn (x :: ns) -> x ∉ ns -> x <> 0 -> aligned x -> is_Some (h !! x) ->
  exists h' T', rb_insert lessthan_fn h T x = Some (h', T') /\ rb_holds lessthan_fn h' T' (sorted_add lessthan_fn x ns) /\
    upd h h' (x :: ns).
Proof.
  intros (t & Hr & Hroot & <- & Hmd & Hbal & Hsort) Hso Hx Hx0 Hxa Hsome.
  destruct (clear_children h x Hsome) as (h1 & c & E1 & Hc & Hu1). unfold rb_insert.
  destruct (set_child h x false 0) as [h0|]; [|done]. cbn [mbind option_bind] in *. rewrite E1. cbn [mbind option_bind]. clear E1.
  assert (Hr1 : rep h1 t) by (destruct Hr; split; [eapply holds_upd; [exact Hu1|set_solver|done]|done]). rewrite Hroot.
  assert (t = E \/ t <> E) as [->|Ht] by (destruct t; [by left|by right]).
  - cbn [ptr Z.eqb]. assert (Hc' : h1 !! x = Some (cell c false (ptr E) (ptr E))) by exact Hc.
    destruct (rep_color h1 [] false c E x E BLACK) as (h2 & -> & Hr2 & Hu2).
    { split; [cbn; tauto|]. cbn. apply NoDup_singleton. }
    cbn [mbind option_bind]. eexists _, _. split; [done|]. split; [|eapply upd_trans; eapply upd_weaken; [exact Hu1| |exact Hu2|]; set_solver].
    exists (N BLACK E x E). split; [exact Hr2|]. cbn. split_and!; [done|done|lia| |repeat constructor].
    exists 1%nat. cbn. split_and!; (done || lia).
  - rewrite (rep_ptr h1 [] t Hr1 Ht). pose proof Hbal as (K & _ & _ & Hh & _).
    destruct (find_and_stack_spec lessthan_fn h1 T t x Hr1 Ht Hroot) as (w & t' & st & sz & -> & El & Ep & Hw & Hend); [lia|].
    cbn [mbind option_bind]. destruct Hend as [(Ht' & Ept & _)|(-> & Hne & Hs & ->)].
    { exfalso. apply Hx. rewrite <- Ep, elem_of_plug, <- Ept. right. destruct t'; cbn; [done|set_solver]. }
    destruct w as [|f w]; [done|]. rewrite names_cons in Hs. pose proof (names_length w) as Hl. cbn [length] in *.
    rewrite (stack_get_is _ _ _ _ (_ - 1) Hs) by lia. cbn [mbind option_bind].
    subst t. destruct (insert_leaf h1 f w x c Hr1 Hc Hx0 Hxa Hx) as (h2 & h3 & E2 & E3 & Hr3 & Hu3).
    pose proof (proj1 (Forall_cons _ _ _) Hw) as [[_ Eside] _]. rewrite <- Eside, E2. cbn [mbind option_bind]. rewrite E3. cbn [mbind option_bind].
    apply height_plug in Hh as [Hh Hfit]. cbn [height length] in Hh.
    destruct (stack_push_is st (names w ++ [f_n f]) (Z.of_nat (S (length w))) x Hs) as (st1 & -> & El1 & Hs1);
      [rewrite length_app; cbn; lia|rewrite length_app, El; cbn; lia|]. cbn [mbind option_bind].
    apply balanced_plug_inv in Hbal as (k & Hk & Hwk & _ & _ & _ & HK). cbn in Hk. subst k.
    set (D := Nat.max (Z.to_nat (max_depth T)) (S (S (length w)))).
    destruct (extra_red_spec (Z.to_nat (Z.of_nat (S (length w)) + 1)) h3 st1 (f :: w) (N RED E x E) 0 D (Z.of_nat (S (length w)) + 1) Hr3)
      as (h' & st' & E' & t' & Hr' & El' & Hbal' & Hroot' & Hu'); cbn [length height]; try done; try lia.
    { by rewrite names_cons. } { eapply fits_mono; [exact Hfit|lia]. }
    rewrite E'. cbn [mbind option_bind]. rewrite Hroot'. cbn [mbind option_bind]. eexists _, _. split; [done|].
    rewrite elems_plug in Hx, Hso, Hsort, Hu3 |- *. cbn [elems app] in *.
    assert (Hb : (forall y, y ∈ before (f :: w) -> lessthan_fn y x = true) /\ (forall y, y ∈ after (f :: w) -> lessthan_fn x y = true))
      by (by apply way_between).
    assert (Ens : elems t' = sorted_add lessthan_fn x (before (f :: w) ++ after (f :: w))).
    { rewrite El', elems_plug. cbn [elems app]. symmetry. apply sorted_add_between; try tauto. set_solver. }
    split.
    + exists t'. split; [done|]. split; [by destruct (_ >? _)|]. split; [done|].
      assert (Emd : max_depth (with_root (ptr t') (if Z.of_nat (S (length w)) + 1 >? max_depth T
        then with_max_depth (Z.of_nat (S (length w)) + 1) T else T)) = Z.of_nat D).
      { rewrite Z.gtb_ltb. destruct (Z.ltb_spec (max_depth T) (Z.of_nat (S (length w)) + 1)); cbn; lia. }
      rewrite Emd, Nat2Z.id. split; [lia|]. split; [done|]. rewrite <- Ens, El', elems_plug. cbn [elems app]. destruct Hb; by apply sorted_between.
    + eapply upd_trans; [eapply upd_weaken; [exact Hu1|set_solver]|]. eapply upd_trans; [exact Hu3|].
      eapply upd_weaken; [exact Hu'|]. rewrite elems_plug. cbn [elems]. set_solver.
Qed.
End Insert.
