(* ===== verification/RbRemove.v ===== *)
(** * Red-black trees: removal

    The repair loop [fix_missing_black], the swap with the node before, and
    [rb_remove]. *)

From S2P Require Import Prelude RbTree RbModel RbInsert.

Local Open Scope Z_scope.

(** ** A missing black node *)

(** The state of the loop at a node [n] whose subtree [t0] is one black node short; the
    node to be removed, [null], is still in place at first, as the whole of [t0], and then
    [t1] is what will be in its place. *)
Record gap (h : rbheap) (st : rbstack) (z : Z) (w : way) (t0 t1 : tree) (k : nat) (null : Z) (D : nat) : Prop := {
  g_rep : rep h (plug w t0);
  g_rb : is_rb t1 k;
  g_black : color t1 = BLACK;
  g_ne : t0 <> E;
  g_null : (t0 = N BLACK E null E /\ t1 = E /\ w <> []) \/ (ptr t0 <> null /\ t1 = t0);
  g_out : null ∉ welems w;
  g_way : way_ok w (S k);
  g_stack : stack_is st (names w ++ [ptr t0]);
  g_z : z = Z.of_nat (length w) + 1;
  g_cap : length st = S D;
  g_fits : fits D w;
  g_K : (2 * (S k + blacks w) <= D + 1)%nat
}.

(** The depth of what is under a black node under which a black node was missing. *)
Lemma tight w s p e t k :
  way_ok (Fr BLACK s p e :: w) k -> is_rb t k -> color t = BLACK ->
  (height t + length (Fr BLACK s p e :: w) + 1 <= 2 * (k + blacks (Fr BLACK s p e :: w)))%nat.
Proof. intros Hw Ht Ct. apply length_way in Hw. apply height_rb in Ht. rewrite Ct in Ht. cbn in *. lia. Qed.

(** Two ways with the same nodes around the hole. *)
Definition around (w w' : way) : Prop := before w' = before w /\ after w' = after w.

Lemma around_elems w w' t : around w w' -> elems (plug w' t) = elems (plug w t).
Proof. intros [Hb Ha]. by rewrite !elems_plug, Hb, Ha. Qed.

Lemma around_welems w w' z : around w w' -> z ∈ welems w' <-> z ∈ welems w.
Proof. intros [Hb Ha]. by rewrite !elem_of_welems, Hb, Ha. Qed.

Section Missing.
Context (null : Z) (D : nat).
Implicit Types (h : rbheap) (st : rbstack) (w up : way) (t : tree) (k : nat) (s : bool).

(** The trees of the rotation that makes a red sibling the grandparent. *)
Lemma red_sibling h up s t0 p o m i :
  rep h (plug up (node s BLACK t0 p (node (negb s) RED o m i))) ->
  rep h (plug up (node (negb s) BLACK (node (negb s) RED o m i) p t0)) /\
  forall h2, rep h2 (plug up (node (negb s) RED o m (node (negb s) BLACK i p t0))) ->
  exists h3 h4, set_color h2 p RED = Some h3 /\ set_color h3 m BLACK = Some h4 /\
    rep h4 (plug (Fr RED s p i :: Fr BLACK s m o :: up) t0) /\
    upd h2 h4 (elems (plug up (node s BLACK t0 p (node (negb s) RED o m i)))).
Proof.
  intros Hr. rewrite node_flip. split; [done|]. intros h2 Hr2. rewrite plug_other in Hr2.
  destruct (rep_color _ _ _ _ _ _ _ RED Hr2) as (h3 & E3 & Hr3 & Hu3). rewrite <- plug_other in Hr3.
  destruct (rep_color _ _ _ _ _ _ _ BLACK Hr3) as (h4 & E4 & Hr4 & Hu4). exists h3, h4. split; [done|]. split; [done|].
  rewrite !node_flip in Hr4. split.
  - exact Hr4.
  - eapply upd_trans; eapply upd_one; [exact Hu3| |exact Hu4|]; rewrite elem_of_plug, !elem_of_node; tauto.
Qed.

(** First part: a red sibling is rotated up. *)
Lemma blacken_spec h st z cp s p sib up t0 t1 k :
  gap h st z (Fr cp s p sib :: up) t0 t1 k null D ->
  exists h' st' z' cp' sib' up',
    blacken_sibling h st z (ptr t0) p (ptr sib) s = Some (h', st', z', p, ptr sib') /\
    gap h' st' z' (Fr cp' s p sib' :: up') t0 t1 k null D /\ color sib' = BLACK /\
    around (Fr cp s p sib :: up) (Fr cp' s p sib' :: up') /\
    (cp' = BLACK -> up' = up) /\ upd h h' (elems (plug (Fr cp s p sib :: up) t0)).
Proof.
  intros G. pose proof G as []. pose proof (names_length up) as Hl. rewrite names_cons, <- app_assoc in g_stack0. cbn [app f_n] in g_stack0.
  destruct g_way0 as (Hsib & Hred & Hup). cbn in Hsib, Hred, Hup. cbn [length] in *. destruct g_fits0 as [Hfs Hfit]. cbn in Hfs.
  assert (Hse : sib <> E) by (by intros ->). change (plug (Fr cp s p sib :: up) t0) with (plug up (node s cp t0 p sib)) in *.
  pose proof g_rep0 as Hrs. rewrite plug_other in Hrs. unfold blacken_sibling. rewrite (rep_is_black _ _ _ Hrs Hse). cbn [mbind option_bind].
  destruct (color sib) eqn:Cs.
  2:{ rewrite bool_decide_true by done. cbn [negb]. exists h, st, z, cp, sib, up. by split_and!. }
  rewrite bool_decide_false by done. cbn [negb]. destruct cp; [by destruct (Hred eq_refl)|].
  destruct (red_node sib (S k) (negb s) Hsib Cs) as (o & m & i & -> & Co & Ci & Ho & Hi). rewrite ptr_node. rewrite height_node in Hfs.
  pose proof (is_rb_height _ _ Ho) as Hho. destruct (red_sibling h up s t0 p o m i g_rep0) as (Hr0 & Hrot). rewrite cons_middle, app_assoc in g_stack0.
  destruct (stack_set_is _ _ _ _ (z - 1) m g_stack0) as (st1 & -> & El1 & Hs1); [rewrite length_app; cbn; lia|]. cbn [mbind option_bind].
  rewrite <- app_assoc in Hs1.
  destruct (rb_rotate_spec _ _ _ _ _ _ _ _ _ _ _ _ z Hr0 Hs1) as (h2 & st2 & -> & Hr2 & Hs2 & El2 & Hu2); [lia|]. cbn [mbind option_bind].
  destruct (Hrot h2 Hr2) as (h3 & h4 & -> & E4 & Hr4 & Hu4). cbn [mbind option_bind]. rewrite E4. cbn [mbind option_bind].
  destruct (stack_push_is _ _ z (ptr t0) Hs2) as (st3 & -> & El3 & Hs3); [rewrite length_app; cbn; lia|rewrite length_app; cbn; lia|].
  cbn [mbind option_bind]. rewrite <- app_assoc in Hs3. cbn [app] in Hs3. pose proof Hs3 as Hs4. rewrite cons_middle, app_assoc in Hs4.
  rewrite (stack_get_is _ _ _ _ (z + 1 - 2) Hs4) by (rewrite length_app; cbn; lia). cbn [mbind option_bind].
  assert (Hr5 : rep h4 (plug (Fr BLACK s m o :: up) (node s RED t0 p i))) by exact Hr4.
  destruct (rep_children _ _ _ _ _ _ _ Hr5) as [_ ->]. cbn [mbind option_bind].
  assert (Har : around (Fr BLACK s p (node (negb s) RED o m i) :: up) (Fr RED s p i :: Fr BLACK s m o :: up)).
  { unfold around. destruct s; cbn; rewrite <- ?app_assoc; cbn; by rewrite ?app_nil_r. }
  exists h4, st3, (z + 1), RED, i, (Fr BLACK s m o :: up). split; [done|]. split; [|split; [done|split; [done|split; [done|]]]].
  - split; try done.
    + destruct g_null0 as [(? & ? & _)|?]; [left|right]; (tauto || by split_and!).
    + by rewrite (around_welems _ _ _ Har).
    + by rewrite !names_cons, <- !app_assoc.
    + cbn [length]. lia.
    + congruence.
    + cbn. split; [lia|]. split; [lia|done].
  - eapply upd_trans; [|exact Hu4]. by rewrite node_flip in Hu2.
Qed.

(** The node to be removed, if it is still there, goes. *)
Lemma drop_null h up s c t0 t1 p e :
  rep h (plug up (node s c t0 p e)) -> (t0 = N BLACK E null E /\ t1 = E) \/ (ptr t0 <> null /\ t1 = t0) ->
  exists h', (if ptr t0 =? null then set_child h p s 0 else Some h) = Some h' /\
    rep h' (plug up (node s c t1 p e)) /\ upd h h' [p].
Proof.
  intros Hr [(-> & ->)|(Hne & ->)].
  - cbn [ptr]. rewrite Z.eqb_refl. apply (rep_child h up s c _ p e E Hr); [done|].
    destruct Hr as [_ Hnd]. apply NoDup_plug in Hnd as (H1 & H2 & H3). apply NoDup_plug. apply NoDup_node in H2. rewrite NoDup_node.
    setoid_rewrite elem_of_node in H3. setoid_rewrite elem_of_node. split; [done|]. cbn [elems] in *. pose proof NoDup_nil_2 (A:=Z). set_solver.
  - rewrite (proj2 (Z.eqb_neq _ _) Hne). by exists h.
Qed.

Lemma both_black h w s c i m o :
  rep h (plug w (node s c i m o)) ->
  exists c0 c1 b0, get_child h m false = Some c0 /\ get_child h m true = Some c1 /\ null_or_black h c0 = Some b0 /\
    (if (b0 : bool) then null_or_black h c1 else Some false) = Some (bool_decide (color i = BLACK /\ color o = BLACK)).
Proof.
  intros Hr. assert (exists l r, node s c i m o = node false c l m r /\ (color l = BLACK /\ color r = BLACK <-> color i = BLACK /\ color o = BLACK))
    as (l & r & Eq & Hiff) by (destruct s; [exists o, i|exists i, o]; split; (done || tauto)).
  rewrite Eq in Hr. destruct (rep_children _ _ _ _ _ _ _ Hr) as [-> Er]. cbn [negb] in Er. rewrite Er. exists (ptr l), (ptr r). eexists. split; [done|]. split; [done|].
  assert (Hl : rep h (plug (Fr c false m r :: w) l)) by exact Hr. rewrite plug_other in Hr.
  rewrite (rep_null_or_black _ _ _ Hl), (rep_null_or_black _ _ _ Hr). split; [done|]. rewrite <- (bool_decide_ext _ _ Hiff).
  destruct (color l), (color r); reflexivity.
Qed.

(** Third part: the outer child of the sibling is made red. *)
Lemma redden_spec h st z cp s p i m o up t0 k :
  rep h (plug (Fr cp s p (node s BLACK i m o) :: up) t0) -> stack_is st (names up ++ [p; ptr t0]) ->
  z = Z.of_nat (length up) + 2 -> length st = S D -> is_rb i k -> is_rb o k -> ~ (color i = BLACK /\ color o = BLACK) ->
  (height i + length up + 2 <= D)%nat -> (height o + length up + 2 <= D)%nat ->
  exists h' st' i' m' o', redden_outer h st z (ptr t0) m s = Some (h', st', m', ptr o') /\
    rep h' (plug (Fr cp s p (node s BLACK i' m' o') :: up) t0) /\ stack_is st' (names up ++ [p; ptr t0]) /\
    length st' = length st /\ is_rb i' k /\ is_rb o' k /\ color o' = RED /\
    around (Fr cp s p (node s BLACK i m o) :: up) (Fr cp s p (node s BLACK i' m' o') :: up) /\
    (height i' + length up + 2 <= D)%nat /\ (height o' + length up + 1 <= D)%nat /\
    upd h h' (elems (plug (Fr cp s p (node s BLACK i m o) :: up) t0)).
Proof.
  intros Hr Hs -> El Hi Ho Hnb Hhi Hho. pose proof (names_length up) as Hl. unfold redden_outer.
  assert (Hrs : rep h (plug (Fr cp (negb s) p t0 :: up) (node s BLACK i m o))) by (by rewrite <- plug_other).
  destruct (rep_children _ _ _ _ _ _ _ Hrs) as [Ei Eo]. rewrite Eo. cbn [mbind option_bind].
  pose proof Hrs as Hro. rewrite plug_other in Hro. rewrite (rep_non_null_red _ _ _ Hro). cbn [mbind option_bind].
  destruct (color o) eqn:Co.
  { rewrite bool_decide_true by done. cbn [negb]. exists h, st, i, m, o. split_and!; try done; lia. }
  rewrite bool_decide_false by done. cbn [negb]. rewrite Ei. cbn [mbind option_bind].
  destruct (red_node i k s Hi) as (a & n & b & -> & Ca & Cb & Ha & Hb); [destruct (color i); [done|tauto]|]. rewrite ptr_node. rewrite height_node in Hhi.
  rewrite cons_middle, app_assoc in Hs.
  destruct (stack_set_is _ _ _ _ (Z.of_nat (length up) + 2 - 1) m Hs) as (st1 & -> & El1 & Hs1); [rewrite length_app; cbn; lia|]. cbn [mbind option_bind].
  destruct (stack_push_is _ _ (Z.of_nat (length up) + 2) n Hs1) as (st2 & -> & El2 & Hs2); [rewrite !length_app; cbn; lia|rewrite !length_app; cbn; lia|].
  cbn [mbind option_bind]. rewrite <- app_assoc in Hs2. cbn [app] in Hs2.
  destruct (rb_rotate_spec h st2 (Fr cp (negb s) p t0 :: up) _ _ _ _ _ _ _ _ [] (Z.of_nat (length up) + 2 + 1) Hrs)
    as (h3 & st3 & -> & Hr3 & Hs3 & El3 & Hu3); [by rewrite names_cons|cbn [length]; lia|]. cbn [mbind option_bind].
  rewrite plug_other in Hr3. destruct (rep_color _ _ _ _ _ _ _ RED Hr3) as (h4 & -> & Hr4 & Hu4). cbn [mbind option_bind]. rewrite <- plug_other in Hr4.
  destruct (rep_color _ _ _ _ _ _ _ BLACK Hr4) as (h5 & -> & Hr5 & Hu5). cbn [mbind option_bind]. rewrite names_cons in Hs3.
  rewrite (stack_get_is _ _ _ _ (_ + 1 - 2) Hs3) by (rewrite length_app; cbn; lia). cbn [mbind option_bind].
  destruct (rep_children _ _ _ _ _ _ _ Hr5) as [_ ->]. cbn [mbind option_bind].
  destruct (stack_set_is _ _ _ _ (Z.of_nat (length up) + 2 + 1 - 2) (ptr t0) Hs3) as (st4 & -> & El4 & Hs4); [rewrite length_app; cbn; lia|].
  cbn [mbind option_bind f_n] in *. exists h5, st4, a, n, (node s RED b m o). split; [done|]. rewrite <- plug_other in Hr5.
  split; [exact Hr5|]. split; [apply (stack_is_app _ _ [m]); by rewrite <- app_assoc in Hs4 |- *|]. rewrite height_node.
  split_and!; try done; try lia; try congruence; [by apply is_rb_red|by apply color_node| |].
  - unfold around. destruct s; cbn; rewrite <- ?app_assoc; cbn; by rewrite <- ?app_assoc.
  - rewrite <- plug_other in Hu3. eapply upd_trans; [exact Hu3|]. change (plug (Fr cp s p ?x :: up) t0) with (plug up (node s cp t0 p x)).
    eapply upd_trans; eapply upd_one; [exact Hu4| |exact Hu5|]; rewrite elem_of_plug, !elem_of_node; tauto.
Qed.

(** The colours before the last rotation. *)
Lemma final_colors h up cp s t0 p i m o k :
  rep h (plug (Fr cp s p (node s BLACK i m o) :: up) t0) -> is_rb o k -> color o = RED ->
  exists o' h1 h2 h3, get_color h p = Some cp /\ set_color h m cp = Some h1 /\ set_color h1 p BLACK = Some h2 /\
    set_color h2 (ptr o) BLACK = Some h3 /\ rep h3 (plug up (node (negb s) BLACK (node (negb s) cp o' m i) p t0)) /\
    is_rb o' (S k) /\ color o' = BLACK /\ height o' = height o /\ elems o' = elems o /\
    upd h h3 (elems (plug (Fr cp s p (node s BLACK i m o) :: up) t0)).
Proof.
  intros Hr Ho Co. destruct (red_node o k s Ho Co) as (x & q & y & -> & Cx & Cy & Hx & Hy).
  change (rep h (plug up (node s cp t0 p (node s BLACK i m (node s RED x q y))))) in Hr.
  destruct (rep_node _ _ _ _ _ _ _ Hr) as (Hc & Ax & Ay & _).
  pose proof Hr as Hr0. rewrite plug_other in Hr0. destruct (rep_color _ _ _ _ _ _ _ cp Hr0) as (h1 & E1 & Hr1 & Hu1). rewrite <- plug_other in Hr1.
  destruct (rep_color _ _ _ _ _ _ _ BLACK Hr1) as (h2 & E2 & Hr2 & Hu2). do 2 rewrite plug_other in Hr2.
  destruct (rep_color _ _ _ _ _ _ _ BLACK Hr2) as (h3 & E3 & Hr3 & Hu3). do 2 rewrite <- plug_other in Hr3.
  exists (node s BLACK x q y), h1, h2, h3. rewrite ptr_node, !height_node, color_node, !node_flip.
  split_and!; try done; [by apply (get_color_cell _ _ _ _ _ _ Hc)|by apply is_rb_black|apply elems_color|].
  change (plug (Fr cp s p ?a :: up) t0) with (plug up (node s cp t0 p a)).
  eapply upd_trans; [eapply upd_one; [exact Hu1|]|eapply upd_trans; eapply upd_one; [exact Hu2| |exact Hu3|]];
    rewrite elem_of_plug, !elem_of_node; tauto.
Qed.

(** Last part: the sibling is rotated up. *)
Lemma missing_rotate h st z cp s p i m o up t0 t1 k :
  rep h (plug (Fr cp s p (node s BLACK i m o) :: up) t0) -> stack_is st (names up ++ [p; ptr t0]) ->
  z = Z.of_nat (length up) + 2 -> is_rb i k -> is_rb o k -> color o = RED -> is_rb t1 k -> color t1 = BLACK ->
  (t0 = N BLACK E null E /\ t1 = E) \/ (ptr t0 <> null /\ t1 = t0) ->
  way_ok up (match cp with RED => S k | BLACK => S (S k) end) -> (cp = RED -> top up = BLACK) -> fits D up ->
  (height i + length up + 2 <= D)%nat -> (height o + length up + 1 <= D)%nat ->
  (2 * (S k + (match cp with RED => 0 | BLACK => 1 end + blacks up)) <= D + 1)%nat ->
  exists h' st',
    (pc ← get_color h p;
     h ← set_color h m pc;
     h ← set_color h p BLACK;
     h ← set_color h (ptr o) BLACK;
     stack ← stack_set st (z - 1) m;
     '(h, stack) ← rotate h stack z;
     h ← (if ptr t0 =? null then set_child h p s 0 else Some h);
     Some (h, stack)) = Some (h', st') /\
    repaired h (elems (plug (Fr cp s p (node s BLACK i m o) :: up) t1)) D
      (elems (plug (Fr cp s p (node s BLACK i m o) :: up) t0)) h' st'.
Proof.
  intros Hr Hs -> Hi Ho Co Ht Ct Hnull Hup Htop Hfit Hhi Hho HK. pose proof (names_length up) as Hl.
  destruct (final_colors h up cp s t0 p i m o k Hr Ho Co) as (o' & h1 & h2 & h3 & -> & E1 & E2 & E3 & Hr3 & Ho' & Co' & Hh' & Eo' & Hu3).
  cbn [mbind option_bind]. rewrite E1. cbn [mbind option_bind]. rewrite E2. cbn [mbind option_bind]. rewrite E3. cbn [mbind option_bind].
  rewrite cons_middle, app_assoc in Hs. destruct (stack_set_is _ _ _ _ (Z.of_nat (length up) + 2 - 1) m Hs) as (st1 & -> & El1 & Hs1); [rewrite length_app; cbn; lia|].
  cbn [mbind option_bind]. rewrite <- app_assoc in Hs1.
  destruct (rb_rotate_spec _ _ _ _ _ _ _ _ _ _ _ _ _ Hr3 Hs1 eq_refl) as (h4 & st4 & -> & Hr4 & Hs4 & _ & Hu4). cbn [mbind option_bind].
  rewrite !node_flip in Hr4. rewrite !node_flip in Hu4.
  change (rep h4 (plug (Fr cp s m o' :: up) (node s BLACK t0 p i))) in Hr4.
  destruct (drop_null _ _ _ _ _ t1 _ _ Hr4 Hnull) as (h5 & -> & Hr5 & Hu5). cbn [mbind option_bind].
  eexists _, _. split; [done|]. eexists. split; [exact Hr5|]. split; [|split; [|split]].
  - rewrite !elems_plug. destruct s; cbn; rewrite Eo', <- ?app_assoc; cbn; by rewrite <- ?app_assoc.
  - assert (Hw : way_ok (Fr cp s m o' :: up) (S k)) by (split; [done|]; split; [by auto|done]).
    apply (balanced_plug _ _ (S k)); [by apply is_rb_black|done|by rewrite color_node| |cbn; split; [lia|done]|cbn; lia].
    pose proof (tight (Fr cp s m o' :: up) s p i t1 k) as Hti. rewrite height_node. cbn in Hti |- *. specialize (Hti ltac:(done) Ht Ct). lia.
  - change (plug (Fr cp s m o' :: up) (node s BLACK t1 p i)) with (plug up (node s cp (node s BLACK t1 p i) m o')).
    eapply (stack_root _ up _ [p]). by rewrite ptr_node.
  - eapply upd_trans; [exact Hu3|]. change (plug (Fr cp s p ?a :: up) t0) with (plug up (node s cp t0 p a)) in *.
    eapply upd_trans; [eapply upd_weaken; [exact Hu4|]|eapply upd_one; [exact Hu5|]].
    + intros y. rewrite !elem_of_plug, !elem_of_node, Eo'. tauto.
    + rewrite elem_of_plug, !elem_of_node. tauto.
Qed.

(** Second part, when the sibling has no red child: it is made red, *)
Lemma missing_recolor h st z cp s p i m o up t0 t1 k :
  gap h st z (Fr cp s p (node s BLACK i m o) :: up) t0 t1 k null D -> 
  exists h1 h2, (if ptr t0 =? null then set_child h p s 0 else Some h) = Some h1 /\ set_color h1 m RED = Some h2 /\
    is_black h2 p = Some (bool_decide (cp = BLACK)) /\ rep h2 (plug up (node s cp t1 p (node s RED i m o))) /\
    upd h h2 (elems (plug (Fr cp s p (node s BLACK i m o) :: up) t0)).
Proof.
  intros []. destruct (drop_null h up s cp t0 t1 p (node s BLACK i m o) g_rep0 ltac:(tauto)) as (h1 & E1 & Hr1 & Hu1).
  rewrite plug_other in Hr1. destruct (rep_color _ _ _ _ _ _ _ RED Hr1) as (h2 & E2 & Hr2 & Hu2). rewrite <- plug_other in Hr2.
  exists h1, h2. split; [done|]. split; [done|]. pose proof (rep_is_black _ _ _ Hr2 ltac:(by destruct s)) as Eb.
  rewrite ptr_node, color_node in Eb. split; [done|]. split; [done|].
  change (plug (Fr cp s p ?a :: up) t0) with (plug up (node s cp t0 p a)).
  eapply upd_trans; eapply upd_one; [exact Hu1| |exact Hu2|]; rewrite elem_of_plug, !elem_of_node; tauto.
Qed.

(** and the parent is the next node that is one short, *)
Lemma missing_up h h2 st z s p i m o up t0 t1 k :
  gap h st z (Fr BLACK s p (node s BLACK i m o) :: up) t0 t1 k null D -> color i = BLACK -> color o = BLACK ->
  rep h2 (plug up (node s BLACK t1 p (node s RED i m o))) ->
  let t := node s BLACK t1 p (node s RED i m o) in gap h2 st (z - 1) up t t (S k) null D.
Proof.
  intros [] Ci Co Hr2 t. destruct g_way0 as (Hsib & _ & Hup). cbn in Hsib, Hup. apply is_rb_black_inv in Hsib as (k' & [= <-] & Hi & Ho).
  destruct g_fits0 as [_ Hfit]. split; try done.
  - apply is_rb_black. split; [done|]. by apply is_rb_red.
  - apply color_node.
  - by destruct s.
  - right. split; [|done]. unfold t. rewrite ptr_node. intros ->. apply g_out0. cbn. set_solver.
  - intros Hin. apply g_out0. cbn. set_solver.
  - unfold t. rewrite ptr_node. apply (stack_is_app _ _ [ptr t0]). by rewrite names_cons in g_stack0.
  - cbn [length] in g_z0. lia.
  - cbn in g_K0. lia.
Qed.

(** unless the parent is red: then it takes the missing black. *)
Lemma missing_done h h2 st z s p i m o up t0 t1 k :
  gap h st z (Fr RED s p (node s BLACK i m o) :: up) t0 t1 k null D -> color i = BLACK -> color o = BLACK ->
  rep h2 (plug up (node s RED t1 p (node s RED i m o))) -> upd h h2 (elems (plug (Fr RED s p (node s BLACK i m o) :: up) t0)) ->
  exists h', set_color h2 p BLACK = Some h' /\
    repaired h (elems (plug (Fr RED s p (node s BLACK i m o) :: up) t1)) D
      (elems (plug (Fr RED s p (node s BLACK i m o) :: up) t0)) h' st.
Proof.
  intros [] Ci Co Hr2 Hu2. destruct g_way0 as (Hsib & _ & Hup). cbn in Hsib, Hup. apply is_rb_black_inv in Hsib as (k' & [= <-] & Hi & Ho).
  destruct g_fits0 as [Hfs Hfit]. cbn in Hfs. rewrite height_node in Hfs.
  destruct (rep_color _ _ _ _ _ _ _ BLACK Hr2) as (h3 & -> & Hr3 & Hu3). exists h3. split; [done|]. eexists. split; [exact Hr3|].
  assert (Hw : way_ok (Fr BLACK s p (node s RED i m o) :: up) k) by (split; [by apply is_rb_red|]; split; done).
  split; [|split; [|split]].
  - rewrite !elems_plug. destruct s; cbn; rewrite <- ?app_assoc; cbn; by rewrite <- ?app_assoc.
  - apply (balanced_plug up _ (S k)); [apply is_rb_black; split; [done|by apply is_rb_red]|done|by rewrite color_node| |done|cbn in g_K0; lia].
    pose proof (tight up s p _ t1 k Hw g_rb0 g_black0) as Hti. rewrite !height_node. cbn in Hti, g_K0 |- *. lia.
  - apply (stack_root _ up _ [ptr t0]). rewrite ptr_node. by rewrite names_cons, <- app_assoc in g_stack0.
  - eapply upd_trans; [exact Hu2|]. eapply upd_one; [exact Hu3|].
    change (plug (Fr RED s p ?a :: up) t0) with (plug up (node s RED t0 p a)). rewrite elem_of_plug, !elem_of_node. tauto.
Qed.

Lemma missing_black_spec fuel h st z w t0 t1 k :
  gap h st z w t0 t1 k null D -> (length w < fuel)%nat ->
  exists h' st', fix_missing_black fuel h st z null = Some (h', st') /\
    repaired h (elems (plug w t1)) D (elems (plug w t0)) h' st'.
Proof.
  revert h st z w t0 t1 k. induction fuel as [|fuel IH]; [lia|]. intros h st z w t0 t1 k G Hf. pose proof G as [].
  cbn [fix_missing_black]. destruct w as [|[cp0 s p sib0] up0].
  - subst z. cbn [length Z.of_nat Z.add Z.gtb Z.compare]. exists h, st. split; [done|]. destruct g_null0 as [(_ & _ & ?)|[_ ->]]; [done|].
    exists t0. split; [done|]. split; [done|]. split; [|split; [|done]].
    + exists k. pose proof (height_rb _ _ g_rb0) as Hh. rewrite g_black0 in Hh. cbn in g_K0. split_and!; [done|done|lia|lia].
    + by apply (stack_get_is _ [] _ []).
  - pose proof (names_length up0) as Hl0. rewrite names_cons, <- app_assoc in g_stack0. cbn [length app f_n] in *.
    rewrite Z.gtb_ltb, (proj2 (Z.ltb_lt _ _)) by lia. pose proof g_stack0 as Hs'. rewrite cons_middle, app_assoc in Hs'.
    rewrite (stack_get_is _ _ _ _ (z - 1) Hs') by (rewrite length_app; cbn; lia).
    rewrite (stack_get_is _ _ _ _ (z - 2) g_stack0) by lia. cbn [mbind option_bind].
    change (rep h (plug up0 (node s cp0 t0 p sib0))) in g_rep0. rewrite (rep_side _ _ _ _ _ _ _ g_rep0 g_ne0). cbn [mbind option_bind].
    destruct (rep_children _ _ _ _ _ _ _ g_rep0) as [_ ->]. cbn [mbind option_bind].
    destruct (blacken_spec _ _ _ _ _ _ _ _ _ _ _ G) as (h1 & st1 & z1 & cp & sib & up & -> & G1 & Cs & Har & Hcp & Hu1). cbn [mbind option_bind].
    pose proof (around_elems _ _ t0 Har) as Ea0. pose proof (around_elems _ _ t1 Har) as Ea1.
    pose proof (g_way _ _ _ _ _ _ _ _ _ G1) as (Hsib & Hred & Hup). cbn in Hsib, Hred, Hup.
    destruct (black_node sib k s Hsib Cs) as (i & m & o & -> & Hi & Ho). rewrite ptr_node.
    assert (Hrs : rep h1 (plug (Fr cp (negb s) p t0 :: up) (node s BLACK i m o))) by (rewrite <- plug_other; apply (g_rep _ _ _ _ _ _ _ _ _ G1)).
    destruct (both_black _ _ _ _ _ _ _ Hrs) as (c0 & c1 & b0 & -> & -> & Eb0 & Eb). cbn [mbind option_bind].
    rewrite Eb0. cbn [mbind option_bind]. rewrite Eb. cbn [mbind option_bind]. clear Eb0 Eb. case_bool_decide as Hb.
    + destruct Hb as [Ci Co]. destruct (missing_recolor _ _ _ _ _ _ _ _ _ _ _ _ _ G1) as (h2 & h3 & -> & E3 & Eb & Hr3 & Hu3).
      cbn [mbind option_bind]. rewrite E3. cbn [mbind option_bind]. rewrite Eb. cbn [mbind option_bind]. destruct cp.
      * rewrite bool_decide_false by done. destruct (missing_done _ _ _ _ _ _ _ _ _ _ _ _ _ G1 Ci Co Hr3 Hu3) as (h4 & -> & Hrep).
        cbn [mbind option_bind]. eexists _, _. split; [done|]. by eapply repaired_after.
      * rewrite bool_decide_true by done. rewrite (Hcp eq_refl) in *. pose proof (missing_up _ _ _ _ _ _ _ _ _ _ _ _ _ G1 Ci Co Hr3) as G2.
        destruct (IH _ _ _ _ _ _ _ G2) as (h' & st' & E' & Hrep); [lia|]. exists h', st'. split; [exact E'|].
        eapply repaired_weaken; [eapply upd_trans; [exact Hu1|rewrite Ea0 in Hu3; exact Hu3]| | |exact Hrep].
        { rewrite <- Ea1, !elems_plug. destruct s; cbn; rewrite <- ?app_assoc; cbn; by rewrite <- ?app_assoc. }
        intros y. rewrite <- Ea0. change (plug (Fr BLACK s p ?a :: up0) t0) with (plug up0 (node s BLACK t0 p a)).
        rewrite !elem_of_plug, !elem_of_node. destruct g_null0 as [(_ & -> & _)|[_ ->]]; cbn [elems]; set_solver.
    + pose proof (g_fits _ _ _ _ _ _ _ _ _ G1) as [Hfs Hfit]. cbn in Hfs. rewrite height_node in Hfs.
      pose proof (g_stack _ _ _ _ _ _ _ _ _ G1) as Hs1. rewrite names_cons, <- app_assoc in Hs1. cbn [app f_n] in Hs1.
      pose proof (g_z _ _ _ _ _ _ _ _ _ G1) as Hz1. cbn [length] in Hz1. pose proof (g_K _ _ _ _ _ _ _ _ _ G1) as HK1. cbn in HK1.
      destruct (redden_spec h1 st1 z1 cp s p i m o up t0 k (g_rep _ _ _ _ _ _ _ _ _ G1) Hs1)
        as (h2 & st2 & i' & m' & o' & -> & Hr2 & Hs2 & El2 & Hi' & Ho' & Co' & Har2 & Hhi & Hho & Hu2);
        try done; try lia; [apply (g_cap _ _ _ _ _ _ _ _ _ G1)|]. cbn [mbind option_bind].
      destruct (missing_rotate h2 st2 z1 cp s p i' m' o' up t0 t1 k Hr2 Hs2) as (h' & st' & E' & Hrep); try done; try lia; [tauto|tauto|].
      exists h', st'. split; [exact E'|]. pose proof (around_elems _ _ t0 Har2) as Eb0. pose proof (around_elems _ _ t1 Har2) as Eb1.
      eapply repaired_after; [eapply upd_trans; [exact Hu1|rewrite Ea0 in Hu2; exact Hu2]| | |exact Hrep]; congruence.
Qed.
End Missing.

(** ** A node with at most one child *)

(** What [rb_remove] leaves behind. *)
Definition removed (h : rbheap) (l L : list Z) (h' : rbheap) (T' : rbtree) : Prop :=
  exists t, rep h' t /\ rb_root T' = ptr t /\ elems t = l /\ 0 <= max_depth T' /\ balanced t (Z.to_nat (max_depth T')) /\ upd h h' L.

Lemma rep_sub h w s c u x e : rep h (plug w (node s c u x e)) -> rep h u.
Proof.
  intros [Hh Hnd]. apply holds_plug in Hh as [_ Hh]. apply holds_node in Hh. apply NoDup_plug in Hnd as (_ & Hnd & _).
  apply NoDup_node in Hnd. split; tauto.
Qed.

Lemma one_child h w s c u x :
  rep h (plug w (node s c u x E)) ->
  (c0 ← get_child h x false; if c0 =? 0 then get_child h x true else Some c0) = Some (ptr u).
Proof.
  intros Hr. pose proof (rep_children _ _ _ _ _ _ _ Hr) as [E1 E2]. destruct s; cbn [negb] in *.
  - by rewrite E2.
  - rewrite E1. cbn [mbind option_bind]. destruct (Z.eqb_spec (ptr u) 0) as [E0|]; [|done]. by rewrite E2, E0.
Qed.

(** An only child is red, and its parent black. *)
Lemma only_child s c u x k : is_rb (node s c u x E) k -> u <> E -> is_rb u 0 /\ color u = RED /\ c = BLACK /\ k = 1%nat.
Proof.
  intros Hk Hu. destruct c.
  - apply is_rb_red in Hk as ((Cu & _) & Hu' & He). cbn in He. subst k. destruct u as [|[] ? ? ?]; done.
  - apply is_rb_black_inv in Hk as (k' & -> & Hu' & He). cbn in He. subst k'. destruct u as [|[] ? ? ?]; done.
Qed.

Section RemoveNode.
Context (h : rbheap) (T : rbtree) (st : rbstack) (w : way) (s : bool) (c : rb_color) (u : tree) (x : Z) (D : nat).
Hypothesis (Hr : rep h (plug w (node s c u x E))) (Hbal : balanced (plug w (node s c u x E)) D).
Hypothesis (Hs : stack_is st (names w ++ [x])) (Hcap : length st = S D) (HD : max_depth T = Z.of_nat D).

(** Taking the child into the place of the node. *)
Lemma splice f up :
  w = f :: up ->
  exists h', set_child h (f_n f) (f_s f) (ptr u) = Some h' /\ rep h' (plug w u) /\ upd h h' [f_n f].
Proof using Hr.
  clear Hbal Hs HD. intros ->. destruct f as [cf sf p e]. apply (rep_child h up sf cf (node s c u x E)); [exact Hr|by eapply rep_sub|].
  destruct Hr as [_ Hnd]. change (NoDup (elems (plug (Fr cf sf p e :: up) u))). apply NoDup_plug in Hnd as (H1 & H2 & H3). apply NoDup_plug.
  apply NoDup_node in H2. setoid_rewrite elem_of_node in H3. split; [done|]. split; [tauto|]. intros z Hz. apply H3. tauto.
Qed.

Lemma drop_root : w = [] ->
  exists h' T', remove_node h T st 1 x = Some (h', T') /\
    removed h (elems (plug w u)) (elems (plug w (node s c u x E))) h' T'.
Proof using Hr Hbal HD.
  clear Hs Hcap. intros ->. unfold remove_node. pose proof (one_child _ _ _ _ _ _ Hr) as E1. destruct (get_child h x false) as [c0|]; [|done].
  cbn [mbind option_bind] in *. rewrite E1. cbn [mbind option_bind Z.ltb Z.compare]. clear E1. destruct Hbal as (k & Hk & Ck & Hh & HK).
  cbn in Hk, Ck, Hh. rewrite color_node in Ck. subst c. pose proof (rep_sub _ _ _ _ _ _ _ Hr) as Hru.
  assert (u = E \/ u <> E) as [->|Hu] by (destruct u; [by left|by right]).
  - cbn [ptr Z.eqb negb]. eexists _, _. split; [done|]. exists E. cbn. split; [done|]. split_and!; [done|done|lia| |done].
    exists O. cbn. split_and!; (done || lia).
  - rewrite (rep_ptr h [] u Hru Hu). cbn [negb]. destruct (only_child _ _ _ _ _ Hk Hu) as (Hu0 & Cu & _ & ->).
    destruct (red_node u 0 false Hu0 Cu) as (a & n & b & -> & Ca & Cb & Ha & Hb).
    destruct (rep_color h [] _ _ _ _ _ BLACK Hru) as (h1 & E1 & Hr1 & Hu1). rewrite ptr_node, E1. cbn [mbind option_bind].
    eexists _, _. split; [done|]. eexists. split; [exact Hr1|]. cbn [plug foldl rb_root with_root max_depth]. rewrite HD, Nat2Z.id, !height_node in *.
    split_and!; [done|done|lia| |].
    + exists 1%nat. split; [by apply is_rb_black|]. split; [done|]. cbn. cbn in Hh. lia.
    + eapply upd_one; [exact Hu1|]. rewrite !elem_of_node. tauto.
Qed.

Lemma drop_below f up : w = f :: up ->
  exists h' T', remove_node h T st (Z.of_nat (length w) + 1) x = Some (h', T') /\
    removed h (elems (plug w u)) (elems (plug w (node s c u x E))) h' T'.
Proof using All.
  intros Ew. pose proof (splice f up Ew) as (h1 & E1 & Hr1 & Hu1). subst w. pose proof (names_length up) as Hl.
  rewrite names_cons, <- app_assoc in Hs. cbn [length app] in *. unfold remove_node.
  pose proof (one_child _ _ _ _ _ _ Hr) as Eu. destruct (get_child h x false) as [c0|]; [|done].
  cbn [mbind option_bind] in *. rewrite Eu. cbn [mbind option_bind]. clear Eu. rewrite (proj2 (Z.ltb_ge _ _)) by lia.
  rewrite (stack_get_is _ _ _ _ (_ + 1 - 2) Hs) by lia. cbn [mbind option_bind].
  assert (Hp : f_n f ∈ elems (plug (f :: up) (node s c u x E))) by (apply elem_of_plug; left; cbn; set_solver).
  pose proof (rep_is_black h _ _ Hr ltac:(by destruct s)) as Ebx. rewrite ptr_node, color_node in Ebx.
  assert (Eside : get_side h (f_n f) x = Some (f_s f)).
  { pose proof (rep_side h up (f_s f) (f_c f) (node s c u x E) (f_n f) (f_t f)) as Es. rewrite ptr_node in Es. destruct f. apply Es; [exact Hr|by destruct s]. }
  apply balanced_plug_inv in Hbal as (k & Hk & Hw & Hct & Hh & Hfit & HK). rewrite color_node, height_node in *.
  assert (Hnx : x ∉ welems (f :: up)).
  { destruct Hr as [_ Hnd]. apply NoDup_plug in Hnd as (_ & _ & Hd). apply Hd. apply elem_of_node. tauto. }
  assert (Hfin : forall h2 st2, repaired h (elems (plug (f :: up) u)) D (elems (plug (f :: up) (node s c u x E))) h2 st2 ->
     exists h' T', (root ← stack_get st2 0; Some (h2, with_root root T)) = Some (h', T') /\
       removed h (elems (plug (f :: up) u)) (elems (plug (f :: up) (node s c u x E))) h' T').
  { intros h2 st2 (t & Hrt & Et & Hbt & Ert & Hut). rewrite Ert. cbn [mbind option_bind]. eexists _, _. split; [done|]. exists t.
    cbn. rewrite HD, Nat2Z.id. split_and!; (done || lia). }
  assert (Hroot : forall t1, stack_get st 0 = Some (ptr (plug (f :: up) t1))).
  { intros t1. change (plug (f :: up) t1) with (plug up (fill f t1)). apply (stack_root _ up _ [x]). unfold fill. by rewrite ptr_node. }
  assert (u = E \/ u <> E) as [->|Hu] by (destruct u; [by left|by right]).
  - cbn [ptr Z.eqb] in *. rewrite Ebx. cbn [mbind option_bind]. destruct c.
    + rewrite bool_decide_false by done. rewrite Eside. cbn [mbind option_bind]. rewrite E1. cbn [mbind option_bind]. apply Hfin.
      apply is_rb_red in Hk as (_ & Hk & _). cbn in Hk; subst k. exists (plug (f :: up) E). split; [done|]. split; [done|]. split; [|split; [apply Hroot|by eapply upd_one]].
      apply (balanced_plug _ _ 0); try done. cbn in Hh |- *. lia.
    + rewrite bool_decide_true by done. apply is_rb_black_inv in Hk as (k' & -> & Hk & _). cbn in Hk; subst k'.
      assert (Enode : node s BLACK E x E = N BLACK E x E) by (by destruct s). rewrite Enode in *.
      destruct (missing_black_spec x D (S (Z.to_nat (Z.of_nat (S (length up)) + 1))) h st (Z.of_nat (S (length up)) + 1) (f :: up) (N BLACK E x E) E 0)
        as (h' & st' & -> & Hrep); [|cbn [length]; lia|cbn [mbind option_bind]; by apply Hfin].
      split; try done; [by left|by rewrite names_cons, <- app_assoc].
  - rewrite (rep_ptr _ _ _ Hr1 Hu), Eside. cbn [mbind option_bind]. rewrite E1. cbn [mbind option_bind].
    destruct (only_child _ _ _ _ _ Hk Hu) as (Hu0 & Cu & -> & ->).
    assert (Eb : is_black h1 x = is_black h x).
    { unfold is_black, get_color. rewrite (upd_out _ _ _ Hu1); [done|]. intros ->%list_elem_of_singleton. apply Hnx. cbn. set_solver. }
    rewrite Eb, Ebx. cbn [mbind option_bind]. rewrite (rep_is_black _ _ _ Hr1 Hu), Cu. cbn [mbind option_bind].
    rewrite bool_decide_true, bool_decide_false by done. cbn [negb orb].
    destruct (red_node u 0 false Hu0 Cu) as (a & n & b & -> & Ca & Cb & Ha & Hb).
    destruct (rep_color _ _ _ _ _ _ _ BLACK Hr1) as (h2 & E2 & Hr2 & Hu2). rewrite ptr_node, E2. cbn [mbind option_bind]. apply Hfin.
    eexists. split; [exact Hr2|]. split; [apply elems_plug_eq, elems_color|]. split; [|split; [apply Hroot|]].
    + apply (balanced_plug _ _ 1); [by apply is_rb_black|done|done| |done|done]. rewrite height_node in *. cbn [height] in Hh. lia.
    + eapply upd_trans; eapply upd_one; [exact Hu1|done|exact Hu2|]. rewrite elem_of_plug, !elem_of_node. tauto.
Qed.

Lemma remove_node_spec :
  exists h' T', remove_node h T st (Z.of_nat (length w) + 1) x = Some (h', T') /\
    removed h (elems (plug w u)) (elems (plug w (node s c u x E))) h' T'.
Proof using All.
  assert (w = [] \/ exists f up, w = f :: up) as [Ew|(f & up & Ew)] by (destruct w; [by left|right; eauto]).
  - pose proof (drop_root Ew) as Hd. by rewrite Ew in *.
  - by apply (drop_below f up).
Qed.
End RemoveNode.

(** ** A node with two children *)

Lemma plug_app w1 w2 t : plug (w1 ++ w2) t = plug w2 (plug w1 t).
Proof. apply foldl_app. Qed.

Lemma names_app w1 w2 : names (w1 ++ w2) = names w2 ++ names w1.
Proof. unfold names. by rewrite fmap_app, reverse_app. Qed.

Lemma rightmost_spec fuel h st z w t :
  rep h (plug w t) -> t <> E -> stack_is st (names w ++ [ptr t]) -> z = Z.of_nat (length w) + 1 ->
  (height t + length w <= length st)%nat -> (height t <= fuel)%nat ->
  exists wl c l y st', rightmost_loop fuel h st z (ptr t) = Some (st', Z.of_nat (length (wl ++ w)) + 1, y) /\
    t = plug wl (N c l y E) /\ Forall (fun f => f_s f = true) wl /\ stack_is st' (names (wl ++ w) ++ [y]) /\ length st' = length st.
Proof.
  revert st z w t. induction fuel as [|fuel IH]; intros st z w t Hr Ht Hs -> Hl Hf; [destruct t; cbn in Hf; [done|lia]|].
  destruct t as [|c l n r]; [done|]. cbn [rightmost_loop ptr] in *. change (N c l n r) with (node true c r n l) in Hr.
  destruct (rep_children _ _ _ _ _ _ _ Hr) as [-> _]. cbn [mbind option_bind]. pose proof (names_length w) as Hn.
  assert (r = E \/ r <> E) as [->|Hre] by (destruct r; [by left|by right]).
  - cbn [ptr Z.eqb negb]. exists [], c, l, n, st. by split_and!.
  - assert (Hr1 : rep h (plug (Fr c true n l :: w) r)) by exact Hr. rewrite (rep_ptr _ _ _ Hr1 Hre). cbn [negb].
    cbn [height] in *. assert (1 <= height r)%nat by (destruct r; [done|cbn; lia]).
    destruct (stack_push_is _ _ (Z.of_nat (length w) + 1) (ptr r) Hs) as (st1 & -> & El1 & Hs1); [rewrite length_app; cbn; lia|rewrite length_app; cbn; lia|].
    cbn [mbind option_bind]. destruct (IH st1 (Z.of_nat (length w) + 1 + 1) (Fr c true n l :: w) r Hr1 Hre) as (wl & c' & l' & y & st' & E' & -> & Hw & Hs' & El');
      [by rewrite names_cons|cbn [length]; lia|cbn [length]; lia|lia|].
    exists (wl ++ [Fr c true n l]), c', l', y, st'. rewrite <- !app_assoc. cbn [app]. split; [exact E'|]. rewrite plug_app. split; [done|].
    split; [apply Forall_app; split; [done|by repeat constructor]|]. split; [done|congruence].
Qed.

(** Balance does not depend on the addresses. *)
Definition shape (w : way) : list (rb_color * tree) := (fun f => (f_c f, f_t f)) <$> w.

Lemma shape_ok w w' k D :
  shape w = shape w' -> (way_ok w k -> way_ok w' k) /\ blacks w' = blacks w /\ length w' = length w /\ (fits D w -> fits D w') /\ top w' = top w.
Proof.
  revert w' k. induction w as [|[c s n u] w IH]; intros [|[c' s' n' u'] w'] k; try done. intros [= <- <- Eq]. cbn.
  destruct (IH w' (match c with RED => k | BLACK => S k end) Eq) as (H1 & -> & -> & H2 & ->). tauto.
Qed.

Lemma balanced_shape w w' c l x y e D :
  shape w = shape w' -> balanced (plug w (N c l x e)) D -> balanced (plug w' (N c l y e)) D.
Proof.
  intros Eq (k & Ht & Hw & Hc & Hh & Hf & HK)%balanced_plug_inv. destruct (shape_ok w w' k D Eq) as (H1 & Eb & El & H2 & Et).
  apply (balanced_plug w' _ k); rewrite ?Eb, ?El, ?Et; auto.
Qed.

Lemma balanced_swap w wl c c2 l2 x y r D :
  balanced (plug w (N c (plug wl (N c2 l2 y E)) x r)) D -> balanced (plug w (N c (plug wl (N c2 l2 x E)) y r)) D.
Proof.
  change (plug w (N c (plug wl ?t) ?n r)) with (plug w (plug [Fr c false n r] (plug wl t))). rewrite <- !plug_app.
  apply balanced_shape. unfold shape. by rewrite !fmap_app.
Qed.

Lemma holds_way_upd h h' l w q : upd h h' l -> (forall z, z ∈ welems w -> z ∉ l) -> holds_way h w q -> holds_way h' w q.
Proof.
  intros Hu. revert q. induction w as [|f w IH]; intros q; [done|]. cbn [welems holds_way]. setoid_rewrite elem_of_cons. setoid_rewrite elem_of_app.
  intros Hd (? & Hn & Ht & Hw). split_and!; [tauto|tauto| |eapply holds_upd; [exact Hu| |done]|apply IH; [|done]]; try (intros z Hz; apply Hd; tauto).
  rewrite (upd_out _ _ _ Hu); [done|]. apply Hd. tauto.
Qed.

Lemma ptr_plug w t t' : w <> [] -> ptr (plug w t) = ptr (plug w t').
Proof.
  revert t t'. induction w as [|f w IH]; intros t t' Hw; [done|]. change (plug (f :: w) ?u) with (plug w (fill f u)).
  destruct w as [|g w]; [cbn; unfold fill; by rewrite !ptr_node|by apply IH].
Qed.

(** The tree after the swap, from the structures the code has written. *)
Lemma swap_rep h h' w wl c c2 l2 x y r :
  rep h (plug w (N c (plug wl (N c2 l2 y E)) x r)) ->
  h' !! x = Some (cell c2 false (ptr l2) 0) -> h' !! y = Some (cell c false (ptr (plug wl (N c2 l2 x E))) (ptr r)) ->
  upd (hook wl x (hook w y h)) h' [x; y] ->
  holds h' (plug w (N c (plug wl (N c2 l2 x E)) y r)) /\ upd h h' (elems (plug w (N c (plug wl (N c2 l2 y E)) x r))).
Proof.
  intros [Hh Hnd] Ex Ey Hu. apply holds_plug in Hh as [Hw Ht]. cbn [ptr] in Hw. destruct Ht as (Hx & _ & Hl & Hrr). apply holds_plug in Hl as [Hwl Hy].
  destruct Hy as (Hy & _ & Hl2 & _). apply NoDup_plug in Hnd as (Hnw & Hnd & Hd). change (N c ?a x r) with (node false c a x r) in Hnd, Hd.
  apply NoDup_node in Hnd as (Hnl & _ & Hxl & Hxr & Hlr). apply NoDup_plug in Hnl as (Hnwl & Hny & Hdl).
  change (N c2 l2 y E) with (node false c2 l2 y E) in Hny, Hdl, Hxl, Hlr, Hd |- *. apply NoDup_node in Hny as (_ & _ & Hyl2 & _ & _).
  setoid_rewrite elem_of_node in Hdl. rewrite elem_of_plug, elem_of_node in Hxl. setoid_rewrite elem_of_plug in Hlr. setoid_rewrite elem_of_node in Hlr.
  setoid_rewrite elem_of_node in Hd. setoid_rewrite elem_of_plug in Hd. setoid_rewrite elem_of_node in Hd.
  assert (Hu1 : upd h (hook w y h) (welems w)) by (by apply upd_hook). assert (Hu2 : upd (hook w y h) (hook wl x (hook w y h)) (welems wl)) by (by apply upd_hook).
  assert (Hxy : forall z (l : list Z), (x ∉ l) -> (y ∉ l) -> z ∈ l -> z ∉ [x; y]) by (clear; intros z l ? ? ?; rewrite !elem_of_cons, elem_of_nil; intros [->|[->|[]]]; done).
  assert (Dw : forall z, z ∈ welems w -> z ∉ [x; y]) by (intros z; apply Hxy; apply Hd; tauto).
  assert (Dwl : forall z, z ∈ welems wl -> z ∉ [x; y]) by (intros z; apply Hxy; [tauto|apply Hdl; tauto]).
  assert (Dl2 : forall z, z ∈ elems l2 -> z ∉ [x; y]) by (intros z; apply Hxy; tauto).
  assert (Dr : forall z, z ∈ elems r -> z ∉ [x; y]) by (intros z; apply Hxy; [done|apply Hlr; tauto]).
  assert (Dwwl : forall z, z ∈ welems w -> z ∉ welems wl) by (intros z Hz Hz'; apply (Hd z); tauto).
  split.
  - apply holds_plug. cbn [ptr]. split.
    { eapply holds_way_upd; [exact Hu|done|]. eapply holds_way_upd; [exact Hu2|done|]. by eapply holds_way_hook. }
    split; [done|]. split; [done|]. split.
    + apply holds_plug. split.
      { eapply holds_way_upd; [exact Hu|done|]. eapply holds_way_hook; [|done]. eapply holds_way_upd; [exact Hu1|intros z Hz; apply Hd; tauto|done]. }
      split; [done|]. split; [done|]. split; [|done]. eapply holds_upd; [exact Hu|done|]. eapply holds_upd; [exact Hu2|intros z Hz; apply Hdl; tauto|].
      eapply holds_upd; [exact Hu1|intros z Hz; apply Hd; tauto|done].
    + eapply holds_upd; [exact Hu|done|]. eapply holds_upd; [exact Hu2|intros z Hz Hz'; apply (Hlr z); tauto|].
      eapply holds_upd; [exact Hu1|intros z Hz; apply Hd; tauto|done].
  - change (N c ?a x r) with (node false c a x r).
    eapply upd_trans; [eapply upd_weaken; [exact Hu1|]|eapply upd_trans; [eapply upd_weaken; [exact Hu2|]|eapply upd_weaken; [exact Hu|]]];
      intros z; rewrite elem_of_plug, elem_of_node, elem_of_plug, elem_of_node; rewrite ?elem_of_cons, ?elem_of_nil; tauto.
Qed.

Section Swap.
Context (h : rbheap) (w wl : way) (c c2 : rb_color) (l2 r : tree) (x y : Z).
Let l := plug wl (N c2 l2 y E).
Let h2 := hook wl x (hook w y h).
Let L := ptr (plug wl (N c2 l2 x E)).
Hypothesis (Hr : rep h (plug w (N c l x r))).

Lemma swap_facts :
  h2 !! x = Some (cell c false (ptr l) (ptr r)) /\ h2 !! y = Some (cell c2 false (ptr l2) 0) /\
  hook w y h !! x = Some (cell c false (ptr l) (ptr r)) /\ hook w y h !! y = Some (cell c2 false (ptr l2) 0) /\ x <> y /\
  (x ∉ welems w) /\ (x ∉ welems wl) /\ (y ∉ welems w) /\ (y ∉ welems wl) /\
  aligned (ptr l) /\ aligned (ptr r) /\ aligned (ptr l2) /\ aligned x /\ aligned y /\ aligned L.
Proof using Hr.
  destruct (rep_node h w false c l x r Hr) as (Hx & Al & Ar & _).
  assert (Hry : rep h (plug (wl ++ Fr c false x r :: w) (node false c2 l2 y E))) by (rewrite plug_app; exact Hr).
  destruct (rep_node _ _ _ _ _ _ _ Hry) as (Hy & Al2 & _).
  destruct Hr as [Hh Hnd]. apply holds_plug in Hh as [_ ((_ & Ax) & _ & Hl & _)]. unfold l in Hl. apply holds_plug in Hl as [Hwl ((_ & Ay) & _)].
  apply NoDup_plug in Hnd as (_ & Hnd & Hd). change (N c l x r) with (node false c l x r) in Hnd, Hd. apply NoDup_node in Hnd as (Hndl & _ & Hxl & _).
  unfold l in Hndl, Hxl. apply NoDup_plug in Hndl as (_ & _ & Hdl). change (N c2 l2 y E) with (node false c2 l2 y E) in Hdl, Hxl.
  rewrite elem_of_plug, elem_of_node in Hxl. setoid_rewrite elem_of_node in Hdl.
  assert (Hxw : x ∉ welems w) by (apply Hd, elem_of_node; tauto).
  assert (Hyw : y ∉ welems w).
  { apply Hd, elem_of_node. right. left. unfold l. apply elem_of_plug. right. change (N c2 l2 y E) with (node false c2 l2 y E). apply elem_of_node. tauto. }
  assert (Hyl : y ∉ welems wl) by (apply Hdl; tauto). assert (Hxwl : x ∉ welems wl) by tauto. unfold h2. rewrite !lookup_hook by done.
  split_and!; try done; [tauto|]. unfold L. destruct wl as [|f wl']; [done|]. rewrite (ptr_plug _ _ (N c2 l2 y E)) by done. exact Al.
Qed.

(** The pointer above goes to the new top, *)
Lemma swap_high T st z :
  stack_is st (names w ++ [x]) -> z = Z.of_nat (length w) + 1 ->
  exists hiparent T', max_depth T' = max_depth T /\ (if z >? 1 then stack_get st (z - 2) else Some 0) = Some hiparent /\
    (if negb (hiparent =? 0) then
       side ← get_side h hiparent x;
       h ← set_child h hiparent side y;
       Some (h, T)
     else Some (h, with_root y T)) = Some (hook w y h, T').
Proof using Hr.
  intros Hs ->. destruct w as [|[cf sf p e] up] eqn:Ew.
  - exists 0, (with_root y T). by split.
  - exists p, T. split; [done|]. rewrite names_cons, <- app_assoc in Hs. cbn [length]. rewrite Z.gtb_ltb, (proj2 (Z.ltb_lt _ _)) by lia.
    rewrite (stack_get_is _ _ _ _ (_ - 2) Hs) by (rewrite names_length; lia). cbn [f_n]. split; [done|].
    change (rep h (plug up (node sf cf (N c l x r) p e))) in Hr. destruct (rep_node _ _ _ _ _ _ _ Hr) as (Hp & Ax & Ae & Hp0 & _).
    rewrite (proj2 (Z.eqb_neq p 0) Hp0). cbn [negb]. pose proof (rep_side _ _ _ _ _ _ _ Hr ltac:(done)) as Es. cbn [ptr] in Es.
    rewrite Es. cbn [mbind option_bind]. by rewrite (set_child_same _ _ _ _ _ _ Hp Ax).
Qed.

(** the one below to the node that goes down, and the two exchange their children. *)
Lemma swap_low lo :
  Forall (fun f => f_s f = true) wl -> last (names (wl ++ Fr c false x r :: w)) = Some lo ->
  (if lo =? x then
     l2 ← get_child (hook w y h) y false;
     h ← set_child (hook w y h) x false l2;
     set_child h y false x
   else
     side ← get_side (hook w y h) lo y;
     h ← set_child (hook w y h) lo side x;
     tmp ← get_child h x false;
     l2 ← get_child h y false;
     h ← set_child h x false l2;
     set_child h y false tmp) = Some (<[y := cell c2 false L 0]> (<[x := cell c false (ptr l2) (ptr r)]> h2)).
Proof using Hr.
  intros Hsides Hlo. destruct swap_facts as (Hx2 & Hy2 & Hx & Hy & Hxy & Hxw & Hxwl & Hyw & Hywl & Al & Ar & Al2 & Ax & Ay & AL).
  rewrite names_app, names_cons in Hlo. destruct wl as [|[cg sg g u] wl'] eqn:Ewl.
  - change (names []) with (@nil Z) in Hlo. rewrite app_nil_r, last_snoc in Hlo. injection Hlo as <-. cbn [f_n]. rewrite Z.eqb_refl.
    rewrite (get_child_same _ _ _ _ _ _ Hy Al2). cbn [mbind option_bind]. rewrite (set_child_same _ _ _ _ _ _ Hx Al). cbn [mbind option_bind].
    rewrite <- (lookup_insert_ne _ x y (cell c false (ptr l2) (ptr r))) in Hy by done. by rewrite (set_child_same _ _ _ _ _ _ Hy Al2).
  - rewrite names_cons, app_assoc, last_snoc in Hlo. injection Hlo as <-. cbn [f_n]. apply Forall_cons in Hsides as [Hsg _]. cbn in Hsg. subst sg.
    rewrite (proj2 (Z.eqb_neq g x)) by (intros ->; apply Hxwl; cbn; set_solver).
    assert (Hrg : rep h (plug (wl' ++ Fr c false x r :: w) (node true cg (N c2 l2 y E) g u))).
    { rewrite plug_app. exact Hr. }
    destruct (rep_node _ _ _ _ _ _ _ Hrg) as (Hg & _ & Au & _). cbn [ptr] in Hg.
    assert (Hgw : g ∉ welems w).
    { destruct Hr as [_ Hnd]. apply NoDup_plug in Hnd as (_ & _ & Hd). apply Hd. change (N c l x r) with (node false c l x r). apply elem_of_node. right. left.
      unfold l. apply elem_of_plug. left. cbn. set_solver. }
    rewrite <- (lookup_hook h w y g Hgw) in Hg. rewrite (get_side_same _ _ _ _ _ _ Hg Ay Au) by done. cbn [mbind option_bind].
    rewrite (set_child_same _ _ _ _ _ _ Hg Ay). cbn [mbind option_bind].
    change (<[g := cell cg true x (ptr u)]> (hook w y h)) with h2.
    rewrite (get_child_same _ _ _ _ _ _ Hx2 Al). cbn [mbind option_bind]. rewrite (get_child_same _ _ _ _ _ _ Hy2 Al2). cbn [mbind option_bind].
    rewrite (set_child_same _ _ _ _ _ _ Hx2 Al). cbn [mbind option_bind].
    rewrite <- (lookup_insert_ne _ x y (cell c false (ptr l2) (ptr r))) in Hy2 by done. rewrite (set_child_same _ _ _ _ _ _ Hy2 Al2).
    do 2 f_equal. unfold L, l. by rewrite (ptr_plug _ _ (N c2 l2 x E)) by done.
Qed.

(** The rest of the exchange. *)
Lemma swap_rest :
  let h4 := <[y := cell c2 false L 0]> (<[x := cell c false (ptr l2) (ptr r)]> h2) in
  exists h5 h6 h7 h8, get_child h4 x true = Some (ptr r) /\ set_child h4 y true (ptr r) = Some h5 /\ set_child h5 x true 0 = Some h6 /\
    get_color h6 x = Some c /\ get_color h6 y = Some c2 /\ set_color h6 x c2 = Some h7 /\ set_color h7 y c = Some h8 /\
    h8 !! x = Some (cell c2 false (ptr l2) 0) /\ h8 !! y = Some (cell c false L (ptr r)) /\ upd h2 h8 [x; y].
Proof using Hr.
  intros h4. destruct swap_facts as (_ & _ & _ & _ & Hxy & _ & _ & _ & _ & Al & Ar & Al2 & Ax & Ay & AL).
  assert (H4x : h4 !! x = Some (cell c false (ptr l2) (ptr r))) by (unfold h4; by rewrite lookup_insert_ne, lookup_insert_eq).
  assert (H4y : h4 !! y = Some (cell c2 false L 0)) by (apply lookup_insert_eq).
  set (h5 := <[y := cell c2 false L (ptr r)]> h4). set (h6 := <[x := cell c false (ptr l2) 0]> h5).
  assert (H5x : h5 !! x = Some (cell c false (ptr l2) (ptr r))) by (unfold h5; by rewrite lookup_insert_ne).
  assert (H6x : h6 !! x = Some (cell c false (ptr l2) 0)) by apply lookup_insert_eq.
  assert (H6y : h6 !! y = Some (cell c2 false L (ptr r))) by (unfold h6, h5; by rewrite lookup_insert_ne, lookup_insert_eq).
  set (h7 := <[x := cell c2 false (ptr l2) 0]> h6).
  assert (H7y : h7 !! y = Some (cell c2 false L (ptr r))) by (unfold h7; by rewrite lookup_insert_ne).
  assert (A0 : aligned 0) by done. exists h5, h6, h7, (<[y := cell c false L (ptr r)]> h7). split_and!.
  - by apply (get_child_other _ _ _ _ _ _ H4x).
  - by apply (set_child_other _ _ _ _ _ _ H4y).
  - by apply (set_child_other _ _ _ _ _ _ H5x).
  - by apply (get_color_cell _ _ _ _ _ _ H6x).
  - by apply (get_color_cell _ _ _ _ _ _ H6y).
  - by apply (set_color_cell _ _ _ _ _ _ H6x).
  - by apply (set_color_cell _ _ _ _ _ _ H7y).
  - rewrite lookup_insert_ne by done. apply lookup_insert_eq.
  - apply lookup_insert_eq.
  - unfold h7, h6, h5, h4. repeat (eapply upd_trans; [|apply upd_insert; set_solver]). apply upd_refl.
Qed.
End Swap.

Lemma after_right wl : Forall (fun f => f_s f = true) wl -> after wl = [].
Proof. induction 1 as [|f wl Hf _ IH]; [done|]. cbn. by rewrite Hf, IH. Qed.

(** The order of the nodes around the swap. *)
Lemma swap_elems w wl c c2 l2 x y r :
  Forall (fun f => f_s f = true) wl ->
  exists a b, elems (plug w (N c (plug wl (N c2 l2 y E)) x r)) = a ++ y :: x :: b /\
    elems (plug (wl ++ Fr c false y r :: w) (N c2 l2 x E)) = a ++ x :: y :: b /\
    elems (plug (wl ++ Fr c false y r :: w) l2) = a ++ y :: b.
Proof.
  intros Hs. exists (before w ++ before wl ++ elems l2), (elems r ++ after w).
  rewrite plug_app. change (plug (Fr c false y r :: w) ?t) with (plug w (N c t y r)).
  assert (Ep : forall t, elems (plug wl t) = before wl ++ elems t) by (intros t; by rewrite elems_plug, (after_right wl Hs), app_nil_r).
  rewrite !plug_app. change (plug (Fr c false y r :: w) ?t) with (plug w (N c t y r)). rewrite !elems_plug. cbn [elems]. rewrite !Ep. cbn [elems].
  split_and!; by repeat (rewrite <- app_assoc; cbn [app]).
Qed.

(** The two exchange their places in the array. *)
Lemma swap_stack st w wl c x y r :
  stack_is st (names (wl ++ Fr c false x r :: w) ++ [y]) ->
  let z := Z.of_nat (length (wl ++ Fr c false x r :: w)) + 1 in
  exists st1 st2, stack_get st (Z.of_nat (length w) + 1 - 1) = Some x /\ stack_get st (z - 1) = Some y /\
    stack_set st (Z.of_nat (length w) + 1 - 1) y = Some st1 /\ stack_set st1 (z - 1) x = Some st2 /\ length st2 = length st /\
    stack_is st2 (names (wl ++ Fr c false y r :: w) ++ [x]).
Proof.
  intros Hs z. assert (Ez : z = Z.of_nat (length wl) + Z.of_nat (length w) + 2) by (unfold z; rewrite length_app; cbn; lia).
  clearbody z. rewrite names_app, names_cons in *. cbn [f_n] in *. pose proof (names_length w). pose proof (names_length wl).
  pose proof Hs as Hs1. rewrite <- !app_assoc in Hs1. cbn [app] in Hs1.
  destruct (stack_set_is _ _ _ _ (Z.of_nat (length w) + 1 - 1) y Hs1) as (st1 & E1 & El1 & Hs2); [lia|].
  assert (Hs2' : stack_is st1 (((names w ++ [y]) ++ names wl) ++ [y])) by (by rewrite <- !app_assoc).
  destruct (stack_set_is _ _ _ _ (z - 1) x Hs2') as (st2 & E2 & El2 & Hs3); [rewrite !length_app; cbn; lia|].
  exists st1, st2. split; [apply (stack_get_is _ _ _ _ _ Hs1); lia|]. split; [apply (stack_get_is _ _ _ _ _ Hs); rewrite !length_app; cbn; lia|].
  split; [done|]. split; [done|]. split; [congruence|done].
Qed.

Lemma swap_down_spec h T st w c l x r D :
  rep h (plug w (N c l x r)) -> l <> E -> stack_is st (names w ++ [x]) -> length st = S D -> balanced (plug w (N c l x r)) D ->
  exists h' T' st' wl c2 l2 y, let w' := wl ++ Fr c false y r :: w in
    swap_down h T st (Z.of_nat (length w) + 1) x = Some (h', T', st', Z.of_nat (length w') + 1) /\ max_depth T' = max_depth T /\
    rep h' (plug w' (N c2 l2 x E)) /\ balanced (plug w' (N c2 l2 x E)) D /\
    stack_is st' (names w' ++ [x]) /\ length st' = S D /\ upd h h' (elems (plug w (N c l x r))) /\
    exists a b, elems (plug w (N c l x r)) = a ++ y :: x :: b /\ elems (plug w' (N c2 l2 x E)) = a ++ x :: y :: b /\
      elems (plug w' l2) = a ++ y :: b.
Proof.
  intros Hr Hle Hs Hcap Hbal. pose proof (names_length w) as Hn. unfold swap_down.
  destruct (rep_children h w false c l x r Hr) as [-> _]. cbn [mbind option_bind].
  pose proof Hbal as (K & _ & _ & Hh & _). apply height_plug in Hh as [Hh _]. cbn [height] in Hh.
  assert (1 <= height l)%nat by (destruct l; [done|cbn; lia]).
  destruct (stack_push_is st _ (Z.of_nat (length w) + 1) (ptr l) Hs) as (st1 & Est1 & El1 & Hs1); [rewrite length_app; cbn; lia|rewrite length_app; cbn; lia|].
  destruct (rightmost_spec (S (length st1)) h st1 (Z.of_nat (length w) + 1 + 1) (Fr c false x r :: w) l Hr Hle)
    as (wl & c2 & l2 & y & st2 & E2 & -> & Hsides & Hs2 & El2); [by rewrite names_cons|cbn [length]; lia|cbn [length]; lia|lia|].
  destruct (swap_high h w wl c c2 l2 r x y Hr T st _ Hs eq_refl) as (hp & T' & HT' & -> & Ehigh). cbn [mbind option_bind].
  rewrite Est1. cbn [mbind option_bind]. rewrite E2. cbn [mbind option_bind].
  assert (exists pre lo, names (wl ++ Fr c false x r :: w) = pre ++ [lo]) as (pre & lo & Epre).
  { destruct (names (wl ++ Fr c false x r :: w)) as [|v vs] eqn:En using rev_ind; [|by eauto].
    apply (f_equal length) in En. rewrite names_length, length_app in En. cbn in En. lia. }
  assert (Elo : last (names (wl ++ Fr c false x r :: w)) = Some lo) by (by rewrite Epre, last_snoc).
  assert (Elen : length (wl ++ Fr c false x r :: w) = S (length pre)).
  { apply (f_equal length) in Epre. rewrite names_length, (length_app pre) in Epre. cbn in Epre. lia. }
  pose proof Hs2 as Hs3. rewrite Epre, <- app_assoc in Hs3.
  rewrite (stack_get_is _ _ _ _ (_ + 1 - 2) Hs3) by lia. cbn [mbind option_bind]. rewrite Ehigh. cbn [mbind option_bind].
  rewrite (swap_low h w wl c c2 l2 r x y Hr lo Hsides Elo). cbn [mbind option_bind].
  destruct (swap_rest h w wl c c2 l2 r x y Hr) as (h5 & h6 & h7 & h8 & -> & E5 & E6 & Ec1 & Ec2 & E7 & E8 & H8x & H8y & Hu8).
  cbn [mbind option_bind]. rewrite E5. cbn [mbind option_bind]. rewrite E6. cbn [mbind option_bind].
  destruct (swap_stack st2 w wl c x y r Hs2) as (st3 & st4 & -> & -> & E3 & E4 & El4 & Hs4). cbn [mbind option_bind].
  rewrite E3. cbn [mbind option_bind]. rewrite E4. cbn [mbind option_bind].
  rewrite Ec1. cbn [mbind option_bind]. rewrite Ec2. cbn [mbind option_bind]. rewrite E7. cbn [mbind option_bind]. rewrite E8. cbn [mbind option_bind].
  destruct (swap_rep h h8 w wl c c2 l2 x y r Hr H8x H8y Hu8) as [Hh8 Hupd].
  destruct (swap_elems w wl c c2 l2 x y r Hsides) as (a & b & Ea & Eb & Ec). apply balanced_swap in Hbal.
  exists h8, T', st4, wl, c2, l2, y. cbv zeta. split; [by rewrite !length_app|]. split; [done|].
  assert (Eplug : plug w (N c (plug wl (N c2 l2 x E)) y r) = plug (wl ++ Fr c false y r :: w) (N c2 l2 x E)) by (by rewrite plug_app).
  rewrite Eplug in Hbal, Hh8. split; [split; [done|]|].
  - destruct Hr as [_ Hnd]. rewrite Ea in Hnd. rewrite Eb. by rewrite (Permutation_swap y x b).
  - split; [done|]. split; [done|]. split; [congruence|]. split; [done|]. by exists a, b.
Qed.

(** ** Removal *)

Lemma remove_elem_middle (a b : list Z) x : NoDup (a ++ x :: b) -> remove_elem x (a ++ x :: b) = a ++ b.
Proof.
  intros (_ & Ha & Hb)%NoDup_app. apply NoDup_cons in Hb as [Hb _]. unfold remove_elem. rewrite filter_app, filter_cons, decide_False by naive_solver.
  f_equal; apply remove_elem_notin; [|done]. intros Hx. apply (Ha x Hx). set_solver.
Qed.

Section Remove.
Context (lessthan_fn : Z -> Z -> bool).

(** A node that is in the tree is found. *)
Lemma search_found t w t' st sz x :
  strict_on lessthan_fn (elems t) -> sorted lessthan_fn (elems t) -> x ∈ elems t -> search_end lessthan_fn x t w t' st sz ->
  t' <> E /\ ptr t' = x /\ stack_is st (names w ++ [x]) /\ sz = Z.of_nat (length w) + 1.
Proof.
  intros Hso Hs Hx (<- & Hw & [?|(-> & _)]); [done|]. exfalso. rewrite elems_plug in *. cbn [elems app] in *.
  destruct (way_between lessthan_fn w x) as [Hb Ha]; [eapply strict_on_incl; [exact Hso|set_solver]|done|done|].
  pose proof (so_irrefl _ _ Hso x Hx) as Hi. apply elem_of_app in Hx as [Hx|Hx]; [rewrite Hb in Hi|rewrite Ha in Hi]; done.
Qed.

Lemma sorted_remove_elem ns x : sorted lessthan_fn ns -> sorted lessthan_fn (remove_elem x ns).
Proof. apply StronglySorted_remove_elem. Qed.

(** The removal once the node is found: [u] is its only child, or nothing. *)
Lemma remove_found h T st w s c u x D :
  rep h (plug w (node s c u x E)) -> balanced (plug w (node s c u x E)) D -> stack_is st (names w ++ [x]) -> length st = S D ->
  max_depth T = Z.of_nat D -> sorted lessthan_fn (elems (plug w u)) ->
  exists h' T', remove_node h T st (Z.of_nat (length w) + 1) x = Some (h', T') /\ rb_holds lessthan_fn h' T' (elems (plug w u)) /\
    upd h h' (elems (plug w (node s c u x E))).
Proof.
  intros Hr Hbal Hs Hcap HD Hsort.
  destruct (remove_node_spec h T st w s c u x D Hr Hbal Hs Hcap HD) as (h' & T' & E' & t' & Hr' & Hroot & El & Hmd & Hb & Hu).
  exists h', T'. split; [exact E'|]. split; [|exact Hu]. exists t'. by rewrite <- El in Hsort |- *.
Qed.

Lemma rb_remove_spec h T ns x :
  rb_holds lessthan_fn h T ns -> strict_on lessthan_fn ns -> x ∈ ns ->
  exists h' T', rb_remove lessthan_fn h T x = Some (h', T') /\ rb_holds lessthan_fn h' T' (remove_elem x ns) /\ upd h h' ns.
Proof.
  intros (t & Hr & Hroot & <- & Hmd & Hbal & Hsort) Hso Hx. unfold rb_remove.
  assert (Ht : t <> E) by (intros ->; by apply elem_of_nil in Hx). set (D := Z.to_nat (max_depth T)) in *.
  pose proof Hbal as (K & _ & _ & Hh & _).
  destruct (find_and_stack_spec lessthan_fn h T t x Hr Ht Hroot) as (w & t' & st & sz & -> & El & Hend); [lia|]. cbn [mbind option_bind].
  pose proof Hend as (Ep & _). destruct (search_found _ _ _ _ _ _ Hso Hsort Hx Hend) as (Ht' & Ept & Hs & ->). clear Hend.
  rewrite (stack_get_is _ _ _ _ (_ + 1 - 1) Hs) by (rewrite names_length; lia). cbn [mbind option_bind]. rewrite Z.eqb_refl. cbn [negb].
  destruct t' as [|c l x' r]; [done|]. cbn in Ept. subst x' t. destruct (rep_children h w false c l x r Hr) as [-> Er]. cbn [mbind option_bind negb] in *. rewrite Er. cbn [mbind option_bind].
  pose proof Hr as [_ Hnd]. assert (HD : max_depth T = Z.of_nat D) by lia. assert (Hcap : length st = S D) by lia.
  assert (Hone : forall s u, N c l x r = node s c u x E -> exists h' T', remove_node h T st (Z.of_nat (length w) + 1) x = Some (h', T') /\
    rb_holds lessthan_fn h' T' (remove_elem x (elems (plug w (N c l x r)))) /\ upd h h' (elems (plug w (N c l x r)))).
  { intros s u Eq. rewrite Eq in *.
    assert (Erem : remove_elem x (elems (plug w (node s c u x E))) = elems (plug w u)).
    { rewrite !elems_plug in Hnd |- *. clear -Hnd. destruct s; cbn [node elems app] in *; rewrite <- ?app_assoc in *; cbn [app] in *.
      - by rewrite elems_plug, remove_elem_middle.
      - rewrite app_assoc in Hnd |- *. rewrite remove_elem_middle by done. by rewrite elems_plug, <- app_assoc. }
    rewrite Erem. apply (remove_found _ _ _ _ _ _ _ _ D); try done. rewrite <- Erem. by apply sorted_remove_elem. }
  assert (l = E \/ l <> E) as [->|Hl] by (destruct l; [by left|by right]); [by apply (Hone true r)|].
  assert (r = E \/ r <> E) as [->|Hre] by (destruct r; [by left|by right]).
  { cbn [ptr Z.eqb negb]. rewrite andb_false_r. by apply (Hone false l). }
  assert (Hrl : rep h (plug (Fr c false x r :: w) l)) by exact Hr.
  assert (Hrr : rep h (plug (Fr c true x l :: w) r)) by exact Hr.
  rewrite (rep_ptr _ _ _ Hrl Hl), (rep_ptr _ _ _ Hrr Hre). cbn [negb andb].
  destruct (swap_down_spec h T st w c l x r D Hr Hl Hs Hcap Hbal) as (h1 & T1 & st1 & wl & c2 & l2 & y & -> & HT1 & Hr1 & Hb1 & Hs1 & Hcap1 & Hu1 & a & b & Ea & Eb & Ec).
  cbn [mbind option_bind]. assert (Erem : remove_elem x (elems (plug w (N c l x r))) = elems (plug (wl ++ Fr c false y r :: w) l2)).
  { rewrite Ea, Ec in *. rewrite (cons_middle y), app_assoc in *. rewrite remove_elem_middle by done. by rewrite <- app_assoc. }
  change (N c2 l2 x E) with (node false c2 l2 x E) in Hr1, Hb1, Eb.
  destruct (remove_found h1 T1 st1 _ false c2 l2 x D Hr1 Hb1 Hs1 Hcap1) as (h' & T' & E' & Hh' & Hu'); [lia|rewrite <- Erem; by apply sorted_remove_elem|].
  exists h', T'. split; [exact E'|]. rewrite Erem. split; [done|]. eapply upd_trans; [exact Hu1|]. eapply upd_weaken; [exact Hu'|].
  rewrite Ea, Eb. set_solver.
Qed.

Lemma rb_remove_absent h T ns x :
  rb_holds lessthan_fn h T ns -> ns <> [] -> x ∉ ns -> rb_remove lessthan_fn h T x = Some (h, T).
Proof.
  intros (t & Hr & Hroot & <- & Hmd & (K & _ & _ & Hh & _) & _) Hne Hx. unfold rb_remove.
  assert (Ht : t <> E) by (by intros ->).
  destruct (find_and_stack_spec lessthan_fn h T t x Hr Ht Hroot) as (w & t' & st & sz & -> & El & <- & _ & Hend); [lia|]. cbn [mbind option_bind].
  destruct Hend as [(Ht' & Ept & _)|(-> & Hw & Hs & ->)].
  - exfalso. apply Hx. rewrite elem_of_plug, <- Ept. right. destruct t'; cbn; [done|set_solver].
  - destruct w as [|f w]; [done|]. rewrite names_cons in Hs. rewrite (stack_get_is _ _ _ _ (_ - 1) Hs) by (rewrite names_length; cbn [length]; lia).
    cbn [mbind option_bind]. rewrite (proj2 (Z.eqb_neq x (f_n f))); [done|]. intros ->. apply Hx. rewrite elem_of_plug. left. cbn. set_solver.
Qed.
End Remove.
