(* ===== verification/RbSet.v ===== *)
(** * Red-black trees: the sorted set

    The operations that read the tree, and the theorems about the tree as a whole. *)

From S2P Require Import Prelude RbTree RbModel RbInsert RbRemove.

Local Open Scope Z_scope.

(** ** Walks down the tree *)

Lemma contains_spec lessthan_fn fuel h w t x :
  rep h (plug w t) -> strict_on lessthan_fn (x :: elems t) -> sorted lessthan_fn (elems t) -> x <> 0 -> (height t < fuel)%nat ->
  exists n, contains_loop lessthan_fn fuel h (ptr t) x = Some n /\ (n =? x) = bool_decide (x ∈ elems t).
Proof.
  revert w t. induction fuel as [|fuel IH]; [lia|]. intros w t Hr Hso Hs Hx Hf. cbn [contains_loop].
  destruct t as [|c l n r]; cbn [ptr]. { exists 0. split; [done|]. rewrite bool_decide_false by apply not_elem_of_nil. apply Z.eqb_neq. congruence. }
  assert (Hne : (n =? 0) = false) by (apply (rep_ptr h w (N c l n r)); done). rewrite Hne. cbn [negb andb].
  destruct (Z.eqb_spec n x) as [->|Hnx]; cbn [negb]. { exists x. by rewrite Z.eqb_refl, bool_decide_true by (cbn; set_solver). }
  cbn [elems height] in *. apply sorted_app in Hs as (Hsl & Hsr & Hlt). inversion Hsr as [|? ? Hsr' Hfr]; subst. rewrite Forall_forall in Hfr.
  assert (Hsub : forall t', (forall z, z ∈ elems t' -> z ∈ elems l ++ n :: elems r) -> strict_on lessthan_fn (x :: elems t'))
    by (intros t' Ht'; eapply strict_on_incl; [exact Hso|set_solver]).
  assert (Hasym : lessthan_fn x n = negb (lessthan_fn n x)) by (apply (so_total _ _ Hso); [set_solver|set_solver|done]).
  destruct (rep_children h w false c l n r Hr) as [El Er]. cbn [negb] in Er. destruct (lessthan_fn n x) eqn:Enx; cbn [negb] in Hasym.
  - rewrite Er. cbn [mbind option_bind]. destruct (IH (Fr c true n l :: w) r Hr) as (m & E' & Hm); [apply Hsub; set_solver|done|done|lia|].
    exists m. split; [exact E'|]. rewrite Hm. apply bool_decide_ext. rewrite elem_of_app, elem_of_cons. split; [tauto|].
    intros [Hxl|[->|?]]; [|done|done]. specialize (Hlt x n Hxl ltac:(set_solver)). cbn in Hlt. congruence.
  - rewrite El. cbn [mbind option_bind]. destruct (IH (Fr c false n r :: w) l Hr) as (m & E' & Hm); [apply Hsub; set_solver|done|done|lia|].
    exists m. split; [exact E'|]. rewrite Hm. apply bool_decide_ext. rewrite elem_of_app, elem_of_cons. split; [tauto|].
    intros [?|[->|Hxr]]; [done|done|]. specialize (Hfr x Hxr). cbn in Hfr. congruence.
Qed.

Lemma last_app_ne (l m : list Z) x : m <> [] -> last (l ++ x :: m) = last m.
Proof. intros Hm. rewrite last_app, last_cons. destruct (last m) eqn:Em; [done|]. by apply last_None in Em. Qed.

Lemma minmax_spec fuel h w t side :
  rep h (plug w t) -> (height t < fuel)%nat ->
  minmax_loop fuel h (ptr t) side = Some (default 0 (if side then last (elems t) else head (elems t))).
Proof.
  revert w t. induction fuel as [|fuel IH]; [lia|]. intros w t Hr Hf. cbn [minmax_loop]. destruct t as [|c l n r]; [by destruct side|].
  assert (exists a b, N c l n r = node side c a n b) as (a & b & Eq) by (destruct side; [by exists r, l|by exists l, r]).
  rewrite (rep_ptr h w (N c l n r) Hr) by done. rewrite Eq in *. rewrite height_node in Hf. rewrite ptr_node.
  destruct (rep_children _ _ _ _ _ _ _ Hr) as [-> _]. cbn [mbind option_bind].
  assert (a = E \/ a <> E) as [->|Ha] by (destruct a; [by left|by right]).
  - cbn [ptr Z.eqb]. destruct side; cbn; [by rewrite last_snoc|done].
  - assert (Hra : rep h (plug (Fr c side n b :: w) a)) by exact Hr. rewrite (rep_ptr _ _ _ Hra Ha), (IH _ _ Hra) by lia.
    do 2 f_equal. destruct a as [|ca la na ra]; [done|]. destruct side; cbn [node elems].
    + symmetry. apply last_app_ne. by destruct (elems la).
    + by destruct (elems la).
Qed.

Lemma rb_walk_spec {C} fuel h (visit_fn : Z -> C -> C) w t cookie :
  rep h (plug w t) -> (height t < fuel)%nat ->
  z_rb_walk fuel h visit_fn (ptr t) cookie = Some (foldl (fun c n => visit_fn n c) cookie (elems t)).
Proof.
  revert w t cookie. induction fuel as [|fuel IH]; [lia|]. intros w t cookie Hr Hf. cbn [z_rb_walk]. destruct t as [|c l n r]; [done|].
  rewrite (rep_ptr h w (N c l n r) Hr) by done. cbn [negb ptr height] in *. destruct (rep_children h w false c l n r Hr) as [El Er]. cbn [negb] in Er.
  rewrite El. cbn [mbind option_bind]. rewrite (IH (Fr c false n r :: w) l cookie Hr) by lia. cbn [mbind option_bind]. rewrite Er. cbn [mbind option_bind].
  rewrite (IH (Fr c true n l :: w) r _ Hr) by lia. cbn [elems]. by rewrite foldl_app.
Qed.

(** ** Iteration *)

(** The entries of [is_left] for the nodes on the way and the node below it. *)
Fixpoint flags (w : way) : list Z :=
  match w with [] => [0] | f :: w => flags w ++ [if f_s f then 0 else 1] end.

Definition upper_flags (w : way) : list Z := match w with [] => [] | _ :: w => flags w end.

Lemma flags_length w : length (flags w) = S (length w).
Proof. induction w as [|f w IH]; [done|]. cbn. rewrite length_app, IH. cbn. lia. Qed.

Lemma upper_flags_length w : length (upper_flags w) = length w.
Proof. destruct w; [done|]. cbn. apply flags_length. Qed.

Section Iterate.
Context (h : rbheap) (T : rbtree) (t0 : tree) (D : nat).
Hypothesis (Hr : rep h t0) (Hroot : rb_root T = ptr t0) (Hh : (height t0 <= D)%nat) (HD : max_depth T = Z.of_nat D).

(** How far the arrays of the iteration are filled. *)
Record filled (f : rb_foreach) (stack is_left : list Z) : Prop := {
  fi_stack : stack_is (fe_stack f) stack;
  fi_left : stack_is (fe_is_left f) is_left;
  fi_cap : length (fe_stack f) = D;
  fi_cap' : length (fe_is_left f) = D
}.

(** It stands at the node [n]. *)
Definition at_node (f : rb_foreach) (w : way) (c : rb_color) (l : tree) (n : Z) (r : tree) : Prop :=
  plug w (N c l n r) = t0 /\ filled f (names w ++ [n]) (flags w) /\ fe_top f = Z.of_nat (length w).

Lemma push_spec f w n v :
  filled f (names w) (upper_flags w) -> fe_top f = Z.of_nat (length w) - 1 -> (length w < D)%nat ->
  upper_flags w ++ [v] = flags w ->
  exists f', foreach_push f n v = Some f' /\ filled f' (names w ++ [n]) (flags w) /\ fe_top f' = Z.of_nat (length w).
Proof.
  intros [Hs Hl Hc Hc'] Ht Hlen Hv. unfold foreach_push. rewrite Ht. pose proof (names_length w). pose proof (upper_flags_length w).
  destruct (stack_push_is _ _ (Z.of_nat (length w) - 1 + 1) n Hs) as (st & -> & El & Hs'); [lia|lia|].
  destruct (stack_push_is _ _ (Z.of_nat (length w) - 1 + 1) v Hl) as (il & -> & El' & Hl'); [lia|lia|].
  cbn [mbind option_bind]. eexists. split; [done|]. split; [|cbn; lia]. rewrite <- Hv. split; cbn; (done || congruence).
Qed.

Lemma way_depth w t : plug w t = t0 -> (height t + length w <= D)%nat.
Proof using Hh. clear -Hh. intros <-. by apply height_plug in Hh as [? _]. Qed.

Lemma left_limb_spec fuel f w c l n r :
  at_node f w c l n r -> (height l < fuel)%nat ->
  exists f' w' c' n' r', left_limb_loop fuel h (ptr l) f = Some f' /\ at_node f' w' c' E n' r' /\
    n' :: elems r' ++ after w' = elems l ++ n :: elems r ++ after w.
Proof using Hr Hh.
  clear Hroot HD. revert f w c l n r. induction fuel as [|fuel IH]; [lia|]. intros f w c l n r (Ep & Hf & Ht) Hl. cbn [left_limb_loop].
  destruct l as [|cl ll ln lr]. { exists f, w, c, n, r. split; [done|]. by split. }
  assert (Hrl : rep h (plug (Fr c false n r :: w) (N cl ll ln lr))) by (by rewrite <- Ep in Hr). rewrite (rep_ptr _ _ _ Hrl) by done. cbn [negb ptr].
  pose proof (way_depth (Fr c false n r :: w) _ Ep) as Hd. cbn [height length] in Hd, Hl.
  destruct (push_spec f (Fr c false n r :: w) ln 1) as (f1 & -> & Hf1 & Ht1); [|cbn [length]; lia|cbn [length]; lia|done|].
  { rewrite names_cons. destruct Hf. by split. }
  cbn [mbind option_bind]. destruct (rep_children h (Fr c false n r :: w) false cl ll ln lr Hrl) as [-> _]. cbn [mbind option_bind].
  destruct (IH f1 (Fr c false n r :: w) cl ll ln lr) as (f' & w' & c' & n' & r' & E' & Hat & Eq); [done|lia|].
  exists f', w', c', n', r'. split; [exact E'|]. split; [done|]. rewrite Eq. cbn. by rewrite <- !app_assoc.
Qed.

Lemma limb_spec f w c l n r :
  plug w (N c l n r) = t0 -> filled f (names w) (upper_flags w) -> fe_top f = Z.of_nat (length w) - 1 ->
  upper_flags w ++ [0] = flags w ->
  exists f' w' c' n' r', stack_left_limb (walk_fuel T) h n f = Some (n', f') /\ at_node f' w' c' E n' r' /\
    n' :: elems r' ++ after w' = elems l ++ n :: elems r ++ after w.
Proof using Hr Hh HD.
  clear Hroot. intros Ep Hf Ht Hv. pose proof (way_depth _ _ Ep) as Hd. cbn [height] in Hd. unfold stack_left_limb.
  destruct (push_spec f w n 0 Hf Ht) as (f1 & -> & Hf1 & Ht1); [lia|done|]. cbn [mbind option_bind].
  assert (Hrn : rep h (plug w (N c l n r))) by (by rewrite Ep). destruct (rep_children h w false c l n r Hrn) as [-> _]. cbn [mbind option_bind].
  destruct (left_limb_spec (walk_fuel T) f1 w c l n r) as (f' & w' & c' & n' & r' & -> & Hat & Eq); [done|unfold walk_fuel; lia|]. cbn [mbind option_bind].
  pose proof Hat as (_ & [Hs _ _ _] & Ht'). rewrite Ht', (stack_get_is _ _ _ _ _ Hs) by (by rewrite names_length). cbn [mbind option_bind].
  exists f', w', c', n', r'. by split.
Qed.

Lemma pop_spec fuel f w :
  stack_is (fe_is_left f) (flags w) -> fe_top f = Z.of_nat (length w) -> (length w < fuel)%nat ->
  exists w1 w2, w = w1 ++ w2 /\ Forall (fun g => f_s g = true) w1 /\ (w2 = [] \/ exists g w3, w2 = g :: w3 /\ f_s g = false) /\
    pop_loop fuel f = Some (mkForeach (fe_stack f) (fe_is_left f) (Z.of_nat (length w2))).
Proof.
  revert f w. induction fuel as [|fuel IH]; [lia|]. intros f w Hl Ht Hf. cbn [pop_loop]. rewrite Ht. destruct w as [|g w].
  - exists [], []. split_and!; [done|done|by left|]. cbn. destruct f; cbn in *. by rewrite Ht.
  - rewrite Z.gtb_ltb, (proj2 (Z.ltb_lt _ _)) by (cbn; lia). cbn [flags] in Hl.
    rewrite (stack_get_is _ _ _ _ _ Hl) by (rewrite flags_length; done). cbn [mbind option_bind]. destruct (f_s g) eqn:Eg.
    + cbn [Z.eqb]. destruct (IH (mkForeach (fe_stack f) (fe_is_left f) (Z.of_nat (length (g :: w)) - 1)) w) as (w1 & w2 & -> & Hw1 & Hw2 & E');
        [by eapply stack_is_app|cbn; lia|cbn in Hf; lia|]. exists (g :: w1), w2. split_and!; [done|by constructor|done|exact E'].
    + cbn [Z.eqb]. exists [], (g :: w). split_and!; [done|done|right; eauto|]. destruct f; cbn in *. by rewrite Ht.
Qed.

Lemma plug_ne w g t : plug (g :: w) t <> E.
Proof.
  revert g t. induction w as [|g' w IH]; intros g t; [unfold plug; cbn; unfold fill; by destruct (f_s g)|].
  change (plug (g :: g' :: w) t) with (plug (g' :: w) (fill g t)). apply IH.
Qed.

Lemma after_app w1 w2 : after (w1 ++ w2) = after w1 ++ after w2.
Proof. induction w1 as [|g w1 IH]; [done|]. cbn. by rewrite IH, app_assoc. Qed.

Lemma step_up f w1 g w t :
  plug (w1 ++ g :: w) t = t0 -> f_s g = false -> filled f (names w ++ [f_n g]) (flags w) -> fe_top f = Z.of_nat (length w) ->
  f_n g <> 0 /\ exists c l, at_node f w c l (f_n g) (f_t g).
Proof using Hr.
  clear Hroot Hh HD. intros Et Eg Hf Htop. rewrite plug_app in Et. destruct g as [c s n u]. cbn in Eg. subst s. cbn [f_n f_t].
  change (plug w (N c (plug w1 t) n u) = t0) in Et. split; [|by exists c, (plug w1 t)].
  rewrite <- Et in Hr. apply Z.eqb_neq. by apply (rep_ptr _ _ _ Hr).
Qed.

(** One step: the next node in the order, or the end. *)
Lemma next_spec f w c l n r :
  at_node f w c l n r ->
  exists res f', z_rb_foreach_next h T f = Some (res, f') /\
    match elems r ++ after w with
    | [] => res = 0
    | m :: rest => res = m /\ m <> 0 /\ exists w' c' l' r', at_node f' w' c' l' m r' /\ elems r' ++ after w' = rest
    end.
Proof using Hr Hroot Hh HD.
  intros Hat. pose proof Hat as (Ep & [Hs Hl Hc Hc'] & Ht). unfold z_rb_foreach_next. pose proof (names_length w) as Hn.
  assert (Hrt : rep h (plug w (N c l n r))) by (by rewrite Ep). assert (Hne : t0 <> E) by (rewrite <- Ep; destruct w as [|g w]; [done|]; apply plug_ne).
  rewrite Hroot, (rep_ptr h [] t0 Hr Hne), Ht, (proj2 (Z.eqb_neq _ _)) by lia.
  rewrite (stack_get_is _ _ _ _ (Z.of_nat (length w)) Hs) by (by rewrite Hn). cbn [mbind option_bind].
  destruct (rep_children h w false c l n r Hrt) as [_ Er]. cbn [negb] in Er. rewrite Er. cbn [mbind option_bind].
  destruct r as [|cr rl rn rr].
  - cbn [ptr Z.eqb negb elems app]. assert (exists ff v, flags w = ff ++ [v] /\ length ff = length w /\ (v = 0 \/ exists g w1, w = g :: w1 /\ f_s g = false /\ v = 1))
      as (ff & v & Ev & Elf & Hv).
    { destruct w as [|g w]; [exists [], 0; naive_solver|]. cbn. exists (flags w). eexists. split; [done|]. split; [apply flags_length|].
      destruct (f_s g) eqn:Eg; [by left|right; eauto]. }
    pose proof Hl as Hl'. rewrite Ev in Hl'. rewrite (stack_get_is _ _ _ _ (Z.of_nat (length w)) Hl') by (by rewrite Elf). cbn [mbind option_bind].
    destruct Hv as [->|(g & w1 & -> & Eg & ->)]; cbn [Z.eqb negb].
    + destruct (pop_spec (walk_fuel T) f w Hl Ht) as (w1 & w2 & -> & Hw1 & Hw2 & ->); [pose proof (way_depth w _ Ep); unfold walk_fuel; lia|].
      cbn [mbind option_bind fe_top fe_stack]. rewrite after_app, (after_right w1 Hw1). cbn [app].
      destruct Hw2 as [->|(g & w3 & -> & Eg)]; [by eexists _, _|]. rewrite Z.geb_leb, (proj2 (Z.leb_le _ _)) by (cbn; lia).
      rewrite names_app, names_cons, <- !app_assoc in Hs. rewrite (stack_get_is _ _ _ _ (_ - 1) Hs) by (rewrite names_length; cbn [length]; lia).
      cbn [mbind option_bind app after]. rewrite Eg. eexists _, _. split; [done|]. cbn [app]. split; [done|].
      destruct (step_up (mkForeach (fe_stack f) (fe_is_left f) (Z.of_nat (length (g :: w3)) - 1)) w1 g w3 (N c l n E)) as (H0 & c' & l' & Hat'); try done.
      * split; try done; [cbn [fe_stack]; rewrite app_assoc in Hs; by eapply stack_is_app|].
        cbn [fe_is_left]. clear -Hl. induction w1 as [|a w1 IH]; cbn [app flags] in Hl; apply stack_is_app in Hl; [done|by apply IH].
      * cbn [length fe_top]. lia.
      * split; [done|]. by exists w3, c', l', (f_t g).
    + cbn [fe_top fe_stack]. rewrite names_cons, <- app_assoc in Hs. rewrite (stack_get_is _ _ _ _ (_ - 1) Hs) by (rewrite names_length; cbn [length]; lia).
      cbn [mbind option_bind after]. rewrite Eg. eexists _, _. split; [done|]. cbn [app]. split; [done|].
      destruct (step_up (mkForeach (fe_stack f) (fe_is_left f) (Z.of_nat (length (g :: w1)) - 1)) [] g w1 (N c l n E)) as (H0 & c' & l' & Hat'); try done.
      * split; try done; [cbn [fe_stack]; rewrite app_assoc in Hs; by eapply stack_is_app|]. by eapply stack_is_app.
      * cbn [length fe_top]. lia.
      * split; [done|]. by exists w1, c', l', (f_t g).
  - assert (Hrr : rep h (plug (Fr c true n l :: w) (N cr rl rn rr))) by exact Hrt. rewrite (rep_ptr _ _ _ Hrr) by done. cbn [negb ptr].
    destruct (limb_spec f (Fr c true n l :: w) cr rl rn rr) as (f' & w' & c' & n' & r' & E' & Hat' & Eq); [done|by rewrite names_cons|cbn [length]; lia|done|].
    exists n', f'. split; [exact E'|]. cbn [elems after f_s] in *. rewrite <- app_assoc. cbn [app] in *. rewrite <- Eq. split; [done|].
    split; [|by exists w', c', E, r']. destruct Hat' as (Ep' & _). assert (Hr' : rep h (plug w' (N c' E n' r'))) by (by rewrite Ep').
    apply Z.eqb_neq. by apply (rep_ptr _ _ _ Hr').
Qed.

Lemma foreach_from fuel f w c l n r :
  at_node f w c l n r -> (length (elems r ++ after w) < fuel)%nat -> foreach_loop fuel h T f = Some (elems r ++ after w).
Proof using Hr Hroot Hh HD.
  revert f w c l n r. induction fuel as [|fuel IH]; [lia|]. intros f w c l n r Hat Hf. cbn [foreach_loop].
  destruct (next_spec f w c l n r Hat) as (res & f' & -> & Hres). cbn [mbind option_bind].
  destruct (elems r ++ after w) as [|m rest]; [by rewrite Hres|]. destruct Hres as (-> & Hm & w' & c' & l' & r' & Hat' & <-).
  rewrite (proj2 (Z.eqb_neq _ _) Hm). cbn [length] in Hf. by rewrite (IH _ _ _ _ _ _ Hat') by lia.
Qed.

Lemma foreach_spec fuel : (length (elems t0) < fuel)%nat -> foreach_loop fuel h T (RB_FOREACH_INIT T) = Some (elems t0).
Proof using Hr Hroot Hh HD.
  destruct fuel as [|fuel]; [lia|]. intros Hfuel. cbn [foreach_loop]. unfold z_rb_foreach_next. rewrite Hroot.
  assert (t0 = E \/ exists c l n r, t0 = N c l n r) as [Et|(c & l & n & r & Et)] by (destruct t0; [by left|right; eauto]); [by rewrite Et|].
  rewrite (rep_ptr h [] t0 Hr) by (by rewrite Et). cbn [fe_top RB_FOREACH_INIT Z.eqb Pos.eqb].
  destruct (limb_spec (RB_FOREACH_INIT T) [] c l n r) as (f' & w' & c' & n' & r' & E' & Hat & Eq); [by rewrite Et| |done|done|].
  { split; cbn; [done|done| |]; rewrite stack_new_length; lia. }
  rewrite Et. cbn [ptr]. rewrite E'. cbn [mbind option_bind after app] in *. rewrite app_nil_r in Eq.
  pose proof Hat as (Ep & _). assert (Hr' : rep h (plug w' (N c' E n' r'))) by (by rewrite Ep).
  pose proof (rep_ptr _ _ _ Hr' ltac:(done)) as E0. cbn [ptr] in E0. rewrite E0.
  rewrite (foreach_from _ _ _ _ _ _ _ Hat); cbn [mbind option_bind elems]; [by rewrite <- Eq|].
  rewrite Et in Hfuel. cbn [elems] in Hfuel. rewrite <- Eq in Hfuel. cbn in Hfuel. lia.
Qed.
End Iterate.

(** ** Depth *)

(** The node reached from [n] by going down the given sides. *)
Fixpoint follow (h : rbheap) (n : Z) (sides : list bool) : option Z :=
  match sides with [] => Some n | s :: sides => n ← get_child h n s; follow h n sides end.

Lemma follow_spec h w t x :
  rep h (plug w t) -> x ∈ elems t -> exists sides, follow h (ptr t) sides = Some x /\ (length sides < height t)%nat.
Proof.
  revert w. induction t as [|c l IHl n r IHr]; intros w Hr Hx; [by apply elem_of_nil in Hx|].
  destruct (rep_children h w false c l n r Hr) as [El Er]. cbn [negb] in Er. cbn [elems height] in *.
  apply elem_of_app in Hx as [Hx|[->|Hx]%elem_of_cons].
  - destruct (IHl (Fr c false n r :: w) Hr Hx) as (sides & Es & Hl). exists (false :: sides). cbn. rewrite El. cbn. split; [done|lia].
  - exists []. cbn. split; [done|lia].
  - destruct (IHr (Fr c true n l :: w) Hr Hx) as (sides & Es & Hl). exists (true :: sides). cbn. rewrite Er. cbn. split; [done|lia].
Qed.

Lemma size_rb t k : is_rb t k -> (2 ^ k <= length (elems t) + 1)%nat.
Proof.
  revert k. induction t as [|c l IHl n r IHr]; intros k; [cbn; by intros ->|]. cbn [elems]. rewrite length_app. cbn [length]. destruct c; cbn [is_rb].
  - intros (_ & Hl & _). apply IHl in Hl. lia.
  - destruct k as [|k]; [done|]. intros [Hl Hr]. apply IHl in Hl. apply IHr in Hr. cbn [Nat.pow]. lia.
Qed.

(** ** The tree as a set *)

Section Set_.
Context (lessthan_fn : Z -> Z -> bool).

Lemma rb_holds_empty h d : 0 <= d -> rb_holds lessthan_fn h (mkRbtree 0 d) [].
Proof.
  intros Hd. exists E. split; [split; [done|apply NoDup_nil_2]|]. split_and!; [done|done|done| |constructor].
  exists O. cbn. split_and!; (done || lia).
Qed.

(** C12: The red-black tree in memory is a sorted set: rb_insert adds the node at its place
    in the order and rb_remove takes it out, for any tree they can meet; no pointer is followed
    that is not there, the array of ancestors is never overrun, no other memory changes, and the
    tree stays balanced. *)
Theorem rb_set_refines h T ns x :
  rb_holds lessthan_fn h T ns -> strict_on lessthan_fn (x :: ns) -> x <> 0 -> aligned x ->
  (x ∉ ns -> is_Some (h !! x) ->
     exists h' T', rb_insert lessthan_fn h T x = Some (h', T') /\ rb_holds lessthan_fn h' T' (sorted_add lessthan_fn x ns) /\
       upd h h' (x :: ns)) /\
  (x ∈ ns ->
     exists h' T', rb_remove lessthan_fn h T x = Some (h', T') /\ rb_holds lessthan_fn h' T' (remove_elem x ns) /\ upd h h' ns) /\
  (x ∉ ns -> ns <> [] -> rb_remove lessthan_fn h T x = Some (h, T)).
Proof.
  intros Hh Hso Hx0 Hxa. split_and!.
  - intros Hx Hs. by apply rb_insert_spec.
  - intros Hx. apply rb_remove_spec; [done| |done]. eapply strict_on_incl; [exact Hso|]. set_solver.
  - intros Hx Hne. by eapply rb_remove_absent.
Qed.

(** Searching finds exactly the nodes of the tree, the minimum and maximum are the ends
    of the order, and walking and iterating visit every node once in order, within the arrays of
    max_depth entries the iteration allocates. *)
Theorem rb_reads_correct {C} h T ns x (visit_fn : Z -> C -> C) cookie :
  rb_holds lessthan_fn h T ns -> strict_on lessthan_fn (x :: ns) -> x <> 0 ->
  rb_contains lessthan_fn h T x = Some (bool_decide (x ∈ ns)) /\
  rb_get_min h T = Some (default 0 (head ns)) /\ rb_get_max h T = Some (default 0 (last ns)) /\
  rb_walk h T visit_fn cookie = Some (foldl (fun c n => visit_fn n c) cookie ns) /\
  foreach_loop (S (length ns)) h T (RB_FOREACH_INIT T) = Some ns.
Proof.
  intros (t & Hr & Hroot & <- & Hmd & (K & _ & _ & Hh & _) & Hs) Hso Hx0.
  assert (Hf : (height t < walk_fuel T)%nat) by (unfold walk_fuel; lia). split_and!.
  - unfold rb_contains. rewrite Hroot. destruct (contains_spec lessthan_fn (walk_fuel T) h [] t x Hr Hso Hs Hx0 Hf) as (n & -> & E'). cbn. by rewrite E'.
  - unfold rb_get_min, z_rb_get_minmax. rewrite Hroot. by apply (minmax_spec _ h [] t false).
  - unfold rb_get_max, z_rb_get_minmax. rewrite Hroot. by apply (minmax_spec _ h [] t true).
  - unfold rb_walk. rewrite Hroot. by apply (rb_walk_spec _ h _ [] t).
  - apply (foreach_spec h T t (Z.to_nat (max_depth T))); (done || lia).
Qed.

(** Every node is reached from the root in fewer than twice the logarithm of the number
    of nodes steps, and in fewer steps than max_depth. *)
Theorem rb_depth_logarithmic h T ns x :
  rb_holds lessthan_fn h T ns -> x ∈ ns ->
  exists sides, follow h (rb_root T) sides = Some x /\ Z.of_nat (length sides) < max_depth T /\
    Z.of_nat (length sides) < 2 * Z.log2 (Z.of_nat (length ns) + 1).
Proof.
  intros (t & Hr & Hroot & <- & Hmd & (K & HK & Hc & Hh & _) & _) Hx. rewrite Hroot.
  destruct (follow_spec h [] t x Hr Hx) as (sides & Es & Hl). exists sides. split; [done|]. split; [lia|].
  apply height_rb in HK as Hh'. rewrite Hc in Hh'. apply size_rb in HK.
  assert (Z.of_nat K <= Z.log2 (Z.of_nat (length (elems t)) + 1)); [|lia]. apply Z.log2_le_pow2; [lia|].
  apply inj_le in HK. rewrite Nat2Z.inj_pow in HK. lia.
Qed.
End Set_.

(** ** A tree *)

(** Four nodes in a tree ordered by address, and a fifth one beside it. *)
Definition demo_heap : rbheap :=
  list_to_map [(2, mkRb 1 0); (4, mkRb 3 6); (6, mkRb 1 8); (8, mkRb 0 0); (10, mkRb 77 5)].
Definition demo_tree : rbtree := mkRbtree 4 3.

Lemma demo_strict l : strict_on Z.ltb l.
Proof. split; intros *; rewrite ?Z.ltb_lt; [by rewrite Z.ltb_irrefl| |lia]. intros. destruct (Z.ltb_spec x y), (Z.ltb_spec y x); cbn; lia. Qed.

Lemma demo_holds : rb_holds Z.ltb demo_heap demo_tree [2; 4; 6; 8].
Proof.
  exists (N BLACK (N BLACK E 2 E) 4 (N BLACK E 6 (N RED E 8 E))). split; [split; [by cbn; split_and!|by_decision]|].
  split_and!; [done|done|done| |by repeat constructor]. exists 2%nat. cbn. split_and!; (done || lia).
Qed.

Lemma rb_set_refines_witness :
  exists h T, rb_insert Z.ltb demo_heap demo_tree 10 = Some (h, T) /\ rb_holds Z.ltb h T [2; 4; 6; 8; 10].
Proof.
  destruct (rb_set_refines Z.ltb demo_heap demo_tree [2; 4; 6; 8] 10 demo_holds (demo_strict _)) as (Hi & _); [done|done|].
  destruct Hi as (h & T & E' & Hh & _); [by_decision|vm_compute; eauto|]. exists h, T. split; [exact E'|exact Hh].
Defined.

Lemma rb_reads_correct_witness :
  rb_contains Z.ltb demo_heap demo_tree 6 = Some true /\
  foreach_loop 5 demo_heap demo_tree (RB_FOREACH_INIT demo_tree) = Some [2; 4; 6; 8].
Proof.
  destruct (rb_reads_correct Z.ltb demo_heap demo_tree [2; 4; 6; 8] 6 (fun n c => n + c) 0 demo_holds (demo_strict _)) as (E1 & _ & _ & _ & E2); [done|].
  split; [exact E1|exact E2].
Defined.

Lemma rb_depth_logarithmic_witness :
  exists sides, follow demo_heap 4 sides = Some 8 /\ Z.of_nat (length sides) < 3.
Proof.
  destruct (rb_depth_logarithmic Z.ltb demo_heap demo_tree [2; 4; 6; 8] 8 demo_holds) as (sides & E1 & E2 & _); [by_decision|].
  exists sides. split; [exact E1|exact E2].
Defined.
