(* ===== verification/PriqRb.v ===== *)
(** * The red-black tree priority queue (kernel/include/priority_q.h)

    The third queue implementation a build can select for ready and wait queues, on the
    pointer-level tree of [RbTree].  Threads of equal priority are kept in the order in
    which they were added by numbering the additions; the theorem is that the queue
    behaves as the sorted list, as long as the 32-bit counter does not wrap around, and
    that the addition at which it wraps around still does. *)

From S2P Require Import Prelude PriorityQ RbTree RbModel RbInsert RbRemove RbSet.

Local Open Scope Z_scope.

(** ** The code *)

Section Code.
Context (prio : tid -> Z).
(** [&thread->base.qnode_rb], and [CONTAINER_OF] back from it. *)
Context (qnode : tid -> Z) (container_of : Z -> tid).

(** [struct _priq_rb]. *)
Record priq_rb := mkPriqRb { pq_tree : rbtree; next_order_key : Z }.

(** The queue with the memory it works on: the nodes and the [order_key] of every thread. *)
Record rb_queue := mkRbQueue { rq_heap : rbheap; rq_key : tid -> Z; rq_pq : priq_rb }.

Definition set_key (key : tid -> Z) (t : tid) (v : Z) : tid -> Z := fun u => if decide (u = t) then v else key u.

Definition rb_lessthan (key : tid -> Z) (a b : Z) : bool := z_priq_rb_lessthan prio key (container_of a) (container_of b).

(** [RB_FOR_EACH_CONTAINER] with the body that renumbers the threads. *)
Fixpoint renumber (fuel : nat) (h : rbheap) (tree : rbtree) (f : rb_foreach) (key : tid -> Z) (next : Z)
    : option ((tid -> Z) * Z) :=
  match fuel with
  | O => None
  | S fuel =>
      '(n, f) ← z_rb_foreach_next h tree f;
      if n =? 0 then Some (key, next)
      else renumber fuel h tree f (set_key key (container_of n) next) (u32 (next + 1))
  end.

Definition z_priq_rb_add (q : rb_queue) (thread : tid) : option rb_queue :=
  let tree := pq_tree (rq_pq q) in
  let key := set_key (rq_key q) thread (next_order_key (rq_pq q)) in
  let next := u32 (next_order_key (rq_pq q) + 1) in
  '(key, next) ← (if next =? 0 then renumber (S (size (rq_heap q))) (rq_heap q) tree (RB_FOREACH_INIT tree) key next
                  else Some (key, next));
  '(h, tree) ← rb_insert (rb_lessthan key) (rq_heap q) tree (qnode thread);
  Some (mkRbQueue h key (mkPriqRb tree next)).

Definition z_priq_rb_remove (q : rb_queue) (thread : tid) : option rb_queue :=
  '(h, tree) ← rb_remove (rb_lessthan (rq_key q)) (rq_heap q) (pq_tree (rq_pq q)) (qnode thread);
  let next := if rb_root tree =? 0 then 0 else next_order_key (rq_pq q) in
  Some (mkRbQueue h (rq_key q) (mkPriqRb tree next)).

Definition z_priq_rb_best (q : rb_queue) : option (option tid) :=
  n ← rb_get_min (rq_heap q) (pq_tree (rq_pq q));
  Some (if negb (n =? 0) then Some (container_of n) else None).
End Code.

(** ** What it implements *)

Section Laws.
Context (prio : tid -> Z) (qnode : tid -> Z) (container_of : Z -> tid).
Hypothesis container_qnode : forall t, container_of (qnode t) = t.
Hypothesis qnode_ok : forall t, qnode t <> 0 /\ aligned (qnode t).
(** The threads there are. *)
Context (threads : list tid).
Implicit Types (key : tid -> Z) (q : list tid) (t : tid).

Abbreviation less := (rb_lessthan prio container_of).

(** The order of the tree: by priority and then by number. *)
Definition before_in key (a b : tid) : Prop := prio a < prio b \/ (prio a = prio b /\ key a < key b).

(** No two threads of the same priority have the same number. *)
Definition distinct key q : Prop := forall a b, a ∈ q -> b ∈ q -> prio a = prio b -> key a = key b -> a = b.

Lemma less_true key a b : less key (qnode a) (qnode b) = true <-> before_in key a b.
Proof using All.
  unfold rb_lessthan, z_priq_rb_lessthan, before_in, z_sched_prio_cmp. rewrite !container_qnode, Z.gtb_ltb.
  destruct (Z.eqb_spec (prio a) (prio b)) as [Ep|Hne]; cbn [negb Z.ltb Z.compare].
  - rewrite Z.ltb_lt. lia.
  - destruct (Z.ltb_spec 0 (prio b - prio a)), (Z.ltb_spec (prio b - prio a) 0); lia.
Qed.

Lemma less_strict key q : distinct key q -> strict_on (less key) (qnode <$> q).
Proof using All.
  intros Hd. split.
  - intros x (a & -> & Ha)%list_elem_of_fmap. destruct (less key (qnode a) (qnode a)) eqn:E; [|done]. apply less_true in E. unfold before_in in E. lia.
  - intros x y (a & -> & Ha)%list_elem_of_fmap (b & -> & Hb)%list_elem_of_fmap Hne.
    assert (Hab : before_in key a b <-> ~ before_in key b a).
    { unfold before_in. assert (prio a = prio b -> key a <> key b) by (intros Ep Ek; apply Hne; f_equal; by apply Hd). lia. }
    rewrite <- !less_true in Hab. destruct (less key (qnode a) (qnode b)), (less key (qnode b) (qnode a)); cbn; naive_solver.
  - intros x y z (a & -> & Ha)%list_elem_of_fmap (b & -> & Hb)%list_elem_of_fmap (c & -> & Hc)%list_elem_of_fmap.
    rewrite !less_true. unfold before_in. lia.
Qed.

Lemma sorted_fmap key q : sorted (less key) (qnode <$> q) <-> StronglySorted (before_in key) q.
Proof using All.
  unfold sorted. induction q as [|a q IH]; [split; constructor|]. cbn. split; inversion 1 as [|? ? Hs Hf]; subst; constructor; try (by apply IH).
  - apply Forall_forall. intros b Hb. rewrite Forall_forall in Hf. apply less_true, Hf. by apply list_elem_of_fmap_2.
  - apply Forall_forall. intros y (b & -> & Hb)%list_elem_of_fmap. rewrite Forall_forall in Hf. by apply less_true, Hf.
Qed.

(** A thread with the largest number goes where the sorted list puts it. *)
Lemma sorted_add_dumb key t q :
  (forall u, u ∈ q -> key u < key t) ->
  sorted_add (less key) (qnode t) (qnode <$> q) = qnode <$> z_priq_dumb_add prio t q.
Proof using All.
  induction q as [|u q IH]; intros Hk; [done|]. rewrite dumb_add_cases. cbn [fmap list_fmap sorted_add].
  assert (Hu : key u < key t) by (apply Hk; set_solver).
  assert (El : less key (qnode t) (qnode u) = bool_decide (prio t < prio u)).
  { apply eq_true_iff_eq. rewrite less_true, bool_decide_eq_true. unfold before_in. lia. }
  rewrite El. destruct (decide (prio t < prio u)) as [Hp|Hp]; [by rewrite bool_decide_true|]. rewrite bool_decide_false by done. cbn. f_equal. apply IH. set_solver.
Qed.

(** The queue [w] holds the threads [q], in this order. *)
Record implements (w : rb_queue) q : Prop := {
  im_nodup : NoDup q;
  im_tree : rb_holds (less (rq_key w)) (rq_heap w) (pq_tree (rq_pq w)) (qnode <$> q);
  im_distinct : distinct (rq_key w) q;
  im_nodes : forall t, t ∈ threads -> is_Some (rq_heap w !! qnode t)
}.

(** All numbers given out so far are below the counter. *)
Definition counted (w : rb_queue) q : Prop :=
  0 <= next_order_key (rq_pq w) < 2 ^ 32 /\ forall t, t ∈ q -> rq_key w t < next_order_key (rq_pq w).

Lemma elem_of_qnodes t q : qnode t ∈ qnode <$> q <-> t ∈ q.
Proof using All.
  rewrite list_elem_of_fmap. split; [|eauto]. intros (u & E & Hu). apply (f_equal container_of) in E. by rewrite !container_qnode in E; subst.
Qed.

(** Other numbers that give the same order. *)
Lemma rb_holds_rekey key key' h T q :
  rb_holds (less key) h T (qnode <$> q) -> StronglySorted (before_in key') q -> rb_holds (less key') h T (qnode <$> q).
Proof using All. intros (t & ? & ? & ? & ? & ? & _) Hs. exists t. split_and!; try done. by apply sorted_fmap. Qed.

Lemma set_key_same key t v : set_key key t v t = v.
Proof. unfold set_key. by rewrite decide_True. Qed.

Lemma set_key_other key t v u : u <> t -> set_key key t v u = key u.
Proof. intros Hne. unfold set_key. by rewrite decide_False. Qed.

Lemma before_in_ext key key' q :
  (forall t, t ∈ q -> key' t = key t) -> StronglySorted (before_in key) q -> StronglySorted (before_in key') q.
Proof.
  intros He Hs. induction Hs as [|a q Hs IH Hf]; constructor; [apply IH; set_solver|]. rewrite Forall_forall in Hf |- *.
  intros b Hb. unfold before_in. rewrite !He by set_solver. by apply Hf.
Qed.

(** Insertion of a thread with the largest number. *)
Lemma insert_largest h T key q t next :
  NoDup q -> t ∉ q -> rb_holds (less key) h T (qnode <$> q) -> distinct key q ->
  (forall u, u ∈ threads -> is_Some (h !! qnode u)) -> t ∈ threads ->
  (forall u, u ∈ q -> key u < key t) ->
  exists h' T', rb_insert (less key) h T (qnode t) = Some (h', T') /\
    implements (mkRbQueue h' key (mkPriqRb T' next)) (z_priq_dumb_add prio t q).
Proof using All.
  intros Hnd Ht Hh Hd Hn Hin Hk. assert (Hd' : distinct key (t :: q)).
  { intros a b [->|Ha]%elem_of_cons [->|Hb]%elem_of_cons Ep Ek; [done| | |by apply Hd]; [specialize (Hk b Hb)|specialize (Hk a Ha)]; lia. }
  pose proof (less_strict key (t :: q) Hd') as Hso. cbn [fmap list_fmap] in Hso. destruct (qnode_ok t) as [H0 Ha].
  destruct (rb_insert_spec (less key) h T (qnode <$> q) (qnode t) Hh Hso) as (h' & T' & E' & Hh' & Hu); [by rewrite elem_of_qnodes|done|done|by apply Hn|].
  exists h', T'. split; [done|]. split; cbn.
  - by apply dumb_add_NoDup.
  - by rewrite sorted_add_dumb in Hh'.
  - intros a b. rewrite !elem_of_dumb_add. intros Ha' Hb'. apply Hd'; by apply elem_of_cons.
  - intros u Hu'. by apply (upd_in _ _ _ Hu), Hn.
Qed.

Lemma rb_add_spec w q t :
  implements w q -> counted w q -> t ∈ threads -> t ∉ q -> next_order_key (rq_pq w) < 2 ^ 32 - 1 ->
  exists w', z_priq_rb_add prio qnode container_of w t = Some w' /\ implements w' (z_priq_dumb_add prio t q) /\
    counted w' (z_priq_dumb_add prio t q) /\ next_order_key (rq_pq w') = next_order_key (rq_pq w) + 1.
Proof using All.
  intros [Hnd Hh Hd Hn] [Hc Hk] Hin Ht Hw. unfold z_priq_rb_add. rewrite wrap_u_small by lia.
  rewrite (proj2 (Z.eqb_neq (_ + 1) 0)) by lia. cbn [mbind option_bind]. set (key := set_key (rq_key w) t (next_order_key (rq_pq w))).
  assert (Hsame : forall u, u ∈ q -> key u = rq_key w u) by (intros u Hu; apply set_key_other; by intros ->).
  assert (Hmax : forall u, u ∈ q -> key u < key t) by (intros u Hu; rewrite Hsame by done; unfold key; rewrite set_key_same; by apply Hk).
  destruct (insert_largest (rq_heap w) (pq_tree (rq_pq w)) key q t (next_order_key (rq_pq w) + 1)) as (h' & T' & -> & Hi); try done.
  - eapply rb_holds_rekey; [exact Hh|]. eapply before_in_ext; [exact Hsame|]. destruct Hh as (? & _ & _ & _ & _ & _ & Hs). by apply sorted_fmap.
  - intros a b Ha Hb. rewrite !Hsame by done. by apply Hd.
  - cbn [mbind option_bind]. eexists. split; [done|]. split; [done|]. split; [|done]. split; [cbn; lia|].
    intros u [->|Hu]%elem_of_dumb_add; cbn; [unfold key; rewrite set_key_same; lia|]. rewrite Hsame by done. specialize (Hk u Hu). lia.
Qed.

Lemma rb_remove_queue w q t :
  implements w q -> counted w q -> t ∈ q ->
  exists w', z_priq_rb_remove prio qnode container_of w t = Some w' /\ implements w' (z_priq_dumb_remove t q) /\
    counted w' (z_priq_dumb_remove t q) /\ next_order_key (rq_pq w') <= next_order_key (rq_pq w).
Proof using All.
  intros [Hnd Hh Hd Hn] [Hc Hk] Ht. unfold z_priq_rb_remove.
  destruct (rb_remove_spec (less (rq_key w)) _ _ _ (qnode t) Hh (less_strict _ _ Hd)) as (h' & T' & -> & Hh' & Hu); [by rewrite elem_of_qnodes|].
  cbn [mbind option_bind]. eexists. split; [done|].
  assert (Erem : remove_elem (qnode t) (qnode <$> q) = qnode <$> z_priq_dumb_remove t q).
  { unfold z_priq_dumb_remove, remove_elem. clear -container_qnode. induction q as [|u q IH]; [done|]. cbn [fmap list_fmap]. rewrite !filter_cons.
    destruct (decide (u = t)) as [->|Hne]; [rewrite (decide_False (P := qnode t <> qnode t)), (decide_False (P := t <> t)) by (intros H; by apply H); exact IH|].
    rewrite (decide_True (P := qnode u <> qnode t)), (decide_True (P := u <> t)); [cbn; by f_equal|done|].
    intros E. apply Hne. by rewrite <- (container_qnode u), E, container_qnode. }
  rewrite Erem in Hh'. split; [split; cbn|split].
  - by apply NoDup_remove_elem.
  - done.
  - intros a b [_ Ha]%elem_of_remove_elem [_ Hb]%elem_of_remove_elem. by apply Hd.
  - intros u Hu'. by apply (upd_in _ _ _ Hu), Hn.
  - split; cbn; [destruct (_ =? 0); lia|]. intros u Hu'. assert (Hin : u ∈ q) by (apply elem_of_remove_elem in Hu'; tauto).
    destruct (Z.eqb_spec (rb_root T') 0) as [E0|]; [|by apply Hk]. exfalso.
    destruct Hh' as (t' & [Hr' _] & Hroot & El & _). rewrite Hroot in E0. destruct t' as [|c l n r]; [|cbn in Hr', E0; tauto].
    cbn in El. symmetry in El. apply fmap_nil_inv in El. rewrite El in Hu'. by apply elem_of_nil in Hu'.
  - cbn. destruct (_ =? 0); lia.
Qed.

Lemma rb_best_spec w q : implements w q -> z_priq_rb_best container_of w = Some (z_priq_dumb_best q).
Proof using All.
  intros [Hnd (t & Hr & Hroot & El & Hmd & (K & _ & _ & Hh & _) & _) Hd Hn]. unfold z_priq_rb_best, rb_get_min, z_rb_get_minmax.
  rewrite Hroot, (minmax_spec _ _ [] t false Hr) by (unfold walk_fuel; lia). cbn [mbind option_bind]. rewrite El. unfold z_priq_dumb_best.
  destruct q as [|u q]; [done|]. cbn. rewrite (proj2 (Z.eqb_neq _ _)) by apply qnode_ok. by rewrite container_qnode.
Qed.

(** ** The counter wraps around *)

(** Numbering the threads of [q] from [next] on. *)
Fixpoint number key (next : Z) q : (tid -> Z) * Z :=
  match q with [] => (key, next) | t :: q => number (set_key key t next) (u32 (next + 1)) q end.

Lemma renumber_spec fuel h T f key next q :
  foreach_loop fuel h T f = Some (qnode <$> q) -> renumber container_of fuel h T f key next = Some (number key next q).
Proof using All.
  revert f key next q. induction fuel as [|fuel IH]; [done|]. intros f key next q. cbn [foreach_loop renumber].
  destruct (z_rb_foreach_next h T f) as [[n f']|]; [|done]. cbn [mbind option_bind]. destruct (Z.eqb_spec n 0) as [->|Hn].
  - intros [= E]. symmetry in E. by apply fmap_nil_inv in E; subst.
  - destruct (foreach_loop fuel h T f') as [ns|] eqn:El; [|done]. cbn [mbind option_bind]. intros [= E].
    destruct q as [|t q]; [done|]. cbn in E. injection E as -> ->. rewrite container_qnode. cbn [number]. by apply IH.
Qed.

Lemma number_spec key next q :
  NoDup q -> 0 <= next -> next + Z.of_nat (length q) < 2 ^ 32 ->
  let '(key', next') := number key next q in
  next' = next + Z.of_nat (length q) /\ (forall t, t ∉ q -> key' t = key t) /\
  (forall t, t ∈ q -> next <= key' t < next') /\ forall q1 a q2 b q3, q = q1 ++ a :: q2 ++ b :: q3 -> key' a < key' b.
Proof.
  revert key next. induction q as [|t q IH]; intros key next Hnd H0 Hlen.
  { cbn. split_and!; [lia|done|set_solver|]. intros q1 a q2 b q3 E. by destruct q1. }
  apply NoDup_cons in Hnd as [Ht Hnd]. cbn [number length] in *. rewrite wrap_u_small by lia.
  specialize (IH (set_key key t next) (next + 1) Hnd ltac:(lia) ltac:(lia)). destruct (number _ _ q) as [key' next'].
  destruct IH as (En & Hout & Hin & Hord). assert (Et : key' t = next) by (rewrite Hout by done; apply set_key_same).
  split; [lia|]. split; [|split].
  - intros u Hu. rewrite elem_of_cons in Hu. rewrite Hout by tauto. apply set_key_other. tauto.
  - intros u [->|Hu]%elem_of_cons; [lia|]. specialize (Hin u Hu). lia.
  - intros [|c q1] a q2 b q3; cbn; intros [= -> E]; [|by eapply Hord]. assert (Hb : b ∈ q) by (rewrite E; set_solver). specialize (Hin b Hb). lia.
Qed.

Lemma sorted_numbered key key' q :
  StronglySorted (before_in key) q -> (forall q1 a q2 b q3, q = q1 ++ a :: q2 ++ b :: q3 -> key' a < key' b) -> StronglySorted (before_in key') q.
Proof.
  intros Hs. induction Hs as [|a q Hs IH Hf]; intros Hord; constructor.
  - apply IH. intros q1 x q2 y q3 ->. by apply (Hord (a :: q1) x q2 y q3).
  - rewrite Forall_forall in Hf |- *. intros b Hb. pose proof (Hf b Hb) as Hab. apply list_elem_of_split in Hb as (q2 & q3 & ->).
    specialize (Hord [] a q2 b q3 eq_refl). unfold before_in in *. lia.
Qed.

Lemma nodes_bound w q : implements w q -> (length q <= size (rq_heap w))%nat.
Proof using All.
  intros [Hnd (t & [Hr Hndt] & _ & El & _) _ _]. rewrite <- (length_fmap qnode q), <- El.
  rewrite <- (size_list_to_set (C := gset Z) (elems t)) by done. rewrite <- (size_dom (D := gset Z)).
  apply subseteq_size. intros x Hx%elem_of_list_to_set. apply elem_of_dom. by eapply holds_dom.
Qed.

Lemma rb_add_wrap w q t :
  implements w q -> t ∈ threads -> t ∉ q -> next_order_key (rq_pq w) = 2 ^ 32 - 1 -> Z.of_nat (length q) < 2 ^ 32 - 1 ->
  exists w', z_priq_rb_add prio qnode container_of w t = Some w' /\ implements w' (z_priq_dumb_add prio t q).
Proof using All.
  intros Hi Hin Ht Hw Hlen. pose proof (nodes_bound w q Hi) as Hsz. destruct Hi as [Hnd Hh Hd Hn]. unfold z_priq_rb_add. rewrite Hw.
  change (u32 (2 ^ 32 - 1 + 1)) with 0. cbn [Z.eqb]. pose proof Hh as (t0 & Hr & Hroot & El & Hmd & (K & _ & _ & Hht & _) & Hs).
  rewrite (renumber_spec _ _ _ _ _ _ q).
  2:{ rewrite <- El. apply (foreach_spec (rq_heap w) _ t0 (Z.to_nat (max_depth (pq_tree (rq_pq w))))); try done; [lia|]. rewrite El, length_fmap. lia. }
  pose proof (number_spec (set_key (rq_key w) t (2 ^ 32 - 1)) 0 q Hnd ltac:(lia) ltac:(lia)) as Hnum.
  destruct (number _ 0 q) as [key' next']. destruct Hnum as (En & Hout & Hnew & Hord). cbn [mbind option_bind].
  assert (Et : key' t = 2 ^ 32 - 1) by (rewrite Hout by done; apply set_key_same).
  destruct (insert_largest (rq_heap w) (pq_tree (rq_pq w)) key' q t next') as (h' & T' & -> & Hi); try done.
  - eapply rb_holds_rekey; [exact Hh|]. apply sorted_fmap in Hs. by eapply sorted_numbered.
  - intros a b Ha Hb _ Ek. destruct (decide (a = b)) as [|Hab]; [done|]. exfalso.
    apply list_elem_of_split in Ha as (q1 & q2 & ->). apply elem_of_app in Hb as [Hb|[->|Hb]%elem_of_cons]; [|done|];
      apply list_elem_of_split in Hb as (q3 & q4 & ->).
    + specialize (Hord q3 b q4 a q2 ltac:(by rewrite <- app_assoc)). lia.
    + specialize (Hord q1 a q3 b q4 eq_refl). lia.
  - intros u Hu. specialize (Hnew u Hu). lia.
  - cbn [mbind option_bind]. by eexists.
Qed.

(** ** Any sequence of additions and removals *)

Fixpoint rb_run (ops : list queue_op) (w : rb_queue) : option rb_queue :=
  match ops with
  | [] => Some w
  | Qadd t :: ops => w ← z_priq_rb_add prio qnode container_of w t; rb_run ops w
  | Qremove t :: ops => w ← z_priq_rb_remove prio qnode container_of w t; rb_run ops w
  end.

(** Only existing threads that are not in the queue are added, and only those that are removed. *)
Fixpoint legal (ops : list queue_op) q : Prop :=
  match ops with
  | [] => True
  | Qadd t :: ops => (t ∈ threads /\ (t ∉ q)) /\ legal ops (z_priq_dumb_add prio t q)
  | Qremove t :: ops => t ∈ q /\ legal ops (z_priq_dumb_remove t q)
  end.

Lemma rb_run_spec ops w q :
  implements w q -> counted w q -> legal ops q -> next_order_key (rq_pq w) + Z.of_nat (length ops) < 2 ^ 32 ->
  exists w', rb_run ops w = Some w' /\ implements w' (dumb_run prio ops q) /\ counted w' (dumb_run prio ops q).
Proof using All.
  revert w q. induction ops as [|[t|t] ops IH]; intros w q Hi Hc Hl Hn; [by exists w| |]; destruct Hl as [Ht Hl]; cbn [rb_run length] in *.
  - destruct Ht as [Hin Ht]. destruct (rb_add_spec w q t Hi Hc Hin Ht ltac:(lia)) as (w1 & -> & Hi1 & Hc1 & En). cbn [mbind option_bind].
    destruct (IH w1 _ Hi1 Hc1 Hl ltac:(lia)) as (w' & E' & ?). by exists w'.
  - destruct (rb_remove_queue w q t Hi Hc Ht) as (w1 & -> & Hi1 & Hc1 & En). cbn [mbind option_bind].
    destruct (IH w1 _ Hi1 Hc1 Hl ltac:(lia)) as (w' & E' & ?). by exists w'.
Qed.

(** C13: The red-black tree queue behaves as the sorted list queue under any sequence of
    additions and removals, as long as the counter of additions plus the number of operations
    stays below 2^32: no step fails and the best thread is the same; the addition at which the
    counter wraps around still puts its thread in the right place. *)
Theorem rb_queue_refines_dumb ops w q :
  implements w q -> counted w q -> legal ops q -> next_order_key (rq_pq w) + Z.of_nat (length ops) < 2 ^ 32 ->
  exists w', rb_run ops w = Some w' /\ implements w' (dumb_run prio ops q) /\
    z_priq_rb_best container_of w' = Some (z_priq_dumb_best (dumb_run prio ops q)) /\
    forall t, t ∈ threads -> t ∉ dumb_run prio ops q -> Z.of_nat (length (dumb_run prio ops q)) < 2 ^ 32 - 1 ->
    exists w'', z_priq_rb_add prio qnode container_of w' t = Some w'' /\ implements w'' (z_priq_dumb_add prio t (dumb_run prio ops q)).
Proof using All.
  intros Hi Hc Hl Hn. destruct (rb_run_spec ops w q Hi Hc Hl Hn) as (w' & E' & Hi' & Hc'). exists w'. split; [done|]. split; [done|].
  split; [by apply rb_best_spec|]. intros t Hin Ht Hlen. destruct (decide (next_order_key (rq_pq w') = 2 ^ 32 - 1)) as [Hw|Hw].
  - by apply rb_add_wrap.
  - destruct (rb_add_spec w' _ t Hi' Hc' Hin Ht) as (w'' & ? & ? & _); [destruct Hc'; lia|]. by exists w''.
Qed.
End Laws.

(** ** A queue at work *)

Definition demo_node (t : tid) : Z := Z.pos t~0.
Definition demo_thread (n : Z) : tid := match n with Zpos (t~0)%positive => t | _ => 1%positive end.
Definition demo_prio (t : tid) : Z := match t with 3%positive => 0 | _ => 5 end.
Definition demo_threads : list tid := [1; 2; 3; 4; 5; 6]%positive.

(** An empty queue whose counter is at [next]. *)
Definition demo_queue (next : Z) : rb_queue :=
  mkRbQueue (list_to_map ((fun t => (demo_node t, mkRb 0 0)) <$> demo_threads)) (fun _ => 0) (mkPriqRb (mkRbtree 0 0) next).

Lemma demo_node_ok t : demo_node t <> 0 /\ aligned (demo_node t).
Proof. by split. Qed.

Lemma demo_implements next :
  implements demo_prio demo_node demo_thread demo_threads (demo_queue next) [].
Proof.
  split; [apply NoDup_nil_2|by apply rb_holds_empty|intros a b ?%elem_of_nil; done|].
  apply Forall_forall. unfold demo_threads. repeat (apply Forall_cons_2; [vm_compute; eauto|]). apply Forall_nil_2.
Qed.

Definition demo_ops : list queue_op := [Qadd 1; Qadd 2; Qadd 3; Qadd 4; Qremove 2; Qadd 5; Qremove 3]%positive.

Lemma rb_queue_refines_dumb_witness :
  exists w, rb_run demo_prio demo_node demo_thread demo_ops (demo_queue 0) = Some w /\
    z_priq_rb_best demo_thread w = Some (Some 1%positive).
Proof.
  destruct (rb_queue_refines_dumb demo_prio demo_node demo_thread (fun t => eq_refl) demo_node_ok demo_threads
    demo_ops (demo_queue 0) [] (demo_implements 0)) as (w & E' & _ & Hb & _).
  - split; [by vm_compute|]. intros t Ht. by apply elem_of_nil in Ht.
  - vm_compute. split_and!; try (by repeat (first [by left|right])); try (intros H; by repeat (apply elem_of_cons in H as [?|H]; [done|]); apply elem_of_nil in H).
  - done.
  - exists w. split; [exact E'|]. rewrite Hb. reflexivity.
Defined.

(** The thread added when the counter wraps around keeps the largest number, so that one
    of the same priority that is added after it goes in front of it. *)
Example rb_queue_order_after_wrap :
  (w ← rb_run demo_prio demo_node demo_thread [Qadd 1; Qadd 2; Qremove 1]%positive (demo_queue (2 ^ 32 - 2));
   w ← rb_run demo_prio demo_node demo_thread [Qadd 4]%positive w;
   z_priq_rb_best demo_thread w) = Some (Some 4%positive) /\
  z_priq_dumb_best (dumb_run demo_prio [Qadd 1; Qadd 2; Qremove 1; Qadd 4]%positive []) = Some 2%positive.
Proof. by split; vm_compute. Qed.
