(* ===== verification/KState.v ===== *)
(** * Kernel state (include/zephyr/kernel_structs.h, kernel/thread.h, kernel.h)

    The data of the modelled part of the kernel: threads, the ready queue and the
    CPU, wait queues, the timeout queue, the kernel objects, and the memory their
    buffers live in; with the two small monads in which the operations of the
    other files are written.

    The build modelled is a uniprocessor one ([CONFIG_SMP] off, so spin locks are
    the interrupt lock) with the switch-based context switch, list-based ready and
    wait queues, 64-bit timeouts and no user mode; assertions are enabled, and a
    failed one is a failure of the model.  Options that stay open are the fields
    of [KConfig]. *)

From S2P Require Import Prelude TimeUnits Timeout PriorityQ.

Local Open Scope Z_scope.

(** Kernel objects other than threads are named by their address. *)
Abbreviation addr := positive (only parsing).

(** ** Build options and link-time objects *)

Class KConfig := {
  kc_timeout :: TimeoutConfig;
  kc_units :: TimeUnitsConfig;
  CONFIG_NUM_COOP_PRIORITIES : Z;
  CONFIG_NUM_PREEMPT_PRIORITIES : Z;
  CONFIG_NUM_METAIRQ_PRIORITIES : Z;
  CONFIG_PRIORITY_CEILING : Z;
  CONFIG_TIMESLICING : bool;
  CONFIG_SWAP_NONATOMIC : bool;
  CONFIG_MEM_SLAB_TRACE_MAX_UTILIZATION : bool;
  z_idle_thread : tid;          (* &z_idle_threads[0] *)
  thread_dummy : tid            (* &_thread_dummy *)
}.

(** ** Constants *)

Definition _THREAD_DUMMY := BIT 0.
Definition _THREAD_PENDING := BIT 1.
Definition _THREAD_PRESTART := BIT 2.
Definition _THREAD_DEAD := BIT 3.
Definition _THREAD_SUSPENDED := BIT 4.
Definition _THREAD_ABORTING := BIT 5.
Definition _THREAD_SUSPENDING := BIT 6.
Definition _THREAD_QUEUED := BIT 7.

Definition _PREEMPT_THRESHOLD : Z := 128 - 1.
Definition K_ESSENTIAL := BIT 0.

(** errno values the kernel returns, negated. *)
Definition EPERM : Z := 1.
Definition EAGAIN : Z := 11.
Definition ENOMEM : Z := 12.
Definition EFAULT : Z := 14.
Definition EBUSY : Z := 16.
Definition EDEADLK : Z := 45.
Definition ENOMSG : Z := 35.

Section Priorities.
Context `{KConfig}.
Definition K_HIGHEST_THREAD_PRIO : Z := - CONFIG_NUM_COOP_PRIORITIES.
Definition K_LOWEST_THREAD_PRIO : Z := CONFIG_NUM_PREEMPT_PRIORITIES.
Definition K_IDLE_PRIO : Z := K_LOWEST_THREAD_PRIO.
Definition K_HIGHEST_APPLICATION_THREAD_PRIO : Z := K_HIGHEST_THREAD_PRIO.
Definition K_LOWEST_APPLICATION_THREAD_PRIO : Z := K_LOWEST_THREAD_PRIO - 1.
End Priorities.

(** ** Wait queues

    A [_wait_q_t] is named by where it is embedded: the [join_queue] of a thread or
    the [wait_q] of an object. *)
Inductive wqid := WQ_join (thread : tid) | WQ_obj (object : addr).

#[export] Instance wqid_eq_dec : EqDecision wqid.
Proof. solve_decision. Defined.

#[export] Instance wqid_countable : Countable wqid.
Proof.
  refine (inj_countable' (fun w => match w with WQ_join t => inl t | WQ_obj a => inr a end)
    (fun x => match x with inl t => WQ_join t | inr a => WQ_obj a end) _).
  by intros [].
Defined.

(** ** Threads *)

(** The fields of [struct k_thread] and its [_thread_base] the code uses.  The
    thread's timeout is the entry [TN_thread] of the timeout queue, its join queue
    the wait queue [WQ_join]. *)
Record k_thread := mkThread {
  pended_on : option wqid;
  user_options : Z;
  thread_state : Z;
  prio : Z;
  sched_locked : Z;
  swap_data : Z;
  swap_retval : Z;
  next_event_link : option tid;
  th_events : Z;
  event_options : Z;
  no_wake_on_timeout : bool
}.

#[export] Instance k_thread_eq_dec : EqDecision k_thread.
Proof. solve_decision. Defined.

Definition with_pended_on (v : option wqid) (s : k_thread) : k_thread :=
  mkThread v (user_options s) (thread_state s) (prio s) (sched_locked s) (swap_data s) (swap_retval s) (next_event_link s) (th_events s) (event_options s) (no_wake_on_timeout s).
Definition with_user_options (v : Z) (s : k_thread) : k_thread :=
  mkThread (pended_on s) v (thread_state s) (prio s) (sched_locked s) (swap_data s) (swap_retval s) (next_event_link s) (th_events s) (event_options s) (no_wake_on_timeout s).
Definition with_thread_state (v : Z) (s : k_thread) : k_thread :=
  mkThread (pended_on s) (user_options s) v (prio s) (sched_locked s) (swap_data s) (swap_retval s) (next_event_link s) (th_events s) (event_options s) (no_wake_on_timeout s).
Definition with_prio (v : Z) (s : k_thread) : k_thread :=
  mkThread (pended_on s) (user_options s) (thread_state s) v (sched_locked s) (swap_data s) (swap_retval s) (next_event_link s) (th_events s) (event_options s) (no_wake_on_timeout s).
Definition with_sched_locked (v : Z) (s : k_thread) : k_thread :=
  mkThread (pended_on s) (user_options s) (thread_state s) (prio s) v (swap_data s) (swap_retval s) (next_event_link s) (th_events s) (event_options s) (no_wake_on_timeout s).
Definition with_swap_data (v : Z) (s : k_thread) : k_thread :=
  mkThread (pended_on s) (user_options s) (thread_state s) (prio s) (sched_locked s) v (swap_retval s) (next_event_link s) (th_events s) (event_options s) (no_wake_on_timeout s).
Definition with_swap_retval (v : Z) (s : k_thread) : k_thread :=
  mkThread (pended_on s) (user_options s) (thread_state s) (prio s) (sched_locked s) (swap_data s) v (next_event_link s) (th_events s) (event_options s) (no_wake_on_timeout s).
Definition with_next_event_link (v : option tid) (s : k_thread) : k_thread :=
  mkThread (pended_on s) (user_options s) (thread_state s) (prio s) (sched_locked s) (swap_data s) (swap_retval s) v (th_events s) (event_options s) (no_wake_on_timeout s).
Definition with_th_events (v : Z) (s : k_thread) : k_thread :=
  mkThread (pended_on s) (user_options s) (thread_state s) (prio s) (sched_locked s) (swap_data s) (swap_retval s) (next_event_link s) v (event_options s) (no_wake_on_timeout s).
Definition with_event_options (v : Z) (s : k_thread) : k_thread :=
  mkThread (pended_on s) (user_options s) (thread_state s) (prio s) (sched_locked s) (swap_data s) (swap_retval s) (next_event_link s) (th_events s) v (no_wake_on_timeout s).
Definition with_no_wake_on_timeout (v : bool) (s : k_thread) : k_thread :=
  mkThread (pended_on s) (user_options s) (thread_state s) (prio s) (sched_locked s) (swap_data s) (swap_retval s) (next_event_link s) (th_events s) (event_options s) v.

(** ** Objects *)

Record k_sem := mkSem { sem_count : Z; sem_limit : Z }.

Record k_mutex := mkMutex { owner : option tid; lock_count : Z; owner_orig_prio : Z }.

Record k_msgq := mkMsgq {
  msg_size : Z; max_msgs : Z; buffer_start : Z; buffer_end : Z;
  read_ptr : Z; write_ptr : Z; used_msgs : Z; msgq_flags : Z
}.

Record k_stack := mkStack { stk_base : Z; stk_next : Z; stk_top : Z; stk_flags : Z }.

Record k_event := mkEvent { ev_events : Z }.

(** [NULL] is the address 0. *)
Record k_mem_slab := mkSlab {
  slab_buffer : Z; slab_free_list : Z;
  num_blocks : Z; block_size : Z; num_used : Z; max_used : Z
}.

Inductive kobj :=
  | O_sem (sem : k_sem)
  | O_mutex (mutex : k_mutex)
  | O_condvar
  | O_msgq (msgq : k_msgq)
  | O_stack (stack : k_stack)
  | O_event (event : k_event)
  | O_slab (slab : k_mem_slab).

#[export] Instance k_sem_eq_dec : EqDecision k_sem.
Proof. solve_decision. Defined.
#[export] Instance k_mutex_eq_dec : EqDecision k_mutex.
Proof. solve_decision. Defined.
#[export] Instance k_msgq_eq_dec : EqDecision k_msgq.
Proof. solve_decision. Defined.
#[export] Instance k_stack_eq_dec : EqDecision k_stack.
Proof. solve_decision. Defined.
#[export] Instance k_event_eq_dec : EqDecision k_event.
Proof. solve_decision. Defined.
#[export] Instance k_mem_slab_eq_dec : EqDecision k_mem_slab.
Proof. solve_decision. Defined.
#[export] Instance kobj_eq_dec : EqDecision kobj.
Proof. solve_decision. Defined.

(** ** The state

    [current], [nested] and [metairq_preempted] are fields of the one [struct _cpu],
    [cache] and [runq] of [_kernel.ready_q]; the [slice_] variables and
    [pending_current] are those of kernel/timeslicing.c.  [irq_locked] is the
    interrupt lock; a lock key is its previous value.  A cell of [mem] is a byte or
    a word of a buffer, at its address. *)
Record kstate := mkK {
  threads : gmap tid k_thread;
  current : tid;
  cache : tid;
  runq : list tid;
  metairq_preempted : option tid;
  nested : Z;
  irq_locked : bool;
  waitqs : gmap wqid (list tid);
  tq : timeout_q;
  slice_ticks : Z;
  slice_max_prio : Z;
  slice_expired : bool;
  pending_current : option tid;
  objs : gmap addr kobj;
  mem : gmap Z Z
}.

#[export] Instance kstate_eq_dec : EqDecision kstate.
Proof. solve_decision. Defined.

Definition set_threads (v : gmap tid k_thread) (s : kstate) : kstate :=
  mkK v (current s) (cache s) (runq s) (metairq_preempted s) (nested s) (irq_locked s) (waitqs s) (tq s) (slice_ticks s) (slice_max_prio s) (slice_expired s) (pending_current s) (objs s) (mem s).
Definition set_current (v : tid) (s : kstate) : kstate :=
  mkK (threads s) v (cache s) (runq s) (metairq_preempted s) (nested s) (irq_locked s) (waitqs s) (tq s) (slice_ticks s) (slice_max_prio s) (slice_expired s) (pending_current s) (objs s) (mem s).
Definition set_cache (v : tid) (s : kstate) : kstate :=
  mkK (threads s) (current s) v (runq s) (metairq_preempted s) (nested s) (irq_locked s) (waitqs s) (tq s) (slice_ticks s) (slice_max_prio s) (slice_expired s) (pending_current s) (objs s) (mem s).
Definition set_runq (v : list tid) (s : kstate) : kstate :=
  mkK (threads s) (current s) (cache s) v (metairq_preempted s) (nested s) (irq_locked s) (waitqs s) (tq s) (slice_ticks s) (slice_max_prio s) (slice_expired s) (pending_current s) (objs s) (mem s).
Definition set_metairq_preempted (v : option tid) (s : kstate) : kstate :=
  mkK (threads s) (current s) (cache s) (runq s) v (nested s) (irq_locked s) (waitqs s) (tq s) (slice_ticks s) (slice_max_prio s) (slice_expired s) (pending_current s) (objs s) (mem s).
Definition set_nested (v : Z) (s : kstate) : kstate :=
  mkK (threads s) (current s) (cache s) (runq s) (metairq_preempted s) v (irq_locked s) (waitqs s) (tq s) (slice_ticks s) (slice_max_prio s) (slice_expired s) (pending_current s) (objs s) (mem s).
Definition set_irq_locked (v : bool) (s : kstate) : kstate :=
  mkK (threads s) (current s) (cache s) (runq s) (metairq_preempted s) (nested s) v (waitqs s) (tq s) (slice_ticks s) (slice_max_prio s) (slice_expired s) (pending_current s) (objs s) (mem s).
Definition set_waitqs (v : gmap wqid (list tid)) (s : kstate) : kstate :=
  mkK (threads s) (current s) (cache s) (runq s) (metairq_preempted s) (nested s) (irq_locked s) v (tq s) (slice_ticks s) (slice_max_prio s) (slice_expired s) (pending_current s) (objs s) (mem s).
Definition set_tq (v : timeout_q) (s : kstate) : kstate :=
  mkK (threads s) (current s) (cache s) (runq s) (metairq_preempted s) (nested s) (irq_locked s) (waitqs s) v (slice_ticks s) (slice_max_prio s) (slice_expired s) (pending_current s) (objs s) (mem s).
Definition set_slice_ticks (v : Z) (s : kstate) : kstate :=
  mkK (threads s) (current s) (cache s) (runq s) (metairq_preempted s) (nested s) (irq_locked s) (waitqs s) (tq s) v (slice_max_prio s) (slice_expired s) (pending_current s) (objs s) (mem s).
Definition set_slice_max_prio (v : Z) (s : kstate) : kstate :=
  mkK (threads s) (current s) (cache s) (runq s) (metairq_preempted s) (nested s) (irq_locked s) (waitqs s) (tq s) (slice_ticks s) v (slice_expired s) (pending_current s) (objs s) (mem s).
Definition set_slice_expired (v : bool) (s : kstate) : kstate :=
  mkK (threads s) (current s) (cache s) (runq s) (metairq_preempted s) (nested s) (irq_locked s) (waitqs s) (tq s) (slice_ticks s) (slice_max_prio s) v (pending_current s) (objs s) (mem s).
Definition set_pending_current (v : option tid) (s : kstate) : kstate :=
  mkK (threads s) (current s) (cache s) (runq s) (metairq_preempted s) (nested s) (irq_locked s) (waitqs s) (tq s) (slice_ticks s) (slice_max_prio s) (slice_expired s) v (objs s) (mem s).
Definition set_objs (v : gmap addr kobj) (s : kstate) : kstate :=
  mkK (threads s) (current s) (cache s) (runq s) (metairq_preempted s) (nested s) (irq_locked s) (waitqs s) (tq s) (slice_ticks s) (slice_max_prio s) (slice_expired s) (pending_current s) v (mem s).
Definition set_mem (v : gmap Z Z) (s : kstate) : kstate :=
  mkK (threads s) (current s) (cache s) (runq s) (metairq_preempted s) (nested s) (irq_locked s) (waitqs s) (tq s) (slice_ticks s) (slice_max_prio s) (slice_expired s) (pending_current s) (objs s) v.

(** ** Monads

    [K] is code that runs to completion: a state monad in which [None] is a failed
    assertion, an invalid pointer or another undefined behaviour of the C code. *)

Definition K (A : Type) : Type := kstate -> option (A * kstate).

#[export] Instance K_ret : MRet K := fun A a s => Some (a, s).
#[export] Instance K_bind : MBind K := fun A B f m s =>
  match m s with
  | Some (a, s') => f a s'
  | None => None
  end.

Definition kget {A} (f : kstate -> A) : K A := fun s => Some (f s, s).
Definition kmod (f : kstate -> kstate) : K unit := fun s => Some (tt, f s).
Definition kfail {A} : K A := fun _ => None.
Definition kassert (b : bool) : K unit := if b then mret tt else kfail.
Definition kwhen (b : bool) (m : K unit) : K unit := if b then m else mret tt.

(** [M] is code that may give up the CPU: a context switch is a [Swap] that carries
    the state handed to the next thread and how the code goes on when the thread
    that runs it is switched in again. *)
Inductive run (A : Type) : Type :=
  | Ret (a : A) (s : kstate)
  | Err
  | Swap (s : kstate) (resume : kstate -> run A).
Arguments Ret {A} a s.
Arguments Err {A}.
Arguments Swap {A} s resume.

Definition M (A : Type) : Type := kstate -> run A.

Fixpoint run_bind {A B} (r : run A) (f : A -> kstate -> run B) : run B :=
  match r with
  | Ret a s => f a s
  | Err => Err
  | Swap s k => Swap s (fun s' => run_bind (k s') f)
  end.

#[export] Instance M_ret : MRet M := fun A a s => Ret a s.
#[export] Instance M_bind : MBind M := fun A B f m s => run_bind (m s) f.

Definition lift {A} (m : K A) : M A := fun s =>
  match m s with
  | Some (a, s') => Ret a s'
  | None => Err
  end.

(** [arch_switch]: the CPU runs another thread until this one is switched in. *)
Definition arch_switch : M unit := fun s => Swap s (fun s' => Ret tt s').

(** ** Access to the state *)

(** Dereferencing a thread pointer. *)
Definition get_thread (t : tid) : K k_thread := fun s =>
  match threads s !! t with
  | Some th => Some (th, s)
  | None => None
  end.
Definition upd_thread (t : tid) (f : k_thread -> k_thread) : K unit :=
  th ← get_thread t; kmod (fun s => set_threads (<[t := f th]> (threads s)) s).

Definition prio_of (s : kstate) (t : tid) : Z := from_option prio 0 (threads s !! t).

Definition waitq (s : kstate) (w : wqid) : list tid := default [] (waitqs s !! w).
Definition put_waitq (w : wqid) (l : list tid) : K unit :=
  kmod (fun s => set_waitqs (<[w := l]> (waitqs s)) s).

(** Objects: a pointer to an object of the wrong type is invalid. *)
Definition get_sem (a : addr) : K k_sem := fun s =>
  match objs s !! a with Some (O_sem o) => Some (o, s) | _ => None end.
Definition get_mutex (a : addr) : K k_mutex := fun s =>
  match objs s !! a with Some (O_mutex o) => Some (o, s) | _ => None end.
Definition get_condvar (a : addr) : K unit := fun s =>
  match objs s !! a with Some O_condvar => Some (tt, s) | _ => None end.
Definition get_msgq (a : addr) : K k_msgq := fun s =>
  match objs s !! a with Some (O_msgq o) => Some (o, s) | _ => None end.
Definition get_stack (a : addr) : K k_stack := fun s =>
  match objs s !! a with Some (O_stack o) => Some (o, s) | _ => None end.
Definition get_event (a : addr) : K k_event := fun s =>
  match objs s !! a with Some (O_event o) => Some (o, s) | _ => None end.
Definition get_slab (a : addr) : K k_mem_slab := fun s =>
  match objs s !! a with Some (O_slab o) => Some (o, s) | _ => None end.
Definition put_obj (a : addr) (o : kobj) : K unit := kmod (fun s => set_objs (<[a := o]> (objs s)) s).

(** Memory: [memcpy] and single loads and stores; an address that holds nothing is
    invalid to read and to write. *)
Definition mem_load (a : Z) : K Z := fun s =>
  match mem s !! a with Some v => Some (v, s) | None => None end.
Definition mem_store (a v : Z) : K unit := fun s =>
  match mem s !! a with Some _ => Some (tt, set_mem (<[a := v]> (mem s)) s) | None => None end.

Fixpoint mem_read (m : gmap Z Z) (a : Z) (n : nat) : option (list Z) :=
  match n with
  | O => Some []
  | S n => v ← m !! a; l ← mem_read m (a + 1) n; Some (v :: l)
  end.
Fixpoint mem_write (m : gmap Z Z) (a : Z) (l : list Z) : gmap Z Z :=
  match l with
  | [] => m
  | v :: l => mem_write (<[a := v]> m) (a + 1) l
  end.
Definition memcpy (dst src n : Z) : K unit := fun s =>
  match mem_read (mem s) src (Z.to_nat n), mem_read (mem s) dst (Z.to_nat n) with
  | Some l, Some _ => Some (tt, set_mem (mem_write (mem s) dst l) s)
  | _, _ => None
  end.

(** ** Interrupts and locks

    On one CPU a spin lock only masks interrupts. *)
Definition arch_is_in_isr : K bool := kget (fun s => negb (nested s =? 0)).
Definition arch_irq_lock : K bool := key ← kget irq_locked; kmod (set_irq_locked true);; mret key.
Definition arch_irq_unlock (key : bool) : K unit := kmod (set_irq_locked key).
Definition arch_irq_unlocked (key : bool) : bool := negb key.

Definition k_spin_lock : K bool := arch_irq_lock.
Definition k_spin_unlock (key : bool) : K unit := arch_irq_unlock key.

Definition K_SPINLOCK {A} (body : K A) : K A :=
  key ← k_spin_lock; r ← body; k_spin_unlock key;; mret r.

(** The locks [z_swap] tells apart. *)
Inductive k_spinlock := Lock_sched | Lock_other.

#[export] Instance k_spinlock_eq_dec : EqDecision k_spinlock.
Proof. solve_decision. Defined.

(** ** The timeout queue *)

Definition k_add_timeout `{TimeoutConfig} (n : timeout_node) (f : timeout_fn) (timeout : k_timeout_t)
    : K unit := fun s =>
  match z_add_timeout n f timeout (tq s) with
  | Some q => Some (tt, set_tq q s)
  | None => None
  end.

Definition k_abort_timeout (n : timeout_node) : K Z := fun s =>
  let '(ret, q) := z_abort_timeout n (tq s) in Some (ret, set_tq q s).

Definition z_add_thread_timeout `{TimeoutConfig} (thread : tid) (ticks : k_timeout_t) : K unit :=
  k_add_timeout (TN_thread thread) fn_z_thread_timeout ticks.
Definition z_abort_thread_timeout (thread : tid) : K Z := k_abort_timeout (TN_thread thread).
