(* ===== verification/KLogic.v ===== *)
(** * Reasoning about kernel code

    Weakest preconditions for the two monads of [KState].  Both are total: a
    failure of the code falsifies them.  [mwp] is relative to what a thread
    guarantees when it gives up the CPU and what it may rely on when it runs
    again. *)

From S2P Require Import Prelude TimeUnits Timeout PriorityQ KState.

Local Open Scope Z_scope.

Definition kwp {A} (m : K A) (s : kstate) (Q : A -> kstate -> Prop) : Prop :=
  match m s with
  | Some (a, s') => Q a s'
  | None => False
  end.

Section KRules.
Implicit Types (s : kstate).

Lemma kwp_ret {A} (a : A) s Q : Q a s -> kwp (mret a) s Q.
Proof. done. Qed.

Lemma kwp_bind {A B} (m : K A) (f : A -> K B) s Q :
  kwp m s (fun a s' => kwp (f a) s' Q) -> kwp (m ≫= f) s Q.
Proof. unfold kwp, mbind, K_bind. destruct (m s) as [[]|]; done. Qed.
Lemma kwp_unbind {A B} (m : K A) (f : A -> K B) s Q :
  kwp (m ≫= f) s Q -> kwp m s (fun a s' => kwp (f a) s' Q).
Proof. unfold kwp, mbind, K_bind. by destruct (m s) as [[a s']|]. Qed.

Lemma kwp_mono {A} (m : K A) s (P Q : A -> kstate -> Prop) :
  kwp m s P -> (forall a s', P a s' -> Q a s') -> kwp m s Q.
Proof. unfold kwp. destruct (m s) as [[]|]; auto. Qed.

Lemma kwp_get {A} (f : kstate -> A) s Q : Q (f s) s -> kwp (kget f) s Q.
Proof. done. Qed.

Lemma kwp_mod f s Q : Q tt (f s) -> kwp (kmod f) s Q.
Proof. done. Qed.

Lemma kwp_assert b s Q : b = true -> Q tt s -> kwp (kassert b) s Q.
Proof. by intros ->. Qed.

Lemma kwp_when b (m : K unit) s Q :
  (b = true -> kwp m s Q) -> (b = false -> Q tt s) -> kwp (kwhen b m) s Q.
Proof. destruct b; intros H1 H2; [exact (H1 eq_refl)|exact (H2 eq_refl)]. Qed.

Lemma kwp_get_thread t th s Q : threads s !! t = Some th -> Q th s -> kwp (get_thread t) s Q.
Proof. unfold kwp, get_thread. by intros ->. Qed.

Lemma kwp_upd_thread t f th s Q :
  threads s !! t = Some th -> Q tt (set_threads (<[t := f th]> (threads s)) s) ->
  kwp (upd_thread t f) s Q.
Proof. intros E HQ. unfold upd_thread. apply kwp_bind. by eapply kwp_get_thread. Qed.

Lemma kwp_run {A} (m : K A) s Q : kwp m s Q -> exists a s', m s = Some (a, s') /\ Q a s'.
Proof. unfold kwp. destruct (m s) as [[a s']|]; [eauto|done]. Qed.

Lemma kwp_conj {A} (m : K A) s (P Q : A -> kstate -> Prop) :
  kwp m s P -> kwp m s Q -> kwp m s (fun a s' => P a s' /\ Q a s').
Proof. unfold kwp. destruct (m s) as [[]|]; auto. Qed.

(** Object access. *)
Lemma kwp_get_sem a o s Q : objs s !! a = Some (O_sem o) -> Q o s -> kwp (get_sem a) s Q.
Proof. unfold kwp, get_sem. by intros ->. Qed.
Lemma kwp_get_mutex a o s Q : objs s !! a = Some (O_mutex o) -> Q o s -> kwp (get_mutex a) s Q.
Proof. unfold kwp, get_mutex. by intros ->. Qed.
Lemma kwp_get_msgq a o s Q : objs s !! a = Some (O_msgq o) -> Q o s -> kwp (get_msgq a) s Q.
Proof. unfold kwp, get_msgq. by intros ->. Qed.
Lemma kwp_get_stack a o s Q : objs s !! a = Some (O_stack o) -> Q o s -> kwp (get_stack a) s Q.
Proof. unfold kwp, get_stack. by intros ->. Qed.
Lemma kwp_get_event a o s Q : objs s !! a = Some (O_event o) -> Q o s -> kwp (get_event a) s Q.
Proof. unfold kwp, get_event. by intros ->. Qed.
Lemma kwp_get_slab a o s Q : objs s !! a = Some (O_slab o) -> Q o s -> kwp (get_slab a) s Q.
Proof. unfold kwp, get_slab. by intros ->. Qed.
Lemma kwp_get_condvar a s (Q : unit -> kstate -> Prop) :
  objs s !! a = Some O_condvar -> Q tt s -> kwp (get_condvar a) s Q.
Proof. unfold kwp, get_condvar. by intros ->. Qed.

Lemma kwp_store p v s (Q : unit -> kstate -> Prop) :
  is_Some (mem s !! p) -> Q tt (set_mem (<[p := v]> (mem s)) s) -> kwp (mem_store p v) s Q.
Proof. unfold kwp, mem_store. by intros [x ->]. Qed.

Lemma kwp_load p v s (Q : Z -> kstate -> Prop) : mem s !! p = Some v -> Q v s -> kwp (mem_load p) s Q.
Proof. unfold kwp, mem_load. by intros ->. Qed.

Lemma kwp_lock s (Q : bool -> kstate -> Prop) :
  Q (irq_locked s) (set_irq_locked true s) -> kwp arch_irq_lock s Q.
Proof. done. Qed.

(** A critical section: interrupts are masked inside and restored after. *)
Lemma kwp_spinlock {A} (m : K A) s Q :
  kwp m (set_irq_locked true s) (fun a s' => Q a (set_irq_locked (irq_locked s) s')) ->
  kwp (K_SPINLOCK m) s Q.
Proof.
  intros Hm. unfold K_SPINLOCK, k_spin_lock, arch_irq_lock, k_spin_unlock, arch_irq_unlock.
  do 2 apply kwp_bind. apply kwp_get, kwp_bind, kwp_mod, kwp_ret, kwp_bind.
  eapply kwp_mono; [exact Hm|]. intros a s' HQ. apply kwp_bind, kwp_mod, kwp_ret. done.
Qed.
End KRules.

(** ** Code that gives up the CPU *)

(** A stretch of uninterrupted execution: whether it is the first of its call, and
    the state in which it began, where the call started or where its thread was last
    switched in. *)
Record stretch := Stretch { is_first : bool; began : kstate }.

(** [G b s]: the stretch [b] may hand the state [s] to the next thread; [R s s']: a
    thread that was switched out in [s] can be switched in in [s']. *)
Fixpoint rwp {A} (G : stretch -> kstate -> Prop) (R : kstate -> kstate -> Prop) (b : stretch) (r : run A)
    (Q : stretch -> A -> kstate -> Prop) : Prop :=
  match r with
  | Ret a s => Q b a s
  | Err => False
  | Swap s k => G b s /\ forall s', R s s' -> rwp G R (Stretch false s') (k s') Q
  end.

Definition mwp {A} (G : stretch -> kstate -> Prop) (R : kstate -> kstate -> Prop) (b : stretch) (m : M A)
    (s : kstate) (Q : stretch -> A -> kstate -> Prop) : Prop := rwp G R b (m s) Q.

(** Less can happen while the thread is switched out. *)
Lemma mwp_rely {A} G (R R' : kstate -> kstate -> Prop) b (m : M A) s Q :
  mwp G R b m s Q -> (forall s1 s2, R' s1 s2 -> R s1 s2) -> mwp G R' b m s Q.
Proof.
  unfold mwp. generalize (m s). intros r. revert b. induction r as [a s'| |s' k IH]; intros b; cbn; [done..|].
  intros [HG Hk] HR. split; [done|]. eauto.
Qed.

Section MRules.
Context (G : stretch -> kstate -> Prop) (R : kstate -> kstate -> Prop).
Implicit Types (b : stretch) (s : kstate).

Lemma rwp_bind {A B} b (r : run A) (f : A -> kstate -> run B) Q :
  rwp G R b r (fun b' a s' => rwp G R b' (f a s') Q) -> rwp G R b (run_bind r f) Q.
Proof. revert b. induction r as [a s| |s k IH]; intros b; cbn; naive_solver. Qed.

Lemma mwp_bind {A B} b (m : M A) (f : A -> M B) s Q :
  mwp G R b m s (fun b' a s' => mwp G R b' (f a) s' Q) -> mwp G R b (m ≫= f) s Q.
Proof. apply rwp_bind. Qed.

Lemma mwp_ret {A} b (a : A) s (Q : stretch -> A -> kstate -> Prop) : Q b a s -> mwp G R b (mret a) s Q.
Proof. done. Qed.

Lemma mwp_lift {A} b (m : K A) s (Q : stretch -> A -> kstate -> Prop) :
  kwp m s (Q b) -> mwp G R b (lift m) s Q.
Proof. unfold kwp, mwp, lift. destruct (m s) as [[]|]; done. Qed.

Lemma mwp_mono {A} b (m : M A) s (P Q : stretch -> A -> kstate -> Prop) :
  mwp G R b m s P -> (forall b' a s', P b' a s' -> Q b' a s') -> mwp G R b m s Q.
Proof.
  unfold mwp. generalize (m s). intros r. revert b.
  induction r as [a s'| |s' k IH]; intros b; cbn; [auto|done|].
  intros [HG Hk] HPQ. split; [done|]. eauto.
Qed.

Lemma mwp_switch b s (Q : stretch -> unit -> kstate -> Prop) :
  G b s -> (forall s', R s s' -> Q (Stretch false s') tt s') -> mwp G R b arch_switch s Q.
Proof. by split. Qed.
End MRules.

(** Run the code up to the next call that has a specification of its own. *)
Ltac kstep :=
  lazymatch goal with
  | |- kwp (_ ≫= _) _ _ => apply kwp_bind
  | |- kwp (mret _) _ _ => apply kwp_ret
  | |- kwp (kget _) _ _ => apply kwp_get
  | |- kwp (kmod _) _ _ => apply kwp_mod
  | |- kwp (put_obj _ _) _ _ => apply kwp_mod
  | |- kwp (put_waitq _ _) _ _ => apply kwp_mod
  | |- kwp arch_is_in_isr _ _ => apply kwp_get
  | |- kwp k_spin_lock _ _ => apply kwp_lock
  | |- kwp arch_irq_lock _ _ => apply kwp_lock
  | |- kwp (k_spin_unlock _) _ _ => apply kwp_mod
  | |- kwp (arch_irq_unlock _) _ _ => apply kwp_mod
  | |- mwp _ _ _ (_ ≫= _) _ _ => apply mwp_bind
  | |- mwp _ _ _ (mret _) _ _ => apply mwp_ret
  | |- mwp _ _ _ (lift _) _ _ => apply mwp_lift
  end; cbv beta.
Ltac ksteps := repeat kstep.
