(* ===== verification/MemOps.v ===== *)
(** * Memory: blocks of cells (memcpy and the buffers of objects)

    Facts about [mem_read] and [mem_write] of [KState], and [region]s of memory that
    are mapped and may be written. *)

From S2P Require Import Prelude KState KLogic.

Local Open Scope Z_scope.

(** The cells from [p] on. *)
Definition bytes (m : gmap Z Z) (p n : Z) : list Z := default [] (mem_read m p (Z.to_nat n)).

Definition within (p n q : Z) : Prop := p <= q < p + n.

#[export] Instance within_dec p n q : Decision (within p n q).
Proof. unfold within. apply _. Defined.

Definition mapped (m : gmap Z Z) (p n : Z) : Prop := forall q, within p n q -> is_Some (m !! q).

Definition region (W : kstate -> Z -> Prop) (s : kstate) (p n : Z) : Prop :=
  mapped (mem s) p n /\ forall q, within p n q -> W s q.

Section Memory.
Implicit Types (m : gmap Z Z) (p q n : Z) (l : list Z).

Lemma mem_read_mapped m p n : mapped m p n -> exists l, mem_read m p (Z.to_nat n) = Some l /\ length l = Z.to_nat n.
Proof.
  intros Hm. assert (Hk : forall i, (i < Z.to_nat n)%nat -> is_Some (m !! (p + Z.of_nat i)))
    by (intros i Hi; apply Hm; unfold within; lia). clear Hm.
  generalize dependent p. induction (Z.to_nat n) as [|k IH]; intros p Hk; cbn; [by exists []|].
  destruct (Hk O) as [v Hv]; [lia|]. replace (p + Z.of_nat 0) with p in Hv by lia. rewrite Hv. cbn.
  destruct (IH (p + 1)) as (l & -> & Hl).
  - intros i Hi. replace (p + 1 + Z.of_nat i) with (p + Z.of_nat (S i)) by lia. apply Hk. lia.
  - exists (v :: l). cbn. by rewrite Hl.
Qed.

Lemma bytes_read m p n : mapped m p n -> mem_read m p (Z.to_nat n) = Some (bytes m p n).
Proof. intros Hm. unfold bytes. by destruct (mem_read_mapped m p n Hm) as (l & -> & _). Qed.

Lemma bytes_length m p n : mapped m p n -> length (bytes m p n) = Z.to_nat n.
Proof. intros Hm. unfold bytes. by destruct (mem_read_mapped m p n Hm) as (l & -> & Hl). Qed.

Lemma bytes_ext m m' p n : (forall q, within p n q -> m' !! q = m !! q) -> bytes m' p n = bytes m p n.
Proof.
  intros Hm. unfold bytes. f_equal.
  assert (Hk : forall i, (i < Z.to_nat n)%nat -> m' !! (p + Z.of_nat i) = m !! (p + Z.of_nat i))
    by (intros i Hi; apply Hm; unfold within; lia). clear Hm.
  generalize dependent p. induction (Z.to_nat n) as [|k IH]; intros p Hk; cbn; [done|].
  pose proof (Hk O) as H0. replace (p + Z.of_nat 0) with p in H0 by lia. rewrite H0 by lia.
  destruct (m !! p) as [v|]; cbn; [|done]. rewrite (IH (p + 1)); [done|]. intros i Hi.
  replace (p + 1 + Z.of_nat i) with (p + Z.of_nat (S i)) by lia. apply Hk. lia.
Qed.

Lemma mem_write_lookup m p l q :
  mem_write m p l !! q = if decide (within p (Z.of_nat (length l)) q) then l !! Z.to_nat (q - p) else m !! q.
Proof.
  revert m p. induction l as [|v l IH]; intros m p; cbn [mem_write length].
  - by rewrite decide_False by (unfold within; cbn; lia).
  - rewrite IH. destruct (decide (q = p)) as [->|Hne].
    + rewrite decide_False by (unfold within; lia). rewrite lookup_insert_eq, decide_True by (unfold within; lia).
      by rewrite Z.sub_diag.
    + destruct (decide (within (p + 1) (Z.of_nat (length l)) q)) as [Hw|Hw]; unfold within in *.
      * rewrite decide_True by lia. replace (Z.to_nat (q - p)) with (S (Z.to_nat (q - (p + 1)))) by lia. done.
      * rewrite decide_False by lia. by rewrite lookup_insert_ne.
Qed.

Lemma mem_write_outside m p l q : ~ within p (Z.of_nat (length l)) q -> mem_write m p l !! q = m !! q.
Proof. intros Hq. by rewrite mem_write_lookup, decide_False. Qed.

Lemma mem_write_changed m p l q : mem_write m p l !! q <> m !! q -> within p (Z.of_nat (length l)) q.
Proof. rewrite mem_write_lookup. by case_decide. Qed.

Lemma mem_write_mapped m p l q :
  mapped m p (Z.of_nat (length l)) -> is_Some (mem_write m p l !! q) <-> is_Some (m !! q).
Proof.
  intros Hm. rewrite mem_write_lookup. case_decide as Hq; [|done]. split; [by intros _; apply Hm|].
  intros _. apply lookup_lt_is_Some. unfold within in Hq. lia.
Qed.

Lemma bytes_lookup m p n i : mapped m p n -> (i < Z.to_nat n)%nat -> bytes m p n !! i = m !! (p + Z.of_nat i).
Proof.
  intros Hm Hi. unfold bytes. destruct (mem_read_mapped m p n Hm) as (l & El & Hl). rewrite El. cbn. clear Hm Hl.
  generalize dependent l. revert p i Hi. induction (Z.to_nat n) as [|k IH]; intros p i Hi l El; [lia|]. cbn in El.
  destruct (m !! p) as [v|] eqn:Ev; cbn in El; [|done]. destruct (mem_read m (p + 1) k) as [l'|] eqn:El'; cbn in El; [|done].
  injection El as <-. destruct i as [|i]; cbn; [by rewrite Z.add_0_r|].
  rewrite (IH (p + 1) i) by (done || lia). f_equal. lia.
Qed.

(** What was written is read back. *)
Lemma bytes_write m p n l : 0 <= n -> length l = Z.to_nat n -> mapped m p n -> bytes (mem_write m p l) p n = l.
Proof.
  intros Hn Hl Hm. assert (Hl' : Z.of_nat (length l) = n) by lia.
  assert (Hm' : mapped (mem_write m p l) p n) by (intros q Hq; apply mem_write_mapped; [by rewrite Hl'|by apply Hm]).
  apply list_eq. intros i. destruct (decide (i < Z.to_nat n)%nat) as [Hi|Hi].
  - rewrite bytes_lookup, mem_write_lookup by done. rewrite decide_True by (unfold within; lia). f_equal. lia.
  - rewrite !lookup_ge_None_2; [done|lia|rewrite bytes_length by done; lia].
Qed.

Lemma kwp_memcpy dst src n s (Q : unit -> kstate -> Prop) :
  mapped (mem s) src n -> mapped (mem s) dst n ->
  Q tt (set_mem (mem_write (mem s) dst (bytes (mem s) src n)) s) -> kwp (memcpy dst src n) s Q.
Proof. intros Hs Hd HQ. unfold kwp, memcpy. by rewrite !bytes_read. Qed.
End Memory.
