(* ===== verification/RingBuf.v ===== *)
(** * Ring buffers (lib/utils/ring_buffer.c, include/zephyr/sys/ring_buffer.h)

    A byte queue in an array with free-running 32-bit indices, filled and drained
    through claims on contiguous parts of the array.  [Ring] is the code; the rest
    shows that it is a bounded first-in first-out queue of bytes, and of items when
    used through the item interface, for any number of bytes that have passed
    through, so also when the indices overflow. *)

From S2P Require Import Prelude Timeout KState.

Local Open Scope Z_scope.

(** ** The code *)

(** [buffer] is the array [buf->buffer] points to; [*data] is an index into it. *)
Record ring_buf := mkRing {
  rb_buffer : list Z;
  put_head : Z; put_tail : Z; put_base : Z;   (* int32_t *)
  get_head : Z; get_tail : Z; get_base : Z;   (* int32_t *)
  rb_size : Z                                 (* uint32_t *)
}.

Definition RING_BUFFER_MAX_SIZE : Z := 2147483648.

Definition with_buffer v b := mkRing v (put_head b) (put_tail b) (put_base b) (get_head b) (get_tail b) (get_base b) (rb_size b).
Definition with_put_head v b := mkRing (rb_buffer b) v (put_tail b) (put_base b) (get_head b) (get_tail b) (get_base b) (rb_size b).
Definition with_put_tail v b := mkRing (rb_buffer b) (put_head b) v (put_base b) (get_head b) (get_tail b) (get_base b) (rb_size b).
Definition with_put_base v b := mkRing (rb_buffer b) (put_head b) (put_tail b) v (get_head b) (get_tail b) (get_base b) (rb_size b).
Definition with_get_head v b := mkRing (rb_buffer b) (put_head b) (put_tail b) (put_base b) v (get_tail b) (get_base b) (rb_size b).
Definition with_get_tail v b := mkRing (rb_buffer b) (put_head b) (put_tail b) (put_base b) (get_head b) v (get_base b) (rb_size b).
Definition with_get_base v b := mkRing (rb_buffer b) (put_head b) (put_tail b) (put_base b) (get_head b) (get_tail b) v (rb_size b).

Definition ring_buf_internal_reset (buf : ring_buf) (value : Z) : ring_buf :=
  mkRing (rb_buffer buf) value value value value value value (rb_size buf).

(** [data] is the array the caller hands over. *)
Definition ring_buf_init (size : Z) (data : list Z) : option ring_buf :=
  if size <? RING_BUFFER_MAX_SIZE then Some (ring_buf_internal_reset (mkRing data 0 0 0 0 0 0 size) 0) else None.

Definition ring_buf_item_init (size : Z) (data : list Z) : option ring_buf :=
  if size <? RING_BUFFER_MAX_SIZE / 4 then ring_buf_init (u32 (4 * size)) data else None.

Definition ring_buf_is_empty (buf : ring_buf) : bool := get_head buf =? put_tail buf.
Definition ring_buf_reset (buf : ring_buf) : ring_buf := ring_buf_internal_reset buf 0.
Definition ring_buf_space_get (buf : ring_buf) : Z := u32 (rb_size buf - s32 (put_head buf - get_tail buf)).
Definition ring_buf_item_space_get (buf : ring_buf) : Z := ring_buf_space_get buf / 4.
Definition ring_buf_capacity_get (buf : ring_buf) : Z := rb_size buf.
Definition ring_buf_size_get (buf : ring_buf) : Z := u32 (put_tail buf - get_head buf).

Definition ring_buf_put_claim (buf : ring_buf) (size : Z) : Z * Z * ring_buf :=
  let base := put_base buf in
  let wrap_size := u32 (put_head buf - base) in
  let '(wrap_size, base) :=
    if wrap_size >=? rb_size buf
    then (u32 (wrap_size - rb_size buf), s32 (base + rb_size buf)) else (wrap_size, base) in
  let wrap_size := u32 (rb_size buf - wrap_size) in
  let free_space := ring_buf_space_get buf in
  let size := Z.min size free_space in
  let size := Z.min size wrap_size in
  let data := s32 (put_head buf - base) in
  (size, data, with_put_head (s32 (put_head buf + size)) buf).

Definition ring_buf_put_finish (buf : ring_buf) (size : Z) : Z * ring_buf :=
  let finish_space := u32 (put_head buf - put_tail buf) in
  if size >? finish_space then (- EINVAL, buf)
  else
    let buf := with_put_tail (s32 (put_tail buf + size)) buf in
    let buf := with_put_head (put_tail buf) buf in
    let wrap_size := u32 (put_tail buf - put_base buf) in
    let buf := if wrap_size >=? rb_size buf then with_put_base (s32 (put_base buf + rb_size buf)) buf else buf in
    (0, buf).

(** [memcpy(dst, data, n)] into the array; outside of either array there is nothing. *)
Definition copy_in (buf : ring_buf) (dst : Z) (data : list Z) (n : Z) : option ring_buf :=
  if (0 <=? dst) && (dst + n <=? Z.of_nat (length (rb_buffer buf))) && (n <=? Z.of_nat (length data))
  then Some (with_buffer (list_inserts (Z.to_nat dst) (take (Z.to_nat n) data) (rb_buffer buf)) buf)
  else None.

(** [memcpy(data, src, n)] out of the array. *)
Definition copy_out (buf : ring_buf) (src : Z) (n : Z) : option (list Z) :=
  if (0 <=? src) && (src + n <=? Z.of_nat (length (rb_buffer buf)))
  then Some (take (Z.to_nat n) (drop (Z.to_nat src) (rb_buffer buf)))
  else None.

(** The loop of [ring_buf_put] and [ring_buf_item_put]; it returns what is left of
    [size] and the total. *)
Fixpoint put_loop (fuel : nat) (buf : ring_buf) (data : list Z) (size total_size : Z) : option (Z * Z * ring_buf) :=
  match fuel with
  | O => None
  | S fuel =>
      let '(partial_size, dst, buf) := ring_buf_put_claim buf size in
      buf ← copy_in buf dst data partial_size;
      let total_size := u32 (total_size + partial_size) in
      let size := u32 (size - partial_size) in
      let data := drop (Z.to_nat partial_size) data in
      if negb (size =? 0) && negb (partial_size =? 0) then put_loop fuel buf data size total_size
      else Some (size, total_size, buf)
  end.

Definition ring_buf_put (buf : ring_buf) (data : list Z) (size : Z) : option (Z * ring_buf) :=
  '(_, total_size, buf) ← put_loop (S (Z.to_nat size)) buf data size 0;
  let '(err, buf) := ring_buf_put_finish buf total_size in
  if err =? 0 then Some (total_size, buf) else None.

Definition ring_buf_get_claim (buf : ring_buf) (size : Z) : Z * Z * ring_buf :=
  let base := get_base buf in
  let wrap_size := u32 (get_head buf - base) in
  let '(wrap_size, base) :=
    if wrap_size >=? rb_size buf
    then (u32 (wrap_size - rb_size buf), s32 (base + rb_size buf)) else (wrap_size, base) in
  let wrap_size := u32 (rb_size buf - wrap_size) in
  let available_size := ring_buf_size_get buf in
  let size := Z.min size available_size in
  let size := Z.min size wrap_size in
  let data := s32 (get_head buf - base) in
  (size, data, with_get_head (s32 (get_head buf + size)) buf).

Definition ring_buf_get_finish (buf : ring_buf) (size : Z) : Z * ring_buf :=
  let finish_space := u32 (get_head buf - get_tail buf) in
  if size >? finish_space then (- EINVAL, buf)
  else
    let buf := with_get_tail (s32 (get_tail buf + size)) buf in
    let buf := with_get_head (get_tail buf) buf in
    let wrap_size := u32 (get_tail buf - get_base buf) in
    let buf := if wrap_size >=? rb_size buf then with_get_base (s32 (get_base buf + rb_size buf)) buf else buf in
    (0, buf).

(** The loop of [ring_buf_get], [ring_buf_peek] and [ring_buf_item_get]; it returns the
    bytes it copied and the total. *)
Fixpoint get_loop (fuel : nat) (buf : ring_buf) (data : list Z) (size total_size : Z) : option (list Z * Z * ring_buf) :=
  match fuel with
  | O => None
  | S fuel =>
      let '(partial_size, src, buf) := ring_buf_get_claim buf size in
      l ← copy_out buf src partial_size;
      let data := data ++ l in
      let total_size := u32 (total_size + partial_size) in
      let size := u32 (size - partial_size) in
      if negb (size =? 0) && negb (partial_size =? 0) then get_loop fuel buf data size total_size
      else Some (data, total_size, buf)
  end.

(** The result is the total and what was stored through [data], nothing when that is
    [NULL]. *)
Definition ring_buf_get (buf : ring_buf) (data_null : bool) (size : Z) : option (Z * list Z * ring_buf) :=
  '(data, total_size, buf) ← get_loop (S (Z.to_nat size)) buf [] size 0;
  let '(err, buf) := ring_buf_get_finish buf total_size in
  if err =? 0 then Some (total_size, if data_null then [] else data, buf) else None.

Definition ring_buf_peek (buf : ring_buf) (size : Z) : option (Z * list Z * ring_buf) :=
  let size := Z.min size (ring_buf_size_get buf) in
  '(data, total_size, buf) ← get_loop (S (Z.to_nat size)) buf [] size 0;
  let '(err, buf) := ring_buf_get_finish buf 0 in
  if err =? 0 then Some (total_size, data, buf) else None.

(** [struct ring_element] in memory, with the bit fields of a little-endian target. *)
Definition ring_element_bytes (type length value : Z) : list Z :=
  [type mod 256; type / 256 mod 256; length mod 256; value mod 256].
Definition sizeof_ring_element : Z := 4.

Definition EMSGSIZE : Z := 122.

Definition ring_buf_item_put (buf : ring_buf) (type value : Z) (data : list Z) (size32 : Z) : option (Z * ring_buf) :=
  let space := ring_buf_space_get buf in
  let size := u32 (size32 * 4) in
  if u32 (size + sizeof_ring_element) >? space then Some (- EMSGSIZE, buf)
  else
    let '(err, dst, buf) := ring_buf_put_claim buf sizeof_ring_element in
    if negb (err =? sizeof_ring_element) then None
    else
      buf ← copy_in buf dst (ring_element_bytes type size32 value) sizeof_ring_element;
      '(size, total_size, buf) ← put_loop (S (Z.to_nat size)) buf data size sizeof_ring_element;
      if negb (size =? 0) then None
      else
        let '(err, buf) := ring_buf_put_finish buf total_size in
        if err =? 0 then Some (0, buf) else None.

(** [*size32] on entry is [size32]; the results are the return value, what was stored in
    [*type] and [*value] and through [data], if anything was, and [*size32]. *)
Definition ring_buf_item_get (buf : ring_buf) (data_null : bool) (size32 : Z)
    : option (Z * option (Z * Z * list Z) * Z * ring_buf) :=
  if ring_buf_is_empty buf then Some (- EAGAIN, None, size32, buf)
  else
    let '(err, src, buf) := ring_buf_get_claim buf sizeof_ring_element in
    if negb (err =? sizeof_ring_element) then None
    else
      header ← copy_out buf src sizeof_ring_element;
      match header with
      | [t0; t1; len; val] =>
          if negb data_null && (len >? size32) then
            let '(_, buf) := ring_buf_get_finish buf 0 in Some (- EMSGSIZE, None, len, buf)
          else
            let size := u32 (len * 4) in
            '(data, total_size, buf) ← get_loop (S (Z.to_nat size)) buf [] size sizeof_ring_element;
            let '(err, buf) := ring_buf_get_finish buf total_size in
            if err =? 0 then Some (0, Some (t0 + 256 * t1, val, if data_null then [] else data), len, buf) else None
      | _ => None
      end.

(** ** Positions

    The indices stand for positions in an endless sequence of bytes: [gt] and [pt] are
    the first position not yet released by the reader and not yet committed by the
    writer, [gh] and [ph] the ends of what they have claimed.  The byte at position [i]
    is at index [i mod size]. *)

Record ring_ok (buf : ring_buf) (gt gh pt ph : Z) : Prop := {
  ro_size : 0 < rb_size buf < RING_BUFFER_MAX_SIZE;
  ro_buffer : Z.of_nat (length (rb_buffer buf)) = rb_size buf;
  ro_order : 0 <= gt <= gh /\ gh <= pt <= ph /\ ph <= gt + rb_size buf;
  ro_put_head : put_head buf = s32 ph;
  ro_put_tail : put_tail buf = s32 pt;
  ro_put_base : put_base buf = s32 (rb_size buf * (pt / rb_size buf));
  ro_get_head : get_head buf = s32 gh;
  ro_get_tail : get_tail buf = s32 gt;
  ro_get_base : get_base buf = s32 (rb_size buf * (gt / rb_size buf))
}.

(** The byte at position [i], and the [n] bytes from there on. *)
Definition byte_at (buf : ring_buf) (i : Z) : Z := rb_buffer buf !!! Z.to_nat (i mod rb_size buf).
Definition segment (buf : ring_buf) (i n : Z) : list Z := byte_at buf <$> seqZ i n.

Section Index.
Implicit Types (x y z sz : Z).

Lemma wrap_s_mod w x : 1 <= w -> wrap_s w x mod 2 ^ w = x mod 2 ^ w.
Proof.
  intros Hw. unfold wrap_s. rewrite Zminus_mod_idemp_l. f_equal. lia.
Qed.

Lemma s32_diff x y : 0 <= x - y < 2 ^ 32 -> u32 (s32 x - s32 y) = x - y.
Proof.
  intros Hd. unfold wrap_u. rewrite Zminus_mod, !wrap_s_mod, <- Zminus_mod by lia. by apply Z.mod_small.
Qed.

Lemma wrap_s_congr w x y : x mod 2 ^ w = y mod 2 ^ w -> wrap_s w x = wrap_s w y.
Proof. intros E. unfold wrap_s. by rewrite <- (Zplus_mod_idemp_l x), <- (Zplus_mod_idemp_l y), E. Qed.

Lemma s32_add x y : s32 (s32 x + y) = s32 (x + y).
Proof. apply wrap_s_congr. by rewrite <- Zplus_mod_idemp_l, wrap_s_mod, Zplus_mod_idemp_l by lia. Qed.

Lemma s32_sub x y : 0 <= x - y < 2 ^ 31 -> s32 (s32 x - s32 y) = x - y.
Proof.
  intros Hd. transitivity (s32 (x - y)); [|apply wrap_s_small; lia].
  apply wrap_s_congr. by rewrite Zminus_mod, !wrap_s_mod, <- Zminus_mod by lia.
Qed.

(** Where a head lies relative to the base of its tail. *)
Lemma head_index sz t h :
  0 < sz -> t <= h <= t + sz ->
  let b := sz * (t / sz) in
  0 <= h - b < 2 * sz /\ h mod sz = if h - b >=? sz then h - b - sz else h - b.
Proof.
  intros Hsz Hh b. pose proof (Z.div_mod t sz ltac:(lia)) as Hdm. pose proof (Z.mod_pos_bound t sz Hsz) as Hm.
  fold b in Hdm. split; [lia|]. rewrite Z.geb_leb.
  destruct (Z.leb_spec sz (h - b)); symmetry.
  - apply (Z.mod_unique_pos h sz (t / sz + 1)); subst b; lia.
  - apply (Z.mod_unique_pos h sz (t / sz)); subst b; lia.
Qed.

(** What the claim functions compute of head and base. *)
Lemma claim_index sz t h :
  0 < sz < 2 ^ 31 -> t <= h <= t + sz ->
  let base := s32 (sz * (t / sz)) in
  let wrap_size := u32 (s32 h - base) in
  (if wrap_size >=? sz then (u32 (wrap_size - sz), s32 (base + sz)) else (wrap_size, base)) =
  (h mod sz, s32 (h - h mod sz)).
Proof.
  intros Hsz Hh. cbv zeta. destruct (head_index sz t h ltac:(lia) Hh) as [Hr Hm]. set (b := sz * (t / sz)) in *.
  rewrite s32_diff by lia. rewrite Hm. rewrite Z.geb_leb in *. destruct (Z.leb_spec sz (h - b)).
  - f_equal; [apply wrap_u_small; lia|]. rewrite s32_add. f_equal. lia.
  - do 2 f_equal. lia.
Qed.

(** What the finish functions compute of tail and base. *)
Lemma finish_base sz t n :
  0 < sz < 2 ^ 31 -> 0 <= n <= sz ->
  let base := s32 (sz * (t / sz)) in
  (if u32 (s32 (t + n) - base) >=? sz then s32 (base + sz) else base) = s32 (sz * ((t + n) / sz)).
Proof.
  intros Hsz Hn. cbv zeta. destruct (head_index sz t (t + n) ltac:(lia) ltac:(lia)) as [Hr Hm].
  set (b := sz * (t / sz)) in *. rewrite s32_diff by lia.
  pose proof (Z.div_mod (t + n) sz ltac:(lia)) as Hdm. rewrite Z.geb_leb in *. destruct (Z.leb_spec sz (t + n - b)).
  - rewrite s32_add. f_equal. lia.
  - f_equal. lia.
Qed.
End Index.

Section Ring.
Implicit Types (buf : ring_buf) (gt gh pt ph n : Z).

Definition contiguous (sz h : Z) : Z := sz - h mod sz.

Lemma space_get_spec buf gt gh pt ph : ring_ok buf gt gh pt ph -> ring_buf_space_get buf = gt + rb_size buf - ph.
Proof.
  intros []. unfold ring_buf_space_get, RING_BUFFER_MAX_SIZE in *. rewrite ro_put_head0, ro_get_tail0, s32_sub by lia.
  rewrite wrap_u_small by lia. lia.
Qed.

Lemma size_get_spec buf gt gh pt ph : ring_ok buf gt gh pt ph -> ring_buf_size_get buf = pt - gh.
Proof.
  intros []. unfold ring_buf_size_get, RING_BUFFER_MAX_SIZE in *. rewrite ro_put_tail0, ro_get_head0. apply s32_diff. lia.
Qed.

Lemma put_claim_spec buf gt gh pt ph n :
  ring_ok buf gt gh pt ph -> 0 <= n ->
  exists buf', ring_buf_put_claim buf n =
      (Z.min (Z.min n (gt + rb_size buf - ph)) (contiguous (rb_size buf) ph), ph mod rb_size buf, buf') /\
    ring_ok buf' gt gh pt (ph + Z.min (Z.min n (gt + rb_size buf - ph)) (contiguous (rb_size buf) ph)) /\
    rb_buffer buf' = rb_buffer buf /\ rb_size buf' = rb_size buf.
Proof.
  intros Hok Hn. pose proof (space_get_spec _ _ _ _ _ Hok) as Hsp. pose proof Hok as [].
  unfold RING_BUFFER_MAX_SIZE in *. pose proof (Z.mod_pos_bound ph (rb_size buf) ltac:(lia)) as Hmod.
  unfold ring_buf_put_claim. cbv zeta. rewrite ro_put_head0, ro_put_base0.
  rewrite (claim_index (rb_size buf) pt ph) by lia. rewrite Hsp, s32_sub, (wrap_u_small 32) by lia.
  eexists. split; [unfold contiguous; repeat f_equal; lia|]. rewrite s32_add. unfold contiguous.
  split; [|done]. split; cbn; try done; unfold RING_BUFFER_MAX_SIZE; lia.
Qed.

Lemma put_finish_spec buf gt gh pt ph n :
  ring_ok buf gt gh pt ph -> 0 <= n < 2 ^ 32 ->
  if n >? ph - pt then ring_buf_put_finish buf n = (- EINVAL, buf)
  else exists buf', ring_buf_put_finish buf n = (0, buf') /\ ring_ok buf' gt gh (pt + n) (pt + n) /\
    rb_buffer buf' = rb_buffer buf /\ rb_size buf' = rb_size buf.
Proof.
  intros Hok Hn. pose proof Hok as []. unfold ring_buf_put_finish. rewrite ro_put_head0, ro_put_tail0.
  unfold RING_BUFFER_MAX_SIZE in *. rewrite s32_diff by lia. rewrite Z.gtb_ltb. destruct (Z.ltb_spec (ph - pt) n); [done|].
  cbn [put_tail put_base with_put_tail with_put_head rb_size]. rewrite s32_add, ro_put_base0.
  pose proof (finish_base (rb_size buf) pt n ltac:(lia) ltac:(lia)) as Hb. cbv zeta in Hb.
  eexists. split; [done|]. destruct (_ >=? _); (split; [|done]); (split; cbn; try done; try lia; by rewrite ?ro_put_base0).
Qed.

Lemma get_claim_spec buf gt gh pt ph n :
  ring_ok buf gt gh pt ph -> 0 <= n ->
  exists buf', ring_buf_get_claim buf n =
      (Z.min (Z.min n (pt - gh)) (contiguous (rb_size buf) gh), gh mod rb_size buf, buf') /\
    ring_ok buf' gt (gh + Z.min (Z.min n (pt - gh)) (contiguous (rb_size buf) gh)) pt ph /\
    rb_buffer buf' = rb_buffer buf /\ rb_size buf' = rb_size buf.
Proof.
  intros Hok Hn. pose proof (size_get_spec _ _ _ _ _ Hok) as Hsp. pose proof Hok as [].
  unfold RING_BUFFER_MAX_SIZE in *. pose proof (Z.mod_pos_bound gh (rb_size buf) ltac:(lia)) as Hmod.
  unfold ring_buf_get_claim. cbv zeta. rewrite ro_get_head0, ro_get_base0.
  rewrite (claim_index (rb_size buf) gt gh) by lia. rewrite Hsp, s32_sub, (wrap_u_small 32) by lia.
  eexists. split; [unfold contiguous; repeat f_equal; lia|]. rewrite s32_add. unfold contiguous.
  split; [|done]. split; cbn; try done; unfold RING_BUFFER_MAX_SIZE; lia.
Qed.

Lemma get_finish_spec buf gt gh pt ph n :
  ring_ok buf gt gh pt ph -> 0 <= n < 2 ^ 32 ->
  if n >? gh - gt then ring_buf_get_finish buf n = (- EINVAL, buf)
  else exists buf', ring_buf_get_finish buf n = (0, buf') /\ ring_ok buf' (gt + n) (gt + n) pt ph /\
    rb_buffer buf' = rb_buffer buf /\ rb_size buf' = rb_size buf.
Proof.
  intros Hok Hn. pose proof Hok as []. unfold ring_buf_get_finish. rewrite ro_get_head0, ro_get_tail0.
  unfold RING_BUFFER_MAX_SIZE in *. rewrite s32_diff by lia. rewrite Z.gtb_ltb. destruct (Z.ltb_spec (gh - gt) n); [done|].
  cbn [get_tail get_base with_get_tail with_get_head rb_size]. rewrite s32_add, ro_get_base0.
  pose proof (finish_base (rb_size buf) gt n ltac:(lia) ltac:(lia)) as Hb. cbv zeta in Hb.
  eexists. split; [done|]. destruct (_ >=? _); (split; [|done]); (split; cbn; try done; try lia; by rewrite ?ro_get_base0).
Qed.

(** ** Copies *)

Lemma mod_contiguous sz h d : 0 < sz -> 0 <= d < contiguous sz h -> (h + d) mod sz = h mod sz + d.
Proof.
  unfold contiguous. intros Hsz Hd. pose proof (Z.mod_pos_bound h sz Hsz). rewrite <- Zplus_mod_idemp_l.
  apply Z.mod_small. lia.
Qed.

Lemma mod_distinct sz i j : 0 < sz -> 0 < j - i < sz -> i mod sz <> j mod sz.
Proof.
  intros Hsz Hd E. pose proof (Z.div_mod i sz ltac:(lia)). pose proof (Z.div_mod j sz ltac:(lia)).
  assert (Hq : j - i = sz * (j / sz - i / sz)) by lia. clear -Hsz Hd Hq. set (q := j / sz - i / sz) in *.
  destruct (Z.le_gt_cases q 0); nia.
Qed.

Lemma ring_ok_buffer buf gt gh pt ph l :
  ring_ok buf gt gh pt ph -> length l = length (rb_buffer buf) -> ring_ok (with_buffer l buf) gt gh pt ph.
Proof. intros [] Hl. split; cbn; try done. by rewrite Hl. Qed.

Lemma segment_ext buf buf' i n :
  (forall k, i <= k < i + n -> byte_at buf' k = byte_at buf k) -> segment buf' i n = segment buf i n.
Proof.
  intros Hb. apply list_fmap_ext. intros j k Hk. apply lookup_seqZ in Hk. apply Hb. lia.
Qed.

Lemma segment_same buf buf' i n :
  rb_buffer buf' = rb_buffer buf -> rb_size buf' = rb_size buf -> segment buf' i n = segment buf i n.
Proof. intros Eb Es. unfold segment, byte_at. by rewrite Eb, Es. Qed.

Lemma segment_app buf i n m : 0 <= n -> 0 <= m -> segment buf i (n + m) = segment buf i n ++ segment buf (i + n) m.
Proof. intros. unfold segment. by rewrite seqZ_app, fmap_app. Qed.

Lemma segment_length buf i n : length (segment buf i n) = Z.to_nat n.
Proof. unfold segment. by rewrite length_fmap, length_seqZ. Qed.

Lemma segment_split buf i n j :
  0 <= j <= n -> segment buf i n = segment buf i j ++ segment buf (i + j) (n - j).
Proof. intros Hj. rewrite <- segment_app by lia. f_equal. lia. Qed.

Lemma segment_take buf i n j : 0 <= j -> 0 <= n -> take (Z.to_nat j) (segment buf i n) = segment buf i (Z.min j n).
Proof.
  intros Hj Hn. destruct (Z.le_gt_cases j n).
  - rewrite (segment_split buf i n j), take_app_length' by (rewrite ?segment_length; lia). f_equal. lia.
  - rewrite take_ge by (rewrite segment_length; lia). f_equal. lia.
Qed.

Lemma segment_drop buf i n j : 0 <= j <= n -> drop (Z.to_nat j) (segment buf i n) = segment buf (i + j) (n - j).
Proof. intros Hj. by rewrite (segment_split buf i n j), drop_app_length' by (rewrite ?segment_length; lia). Qed.

Lemma copy_in_spec buf gt gh pt ph data n :
  ring_ok buf gt gh pt (ph + n) -> gt <= ph -> 0 <= n <= contiguous (rb_size buf) ph -> n <= Z.of_nat (length data) ->
  exists buf', copy_in buf (ph mod rb_size buf) data n = Some buf' /\ ring_ok buf' gt gh pt (ph + n) /\
    rb_size buf' = rb_size buf /\ segment buf' ph n = take (Z.to_nat n) data /\
    (forall i m, gt <= i -> i + m <= ph -> segment buf' i m = segment buf i m).
Proof.
  intros Hok Hgt Hn Hd. pose proof Hok as []. unfold copy_in. unfold contiguous in Hn.
  pose proof (Z.mod_pos_bound ph (rb_size buf) ltac:(lia)) as Hm. set (j := ph mod rb_size buf) in *.
  rewrite (proj2 (Z.leb_le 0 j)), (proj2 (Z.leb_le (j + n) _)), (proj2 (Z.leb_le n _)) by lia. cbn [andb].
  set (l := list_inserts (Z.to_nat j) (take (Z.to_nat n) data) (rb_buffer buf)).
  assert (Hlen : length (take (Z.to_nat n) data) = Z.to_nat n) by (rewrite length_take; lia).
  eexists. split; [done|]. split; [apply ring_ok_buffer; [done|apply length_inserts]|]. split; [done|]. split.
  - apply list_eq. intros k. unfold segment. rewrite list_lookup_fmap. destruct (decide (k < Z.to_nat n)%nat) as [Hk|Hk].
    + rewrite lookup_seqZ_lt by lia. cbn. rewrite (list_lookup_lookup_total_lt (take _ _)) by lia. f_equal.
      unfold byte_at. cbn. rewrite mod_contiguous by (unfold contiguous; lia). fold j. unfold l.
      rewrite list_lookup_total_alt, list_lookup_inserts by lia. rewrite list_lookup_total_alt. do 2 f_equal. lia.
    + rewrite lookup_seqZ_ge, lookup_ge_None_2 by lia. done.
  - intros i m Hi Him. apply segment_ext. intros k Hk. unfold byte_at. cbn.
    pose proof (Z.mod_pos_bound k (rb_size buf) ltac:(lia)) as Hkm. rewrite !list_lookup_total_alt. f_equal. unfold l.
    destruct (decide (k mod rb_size buf < j)) as [Hlt|Hge]; [by rewrite list_lookup_inserts_lt by lia|].
    rewrite list_lookup_inserts_ge; [done|]. rewrite Hlen. destruct (decide (k mod rb_size buf < j + n)) as [Hin|]; [|lia].
    exfalso. set (d := k mod rb_size buf - j). assert (Ed : (ph + d) mod rb_size buf = k mod rb_size buf).
    { rewrite mod_contiguous by (unfold contiguous; fold j; lia). fold j. lia. }
    eapply mod_distinct; [| |symmetry; exact Ed]; lia.
Qed.

Lemma copy_out_spec buf gt gh pt ph h n :
  ring_ok buf gt gh pt ph -> 0 <= n <= contiguous (rb_size buf) h ->
  copy_out buf (h mod rb_size buf) n = Some (segment buf h n).
Proof.
  intros [] Hn. unfold copy_out. unfold contiguous in Hn. pose proof (Z.mod_pos_bound h (rb_size buf) ltac:(lia)) as Hm.
  set (j := h mod rb_size buf) in *. rewrite (proj2 (Z.leb_le 0 j)), (proj2 (Z.leb_le (j + n) _)) by lia. cbn [andb]. f_equal.
  apply list_eq. intros k. unfold segment. rewrite list_lookup_fmap. destruct (decide (k < Z.to_nat n)%nat) as [Hk|Hk].
  - rewrite lookup_take_lt, lookup_drop, lookup_seqZ_lt by lia. cbn.
    rewrite list_lookup_lookup_total_lt by lia. f_equal. unfold byte_at.
    rewrite mod_contiguous by (unfold contiguous; lia). fold j. f_equal. lia.
  - rewrite lookup_take_ge, lookup_seqZ_ge by lia. done.
Qed.

(** ** The loops *)

Lemma put_loop_spec fuel buf gt gh pt ph data n total :
  ring_ok buf gt gh pt ph -> 0 <= n -> (Z.to_nat n < fuel)%nat -> n <= Z.of_nat (length data) ->
  0 <= total -> total + n < 2 ^ 32 ->
  let m := Z.min n (gt + rb_size buf - ph) in
  exists buf', put_loop fuel buf data n total = Some (n - m, total + m, buf') /\ ring_ok buf' gt gh pt (ph + m) /\
    rb_size buf' = rb_size buf /\ segment buf' ph m = take (Z.to_nat m) data /\
    (forall i k, gt <= i -> i + k <= ph -> segment buf' i k = segment buf i k).
Proof.
  revert buf ph data n total. induction fuel as [|fuel IH]; [lia|]. intros buf ph data n total Hok Hn Hf Hd Ht Hmax m.
  pose proof Hok as []. pose proof (Z.mod_pos_bound ph (rb_size buf) ltac:(lia)) as Hmod.
  assert (Hcont : 1 <= contiguous (rb_size buf) ph) by (unfold contiguous; lia).
  destruct (put_claim_spec buf gt gh pt ph n Hok Hn) as (buf1 & Ec & Hok1 & Eb1 & Es1).
  cbn [put_loop]. rewrite Ec. set (p := Z.min (Z.min n _) _) in *.
  destruct (copy_in_spec buf1 gt gh pt ph data p Hok1) as (buf2 & Ecp & Hok2 & Es2 & Hnew & Hold); [lia|rewrite Es1; lia|lia|].
  rewrite Es1 in Ecp. rewrite Ecp. cbn [mbind option_bind].
  assert (Hsame : forall i k, gt <= i -> i + k <= ph -> segment buf2 i k = segment buf i k).
  { intros i k Hi Hk. rewrite Hold by done. by apply segment_same. }
  rewrite (wrap_u_small 32 (n - p)), (wrap_u_small 32 (total + p)) by lia.
  destruct (decide (n - p = 0 \/ p = 0)) as [Hend|Hgo].
  - assert (p = m) as -> by lia. exists buf2.
    replace (negb (n - m =? 0) && negb (m =? 0)) with false by (destruct Hend as [-> | ->]; [done|by rewrite andb_false_r]).
    split_and!; [done|done|congruence|done|done].
  - rewrite (proj2 (Z.eqb_neq (n - p) 0)), (proj2 (Z.eqb_neq p 0)) by lia. cbn [negb andb].
    destruct (IH buf2 (ph + p) (drop (Z.to_nat p) data) (n - p) (total + p) Hok2) as (buf3 & El & Hok3 & Es3 & Hnew3 & Hold3);
      [lia|lia|rewrite length_drop; lia|lia|lia|].
    rewrite Es2, Es1 in *. set (m2 := Z.min (n - p) _) in *. assert (Em : m = p + m2) by lia. exists buf3. split_and!.
    + rewrite El. do 2 f_equal. f_equal; lia.
    + by replace (ph + m) with (ph + p + m2) by lia.
    + congruence.
    + rewrite Em, segment_app, Hnew3, Hold3, Hnew by lia.
      rewrite take_take_drop. f_equal. lia.
    + intros i k Hi Hk. rewrite Hold3 by lia. by apply Hsame.
Qed.

Lemma get_loop_spec fuel buf gt gh pt ph data n total :
  ring_ok buf gt gh pt ph -> 0 <= n -> (Z.to_nat n < fuel)%nat -> 0 <= total -> total + n < 2 ^ 32 ->
  let m := Z.min n (pt - gh) in
  exists buf', get_loop fuel buf data n total = Some (data ++ segment buf gh m, total + m, buf') /\
    ring_ok buf' gt (gh + m) pt ph /\ rb_size buf' = rb_size buf /\ rb_buffer buf' = rb_buffer buf.
Proof.
  revert buf gh data n total. induction fuel as [|fuel IH]; [lia|]. intros buf gh data n total Hok Hn Hf Ht Hmax m.
  pose proof Hok as []. pose proof (Z.mod_pos_bound gh (rb_size buf) ltac:(lia)) as Hmod.
  assert (Hcont : 1 <= contiguous (rb_size buf) gh) by (unfold contiguous; lia).
  destruct (get_claim_spec buf gt gh pt ph n Hok Hn) as (buf1 & Ec & Hok1 & Eb1 & Es1).
  cbn [get_loop]. rewrite Ec. set (p := Z.min (Z.min n _) _) in *.
  pose proof (copy_out_spec buf1 gt (gh + p) pt ph gh p Hok1) as Ecp. rewrite Es1 in Ecp. rewrite Ecp by lia.
  cbn [mbind option_bind]. assert (Hseg : forall i k, segment buf1 i k = segment buf i k).
  { intros i k. by apply segment_same. }
  rewrite (wrap_u_small 32 (n - p)), (wrap_u_small 32 (total + p)) by lia.
  destruct (decide (n - p = 0 \/ p = 0)) as [Hend|Hgo].
  - assert (p = m) as -> by lia. exists buf1.
    replace (negb (n - m =? 0) && negb (m =? 0)) with false by (destruct Hend as [-> | ->]; [done|by rewrite andb_false_r]).
    rewrite Hseg. by split_and!.
  - rewrite (proj2 (Z.eqb_neq (n - p) 0)), (proj2 (Z.eqb_neq p 0)) by lia. cbn [negb andb].
    destruct (IH buf1 (gh + p) (data ++ segment buf1 gh p) (n - p) (total + p) Hok1) as (buf3 & El & Hok3 & Es3 & Eb3);
      [lia|lia|lia|lia|].
    set (m2 := Z.min (n - p) _) in *. assert (Em : m = p + m2) by lia. exists buf3. split_and!.
    + rewrite El, !Hseg, Em, segment_app, app_assoc by lia. do 2 f_equal. f_equal; lia.
    + by replace (gh + m) with (gh + p + m2) by lia.
    + congruence.
    + congruence.
Qed.

(** ** The byte queue *)

(** Between calls, with nothing claimed: the queue holds the bytes [q]. *)
Definition ring_holds (buf : ring_buf) (q : list Z) : Prop :=
  exists gt pt, ring_ok buf gt gt pt pt /\ q = segment buf gt (pt - gt).

Lemma ring_holds_length buf q :
  ring_holds buf q -> 0 < rb_size buf < 2 ^ 31 /\ Z.of_nat (length q) <= rb_size buf /\
  ring_buf_space_get buf = rb_size buf - Z.of_nat (length q) /\ ring_buf_size_get buf = Z.of_nat (length q) /\
  ring_buf_is_empty buf = bool_decide (q = []).
Proof.
  intros (gt & pt & Hok & ->). pose proof (space_get_spec _ _ _ _ _ Hok). pose proof (size_get_spec _ _ _ _ _ Hok).
  pose proof Hok as []. unfold RING_BUFFER_MAX_SIZE in *. rewrite segment_length. split_and!; try lia.
  unfold ring_buf_is_empty. rewrite ro_get_head0, ro_put_tail0. apply eq_true_iff_eq. rewrite Z.eqb_eq, bool_decide_eq_true. split.
  - intros E. assert (Hz : u32 (s32 pt - s32 gt) = 0) by (by rewrite E, Z.sub_diag). rewrite s32_diff in Hz by lia.
    apply nil_length_inv. rewrite segment_length. lia.
  - intros E%(f_equal length). rewrite segment_length in E. cbn in E. f_equal. lia.
Qed.

Lemma ring_put_spec buf q data n :
  ring_holds buf q -> 0 <= n < 2 ^ 32 -> n <= Z.of_nat (length data) ->
  let m := Z.min n (rb_size buf - Z.of_nat (length q)) in
  exists buf', ring_buf_put buf data n = Some (m, buf') /\ rb_size buf' = rb_size buf /\
    ring_holds buf' (q ++ take (Z.to_nat m) data).
Proof.
  intros (gt & pt & Hok & ->) Hn Hd m. pose proof Hok as [].
  assert (Em : Z.min n (gt + rb_size buf - pt) = m) by (unfold m; rewrite segment_length; lia). clearbody m.
  destruct (put_loop_spec (S (Z.to_nat n)) buf gt gt pt pt data n 0) as (buf1 & El & Hok1 & Es1 & Hnew & Hold); try lia; [done|].
  rewrite Em, Z.add_0_l in *. unfold ring_buf_put. rewrite El. cbn [mbind option_bind].
  pose proof (put_finish_spec buf1 gt gt pt (pt + m) m Hok1 ltac:(lia)) as Hfin.
  rewrite Z.gtb_ltb, (proj2 (Z.ltb_ge _ _)) in Hfin by lia. destruct Hfin as (buf2 & -> & Hok2 & Eb2 & Es2).
  exists buf2. split; [done|]. split; [congruence|]. exists gt, (pt + m). split; [done|].
  replace (pt + m - gt) with (pt - gt + m) by lia. rewrite segment_app, !(segment_same buf1 buf2), Hold by (done || lia).
  replace (gt + (pt - gt)) with pt by lia. by rewrite Hnew.
Qed.

(** Reading [n] bytes, and then releasing [k] of them. *)
Lemma read_spec buf q n k :
  ring_holds buf q -> 0 <= n < 2 ^ 32 -> 0 <= k <= Z.min n (Z.of_nat (length q)) ->
  exists buf1 buf2, get_loop (S (Z.to_nat n)) buf [] n 0 =
      Some (take (Z.to_nat n) q, Z.min n (Z.of_nat (length q)), buf1) /\
    ring_buf_get_finish buf1 k = (0, buf2) /\ rb_size buf2 = rb_size buf /\ ring_holds buf2 (drop (Z.to_nat k) q).
Proof.
  intros (gt & pt & Hok & ->) Hn Hk. pose proof Hok as []. rewrite segment_length in *.
  set (m := Z.min n (Z.of_nat (Z.to_nat (pt - gt)))) in *.
  assert (Em : Z.min n (pt - gt) = m) by lia.
  destruct (get_loop_spec (S (Z.to_nat n)) buf gt gt pt pt [] n 0) as (buf1 & El & Hok1 & Es1 & Eb1); try lia; [done|].
  rewrite Em in *. pose proof (get_finish_spec buf1 gt (gt + m) pt pt k Hok1 ltac:(lia)) as Hfin.
  rewrite Z.gtb_ltb, (proj2 (Z.ltb_ge _ _)) in Hfin by lia. destruct Hfin as (buf2 & Ef & Hok2 & Eb2 & Es2).
  exists buf1, buf2. split_and!; [|done|congruence|].
  - rewrite El, segment_take by lia. do 3 f_equal. by rewrite <- Em.
  - exists (gt + k), pt. split; [done|]. rewrite segment_drop, (segment_same buf buf2) by (congruence || lia). f_equal. lia.
Qed.

(** ** Items *)

Record item := mkItem { it_type : Z; it_value : Z; it_data : list Z }.

Definition item_ok (x : item) : Prop :=
  0 <= it_type x < 2 ^ 16 /\ 0 <= it_value x < 2 ^ 8 /\
  exists k, 0 <= k < 2 ^ 8 /\ Z.of_nat (length (it_data x)) = 4 * k.

Definition it_size32 (x : item) : Z := Z.of_nat (length (it_data x)) / 4.

Definition item_bytes (x : item) : list Z := ring_element_bytes (it_type x) (it_size32 x) (it_value x) ++ it_data x.

Lemma item_size x : item_ok x ->
  0 <= it_size32 x < 2 ^ 8 /\ Z.of_nat (length (it_data x)) = 4 * it_size32 x /\
  Z.of_nat (length (item_bytes x)) = 4 + 4 * it_size32 x.
Proof.
  intros (_ & _ & k & Hk & E). unfold it_size32. rewrite E, (Z.mul_comm 4), Z.div_mul by lia.
  unfold item_bytes. rewrite length_app. cbn [length ring_element_bytes]. lia.
Qed.

(** The ring holds the items [its], in words of four bytes. *)
Definition ring_items (buf : ring_buf) (its : list item) : Prop :=
  rb_size buf mod 4 = 0 /\ Forall item_ok its /\
  exists gt pt, gt mod 4 = 0 /\ ring_ok buf gt gt pt pt /\ segment buf gt (pt - gt) = concat (item_bytes <$> its).

Lemma items_length its : Forall item_ok its -> Z.of_nat (length (concat (item_bytes <$> its))) mod 4 = 0.
Proof.
  induction 1 as [|x its Hx _ IH]; [done|]. rewrite fmap_cons. cbn [concat]. rewrite length_app, Nat2Z.inj_add.
  destruct (item_size x Hx) as (_ & _ & ->). rewrite <- Zplus_mod_idemp_r, IH.
  replace (4 + 4 * it_size32 x + 0) with ((1 + it_size32 x) * 4) by lia. apply Z.mod_mul. lia.
Qed.

Lemma contiguous_words sz h : 0 < sz -> sz mod 4 = 0 -> h mod 4 = 0 -> 4 <= contiguous sz h.
Proof.
  intros Hsz Hs Hh. unfold contiguous. pose proof (Z.mod_pos_bound h sz Hsz) as Hm.
  pose proof (Z.div_mod h sz ltac:(lia)) as Hd.
  apply Z.mod_divide in Hs as [i Hi]; [|lia]. apply Z.mod_divide in Hh as [j Hj]; [|lia]. set (q := h / sz) in *.
  assert (E : sz - h mod sz = 4 * (i - (j - i * q))) by nia. lia.
Qed.

Lemma item_space buf its :
  ring_items buf its -> ring_buf_space_get buf = rb_size buf - Z.of_nat (length (concat (item_bytes <$> its))).
Proof.
  intros (_ & _ & gt & pt & _ & Hok & E). rewrite (space_get_spec _ _ _ _ _ Hok), <- E, segment_length.
  destruct Hok. lia.
Qed.

Lemma item_words buf its :
  ring_items buf its ->
  ring_buf_item_space_get buf * 4 = rb_size buf - Z.of_nat (length (concat (item_bytes <$> its))).
Proof.
  intros Hri. unfold ring_buf_item_space_get. rewrite (item_space buf its Hri). destruct Hri as (H4 & Hits & _).
  pose proof (items_length its Hits) as Hu. apply Z.mod_divide in H4 as [i ->]; [|lia].
  apply Z.mod_divide in Hu as [j ->]; [|lia]. rewrite <- Z.mul_sub_distr_r, Z.div_mul; lia.
Qed.

Lemma item_put_spec buf its x :
  ring_items buf its -> item_ok x ->
  let used := Z.of_nat (length (concat (item_bytes <$> its))) in
  if 4 + 4 * it_size32 x >? rb_size buf - used
  then ring_buf_item_put buf (it_type x) (it_value x) (it_data x) (it_size32 x) = Some (- EMSGSIZE, buf)
  else exists buf', ring_buf_item_put buf (it_type x) (it_value x) (it_data x) (it_size32 x) = Some (0, buf') /\
    rb_size buf' = rb_size buf /\ ring_items buf' (its ++ [x]).
Proof.
  intros Hri Hx used. pose proof (item_space buf its Hri) as Hsp. fold used in Hsp.
  destruct Hri as (H4 & Hits & gt & pt & Hg4 & Hok & Eseg). destruct (item_size x Hx) as (Hk & Hl & Hb).
  unfold ring_buf_item_put. rewrite Hsp. set (k := it_size32 x) in *. unfold sizeof_ring_element.
  rewrite (wrap_u_small 32 (k * 4)), (wrap_u_small 32 (k * 4 + 4)) by lia.
  replace (k * 4 + 4) with (4 + 4 * k) by lia. destruct (4 + 4 * k >? rb_size buf - used) eqn:Efit; [done|].
  rewrite Z.gtb_ltb, Z.ltb_ge in Efit. pose proof Hok as []. assert (Hu : used = pt - gt).
  { unfold used. rewrite <- Eseg, segment_length. lia. }
  assert (Hp4 : pt mod 4 = 0).
  { replace pt with (gt + used) by lia. rewrite <- Zplus_mod_idemp_l, Hg4. by apply items_length. }
  pose proof (contiguous_words (rb_size buf) pt ltac:(lia) H4 Hp4) as Hc.
  destruct (put_claim_spec buf gt gt pt pt 4 Hok ltac:(lia)) as (buf1 & Ec & Hok1 & Eb1 & Es1).
  replace (Z.min (Z.min 4 _) _) with 4 in * by lia. rewrite Ec. cbn [Z.eqb Pos.eqb negb].
  set (h := ring_element_bytes (it_type x) k (it_value x)).
  destruct (copy_in_spec buf1 gt gt pt pt h 4 Hok1) as (buf2 & Ecp & Hok2 & Es2 & Hnew2 & Hold2); [lia|rewrite Es1; lia|cbn; lia|].
  rewrite Es1 in Ecp. rewrite Ecp. cbn [mbind option_bind].
  destruct (put_loop_spec (S (Z.to_nat (k * 4))) buf2 gt gt pt (pt + 4) (it_data x) (k * 4) 4 Hok2)
    as (buf3 & El & Hok3 & Es3 & Hnew3 & Hold3); try lia.
  replace (Z.min (k * 4) _) with (k * 4) in * by (rewrite Es2, Es1; lia).
  rewrite El, Z.sub_diag. cbn [mbind option_bind Z.eqb negb].
  pose proof (put_finish_spec buf3 gt gt pt (pt + 4 + k * 4) (4 + k * 4) Hok3 ltac:(lia)) as Hfin.
  rewrite Z.gtb_ltb, (proj2 (Z.ltb_ge _ _)) in Hfin by lia. destruct Hfin as (buf4 & -> & Hok4 & Eb4 & Es4).
  exists buf4. split; [done|]. split; [congruence|]. split; [congruence|]. split; [apply Forall_app; by split; [|constructor]|].
  exists gt, (pt + (4 + k * 4)). split; [done|]. split; [done|].
  rewrite fmap_app, concat_app, <- Eseg. cbn [fmap list_fmap concat]. rewrite app_nil_r.
  replace (pt + (4 + k * 4) - gt) with (pt - gt + (4 + k * 4)) by lia.
  rewrite (segment_same buf3 buf4), segment_app, Hold3, Hold2, (segment_same buf buf1) by (done || lia). f_equal.
  replace (gt + (pt - gt)) with pt by lia. rewrite segment_app, Hold3, Hnew2, Hnew3 by lia. unfold item_bytes. fold k h.
  f_equal. rewrite take_ge by lia. done.
Qed.

Lemma item_header x : item_ok x ->
  exists t0 t1, ring_element_bytes (it_type x) (it_size32 x) (it_value x) = [t0; t1; it_size32 x; it_value x] /\
    t0 + 256 * t1 = it_type x.
Proof.
  intros Hx. pose proof (item_size x Hx) as (Hk & _). destruct Hx as (Ht & Hv & _). unfold ring_element_bytes.
  exists (it_type x mod 256), (it_type x / 256 mod 256). rewrite (Z.mod_small (it_size32 x)), (Z.mod_small (it_value x)) by lia. split; [done|].
  rewrite (Z.mod_small (it_type x / 256)) by (split; [apply Z.div_pos|apply Z.div_lt_upper_bound]; lia).
  pose proof (Z.div_mod (it_type x) 256 ltac:(lia)). lia.
Qed.

(** The item at the front, as the claim for its header and the loop find it. *)
Lemma front_item buf gt pt x r :
  ring_ok buf gt gt pt pt -> segment buf gt (pt - gt) = item_bytes x ++ r -> item_ok x ->
  let k := it_size32 x in
  4 + 4 * k <= pt - gt /\ segment buf gt 4 = ring_element_bytes (it_type x) k (it_value x) /\
  segment buf (gt + 4) (4 * k) = it_data x /\ segment buf (gt + (4 + 4 * k)) (pt - (gt + (4 + 4 * k))) = r.
Proof.
  intros Hok E Hx k. destruct (item_size x Hx) as (Hk & Hl & Hb). fold k in Hk, Hl, Hb.
  assert (Hlen : 4 + 4 * k <= pt - gt).
  { apply (f_equal (fun l => Z.of_nat (length l))) in E. rewrite segment_length, length_app in E. destruct Hok. lia. }
  split; [done|]. rewrite (segment_split buf gt (pt - gt) (4 + 4 * k)) in E by lia.
  apply app_inj_1 in E as [E1 E2]; [|rewrite segment_length; lia].
  rewrite (segment_split buf gt (4 + 4 * k) 4) in E1 by lia. unfold item_bytes in E1. fold k in E1.
  apply app_inj_1 in E1 as [E1 E3]; [|by rewrite segment_length].
  split; [done|]. split; [rewrite <- E3; f_equal; lia|]. rewrite <- E2. f_equal. lia.
Qed.

Lemma item_get_spec buf its x data_null size32 :
  ring_items buf (x :: its) ->
  if negb data_null && (it_size32 x >? size32)
  then exists buf', ring_buf_item_get buf data_null size32 = Some (- EMSGSIZE, None, it_size32 x, buf') /\
         ring_items buf' (x :: its)
  else exists buf', ring_buf_item_get buf data_null size32 =
           Some (0, Some (it_type x, it_value x, if data_null then [] else it_data x), it_size32 x, buf') /\
         ring_items buf' its.
Proof.
  intros (H4 & Hits & gt & pt & Hg4 & Hok & Eseg). apply Forall_cons in Hits as [Hx Hits]. rewrite fmap_cons in Eseg.
  cbn [concat] in Eseg. destruct (front_item buf gt pt x _ Hok Eseg Hx) as (Hlen & Eh & Ed & Er).
  destruct (item_size x Hx) as (Hk & Hl & _). set (k := it_size32 x) in *. pose proof Hok as [].
  pose proof (contiguous_words (rb_size buf) gt ltac:(lia) H4 Hg4) as Hc.
  assert (Hne : ring_buf_is_empty buf = false).
  { destruct (ring_holds_length buf (segment buf gt (pt - gt))) as (_ & _ & _ & _ & ->); [by exists gt, pt|].
    apply bool_decide_eq_false. intros E%(f_equal length). rewrite segment_length in E. cbn in E. lia. }
  unfold ring_buf_item_get. rewrite Hne. unfold sizeof_ring_element.
  destruct (get_claim_spec buf gt gt pt pt 4 Hok ltac:(lia)) as (buf1 & Ec & Hok1 & Eb1 & Es1).
  replace (Z.min (Z.min 4 _) _) with 4 in * by lia. rewrite Ec. cbn [Z.eqb Pos.eqb negb].
  pose proof (copy_out_spec buf1 gt (gt + 4) pt pt gt 4 Hok1) as Eo. rewrite Es1 in Eo. rewrite Eo by lia. cbn [mbind option_bind].
  rewrite (segment_same buf buf1), Eh by done. destruct (item_header x Hx) as (t0 & t1 & Eh' & Et). fold k in Eh'. rewrite Eh'.
  destruct (negb data_null && (k >? size32)).
  - pose proof (get_finish_spec buf1 gt (gt + 4) pt pt 0 Hok1 ltac:(lia)) as Hfin.
    rewrite Z.gtb_ltb, (proj2 (Z.ltb_ge _ _)), Z.add_0_r in Hfin by lia. destruct Hfin as (buf2 & -> & Hok2 & Eb2 & Es2).
    exists buf2. split; [done|]. split; [congruence|]. split; [by constructor|]. exists gt, pt. split; [done|]. split; [done|].
    rewrite (segment_same buf buf2) by congruence. rewrite fmap_cons. exact Eseg.
  - rewrite (wrap_u_small 32 (k * 4)) by lia.
    destruct (get_loop_spec (S (Z.to_nat (k * 4))) buf1 gt (gt + 4) pt pt [] (k * 4) 4 Hok1) as (buf2 & El & Hok2 & Es2 & Eb2); try lia.
    replace (Z.min (k * 4) _) with (4 * k) in * by lia. rewrite El. cbn [mbind option_bind app].
    pose proof (get_finish_spec buf2 gt (gt + 4 + 4 * k) pt pt (4 + 4 * k) Hok2 ltac:(lia)) as Hfin.
    rewrite Z.gtb_ltb, (proj2 (Z.ltb_ge _ _)) in Hfin by lia. destruct Hfin as (buf3 & -> & Hok3 & Eb3 & Es3).
    exists buf3. rewrite (segment_same buf buf1), Ed, Et by done. split; [done|]. split; [congruence|]. split; [done|].
    exists (gt + (4 + 4 * k)), pt. split; [|split; [done|]].
    + rewrite <- Zplus_mod_idemp_l, Hg4. replace (0 + (4 + 4 * k)) with ((1 + k) * 4) by lia. apply Z.mod_mul. lia.
    + rewrite (segment_same buf buf3) by congruence. exact Er.
Qed.

Lemma item_get_empty buf data_null size32 :
  ring_items buf [] -> ring_buf_item_get buf data_null size32 = Some (- EAGAIN, None, size32, buf).
Proof.
  intros (_ & _ & gt & pt & _ & Hok & E). unfold ring_buf_item_get.
  destruct (ring_holds_length buf (segment buf gt (pt - gt))) as (_ & _ & _ & _ & ->); [by exists gt, pt|].
  by rewrite bool_decide_true.
Qed.

(** ** An empty ring *)

Lemma reset_ok buf :
  0 < rb_size buf < RING_BUFFER_MAX_SIZE -> Z.of_nat (length (rb_buffer buf)) = rb_size buf ->
  ring_ok (ring_buf_internal_reset buf 0) 0 0 0 0.
Proof. intros Hs Hl. split; cbn; rewrite ?Z.div_0_l, ?Z.mul_0_r by lia; (done || lia). Qed.

Lemma init_spec sz data :
  0 < sz < RING_BUFFER_MAX_SIZE -> Z.of_nat (length data) = sz ->
  exists buf, ring_buf_init sz data = Some buf /\ rb_size buf = sz /\ ring_ok buf 0 0 0 0.
Proof.
  intros Hs Hl. unfold ring_buf_init. rewrite (proj2 (Z.ltb_lt _ _)) by lia. eexists. split; [done|]. split; [done|].
  by apply reset_ok.
Qed.

(** ** What the ring promises *)

(** C29: A ring buffer is a bounded first-in first-out queue of bytes: put appends as many
    bytes as fit, get removes and returns the oldest ones, peek returns them and removes
    nothing, reset empties it, and the space, size and emptiness reported are those of the
    queue, also after the indices have overflowed. *)
Theorem ring_buf_refines buf q n :
  ring_holds buf q -> 0 <= n < 2 ^ 32 ->
  let len := Z.of_nat (length q) in
  ring_buf_space_get buf = ring_buf_capacity_get buf - len /\ ring_buf_size_get buf = len /\
  ring_buf_is_empty buf = bool_decide (q = []) /\ ring_holds (ring_buf_reset buf) [] /\
  (forall data, n <= Z.of_nat (length data) ->
    let m := Z.min n (ring_buf_capacity_get buf - len) in
    exists buf', ring_buf_put buf data n = Some (m, buf') /\ ring_buf_capacity_get buf' = ring_buf_capacity_get buf /\
      ring_holds buf' (q ++ take (Z.to_nat m) data)) /\
  (forall data_null, exists buf',
      ring_buf_get buf data_null n = Some (Z.min n len, if data_null then [] else take (Z.to_nat n) q, buf') /\
      ring_buf_capacity_get buf' = ring_buf_capacity_get buf /\ ring_holds buf' (drop (Z.to_nat n) q)) /\
  (exists buf', ring_buf_peek buf n = Some (Z.min n len, take (Z.to_nat n) q, buf') /\
      ring_buf_capacity_get buf' = ring_buf_capacity_get buf /\ ring_holds buf' q).
Proof.
  intros Hq Hn len. destruct (ring_holds_length buf q Hq) as (Hs & Hl & -> & Hsz & ->). unfold ring_buf_capacity_get.
  fold len in Hl, Hsz |- *. split_and!; [done|done|done| | | |].
  - destruct Hq as (gt & pt & [] & _). exists 0, 0. by split; [apply reset_ok|].
  - intros data Hd. by apply ring_put_spec.
  - intros data_null. destruct (read_spec buf q n (Z.min n len)) as (b1 & b2 & El & Ef & Es & Hh); [done|lia|lia|].
    exists b2. unfold ring_buf_get. rewrite El. cbn [mbind option_bind]. fold len. rewrite Ef. split_and!; [done|done|].
    destruct (Z.min_spec n len) as [[? E]|[? E]]; rewrite E in Hh; [done|].
    rewrite drop_ge in Hh by lia. by rewrite drop_ge by lia.
  - unfold ring_buf_peek. rewrite Hsz.
    destruct (read_spec buf q (Z.min n len) 0) as (b1 & b2 & El & Ef & Es & Hh); [done|lia|lia|].
    exists b2. rewrite El. cbn [mbind option_bind]. fold len. rewrite Ef. split_and!; [|done|done].
    cbn [Z.eqb]. do 2 f_equal. f_equal; [lia|]. destruct (Z.min_spec n len) as [[? ->]|[? ->]]; [done|].
    by rewrite !take_ge by lia.
Qed.

(** A claim is a contiguous part of the array: the writer never gets a byte that the
    reader has not released, the reader gets the next bytes in order, either gets something when
    there is anything to get, and finishing with more bytes than were claimed is refused with
    -EINVAL and changes nothing. *)
Theorem ring_claims_safe buf gt gh pt ph n :
  ring_ok buf gt gh pt ph -> 0 <= n < 2 ^ 32 ->
  (exists k i buf', ring_buf_put_claim buf n = (k, i, buf') /\ ring_ok buf' gt gh pt (ph + k) /\
     0 <= k <= n /\ 0 <= i /\ i + k <= rb_size buf /\ (0 < n -> ph < gt + rb_size buf -> 0 < k) /\
     forall j, gt <= j < ph -> ~ i <= j mod rb_size buf < i + k) /\
  (exists k i buf', ring_buf_get_claim buf n = (k, i, buf') /\ ring_ok buf' gt (gh + k) pt ph /\
     0 <= k <= n /\ 0 <= i /\ i + k <= rb_size buf /\ (0 < n -> gh < pt -> 0 < k) /\
     copy_out buf i k = Some (segment buf gh k)) /\
  (exists buf', ring_buf_put_finish buf n = (if n >? ph - pt then - EINVAL else 0, buf') /\
     rb_buffer buf' = rb_buffer buf /\
     if n >? ph - pt then buf' = buf else ring_ok buf' gt gh (pt + n) (pt + n)) /\
  (exists buf', ring_buf_get_finish buf n = (if n >? gh - gt then - EINVAL else 0, buf') /\
     rb_buffer buf' = rb_buffer buf /\
     if n >? gh - gt then buf' = buf else ring_ok buf' (gt + n) (gt + n) pt ph).
Proof.
  intros Hok Hn. pose proof Hok as []. pose proof (Z.mod_pos_bound ph (rb_size buf) ltac:(lia)).
  pose proof (Z.mod_pos_bound gh (rb_size buf) ltac:(lia)).
  destruct (put_claim_spec buf gt gh pt ph n Hok ltac:(lia)) as (b1 & E1 & Hok1 & _ & _).
  destruct (get_claim_spec buf gt gh pt ph n Hok ltac:(lia)) as (b2 & E2 & Hok2 & _ & _).
  pose proof (put_finish_spec buf gt gh pt ph n Hok Hn) as H3. pose proof (get_finish_spec buf gt gh pt ph n Hok Hn) as H4.
  split_and!.
  - set (k := Z.min (Z.min n _) _) in *. exists k, (ph mod rb_size buf), b1. unfold contiguous in *.
    split_and!; try (done || lia). intros j Hj Hin. set (d := j mod rb_size buf - ph mod rb_size buf) in *.
    apply (mod_distinct (rb_size buf) j (ph + d)); [lia|lia|].
    rewrite (mod_contiguous _ ph d) by (unfold contiguous; lia). lia.
  - set (k := Z.min (Z.min n (pt - gh)) _) in *. exists k, (gh mod rb_size buf), b2.
    unfold contiguous in *. split_and!; try (done || lia). apply (copy_out_spec _ _ _ _ _ _ _ Hok). unfold contiguous. lia.
  - destruct (n >? ph - pt); [by exists buf|]. destruct H3 as (b3 & ? & ? & ? & _). by exists b3.
  - destruct (n >? gh - gt); [by exists buf|]. destruct H4 as (b4 & ? & ? & ? & _). by exists b4.
Qed.

(** C30: In item mode items come out in the order they went in, each with the type, value
    and data it was put with; an item that does not fit, or does not fit the buffer of the
    reader, is answered with -EMSGSIZE, and an empty ring with -EAGAIN, and the items stay as
    they are. *)
Theorem ring_items_refine :
  (forall sz data, 0 < sz < RING_BUFFER_MAX_SIZE / 4 -> Z.of_nat (length data) = 4 * sz ->
     exists buf, ring_buf_item_init sz data = Some buf /\ ring_items buf [] /\ ring_buf_item_space_get buf = sz) /\
  (forall buf its x, ring_items buf its -> item_ok x ->
     let r := ring_buf_item_put buf (it_type x) (it_value x) (it_data x) (it_size32 x) in
     if 1 + it_size32 x >? ring_buf_item_space_get buf then r = Some (- EMSGSIZE, buf)
     else exists buf', r = Some (0, buf') /\ ring_items buf' (its ++ [x]) /\
            ring_buf_item_space_get buf' = ring_buf_item_space_get buf - (1 + it_size32 x)) /\
  (forall buf data_null size32, ring_items buf [] ->
     ring_buf_item_get buf data_null size32 = Some (- EAGAIN, None, size32, buf)) /\
  (forall buf its x data_null size32, ring_items buf (x :: its) ->
     exists buf', if negb data_null && (it_size32 x >? size32)
       then ring_buf_item_get buf data_null size32 = Some (- EMSGSIZE, None, it_size32 x, buf') /\ ring_items buf' (x :: its)
       else ring_buf_item_get buf data_null size32 =
              Some (0, Some (it_type x, it_value x, if data_null then [] else it_data x), it_size32 x, buf') /\
            ring_items buf' its).
Proof.
  split_and!.
  - intros sz data Hs Hl. change (RING_BUFFER_MAX_SIZE / 4) with 536870912 in Hs. unfold ring_buf_item_init.
    rewrite (proj2 (Z.ltb_lt _ _)), (wrap_u_small 32) by (change (RING_BUFFER_MAX_SIZE / 4) with 536870912; lia).
    destruct (init_spec (4 * sz) data) as (buf & -> & E & Hok); [unfold RING_BUFFER_MAX_SIZE; lia|lia|].
    exists buf. split; [done|]. split.
    + split; [rewrite E, Z.mul_comm; apply Z.mod_mul; lia|]. split; [constructor|]. by exists 0, 0.
    + unfold ring_buf_item_space_get. rewrite (space_get_spec _ _ _ _ _ Hok), E.
      replace (0 + 4 * sz - 0) with (sz * 4) by lia. apply Z.div_mul. lia.
  - intros buf its x Hri Hx r. pose proof (item_put_spec buf its x Hri Hx) as Hp. cbv zeta in Hp. fold r in Hp.
    pose proof (item_words buf its Hri) as Hw. destruct (item_size x Hx) as (_ & _ & Hb).
    rewrite Z.gtb_ltb in Hp |- *. destruct (Z.ltb_spec (ring_buf_item_space_get buf) (1 + it_size32 x)).
    + by rewrite (proj2 (Z.ltb_lt _ _)) in Hp by lia.
    + rewrite (proj2 (Z.ltb_ge _ _)) in Hp by lia. destruct Hp as (buf' & E & Es & Hri'). exists buf'. split; [done|]. split; [done|].
      apply item_words in Hri'. rewrite Es, fmap_app, concat_app, length_app in Hri'. cbn [fmap list_fmap concat] in Hri'.
      rewrite app_nil_r in Hri'. lia.
  - intros. by apply item_get_empty.
  - intros buf its x data_null size32 H. pose proof (item_get_spec buf its x data_null size32 H) as Hg.
    by destruct (negb data_null && (it_size32 x >? size32)).
Qed.

(** A ring of five bytes through which a little less than [2 ^ 31] bytes have passed: it
    holds four, and the indices of the writer have overflowed and those of the reader not
    yet. *)
Definition worn_ring : ring_buf :=
  mkRing [15; 11; 12; 13; 14] (- 2147483646) (- 2147483646) (- 2147483646) 2147483646 2147483646 2147483645 5.

Lemma worn_ring_ok : ring_ok worn_ring 2147483646 2147483646 2147483650 2147483650.
Proof. split; vm_compute; intuition congruence. Qed.

Lemma ring_buf_refines_witness :
  exists buf, ring_buf_put worn_ring [7; 8; 9] 3 = Some (1, buf) /\
    ring_holds buf [11; 12; 13; 14; 7].
Proof.
  assert (Hq : ring_holds worn_ring (segment worn_ring 2147483646 4)) by (eexists _, _; split; [apply worn_ring_ok|done]).
  destruct (ring_buf_refines worn_ring _ 3 Hq ltac:(lia)) as (_ & _ & _ & _ & Hput & _).
  destruct (Hput [7; 8; 9]) as (buf & E & _ & Hh); [done|]. exists buf. split; [exact E|exact Hh].
Defined.

Lemma ring_claims_safe_witness :
  exists buf, ring_buf_get_claim worn_ring 9 = (4, 1, buf).
Proof.
  destruct (ring_claims_safe _ _ _ _ _ 9 worn_ring_ok ltac:(lia)) as (_ & (k & i & buf & E & _) & _).
  exists buf. rewrite E. vm_compute in E. by simplify_eq.
Defined.
End Ring.
