(* ===== verification/SysHeap.v ===== *)
(** * The chunk heap (lib/heap/heap.c, lib/heap/heap.h)

    The allocator behind the kernel heap and memory pools.  The memory of a heap is cut
    into chunks, each with a header of two fields in front; free chunks are linked into
    circular lists, one for each power of two, through two more fields that lie in the
    part of the chunk the user gets.  The fields are 16 or 32 bits wide, depending on the
    size of the heap.

    The memory is a map of byte addresses to bytes, and fields are read and written in it
    in little-endian order.  [struct z_heap] occupies the chunk 0; its members [end_chunk],
    [avail_buckets] and [buckets] are kept apart, and their bytes are not in the map, so
    that an access to them through a chunk, and one outside of the heap, is [None].  So are
    an access outside of [buckets] and a failed assertion.  [NULL] is 0.  The statistics
    (CONFIG_SYS_HEAP_RUNTIME_STATS) and the listeners are disabled. *)

From S2P Require Import Prelude KState.

Local Open Scope Z_scope.

(** ** Little-endian words *)

Fixpoint le_bytes (n : nat) (v : Z) : list Z :=
  match n with O => [] | S n => v mod 256 :: le_bytes n (v / 256) end.
Fixpoint le_val (l : list Z) : Z := match l with [] => 0 | b :: l => b + 256 * le_val l end.

Definition load_le (m : gmap Z Z) (a : Z) (n : nat) : option Z := l ← mem_read m a n; Some (le_val l).
Definition store_le (m : gmap Z Z) (a : Z) (n : nat) (v : Z) : option (gmap Z Z) :=
  _ ← mem_read m a n; Some (mem_write m a (le_bytes n v)).

(** ** Chunks *)

Definition CHUNK_UNIT : Z := 8.

(** [CONFIG_SYS_HEAP_SMALL_ONLY], [CONFIG_SYS_HEAP_BIG_ONLY], and
    [CONFIG_SYS_HEAP_ALLOC_LOOPS]. *)
Class HeapConfig := mkHeapConfig { small_only : bool; big_only : bool; alloc_loops : nat }.

Inductive chunk_fields := LEFT_SIZE | SIZE_AND_USED | FREE_PREV | FREE_NEXT.
Definition field_index (f : chunk_fields) : Z :=
  match f with LEFT_SIZE => 0 | SIZE_AND_USED => 1 | FREE_PREV => 2 | FREE_NEXT => 3 end.

(** [hp_addr] is the address of the structure, and [hp_mem] the memory. *)
Record z_heap := mkHeap {
  hp_addr : Z;
  hp_mem : gmap Z Z;
  end_chunk : Z;
  avail_buckets : Z;
  buckets : list Z
}.

Definition with_mem v h := mkHeap (hp_addr h) v (end_chunk h) (avail_buckets h) (buckets h).
Definition with_avail v h := mkHeap (hp_addr h) (hp_mem h) (end_chunk h) v (buckets h).
Definition with_buckets v h := mkHeap (hp_addr h) (hp_mem h) (end_chunk h) (avail_buckets h) v.

Section Code.
Context `{HeapConfig}.

(** Pointers are four bytes wide. *)
Definition big_heap_chunks (chunks : Z) : bool :=
  if small_only then false else if big_only then true else chunks >? 0x7fff.
Definition big_heap_bytes (bytes : Z) : bool := big_heap_chunks (bytes / CHUNK_UNIT).
Definition big_heap (h : z_heap) : bool := big_heap_chunks (end_chunk h).

(** The bytes of a field, and its address. *)
Definition field_bytes (h : z_heap) : nat := if big_heap h then 4 else 2.
Definition field_addr (h : z_heap) (c : Z) (f : chunk_fields) : Z :=
  hp_addr h + c * CHUNK_UNIT + field_index f * Z.of_nat (field_bytes h).

Definition chunk_field (h : z_heap) (c : Z) (f : chunk_fields) : option Z :=
  load_le (hp_mem h) (field_addr h c f) (field_bytes h).

Definition chunk_set (h : z_heap) (c : Z) (f : chunk_fields) (val : Z) : option z_heap :=
  m ← store_le (hp_mem h) (field_addr h c f) (field_bytes h) val; Some (with_mem m h).

Definition chunk_used (h : z_heap) (c : Z) : option bool :=
  v ← chunk_field h c SIZE_AND_USED; Some (negb (Z.land v 1 =? 0)).
Definition chunk_size (h : z_heap) (c : Z) : option Z :=
  v ← chunk_field h c SIZE_AND_USED; Some (Z.shiftr v 1).

Definition set_chunk_used (h : z_heap) (c : Z) (used : bool) : option z_heap :=
  v ← chunk_field h c SIZE_AND_USED;
  chunk_set h c SIZE_AND_USED (if used then Z.lor v 1 else Z.land v (Z.lnot 1)).

Definition set_chunk_size (h : z_heap) (c size : Z) : option z_heap := chunk_set h c SIZE_AND_USED (u32 (Z.shiftl size 1)).

Definition prev_free_chunk (h : z_heap) (c : Z) : option Z := chunk_field h c FREE_PREV.
Definition next_free_chunk (h : z_heap) (c : Z) : option Z := chunk_field h c FREE_NEXT.
Definition set_prev_free_chunk (h : z_heap) (c prev : Z) : option z_heap := chunk_set h c FREE_PREV prev.
Definition set_next_free_chunk (h : z_heap) (c next : Z) : option z_heap := chunk_set h c FREE_NEXT next.

Definition left_chunk (h : z_heap) (c : Z) : option Z := l ← chunk_field h c LEFT_SIZE; Some (u32 (c - l)).
Definition right_chunk (h : z_heap) (c : Z) : option Z := s ← chunk_size h c; Some (u32 (c + s)).
Definition set_left_chunk_size (h : z_heap) (c size : Z) : option z_heap := chunk_set h c LEFT_SIZE size.

Definition solo_free_header (h : z_heap) (c : Z) : option bool :=
  if big_heap h then s ← chunk_size h c; Some (s =? 1) else Some false.

Definition chunk_header_bytes (h : z_heap) : Z := if big_heap h then 8 else 4.
Definition heap_footer_bytes (size : Z) : Z := if big_heap_bytes size then 8 else 4.
Definition chunksz (bytes : Z) : Z := u32 (bytes + CHUNK_UNIT - 1) / CHUNK_UNIT.
Definition bytes_to_chunksz (h : z_heap) (bytes : Z) : Z := chunksz (u32 (chunk_header_bytes h + bytes)).
Definition min_chunk_size (h : z_heap) : Z := bytes_to_chunksz h 1.
Definition chunksz_to_bytes (h : z_heap) (chunksz_in : Z) : Z := u32 (chunksz_in * CHUNK_UNIT - chunk_header_bytes h).

(** [31 - __builtin_clz(usable_sz)]; the argument must not be 0. *)
Definition bucket_idx (h : z_heap) (sz : Z) : option Z :=
  let usable_sz := u32 (sz - min_chunk_size h + 1) in
  if usable_sz =? 0 then None else Some (Z.log2 usable_sz).

Definition size_too_big (h : z_heap) (bytes : Z) : bool := bytes / CHUNK_UNIT >=? end_chunk h.

(** [h->buckets[bidx].next]. *)
Definition bucket_next (h : z_heap) (bidx : Z) : option Z := buckets h !! Z.to_nat bidx.
Definition set_bucket_next (h : z_heap) (bidx c : Z) : option z_heap :=
  _ ← bucket_next h bidx; Some (with_buckets (<[Z.to_nat bidx := c]> (buckets h)) h).

(** ** Free lists *)

Definition chunk_mem (h : z_heap) (c : Z) : Z := hp_addr h + c * CHUNK_UNIT + chunk_header_bytes h.

Definition free_list_remove_bidx (h : z_heap) (c bidx : Z) : option z_heap :=
  n ← next_free_chunk h c;
  if n =? c then
    let h := with_avail (Z.land (avail_buckets h) (Z.lnot (BIT bidx))) h in
    set_bucket_next h bidx 0
  else
    first ← prev_free_chunk h c;
    second ← next_free_chunk h c;
    h ← set_bucket_next h bidx second;
    h ← set_next_free_chunk h first second;
    set_prev_free_chunk h second first.

Definition free_list_remove (h : z_heap) (c : Z) : option z_heap :=
  solo ← solo_free_header h c;
  if negb solo then
    s ← chunk_size h c;
    bidx ← bucket_idx h s;
    free_list_remove_bidx h c bidx
  else Some h.

Definition free_list_add_bidx (h : z_heap) (c bidx : Z) : option z_heap :=
  b ← bucket_next h bidx;
  if b =? 0 then
    let h := with_avail (Z.lor (avail_buckets h) (BIT bidx)) h in
    h ← set_bucket_next h bidx c;
    h ← set_prev_free_chunk h c c;
    set_next_free_chunk h c c
  else
    second ← bucket_next h bidx;
    first ← prev_free_chunk h second;
    h ← set_prev_free_chunk h c first;
    h ← set_next_free_chunk h c second;
    h ← set_next_free_chunk h first c;
    set_prev_free_chunk h second c.

Definition free_list_add (h : z_heap) (c : Z) : option z_heap :=
  solo ← solo_free_header h c;
  if negb solo then
    s ← chunk_size h c;
    bidx ← bucket_idx h s;
    free_list_add_bidx h c bidx
  else Some h.

(** ** Splitting and merging *)

Definition split_chunks (h : z_heap) (lc rc : Z) : option z_heap :=
  sz0 ← chunk_size h lc;
  let lsz := u32 (rc - lc) in
  let rsz := u32 (sz0 - lsz) in
  h ← set_chunk_size h lc lsz;
  h ← set_chunk_size h rc rsz;
  h ← set_left_chunk_size h rc lsz;
  r ← right_chunk h rc;
  set_left_chunk_size h r rsz.

Definition merge_chunks (h : z_heap) (lc rc : Z) : option z_heap :=
  s1 ← chunk_size h lc;
  s2 ← chunk_size h rc;
  let newsz := u32 (s1 + s2) in
  h ← set_chunk_size h lc newsz;
  r ← right_chunk h rc;
  set_left_chunk_size h r newsz.

Definition free_chunk (h : z_heap) (c : Z) : option z_heap :=
  r ← right_chunk h c;
  ru ← chunk_used h r;
  h ← (if negb ru then
         r ← right_chunk h c;
         h ← free_list_remove h r;
         r ← right_chunk h c;
         merge_chunks h c r
       else Some h);
  l ← left_chunk h c;
  lu ← chunk_used h l;
  '(h, c) ← (if negb lu then
               l ← left_chunk h c;
               h ← free_list_remove h l;
               l ← left_chunk h c;
               h ← merge_chunks h l c;
               l ← left_chunk h c;
               Some (h, l)
             else Some (h, c));
  free_list_add h c.

(** The quotient of two non-negative numbers; the address is in the heap. *)
Definition mem_to_chunkid (h : z_heap) (p : Z) : Z := (p - chunk_header_bytes h - hp_addr h) / CHUNK_UNIT.

Definition sys_heap_free (h : z_heap) (mem : Z) : option z_heap :=
  if mem =? 0 then Some h
  else
    let c := mem_to_chunkid h mem in
    used ← chunk_used h c;
    if negb used then None                       (* __ASSERT *)
    else
      r ← right_chunk h c;
      l ← left_chunk h r;
      if negb (l =? c) then None                 (* __ASSERT *)
      else
        h ← set_chunk_used h c false;
        free_chunk h c.

Definition sys_heap_usable_size (h : z_heap) (mem : Z) : option Z :=
  let c := mem_to_chunkid h mem in
  let chunk_base := hp_addr h + c * CHUNK_UNIT in
  s ← chunk_size h c;
  let chunk_sz := u32 (s * CHUNK_UNIT) in
  Some (u32 (chunk_sz - (mem - chunk_base))).

(** ** Allocation *)

(** The [do] loop of [alloc_chunk]: a chunk, or the heap with the list turned. *)
Fixpoint alloc_loop (i : nat) (h : z_heap) (sz bi first : Z) : option (z_heap * option Z) :=
  match i with
  | O => None
  | S i =>
      c ← bucket_next h bi;
      s ← chunk_size h c;
      if s >=? sz then
        h ← free_list_remove_bidx h c bi;
        Some (h, Some c)
      else
        n ← next_free_chunk h c;
        h ← set_bucket_next h bi n;
        b ← bucket_next h bi;
        if negb (Nat.eqb i 0) && negb (b =? first) then alloc_loop i h sz bi first else Some (h, None)
  end.

(** [__builtin_ctz] of a word that is not 0. *)
Fixpoint ctz (p : positive) : Z := match p with xO p => 1 + ctz p | _ => 0 end.

Definition alloc_chunk (h : z_heap) (sz : Z) : option (z_heap * Z) :=
  bi ← bucket_idx h sz;
  b ← bucket_next h bi;
  '(h, found) ← (if negb (b =? 0) then alloc_loop alloc_loops h sz bi b else Some (h, None));
  match found with
  | Some c => Some (h, c)
  | None =>
      let bmask := Z.land (avail_buckets h) (Z.lnot (BIT (bi + 1) - 1)) in
      match bmask with
      | Zpos p =>
          let minbucket := ctz p in
          c ← bucket_next h minbucket;
          h ← free_list_remove_bidx h c minbucket;
          Some (h, c)
      | _ => Some (h, 0)
      end
  end.

Definition sys_heap_alloc (h : z_heap) (bytes : Z) : option (z_heap * Z) :=
  if (bytes =? 0) || size_too_big h bytes then Some (h, 0)
  else
    let chunk_sz := bytes_to_chunksz h bytes in
    '(h, c) ← alloc_chunk h chunk_sz;
    if c =? 0 then Some (h, 0)
    else
      s ← chunk_size h c;
      h ← (if s >? chunk_sz then
             h ← split_chunks h c (c + chunk_sz);
             free_list_add h (c + chunk_sz)
           else Some h);
      h ← set_chunk_used h c true;
      Some (h, chunk_mem h c).

Definition ROUND_UP (x align : Z) : Z := u32 (x + (align - 1)) / align * align.
Definition ROUND_DOWN (x align : Z) : Z := x / align * align.

Definition sys_heap_aligned_alloc (h : z_heap) (align bytes : Z) : option (z_heap * Z) :=
  let rew := Z.land align (u32 (- align)) in
  if (align =? rew) && (align <=? chunk_header_bytes h) then sys_heap_alloc h bytes
  else
    let '(align, rew, gap) :=
      if negb (align =? rew) then (align - rew, rew, Z.min rew (chunk_header_bytes h))
      else (align, 0, chunk_header_bytes h) in
    if negb (Z.land align (align - 1) =? 0) then None          (* __ASSERT *)
    else if (bytes =? 0) || size_too_big h bytes then Some (h, 0)
    else
      let padded_sz := bytes_to_chunksz h (u32 (bytes + align - gap)) in
      '(h, c0) ← alloc_chunk h padded_sz;
      if c0 =? 0 then Some (h, 0)
      else
        let mem := chunk_mem h c0 in
        let mem := ROUND_UP (mem + rew) align - rew in
        let end_ := ROUND_UP (mem + bytes) CHUNK_UNIT in
        let c := mem_to_chunkid h mem in
        let c_end := (end_ - hp_addr h) / CHUNK_UNIT in
        h ← (if c >? c0 then
               h ← split_chunks h c0 c;
               free_list_add h c0
             else Some h);
        r ← right_chunk h c;
        h ← (if r >? c_end then
               h ← split_chunks h c c_end;
               free_list_add h c_end
             else Some h);
        h ← set_chunk_used h c true;
        Some (h, mem).

(** [memcpy] on the memory of the heap. *)
Definition heap_memcpy (h : z_heap) (dst src n : Z) : option z_heap :=
  l ← mem_read (hp_mem h) src (Z.to_nat n);
  _ ← mem_read (hp_mem h) dst (Z.to_nat n);
  Some (with_mem (mem_write (hp_mem h) dst l) h).

(** The end of [sys_heap_aligned_realloc], where the block is moved. *)
Definition realloc_move (h : z_heap) (ptr align bytes c align_gap : Z) : option (z_heap * Z) :=
  '(h, ptr2) ← sys_heap_aligned_alloc h align bytes;
  if negb (ptr2 =? 0) then
    s ← chunk_size h c;
    let prev_size := u32 (chunksz_to_bytes h s - align_gap) in
    h ← heap_memcpy h ptr2 ptr (Z.min prev_size bytes);
    h ← sys_heap_free h ptr;
    Some (h, ptr2)
  else Some (h, ptr2).

Definition sys_heap_aligned_realloc (h : z_heap) (ptr align bytes : Z) : option (z_heap * Z) :=
  if ptr =? 0 then sys_heap_aligned_alloc h align bytes
  else if bytes =? 0 then h ← sys_heap_free h ptr; Some (h, 0)
  else if negb (Z.land align (u32 (align - 1)) =? 0) then None  (* __ASSERT *)
  else if size_too_big h bytes then Some (h, 0)
  else
    let c := mem_to_chunkid h ptr in
    rc ← right_chunk h c;
    let align_gap := u32 (ptr - chunk_mem h c) in
    let chunks_need := bytes_to_chunksz h (u32 (bytes + align_gap)) in
    if negb (align =? 0) && negb (Z.land ptr (u32 (align - 1)) =? 0) then
      realloc_move h ptr align bytes c align_gap
    else
      s ← chunk_size h c;
      if s =? chunks_need then Some (h, ptr)
      else if s >? chunks_need then
        h ← split_chunks h c (c + chunks_need);
        h ← set_chunk_used h c true;
        h ← free_chunk h (c + chunks_need);
        Some (h, ptr)
      else
        ru ← chunk_used h rc;
        expand ← (if negb ru then rs ← chunk_size h rc; Some (u32 (s + rs) >=? chunks_need) else Some false);
        if expand : bool then
          let split_size := u32 (chunks_need - s) in
          h ← free_list_remove h rc;
          rs ← chunk_size h rc;
          h ← (if split_size <? rs then
                 h ← split_chunks h rc (rc + split_size);
                 free_list_add h (rc + split_size)
               else Some h);
          h ← merge_chunks h c rc;
          h ← set_chunk_used h c true;
          Some (h, ptr)
        else realloc_move h ptr align bytes c align_gap.

(** ** Initialisation *)

(** [sizeof(struct z_heap)] and [sizeof(struct z_heap_bucket)]. *)
Definition sizeof_z_heap : Z := 16.
Definition sizeof_bucket : Z := 4.

(** The bytes of the members of the structure are taken out of the memory. *)
Definition take_out (m : gmap Z Z) (a n : Z) : gmap Z Z := foldr delete m (seqZ a n).

Definition sys_heap_init (m : gmap Z Z) (mem bytes : Z) : option z_heap :=
  if negb (bytes / CHUNK_UNIT <=? (if small_only then 0x7fff else 0x7fffffff)) then None   (* __ASSERT *)
  else if negb (bytes >? heap_footer_bytes bytes) then None                                (* __ASSERT *)
  else
    let bytes := bytes - heap_footer_bytes bytes in
    let addr := ROUND_UP mem CHUNK_UNIT in
    let end_ := ROUND_DOWN (mem + bytes) CHUNK_UNIT in
    let heap_sz := u32 (end_ - addr) / CHUNK_UNIT in
    if negb (heap_sz >? chunksz sizeof_z_heap) then None                                   (* __ASSERT *)
    else
      let h := mkHeap addr m heap_sz 0 [] in
      bi ← bucket_idx h heap_sz;
      let nb_buckets := bi + 1 in
      let chunk0_size := chunksz (sizeof_z_heap + nb_buckets * sizeof_bucket) in
      if negb (chunk0_size + min_chunk_size h <=? heap_sz) then None                       (* __ASSERT *)
      else
        let h := mkHeap addr (take_out m (addr + 8) (sizeof_z_heap - 8 + nb_buckets * sizeof_bucket))
                   heap_sz 0 (replicate (Z.to_nat nb_buckets) 0) in
        h ← set_chunk_size h 0 chunk0_size;
        h ← set_left_chunk_size h 0 0;
        h ← set_chunk_used h 0 true;
        h ← set_chunk_size h chunk0_size (heap_sz - chunk0_size);
        h ← set_left_chunk_size h chunk0_size chunk0_size;
        h ← set_chunk_size h heap_sz 0;
        h ← set_left_chunk_size h heap_sz (heap_sz - chunk0_size);
        h ← set_chunk_used h heap_sz true;
        free_list_add h chunk0_size.
End Code.
