(* ===== verification/HeapModel.v ===== *)
(** * The chunk heap: layout and free lists

    The state of a heap as a list of chunks that tile it, and a map of the chunks that are
    in the free lists; what each access to a field does to them. *)

From S2P Require Import Prelude KState KLogic MemOps SysHeap.

Local Open Scope Z_scope.

(** ** Little-endian words *)

Lemma le_bytes_length n v : length (le_bytes n v) = n.
Proof. revert v. induction n as [|n IH]; intros v; cbn; [done|]. by rewrite IH. Qed.

Lemma le_val_bytes n v : le_val (le_bytes n v) = v mod 2 ^ (8 * Z.of_nat n).
Proof.
  revert v. induction n as [|n IH]; intros v; cbn [le_bytes le_val]; [by rewrite Z.mod_1_r|].
  rewrite IH. replace (2 ^ (8 * Z.of_nat (S n))) with (256 * 2 ^ (8 * Z.of_nat n)).
  - rewrite Z.rem_mul_r by lia. lia.
  - change 256 with (2 ^ 8). rewrite <- Z.pow_add_r by lia. f_equal. lia.
Qed.

Lemma mem_read_length m a n l : mem_read m a n = Some l -> length l = n.
Proof.
  revert a l. induction n as [|n IH]; intros a l; cbn; [by intros [= <-]|].
  destruct (m !! a); cbn; [|done]. destruct (mem_read m (a + 1) n) eqn:E; cbn; [|done].
  intros [= <-]. cbn. by rewrite (IH _ _ E).
Qed.

Lemma mem_read_Some m a n : is_Some (mem_read m a n) <-> mapped m a (Z.of_nat n).
Proof.
  split.
  - revert a. induction n as [|n IH]; intros a Hs q Hq; unfold within in Hq; [lia|].
    cbn in Hs. destruct (m !! a) as [v|] eqn:Ev; cbn in Hs; [|by destruct Hs].
    destruct (mem_read m (a + 1) n) as [l|] eqn:El; cbn in Hs; [|by destruct Hs].
    destruct (decide (q = a)) as [->|]; [by exists v|]. apply (IH (a + 1)); [by rewrite El|]. unfold within. lia.
  - intros Hm. destruct (mem_read_mapped m a (Z.of_nat n) Hm) as (l & E & _). rewrite Nat2Z.id in E. by exists l.
Qed.

Lemma mem_read_bytes m a n l : mem_read m a n = Some l -> l = bytes m a (Z.of_nat n).
Proof. intros E. unfold bytes. by rewrite Nat2Z.id, E. Qed.

Lemma mem_read_ext m m' a n :
  (forall q, within a (Z.of_nat n) q -> m' !! q = m !! q) -> mem_read m' a n = mem_read m a n.
Proof.
  revert a. induction n as [|n IH]; intros a Hm; cbn; [done|].
  rewrite Hm by (unfold within; lia). destruct (m !! a); cbn; [|done].
  rewrite IH; [done|]. intros q Hq. apply Hm. unfold within in *. lia.
Qed.

Lemma load_ext m m' a n :
  (forall q, within a (Z.of_nat n) q -> m' !! q = m !! q) -> load_le m' a n = load_le m a n.
Proof. intros Hm. unfold load_le. by rewrite (mem_read_ext m m'). Qed.

Lemma load_mapped m a n : is_Some (load_le m a n) <-> mapped m a (Z.of_nat n).
Proof.
  rewrite <- mem_read_Some. unfold load_le. destruct (mem_read m a n); cbn; [by split; eauto|].
  split; by intros [? ?].
Qed.

Lemma store_spec m a n v :
  mapped m a (Z.of_nat n) ->
  exists m', store_le m a n v = Some m' /\ load_le m' a n = Some (v mod 2 ^ (8 * Z.of_nat n)) /\
    (forall q, is_Some (m' !! q) <-> is_Some (m !! q)) /\
    (forall q, ~ within a (Z.of_nat n) q -> m' !! q = m !! q).
Proof.
  intros Hm. unfold store_le. pose proof Hm as Hs. apply mem_read_Some in Hs as [l El]. rewrite El. cbn.
  eexists; split; [done|].
  assert (Hl : mapped m a (Z.of_nat (length (le_bytes n v)))) by by rewrite le_bytes_length.
  assert (Hd : forall q, is_Some (mem_write m a (le_bytes n v) !! q) <-> is_Some (m !! q))
    by (intros q; by apply mem_write_mapped).
  split_and!; [|done|intros q Hq; apply mem_write_outside; by rewrite le_bytes_length].
  unfold load_le. destruct (mem_read (mem_write m a (le_bytes n v)) a n) as [l'|] eqn:El'; cbn.
  - apply mem_read_bytes in El' as ->. rewrite bytes_write by (rewrite ?le_bytes_length; done || lia).
    by rewrite le_val_bytes.
  - apply (mem_read_Some m a n) in Hm. exfalso.
    assert (Hx : is_Some (mem_read (mem_write m a (le_bytes n v)) a n)).
    { apply mem_read_Some. intros q Hq. apply Hd. apply mem_read_Some in Hm. by apply Hm. }
    rewrite El' in Hx. by destruct Hx.
Qed.

(** ** Words of a heap

    [A] is the address of the heap, [E] the number of its chunk units. *)

Section Heap.
Context `{HeapConfig}.
Variables A E : Z.

Definition big : bool := big_heap_chunks E.
(** Bytes of a field, fields in a unit, bytes of a header, and units of the smallest chunk. *)
Definition fb : nat := if big then 4 else 2.
Definition uw : Z := if big then 2 else 4.
Definition hb : Z := if big then 8 else 4.
Definition mn : Z := if big then 2 else 1.
Definition lim : Z := if big then 2 ^ 32 else 2 ^ 16.

Definition slot (c i : Z) : Z := c * uw + i.
Definition word (i q : Z) : Prop := within (A + i * Z.of_nat fb) (Z.of_nat fb) q.
Definition wd (m : gmap Z Z) (i : Z) : option Z := load_le m (A + i * Z.of_nat fb) fb.

Definition isheap (h : z_heap) : Prop := hp_addr h = A /\ end_chunk h = E.

Lemma sizes : uw * Z.of_nat fb = 8 /\ hb = 2 * Z.of_nat fb /\ 2 ^ (8 * Z.of_nat fb) = lim /\
  (big = true /\ uw = 2 /\ mn = 2 /\ hb = 8 \/ big = false /\ uw = 4 /\ mn = 1 /\ hb = 4).
Proof. unfold uw, fb, hb, lim, mn. destruct big; repeat split; tauto. Qed.

(** Words that are written one after the other, the last write first. *)
Fixpoint written (l : list (Z * Z)) (j : Z) : option Z :=
  match l with [] => None | (i, v) :: l => if decide (j = i) then Some v else written l j end.

Record puts (m m' : gmap Z Z) (l : list (Z * Z)) : Prop := mkPuts {
  puts_wd : forall j, wd m' j = match written l j with Some v => Some v | None => wd m j end;
  puts_dom : forall q, is_Some (m' !! q) <-> is_Some (m !! q);
  puts_out : forall q, Forall (fun x => ~ word (fst x) q) l -> m' !! q = m !! q
}.

Lemma puts_nil m : puts m m [].
Proof. by split. Qed.

Lemma wd_mapped m m' i : (forall q, is_Some (m' !! q) <-> is_Some (m !! q)) -> is_Some (wd m' i) <-> is_Some (wd m i).
Proof.
  intros Hd. unfold wd. rewrite !load_mapped. unfold mapped. split; intros Hm q Hq; apply Hd; by apply Hm.
Qed.

Lemma puts_mapped m m' l i : puts m m' l -> is_Some (wd m i) -> is_Some (wd m' i).
Proof. intros Hp. by apply wd_mapped, Hp. Qed.

Lemma field_addr_slot h c f : isheap h -> field_addr h c f = A + slot c (field_index f) * Z.of_nat fb.
Proof.
  intros [HA HE]. unfold field_addr, field_bytes, big_heap, slot, CHUNK_UNIT. rewrite HA, HE. fold big. fold fb.
  destruct sizes as (Hu & _). rewrite Z.mul_add_distr_r, <- Z.mul_assoc, Hu. lia.
Qed.

Lemma field_wd h c f : isheap h -> chunk_field h c f = wd (hp_mem h) (slot c (field_index f)).
Proof.
  intros Hh. unfold chunk_field, wd. rewrite field_addr_slot by done. unfold field_bytes, big_heap.
  destruct Hh as [_ ->]. done.
Qed.

(** A field that is in the memory can be written. *)
Lemma chunk_set_spec h c f v m0 l :
  isheap h -> puts m0 (hp_mem h) l -> is_Some (wd m0 (slot c (field_index f))) -> 0 <= v < lim ->
  exists m', chunk_set h c f v = Some (with_mem m' h) /\ puts m0 m' ((slot c (field_index f), v) :: l).
Proof.
  intros Hh Hp Hs Hv. unfold chunk_set. rewrite field_addr_slot by done.
  assert (Hf : field_bytes h = fb) by (unfold field_bytes, big_heap; by destruct Hh as [_ ->]). rewrite Hf.
  set (i := slot c (field_index f)) in *. apply (puts_mapped _ _ _ _ Hp) in Hs.
  destruct (store_spec (hp_mem h) (A + i * Z.of_nat fb) fb v) as (m' & -> & Hr & Hd & Ho); [by apply load_mapped|].
  exists m'. split; [done|]. destruct sizes as (_ & _ & Hl & _). rewrite Hl, Z.mod_small in Hr by done. split.
  - intros j. cbn. case_decide as Hj; [by subst j|]. rewrite <- (puts_wd _ _ _ Hp). unfold wd. apply load_ext.
    intros q Hq. apply Ho. unfold within in *. assert (Z.of_nat fb > 0) by (unfold fb; destruct big; lia). nia.
  - intros q. rewrite Hd. apply Hp.
  - intros q Hq. inversion_clear Hq as [|? ? H1 H2]. rewrite Ho by done. by apply Hp.
Qed.


(** The next write of the goal, after the writes [P]; the field is in the memory, and the
    value fits. *)
Local Ltac set_step Hh P m P' :=
  match goal with
  | |- context [chunk_set ?hh ?c ?f ?v] =>
      let S := fresh "S" in
      destruct (chunk_set_spec hh c f v _ _ Hh P) as (m & S & P');
        [try done; try by eexists|try done|rewrite S; cbn [mbind option_bind]; clear S; cbn [field_index] in P']
  end.

(** ** Tiling

    The chunk 0 has [C0] units; a list of sizes and marks describes the chunks after it. *)

Variable C0 : Z.

Record shape : Prop := mkShape {
  shape_C0 : 0 < C0 < E;
  shape_E : 2 * E + 1 < lim;
  shape_A : 0 < A /\ A mod 8 = 0;
  shape_end : A + 8 * E + 8 <= 2 ^ 32
}.
Hypothesis HS : shape.

Definition total (cs : list (Z * bool)) : Z := foldr (fun x n => fst x + n) 0 cs.
Definition lastsz (left : Z) (cs : list (Z * bool)) : Z := List.last (fst <$> cs) left.

(** The headers, with the end marker and without it: place, size of the chunk at the left,
    size, mark. *)
Fixpoint headers (pos left : Z) (cs : list (Z * bool)) : list (Z * Z * Z * bool) :=
  match cs with [] => [] | (s, u) :: cs => (pos, left, s, u) :: headers (pos + s) s cs end.
Fixpoint hlist (pos left : Z) (cs : list (Z * bool)) : list (Z * Z * Z * bool) :=
  match cs with [] => [(pos, left, 0, true)] | (s, u) :: cs => (pos, left, s, u) :: hlist (pos + s) s cs end.

Fixpoint places (pos : Z) (cs : list (Z * bool)) : list (Z * Z * bool) :=
  match cs with [] => [] | (s, u) :: cs => (pos, s, u) :: places (pos + s) cs end.

Definition hdr_ok (m : gmap Z Z) (x : Z * Z * Z * bool) : Prop :=
  let '(c, l, s, u) := x in wd m (slot c 0) = Some l /\ wd m (slot c 1) = Some (2 * s + Z.b2z u).

Definition sized (cs : list (Z * bool)) : Prop := Forall (fun x => 1 <= fst x) cs.

Record tiled (m : gmap Z Z) (cs : list (Z * bool)) : Prop := mkTiled {
  t_zero : hdr_ok m (0, 0, C0, true);
  t_hdr : Forall (hdr_ok m) (hlist C0 C0 cs);
  t_size : sized cs;
  t_total : C0 + total cs = E;
  t_map : mapped m (A + 8 * C0) (8 * (E - C0) + hb)
}.

Lemma total_app a b : total (a ++ b) = total a + total b.
Proof. induction a as [|x a IH]; cbn; [done|]. fold (total a) (total (a ++ b)). rewrite IH. lia. Qed.

Lemma lastsz_snoc left a s u : lastsz left (a ++ [(s, u)]) = s.
Proof. unfold lastsz. rewrite fmap_app. cbn. apply List.last_last. Qed.

Lemma hlist_app pos left a b : hlist pos left (a ++ b) = headers pos left a ++ hlist (pos + total a) (lastsz left a) b.
Proof.
  revert pos left. induction a as [|[s u] a IH]; intros pos left; cbn [hlist headers app].
  - cbn. f_equal. lia.
  - rewrite IH. cbn [app]. do 3 f_equal; cbn; [fold (total a); lia|].
    unfold lastsz. cbn. destruct a as [|[s' u'] a]; [done|]. cbn. f_equal.
    generalize s'. clear. induction a as [|[s2 u2] a IH]; intros s'; [done|]. cbn. apply IH.
Qed.

Lemma places_app pos a b : places pos (a ++ b) = places pos a ++ places (pos + total a) b.
Proof.
  revert pos. induction a as [|[s u] a IH]; intros pos; cbn [places app]; [cbn; f_equal; lia|].
  rewrite IH. do 3 f_equal. cbn. fold (total a). lia.
Qed.

Lemma sized_total cs : sized cs -> 0 <= total cs.
Proof. induction 1 as [|[s u] cs Hs _ IH]; cbn in *; [lia|]. fold (total cs). lia. Qed.

Lemma sized_app a b : sized (a ++ b) <-> sized a /\ sized b.
Proof. apply Forall_app. Qed.

Lemma places_bound pos cs c s u : sized cs -> (c, s, u) ∈ places pos cs -> pos <= c /\ c + s <= pos + total cs /\ 1 <= s.
Proof.
  intros Hs. revert pos. induction Hs as [|[s' u'] cs Hs' Hs IH]; intros pos; cbn [places]; [by intros ?%elem_of_nil|].
  cbn in Hs'. pose proof (sized_total _ Hs). cbn. fold (total cs). rewrite elem_of_cons. intros [[= -> -> ->]|Hin]; [lia|].
  specialize (IH _ Hin). lia.
Qed.

Lemma places_apart pos cs c s u c' s' u' :
  sized cs -> (c, s, u) ∈ places pos cs -> (c', s', u') ∈ places pos cs ->
  c = c' /\ s = s' /\ u = u' \/ c + s <= c' \/ c' + s' <= c.
Proof.
  intros Hs. revert pos. induction Hs as [|[s0 u0] cs Hs' Hs IH]; intros pos; cbn [places]; [by intros ?%elem_of_nil|].
  rewrite !elem_of_cons. intros [[= -> -> ->]|H1] [[= -> -> ->]|H2]; [by left| | |by apply (IH (pos + s0))].
  - apply places_bound in H2; [|done]. lia.
  - apply places_bound in H1; [|done]. lia.
Qed.

Lemma places_split pos cs c s u :
  (c, s, u) ∈ places pos cs -> exists pre post, cs = pre ++ (s, u) :: post /\ c = pos + total pre.
Proof.
  revert pos. induction cs as [|[s0 u0] cs IH]; intros pos; cbn [places]; [by intros ?%elem_of_nil|].
  rewrite elem_of_cons. intros [[= -> -> ->]|Hin]; [exists [], cs; cbn; split; [done|lia]|].
  destruct (IH _ Hin) as (pre & post & -> & ->). exists ((s0, u0) :: pre), post. cbn. fold (total pre). split; [done|lia].
Qed.

Lemma places_mid pos pre s u post : (pos + total pre, s, u) ∈ places pos (pre ++ (s, u) :: post).
Proof. rewrite places_app, elem_of_app. right. cbn. left. Qed.

Lemma headers_pos pos left cs x : sized cs -> x ∈ headers pos left cs -> pos <= x.1.1.1 < pos + total cs.
Proof.
  intros Hs. revert pos left. induction Hs as [|[s u] cs Hs' Hs IH]; intros pos left; cbn [headers]; [by intros ?%elem_of_nil|].
  cbn in Hs'. pose proof (sized_total _ Hs). cbn. fold (total cs). rewrite elem_of_cons. intros [->|Hin]; [cbn; lia|].
  specialize (IH _ _ Hin). lia.
Qed.

Lemma hlist_ge pos left cs x : sized cs -> x ∈ hlist pos left cs -> pos <= x.1.1.1.
Proof using.
  intros Hs. revert pos left. induction Hs as [|[s' u'] cs Hs' _ IH]; intros pos left; cbn [hlist].
  - rewrite list_elem_of_singleton. by intros ->.
  - rewrite elem_of_cons. intros [->|Hin]; [done|]. apply IH in Hin. cbn in Hs'. lia.
Qed.

(** The chunk at the right; the end marker looks like a used chunk of size 0. *)
Definition next (cs : list (Z * bool)) : Z * bool := match cs with [] => (0, true) | x :: _ => x end.

Lemma hlist_form pos cs : exists tl, (forall left, hlist pos left cs = (pos, left, (next cs).1, (next cs).2) :: tl) /\
  (sized cs -> forall x, x ∈ tl -> pos < x.1.1.1).
Proof.
  destruct cs as [|[s u] cs]; cbn; [exists []; split; [done|by intros _ x ?%elem_of_nil]|].
  exists (hlist (pos + s) s cs). split; [done|]. intros [Hs Hss]%Forall_cons_1. cbn in Hs.
  intros x Hx. apply hlist_ge in Hx; [lia|done].
Qed.

(** ** Reading headers *)

Lemma t_left pre ps pu : lastsz C0 (pre ++ [(ps, pu)]) = ps /\ C0 + total (pre ++ [(ps, pu)]) = C0 + total pre + ps.
Proof using. rewrite lastsz_snoc, total_app. cbn. lia. Qed.

Section Read.
Context (m : gmap Z Z) (pre post : list (Z * bool)) (s : Z) (u : bool).
Hypothesis Ht : tiled m (pre ++ (s, u) :: post).

Lemma t_head : wd m (slot (C0 + total pre) 0) = Some (lastsz C0 pre) /\ wd m (slot (C0 + total pre) 1) = Some (2 * s + Z.b2z u).
Proof using Ht.
  pose proof (t_hdr _ _ Ht) as Hh. rewrite hlist_app in Hh. apply Forall_app in Hh as [_ Hh]. cbn in Hh.
  by apply Forall_cons_1 in Hh as [Hh _].
Qed.

Lemma t_right : wd m (slot (C0 + total pre + s) 0) = Some s /\
  wd m (slot (C0 + total pre + s) 1) = Some (2 * (next post).1 + Z.b2z (next post).2).
Proof using Ht.
  pose proof (t_hdr _ _ Ht) as Hh. rewrite hlist_app in Hh. apply Forall_app in Hh as [_ Hh]. cbn [hlist] in Hh.
  apply Forall_cons_1 in Hh as [_ Hh]. destruct (hlist_form (C0 + total pre + s) post) as (tl & E' & _).
  rewrite E' in Hh. by apply Forall_cons_1 in Hh as [Hh _].
Qed.

Lemma t_bounds : 1 <= s /\ 0 <= total pre /\ C0 + total pre + s <= E.
Proof using Ht.
  pose proof (t_size _ _ Ht) as Hs. apply sized_app in Hs as [H1 [H2 H3]%Forall_cons_1]. cbn in H2.
  pose proof (sized_total _ H1). pose proof (sized_total _ H3). pose proof (t_total _ _ Ht) as Hc.
  rewrite total_app in Hc. cbn in Hc. fold (total post) in Hc. lia.
Qed.
End Read.

(** ** Free lists *)

Definition link (m : gmap Z Z) (a b : Z) : Prop := wd m (slot a 3) = Some b /\ wd m (slot b 2) = Some a.
Fixpoint linked (m : gmap Z Z) (a : Z) (l : list Z) : Prop :=
  match l with [] => True | b :: l => link m a b /\ linked m b l end.
Definition ring (m : gmap Z Z) (l : list Z) : Prop := match l with [] => True | x :: l => linked m x (l ++ [x]) end.

Lemma linked_mid m a l b r : linked m a (l ++ b :: r) <-> linked m a (l ++ [b]) /\ linked m b r.
Proof using.
  revert a. induction l as [|x l IH]; intros a; cbn; [tauto|]. rewrite IH. tauto.
Qed.

Lemma last_cons (x y : Z) l : List.last (x :: l) y = List.last l x.
Proof using. revert x y. induction l as [|z l IH]; intros x y; [done|]. change (List.last (z :: l) y = List.last (z :: l) x). by rewrite !IH. Qed.

Lemma last_in (x : Z) l : List.last l x ∈ x :: l.
Proof using.
  revert x. induction l as [|y l IH]; intros x; [by left|]. rewrite last_cons. by right.
Qed.

Lemma linked_snoc m a l b : linked m a (l ++ [b]) <-> linked m a l /\ link m (List.last l a) b.
Proof using.
  revert a. induction l as [|x l IH]; intros a; cbn [linked app]; [cbn; tauto|]. rewrite IH.
  rewrite last_cons. tauto.
Qed.

Lemma ring_rotate m a b : ring m (a ++ b) -> ring m (b ++ a).
Proof using.
  destruct a as [|x a], b as [|y b]; cbn; rewrite ?app_nil_r; try done.
  rewrite <- !app_assoc. cbn. rewrite (linked_mid m x a y), (linked_mid m y b x (a ++ [y])). tauto.
Qed.

(** Writes to other words keep the links. *)
Lemma link_frame m m' w a b :
  puts m m' w -> link m a b -> written w (slot a 3) = None -> written w (slot b 2) = None -> link m' a b.
Proof using. intros Hp [H1 H2] W1 W2. split; rewrite (puts_wd _ _ _ Hp); by rewrite ?W1, ?W2. Qed.

Lemma linked_frame m m' w a l :
  puts m m' w -> NoDup (a :: l) -> linked m a l ->
  (forall x, x ∈ a :: l -> x <> List.last l a -> written w (slot x 3) = None) ->
  (forall x, x ∈ l -> written w (slot x 2) = None) -> linked m' a l.
Proof using.
  intros Hp. revert a. induction l as [|b l IH]; intros a Hn Hl H3 H2; [done|]. cbn in Hl |- *.
  apply NoDup_cons in Hn as [Ha Hn]. destruct Hl as [Hl1 Hl2]. rewrite last_cons in H3. split.
  - apply (link_frame _ _ _ _ _ Hp Hl1); [|apply H2; by left].
    apply H3; [by left|]. intros ->. apply Ha. apply last_in.
  - apply IH; [done|done| |]; intros x Hx; [intros Hne; apply H3; [by right|done]|apply H2; by right].
Qed.

Lemma ring_ext m m' l :
  ring m l -> (forall x, x ∈ l -> wd m' (slot x 2) = wd m (slot x 2) /\ wd m' (slot x 3) = wd m (slot x 3)) -> ring m' l.
Proof using.
  intros Hr Hw. destruct l as [|a l]; [done|]. cbn in *.
  assert (G : forall r b, b ∈ a :: l -> linked m b r -> (forall x, x ∈ r -> x ∈ a :: l) -> linked m' b r).
  { clear Hr. induction r as [|y r IH]; intros b Hb Hr Hx; [done|]. cbn in *. destruct Hr as [[H1 H2] H3].
    assert (Hy : y ∈ a :: l) by (apply Hx; by left). split.
    - split; [by rewrite (proj2 (Hw b Hb))|by rewrite (proj1 (Hw y Hy))].
    - apply IH; [done|done|]. intros x Hxr. apply Hx. by right. }
  apply (G _ _ ltac:(left) Hr). intros x. rewrite elem_of_app, !elem_of_cons, elem_of_nil. tauto.
Qed.

Lemma ring_frame m m' w l :
  puts m m' w -> ring m l -> (forall x, x ∈ l -> written w (slot x 2) = None /\ written w (slot x 3) = None) -> ring m' l.
Proof using.
  intros Hp Hr Hw. apply (ring_ext _ _ _ Hr). intros x Hx. destruct (Hw x Hx) as [W1 W2]. by rewrite !(puts_wd _ _ _ Hp), W1, W2.
Qed.

(** The list of a size, and the number of lists. *)
Definition bidx (s : Z) : nat := Z.to_nat (Z.log2 (s - mn + 1)).
Definition nb : nat := S (bidx E).

(** [F] holds the chunks in the lists, with their sizes. *)
Record lists (h : z_heap) (F : gmap Z Z) (fl : list (list Z)) : Prop := mkLists {
  ls_len : length (buckets h) = nb /\ length fl = nb;
  ls_bkt : forall i l, fl !! i = Some l -> buckets h !! i = Some (hd 0 l);
  ls_bit : forall i l, fl !! i = Some l -> Z.testbit (avail_buckets h) (Z.of_nat i) = negb (bool_decide (l = []));
  ls_ring : forall i l, fl !! i = Some l -> NoDup l /\ ring (hp_mem h) l;
  ls_elem : forall i l c, fl !! i = Some l -> c ∈ l <-> exists s, F !! c = Some s /\ bidx s = i;
  ls_bits : forall i, (nb <= i)%nat -> Z.testbit (avail_buckets h) (Z.of_nat i) = false;
  ls_avail : 0 <= avail_buckets h
}.

Record spaced (F : gmap Z Z) : Prop := mkSpaced {
  sp_in : forall c s, F !! c = Some s -> C0 <= c /\ mn <= s /\ c + s <= E;
  sp_apart : forall c s c' s', F !! c = Some s -> F !! c' = Some s' -> c = c' \/ c + s <= c' \/ c' + s' <= c
}.

Lemma mn_pos : 1 <= mn /\ 2 <= mn * uw /\ 4 <= mn * uw.
Proof using. clear. unfold mn, uw. destruct big; lia. Qed.

Lemma slot_eq c i c' i' : 0 <= i < 2 -> 0 <= i' < 2 -> slot c i = slot c' i' -> c = c' /\ i = i'.
Proof using. unfold slot, uw. destruct big; lia. Qed.

Lemma link_eq F c s i c' s' i' :
  spaced F -> F !! c = Some s -> F !! c' = Some s' -> 2 <= i < 4 -> 2 <= i' < 4 -> slot c i = slot c' i' -> c = c' /\ i = i'.
Proof using.
  clear HS. intros HF Hc Hc' Hi Hi'. destruct (sp_apart _ HF _ _ _ _ Hc Hc') as [->|Ha]; [unfold slot; lia|].
  apply (sp_in _ HF) in Hc. apply (sp_in _ HF) in Hc'. clear HF. unfold slot, uw, mn in *. destruct big; lia.
Qed.

(** One of the lists is replaced. *)
Lemma lists_update h F fl h' F' i l' w :
  lists h F fl -> (i < nb)%nat -> puts (hp_mem h) (hp_mem h') w ->
  buckets h' = <[i := hd 0 l']> (buckets h) ->
  (forall j, Z.testbit (avail_buckets h') (Z.of_nat j) =
             if decide (j = i) then negb (bool_decide (l' = [])) else Z.testbit (avail_buckets h) (Z.of_nat j)) ->
  0 <= avail_buckets h' -> NoDup l' -> ring (hp_mem h') l' ->
  (forall c, c ∈ l' <-> exists s, F' !! c = Some s /\ bidx s = i) ->
  (forall c s, bidx s <> i -> F' !! c = Some s <-> F !! c = Some s) ->
  (forall c s t, F !! c = Some s -> bidx s <> i -> 2 <= t < 4 -> written w (slot c t) = None) ->
  lists h' F' (<[i := l']> fl).
Proof using.
  intros Hl Hi Hp Eb Ea Ha Hn Hr Hel Hoth Hw. destruct (ls_len _ _ _ Hl) as [L1 L2].
  assert (Hj : forall j l, <[i := l']> fl !! j = Some l -> j = i /\ l = l' \/ j <> i /\ fl !! j = Some l).
  { intros j l Hjl. apply list_lookup_insert_Some in Hjl. naive_solver. }
  split.
  - by rewrite Eb, !length_insert.
  - intros j l [[-> ->]|[Hne E1]]%Hj; rewrite Eb; [apply list_lookup_insert_eq; lia|].
    rewrite list_lookup_insert_ne by done. by apply (ls_bkt _ _ _ Hl).
  - intros j l [[-> ->]|[Hne E1]]%Hj; rewrite Ea; [by rewrite decide_True|].
    rewrite decide_False by done. by apply (ls_bit _ _ _ Hl).
  - intros j l [[-> ->]|[Hne E1]]%Hj; [done|]. destruct (ls_ring _ _ _ Hl j l E1) as [N R]. split; [done|].
    apply (ring_frame _ _ _ _ Hp R). intros x Hx. apply (ls_elem _ _ _ Hl _ _ _ E1) in Hx as (s & Hs & Hb).
    split; apply (Hw x s); try done; try lia; congruence.
  - intros j l c [[-> ->]|[Hne E1]]%Hj; [apply Hel|]. rewrite (ls_elem _ _ _ Hl _ _ _ E1).
    split; intros (s & Hs & Hb); exists s; (split; [|done]); apply Hoth; congruence.
  - intros j Hjn. rewrite Ea. rewrite decide_False by lia. by apply (ls_bits _ _ _ Hl).
  - done.
Qed.

(** All the words that are written are links of chunks in the lists. *)
Definition touch (F : gmap Z Z) (w : list (Z * Z)) : Prop :=
  Forall (fun x => exists c s t, F !! c = Some s /\ 2 <= t < 4 /\ fst x = slot c t) w.

Lemma written_None w j : Forall (fun x => fst x <> j) w -> written w j = None.
Proof using. induction 1 as [|[i v] w Hne _ IH]; cbn; [done|]. by rewrite decide_False. Qed.

Lemma set_bucket_next_spec h i c :
  (i < length (buckets h))%nat -> set_bucket_next h (Z.of_nat i) c = Some (with_buckets (<[i := c]> (buckets h)) h).
Proof using.
  intros Hi. unfold set_bucket_next, bucket_next. rewrite Nat2Z.id. by destruct (lookup_lt_is_Some_2 _ _ Hi) as [v ->].
Qed.

Lemma bidx_lt s : mn <= s <= E -> (bidx s < nb)%nat.
Proof using.
  clear HS. intros Hs. unfold nb, bidx. assert (Z.log2 (s - mn + 1) <= Z.log2 (E - mn + 1)) by (apply Z.log2_le_mono; lia).
  pose proof (Z.log2_nonneg (s - mn + 1)). lia.
Qed.

Lemma bucket_of h F fl c s :
  lists h F fl -> spaced F -> F !! c = Some s ->
  (bidx s < nb)%nat /\ exists l', NoDup (c :: l') /\ ring (hp_mem h) (c :: l') /\
    (forall d, d ∈ c :: l' <-> exists k, F !! d = Some k /\ bidx k = bidx s).
Proof using HS.
  intros Hl HF Hc. destruct (sp_in _ HF _ _ Hc) as (H1 & H2 & H3). destruct HS as [HC _ _ _].
  assert (Hi : (bidx s < nb)%nat) by (apply bidx_lt; lia). split; [done|]. clear HS.
  destruct (lookup_lt_is_Some_2 fl (bidx s)) as [l El]; [by rewrite (proj2 (ls_len _ _ _ Hl))|].
  assert (Hin : c ∈ l) by (apply (ls_elem _ _ _ Hl _ _ _ El); by exists s).
  apply list_elem_of_split in Hin as (l1 & l2 & ->). destruct (ls_ring _ _ _ Hl _ _ El) as [Hn Hr].
  exists (l2 ++ l1). split_and!.
  - by rewrite app_comm_cons, Permutation_app_comm.
  - rewrite app_comm_cons. by apply ring_rotate.
  - intros d. rewrite <- (ls_elem _ _ _ Hl _ _ _ El). by rewrite app_comm_cons, (Permutation_app_comm (c :: l2) l1).
Qed.

(** Words of links that are not among the written ones. *)
Lemma link_unwritten F w d k t :
  spaced F -> F !! d = Some k -> 2 <= t < 4 ->
  Forall (fun x => exists c s i, F !! c = Some s /\ 2 <= i < 4 /\ fst x = slot c i /\ (d = c -> t <> i)) w -> written w (slot d t) = None.
Proof using.
  intros HF Hd Ht Hw. apply written_None. eapply Forall_impl; [exact Hw|]. cbn. intros x (c & s & i & Hc & Hi & -> & Hne) Eq.
  destruct (link_eq F c s i d k t HF Hc Hd Hi Ht Eq) as [-> ->]. by apply Hne.
Qed.

(** The first chunk [c] is taken out of a ring. *)
Lemma ring_cut F m m' c n tl :
  spaced F -> (forall d, d ∈ n :: tl -> is_Some (F !! d)) -> NoDup (n :: tl) -> linked m n tl ->
  let p := List.last tl n in puts m m' [(slot n 2, p); (slot p 3, n)] -> c ∉ n :: tl -> ring m' (n :: tl).
Proof using.
  intros HF Hin Hn Hr p Hp _. destruct (Hin n) as [kn Hkn]; [by left|]. destruct (Hin p) as [kp Hkp]; [apply last_in|].
  cbn. apply linked_snoc. fold p. split.
  - apply (linked_frame _ _ _ _ _ Hp); [done|done| |]; intros x Hx.
    + intros Hxp. destruct (Hin x Hx) as [k Hk]. apply (link_unwritten F _ x k 3 HF Hk); [lia|]. fold p in Hxp.
      repeat (apply Forall_cons; split); [exists n, kn, 2|exists p, kp, 3|constructor]; (split; [done|]; split; [lia|]; split; [done|]); [lia|done].
    + destruct (Hin x) as [k Hk]; [by right|]. apply NoDup_cons in Hn as [Hn _]. assert (x <> n) by congruence.
      apply (link_unwritten F _ x k 2 HF Hk); [lia|].
      repeat (apply Forall_cons; split); [exists n, kn, 2|exists p, kp, 3|constructor]; (split; [done|]; split; [lia|]; split; [done|]); [done|lia].
  - split; rewrite (puts_wd _ _ _ Hp); cbn; [|by rewrite decide_True].
    rewrite decide_False by (intros Eq; eapply link_eq in Eq as [? ?]; eauto; lia). by rewrite decide_True.
Qed.

(** A chunk [c] is put into a ring before the first one. *)
Lemma ring_append F m m' x tl c s :
  spaced F -> F !! c = Some s -> (forall d, d ∈ x :: tl -> is_Some (F !! d)) -> NoDup (x :: tl) -> c ∉ x :: tl -> linked m x tl ->
  let p := List.last tl x in puts m m' [(slot x 2, c); (slot p 3, c); (slot c 3, x); (slot c 2, p)] -> ring m' ((x :: tl) ++ [c]).
Proof using.
  intros HF Hc Hin Hn Hcn Hr p Hp. destruct (Hin x) as [kx Hkx]; [by left|]. destruct (Hin p) as [kp Hkp]; [apply last_in|].
  assert (Hpc : p <> c) by (intros <-; apply Hcn, last_in). assert (Hxc : x <> c) by (intros <-; apply Hcn; by left).
  assert (Hne : forall d k d' k' t t', F !! d = Some k -> F !! d' = Some k' -> 2 <= t < 4 -> 2 <= t' < 4 -> d <> d' \/ t <> t' -> slot d t <> slot d' t').
  { intros d k d' k' t t' Hd Hd' Ht Ht' Hor Eq. eapply link_eq in Eq as [-> ?]; eauto. lia. }
  assert (Hw : forall d t, d ∈ x :: tl -> 2 <= t < 4 -> (d = x -> t <> 2) -> (d = p -> t <> 3) ->
                 written [(slot x 2, c); (slot p 3, c); (slot c 3, x); (slot c 2, p)] (slot d t) = None).
  { intros d t Hd Ht W1 W2. assert (d <> c) by (intros ->; done). destruct (Hin d Hd) as [k Hk]. apply (link_unwritten F _ d k t HF Hk Ht).
    constructor; [|constructor; [|constructor; [|constructor; [|constructor]]]]; cbn; [exists x, kx, 2|exists p, kp, 3|exists c, s, 3|exists c, s, 2];
      (split; [done|]; split; [lia|]; split; [done|]); done. }
  cbn. rewrite <- app_assoc. cbn. apply linked_mid. split; [apply linked_snoc; split|].
  - apply (linked_frame _ _ _ _ _ Hp); [done|done| |]; intros d Hd; [intros Hdp; apply Hw; done || lia|].
    apply Hw; [by right|lia| |lia]. intros ->. by apply NoDup_cons in Hn as [? _].
  - fold p. split; rewrite (puts_wd _ _ _ Hp); cbn.
    + rewrite decide_False by (eapply Hne; eauto; lia). by rewrite decide_True.
    + do 3 rewrite decide_False by (eapply Hne; eauto; lia). by rewrite decide_True.
  - split; [|done]. split; rewrite (puts_wd _ _ _ Hp); cbn; [|by rewrite decide_True].
    do 2 rewrite decide_False by (eapply Hne; eauto; lia). by rewrite decide_True.
Qed.

Lemma remove_elems (F : gmap Z Z) c s l' i :
  F !! c = Some s -> bidx s = i -> c ∉ l' -> (forall d, d ∈ c :: l' <-> exists k, F !! d = Some k /\ bidx k = i) ->
  (forall d, d ∈ l' <-> exists k, delete c F !! d = Some k /\ bidx k = i) /\
  (forall d k, bidx k <> i -> delete c F !! d = Some k <-> F !! d = Some k).
Proof using.
  intros Hc Hs Hn Hel. split.
  - intros d. specialize (Hel d). rewrite elem_of_cons in Hel. split.
    + intros Hd. assert (d <> c) by (by intros ->). setoid_rewrite lookup_delete_ne; [|done]. apply Hel. by right.
    + intros (k & Hk & Hb). apply lookup_delete_Some in Hk as [Hne Hk]. destruct (proj2 Hel) as [->|?]; [by exists k|done|done].
  - intros d k Hk. rewrite lookup_delete_Some. split; [tauto|]. intros Hd. split; [|done]. intros ->. congruence.
Qed.

Lemma remove_bidx_spec h F fl c s :
  isheap h -> lists h F fl -> spaced F -> F !! c = Some s ->
  exists h' fl' w, free_list_remove_bidx h c (Z.of_nat (bidx s)) = Some h' /\ isheap h' /\
    lists h' (delete c F) fl' /\ puts (hp_mem h) (hp_mem h') w /\ touch F w.
Proof using HS.
  intros Hh Hl HF Hc. destruct (bucket_of _ _ _ _ _ Hl HF Hc) as (Hi & l' & Hn & Hr & Hel).
  destruct (remove_elems F c s l' (bidx s)) as [E1 E2]; [done|done|apply NoDup_cons in Hn; tauto|done|].
  pose proof (ls_avail _ _ _ Hl) as Hav. destruct (ls_len _ _ _ Hl) as [Lb _].
  set (i := bidx s) in *. unfold free_list_remove_bidx, next_free_chunk, prev_free_chunk. rewrite !field_wd by done. cbn [field_index].
  destruct l' as [|n tl].
  - destruct Hr as [[Hr1 _] _]. rewrite Hr1. cbn [mbind option_bind]. rewrite Z.eqb_refl, set_bucket_next_spec by (cbn; lia).
    eexists _, (<[i := []]> fl), []. split_and!; [done|done| |apply puts_nil|by constructor].
    eapply (lists_update h F fl _ _ i [] []); try done; [| |by constructor]; cbn.
    + intros j. rewrite testbit_clrflag by lia. case_decide as Hj; [subst j; by rewrite Z.eqb_refl, andb_false_r|].
      rewrite (proj2 (Z.eqb_neq _ _)) by lia. by rewrite andb_true_r.
    + apply Z.land_nonneg. by left.
  - change (linked (hp_mem h) c (n :: tl ++ [c])) in Hr. destruct Hr as [[Hr1 Hr2] Hr]. apply linked_snoc in Hr as [Hr3 [Hr4 Hr5]].
    set (p := List.last tl n) in *. rewrite Hr1, Hr5. cbn [mbind option_bind].
    apply NoDup_cons in Hn as [Hcn Hn]. assert (n <> c) by (intros ->; apply Hcn; by left).
    rewrite (proj2 (Z.eqb_neq n c)), set_bucket_next_spec by (done || lia). cbn [mbind option_bind].
    destruct (proj1 (Hel n)) as (kn & Hkn & Hbn); [by right; left|].
    destruct (proj1 (Hel p)) as (kp & Hkp & Hbp); [right; apply last_in|].
    pose proof (sp_in _ HF _ _ Hkn). pose proof (sp_in _ HF _ _ Hkp). destruct HS as [HC HE _ _]. clear HS.
    assert (0 <= n < lim /\ 0 <= p < lim) as [Bn Bp] by (pose proof mn_pos; lia).
    set (h1 := with_buckets _ _). assert (Hh1 : isheap h1) by done.
    unfold set_next_free_chunk, set_prev_free_chunk.
    set_step Hh1 (puts_nil (hp_mem h)) m1 P1. set_step Hh1 P1 m2 P2.
    eexists _, (<[i := n :: tl]> fl), _. split_and!; [done|done| |exact P2|].
    + eapply (lists_update h F fl _ _ i (n :: tl)); try done.
      * intros j. cbn. case_decide as Hj; [|done]. subst j.
        destruct (lookup_lt_is_Some_2 fl i) as [l El]; [by rewrite (proj2 (ls_len _ _ _ Hl))|].
        rewrite (ls_bit _ _ _ Hl _ _ El). rewrite bool_decide_false; [done|]. intros ->.
        apply (not_elem_of_nil c), (ls_elem _ _ _ Hl _ _ c El). by exists s.
      * apply (ring_cut F (hp_mem h) _ c); try done. intros d Hd. destruct (proj1 (Hel d)) as (k & Hk & _); [by right|by exists k].
      * intros d k t Hd Hne Ht. apply (link_unwritten F _ d k t HF Hd Ht).
        constructor; [|constructor; [|constructor]]; cbn; [exists n, kn, 2|exists p, kp, 3]; (split; [done|]; split; [lia|]; split; [done|]); intros ->; congruence.
    + constructor; [|constructor; [|constructor]]; cbn; [exists n, kn, 2|exists p, kp, 3]; (split; [done|split; [lia|done]]).
Qed.

Lemma add_elems (F : gmap Z Z) c s l i :
  F !! c = None -> bidx s = i -> (forall d, d ∈ l <-> exists k, F !! d = Some k /\ bidx k = i) ->
  (forall d, d ∈ l ++ [c] <-> exists k, <[c := s]> F !! d = Some k /\ bidx k = i) /\
  (forall d k, bidx k <> i -> <[c := s]> F !! d = Some k <-> F !! d = Some k).
Proof using.
  clear HS. intros Hc Hs Hel. split.
  - intros d. rewrite elem_of_app, list_elem_of_singleton, Hel. destruct (decide (d = c)) as [->|Hne].
    + rewrite lookup_insert_eq. split; [by intros _; exists s|by right].
    + rewrite lookup_insert_ne by done. tauto.
  - intros d k Hk. rewrite lookup_insert_Some. split; [|intros Hd; right; split; [congruence|done]].
    intros [[<- <-]|[_ ?]]; [congruence|done].
Qed.

Lemma bucket_next_lookup h F fl i l : lists h F fl -> fl !! i = Some l -> bucket_next h (Z.of_nat i) = Some (hd 0 l).
Proof using. intros Hl El. unfold bucket_next. rewrite Nat2Z.id. by apply (ls_bkt _ _ _ Hl). Qed.

Section Add.
Context (h : z_heap) (F : gmap Z Z) (fl : list (list Z)) (c s : Z).
Hypotheses (Hh : isheap h) (Hl : lists h F fl) (HF : spaced (<[c := s]> F)) (Hc : F !! c = None)
  (M2 : is_Some (wd (hp_mem h) (slot c 2))) (M3 : is_Some (wd (hp_mem h) (slot c 3))).

Definition added (h' : z_heap) : Prop :=
  isheap h' /\ exists fl' w, lists h' (<[c := s]> F) fl' /\ puts (hp_mem h) (hp_mem h') w /\ touch (<[c := s]> F) w.

Lemma c_bounds : C0 <= c /\ mn <= s /\ c + s <= E /\ 0 <= c < lim /\ (bidx s < nb)%nat.
Proof using HS HF.
  pose proof (sp_in _ HF c s (lookup_insert_eq F c s)) as Hin. destruct HS as [HC HE _ _]. pose proof mn_pos.
  split_and!; try lia. apply bidx_lt. lia.
Qed.

Lemma add_first : fl !! bidx s = Some [] -> exists h', free_list_add_bidx h c (Z.of_nat (bidx s)) = Some h' /\ added h'.
Proof using HS Hh Hl HF Hc M2 M3.
  intros El. destruct c_bounds as (B1 & B2 & B3 & Bc & Hi). destruct (ls_len _ _ _ Hl) as [Lb Lf]. pose proof (ls_avail _ _ _ Hl) as Hav.
  destruct (add_elems F c s [] (bidx s)) as [E1 E2]; [done|done|intros d; by apply (ls_elem _ _ _ Hl)|]. set (i := bidx s) in *.
  unfold free_list_add_bidx. rewrite (bucket_next_lookup _ _ _ _ _ Hl El). cbn [mbind option_bind hd].
  unfold set_prev_free_chunk, set_next_free_chunk. rewrite Z.eqb_refl, set_bucket_next_spec by (cbn; lia). cbn [mbind option_bind].
  set (h1 := with_buckets _ _). assert (Hh1 : isheap h1) by done.
  set_step Hh1 (puts_nil (hp_mem h)) m1 P1. set_step Hh1 P1 m2 P2. assert (Hcs := lookup_insert_eq F c s).
  eexists. split; [done|]. split; [done|]. exists (<[i := [c]]> fl), [(slot c 3, c); (slot c 2, c)]. split; [|split; [exact P2|]].
  - eapply (lists_update h F fl _ _ i [c]); try done.
    + intros j. cbn. rewrite testbit_setflag by lia. case_decide as Hj; [subst j; by rewrite Z.eqb_refl, orb_true_r|].
      rewrite (proj2 (Z.eqb_neq _ _)) by lia. by rewrite orb_false_r.
    + cbn. apply Z.lor_nonneg. split; [done|]. unfold BIT. apply Z.shiftl_nonneg. lia.
    + apply NoDup_singleton.
    + cbn. split; [|done]. split; rewrite (puts_wd _ _ _ P2); cbn; [by rewrite decide_True|].
      rewrite decide_False by (unfold slot; lia). by rewrite decide_True.
    + intros d k t Hd Hne Ht. assert (d <> c) by congruence. apply (link_unwritten (<[c := s]> F) _ d k t HF); [by rewrite lookup_insert_ne by congruence|done|].
      constructor; [|constructor; [|constructor]]; cbn; [exists c, s, 3|exists c, s, 2]; (split; [done|]; split; [lia|]; split; done).
  - constructor; [|constructor; [|constructor]]; cbn; [exists c, s, 3|exists c, s, 2]; (split; [done|split; [lia|done]]).
Qed.

Lemma add_more x tl : fl !! bidx s = Some (x :: tl) -> exists h', free_list_add_bidx h c (Z.of_nat (bidx s)) = Some h' /\ added h'.
Proof using HS Hh Hl HF Hc M2 M3.
  intros El. destruct c_bounds as (B1 & B2 & B3 & Bc & Hi). destruct (ls_ring _ _ _ Hl _ _ El) as [Hn Hr]. pose proof (ls_avail _ _ _ Hl) as Hav.
  pose proof (fun d => ls_elem _ _ _ Hl _ _ d El) as Hel. destruct (add_elems F c s (x :: tl) (bidx s)) as [E1 E2]; [done|done|done|].
  pose proof (ls_bit _ _ _ Hl _ _ El) as Hbit. set (i := bidx s) in *. assert (Hcs := lookup_insert_eq F c s).
  assert (Hsub : forall d k, F !! d = Some k -> <[c := s]> F !! d = Some k) by (intros d k Hd; rewrite lookup_insert_ne by congruence; done).
  assert (Hin : forall d, d ∈ x :: tl -> exists k, <[c := s]> F !! d = Some k /\ bidx k = i /\ d <> c).
  { intros d (k & Hk & Hb)%Hel. exists k. split_and!; [by apply Hsub|done|congruence]. }
  unfold free_list_add_bidx. rewrite (bucket_next_lookup _ _ _ _ _ Hl El). cbn [mbind option_bind hd].
  unfold set_prev_free_chunk, set_next_free_chunk, prev_free_chunk. apply linked_snoc in Hr as [Hr1 [Hr2 Hr3]]. set (p := List.last tl x) in *.
  destruct (Hin x) as (kx & Hkx & Hbx & Hxc); [by left|]. destruct (Hin p) as (kp & Hkp & Hbp & Hpc); [apply last_in|].
  pose proof (sp_in _ HF _ _ Hkx). pose proof (sp_in _ HF _ _ Hkp). destruct HS as [HC HE _ _].
  rewrite (proj2 (Z.eqb_neq x 0)), field_wd by (done || lia). cbn [field_index]. rewrite Hr3. cbn [mbind option_bind].
  assert (0 <= x < lim /\ 0 <= p < lim) as [Bx Bp] by (pose proof mn_pos; lia).
  set_step Hh (puts_nil (hp_mem h)) m1 P1. set_step Hh P1 m2 P2. set_step Hh P2 m3 P3. set_step Hh P3 m4 P4. clear P1 P2 P3.
  eexists. split; [done|]. split; [done|]. eexists (<[i := (x :: tl) ++ [c]]> fl), _. split; [|split; [exact P4|]].
  - eapply (lists_update h F fl _ _ i ((x :: tl) ++ [c]) [(slot x 2, c); (slot p 3, c); (slot c 3, x); (slot c 2, p)] Hl Hi); [exact P4|..]; try done.
    + cbn. rewrite list_insert_id; [done|]. by apply (ls_bkt _ _ _ Hl i (x :: tl)).
    + intros j. cbn [with_mem avail_buckets]. case_decide as Hj; [|done]. subst j. by rewrite Hbit.
    + apply NoDup_app. split_and!; [done| |apply NoDup_singleton]. intros d Hd ->%list_elem_of_singleton. by apply Hin in Hd as (? & _ & _ & ?).
    + apply (ring_append (<[c := s]> F) (hp_mem h) _ x tl c s); try done.
      * intros d (k & Hk & _)%Hin. by exists k.
      * intros (? & _ & _ & ?)%Hin. done.
    + intros d k t Hd Hne' Ht. apply (link_unwritten (<[c := s]> F) _ d k t HF (Hsub _ _ Hd) Ht).
      constructor; [|constructor; [|constructor; [|constructor; [|constructor]]]]; cbn; [exists x, kx, 2|exists p, kp, 3|exists c, s, 3|exists c, s, 2];
        (split; [done|]; split; [lia|]; split; [done|]); intros ->; first [congruence|apply Hsub in Hd; congruence].
  - constructor; [|constructor; [|constructor; [|constructor; [|constructor]]]]; cbn; [exists x, kx, 2|exists p, kp, 3|exists c, s, 3|exists c, s, 2]; (split; [done|split; [lia|done]]).
Qed.

Lemma add_bidx_spec : exists h', free_list_add_bidx h c (Z.of_nat (bidx s)) = Some h' /\ added h'.
Proof using HS Hh Hl HF Hc M2 M3.
  destruct c_bounds as (_ & _ & _ & _ & Hi). destruct (lookup_lt_is_Some_2 fl (bidx s)) as [l El]; [by rewrite (proj2 (ls_len _ _ _ Hl))|].
  destruct l as [|x tl]; [by apply add_first|by eapply add_more].
Qed.
End Add.
End Heap.

(** The next write of the goal, after the writes [P]; the field is in the memory, and the
    value fits. *)
Ltac set_step Hh P m P' :=
  match goal with
  | |- context [chunk_set ?hh ?c ?f ?v] =>
      let S := fresh "S" in
      destruct (chunk_set_spec _ _ hh c f v _ _ Hh P) as (m & S & P');
        [try done; try by eexists|try done|rewrite S; cbn [mbind option_bind]; clear S; cbn [field_index] in P']
  end.

(** Which of the words that were written a word is. *)
Ltac slots := repeat match goal with
  | |- context [decide (slot ?E ?a ?i = slot ?E ?b ?j)] =>
      first [rewrite (decide_True (P := slot E a i = slot E b j)) by done
            |rewrite (decide_False (P := slot E a i = slot E b j)) by
               (let Eq := fresh in intros Eq; apply slot_eq in Eq; lia)]
  end.
