(* ===== verification/HeapOps.v ===== *)
(** * The chunk heap: splitting, merging, freeing and finding chunks

    What each routine of heap.c does to the tiling and to the chunks in the free lists. *)

From S2P Require Import Prelude KState KLogic MemOps SysHeap HeapModel.

Local Open Scope Z_scope.

Section Ops.
Context `{HeapConfig} (A E C0 : Z) (HS : shape A E C0).

Abbreviation wd := (wd A E).
Abbreviation slot := (slot E).
Abbreviation word := (word A E).
Abbreviation mn := (mn E).
Abbreviation hb := (hb E).
Abbreviation lim := (lim E).
Abbreviation puts := (puts A E).
Abbreviation hdr_ok := (hdr_ok A E).
Abbreviation tiled := (tiled A E C0).
Abbreviation lists := (lists A E).
Abbreviation bidx := (bidx E).
Abbreviation touch := (touch E).
Abbreviation isheap := (isheap A E).

(** ** Constants and fields *)

Lemma isheap_big h : isheap h -> big_heap h = big E.
Proof using. by intros [_ HE]; unfold big_heap; rewrite HE. Qed.

Lemma header_bytes h : isheap h -> chunk_header_bytes h = hb.
Proof using. intros Hh. unfold chunk_header_bytes. by rewrite isheap_big. Qed.

Lemma chunksz_exact b : 0 <= b -> b + 7 < 2 ^ 32 -> chunksz b = (b + 7) / 8.
Proof using. intros. unfold chunksz, CHUNK_UNIT. rewrite wrap_u_small by lia. f_equal. lia. Qed.

Lemma bytes_to_chunksz_exact h b : isheap h -> 0 <= b -> hb + b + 7 < 2 ^ 32 -> bytes_to_chunksz h b = (hb + b + 7) / 8.
Proof using.
  intros Hh Hb Hlt. assert (0 < hb) by (destruct (sizes E) as (_ & _ & _ & [(_ & _ & _ & ->)|(_ & _ & _ & ->)]); lia).
  unfold bytes_to_chunksz. rewrite header_bytes by done. rewrite wrap_u_small, chunksz_exact by lia. done.
Qed.

Lemma min_size h : isheap h -> min_chunk_size h = mn.
Proof using.
  intros Hh. unfold min_chunk_size. rewrite bytes_to_chunksz_exact; [|done|lia|];
    destruct (sizes E) as (_ & _ & _ & [(_ & _ & E1 & E2)|(_ & _ & E1 & E2)]); rewrite ?E1, ?E2; done.
Qed.

Lemma bucket_idx_exact h s : isheap h -> mn <= s -> s < 2 ^ 31 -> bucket_idx h s = Some (Z.of_nat (bidx s)).
Proof using.
  intros Hh Hs Hlt. unfold bucket_idx. rewrite min_size by done.
  assert (1 <= mn <= 2) by (destruct (sizes E) as (_ & _ & _ & [(_ & _ & -> & _)|(_ & _ & -> & _)]); lia).
  rewrite wrap_u_small by lia. rewrite (proj2 (Z.eqb_neq _ _)) by lia. f_equal. unfold HeapModel.bidx.
  rewrite Z2Nat.id; [done|]. apply Z.log2_nonneg.
Qed.

Lemma lim_32 : lim <= 2 ^ 32.
Proof using. unfold HeapModel.lim. destruct big; lia. Qed.

Lemma read_size v s (u : bool) : v = 2 * s + Z.b2z u -> Z.shiftr v 1 = s /\ negb (Z.land v 1 =? 0) = u.
Proof using.
  intros ->. rewrite Z.shiftr_div_pow2 by lia. change (2 ^ 1) with 2. split; [destruct u; cbn [Z.b2z]; Z.to_euclidean_division_equations; lia|].
  change 1 with (Z.ones 1) at 1. rewrite Z.land_ones by lia. change (2 ^ 1) with 2.
  replace ((2 * s + Z.b2z u) mod 2) with (Z.b2z u); [by destruct u|]. destruct u; cbn [Z.b2z]; Z.to_euclidean_division_equations; lia.
Qed.

Lemma read_hdr h c l s u :
  isheap h -> hdr_ok (hp_mem h) (c, l, s, u) ->
  chunk_size h c = Some s /\ chunk_used h c = Some u /\
  (0 <= c + s < 2 ^ 32 -> right_chunk h c = Some (c + s)) /\ (0 <= c - l < 2 ^ 32 -> left_chunk h c = Some (c - l)).
Proof using.
  intros Hh [Hl Hs]. unfold right_chunk, left_chunk, chunk_used, chunk_size. rewrite !field_wd with (A := A) (E := E) by done.
  cbn [field_index]. rewrite Hl, Hs. cbn [mbind option_bind]. destruct (read_size _ s u eq_refl) as [-> ->].
  split_and!; [done|done| |]; intros; by rewrite wrap_u_small.
Qed.

Lemma solo_exact h c l s u :
  isheap h -> hdr_ok (hp_mem h) (c, l, s, u) -> 1 <= s -> solo_free_header h c = Some (negb (mn <=? s)).
Proof using.
  intros Hh Hc Hs. unfold solo_free_header. rewrite isheap_big by done. apply read_hdr in Hc as (-> & _); [|done].
  destruct (sizes E) as (_ & _ & _ & [(-> & _ & -> & _)|(-> & _ & -> & _)]); cbn [mbind option_bind]; f_equal.
  - apply eq_true_iff_eq. rewrite negb_true_iff, Z.eqb_eq, Z.leb_gt. lia.
  - symmetry. apply negb_false_iff, Z.leb_le. lia.
Qed.

(** ** States

    The chunks [cs] tile the heap, and those in [F], all of them free, are in the lists. *)

Record st (h : z_heap) (cs : list (Z * bool)) (F : gmap Z Z) : Prop := mkSt {
  st_heap : isheap h;
  st_tiled : tiled (hp_mem h) cs;
  st_lists : exists fl, lists h F fl;
  st_free : forall c s, F !! c = Some s -> mn <= s /\ (c, s, false) ∈ places C0 cs
}.

(** The part of a chunk that belongs to its user does not change. *)
Definition kept (m m' : gmap Z Z) (c s : Z) : Prop :=
  forall q, A + 8 * c + hb <= q < A + 8 * (c + s) -> m' !! q = m !! q.
Definition keeps (m m' : gmap Z Z) (cs : list (Z * bool)) (F : gmap Z Z) : Prop :=
  forall c s u, (c, s, u) ∈ places C0 cs -> F !! c = None -> kept m m' c s.

(** Places of headers, with the one of the end marker. *)
Definition bnd (cs : list (Z * bool)) (p : Z) : Prop := exists x, x ∈ hlist C0 C0 cs /\ x.1.1.1 = p.

Lemma hlist_apart pos left cs x c s u :
  sized cs -> x ∈ hlist pos left cs -> (c, s, u) ∈ places pos cs -> x.1.1.1 <= c \/ c + s <= x.1.1.1.
Proof using.
  intros Hs. revert pos left. induction Hs as [|[s' u'] cs Hs' Hs IH]; intros pos left; cbn [hlist places]; [by intros _ ?%elem_of_nil|].
  cbn in Hs'. rewrite !elem_of_cons. intros [->|Hx] [[= -> -> ->]|Hc].
  - cbn. lia.
  - apply places_bound in Hc; [cbn; lia|done].
  - right. by apply hlist_ge in Hx.
  - by eapply IH.
Qed.

Lemma bnd_clear cs p c s u : sized cs -> bnd cs p -> (c, s, u) ∈ places C0 cs -> p <= c \/ c + s <= p.
Proof using. intros Hs (x & Hx & <-). by eapply hlist_apart. Qed.

Lemma bnd_mid pre s u post :
  bnd (pre ++ (s, u) :: post) (C0 + total pre) /\ bnd (pre ++ (s, u) :: post) (C0 + total pre + s).
Proof using.
  unfold bnd. rewrite hlist_app. cbn [hlist]. destruct (hlist_form (C0 + total pre + s) post) as (tl & Ef & _).
  rewrite Ef. split; eexists; (split; [apply elem_of_app; right|]).
  - by left.
  - done.
  - right. by left.
  - done.
Qed.

Lemma st_spaced h cs F : st h cs F -> spaced E C0 F.
Proof using.
  intros Hst. pose proof (t_size _ _ _ _ _ (st_tiled _ _ _ Hst)) as Hs. pose proof (t_total _ _ _ _ _ (st_tiled _ _ _ Hst)) as Ht.
  split.
  - intros c s Hc. apply (st_free _ _ _ Hst) in Hc as [Hm Hc]. apply places_bound in Hc; [|done]. lia.
  - intros c s c' s' Hc Hc'. apply (st_free _ _ _ Hst) in Hc as [_ Hc]. apply (st_free _ _ _ Hst) in Hc' as [_ Hc'].
    pose proof (places_apart _ _ _ _ _ _ _ _ Hs Hc Hc'). tauto.
Qed.

(** Words and the part of a chunk that belongs to its user. *)
Lemma header_word p t q c s : 0 <= t < 2 -> word (slot p t) q -> p <= c \/ c + s <= p -> ~ A + 8 * c + hb <= q < A + 8 * (c + s).
Proof using.
  unfold HeapModel.word, within, HeapModel.slot, HeapModel.hb, HeapModel.uw, fb. destruct big; lia.
Qed.

Lemma link_word c t q c' s' s : 2 <= t < 4 -> word (slot c t) q -> mn <= s -> c + s <= c' \/ c' + s' <= c ->
  ~ A + 8 * c' + hb <= q < A + 8 * (c' + s').
Proof using.
  unfold HeapModel.word, within, HeapModel.slot, HeapModel.hb, HeapModel.mn, HeapModel.uw, fb. destruct big; lia.
Qed.

Lemma link_header c s t p t' : 0 <= t < 4 -> 0 <= t' < 2 -> mn <= s -> p < c \/ c + s <= p -> slot c t <> slot p t'.
Proof using. unfold HeapModel.slot, HeapModel.mn, HeapModel.uw. destruct big; lia. Qed.

Lemma keeps_trans m1 m2 m3 cs F : keeps m1 m2 cs F -> keeps m2 m3 cs F -> keeps m1 m3 cs F.
Proof using. intros K1 K2 c s u Hc HF q Hq. rewrite (K2 c s u); [|done|done|done]. by apply (K1 c s u). Qed.

Lemma keeps_refl m cs F : keeps m m cs F.
Proof using. by intros c s u _ _ q _. Qed.

(** Writing links keeps the tiling. *)
Lemma touch_tiled m m' w cs F :
  tiled m cs -> puts m m' w -> touch F w -> (forall c s, F !! c = Some s -> mn <= s /\ (c, s, false) ∈ places C0 cs) -> tiled m' cs.
Proof using HS.
  intros Ht Hp Hw HF. destruct HS as [HC _ _ _]. clear HS.
  assert (G : forall p t, 0 <= t < 2 -> p = 0 \/ bnd cs p -> wd m' (slot p t) = wd m (slot p t)).
  { intros p t Hi Hb. rewrite (puts_wd _ _ _ _ _ Hp), written_None; [done|]. eapply Forall_impl; [exact Hw|]. cbn.
    intros x (c & s & i & Hc & Hx & ->). apply HF in Hc as [Hm Hc].
    pose proof (places_bound _ _ _ _ _ (t_size _ _ _ _ _ Ht) Hc). destruct Hb as [->|Hb].
    - apply (link_header c s); [lia|lia|done|lia].
    - destruct (bnd_clear _ _ _ _ _ (t_size _ _ _ _ _ Ht) Hb Hc); unfold HeapModel.slot, HeapModel.mn, HeapModel.uw in *; destruct big; lia. }
  destruct Ht as [T1 T2 T3 T4 T5]. split; [| |done|done|].
  - cbn in *. rewrite !G; tauto || lia.
  - apply Forall_forall. intros [[[c l] s] u] Hx. rewrite Forall_forall in T2. specialize (T2 _ Hx). cbn in *.
    rewrite !G; try done; right; by eexists.
  - intros q Hq. apply (puts_dom _ _ _ _ _ Hp). by apply T5.
Qed.

Lemma touch_keeps m m' w cs F :
  sized cs -> puts m m' w -> touch F w -> (forall c s, F !! c = Some s -> mn <= s /\ (c, s, false) ∈ places C0 cs) -> keeps m m' cs F.
Proof using.
  intros Hs Hp Hw HF c s u Hc Hn q Hq. apply (puts_out _ _ _ _ _ Hp). eapply Forall_impl; [exact Hw|]. cbn.
  intros x (c' & s' & i & Hc' & Hi & ->) Hx. pose proof (HF _ _ Hc') as [Hm Hin].
  eapply link_word in Hx; [by apply Hx|done|exact Hm|]. destruct (places_apart _ _ _ _ _ _ _ _ Hs Hin Hc) as [(-> & _)|?]; [congruence|tauto].
Qed.

Lemma tiled_hdr m cs c s u :
  tiled m cs -> (c, s, u) ∈ places C0 cs -> exists l, hdr_ok m (c, l, s, u) /\ C0 <= c /\ 1 <= s /\ c + s <= E.
Proof using.
  intros Ht Hin. pose proof (places_bound _ _ _ _ _ (t_size _ _ _ _ _ Ht) Hin). pose proof (t_total _ _ _ _ _ Ht).
  apply places_split in Hin as (pre & post & -> & ->). exists (lastsz C0 pre). split; [|lia]. by apply (t_head A E C0 m pre post s u).
Qed.

Lemma tiled_mapped m cs c t : tiled m cs -> C0 <= c -> 0 <= t -> slot c t < slot E 2 -> is_Some (wd m (slot c t)).
Proof using.
  intros Ht Hc Ht0 Hlt. apply load_mapped. intros q Hq. apply (t_map _ _ _ _ _ Ht).
  unfold within, HeapModel.slot, HeapModel.hb, HeapModel.uw, fb in *. destruct big; lia.
Qed.

Lemma free_list_remove_spec h cs F c s :
  st h cs F -> (c, s, false) ∈ places C0 cs -> (mn <= s -> F !! c = Some s) ->
  exists h', free_list_remove h c = Some h' /\ st h' cs (delete c F) /\ keeps (hp_mem h) (hp_mem h') cs F.
Proof using HS.
  intros Hst Hin HF. pose proof (st_spaced _ _ _ Hst) as HFs. destruct Hst as [Hh Ht [fl Hl] Hfree].
  destruct (tiled_hdr _ _ _ _ _ Ht Hin) as (l & Hc & HcC & Hs1 & HcE). pose proof (t_size _ _ _ _ _ Ht) as Hsz.
  unfold free_list_remove. rewrite (solo_exact _ _ _ _ _ Hh Hc Hs1). cbn [mbind option_bind]. rewrite negb_involutive.
  pose proof (shape_E _ _ _ HS). pose proof (shape_C0 _ _ _ HS). pose proof lim_32.
  destruct (Z.leb_spec mn s) as [Hm|Hm].
  - destruct (read_hdr _ _ _ _ _ Hh Hc) as (-> & _). cbn [mbind option_bind].
    rewrite bucket_idx_exact by (done || lia). cbn [mbind option_bind].
    destruct (remove_bidx_spec A E C0 HS h F fl c s Hh Hl HFs (HF Hm)) as (h' & fl' & w & -> & Hh' & Hl' & Hp & Hw).
    exists h'. split; [done|]. split; [|by eapply touch_keeps]. split; [done|by eapply touch_tiled|by exists fl'|].
    intros d k [_ Hd]%lookup_delete_Some. by apply Hfree.
  - exists h. split; [done|]. split; [|apply keeps_refl]. rewrite delete_id; [by split; eauto|].
    destruct (F !! c) as [k|] eqn:Ek; [|done]. exfalso. destruct (Hfree _ _ Ek) as [Hk Hk'].
    destruct (places_apart _ _ _ _ _ _ _ _ Hsz Hin Hk') as [?|?]; lia.
Qed.

Definition addF (c s : Z) (F : gmap Z Z) : gmap Z Z := if decide (mn <= s) then <[c := s]> F else F.

Lemma addF_Some c s F d k : addF c s F !! d = Some k -> d = c /\ k = s /\ mn <= s \/ F !! d = Some k.
Proof using. unfold addF. case_decide; [|by right]. rewrite lookup_insert_Some. intros [[-> ->]|[? ?]]; [by left|by right]. Qed.

Lemma free_list_add_spec h cs F c s :
  st h cs F -> (c, s, false) ∈ places C0 cs -> F !! c = None ->
  exists h', free_list_add h c = Some h' /\ st h' cs (addF c s F) /\ keeps (hp_mem h) (hp_mem h') cs (addF c s F).
Proof using HS.
  intros Hst Hin HF. destruct Hst as [Hh Ht [fl Hl] Hfree].
  destruct (tiled_hdr _ _ _ _ _ Ht Hin) as (l & Hc & HcC & Hs1 & HcE). pose proof (t_size _ _ _ _ _ Ht) as Hsz.
  unfold free_list_add. rewrite (solo_exact _ _ _ _ _ Hh Hc Hs1). cbn [mbind option_bind]. rewrite negb_involutive.
  pose proof (shape_E _ _ _ HS). pose proof (shape_C0 _ _ _ HS). pose proof lim_32. unfold addF.
  destruct (Z.leb_spec mn s) as [Hm|Hm].
  - rewrite decide_True by done. destruct (read_hdr _ _ _ _ _ Hh Hc) as (-> & _). cbn [mbind option_bind].
    rewrite bucket_idx_exact by (done || lia). cbn [mbind option_bind].
    assert (Hfree' : forall d k, <[c := s]> F !! d = Some k -> mn <= k /\ (d, k, false) ∈ places C0 cs).
    { intros d k [[<- <-]|[_ Hd]]%lookup_insert_Some; [done|by apply Hfree]. }
    assert (HFs : spaced E C0 (<[c := s]> F)).
    { split.
      - intros d k Hd. destruct (Hfree' _ _ Hd) as [Hk Hd']. destruct (tiled_hdr _ _ _ _ _ Ht Hd') as (? & _ & ?). lia.
      - intros d k d' k' Hd Hd'. destruct (Hfree' _ _ Hd) as [_ P1]. destruct (Hfree' _ _ Hd') as [_ P2].
        pose proof (places_apart _ _ _ _ _ _ _ _ Hsz P1 P2). tauto. }
    assert (M : forall t, 0 <= t < 4 -> is_Some (wd (hp_mem h) (slot c t))).
    { intros t Ht'. apply (tiled_mapped _ _ _ _ Ht HcC); [lia|]. clear -Hm HcE Ht'. unfold HeapModel.slot, HeapModel.uw, HeapModel.mn in *. destruct big; lia. }
    destruct (add_bidx_spec A E C0 HS h F fl c s Hh Hl HFs HF (M 2 ltac:(lia)) (M 3 ltac:(lia))) as (h' & -> & Hh' & fl' & w & Hl' & Hp & Hw).
    exists h'. split; [done|]. split; [|by eapply touch_keeps]. split; [done|by eapply touch_tiled|by exists fl'|done].
  - rewrite decide_False by lia. exists h. split; [done|]. split; [by split; eauto|apply keeps_refl].
Qed.

(** ** Writing headers *)

Lemma lists_frame h F fl m' w :
  lists h F fl -> puts (hp_mem h) m' w -> (forall c s t, F !! c = Some s -> 2 <= t < 4 -> written w (slot c t) = None) ->
  lists (with_mem m' h) F fl.
Proof using.
  intros [L1 L2 L3 L4 L5 L6 L7] Hp Hw. split; try done. intros i l El. destruct (L4 i l El) as [N R]. split; [done|]. cbn.
  apply (ring_frame _ _ _ _ _ _ Hp R). intros x Hx. apply (L5 _ _ _ El) in Hx as (s & Hs & _). split; apply (Hw x s); done || lia.
Qed.

(** Writes to headers of the tiling [cs']. *)
Definition at_headers (cs : list (Z * bool)) (w : list (Z * Z)) : Prop :=
  Forall (fun x => exists p t, 0 <= t < 2 /\ bnd cs p /\ fst x = slot p t) w.

Lemma header_write h cs F m' w cs' :
  st h cs F -> puts (hp_mem h) m' w -> at_headers cs' w -> tiled m' cs' ->
  (forall c s, F !! c = Some s -> (c, s, false) ∈ places C0 cs') ->
  st (with_mem m' h) cs' F /\ keeps (hp_mem h) m' cs' ∅.
Proof using.
  intros [Hh Ht [fl Hl] Hfree] Hp Hw Ht' HF. pose proof (t_size _ _ _ _ _ Ht') as Hsz. split.
  - split; [done|done| |intros c s Hc; split; [apply (Hfree c s Hc)|by apply HF]]. exists fl. apply (lists_frame _ _ _ _ _ Hl Hp).
    intros c s t Hc Hi. apply written_None. eapply Forall_impl; [exact Hw|]. cbn. intros x (p & i & Hi' & Hb & ->) Eq.
    destruct (Hfree _ _ Hc) as [Hm _]. destruct (bnd_clear _ _ _ _ _ Hsz Hb (HF _ _ Hc)); clear -Eq Hi Hi' Hm H0;
      unfold HeapModel.slot, HeapModel.mn, HeapModel.uw in *; destruct big; lia.
  - intros c s u Hc _ q Hq. apply (puts_out _ _ _ _ _ Hp). eapply Forall_impl; [exact Hw|]. cbn.
    intros x (p & i & Hi & Hb & ->) Hx. eapply header_word in Hx; [by apply Hx|done|]. by eapply bnd_clear.
Qed.

Lemma hdr_frame m m' w x :
  puts m m' w -> hdr_ok m x -> written w (slot x.1.1.1 0) = None -> written w (slot x.1.1.1 1) = None -> hdr_ok m' x.
Proof using. destruct x as [[[c l] s] u]. cbn. intros Hp [H1 H2] W1 W2. by rewrite !(puts_wd _ _ _ _ _ Hp), W1, W2. Qed.

Lemma shl_exact x : 0 <= x < 2 ^ 31 -> u32 (Z.shiftl x 1) = 2 * x.
Proof using. intros Hx. rewrite Z.shiftl_mul_pow2 by lia. change (2 ^ 1) with 2. rewrite wrap_u_small; lia. Qed.

Lemma mark_exact s u (u' : bool) :
  (if u' then Z.lor (2 * s + Z.b2z u) 1 else Z.land (2 * s + Z.b2z u) (Z.lnot 1)) = 2 * s + Z.b2z u'.
Proof using.
  apply Z.bits_inj'. intros n Hn. change (Z.lnot 1) with (2 * (-1) + Z.b2z false). change 1 with (2 * 0 + Z.b2z true).
  destruct (Z.eq_dec n 0) as [->|Hne].
  - destruct u'; rewrite ?Z.lor_spec, ?Z.land_spec, !Z.testbit_0_r; [apply orb_true_r|apply andb_false_r].
  - replace n with (Z.succ (n - 1)) by lia.
    destruct u'; rewrite ?Z.lor_spec, ?Z.land_spec, !Z.testbit_succ_r by lia; [by rewrite Z.bits_0, orb_false_r|].
    rewrite Z.bits_m1 by lia. apply andb_true_r.
Qed.

(** The chunks [mid] are replaced by [mid'], by writing headers from [p] to [r]. *)
Lemma retile h pre mid mid' post F m' w :
  let p := C0 + total pre in let r := p + total mid in
  st h (pre ++ mid ++ post) F -> (forall c s, F !! c = Some s -> c < p \/ r <= c) ->
  puts (hp_mem h) m' w -> total mid' = total mid -> sized mid' ->
  Forall (fun x => exists q t, 0 <= t < 2 /\ bnd (pre ++ mid' ++ post) q /\ p <= q <= r /\ fst x = slot q t) w ->
  Forall (hdr_ok m') (headers p (lastsz C0 pre) mid') ->
  wd m' (slot r 0) = Some (lastsz (lastsz C0 pre) mid') -> written w (slot r 1) = None ->
  st (with_mem m' h) (pre ++ mid' ++ post) F /\ keeps (hp_mem h) m' (pre ++ mid' ++ post) ∅.
Proof using HS.
  intros p r Hst HF Hp Et Hsm Hw Hmid Hr0 Hr1. pose proof (shape_C0 _ _ _ HS) as HC. clear HS.
  assert (Hw' : forall q t, 0 <= t < 2 -> q < p \/ r < q -> written w (slot q t) = None).
  { intros q t Hi Hq. apply written_None. eapply Forall_impl; [exact Hw|]. cbn. intros x (q' & t' & Ht' & _ & Hq' & ->) Eq.
    apply slot_eq in Eq; lia. }
  destruct (st_tiled _ _ _ Hst) as [T1 T2 T3 T4 T5]. apply sized_app in T3 as [S1 [S2 S3]%sized_app].
  assert (Hs' : sized (pre ++ mid' ++ post)) by (rewrite !sized_app; done).
  pose proof (sized_total _ S1). pose proof (sized_total _ S2).
  rewrite hlist_app, hlist_app in T2. apply Forall_app in T2 as [T2 [_ T6]%Forall_app]. fold p r in T6.
  destruct (hlist_form r post) as (tl & Ef & Htl). specialize (Htl S3). rewrite Ef in T6. apply Forall_cons_1 in T6 as [T6 T7].
  apply (header_write h _ F m' w _ Hst Hp).
  - eapply Forall_impl; [exact Hw|]. cbn. intros x (q & t & ? & ? & ? & ?). by exists q, t.
  - split; [| |done| |].
    + eapply hdr_frame; [exact Hp|done| |]; cbn; apply Hw'; lia.
    + rewrite hlist_app, hlist_app, Et. fold p r. rewrite Ef. rewrite !Forall_app, Forall_cons. split_and!.
      * apply Forall_forall. intros x Hx. rewrite Forall_forall in T2. eapply hdr_frame; [exact Hp|by apply T2| |];
          apply headers_pos in Hx; try done; apply Hw'; lia.
      * done.
      * cbn in *. split; [done|]. rewrite (puts_wd _ _ _ _ _ Hp), Hr1. tauto.
      * apply Forall_forall. intros x Hx. rewrite Forall_forall in T7. eapply hdr_frame; [exact Hp|by apply T7| |];
          apply Htl in Hx; apply Hw'; lia.
    + rewrite !total_app in *. lia.
    + intros q Hq. apply (puts_dom _ _ _ _ _ Hp). by apply T5.
  - intros c s Hc. destruct (st_free _ _ _ Hst _ _ Hc) as [_ Hin]. specialize (HF _ _ Hc).
    rewrite !places_app, !elem_of_app in Hin |- *. rewrite Et. fold p r in Hin |- *. destruct Hin as [?|[Hin|?]]; [by left| |tauto].
    apply places_bound in Hin; [|done]. lia.
Qed.

Lemma keeps_mark m m' pre s u u' post F :
  keeps m m' (pre ++ (s, u) :: post) F -> keeps m m' (pre ++ (s, u') :: post) F.
Proof using.
  intros K c k v Hc Hn. rewrite places_app in Hc. cbn [places] in Hc. rewrite elem_of_app, elem_of_cons in Hc.
  destruct Hc as [Hc|[[= -> -> ->]|Hc]]; [apply (K c k v)|apply (K _ s u)|apply (K c k v)]; try done;
    rewrite places_app; cbn [places]; rewrite elem_of_app, elem_of_cons; tauto.
Qed.

Section Chunk.
Context (h : z_heap) (pre post : list (Z * bool)) (F : gmap Z Z).

Lemma F_outside mid :
  st h (pre ++ mid ++ post) F -> (forall c s u, (c, s, u) ∈ places (C0 + total pre) mid -> F !! c = None) ->
  forall c s, F !! c = Some s -> c < C0 + total pre \/ C0 + total pre + total mid <= c.
Proof using.
  intros Hst Hn c s Hc. destruct (st_free _ _ _ Hst _ _ Hc) as [_ Hin].
  pose proof (t_size _ _ _ _ _ (st_tiled _ _ _ Hst)) as Hs. rewrite !sized_app in Hs. destruct Hs as (S1 & S2 & S3).
  rewrite !places_app, !elem_of_app in Hin. destruct Hin as [Hin|[Hin|Hin]].
  - apply places_bound in Hin; [|done]. lia.
  - apply Hn in Hin. congruence.
  - apply places_bound in Hin; [|done]. lia.
Qed.

Lemma set_used_spec s u u' c :
  st h (pre ++ (s, u) :: post) F -> c = C0 + total pre -> F !! c = None ->
  exists h', set_chunk_used h c u' = Some h' /\ st h' (pre ++ (s, u') :: post) F /\
    keeps (hp_mem h) (hp_mem h') (pre ++ (s, u) :: post) ∅.
Proof using HS.
  intros Hst -> HF. pose proof (st_heap _ _ _ Hst) as Hh. pose proof (st_tiled _ _ _ Hst) as Ht.
  destruct (t_head _ _ _ _ _ _ _ _ Ht) as [HL HR]. destruct (t_right _ _ _ _ _ _ _ _ Ht) as [RL RR].
  pose proof (t_bounds _ _ _ _ _ _ _ _ Ht) as (B1 & B2 & B3). pose proof (shape_E _ _ _ HS) as HE.
  unfold set_chunk_used. rewrite field_wd with (A := A) (E := E) by done. cbn [field_index]. rewrite HR. cbn [mbind option_bind].
  rewrite mark_exact. pose proof (shape_C0 _ _ _ HS).
  set_step Hh (puts_nil A E (hp_mem h)) m1 P1; [destruct u'; cbn [Z.b2z]; lia|].
  destruct (retile h pre [(s, u)] [(s, u')] post F m1 [(slot (C0 + total pre) 1, 2 * s + Z.b2z u')] Hst) as [G1 G2]; try done.
  - apply (F_outside [(s, u)]); [done|]. cbn. intros c k v. rewrite list_elem_of_singleton. by intros [= -> -> ->].
  - by repeat constructor.
  - constructor; [|constructor]. exists (C0 + total pre), 1. split; [lia|]. split; [apply (bnd_mid pre s u' post)|]. cbn. split; [lia|done].
  - constructor; [|constructor]. cbn. rewrite !(puts_wd _ _ _ _ _ P1). cbn. by slots.
  - cbn. rewrite (puts_wd _ _ _ _ _ P1). cbn. rewrite Z.add_0_r. by slots.
  - cbn. rewrite Z.add_0_r. by slots.
  - eexists. split; [done|]. split; [done|]. by eapply keeps_mark.
Qed.

Lemma split_chunks_spec s u c n :
  st h (pre ++ (s, u) :: post) F -> c = C0 + total pre -> F !! c = None -> 0 < n < s ->
  exists h', split_chunks h c (c + n) = Some h' /\ st h' (pre ++ (n, false) :: (s - n, false) :: post) F /\
    keeps (hp_mem h) (hp_mem h') (pre ++ (n, false) :: (s - n, false) :: post) ∅.
Proof using HS.
  intros Hst -> HF Hn. pose proof (st_heap _ _ _ Hst) as Hh. pose proof (st_tiled _ _ _ Hst) as Ht.
  pose proof (t_head _ _ _ _ _ _ _ _ Ht) as Hhd. destruct Hhd as [HL HR]. destruct (t_right _ _ _ _ _ _ _ _ Ht) as [RL RR].
  pose proof (t_bounds _ _ _ _ _ _ _ _ Ht) as (B1 & B2 & B3). pose proof (shape_E _ _ _ HS) as HE. pose proof lim_32.
  pose proof (shape_C0 _ _ _ HS). set (c := C0 + total pre) in *.
  unfold split_chunks. destruct (read_hdr h c (lastsz C0 pre) s u Hh) as (-> & _); [done|]. cbn [mbind option_bind].
  replace (c + n - c) with n by lia. rewrite (wrap_u_small 32 n), (wrap_u_small 32 (s - n)) by lia.
  unfold set_chunk_size, set_left_chunk_size. rewrite !shl_exact by lia.
  assert (M : forall t, 0 <= t < 2 -> is_Some (wd (hp_mem h) (slot (c + n) t))).
  { intros t Hi. apply (tiled_mapped _ _ _ _ Ht); [lia|lia|]. clear -B3 Hn Hi. unfold HeapModel.slot, HeapModel.uw. destruct big; lia. }
  set_step Hh (puts_nil A E (hp_mem h)) m1 P1; [lia|]. set_step Hh P1 m2 P2; [apply M; cbn; lia|lia|].
  set_step Hh P2 m3 P3; [apply M; cbn; lia|lia|].
  assert (R : right_chunk (with_mem m3 (with_mem m2 (with_mem m1 h))) (c + n) = Some (c + s)).
  { edestruct (read_hdr (with_mem m3 (with_mem m2 (with_mem m1 h))) (c + n) n (s - n) false Hh) as (_ & _ & Er & _).
    - cbn. rewrite !(puts_wd _ _ _ _ _ P3). cbn. slots. split; [done|f_equal; lia].
    - rewrite Er by lia. f_equal. lia. }
  rewrite R. cbn [mbind option_bind]. set_step Hh P3 m4 P4; [lia|]. clear P1 P2 P3 R.
  destruct (retile h pre [(s, u)] [(n, false); (s - n, false)] post F m4
    [(slot (c + s) 0, s - n); (slot (c + n) 0, n); (slot (c + n) 1, 2 * (s - n)); (slot c 1, 2 * n)] Hst) as [G1 G2]; try done.
  - apply (F_outside [(s, u)]); [done|]. cbn. intros c' k v. rewrite list_elem_of_singleton. by intros [= -> -> ->].
  - cbn. lia.
  - repeat constructor; cbn; lia.
  - destruct (bnd_mid pre n false ((s - n, false) :: post)) as [D1 D2].
    destruct (bnd_mid (pre ++ [(n, false)]) (s - n) false post) as [_ D3].
    rewrite <- app_assoc, total_app in D3. cbn in D3. replace (C0 + (total pre + (n + 0)) + (s - n)) with (c + s) in D3 by lia.
    cbn. fold c. repeat (apply Forall_cons; split); [| | | |constructor].
    + exists (c + s), 0. split; [lia|split; [done|split; [lia|done]]].
    + exists (c + n), 0. split; [lia|split; [done|split; [lia|done]]].
    + exists (c + n), 1. split; [lia|split; [done|split; [lia|done]]].
    + exists c, 1. split; [lia|split; [done|split; [lia|done]]].
  - cbn. fold c. rewrite !Forall_cons, Forall_nil. unfold HeapModel.hdr_ok. rewrite !(puts_wd _ _ _ _ _ P4). cbn. slots.
    split_and!; try done; f_equal; lia.
  - cbn. fold c. rewrite Z.add_0_r, (puts_wd _ _ _ _ _ P4). cbn. by slots.
  - cbn. fold c. rewrite Z.add_0_r. by slots.
  - eexists. split; [done|]. by split.
Qed.

Lemma merge_chunks_spec s1 u1 s2 u2 c :
  st h (pre ++ (s1, u1) :: (s2, u2) :: post) F -> c = C0 + total pre -> F !! c = None -> F !! (c + s1) = None ->
  exists h', merge_chunks h c (c + s1) = Some h' /\ st h' (pre ++ (s1 + s2, false) :: post) F /\
    keeps (hp_mem h) (hp_mem h') (pre ++ (s1 + s2, false) :: post) ∅.
Proof using HS.
  intros Hst -> HF1 HF2. pose proof (st_heap _ _ _ Hst) as Hh. pose proof (st_tiled _ _ _ Hst) as Ht.
  pose proof (t_head _ _ _ _ _ _ _ _ Ht) as Hhd. destruct (Hhd) as [HL HR].
  pose proof (t_bounds _ _ _ _ _ _ _ _ Ht) as (B1 & B2 & B3). pose proof (shape_E _ _ _ HS) as HE. pose proof lim_32.
  pose proof (shape_C0 _ _ _ HS). set (c := C0 + total pre) in *.
  assert (Hst' := Ht). replace (pre ++ (s1, u1) :: (s2, u2) :: post) with ((pre ++ [(s1, u1)]) ++ (s2, u2) :: post) in Hst' by (by rewrite <- app_assoc).
  destruct (t_right _ _ _ _ _ _ _ _ Hst') as [RL RR]. pose proof (t_bounds _ _ _ _ _ _ _ _ Hst') as (D1 & D2 & D3).
  pose proof (t_head _ _ _ _ _ _ _ _ Hst') as Hhd2. clear Hst'. destruct (t_left C0 pre s1 u1) as [Es Ec]. rewrite Ec in *. rewrite Es in Hhd2. fold c in RL, RR, D2, D3, Hhd2.
  unfold merge_chunks. destruct (read_hdr h c (lastsz C0 pre) s1 u1 Hh) as (-> & _); [done|].
  destruct (read_hdr h (c + s1) s1 s2 u2 Hh) as (Rs & _); [done|]. rewrite Rs. cbn [mbind option_bind]. clear Rs.
  unfold set_chunk_size, set_left_chunk_size. rewrite (wrap_u_small 32 (s1 + s2)), shl_exact by lia.
  set_step Hh (puts_nil A E (hp_mem h)) m1 P1; [lia|].
  assert (R : right_chunk (with_mem m1 h) (c + s1) = Some (c + s1 + s2)).
  { edestruct (read_hdr (with_mem m1 h) (c + s1) s1 s2 u2 Hh) as (_ & _ & Er & _); [|apply Er; lia].
    eapply hdr_frame; [exact P1|done| |]; cbn; by slots. }
  rewrite R. cbn [mbind option_bind]. set_step Hh P1 m2 P2; [lia|]. clear P1 R.
  destruct (retile h pre [(s1, u1); (s2, u2)] [(s1 + s2, false)] post F m2
    [(slot (c + s1 + s2) 0, s1 + s2); (slot c 1, 2 * (s1 + s2))] Hst) as [G1 G2]; try done.
  - apply (F_outside [(s1, u1); (s2, u2)]); [done|]. cbn. intros c' k v. rewrite !elem_of_cons, elem_of_nil. fold c.
    intros [[= -> -> ->]|[[= -> -> ->]|[]]]; done.
  - cbn. lia.
  - repeat constructor; cbn; lia.
  - destruct (bnd_mid pre (s1 + s2) false post) as [G1 G2]. fold c in G1, G2. rewrite Z.add_assoc in G2. cbn. fold c.
    repeat (apply Forall_cons; split); [| |constructor].
    + exists (c + s1 + s2), 0. split; [lia|split; [done|split; [lia|done]]].
    + exists c, 1. split; [lia|split; [done|split; [lia|done]]].
  - cbn. fold c. constructor; [|constructor]. cbn. rewrite !(puts_wd _ _ _ _ _ P2). cbn. slots. split; [done|f_equal; lia].
  - cbn. fold c. rewrite Z.add_0_r, Z.add_assoc, (puts_wd _ _ _ _ _ P2). cbn. by slots.
  - cbn. fold c. rewrite Z.add_0_r, Z.add_assoc. by slots.
  - eexists. split; [done|]. by split.
Qed.
End Chunk.
End Ops.
