(* ===== verification/HeapAlloc.v ===== *)
(** * The chunk heap: freeing and finding chunks

    [free_chunk] and [alloc_chunk]: a chunk is merged with its free neighbours and put into
    a list, or taken out of one. *)

From S2P Require Import Prelude KState KLogic MemOps SysHeap HeapModel HeapOps.

Local Open Scope Z_scope.

Section Alloc.
Context `{HeapConfig} (A E C0 : Z) (HS : shape A E C0).

Abbreviation mn := (mn E).
Abbreviation st := (st A E C0).
Abbreviation kept := (kept A E).
Abbreviation keeps := (keeps A E C0).
Abbreviation hdr_ok := (hdr_ok A E).
Abbreviation tiled := (tiled A E C0).
Abbreviation lists := (lists A E).
Abbreviation bidx := (bidx E).
Abbreviation isheap := (isheap A E).
Abbreviation places := (places C0).

(** ** Used chunks *)

Definition ukeeps (m m' : gmap Z Z) (cs : list (Z * bool)) : Prop :=
  forall d k, (d, k, true) ∈ places cs -> kept m m' d k.

Definition used_same (cs cs' : list (Z * bool)) : Prop := forall d k, (d, k, true) ∈ places cs <-> (d, k, true) ∈ places cs'.

#[local] Instance used_same_equiv : Equivalence used_same.
Proof. split; [done|intros a b Hab d k; by rewrite (Hab d k)|]. intros a b c Hab Hbc d k. by rewrite (Hab d k). Qed.

#[local] Instance ukeeps_proper m m' : Proper (used_same ==> iff) (ukeeps m m').
Proof. intros a b Hab. unfold ukeeps. by setoid_rewrite (Hab _ _). Qed.

Lemma ukeeps_trans m1 m2 m3 cs : ukeeps m1 m2 cs -> ukeeps m2 m3 cs -> ukeeps m1 m3 cs.
Proof using. intros K1 K2 d k Hd q Hq. rewrite (K2 d k); [|done|done]. by apply (K1 d k). Qed.

Lemma ukeeps_refl m cs : ukeeps m m cs.
Proof using. by intros d k _ q _. Qed.

Lemma keeps_empty m m' cs : keeps m m' cs ∅ -> ukeeps m m' cs.
Proof using. intros K d k Hd. by apply (K d k true). Qed.

Lemma free_not_used h cs F d k : st h cs F -> (d, k, true) ∈ places cs -> F !! d = None.
Proof using.
  intros Hst Hd. destruct (F !! d) as [k'|] eqn:Ed; [|done]. exfalso.
  destruct (st_free _ _ _ _ _ _ Hst _ _ Ed) as [Hk Hd']. pose proof (t_size _ _ _ _ _ (st_tiled _ _ _ _ _ _ Hst)) as Hs.
  pose proof (places_bound _ _ _ _ _ Hs Hd). pose proof (places_bound _ _ _ _ _ Hs Hd').
  destruct (places_apart _ _ _ _ _ _ _ _ Hs Hd Hd') as [(_ & _ & ?)|?]; [done|lia].
Qed.

Lemma keeps_used h cs F m m' : st h cs F -> keeps m m' cs F -> ukeeps m m' cs.
Proof using. intros Hst K d k Hd. apply (K d k true); [done|]. by eapply free_not_used. Qed.

Lemma no_used p l d k : Forall (fun x => snd x = false) l -> (d, k, true) ∉ HeapModel.places p l.
Proof using.
  intros Hl. revert p. induction Hl as [|[s u] l Hu _ IH]; intros p; cbn [HeapModel.places]; [by apply not_elem_of_nil|].
  cbn in Hu. rewrite elem_of_cons. intros [[= -> -> <-]|Hin]; [done|]. by eapply IH.
Qed.

Lemma used_mid pre mid mid' post :
  total mid' = total mid -> Forall (fun x => snd x = false) mid -> Forall (fun x => snd x = false) mid' ->
  used_same (pre ++ mid ++ post) (pre ++ mid' ++ post).
Proof using.
  intros Et Hm Hm' d k. rewrite !places_app, !elem_of_app, Et.
  split; intros [?|[Hx|?]]; try tauto; by apply no_used in Hx.
Qed.

(** ** Freeing

    All the free chunks are in the lists, except the one that is being freed. *)

Record almost (h : z_heap) (pre : list (Z * bool)) (s : Z) (post : list (Z * bool)) (F : gmap Z Z) : Prop := mkAlmost {
  al_st : st h (pre ++ (s, false) :: post) F;
  al_c : F !! (C0 + total pre) = None;
  al_full : forall d k, mn <= k -> (d, k, false) ∈ places (pre ++ (s, false) :: post) -> d <> C0 + total pre -> F !! d = Some k
}.

Lemma read_mid h pre s u post F :
  st h (pre ++ (s, u) :: post) F -> let c := C0 + total pre in
  chunk_size h c = Some s /\ chunk_used h c = Some u /\ right_chunk h c = Some (c + s) /\
  chunk_used h (c + s) = Some (next post).2 /\ chunk_size h (c + s) = Some (next post).1 /\
  left_chunk h c = Some (c - lastsz C0 pre).
Proof using HS.
  intros Hst c. pose proof (st_heap _ _ _ _ _ _ Hst) as Hh. pose proof (st_tiled _ _ _ _ _ _ Hst) as Ht.
  pose proof (t_head _ _ _ _ _ _ _ _ Ht) as Hd. pose proof (t_right _ _ _ _ _ _ _ _ Ht) as Hr.
  pose proof (t_bounds _ _ _ _ _ _ _ _ Ht) as (B1 & B2 & B3). pose proof (shape_E _ _ _ HS). pose proof (lim_32 E).
  pose proof (shape_C0 _ _ _ HS). fold c in Hd, Hr, B3.
  destruct (read_hdr A E h c (lastsz C0 pre) s u Hh) as (R1 & R2 & R3 & R4); [done|].
  destruct (read_hdr A E h (c + s) s (next post).1 (next post).2 Hh) as (R5 & R6 & _); [done|].
  split_and!; [done|done|apply R3; lia|done|done|]. apply R4.
  assert (0 <= lastsz C0 pre <= c); [|lia].
  destruct pre as [|x l _] using rev_ind; [cbn in *; unfold c, total; cbn; lia|]. destruct x as [ls lu].
  pose proof (t_size _ _ _ _ _ Ht) as Hsz. apply sized_app in Hsz as [Hsz _]. apply sized_app in Hsz as [Hs1 Hs2].
  apply Forall_cons_1 in Hs2 as [Hs2 _]. cbn in Hs2. pose proof (sized_total _ Hs1). unfold c.
  destruct (t_left C0 l ls lu) as [-> ->]. lia.
Qed.

Lemma app_cons_assoc {T} (a : list T) x b : (a ++ [x]) ++ b = a ++ x :: b.
Proof using. by rewrite <- app_assoc. Qed.

Lemma free_right h pre s rs post F :
  almost h pre s ((rs, false) :: post) F -> let c := C0 + total pre in
  exists h1 h', free_list_remove h (c + s) = Some h1 /\ right_chunk h1 c = Some (c + s) /\ merge_chunks h1 c (c + s) = Some h' /\
    almost h' pre (s + rs) post (delete (c + s) F) /\
    used_same (pre ++ (s, false) :: (rs, false) :: post) (pre ++ (s + rs, false) :: post) /\
    ukeeps (hp_mem h) (hp_mem h') (pre ++ (s, false) :: (rs, false) :: post).
Proof using HS.
  intros [Hst Hc Hf] c. fold c in Hc, Hf. pose proof (t_size _ _ _ _ _ (st_tiled _ _ _ _ _ _ Hst)) as Hs.
  assert (Hr : (c + s, rs, false) ∈ places (pre ++ (s, false) :: (rs, false) :: post)).
  { rewrite places_app. cbn [HeapModel.places]. apply elem_of_app. right. right. left. }
  assert (Hcc : (c, s, false) ∈ places (pre ++ (s, false) :: (rs, false) :: post)) by apply places_mid.
  pose proof (places_bound _ _ _ _ _ Hs Hcc) as Bc. pose proof (places_bound _ _ _ _ _ Hs Hr) as Br.
  destruct (free_list_remove_spec A E C0 HS h _ F (c + s) rs Hst Hr) as (h1 & E1 & Hst1 & K1).
  { intros Hm. apply Hf; [done|done|lia]. }
  destruct (read_mid _ _ _ _ _ _ Hst1) as (_ & _ & R & _).
  destruct (merge_chunks_spec A E C0 HS h1 pre post (delete (c + s) F) s false rs false c Hst1) as (h' & E2 & Hst2 & K2); [done| | |].
  { by rewrite lookup_delete_ne by lia. } { apply lookup_delete_eq. }
  assert (U : used_same (pre ++ (s, false) :: (rs, false) :: post) (pre ++ (s + rs, false) :: post)).
  { apply (used_mid pre [(s, false); (rs, false)] [(s + rs, false)]); [cbn; lia|by repeat constructor|by repeat constructor]. }
  exists h1, h'. split_and!; [done|done|done| |done|].
  - split; [done|fold c; by rewrite lookup_delete_ne by lia|]. fold c. intros d k Hk Hd Hne.
    rewrite places_app, elem_of_app in Hd. cbn [HeapModel.places] in Hd. rewrite elem_of_cons in Hd. fold c in Hd.
    pose proof Hs as Hs'. apply sized_app in Hs' as [S1 [S2 [S3 S4]%Forall_cons_1]%Forall_cons_1]. cbn in S2, S3.
    assert (Hd' : (d, k, false) ∈ places (pre ++ (s, false) :: (rs, false) :: post) /\ d <> c + s).
    { rewrite places_app, elem_of_app. cbn [HeapModel.places]. rewrite !elem_of_cons. fold c. destruct Hd as [Hd|[[= -> ->]|Hd]]; [|done|].
      - split; [by left|]. apply places_bound in Hd; [|done]. fold c in Hd. lia.
      - replace (c + (s + rs)) with (c + s + rs) in Hd by lia. split; [tauto|]. apply places_bound in Hd; [lia|done]. }
    rewrite lookup_delete_ne by (symmetry; tauto). apply Hf; tauto.
  - apply (ukeeps_trans _ (hp_mem h1)); [by apply (keeps_used h _ F)|]. rewrite U. by apply keeps_empty.
Qed.

Lemma free_left h pre ls s post F :
  almost h (pre ++ [(ls, false)]) s post F -> let c := C0 + total pre + ls in
  exists h1 h', free_list_remove h (c - ls) = Some h1 /\ left_chunk h1 c = Some (c - ls) /\ merge_chunks h1 (c - ls) c = Some h' /\
    left_chunk h' c = Some (c - ls) /\
    almost h' pre (ls + s) post (delete (c - ls) F) /\
    used_same ((pre ++ [(ls, false)]) ++ (s, false) :: post) (pre ++ (ls + s, false) :: post) /\
    ukeeps (hp_mem h) (hp_mem h') ((pre ++ [(ls, false)]) ++ (s, false) :: post).
Proof using HS.
  intros [Hst Hc Hf] c. destruct (t_left C0 pre ls false) as [El Et]. rewrite Et in Hc, Hf. fold c in Hc, Hf.
  replace (c - ls) with (C0 + total pre) by lia. set (l := C0 + total pre) in *.
  assert (Hl : left_chunk h c = Some l).
  { destruct (read_mid _ _ _ _ _ _ Hst) as (_ & _ & _ & _ & _ & R). rewrite Et, El in R. fold c in R. rewrite R. f_equal. lia. }
  rewrite app_cons_assoc in *. pose proof (t_size _ _ _ _ _ (st_tiled _ _ _ _ _ _ Hst)) as Hs.
  assert (Hlc : (l, ls, false) ∈ places (pre ++ (ls, false) :: (s, false) :: post)) by apply places_mid.
  assert (Hcc : (c, s, false) ∈ places (pre ++ (ls, false) :: (s, false) :: post)).
  { rewrite places_app. cbn [HeapModel.places]. apply elem_of_app. right. right. left. }
  pose proof (places_bound _ _ _ _ _ Hs Hcc) as Bc. pose proof (places_bound _ _ _ _ _ Hs Hlc) as Bl.
  destruct (free_list_remove_spec A E C0 HS h _ F l ls Hst Hlc) as (h1 & E1 & Hst1 & K1).
  { intros Hm. apply Hf; [done|done|lia]. }
  destruct (merge_chunks_spec A E C0 HS h1 pre post (delete l F) ls false s false l Hst1) as (h' & E2 & Hst2 & K2); [done| | |].
  { apply lookup_delete_eq. } { by rewrite lookup_delete_ne by lia. }
  assert (U : used_same (pre ++ (ls, false) :: (s, false) :: post) (pre ++ (ls + s, false) :: post)).
  { apply (used_mid pre [(ls, false); (s, false)] [(ls + s, false)]); [cbn; lia|by repeat constructor|by repeat constructor]. }
  assert (L1 : left_chunk h1 c = Some l).
  { rewrite <- app_cons_assoc in Hst1. destruct (read_mid _ _ _ _ _ _ Hst1) as (_ & _ & _ & _ & _ & R).
    rewrite Et, El in R. fold c in R. rewrite R. f_equal. lia. }
  assert (L2 : left_chunk h' c = Some l).
  { assert (Eq : chunk_field h' c LEFT_SIZE = chunk_field h1 c LEFT_SIZE); [|unfold left_chunk in *; by rewrite Eq].
    rewrite (field_wd A E h'), (field_wd A E h1) by (by eapply st_heap). apply load_ext. intros q Hq. apply (K2 l (ls + s) false); [apply places_mid|done|].
    unfold within, slot, hb, uw, fb in *. cbn [field_index] in *. destruct big; lia. }
  exists h1, h'. split_and!; [done|done|done|done| |done|].
  - split; [done|fold l; apply lookup_delete_eq|]. fold l. intros d k Hk Hd Hne.
    rewrite lookup_delete_ne by done. apply Hf; [done| |].
    + rewrite places_app, elem_of_app in Hd |- *. cbn [HeapModel.places] in Hd |- *. rewrite !elem_of_cons in Hd |- *.
      fold l in Hd |- *. rewrite Z.add_assoc in Hd. destruct Hd as [?|[[= -> ->]|?]]; [tauto|done|right; right; by right].
    + intros ->. rewrite places_app, elem_of_app in Hd. cbn [HeapModel.places] in Hd. rewrite elem_of_cons in Hd. fold l in Hd.
      apply sized_app in Hs as [S1 [S2 [S3 S4]%Forall_cons_1]%Forall_cons_1]. cbn in S2, S3.
      destruct Hd as [Hd|[[= ? ?]|Hd]]; [apply places_bound in Hd; [fold l in Hd; lia|done]|lia|apply places_bound in Hd; [lia|done]].
  - apply (ukeeps_trans _ (hp_mem h1)); [by apply (keeps_used h _ F)|]. rewrite U. by apply keeps_empty.
Qed.

(** No two free chunks are neighbours; [p] is the mark of the chunk at the left. *)
Fixpoint coal (p : bool) (cs : list (Z * bool)) : Prop :=
  match cs with [] => True | (s, u) :: cs => (p = true \/ u = true) /\ coal u cs end.
Definition lastu (p : bool) (cs : list (Z * bool)) : bool := List.last (snd <$> cs) p.

Lemma lastu_cons p s u cs : lastu p ((s, u) :: cs) = lastu u cs.
Proof using.
  unfold lastu. cbn [fmap list_fmap snd]. revert p u. induction cs as [|[s' u'] cs IH]; intros p u; [done|]. cbn [fmap list_fmap snd].
  change (List.last (u' :: (snd <$> cs)) p = List.last (u' :: (snd <$> cs)) u). by rewrite !IH.
Qed.

Lemma coal_app p a b : coal p (a ++ b) <-> coal p a /\ coal (lastu p a) b.
Proof using.
  revert p. induction a as [|[s u] a IH]; intros p; [cbn; tauto|]. rewrite lastu_cons. cbn. rewrite IH. tauto.
Qed.

Lemma lastu_snoc p a s u : lastu p (a ++ [(s, u)]) = u.
Proof using. unfold lastu. rewrite fmap_app. apply List.last_last. Qed.

(** The invariant between two calls. *)
Record okF (h : z_heap) (cs : list (Z * bool)) (F : gmap Z Z) : Prop := mkOk {
  ok_st : st h cs F;
  ok_full : forall d k, mn <= k -> (d, k, false) ∈ places cs -> F !! d = Some k;
  ok_coal : coal true cs
}.
Definition ok (h : z_heap) (cs : list (Z * bool)) : Prop := exists F, okF h cs F.

Lemma add_done h pre s post F :
  almost h pre s post F -> coal true (pre ++ (s, false) :: post) ->
  exists h', free_list_add h (C0 + total pre) = Some h' /\ ok h' (pre ++ (s, false) :: post) /\
    ukeeps (hp_mem h) (hp_mem h') (pre ++ (s, false) :: post).
Proof using HS.
  intros [Hst Hc Hf] Hco. destruct (free_list_add_spec A E C0 HS h _ F (C0 + total pre) s Hst) as (h' & E1 & Hst' & K); [apply places_mid|done|].
  exists h'. split; [done|]. split; [|by eapply keeps_used]. exists (addF E (C0 + total pre) s F). split; [done| |done].
  intros d k Hk Hd. pose proof (t_size _ _ _ _ _ (st_tiled _ _ _ _ _ _ Hst)) as Hs.
  destruct (decide (d = C0 + total pre)) as [->|Hne].
  - pose proof (places_mid C0 pre s false post) as Hm. pose proof (places_bound _ _ _ _ _ Hs Hm). pose proof (places_bound _ _ _ _ _ Hs Hd).
    destruct (places_apart _ _ _ _ _ _ _ _ Hs Hm Hd) as [(_ & -> & _)|?]; [|lia].
    unfold addF. rewrite decide_True by done. apply lookup_insert_eq.
  - specialize (Hf d k Hk Hd Hne). unfold addF. case_decide; [|done]. by rewrite lookup_insert_ne.
Qed.

Lemma zero_used h cs F : st h cs F -> chunk_used h 0 = Some true /\ chunk_size h 0 = Some C0.
Proof using.
  intros Hst. pose proof (st_heap _ _ _ _ _ _ Hst) as Hh. destruct (st_tiled _ _ _ _ _ _ Hst) as [T1 _ _ _ _].
  by destruct (read_hdr A E h 0 0 C0 true Hh T1) as (? & ? & _).
Qed.

(** The merge with the chunk at the left, and the insertion. *)
Lemma free_left_part h pre s post F :
  almost h pre s post F -> coal true pre -> coal false post -> let c := C0 + total pre in
  exists h' cs',
    (l ← left_chunk h c;
     lu ← chunk_used h l;
     '(h, c) ← (if negb lu then
                  l ← left_chunk h c;
                  h ← free_list_remove h l;
                  l ← left_chunk h c;
                  h ← merge_chunks h l c;
                  l ← left_chunk h c;
                  Some (h, l)
                else Some (h, c));
     free_list_add h c) = Some h' /\ ok h' cs' /\ used_same (pre ++ (s, false) :: post) cs' /\
    ukeeps (hp_mem h) (hp_mem h') (pre ++ (s, false) :: post).
Proof using HS.
  intros Hal Hp Hq c. destruct (read_mid _ _ _ _ _ _ (al_st _ _ _ _ _ Hal)) as (_ & _ & _ & _ & _ & RL). fold c in RL.
  rewrite RL. cbn [mbind option_bind]. destruct pre as [|[ls lu] pre _] using rev_ind.
  - replace (c - lastsz C0 []) with 0 by (unfold c, lastsz, total; cbn; lia).
    destruct (zero_used _ _ _ (al_st _ _ _ _ _ Hal)) as [-> _]. cbn [mbind option_bind negb].
    destruct (add_done h [] s post F Hal) as (h' & E1 & Ho & K); [by split; [left|]|]. exists h', ([] ++ (s, false) :: post). by split_and!.
  - destruct (t_left C0 pre ls lu) as [Es Et]. rewrite Es. fold c in Et.
    replace (c - ls) with (C0 + total pre) by lia.
    assert (Hlu : chunk_used h (C0 + total pre) = Some lu).
    { pose proof (al_st _ _ _ _ _ Hal) as Hst. rewrite app_cons_assoc in Hst. apply read_mid in Hst. tauto. }
    rewrite Hlu. cbn [mbind option_bind]. destruct lu; cbn [negb].
    + destruct (add_done h (pre ++ [(ls, true)]) s post F Hal) as (h' & E1 & Ho & K).
      { apply coal_app. split; [done|]. rewrite lastu_snoc. by split; [left|]. }
      eexists h', _. by split_and!.
    + destruct (free_left h pre ls s post F Hal) as (h1 & h2 & E1 & L1 & E2 & L2 & Hal2 & U & K).
      rewrite <- Et in *. replace (c - ls) with (C0 + total pre) in * by lia.
      rewrite E1. cbn [mbind option_bind]. rewrite L1. cbn [mbind option_bind]. rewrite E2. cbn [mbind option_bind]. rewrite L2. cbn [mbind option_bind].
      apply coal_app in Hp as [Hp1 Hp2]. destruct (add_done h2 pre (ls + s) post _ Hal2) as (h' & E3 & Ho & K').
      { apply coal_app. split; [done|]. cbn in Hp2. split; [|done]. left. by destruct Hp2 as [[?|?] _]. }
      eexists h', _. split_and!; [done|done|done|]. apply (ukeeps_trans _ (hp_mem h2)); [done|]. by rewrite U.
Qed.

Lemma free_chunk_spec h pre s post F :
  almost h pre s post F -> coal true pre -> coal true post ->
  exists h' cs', free_chunk h (C0 + total pre) = Some h' /\ ok h' cs' /\ used_same (pre ++ (s, false) :: post) cs' /\
    ukeeps (hp_mem h) (hp_mem h') (pre ++ (s, false) :: post).
Proof using HS.
  intros Hal Hp Hq. unfold free_chunk. destruct (read_mid _ _ _ _ _ _ (al_st _ _ _ _ _ Hal)) as (_ & _ & RR & RU & _ & _).
  rewrite RR. cbn [mbind option_bind]. rewrite RU. cbn [mbind option_bind].
  assert (Hcase : (exists rs post', post = (rs, false) :: post') \/ (next post).2 = true /\ coal false post).
  { destruct post as [|[rs [|]] post']; cbn in Hq |- *; [tauto| |left; eauto]. right. tauto. }
  destruct Hcase as [(rs & post' & ->)|[-> Hq']]; cbn [next snd negb].
  - destruct (free_right _ _ _ _ _ _ Hal) as (h1 & h2 & E1 & R1 & E2 & Hal2 & U & K).
    rewrite E1. cbn [mbind option_bind]. rewrite R1. cbn [mbind option_bind]. rewrite E2. cbn [mbind option_bind].
    destruct (free_left_part _ _ _ _ _ Hal2 Hp) as (h' & cs' & E3 & Ho & U' & K'); [by destruct Hq|].
    exists h', cs'. split_and!; [done|done|by rewrite U|]. apply (ukeeps_trans _ (hp_mem h2)); [done|]. by rewrite U.
  - apply (free_left_part _ _ _ _ _ Hal Hp Hq').
Qed.

(** ** Finding a chunk *)

Lemma ctz_testbit p : 0 <= ctz p /\ Z.testbit (Zpos p) (ctz p) = true.
Proof using.
  induction p as [p IH|p IH|]; cbn [ctz]; [done| |done]. destruct IH as [IH1 IH2]. split; [lia|].
  rewrite Pos2Z.inj_xO. replace (1 + ctz p) with (Z.succ (ctz p)) by lia. by rewrite Z.testbit_even_succ.
Qed.

Lemma bucket_mask a i n : 0 <= i -> 0 <= n -> Z.testbit (Z.land a (Z.lnot (BIT i - 1))) n = Z.testbit a n && (i <=? n).
Proof using.
  intros Hi Hn. replace (BIT i - 1) with (Z.ones i) by (unfold BIT, Z.ones; lia).
  rewrite Z.land_spec, Z.lnot_spec by done. f_equal. destruct (Z.leb_spec i n).
  - by rewrite Z.ones_spec_high by lia.
  - by rewrite Z.ones_spec_low by lia.
Qed.

(** [b->next = next_free_chunk(h, c)]. *)
Lemma turn_spec h cs F fl i x tl :
  st h cs F -> lists h F fl -> fl !! i = Some (x :: tl) ->
  exists n, next_free_chunk h x = Some n /\ set_bucket_next h (Z.of_nat i) n = Some (with_buckets (<[i := n]> (buckets h)) h) /\
    n = hd 0 (tl ++ [x]) /\ lists (with_buckets (<[i := n]> (buckets h)) h) F (<[i := tl ++ [x]]> fl).
Proof using.
  intros Hst Hl El. destruct (ls_len _ _ _ _ _ Hl) as [L1 L2]. destruct (ls_ring _ _ _ _ _ Hl _ _ El) as [Hn Hr].
  pose proof (lookup_lt_Some _ _ _ El) as Hi. rewrite L2 in Hi. exists (hd 0 (tl ++ [x])). unfold next_free_chunk.
  rewrite (field_wd A E) by (by eapply st_heap). split_and!; [|apply set_bucket_next_spec; lia|done|].
  - cbn in Hr. destruct tl; by destruct Hr as [[? _] _].
  - apply (lists_update A E h F fl _ F i (tl ++ [x]) []); try done.
    + intros j. cbn. case_decide as Hj; [|done]. subst j. rewrite (ls_bit _ _ _ _ _ Hl _ _ El). by destruct tl.
    + cbn. apply (ls_avail _ _ _ _ _ Hl).
    + by rewrite <- Permutation_cons_append.
    + by apply (ring_rotate A E _ [x] tl).
    + intros c. rewrite <- Permutation_cons_append. by apply (ls_elem _ _ _ _ _ Hl).
Qed.

Lemma list_chunk h cs F fl i x l :
  okF h cs F -> lists h F fl -> fl !! i = Some (x :: l) ->
  exists k, F !! x = Some k /\ bidx k = i /\ chunk_size h x = Some k /\ mn <= k <= E /\ 0 < x.
Proof using HS.
  intros Ho Hl El. pose proof (ok_st _ _ _ Ho) as Hst. destruct (proj1 (ls_elem _ _ _ _ _ Hl _ _ x El)) as (k & Hk & Hb); [by left|].
  exists k. destruct (st_free _ _ _ _ _ _ Hst _ _ Hk) as [Hm Hin]. pose proof (shape_C0 _ _ _ HS).
  destruct (tiled_hdr A E C0 _ _ _ _ _ (st_tiled _ _ _ _ _ _ Hst) Hin) as (lf & Hh & ? & ? & ?).
  destruct (read_hdr A E h x lf k false (st_heap _ _ _ _ _ _ Hst) Hh) as (? & _). split_and!; try done; lia.
Qed.

(** A chunk [c] of the lists, which is large enough, was taken out. *)
Definition taken (h h' : z_heap) (cs : list (Z * bool)) (F : gmap Z Z) (sz c : Z) : Prop :=
  exists k, F !! c = Some k /\ sz <= k /\ st h' cs (delete c F) /\ keeps (hp_mem h) (hp_mem h') cs F.

Lemma take_out_spec h cs F fl i x l sz :
  okF h cs F -> lists h F fl -> fl !! i = Some (x :: l) -> (forall k, F !! x = Some k -> bidx k = i -> sz <= k) ->
  exists h', free_list_remove_bidx h x (Z.of_nat i) = Some h' /\ taken h h' cs F sz x.
Proof using HS.
  intros Ho Hl El Hsz. pose proof (ok_st _ _ _ Ho) as Hst. destruct (list_chunk _ _ _ _ _ _ _ Ho Hl El) as (k & Hk & Hb & _ & _).
  destruct (st_free _ _ _ _ _ _ Hst _ _ Hk) as [Hm Hin].
  destruct (remove_bidx_spec A E C0 HS h F fl x k (st_heap _ _ _ _ _ _ Hst) Hl (st_spaced _ _ _ _ _ _ Hst) Hk) as (h' & fl' & w & E1 & Hh' & Hl' & Hp & Hw).
  rewrite Hb in E1. exists h'. split; [done|]. exists k. split_and!; [done|by apply Hsz| |].
  - split; [done|eapply touch_tiled; eauto; apply (st_tiled _ _ _ _ _ _ Hst) || apply (st_free _ _ _ _ _ _ Hst)|by exists fl'|].
    intros d k' [_ Hd]%lookup_delete_Some. by apply (st_free _ _ _ _ _ _ Hst).
  - eapply touch_keeps; eauto; [apply (t_size _ _ _ _ _ (st_tiled _ _ _ _ _ _ Hst))|apply (st_free _ _ _ _ _ _ Hst)].
Qed.

Lemma okF_turn h cs F fl' b :
  okF h cs F -> lists (with_buckets b h) F fl' -> okF (with_buckets b h) cs F.
Proof using. intros [[S1 S2 S3 S4] Hf Hc] Hl. split; [|done|done]. split; [done|done|by exists fl'|done]. Qed.

Lemma alloc_loop_eq i h sz bi first :
  alloc_loop (S i) h sz bi first =
    (c ← bucket_next h bi;
     s ← chunk_size h c;
     if s >=? sz then
       h ← free_list_remove_bidx h c bi;
       Some (h, Some c)
     else
       n ← next_free_chunk h c;
       h ← set_bucket_next h bi n;
       b ← bucket_next h bi;
       if negb (Nat.eqb i 0) && negb (b =? first) then alloc_loop i h sz bi first else Some (h, None)).
Proof using. done. Qed.

Lemma alloc_loop_spec n h cs F fl i x l sz first :
  okF h cs F -> lists h F fl -> fl !! i = Some (x :: l) ->
  exists h' r, alloc_loop (S n) h sz (Z.of_nat i) first = Some (h', r) /\
    match r with
    | None => okF h' cs F /\ hp_mem h' = hp_mem h /\ forall k, F !! x = Some k -> k < sz
    | Some c => taken h h' cs F sz c
    end.
Proof using HS.
  revert h fl x l. induction n as [|n IH]; intros h fl x l Ho Hl El;
    (destruct (list_chunk _ _ _ _ _ _ _ Ho Hl El) as (k & Hk & Hb & Hsz & _ & _));
    (destruct (turn_spec _ _ _ _ _ _ _ (ok_st _ _ _ Ho) Hl El) as (nx & E1 & E2 & E3 & Hl2));
    rewrite alloc_loop_eq, (bucket_next_lookup A E h F fl i (x :: l) Hl El); cbn [mbind option_bind hd]; rewrite Hsz; cbn [mbind option_bind];
    (destruct (Z.geb_spec k sz) as [Hge|Hlt];
     [destruct (take_out_spec _ _ _ _ _ _ _ sz Ho Hl El) as (h' & -> & Ht);
        [intros k' ? _; replace k' with k by congruence; done|exists h', (Some x); by split]|]);
    rewrite E1; cbn [mbind option_bind]; rewrite E2; cbn [mbind option_bind];
    (assert (El2 : <[i := l ++ [x]]> fl !! i = Some (l ++ [x])) by (apply list_lookup_insert_eq; by eapply lookup_lt_Some));
    rewrite (bucket_next_lookup A E _ F _ i _ Hl2 El2); cbn [mbind option_bind Nat.eqb negb andb];
    pose proof (okF_turn _ _ _ _ _ Ho Hl2) as Ho2.
  - eexists _, None. split_and!; [done|done|done|]. intros k' ?. by replace k' with k by congruence.
  - assert (Hx : forall k', F !! x = Some k' -> k' < sz) by (intros k' ?; by replace k' with k by congruence).
    destruct (hd 0 (l ++ [x]) =? first); cbn [negb]; [by eexists _, None|].
    destruct (l ++ [x]) as [|y r] eqn:Er; [by destruct l|].
    destruct (IH _ _ y r Ho2 Hl2 El2) as (h' & res & E4 & Hres). exists h', res. split; [exact E4|]. destruct res; [done|].
    by destruct Hres as (? & ? & _).
Qed.

Lemma bidx_mono k sz : sz <= k -> (bidx sz <= bidx k)%nat.
Proof using.
  clear HS. unfold HeapModel.bidx. intros Hle. assert (Z.log2 (sz - mn + 1) <= Z.log2 (k - mn + 1)) by (apply Z.log2_le_mono; lia). lia.
Qed.

Lemma bidx_log k sz : 1 <= mn -> mn <= sz -> (bidx sz < bidx k)%nat -> sz <= k.
Proof using.
  clear HS. intros Hm Hs Hlt. destruct (Z.le_gt_cases sz k) as [|Hg]; [done|].
  pose proof (bidx_mono sz k ltac:(lia)). lia.
Qed.

Lemma bidx_twice k sz : mn <= sz -> (bidx k <= bidx sz)%nat -> k - mn + 1 < 2 * (sz - mn + 1).
Proof using.
  clear HS. unfold HeapModel.bidx. intros Hs Hle. destruct (Z.le_gt_cases (k - mn + 1) 0); [lia|].
  pose proof (Z.log2_nonneg (k - mn + 1)). pose proof (Z.log2_nonneg (sz - mn + 1)).
  pose proof (Z.log2_spec (sz - mn + 1)). pose proof (Z.log2_spec (k - mn + 1)).
  assert (2 ^ Z.succ (Z.log2 (k - mn + 1)) <= 2 ^ Z.succ (Z.log2 (sz - mn + 1))) by (apply Z.pow_le_mono_r; lia).
  rewrite (Z.pow_succ_r 2 (Z.log2 (sz - mn + 1))) in * by lia. lia.
Qed.

(** No chunk in the lists is certain to be large enough: all have less than twice the size;
    and when there is only one, it is too small. *)
Definition refused (h h' : z_heap) (cs : list (Z * bool)) (F : gmap Z Z) (sz : Z) : Prop :=
  okF h' cs F /\ hp_mem h' = hp_mem h /\ (forall d k, F !! d = Some k -> k - mn + 1 < 2 * (sz - mn + 1)) /\
  forall d k, F !! d = Some k -> (forall d' k', F !! d' = Some k' -> d' = d) -> k < sz.

(** The lists above the [i]-th that are not empty. *)
Lemma mask_none h cs F fl i d k :
  okF h cs F -> lists h F fl -> Z.land (avail_buckets h) (Z.lnot (BIT (Z.of_nat i + 1) - 1)) = 0 -> F !! d = Some k -> (bidx k <= i)%nat.
Proof using HS.
  intros Ho Hl Emask Hk. destruct (Nat.le_gt_cases (bidx k) i) as [|Hg]; [done|]. exfalso.
  apply (f_equal (fun z => Z.testbit z (Z.of_nat (bidx k)))) in Emask. rewrite bucket_mask, Z.bits_0 in Emask by lia.
  rewrite (proj2 (Z.leb_le _ _)), andb_true_r in Emask by lia.
  pose proof (sp_in _ _ _ (st_spaced _ _ _ _ _ _ (ok_st _ _ _ Ho)) _ _ Hk) as Bk. pose proof (shape_C0 _ _ _ HS).
  destruct (lookup_lt_is_Some_2 fl (bidx k)) as [l El]; [rewrite (proj2 (ls_len _ _ _ _ _ Hl)); apply bidx_lt; lia|].
  rewrite (ls_bit _ _ _ _ _ Hl _ _ El) in Emask. apply negb_false_iff, bool_decide_eq_true in Emask. subst l.
  apply (not_elem_of_nil d), (ls_elem _ _ _ _ _ Hl _ _ _ El). by exists k.
Qed.

Lemma mask_some h F fl i p :
  lists h F fl -> Z.land (avail_buckets h) (Z.lnot (BIT (Z.of_nat i + 1) - 1)) = Zpos p ->
  exists j x l, ctz p = Z.of_nat j /\ (i < j)%nat /\ fl !! j = Some (x :: l).
Proof using.
  intros Hl Emask. destruct (ctz_testbit p) as [C1 C2]. rewrite <- Emask, bucket_mask in C2 by lia. apply andb_true_iff in C2 as [C2 C3%Z.leb_le].
  exists (Z.to_nat (ctz p)). set (j := Z.to_nat (ctz p)). assert (Ej : ctz p = Z.of_nat j) by lia. rewrite Ej in *.
  destruct (Nat.le_gt_cases (nb E) j) as [Hj|Hj]; [by rewrite (ls_bits _ _ _ _ _ Hl) in C2|].
  destruct (lookup_lt_is_Some_2 fl j) as [l El]; [by rewrite (proj2 (ls_len _ _ _ _ _ Hl))|].
  rewrite (ls_bit _ _ _ _ _ Hl _ _ El) in C2. destruct l as [|x l]; [done|]. exists x, l. split_and!; [done|lia|done].
Qed.

(** The search in the list of the size itself. *)
Lemma first_list h cs F fl sz l :
  okF h cs F -> lists h F fl -> fl !! bidx sz = Some l -> alloc_loops <> O ->
  exists h1 r, (if negb (hd 0 l =? 0) then alloc_loop alloc_loops h sz (Z.of_nat (bidx sz)) (hd 0 l) else Some (h, None)) = Some (h1, r) /\
    match r with
    | None => okF h1 cs F /\ hp_mem h1 = hp_mem h /\ forall x k, x ∈ take 1 l -> F !! x = Some k -> k < sz
    | Some c => taken h h1 cs F sz c
    end.
Proof using HS.
  intros Ho Hl El Hloops. destruct l as [|x l]; [exists h, None; split_and!; try done; by intros ? ? ?%elem_of_nil|]. cbn [hd].
  destruct (list_chunk _ _ _ _ _ _ _ Ho Hl El) as (_ & _ & _ & _ & _ & Hx).
  rewrite (proj2 (Z.eqb_neq x 0)) by lia. cbn [negb]. destruct alloc_loops as [|n]; [done|].
  destruct (alloc_loop_spec n h cs F fl _ x l sz x Ho Hl El) as (h' & r & E1 & Hr). exists h', r. split; [done|]. destruct r; [done|].
  destruct Hr as (? & ? & Hx'). split_and!; try done. intros y k. cbn. rewrite list_elem_of_singleton. intros ->. apply Hx'.
Qed.

Lemma alloc_chunk_spec h cs F sz :
  okF h cs F -> alloc_loops <> O -> mn <= sz <= E ->
  exists h' c, alloc_chunk h sz = Some (h', c) /\ (c = 0 /\ refused h h' cs F sz \/ 0 < c /\ taken h h' cs F sz c).
Proof using HS.
  intros Ho Hloops Hsz. pose proof (st_heap _ _ _ _ _ _ (ok_st _ _ _ Ho)) as Hh. pose proof (shape_E _ _ _ HS). pose proof (lim_32 E).
  destruct (st_lists _ _ _ _ _ _ (ok_st _ _ _ Ho)) as [fl Hl]. unfold alloc_chunk. rewrite (bucket_idx_exact A E) by (done || lia).
  cbn [mbind option_bind]. assert (Hi : (bidx sz < nb E)%nat) by (apply bidx_lt; lia).
  destruct (lookup_lt_is_Some_2 fl (bidx sz)) as [l El]; [by rewrite (proj2 (ls_len _ _ _ _ _ Hl))|].
  rewrite (bucket_next_lookup A E h F fl _ l Hl El). cbn [mbind option_bind].
  destruct (first_list _ _ _ _ _ _ Ho Hl El Hloops) as (h1 & r & -> & Hr). cbn [mbind option_bind]. destruct r as [c|].
  { exists h1, c. split; [done|]. right. split; [|done]. destruct Hr as (k & Hk & _). pose proof (shape_C0 _ _ _ HS).
    apply (sp_in _ _ _ (st_spaced _ _ _ _ _ _ (ok_st _ _ _ Ho))) in Hk. lia. }
  destruct Hr as (Ho1 & Em & Hfirst). pose proof (fun d => ls_elem _ _ _ _ _ Hl _ _ d El) as Hel.
  destruct (st_lists _ _ _ _ _ _ (ok_st _ _ _ Ho1)) as [fl1 Hl1]. pose proof (mn_pos E) as Hmn.
  destruct (Z.land (avail_buckets h1) _) as [|p|p] eqn:Emask.
  - pose proof (fun d k => mask_none _ _ _ _ _ d k Ho1 Hl1 Emask) as Hle. exists h1, 0. split; [done|]. left. split; [done|].
    split_and!; [done|done|intros d k Hk; apply bidx_twice; [lia|by eapply Hle]|]. intros d k Hk Hone. destruct (Z.le_gt_cases sz k) as [Hge|]; [|done].
    assert (Hb : bidx k = bidx sz) by (specialize (Hle _ _ Hk); assert (bidx sz <= bidx k)%nat by (by apply bidx_mono); lia).
    apply (Hfirst d); [|done]. assert (Hd : d ∈ l) by (apply Hel; by exists k).
    destruct l as [|x l]; [by apply elem_of_nil in Hd|]. cbn. apply list_elem_of_singleton.
    destruct (proj1 (Hel x)) as (k' & Hk' & _); [by left|]. symmetry. by eapply Hone.
  - destruct (mask_some _ _ _ _ _ Hl1 Emask) as (j & x & l' & -> & Hj & El').
    rewrite (bucket_next_lookup A E h1 F fl1 _ _ Hl1 El'). cbn [mbind option_bind hd].
    destruct (take_out_spec _ _ _ _ _ _ _ sz Ho1 Hl1 El') as (h2 & -> & Ht); [intros k Hk Hb; apply bidx_log; lia|].
    cbn [mbind option_bind]. exists h2, x. split; [done|]. right. destruct (list_chunk _ _ _ _ _ _ _ Ho1 Hl1 El') as (_ & _ & _ & _ & _ & Hx).
    split; [done|]. destruct Ht as (k & ? & ? & ? & Hkp). exists k. split_and!; try done. by rewrite <- Em.
  - exfalso. assert (0 <= Zneg p); [|lia]. rewrite <- Emask. apply Z.land_nonneg. left. apply (ls_avail _ _ _ _ _ Hl1).
Qed.
End Alloc.
