(* ===== verification/HeapSpec.v ===== *)
(** * The chunk heap: blocks in use

    What the public functions of heap.c promise, in terms of the blocks that are in use:
    [heap_rep C0 cs h L] relates a heap with the blocks in [L], which maps the address of a
    block to the bytes that can be used. *)

From S2P Require Import Prelude KState KLogic MemOps SysHeap HeapModel HeapOps HeapAlloc.

Local Open Scope Z_scope.

Section Carve.
Context `{HeapConfig} (A E C0 : Z) (HS : shape A E C0).

Abbreviation mn := (mn E).
Abbreviation hb := (hb E).
Abbreviation st := (st A E C0).
Abbreviation kept := (kept A E).
Abbreviation ok := (ok A E C0).
Abbreviation okF := (okF A E C0).
Abbreviation almost := (almost A E C0).
Abbreviation isheap := (isheap A E).
Abbreviation places := (places C0).
Abbreviation ukeeps := (ukeeps A E C0).
Abbreviation used_same := (used_same C0).
Existing Instance used_same_equiv.
Existing Instance ukeeps_proper.

(** ** Cutting a chunk out of a free one *)

Definition rest (r : Z) : list (Z * bool) := if decide (r = 0) then [] else [(r, false)].

(** The used chunk [(c, n)] is added. *)
Definition used_plus (cs cs' : list (Z * bool)) (c n : Z) : Prop :=
  forall d k, (d, k, true) ∈ places cs' <-> (d, k, true) ∈ places cs \/ d = c /\ k = n.

Lemma used_replace pre s u mid post n :
  total ((n, true) :: mid) = s -> u = false -> Forall (fun x => snd x = false) mid ->
  used_plus (pre ++ (s, u) :: post) (pre ++ (n, true) :: mid ++ post) (C0 + total pre) n.
Proof using.
  intros Et -> Hm d k. rewrite !places_app. cbn [HeapModel.places]. rewrite !places_app. rewrite !elem_of_app, !elem_of_cons, elem_of_app.
  replace (C0 + total pre + n + total mid) with (C0 + total pre + s) by (cbn in Et; fold (total mid) in Et; lia).
  pose proof (no_used (C0 + total pre + n) mid d k Hm) as G.
  split.
  - intros [?|[[= -> ->]|[?|?]]]; tauto.
  - intros [[?|[?|?]]|[-> ->]]; tauto || done.
Qed.

Lemma almost_bounds h pre k post F :
  almost h pre k post F -> 1 <= k /\ 0 <= total pre /\ C0 + total pre + k <= E.
Proof using. intros Hal. by apply (t_bounds A E C0 (hp_mem h) pre post k false), (st_tiled _ _ _ _ _ _ (al_st _ _ _ _ _ _ _ _ Hal)). Qed.

Lemma coal_rest pre n r post : coal true pre -> coal false post -> coal true (pre ++ (n, true) :: rest r ++ post).
Proof using.
  intros Hp Hq. apply coal_app. split; [done|]. cbn. split; [by right|]. unfold rest. case_decide; cbn; [|tauto].
  destruct post as [|[s u] post]; [done|]. cbn in *. tauto.
Qed.

Lemma almost_elem h pre k post F d k' :
  almost h pre k post F -> mn <= k' ->
  (d, k', false) ∈ places pre \/ (d, k', false) ∈ HeapModel.places (C0 + total pre + k) post -> F !! d = Some k' /\ d <> C0 + total pre.
Proof using.
  intros [Hst Hc Hf] Hk Hd. pose proof (t_size _ _ _ _ _ (st_tiled _ _ _ _ _ _ Hst)) as Hs. apply sized_app in Hs as [S1 [Hk0 S2]%Forall_cons_1].
  cbn in Hk0. assert (Hne : d <> C0 + total pre) by (destruct Hd as [Hd|Hd]; apply places_bound in Hd; done || lia).
  split; [|done]. apply Hf; [done| |done]. rewrite places_app, elem_of_app. cbn [HeapModel.places]. rewrite elem_of_cons. tauto.
Qed.

Lemma inside_none h pre k post F j : almost h pre k post F -> 0 < j < k -> F !! (C0 + total pre + j) = None.
Proof using.
  intros [Hst _ _] Hj. destruct (F !! _) as [k'|] eqn:Ek; [|done]. exfalso. destruct (st_free _ _ _ _ _ _ Hst _ _ Ek) as [_ Hin].
  pose proof (t_size _ _ _ _ _ (st_tiled _ _ _ _ _ _ Hst)) as Hs. pose proof (places_bound _ _ _ _ _ Hs Hin).
  destruct (places_apart _ _ _ _ _ _ _ _ Hs Hin (places_mid C0 pre k false post)); lia.
Qed.

(** The rest of a chunk is split off and put into a list. *)
Lemma cut_tail h pre k post F n :
  almost h pre k post F -> 0 < n <= k -> let c := C0 + total pre in
  exists h' F', (if k >? n then h ← split_chunks h c (c + n); free_list_add h (c + n) else Some h) = Some h' /\
    almost h' pre n (rest (k - n) ++ post) F' /\ used_same (pre ++ (k, false) :: post) (pre ++ (n, false) :: rest (k - n) ++ post) /\
    ukeeps (hp_mem h) (hp_mem h') (pre ++ (k, false) :: post).
Proof using HS.
  intros Hal Hn c. destruct (Z.gtb_spec k n) as [Hgt|Hle].
  2:{ replace k with n in * by lia. exists h, F. rewrite Z.sub_diag. by split_and!. }
  unfold rest. rewrite decide_False by lia. cbn [app].
  pose proof (inside_none _ _ _ _ _ n Hal ltac:(lia)) as HFr. fold c in HFr. pose proof (al_c _ _ _ _ _ _ _ _ Hal) as Hc. fold c in Hc.
  destruct (split_chunks_spec A E C0 HS h pre post F k false c n (al_st _ _ _ _ _ _ _ _ Hal)) as (h1 & E1 & Hst1 & K1); [done|done|lia|].
  rewrite E1. cbn [mbind option_bind].
  assert (Hr : (c + n, k - n, false) ∈ places (pre ++ (n, false) :: (k - n, false) :: post)).
  { rewrite places_app. cbn [HeapModel.places]. apply elem_of_app. right. right. left. }
  destruct (free_list_add_spec A E C0 HS h1 _ F (c + n) (k - n) Hst1 Hr HFr) as (h2 & E2 & Hst2 & K2).
  assert (U : used_same (pre ++ (k, false) :: post) (pre ++ (n, false) :: (k - n, false) :: post)).
  { apply (used_mid C0 pre [(k, false)] [(n, false); (k - n, false)]); [cbn; lia|by repeat constructor|by repeat constructor]. }
  exists h2, (addF E (c + n) (k - n) F). split_and!; [done| |done|].
  - split; [done| |].
    + destruct (addF E (c + n) (k - n) F !! (C0 + total pre)) as [k'|] eqn:Ek; [|done]. fold c in Ek. apply addF_Some in Ek as [?|?]; [lia|congruence].
    + intros d k' Hk' Hd Hne. rewrite places_app, elem_of_app in Hd. cbn [HeapModel.places app] in Hd. rewrite !elem_of_cons in Hd. fold c in Hd, Hne.
      replace (c + n + (k - n)) with (c + k) in Hd by lia. unfold addF. destruct (decide (d = c + n)) as [->|Hne'].
      * destruct Hd as [Hd|[[= ? ?]|[[= ->]|Hd]]]; [|lia|rewrite decide_True by done; apply lookup_insert_eq|];
          destruct (almost_elem _ _ _ _ _ (c + n) k' Hal Hk') as [? _]; tauto || congruence.
      * assert (F !! d = Some k').
        { destruct Hd as [Hd|[[= ? ?]|[[= ? ?]|Hd]]]; try done; eapply almost_elem; eauto. }
        case_decide; [|done]. by rewrite lookup_insert_ne.
  - apply (ukeeps_trans _ _ _ _ (hp_mem h1)); rewrite U; [by apply keeps_empty|by eapply keeps_used].
Qed.

(** A chunk that is not in the lists is marked used. *)
Lemma almost_used h pre n post F :
  almost h pre n post F -> coal true (pre ++ (n, true) :: post) ->
  exists h', set_chunk_used h (C0 + total pre) true = Some h' /\ ok h' (pre ++ (n, true) :: post) /\
    HeapOps.keeps A E C0 (hp_mem h) (hp_mem h') (pre ++ (n, false) :: post) ∅.
Proof using HS.
  intros Hal Hco. destruct (set_used_spec A E C0 HS h pre post F n false true (C0 + total pre) (al_st _ _ _ _ _ _ _ _ Hal)) as (h' & E1 & Hst' & K);
    [done|apply (al_c _ _ _ _ _ _ _ _ Hal)|]. exists h'. split_and!; try done. exists F. split; [done| |done].
  intros d k Hk Hd. rewrite places_app, elem_of_app in Hd. cbn [HeapModel.places] in Hd. rewrite elem_of_cons in Hd.
  destruct Hd as [Hd|[[=]|Hd]]; eapply almost_elem; eauto.
Qed.

Lemma carve_spec h pre k post F n :
  almost h pre k post F -> coal true pre -> coal false post -> 0 < n <= k -> let c := C0 + total pre in
  exists h1 h', (if k >? n then h ← split_chunks h c (c + n); free_list_add h (c + n) else Some h) = Some h1 /\
    set_chunk_used h1 c true = Some h' /\ ok h' (pre ++ (n, true) :: rest (k - n) ++ post) /\
    used_plus (pre ++ (k, false) :: post) (pre ++ (n, true) :: rest (k - n) ++ post) c n /\
    ukeeps (hp_mem h) (hp_mem h') (pre ++ (k, false) :: post).
Proof using HS.
  intros Hal Hp Hq Hn c. destruct (cut_tail _ _ _ _ _ n Hal Hn) as (h1 & F1 & E1 & Hal1 & U & K1).
  destruct (almost_used _ _ _ _ _ Hal1) as (h' & E2 & Hok & K2); [by apply coal_rest|].
  exists h1, h'. split_and!; try done.
  - apply used_replace; [|done|unfold rest; case_decide; by repeat constructor]. unfold rest. case_decide; cbn; lia.
  - apply (ukeeps_trans _ _ _ _ (hp_mem h1)); [done|]. rewrite U. by apply keeps_empty.
Qed.

Lemma prefix_spec h pre k post F j :
  almost h pre k post F -> 0 < j < k -> let c := C0 + total pre in
  exists h1 h', split_chunks h c (c + j) = Some h1 /\ free_list_add h1 c = Some h' /\
    almost h' (pre ++ [(j, false)]) (k - j) post (addF E c j F) /\
    used_same (pre ++ (k, false) :: post) ((pre ++ [(j, false)]) ++ (k - j, false) :: post) /\
    ukeeps (hp_mem h) (hp_mem h') (pre ++ (k, false) :: post).
Proof using HS.
  intros Hal Hj c. pose proof (al_st _ _ _ _ _ _ _ _ Hal) as Hst. pose proof (al_c _ _ _ _ _ _ _ _ Hal) as Hc. fold c in Hc.
  rewrite app_cons_assoc.
  destruct (split_chunks_spec A E C0 HS h pre post F k false c j Hst) as (h1 & E1 & Hst1 & K1); [done|done|lia|].
  destruct (free_list_add_spec A E C0 HS h1 _ F c j Hst1) as (h2 & E2 & Hst2 & K2); [apply places_mid|done|].
  assert (U : used_same (pre ++ (k, false) :: post) (pre ++ (j, false) :: (k - j, false) :: post)).
  { apply (used_mid C0 pre [(k, false)] [(j, false); (k - j, false)]); [cbn; lia|by repeat constructor|by repeat constructor]. }
  assert (Et : C0 + total (pre ++ [(j, false)]) = c + j) by (rewrite total_app; cbn; lia).
  exists h1, h2. split_and!; [done|done| |done|].
  - split; [by rewrite app_cons_assoc| |].
    + rewrite Et. destruct (addF E c j F !! (c + j)) as [k'|] eqn:Ek; [|done]. exfalso. apply addF_Some in Ek as [?|Ek]; [lia|].
      pose proof (inside_none _ _ _ _ _ j Hal Hj) as Hi. fold c in Hi. congruence.
    + rewrite app_cons_assoc, Et. intros d k' Hk' Hd Hne. rewrite places_app, elem_of_app in Hd. cbn [HeapModel.places] in Hd.
      rewrite !elem_of_cons in Hd. fold c in Hd. replace (c + j + (k - j)) with (c + k) in Hd by lia. unfold addF.
      destruct (decide (d = c)) as [->|Hdc].
      * destruct Hd as [Hd|[[= ->]|[[= ? ?]|Hd]]]; [|rewrite decide_True by done; apply lookup_insert_eq|lia|];
          destruct (almost_elem _ _ _ _ _ c k' Hal Hk') as [_ ?]; done || tauto.
      * assert (F !! d = Some k') by (destruct Hd as [Hd|[[= ? ?]|[[= ? ?]|Hd]]]; try done; eapply almost_elem; eauto).
        case_decide; [|done]. by rewrite lookup_insert_ne.
  - apply (ukeeps_trans _ _ _ _ (hp_mem h1)); rewrite U; [by apply keeps_empty|by eapply keeps_used].
Qed.

Lemma taken_almost h h' cs F sz c :
  okF h cs F -> taken A E C0 h h' cs F sz c ->
  exists pre k post, cs = pre ++ (k, false) :: post /\ c = C0 + total pre /\ sz <= k /\ almost h' pre k post (delete c F) /\
    coal true pre /\ coal false post /\ ukeeps (hp_mem h) (hp_mem h') cs.
Proof using.
  intros [Hst Hf Hco] (k & Hk & Hsz & Hst' & K). destruct (st_free _ _ _ _ _ _ Hst _ _ Hk) as [Hm Hin].
  apply places_split in Hin as (pre & post & -> & ->). apply coal_app in Hco as [Hc1 Hc2]. cbn in Hc2.
  exists pre, k, post. split_and!; try done; [|tauto|by apply (keeps_used _ _ _ h _ F)]. split; [done|apply lookup_delete_eq|].
  intros d k' Hk' Hd Hne. rewrite lookup_delete_ne by done. by apply Hf.
Qed.

(** ** Blocks *)

Definition in_chunk (p c : Z) : Prop := A + 8 * c + hb <= p < A + 8 * c + hb + 8.

(** Every block fills a used chunk to its end, from an address in the first unit. *)
Record blocks (cs : list (Z * bool)) (L : gmap Z Z) : Prop := mkBlocks {
  bl_sound : forall p n, L !! p = Some n -> exists c s, (c, s, true) ∈ places cs /\ in_chunk p c /\ p + n = A + 8 * (c + s) /\ 0 < n;
  bl_full : forall c s, (c, s, true) ∈ places cs -> exists p n, L !! p = Some n /\ in_chunk p c;
  bl_one : forall p p' n n' c, L !! p = Some n -> L !! p' = Some n' -> in_chunk p c -> in_chunk p' c -> p = p'
}.

Definition agree (m m' : gmap Z Z) (p n : Z) : Prop := forall q, p <= q < p + n -> m' !! q = m !! q.

Lemma blocks_kept m m' cs L p n : blocks cs L -> ukeeps m m' cs -> L !! p = Some n -> agree m m' p n.
Proof using.
  intros HB K Hp q Hq. destruct (bl_sound _ _ HB _ _ Hp) as (c & s & Hc & Hi & He & _). apply (K c s Hc). unfold in_chunk in Hi. lia.
Qed.

Lemma in_chunk_id h p c : isheap h -> in_chunk p c -> mem_to_chunkid h p = c.
Proof using.
  intros Hh Hp. unfold mem_to_chunkid, CHUNK_UNIT. rewrite (header_bytes A E) by done. destruct Hh as [-> _].
  unfold in_chunk in Hp. symmetry. apply (Z.div_unique _ _ _ (p - hb - A - 8 * c)); lia.
Qed.

Lemma in_chunk_eq p c c' : in_chunk p c -> in_chunk p c' -> c = c'.
Proof using. unfold in_chunk. lia. Qed.

Lemma blocks_same cs cs' L : used_same cs cs' -> blocks cs L -> blocks cs' L.
Proof using.
  intros U [B1 B2 B3]. split; [|intros c s Hc; apply (B2 c s); by apply U|done].
  intros p n Hp. destruct (B1 p n Hp) as (c & s & Hc & ?). exists c, s. split; [by apply U|done].
Qed.

Lemma blocks_add cs cs' L p m c n :
  blocks cs L -> used_plus cs cs' c n -> (forall s, (c, s, true) ∉ places cs) -> in_chunk p c -> p + m = A + 8 * (c + n) -> 0 < m ->
  blocks cs' (<[p := m]> L) /\ L !! p = None.
Proof using.
  intros [B1 B2 B3] U Hn Hp Hm H0.
  assert (Hnew : forall q k, L !! q = Some k -> ~ in_chunk q c).
  { intros q k Hq Hqc. destruct (B1 _ _ Hq) as (c' & s & Hc' & Hi & _). apply (Hn s). by rewrite (in_chunk_eq q c c'). }
  assert (HLp : L !! p = None) by (destruct (L !! p) eqn:Ep; [by apply Hnew in Ep|done]).
  split; [|done]. split.
  - intros q k [[<- <-]|[Hne Hq]]%lookup_insert_Some; [exists c, n; split; [apply U; by right|done]|].
    destruct (B1 _ _ Hq) as (c' & s & Hc' & Hi). exists c', s. split; [|done]. apply U. by left.
  - intros c' s Hc'. apply U in Hc' as [Hc'|[-> ->]]; [|exists p, m; by rewrite lookup_insert_eq].
    destruct (B2 _ _ Hc') as (q & k & Hq & Hi). exists q, k. split; [|done]. rewrite lookup_insert_ne; [done|]. intros ->. congruence.
  - intros q q' k k' d [[<- <-]|[_ Hq]]%lookup_insert_Some [[<- <-]|[_ Hq']]%lookup_insert_Some Hd Hd'; [done| | |by eapply B3].
    + exfalso. apply (Hnew _ _ Hq'). by rewrite (in_chunk_eq p c d).
    + exfalso. apply (Hnew _ _ Hq). by rewrite (in_chunk_eq p c d).
Qed.

Lemma blocks_delete cs cs' L p n c s :
  blocks cs L -> sized cs -> L !! p = Some n -> in_chunk p c ->
  (forall d k, (d, k, true) ∈ places cs' <-> (d, k, true) ∈ places cs /\ d <> c) -> (c, s, true) ∈ places cs -> blocks cs' (delete p L).
Proof using.
  intros [B1 B2 B3] Hs Hp Hpc U Hc. split.
  - intros q k [Hne Hq]%lookup_delete_Some. destruct (B1 _ _ Hq) as (d & s' & Hd & Hi & Hrest). exists d, s'. split; [|done].
    apply U. split; [done|]. intros ->. apply Hne. by eapply B3.
  - intros d k [Hd Hne]%U. destruct (B2 _ _ Hd) as (q & m & Hq & Hi). exists q, m. split; [|done].
    rewrite lookup_delete_ne; [done|]. intros ->. apply Hne. by eapply in_chunk_eq.
  - intros q q' k k' d [_ Hq]%lookup_delete_Some [_ Hq']%lookup_delete_Some. by apply (B3 q q' k k').
Qed.

Definition rep (h : z_heap) (cs : list (Z * bool)) (L : gmap Z Z) : Prop := ok h cs /\ blocks cs L.

(** ** Allocation *)

(** No free chunk has twice the units that are needed; and if the heap is one free chunk,
    it has not enough. *)
Definition too_small (cs : list (Z * bool)) (need : Z) : Prop :=
  (forall s, (s, false) ∈ cs -> s - mn + 1 < 2 * (need - mn + 1)) /\ (forall s, cs = [(s, false)] -> s < need).

Lemma places_of pos cs s u : (s, u) ∈ cs -> exists c, (c, s, u) ∈ HeapModel.places pos cs.
Proof using.
  intros (pre & post & ->)%list_elem_of_split. exists (pos + total pre). apply places_mid.
Qed.

Lemma refused_small h h' cs F sz : okF h cs F -> refused A E C0 h h' cs F sz -> mn <= sz -> too_small cs sz.
Proof using.
  intros [Hst Hf _] (_ & _ & H1 & H2) Hm. split.
  - intros s (c & Hc)%(places_of C0). destruct (Z.le_gt_cases mn s); [|lia]. apply (H1 c). by apply Hf.
  - intros s ->. destruct (Z.le_gt_cases mn s) as [Hs|]; [|lia].
    assert (HF : F !! C0 = Some s) by (apply Hf; [done|by left]). apply (H2 C0 s HF).
    intros d k Hd. destruct (st_free _ _ _ _ _ _ Hst _ _ Hd) as [_ Hin]. cbn in Hin. apply list_elem_of_singleton in Hin. by injection Hin.
Qed.

(** What an allocation leaves: the blocks are as they were; the request is refused, or
    there is a new block. *)
Definition alloc_result (h h' : z_heap) (cs : list (Z * bool)) (L : gmap Z Z) (need bytes p : Z) (good : Prop) : Prop :=
  isheap h' /\ (forall q n, L !! q = Some n -> agree (hp_mem h) (hp_mem h') q n) /\
  (p = 0 /\ rep h' cs L /\ (bytes = 0 \/ size_too_big h bytes = true \/ too_small cs need) \/
   0 < p /\ exists cs' n, rep h' cs' (<[p := n]> L) /\ L !! p = None /\ bytes <= n /\ good).

Lemma rep_heap h cs L : rep h cs L -> isheap h.
Proof using. intros [(F & Ho) _]. apply (st_heap _ _ _ _ _ _ (ok_st _ _ _ _ _ _ Ho)). Qed.

Lemma chunk_mem_exact h c : isheap h -> chunk_mem h c = A + 8 * c + hb.
Proof using. intros Hh. unfold chunk_mem, CHUNK_UNIT. rewrite (header_bytes A E) by done. destruct Hh as [-> _]. lia. Qed.

Lemma hb_pos : 4 <= hb <= 8 /\ (8 * mn = 8 + hb - 1 + 1 \/ 8 * mn = 8).
Proof using. unfold HeapModel.hb, HeapModel.mn. destruct big; lia. Qed.

Lemma free_unused h pre k post F s : almost h pre k post F -> (C0 + total pre, s, true) ∉ places (pre ++ (k, false) :: post).
Proof using.
  intros Hal Hin. pose proof (al_st _ _ _ _ _ _ _ _ Hal) as Hst. pose proof (t_size _ _ _ _ _ (st_tiled _ _ _ _ _ _ Hst)) as Hs.
  pose proof (places_mid C0 pre k false post) as Hm. pose proof (places_bound _ _ _ _ _ Hs Hin). pose proof (places_bound _ _ _ _ _ Hs Hm).
  destruct (places_apart _ _ _ _ _ _ _ _ Hs Hin Hm) as [(_ & _ & ?)|?]; [done|lia].
Qed.

Definition units (bytes : Z) : Z := (hb + bytes + 7) / 8.

Lemma units_spec bytes : 0 < bytes -> 8 * (units bytes - 1) < hb + bytes <= 8 * units bytes /\ mn <= units bytes.
Proof using.
  clear HS. intros Hb. unfold units. assert (G : 8 * ((hb + bytes + 7) / 8 - 1) < hb + bytes <= 8 * ((hb + bytes + 7) / 8))
    by (Z.to_euclidean_division_equations; lia).
  split; [done|]. unfold HeapModel.hb, HeapModel.mn in *. destruct big; lia.
Qed.

Theorem sys_heap_alloc_spec h cs L bytes :
  rep h cs L -> alloc_loops <> O -> 0 <= bytes < 2 ^ 32 -> size_too_big h bytes = true \/ hb + bytes <= 8 * E ->
  exists h' p, sys_heap_alloc h bytes = Some (h', p) /\ alloc_result h h' cs L (units bytes) bytes p (p mod hb = 0).
Proof using HS.
  intros Hrep Hloops Hb Hfit. pose proof (rep_heap _ _ _ Hrep) as Hh. destruct Hrep as [(F & Ho) HB].
  pose proof (shape_C0 _ _ _ HS) as HC. pose proof (shape_A _ _ _ HS) as [HA HA8]. pose proof (shape_end _ _ _ HS) as Hend. pose proof hb_pos as Hhb.
  unfold sys_heap_alloc. destruct (Z.eqb_spec bytes 0) as [->|Hb0]; cbn [orb].
  { exists h, 0. split; [done|]. split; [done|]. split; [done|]. left. split; [done|]. split; [by split; [exists F|]|by left]. }
  destruct (size_too_big h bytes) eqn:Hbig.
  { exists h, 0. split; [done|]. split; [done|]. split; [done|]. left. split; [done|]. split; [by split; [exists F|]|by right; left]. }
  destruct Hfit as [?|Hfit]; [done|]. rewrite (bytes_to_chunksz_exact A E) by (done || lia). fold (units bytes).
  pose proof (units_spec bytes ltac:(lia)) as [Hu Hm].
  destruct (alloc_chunk_spec A E C0 HS h cs F (units bytes) Ho Hloops) as (h1 & c & -> & Hres); [lia|]. cbn [mbind option_bind].
  destruct Hres as [[-> Href]|[Hc Htk]]; cbn [Z.eqb].
  { exists h1, 0. split; [done|]. pose proof (refused_small _ _ _ _ _ Ho Href ltac:(lia)) as Hsm. destruct Href as (Ho1 & Em & _).
    split; [apply (st_heap _ _ _ _ _ _ (ok_st _ _ _ _ _ _ Ho1))|]. split; [intros q n Hq; by rewrite Em|].
    left. split; [done|]. split; [by split; [exists F|]|by right; right]. }
  rewrite (proj2 (Z.eqb_neq c 0)) by lia.
  destruct (taken_almost _ _ _ _ _ _ Ho Htk) as (pre & k & post & -> & -> & Hk & Hal & Hp & Hq & K1).
  destruct (read_mid A E C0 HS h1 pre k false post _ (al_st _ _ _ _ _ _ _ _ Hal)) as (-> & _). cbn [mbind option_bind].
  destruct (carve_spec _ _ _ _ _ (units bytes) Hal Hp Hq) as (h2 & h3 & -> & E3 & Hok & U & K2); [lia|]. cbn [mbind option_bind].
  rewrite E3. cbn [mbind option_bind].
  assert (Hh3 : isheap h3) by (destruct Hok as (F3 & Ho3); apply (st_heap _ _ _ _ _ _ (ok_st _ _ _ _ _ _ Ho3))).
  rewrite (chunk_mem_exact h3) by done. set (c := C0 + total pre) in *.
  destruct (blocks_add _ _ L (A + 8 * c + hb) (8 * units bytes - hb) c (units bytes) HB U) as [HB' HL].
  { intros s. by apply (free_unused _ _ _ _ _ s Hal). } { unfold in_chunk. lia. } { lia. } { lia. }
  exists h3, (A + 8 * c + hb). split; [done|]. split; [done|]. split.
  { intros q n Hq'. eapply blocks_kept; [exact HB| |exact Hq']. by apply (ukeeps_trans _ _ _ _ (hp_mem h1)). }
  right. split; [lia|]. eexists _, (8 * units bytes - hb). split; [by split|]. split; [done|]. split; [lia|].
  clear -HA8. apply Z.mod_divide; [unfold HeapModel.hb; destruct big; lia|]. apply Z.mod_divide in HA8; [|lia].
  apply Z.divide_add_r; [apply Z.divide_add_r|apply Z.divide_refl].
  - apply (Z.divide_trans _ 8); [unfold HeapModel.hb; destruct big; [apply Z.divide_refl|by exists 2]|done].
  - apply Z.divide_mul_l. unfold HeapModel.hb. destruct big; [apply Z.divide_refl|by exists 2].
Qed.

(** ** Writing to a block *)

(** A change of the memory that keeps the headers and the links. *)
Lemma st_ext h cs F m' :
  st h cs F -> (forall q, is_Some (m' !! q) <-> is_Some (hp_mem h !! q)) ->
  (forall c t, 0 <= t < 2 -> c = 0 \/ bnd C0 cs c -> wd A E m' (slot E c t) = wd A E (hp_mem h) (slot E c t)) ->
  (forall c s t, F !! c = Some s -> 2 <= t < 4 -> wd A E m' (slot E c t) = wd A E (hp_mem h) (slot E c t)) ->
  st (with_mem m' h) cs F.
Proof using.
  intros [Hh [T1 T2 T3 T4 T5] [fl [L1 L2 L3 L4 L5 L6 L7]] Hf] Hd Hw1 Hw2. split; [done| | |done].
  - split; [| |done|done|intros q Hq; apply Hd; by apply T5].
    + cbn in *. rewrite !Hw1; tauto || lia.
    + apply Forall_forall. intros [[[c l] s] u] Hx. rewrite Forall_forall in T2. specialize (T2 _ Hx). cbn in *.
      rewrite !Hw1; try lia; try tauto; right; by eexists.
  - exists fl. split; try done. intros i l El. destruct (L4 i l El) as [N R]. split; [done|]. apply (ring_ext _ _ _ _ _ R).
    intros x Hx. apply (L5 _ _ _ El) in Hx as (s & Hs & _). split; apply (Hw2 x s); done || lia.
Qed.

(** The user of a block cannot damage the heap or other blocks. *)
Lemma user_write h cs L p n m' :
  rep h cs L -> L !! p = Some n -> (forall q, is_Some (m' !! q) <-> is_Some (hp_mem h !! q)) ->
  (forall q, ~ p <= q < p + n -> m' !! q = hp_mem h !! q) -> rep (with_mem m' h) cs L.
Proof using HS.
  intros [(F & [Hst Hf Hco]) HB] Hp Hd Hm. split; [|done]. exists F. split; [|done|done].
  destruct (bl_sound _ _ HB _ _ Hp) as (c & s & Hc & Hi & He & Hn). unfold in_chunk in Hi. pose proof (shape_C0 _ _ _ HS) as HC.
  pose proof (t_size _ _ _ _ _ (st_tiled _ _ _ _ _ _ Hst)) as Hs. pose proof (places_bound _ _ _ _ _ Hs Hc) as Hcb.
  assert (G : forall w, (forall q, word A E w q -> ~ A + 8 * c + hb <= q < A + 8 * (c + s)) -> wd A E m' w = wd A E (hp_mem h) w).
  { intros w Hw. apply load_ext. intros q Hq. apply Hm. intros Hin. apply (Hw q Hq). lia. }
  apply (st_ext h cs F m' Hst Hd).
  - intros d t Ht Hb. apply G. intros q Hq. apply (header_word A E d t q c s Ht Hq).
    destruct Hb as [->|Hb]; [lia|]. by eapply bnd_clear.
  - intros d k t Hk Ht. apply G. intros q Hq. destruct (st_free _ _ _ _ _ _ Hst _ _ Hk) as [Hk' Hd'].
    apply (link_word A E d t q c s k Ht Hq Hk').
    pose proof (places_bound _ _ _ _ _ Hs Hd'). destruct (places_apart _ _ _ _ _ _ _ _ Hs Hd' Hc) as [(_ & _ & ?)|?]; done.
Qed.

(** The bytes of a block are in the memory. *)
Lemma block_mapped h cs L p n : rep h cs L -> L !! p = Some n -> mapped (hp_mem h) p n.
Proof using HS.
  intros [(F & Ho) HB] Hp. destruct (bl_sound _ _ HB _ _ Hp) as (c & s & Hc & Hi & He & Hn).
  pose proof (st_tiled _ _ _ _ _ _ (ok_st _ _ _ _ _ _ Ho)) as Ht. destruct (tiled_hdr A E C0 _ _ _ _ _ Ht Hc) as (_ & _ & B1 & B2 & B3).
  intros q Hq. apply (t_map _ _ _ _ _ Ht). pose proof hb_pos. unfold in_chunk, within in *. lia.
Qed.

Lemma blocks_apart h cs L p n q k :
  rep h cs L -> L !! p = Some n -> L !! q = Some k -> p <> q -> p + n <= q \/ q + k <= p.
Proof using.
  intros [(F & Ho) HB] Hp Hq Hne. pose proof (t_size _ _ _ _ _ (st_tiled _ _ _ _ _ _ (ok_st _ _ _ _ _ _ Ho))) as Hs.
  destruct (bl_sound _ _ HB _ _ Hp) as (c & s & Hc & Hi & He & _). destruct (bl_sound _ _ HB _ _ Hq) as (d & t & Hd & Hi' & He' & _).
  pose proof hb_pos. unfold in_chunk in *. destruct (places_apart _ _ _ _ _ _ _ _ Hs Hc Hd) as [(-> & _)|?]; [|lia].
  exfalso. apply Hne. by apply (bl_one _ _ HB p q n k d).
Qed.

(** ** Freeing *)

(** The chunk of a block. *)
Lemma block_chunk h cs L p n :
  rep h cs L -> L !! p = Some n ->
  exists pre s post, cs = pre ++ (s, true) :: post /\ mem_to_chunkid h p = C0 + total pre /\ in_chunk p (C0 + total pre) /\
    p + n = A + 8 * (C0 + total pre + s) /\ 0 < n.
Proof using.
  intros Hrep Hp. pose proof (rep_heap _ _ _ Hrep) as Hh. destruct Hrep as [_ HB].
  destruct (bl_sound _ _ HB _ _ Hp) as (c & s & (pre & post & -> & ->)%places_split & Hi & He & Hn).
  exists pre, s, post. split_and!; try done. by apply in_chunk_id.
Qed.

(** A used chunk that is marked free is not yet in the lists. *)
Lemma used_minus pre s post c : c = C0 + total pre -> sized (pre ++ (s, true) :: post) ->
  forall d k, (d, k, true) ∈ places (pre ++ (s, false) :: post) <-> (d, k, true) ∈ places (pre ++ (s, true) :: post) /\ d <> c.
Proof using.
  intros -> Hs d k. apply sized_app in Hs as [S1 [Hs S2]%Forall_cons_1]. cbn in Hs. rewrite !places_app, !elem_of_app. cbn [HeapModel.places].
  rewrite !elem_of_cons. split.
  - intros [Hd|[[=]|Hd]]; (split; [tauto|]); apply places_bound in Hd; done || lia.
  - intros [[Hd|[[= -> ->]|Hd]] Hne]; tauto.
Qed.

Lemma mark_almost h h' pre s post F :
  okF h (pre ++ (s, true) :: post) F -> st h' (pre ++ (s, false) :: post) F -> almost h' pre s post F.
Proof using.
  intros [Hst Hf Hco] Hst'. pose proof (t_size _ _ _ _ _ (st_tiled _ _ _ _ _ _ Hst)) as Hs.
  split; [done|eapply free_not_used; [exact Hst|apply places_mid]|]. intros d k Hk Hd Hne. apply Hf; [done|].
  rewrite places_app, elem_of_app in Hd |- *. cbn [HeapModel.places] in Hd |- *. rewrite elem_of_cons in Hd |- *.
  destruct Hd as [?|[[= ? ?]|?]]; tauto || done.
Qed.

Lemma sys_heap_free_spec h cs L p n :
  rep h cs L -> L !! p = Some n ->
  exists h' cs', sys_heap_free h p = Some h' /\ isheap h' /\ rep h' cs' (delete p L) /\
    forall q k, L !! q = Some k -> q <> p -> agree (hp_mem h) (hp_mem h') q k.
Proof using HS.
  intros Hrep Hp. destruct (block_chunk _ _ _ _ _ Hrep Hp) as (pre & s & post & -> & Hid & Hi & He & Hn).
  destruct Hrep as [(F & Ho) HB]. pose proof (ok_st _ _ _ _ _ _ Ho) as Hst. pose proof (shape_A _ _ _ HS) as [HA _]. pose proof (shape_C0 _ _ _ HS).
  pose proof (t_bounds _ _ _ _ _ _ _ _ (st_tiled _ _ _ _ _ _ Hst)) as (B1 & B2 & B3). pose proof hb_pos.
  assert (p <> 0) by (unfold in_chunk in Hi; lia). unfold sys_heap_free. rewrite (proj2 (Z.eqb_neq p 0)), Hid by done.
  destruct (read_mid A E C0 HS h pre s true post F Hst) as (_ & -> & -> & _ & _ & _). cbn [mbind option_bind negb].
  set (c := C0 + total pre) in *.
  assert (HR : left_chunk h (c + s) = Some c).
  { destruct (t_right _ _ _ _ _ _ _ _ (st_tiled _ _ _ _ _ _ Hst)) as [R1 R2].
    destruct (read_hdr A E h (c + s) s (next post).1 (next post).2 (st_heap _ _ _ _ _ _ Hst)) as (_ & _ & _ & R); [by split|].
    rewrite R; [f_equal; lia|]. pose proof (shape_E _ _ _ HS). pose proof (lim_32 E). lia. }
  rewrite HR. cbn [mbind option_bind]. rewrite Z.eqb_refl. cbn [negb].
  destruct (set_used_spec A E C0 HS h pre post F s true false c Hst) as (h1 & -> & Hst1 & K1); [done|eapply free_not_used; [exact Hst|apply places_mid]|].
  cbn [mbind option_bind]. pose proof (mark_almost _ _ _ _ _ _ Ho Hst1) as Hal.
  pose proof (ok_coal _ _ _ _ _ _ Ho) as Hco. apply coal_app in Hco as [Hc1 [_ Hc2]].
  destruct (free_chunk_spec A E C0 HS h1 pre s post F Hal Hc1 Hc2) as (h2 & cs' & E2 & Hok & U & K2).
  pose proof (t_size _ _ _ _ _ (st_tiled _ _ _ _ _ _ Hst)) as Hs. pose proof (used_minus pre s post c eq_refl Hs) as Um.
  exists h2, cs'. split; [done|]. split; [destruct Hok as (F3 & Ho3); apply (st_heap _ _ _ _ _ _ (ok_st _ _ _ _ _ _ Ho3))|].
  assert (U' : forall d k, (d, k, true) ∈ places cs' <-> (d, k, true) ∈ places (pre ++ (s, true) :: post) /\ d <> c).
  { intros d k. rewrite <- (U d k). apply Um. }
  split; [split; [done|]; eapply (blocks_delete _ _ L p n c s); eauto; apply places_mid|].
  intros q k Hq Hne b Hb. destruct (bl_sound _ _ HB _ _ Hq) as (d & s' & Hd & Hdi & Hde & _).
  assert (Hdc : d <> c) by (intros ->; apply Hne; by eapply (bl_one _ _ HB)).
  unfold in_chunk in Hdi. rewrite (K2 d s') by (try apply Um; done || lia). apply (K1 d s' true); done || lia.
Qed.

Lemma usable_size_spec h cs L p n : rep h cs L -> L !! p = Some n -> sys_heap_usable_size h p = Some n.
Proof using HS.
  intros Hrep Hp. destruct (block_chunk _ _ _ _ _ Hrep Hp) as (pre & s & post & -> & Hid & Hi & He & Hn).
  destruct Hrep as [(F & Ho) HB]. pose proof (ok_st _ _ _ _ _ _ Ho) as Hst. unfold sys_heap_usable_size. rewrite Hid.
  pose proof (t_bounds _ _ _ _ _ _ _ _ (st_tiled _ _ _ _ _ _ Hst)) as (B1 & B2 & B3). pose proof hb_pos.
  pose proof (shape_end _ _ _ HS). pose proof (shape_A _ _ _ HS) as [HA _]. pose proof (shape_C0 _ _ _ HS).
  destruct (read_mid A E C0 HS h pre s true post F Hst) as (-> & _). cbn [mbind option_bind]. unfold in_chunk, CHUNK_UNIT in *.
  destruct (st_heap _ _ _ _ _ _ Hst) as [-> _]. f_equal. rewrite (wrap_u_small 32 (s * 8)) by lia.
  rewrite wrap_u_small; lia.
Qed.
End Carve.
