(* ===== verification/HeapAlign.v ===== *)
(** * The chunk heap: aligned allocation and reallocation

    [sys_heap_aligned_alloc] and [sys_heap_aligned_realloc]. *)

From S2P Require Import Prelude KState KLogic MemOps SysHeap HeapModel HeapOps HeapAlloc HeapSpec.

Local Open Scope Z_scope.

(** ** Powers of two *)

Lemma land_neg_odd m : Z.land (2 * m + 1) (- (2 * m + 1)) = 1.
Proof.
  replace (- (2 * m + 1)) with (2 * (- m - 1) + Z.b2z true) by (cbn; lia).
  transitivity (2 * 0 + Z.b2z true); [|done]. change (2 * m + 1) with (2 * m + Z.b2z true). apply Z.bits_inj'. intros n Hn. rewrite Z.land_spec.
  destruct (Z.eq_dec n 0) as [->|Hne]; [by rewrite !Z.testbit_0_r|].
  replace n with (Z.succ (n - 1)) by lia. rewrite !Z.testbit_succ_r by lia. rewrite Z.bits_0.
  replace (- m - 1) with (Z.lnot m) by (unfold Z.lnot; lia). rewrite Z.lnot_spec by lia. apply andb_negb_r.
Qed.

(** The lowest bit of a number. *)
Lemma lowest_bit f m : 0 <= f -> Z.land (2 ^ f * (2 * m + 1)) (- (2 ^ f * (2 * m + 1))) = 2 ^ f.
Proof.
  intros Hf. replace (- (2 ^ f * (2 * m + 1))) with (- (2 * m + 1) * 2 ^ f) by lia. rewrite (Z.mul_comm (2 ^ f)).
  rewrite <- !Z.shiftl_mul_pow2 by done. rewrite <- Z.shiftl_land, land_neg_odd, Z.shiftl_mul_pow2 by done. lia.
Qed.

Lemma land_wrap x y : 0 <= x < 2 ^ 32 -> Z.land x (u32 y) = Z.land x y.
Proof.
  intros Hx. unfold wrap_u. rewrite <- Z.land_ones by lia. rewrite (Z.land_comm y), Z.land_assoc. f_equal.
  rewrite Z.land_ones by lia. by apply Z.mod_small.
Qed.

Lemma pow2_land e : 0 <= e -> Z.land (2 ^ e) (2 ^ e - 1) = 0.
Proof.
  intros He. replace (2 ^ e - 1) with (Z.ones e) by (rewrite Z.ones_equiv; lia). rewrite Z.land_ones by done.
  apply Z.mod_same. lia.
Qed.

(** Rounding up moves an address by less than the alignment, less what divides both. *)
Lemma round_up_spec x a g :
  0 < g -> 0 < a -> (g | a) -> (g | x) -> 0 <= x -> x + a - 1 < 2 ^ 32 ->
  exists d, ROUND_UP x a = x + d /\ 0 <= d <= a - g /\ (a | x + d) /\ (g | d).
Proof.
  intros Hg Ha [ka Ea] [kx Ex] Hx Hlt. unfold ROUND_UP. rewrite wrap_u_small by lia. replace (x + (a - 1)) with (x + a - 1) by lia.
  set (q := (x + a - 1) / a). assert (Hq : a * q <= x + a - 1 < a * q + a) by (unfold q; Z.to_euclidean_division_equations; lia).
  exists (q * a - x). split_and!; [lia|lia| |by exists q; lia|exists (q * ka - kx); subst; lia].
  assert (Hd : q * a - x = (q * ka - kx) * g) by (subst; lia). assert (q * ka - kx < ka); [|nia].
  apply (Z.mul_lt_mono_pos_r g); [done|]. rewrite <- Hd, <- Ea. lia.
Qed.

(** ** The alignment argument

    An alignment [a], and the bit [r] to rewind by; 0 and 0 for no alignment. *)
Definition align_arg (a r : Z) : Prop :=
  a = 0 /\ r = 0 \/ exists e, 0 <= e < 32 /\ a = 2 ^ e /\ (r = 0 \/ exists f, 0 <= f < e /\ r = 2 ^ f).

Lemma pow2_le_div e f : 0 <= f <= e -> (2 ^ f | 2 ^ e).
Proof. intros Hf. exists (2 ^ (e - f)). rewrite <- Z.pow_add_r by lia. f_equal. lia. Qed.

Lemma pow2_bound e : 0 <= e < 32 -> 0 < 2 ^ e <= 2 ^ 31.
Proof. intros He. split; [lia|]. apply Z.pow_le_mono_r; lia. Qed.

(** [rew = align & -align]. *)
Lemma rew_exact a r : align_arg a r -> Z.land (a + r) (u32 (- (a + r))) = if r =? 0 then a else r.
Proof.
  intros [[-> ->]|(e & He & -> & Hr)]; [done|]. pose proof (pow2_bound e He) as Hp. destruct Hr as [->|(f & Hf & ->)].
  - rewrite Z.add_0_r, land_wrap by lia. pose proof (lowest_bit e 0 ltac:(lia)) as Hl.
    replace (2 ^ e * (2 * 0 + 1)) with (2 ^ e) in Hl by lia. done.
  - assert (Hlt : 2 ^ f < 2 ^ e) by (apply Z.pow_lt_mono_r; lia).
    rewrite land_wrap by lia. rewrite (proj2 (Z.eqb_neq (2 ^ f) 0)) by lia.
    pose proof (lowest_bit f (2 ^ (e - f - 1)) ltac:(lia)) as Hl.
    replace (2 ^ f * (2 * 2 ^ (e - f - 1) + 1)) with (2 ^ e + 2 ^ f) in Hl; [done|].
    rewrite Z.mul_add_distr_l, Z.mul_1_r. f_equal. replace e with (f + (1 + (e - f - 1))) at 1 by lia. rewrite !Z.pow_add_r by lia. lia.
Qed.

Section Align.
Context `{HeapConfig} (A E C0 : Z) (HS : shape A E C0).

Abbreviation mn := (mn E).
Abbreviation hb := (hb E).
Abbreviation st := (st A E C0).
Abbreviation ok := (ok A E C0).
Abbreviation okF := (okF A E C0).
Abbreviation almost := (almost A E C0).
Abbreviation isheap := (isheap A E).
Abbreviation places := (places C0).
Abbreviation ukeeps := (ukeeps A E C0).
Abbreviation rep := (rep A E C0).
Abbreviation units := (units E).
Abbreviation in_chunk := (in_chunk A E).
Existing Instance used_same_equiv.
Existing Instance ukeeps_proper.

(** ** Aligned allocation *)

Definition simple (a r : Z) : bool := (r =? 0) && (a <=? hb).
Definition gap_of (r : Z) : Z := if r =? 0 then hb else Z.min r hb.
(** Bytes that are added to a request for the alignment. *)
Definition slack (a r : Z) : Z := if simple a r then 0 else a - gap_of r.
Definition aligned (a r p : Z) : Prop := a <> 0 -> (a | p + r).

Lemma hb_pow : exists k, 0 <= k /\ hb = 2 ^ k /\ (hb | 8).
Proof using.
  unfold HeapModel.hb. destruct big; [exists 3; split_and!; [lia|done|by exists 1]|exists 2; split_and!; [lia|done|by exists 2]].
Qed.

Lemma pow2_cmp e k : 0 <= e -> 0 <= k -> 2 ^ e <= 2 ^ k -> (2 ^ e | 2 ^ k).
Proof using. clear. intros He Hk Hle. apply pow2_le_div. split; [done|]. by apply (Z.pow_le_mono_r_iff 2) in Hle. Qed.

Lemma simple_div a r p : align_arg a r -> simple a r = true -> (hb | p) -> aligned a r p.
Proof using.
  clear HS. intros Ha Hs Hp Hne. apply andb_true_iff in Hs as [->%Z.eqb_eq Hle%Z.leb_le]. rewrite Z.add_0_r.
  destruct Ha as [[-> _]|(e & He & -> & _)]; [done|]. destruct hb_pow as (k & Hk & Ek & _). rewrite Ek in *.
  apply (Z.divide_trans _ (2 ^ k)); [apply pow2_cmp; lia|done].
Qed.

Lemma gap_div a r :
  align_arg a r -> simple a r = false -> 0 < gap_of r <= hb /\ gap_of r <= a /\ 0 < a /\ 0 <= r < a /\ (gap_of r | a) /\ (gap_of r | r) /\ (gap_of r | hb).
Proof using.
  clear HS. intros Ha Hs. destruct hb_pow as (k & Hk & Ek & _). unfold simple, gap_of in *.
  destruct Ha as [[-> ->]|(e & He & -> & Hr)].
  { cbn in Hs. apply Z.leb_gt in Hs. rewrite Ek in Hs. lia. }
  destruct Hr as [->|(f & Hf & ->)].
  - cbn in Hs |- *. apply Z.leb_gt in Hs. rewrite Ek in *. split_and!; try lia; [apply pow2_cmp; lia|apply Z.divide_0_r|apply Z.divide_refl].
  - rewrite (proj2 (Z.eqb_neq _ _)) by lia. rewrite Ek in *. assert (2 ^ f < 2 ^ e) by (apply Z.pow_lt_mono_r; lia).
    destruct (Z.min_spec (2 ^ f) (2 ^ k)) as [[Hm ->]|[Hm ->]]; split_and!; try lia; try apply Z.divide_refl; apply pow2_cmp; lia.
Qed.

(** The place of an aligned block in a chunk [c0] that is large enough. *)
Lemma place_block a r bytes c0 :
  align_arg a r -> simple a r = false -> 0 < bytes -> C0 <= c0 -> c0 + units (bytes + slack a r) <= E -> A + 8 * E + 8 + r <= 2 ^ 32 ->
  let mem := ROUND_UP (A + 8 * c0 + hb + r) a - r in
  let c := (mem - hb - A) / 8 in let c_end := (ROUND_UP (mem + bytes) CHUNK_UNIT - A) / CHUNK_UNIT in
  c0 <= c < c_end /\ c_end <= c0 + units (bytes + slack a r) /\ in_chunk mem c /\ aligned a r mem /\
  mem + bytes <= A + 8 * c_end.
Proof using HS.
  intros Ha Hs Hb Hc0 Hfit Hr mem c c_end. destruct (gap_div a r Ha Hs) as (G1 & G2 & G3 & G4 & D1 & D2 & D3).
  destruct (shape_A _ _ _ HS) as [HA HA8]. pose proof (shape_C0 _ _ _ HS) as HC. pose proof (hb_pos E) as [Hhb _].
  assert (Hu := units_spec E (bytes + slack a r)). unfold slack in *. rewrite Hs in *. destruct Hu as [Hu _]; [lia|].
  destruct hb_pow as (k & _ & _ & D8). apply Z.mod_divide in HA8; [|lia].
  assert (Dx : (gap_of r | A + 8 * c0 + hb + r)).
  { assert ((gap_of r | 8)) by (by apply (Z.divide_trans _ hb)).
    repeat apply Z.divide_add_r; try done; [by apply (Z.divide_trans _ 8)|by apply Z.divide_mul_l]. }
  destruct (round_up_spec (A + 8 * c0 + hb + r) a (gap_of r)) as (d & Ed & Hd & Da & _); try done; try lia.
  assert (Em : mem = A + 8 * c0 + hb + d) by (unfold mem; rewrite Ed; lia).
  destruct (round_up_spec (mem + bytes) 8 1) as (d' & Ed' & Hd' & D8' & _); try lia; try apply Z.divide_1_l.
  assert (Ec : 8 * c_end = mem + bytes + d' - A).
  { unfold c_end, CHUNK_UNIT. rewrite Ed'. destruct D8' as [x Hx]. destruct HA8 as [y Hy]. rewrite Hx.
    replace (x * 8 - A) with ((x - y) * 8) by lia. rewrite Z.div_mul by lia. lia. }
  assert (Hc : 8 * c <= mem - hb - A < 8 * c + 8) by (unfold c; Z.to_euclidean_division_equations; lia).
  split; [lia|]. split; [lia|]. split; [unfold HeapSpec.in_chunk; lia|]. split; [|lia].
  intros _. rewrite Em. by replace (A + 8 * c0 + hb + d + r) with (A + 8 * c0 + hb + r + d) by lia.
Qed.

(** The two cuts, and the mark, as in the code. *)
Lemma cut_spec h pre k post F c c_end :
  almost h pre k post F -> coal true (pre ++ (k, false) :: post) -> let c0 := C0 + total pre in
  c0 <= c < c_end -> c_end <= c0 + k ->
  exists h1 h2 h3 cs', (if c >? c0 then h ← split_chunks h c0 c; free_list_add h c0 else Some h) = Some h1 /\
    right_chunk h1 c = Some (c0 + k) /\
    (if c0 + k >? c_end then h ← split_chunks h1 c c_end; free_list_add h c_end else Some h1) = Some h2 /\
    set_chunk_used h2 c true = Some h3 /\ ok h3 cs' /\ used_plus C0 (pre ++ (k, false) :: post) cs' c (c_end - c) /\
    ukeeps (hp_mem h) (hp_mem h3) (pre ++ (k, false) :: post) /\ (forall s, (c, s, true) ∉ places (pre ++ (k, false) :: post)).
Proof using HS.
  intros Hal Hco c0 Hc He. unfold c0 in *. clear c0. apply coal_app in Hco as [Hp Hq]. cbn in Hq. destruct Hq as [Hlast Hq].
  assert (Step : exists h1 pre1 k1 F1, (if c >? C0 + total pre then h ← split_chunks h (C0 + total pre) c; free_list_add h (C0 + total pre) else Some h) = Some h1 /\
    almost h1 pre1 k1 post F1 /\ coal true pre1 /\ C0 + total pre1 = c /\ c + k1 = C0 + total pre + k /\
    used_same C0 (pre ++ (k, false) :: post) (pre1 ++ (k1, false) :: post) /\ ukeeps (hp_mem h) (hp_mem h1) (pre ++ (k, false) :: post)).
  { destruct (Z.gtb_spec c (C0 + total pre)) as [Hgt|Hle].
    - destruct (prefix_spec A E C0 HS h pre k post F (c - (C0 + total pre)) Hal) as (h0 & h1 & E1 & E2 & Hal1 & U & K); [lia|].
      replace (C0 + total pre + (c - (C0 + total pre))) with c in E1 by lia. rewrite E1. cbn [mbind option_bind].
      eexists h1, _, _, _. split_and!; [done|exact Hal1| | | |done|done].
      + apply coal_app. split; [done|]. cbn. split; [|done]. destruct Hlast; [by left|done].
      + rewrite total_app. cbn. lia.
      + lia.
    - exists h, pre, k, F. split_and!; done || lia. }
  destruct Step as (h1 & pre1 & k1 & F1 & E1 & Hal1 & Hp1 & Et & Ek & U & K1).
  destruct (carve_spec A E C0 HS h1 pre1 k1 post F1 (c_end - c) Hal1 Hp1 Hq) as (h2 & h3 & E2 & E3 & Hok & U2 & K2); [lia|].
  rewrite Et in *. replace (c + (c_end - c)) with c_end in E2 by lia.
  destruct (read_mid A E C0 HS h1 pre1 k1 false post F1 (al_st _ _ _ _ _ _ _ _ Hal1)) as (_ & _ & R & _). rewrite Et, Ek in R.
  exists h1, h2, h3, (pre1 ++ (c_end - c, true) :: rest (k1 - (c_end - c)) ++ post). split_and!; [done|done| |done|done| | |].
  - rewrite <- E2. rewrite <- Ek. destruct (Z.gtb_spec (c + k1) c_end), (Z.gtb_spec k1 (c_end - c)); done || lia.
  - intros d m. rewrite (U2 d m), <- (U d m). done.
  - apply (ukeeps_trans _ _ _ _ (hp_mem h1)); [done|]. by rewrite U.
  - intros s Hin. apply U in Hin. rewrite <- Et in Hin. by apply (free_unused _ _ _ _ _ _ _ _ _ Hal1) in Hin.
Qed.

(** The alignment argument, taken apart. *)
Lemma align_simple a r : align_arg a r -> ((a + r =? (if r =? 0 then a else r)) && (a + r <=? hb)) = simple a r.
Proof using.
  clear HS. intros Ha. unfold simple. destruct (Z.eqb_spec r 0) as [->|Hr]; [by rewrite Z.add_0_r, Z.eqb_refl|].
  destruct Ha as [[_ ?]|(e & He & -> & _)]; [done|]. by rewrite (proj2 (Z.eqb_neq _ _)) by lia.
Qed.

Lemma align_split a r : align_arg a r -> simple a r = false ->
  (if negb (a + r =? (if r =? 0 then a else r)) then (a + r - (if r =? 0 then a else r), (if r =? 0 then a else r),
     Z.min (if r =? 0 then a else r) hb) else (a + r, 0, hb)) = (a, r, gap_of r) /\ Z.land a (a - 1) = 0.
Proof using.
  clear HS. intros Ha Hs. destruct (gap_div a r Ha Hs) as (_ & _ & G3 & G4 & _). split.
  - unfold gap_of. destruct (Z.eqb_spec r 0) as [->|Hr]; [by rewrite Z.add_0_r, Z.eqb_refl|].
    rewrite (proj2 (Z.eqb_neq _ _)) by lia. cbn [negb]. f_equal; f_equal; lia.
  - destruct Ha as [[? _]|(e & He & -> & _)]; [lia|]. apply pow2_land. lia.
Qed.

Lemma sys_heap_aligned_alloc_spec h cs L a r bytes :
  rep h cs L -> alloc_loops <> O -> align_arg a r -> 0 <= bytes < 2 ^ 32 ->
  size_too_big h bytes = true \/ hb + bytes + slack a r <= 8 * E /\ A + 8 * E + 8 + r <= 2 ^ 32 ->
  exists h' p, sys_heap_aligned_alloc h (a + r) bytes = Some (h', p) /\
    alloc_result A E C0 h h' cs L (units (bytes + slack a r)) bytes p (aligned a r p).
Proof using HS.
  intros Hrep Hloops Ha Hb Hfit. pose proof (rep_heap _ _ _ _ _ _ Hrep) as Hh. unfold sys_heap_aligned_alloc.
  rewrite rew_exact, (header_bytes A E h Hh), (align_simple a r) by done. destruct (simple a r) eqn:Hs.
  { unfold slack in *. rewrite Hs, Z.add_0_r in *.
    destruct (sys_heap_alloc_spec A E C0 HS h cs L bytes Hrep Hloops Hb) as (h' & p & E1 & R1 & R2 & R3); [tauto|].
    exists h', p. split; [done|]. split; [done|]. split; [done|]. destruct R3 as [R3|(? & cs' & n & ? & ? & ? & Hm)]; [by left|]. right.
    split; [done|]. exists cs', n. split_and!; try done. apply simple_div; [done|done|]. apply Z.mod_divide; [|done].
    pose proof (hb_pos E). lia. }
  destruct (gap_div a r Ha Hs) as (G1 & G2 & G3 & G4 & _). destruct (align_split a r Ha Hs) as [-> ->]. cbn [Z.eqb negb].
  pose proof (shape_end _ _ _ HS) as Hend. pose proof (shape_C0 _ _ _ HS) as HC.
  destruct (shape_A _ _ _ HS) as [HA _]. pose proof (hb_pos E) as [Hhb _].
  assert (Hsl : slack a r = a - gap_of r) by (unfold slack; by rewrite Hs).
  destruct (Z.eqb_spec bytes 0) as [->|Hb0]; cbn [orb].
  { exists h, 0. split; [done|]. split; [done|]. split; [done|]. left. split; [done|]. split; [done|by left]. }
  destruct (size_too_big h bytes) eqn:Hbig.
  { exists h, 0. split; [done|]. split; [done|]. split; [done|]. left. split; [done|]. split; [done|by right; left]. }
  destruct Hfit as [?|[Hfit Hr]]; [done|]. replace (bytes + a - gap_of r) with (bytes + slack a r) by lia.
  rewrite (wrap_u_small 32 (bytes + slack a r)), (bytes_to_chunksz_exact A E) by (done || lia).
  fold (units (bytes + slack a r)).
  destruct (units_spec E (bytes + slack a r) ltac:(lia)) as [Hu Hm].
  destruct Hrep as [(F & Ho) HB].
  destruct (alloc_chunk_spec A E C0 HS h cs F (units (bytes + slack a r)) Ho Hloops) as (h1 & c0 & -> & Hres); [lia|]. cbn [mbind option_bind].
  destruct Hres as [[-> Href]|[Hc Htk]]; cbn [Z.eqb].
  { exists h1, 0. split; [done|]. pose proof (refused_small _ _ _ _ _ _ _ _ Ho Href ltac:(lia)) as Hsm. destruct Href as (Ho1 & Em & _).
    split; [apply (st_heap _ _ _ _ _ _ (ok_st _ _ _ _ _ _ Ho1))|]. split; [intros q n Hq; by rewrite Em|].
    left. split; [done|]. split; [by split; [exists F|]|by right; right]. }
  rewrite (proj2 (Z.eqb_neq c0 0)) by lia.
  destruct (taken_almost _ _ _ _ _ _ _ _ _ Ho Htk) as (pre & k & post & -> & -> & Hk & Hal & _ & _ & K1).
  pose proof (almost_bounds _ _ _ _ _ _ _ _ Hal) as (B1 & B2 & B3).
  assert (Hh1 : isheap h1) by apply (st_heap _ _ _ _ _ _ (al_st _ _ _ _ _ _ _ _ Hal)).
  rewrite (chunk_mem_exact A E h1) by done. unfold mem_to_chunkid. rewrite (header_bytes A E h1 Hh1). destruct (Hh1) as [-> _].
  destruct (place_block a r bytes (C0 + total pre) Ha Hs) as (P1 & P2 & P3 & P4 & P5); [lia|lia|lia|lia|].
  change ((ROUND_UP (A + 8 * (C0 + total pre) + hb + r) a - r - hb - A) / CHUNK_UNIT) with
    ((ROUND_UP (A + 8 * (C0 + total pre) + hb + r) a - r - hb - A) / 8).
  set (mem := ROUND_UP (A + 8 * (C0 + total pre) + hb + r) a - r) in *. set (c := (mem - hb - A) / 8) in *.
  set (c_end := (ROUND_UP (mem + bytes) CHUNK_UNIT - A) / CHUNK_UNIT) in *.
  destruct (cut_spec h1 pre k post _ c c_end Hal (ok_coal _ _ _ _ _ _ Ho)) as (h2 & h3 & h4 & cs' & -> & E2 & E3 & E4 & Hok & U & K2 & Hfu); [done|lia|].
  cbn [mbind option_bind]. rewrite E2. cbn [mbind option_bind]. rewrite E3. cbn [mbind option_bind]. rewrite E4. cbn [mbind option_bind].
  destruct (blocks_add A E C0 _ _ L mem (A + 8 * c_end - mem) c (c_end - c) HB U Hfu P3) as [HB' HL]; [lia|lia|].
  exists h4, mem. split; [done|]. split; [destruct Hok as (F3 & Ho3); apply (st_heap _ _ _ _ _ _ (ok_st _ _ _ _ _ _ Ho3))|]. split.
  { intros q n Hq'. eapply blocks_kept; [exact HB| |exact Hq']. by apply (ukeeps_trans _ _ _ _ (hp_mem h1)). }
  right. split; [unfold HeapSpec.in_chunk in P3; lia|]. exists cs', (A + 8 * c_end - mem). split_and!; try done; lia.
Qed.
End Align.
