(* ===== verification/HeapRealloc.v ===== *)
(** * The chunk heap: reallocation

    [sys_heap_aligned_realloc]: a block shrinks or grows in its place, or moves. *)

From S2P Require Import Prelude KState KLogic MemOps SysHeap HeapModel HeapOps HeapAlloc HeapSpec HeapAlign.

Local Open Scope Z_scope.

Section Realloc.
Context `{HeapConfig} (A E C0 : Z) (HS : shape A E C0).

Abbreviation mn := (mn E).
Abbreviation hb := (hb E).
Abbreviation st := (st A E C0).
Abbreviation ok := (ok A E C0).
Abbreviation okF := (okF A E C0).
Abbreviation almost := (almost A E C0).
Abbreviation isheap := (isheap A E).
Abbreviation places := (places C0).
Abbreviation kept := (kept A E).
Abbreviation ukeeps := (ukeeps A E C0).
Abbreviation rep := (rep A E C0).
Abbreviation units := (units E).
Abbreviation in_chunk := (in_chunk A E).
Abbreviation used_plus := (used_plus C0).
Existing Instance used_same_equiv.
Existing Instance ukeeps_proper.

(** ** In place *)

(** The used chunk [(c, s)] of [cs] became [(c, n)]; the others did not change. *)
Definition resized (h h' : z_heap) (pre post : list (Z * bool)) (s n : Z) : Prop :=
  exists cs', ok h' cs' /\ used_plus (pre ++ (s, false) :: post) cs' (C0 + total pre) n /\
    (forall d k, (d, k, true) ∈ places (pre ++ (s, true) :: post) -> d <> C0 + total pre -> kept (hp_mem h) (hp_mem h') d k) /\
    kept (hp_mem h) (hp_mem h') (C0 + total pre) (Z.min s n).

Lemma kept_trans m1 m2 m3 c s : kept m1 m2 c s -> kept m2 m3 c s -> kept m1 m3 c s.
Proof using. intros K1 K2 q Hq. rewrite (K2 q Hq). by apply K1. Qed.

Lemma kept_sub m m' c s s' : kept m m' c s -> s' <= s -> kept m m' c s'.
Proof using. intros K Hs q Hq. apply K. lia. Qed.

Lemma okF_used h pre s post F : okF h (pre ++ (s, true) :: post) F -> F !! (C0 + total pre) = None.
Proof using. intros Ho. eapply free_not_used; [apply (ok_st _ _ _ _ _ _ Ho)|apply places_mid]. Qed.

Lemma shrink_spec h pre s post F n :
  okF h (pre ++ (s, true) :: post) F -> 0 < n < s -> let c := C0 + total pre in
  exists h1 h2 h3, split_chunks h c (c + n) = Some h1 /\ set_chunk_used h1 c true = Some h2 /\ free_chunk h2 (c + n) = Some h3 /\
    resized h h3 pre post s n.
Proof using HS.
  intros Ho Hn c. pose proof (ok_st _ _ _ _ _ _ Ho) as Hst. pose proof (okF_used _ _ _ _ _ Ho) as Hc. fold c in Hc.
  pose proof (t_size _ _ _ _ _ (st_tiled _ _ _ _ _ _ Hst)) as Hs.
  destruct (split_chunks_spec A E C0 HS h pre post F s true c n Hst) as (h1 & E1 & Hst1 & K1); [done|done|done|].
  destruct (set_used_spec A E C0 HS h1 pre ((s - n, false) :: post) F n false true c Hst1) as (h2 & E2 & Hst2 & K2); [done|done|].
  assert (Et : C0 + total (pre ++ [(n, true)]) = c + n) by (rewrite total_app; cbn; lia).
  pose proof Hs as Hs'. apply sized_app in Hs' as [S1 [S2 S3]%Forall_cons_1]. cbn in S2.
  assert (Hal : almost h2 (pre ++ [(n, true)]) (s - n) post F).
  { split; [by rewrite app_cons_assoc| |].
    - rewrite Et. destruct (F !! (c + n)) as [k|] eqn:Ek; [|done]. exfalso. destruct (st_free _ _ _ _ _ _ Hst _ _ Ek) as [_ Hin].
      pose proof (places_bound _ _ _ _ _ Hs Hin). destruct (places_apart _ _ _ _ _ _ _ _ Hs Hin (places_mid C0 pre s true post)); lia.
    - rewrite app_cons_assoc, Et. intros d k Hk Hd Hne. apply (ok_full _ _ _ _ _ _ Ho); [done|].
      rewrite places_app, elem_of_app in Hd |- *. cbn [HeapModel.places] in Hd |- *. rewrite !elem_of_cons in Hd. rewrite elem_of_cons. fold c in Hd |- *.
      replace (c + n + (s - n)) with (c + s) in Hd by lia. destruct Hd as [?|[[=]|[[= ? ?]|?]]]; tauto || done. }
  pose proof (ok_coal _ _ _ _ _ _ Ho) as Hco. apply coal_app in Hco as [Hc1 [_ Hc2]].
  destruct (free_chunk_spec A E C0 HS h2 (pre ++ [(n, true)]) (s - n) post F Hal) as (h3 & cs' & E3 & Hok & U & K3); [|done|].
  { apply coal_app. split; [done|]. split; [by right|done]. }
  rewrite Et in E3. rewrite app_cons_assoc in U, K3. exists h1, h2, h3. split_and!; try done. exists cs'. split; [done|].
  assert (Kall : forall d k v, (d, k, v) ∈ places (pre ++ (n, false) :: (s - n, false) :: post) -> d <> c + n -> v = true \/ d = c -> kept (hp_mem h) (hp_mem h3) d k).
  { intros d k v Hd Hne Hv. apply (kept_trans _ (hp_mem h1)); [by apply (K1 d k v)|]. apply (kept_trans _ (hp_mem h2)); [by apply (K2 d k v)|].
    apply (K3 d k). rewrite places_app, elem_of_app in Hd |- *. cbn [HeapModel.places] in Hd |- *. rewrite !elem_of_cons in Hd. rewrite !elem_of_cons.
    fold c in Hd |- *. destruct Hd as [Hd|[[= -> -> ->]|[[= ? ? ?]|Hd]]]; [left|right; by left|done|right; right; right].
    - destruct Hv as [-> | ->]; [done|]. apply places_bound in Hd; [fold c in Hd; lia|done].
    - destruct Hv as [-> | ->]; [done|]. apply places_bound in Hd; [lia|done]. }
  split_and!.
  - intros d k. rewrite <- (U d k). by apply (used_replace C0 pre s false [(s - n, false)] post n); [cbn; lia|done|repeat constructor].
  - intros d k Hd Hne. apply (Kall d k true); [| |by left].
    + rewrite places_app, elem_of_app in Hd |- *. cbn [HeapModel.places] in Hd |- *. rewrite elem_of_cons in Hd. rewrite !elem_of_cons.
      fold c in Hd |- *. replace (c + n + (s - n)) with (c + s) by lia. destruct Hd as [?|[[= ? ?]|?]]; tauto || done.
    + intros ->. pose proof (places_bound _ _ _ _ _ Hs Hd). destruct (places_apart _ _ _ _ _ _ _ _ Hs Hd (places_mid C0 pre s true post)); lia.
  - rewrite Z.min_r by lia. apply (Kall c n false); [apply places_mid|lia|by right].
Qed.

Lemma expand_spec h pre s rs post F n :
  okF h (pre ++ (s, true) :: (rs, false) :: post) F -> s < n <= s + rs -> let c := C0 + total pre in
  exists h1 h2 h3 h4, free_list_remove h (c + s) = Some h1 /\ chunk_size h1 (c + s) = Some rs /\
    (if rs >? n - s then h ← split_chunks h1 (c + s) (c + s + (n - s)); free_list_add h (c + s + (n - s)) else Some h1) = Some h2 /\
    merge_chunks h2 c (c + s) = Some h3 /\ set_chunk_used h3 c true = Some h4 /\ resized h h4 pre ((rs, false) :: post) s n.
Proof using HS.
  intros Ho Hn c. pose proof (ok_st _ _ _ _ _ _ Ho) as Hst. pose proof (okF_used _ _ _ _ _ Ho) as Hc. fold c in Hc.
  pose proof (t_size _ _ _ _ _ (st_tiled _ _ _ _ _ _ Hst)) as Hs. pose proof Hs as Hs'.
  apply sized_app in Hs' as [S1 [S2 [S3 S4]%Forall_cons_1]%Forall_cons_1]. cbn in S2, S3.
  assert (Et : C0 + total (pre ++ [(s, true)]) = c + s) by (rewrite total_app; cbn; lia).
  assert (Hr : (c + s, rs, false) ∈ places (pre ++ (s, true) :: (rs, false) :: post)).
  { rewrite places_app. cbn [HeapModel.places]. apply elem_of_app. right. right. left. }
  destruct (free_list_remove_spec A E C0 HS h _ F (c + s) rs Hst Hr) as (h1 & E1 & Hst1 & K1).
  { intros Hm. by apply (ok_full _ _ _ _ _ _ Ho). }
  assert (Hal1 : almost h1 (pre ++ [(s, true)]) rs post (delete (c + s) F)).
  { split; [by rewrite app_cons_assoc|rewrite Et; apply lookup_delete_eq|]. rewrite app_cons_assoc, Et. intros d k Hk Hd Hne.
    rewrite lookup_delete_ne by done. by apply (ok_full _ _ _ _ _ _ Ho). }
  destruct (cut_tail A E C0 HS h1 _ rs post _ (n - s) Hal1) as (h2 & F2 & E2 & Hal2 & U & K2); [lia|]. rewrite Et in E2.
  pose proof (al_st _ _ _ _ _ _ _ _ Hal2) as Hst2. rewrite !app_cons_assoc in *.
  assert (Hc2 : F2 !! c = None) by (eapply free_not_used; [exact Hst2|apply places_mid]).
  pose proof (al_c _ _ _ _ _ _ _ _ Hal2) as Hr2. rewrite Et in Hr2.
  destruct (merge_chunks_spec A E C0 HS h2 pre _ F2 s true (n - s) false c Hst2) as (h3 & E3 & Hst3 & K3); [done|done|done|].
  replace (s + (n - s)) with n in * by lia.
  assert (Hal3 : almost h3 pre n (rest (rs - (n - s)) ++ post) F2).
  { split; [done|done|]. fold c. intros d k Hk Hd Hne. rewrite places_app, elem_of_app in Hd. cbn [HeapModel.places] in Hd. rewrite elem_of_cons in Hd.
    fold c in Hd. destruct Hd as [Hd|[[= ? ?]|Hd]]; [|done|]; eapply (almost_elem A E C0 _ _ _ _ _ d k Hal2 Hk).
    - left. rewrite places_app, elem_of_app. by left.
    - right. rewrite Et. by replace (c + s + (n - s)) with (c + n) by lia. }
  pose proof (ok_coal _ _ _ _ _ _ Ho) as Hco. apply coal_app in Hco as [Hc1 [_ [_ Hc2']]].
  destruct (almost_used A E C0 HS h3 pre n _ F2 Hal3) as (h4 & E4 & Hok & K4); [by apply coal_rest|].
  destruct (read_mid A E C0 HS h1 _ rs false post _ (al_st _ _ _ _ _ _ _ _ Hal1)) as (R1 & _). rewrite Et in R1.
  exists h1, h2, h3, h4. split_and!; try done. eexists. split; [exact Hok|].
  assert (Kc : kept (hp_mem h2) (hp_mem h4) c n).
  { apply (kept_trans _ (hp_mem h3)); [apply (K3 c n false)|apply (K4 c n false)]; done || apply places_mid. }
  assert (K12 : ukeeps (hp_mem h) (hp_mem h2) (pre ++ (s, true) :: (rs, false) :: post)).
  { apply (ukeeps_trans _ _ _ _ (hp_mem h1)); [by apply (keeps_used A E C0 h _ F)|done]. }
  assert (U3 : forall d k, d <> c -> (d, k, true) ∈ places (pre ++ (s, true) :: (rs, false) :: post) ->
                 (d, k, true) ∈ places (pre ++ (n, false) :: rest (rs - (n - s)) ++ post)).
  { intros d k Hne Hd. apply U in Hd. rewrite places_app, elem_of_app in Hd |- *. cbn [HeapModel.places] in Hd |- *.
    rewrite !elem_of_cons in Hd. rewrite elem_of_cons. fold c in Hd |- *. replace (c + s + (n - s)) with (c + n) in Hd by lia.
    destruct Hd as [?|[[= ? ?]|[[=]|?]]]; tauto || done. }
  fold c. split_and!.
  - change (pre ++ (s, false) :: (rs, false) :: post) with (pre ++ [(s, false); (rs, false)] ++ post).
    assert (Um : used_same C0 (pre ++ [(s, false); (rs, false)] ++ post) (pre ++ [(s + rs, false)] ++ post)).
    { apply used_mid; [cbn; lia|by repeat constructor|by repeat constructor]. }
    intros d k. rewrite (Um d k). apply (used_replace C0 pre (s + rs) false (rest (rs - (n - s))) post n); [|done|].
    + unfold rest. case_decide; cbn; lia.
    + unfold rest. case_decide; by repeat constructor.
  - intros d k Hd Hne. apply (kept_trans _ (hp_mem h2)); [by apply K12|]. specialize (U3 _ _ Hne Hd).
    apply (kept_trans _ (hp_mem h3)); [by apply (K3 d k true)|by apply (K4 d k true)].
  - rewrite Z.min_l by lia. apply (kept_trans _ (hp_mem h2)); [apply K12; apply places_mid|]. apply (kept_sub _ _ _ _ _ Kc). lia.
Qed.

(** ** Blocks *)

Definition moved (m m' : gmap Z Z) (p q k : Z) : Prop := forall i, 0 <= i < k -> m' !! (q + i) = m !! (p + i).

(** What a reallocation leaves: the other blocks are as they were; the block is as it was,
    or it has been replaced by one that begins with the same bytes. *)
Definition realloc_result (h h' : z_heap) (L : gmap Z Z) (p n bytes a q : Z) : Prop :=
  isheap h' /\ (forall p' k, L !! p' = Some k -> p' <> p -> agree (hp_mem h) (hp_mem h') p' k) /\
  (q = 0 /\ (exists cs', rep h' cs' L) /\ agree (hp_mem h) (hp_mem h') p n \/
   0 < q /\ exists cs' n', rep h' cs' (<[q := n']> (delete p L)) /\ delete p L !! q = None /\ bytes <= n' /\ aligned a 0 q /\
     moved (hp_mem h) (hp_mem h') p q (Z.min n bytes)).

Lemma resized_blocks h h' pre post s n L p k bytes a :
  rep h (pre ++ (s, true) :: post) L -> L !! p = Some k -> in_chunk p (C0 + total pre) -> p + k = A + 8 * (C0 + total pre + s) ->
  resized h h' pre post s n -> 0 < bytes -> p + bytes <= A + 8 * (C0 + total pre + n) -> aligned a 0 p ->
  realloc_result h h' L p k bytes a p.
Proof using HS.
  intros Hrep Hp Hi He (cs' & Hok & U & Ko & Kc) Hb Hfit Ha. destruct Hrep as [(F & Ho) HB]. set (c := C0 + total pre) in *.
  pose proof (ok_st _ _ _ _ _ _ Ho) as Hst. pose proof (t_size _ _ _ _ _ (st_tiled _ _ _ _ _ _ Hst)) as Hs.
  pose proof (shape_A _ _ _ HS) as [HA _]. pose proof (shape_C0 _ _ _ HS). pose proof (hb_pos E) as [Hhb _].
  pose proof (t_bounds _ _ _ _ _ _ _ _ (st_tiled _ _ _ _ _ _ Hst)) as (B1 & B2 & B3).
  assert (Hm : forall d m, (d, m, true) ∈ places (pre ++ (s, false) :: post) <-> (d, m, true) ∈ places (pre ++ (s, true) :: post) /\ d <> c).
  { by apply used_minus. }
  assert (HB1 : blocks A E C0 (pre ++ (s, false) :: post) (delete p L)).
  { eapply (blocks_delete A E C0 _ _ L p k c s); eauto. apply places_mid. }
  destruct (blocks_add A E C0 _ cs' (delete p L) p (A + 8 * (c + n) - p) c n HB1 U) as [HB2 HL]; [|done|lia|lia|].
  { intros m Hin. apply Hm in Hin as [_ ?]. done. }
  assert (Hh' : isheap h') by (destruct Hok as (F3 & Ho3); apply (st_heap _ _ _ _ _ _ (ok_st _ _ _ _ _ _ Ho3))).
  split; [done|]. split.
  - intros p' k' Hp' Hne q Hq. destruct (bl_sound _ _ _ _ _ HB _ _ Hp') as (d & s' & Hd & Hdi & Hde & _).
    assert (d <> c) by (intros ->; apply Hne; by eapply (bl_one _ _ _ _ _ HB)).
    apply (Ko d s'); [done|done|]. unfold HeapSpec.in_chunk in Hdi. lia.
  - right. unfold HeapSpec.in_chunk in Hi. split; [lia|]. exists cs', (A + 8 * (c + n) - p). split_and!; try done; [lia|].
    intros i Hi'. apply Kc. fold c. lia.
Qed.

Lemma heap_memcpy_spec h cs L p n q k m :
  rep h cs L -> L !! p = Some n -> L !! q = Some k -> p <> q -> 0 <= m -> m <= n -> m <= k ->
  exists m', heap_memcpy h q p m = Some (with_mem m' h) /\ rep (with_mem m' h) cs L /\ moved (hp_mem h) m' p q m /\
    (forall p' k', L !! p' = Some k' -> p' <> q -> agree (hp_mem h) m' p' k').
Proof using HS.
  intros Hrep Hp Hq Hpq Hm0 Hm Hk. pose proof (block_mapped A E C0 HS _ _ _ _ _ Hrep Hp) as Mp. pose proof (block_mapped A E C0 HS _ _ _ _ _ Hrep Hq) as Mq.
  assert (Mp' : mapped (hp_mem h) p m) by (intros x Hx; apply Mp; unfold within in *; lia).
  assert (Mq' : mapped (hp_mem h) q m) by (intros x Hx; apply Mq; unfold within in *; lia).
  unfold heap_memcpy. rewrite (bytes_read _ _ _ Mp'), (bytes_read _ _ _ Mq'). cbn [mbind option_bind].
  set (l := bytes (hp_mem h) p m). assert (Hl : Z.of_nat (length l) = m) by (unfold l; rewrite bytes_length by done; lia).
  assert (Hw : forall x, mem_write (hp_mem h) q l !! x = if decide (within q m x) then l !! Z.to_nat (x - q) else hp_mem h !! x).
  { intros x. by rewrite mem_write_lookup, Hl. }
  exists (mem_write (hp_mem h) q l). split; [done|]. split_and!.
  - apply (user_write A E C0 HS h cs L q k); [done|done|intros x; apply mem_write_mapped; by rewrite Hl|].
    intros x Hx. rewrite Hw, decide_False; [done|]. unfold within. lia.
  - intros i Hi. rewrite Hw, decide_True by (unfold within; lia). unfold l. rewrite bytes_lookup by (done || lia). f_equal. lia.
  - intros p' k' Hp' Hne x Hx. rewrite Hw, decide_False; [done|]. unfold within. intros Hin.
    destruct (blocks_apart A E C0 h cs L p' k' q k); done || lia.
Qed.

Lemma move_spec h cs L p n a bytes c :
  rep h cs L -> L !! p = Some n -> mem_to_chunkid h p = c -> alloc_loops <> O -> align_arg a 0 -> 0 < bytes < 2 ^ 32 ->
  hb + bytes + slack E a 0 <= 8 * E ->
  exists h' q, realloc_move h p a bytes c (p - (A + 8 * c + hb)) = Some (h', q) /\ realloc_result h h' L p n bytes a q.
Proof using HS.
  intros Hrep Hp Hid Hloops Ha Hb Hfit. unfold realloc_move. pose proof (shape_end _ _ _ HS) as Hend. pose proof (shape_A _ _ _ HS) as [HA _].
  destruct (sys_heap_aligned_alloc_spec A E C0 HS h cs L a 0 bytes Hrep Hloops Ha) as (h1 & q & E1 & Hh1 & Hag & Hres); [lia|right; lia|].
  rewrite Z.add_0_r in E1. rewrite E1. cbn [mbind option_bind]. clear E1.
  destruct Hres as [(-> & Hrep1 & _)|(Hq & cs1 & m & Hrep1 & HqL & Hbm & Hal)].
  { cbn [Z.eqb negb]. exists h1, 0. split; [done|]. split; [done|]. split; [intros p' k Hp' _; by apply Hag|]. left.
    split; [done|]. split; [by exists cs|by apply Hag]. }
  rewrite (proj2 (Z.eqb_neq q 0)) by lia. cbn [negb].
  assert (Hpq : p <> q) by congruence. assert (Hp1 : <[q := m]> L !! p = Some n) by (by rewrite lookup_insert_ne).
  assert (Hq1 : <[q := m]> L !! q = Some m) by apply lookup_insert_eq.
  destruct (block_chunk A E C0 _ _ _ _ _ Hrep1 Hp1) as (pre & s & post & -> & Hid1 & Hi & He & Hn).
  assert (Ec : c = C0 + total pre).
  { rewrite <- Hid, <- Hid1. unfold mem_to_chunkid, chunk_header_bytes, big_heap. destruct (rep_heap _ _ _ _ _ _ Hrep) as [-> ->], Hh1 as [-> ->]. done. }
  destruct Hrep1 as [(F & Ho) HB1]. destruct (read_mid A E C0 HS h1 pre s true post F (ok_st _ _ _ _ _ _ Ho)) as (R & _).
  pose proof (t_bounds _ _ _ _ _ _ _ _ (st_tiled _ _ _ _ _ _ (ok_st _ _ _ _ _ _ Ho))) as (B1 & B2 & B3). pose proof (shape_C0 _ _ _ HS).
  rewrite <- Ec in *. rewrite R. cbn [mbind option_bind]. pose proof (hb_pos E) as [Hhb _]. unfold HeapSpec.in_chunk in Hi.
  replace (u32 (chunksz_to_bytes h1 s - (p - (A + 8 * c + hb)))) with n.
  2:{ unfold chunksz_to_bytes, CHUNK_UNIT. rewrite (header_bytes A E h1 Hh1). rewrite (wrap_u_small 32 (s * 8 - hb)) by lia.
      rewrite wrap_u_small; lia. }
  destruct (heap_memcpy_spec h1 (pre ++ (s, true) :: post) (<[q := m]> L) p n q m (Z.min n bytes)) as (m2 & -> & Hrep2 & Hmv & Hag2); try done; [by split; [exists F|]|lia|lia|lia|].
  cbn [mbind option_bind].
  destruct (sys_heap_free_spec A E C0 HS _ _ _ p n Hrep2 Hp1) as (h3 & cs3 & -> & Hh3 & Hrep3 & Hag3). cbn [mbind option_bind].
  exists h3, q. split; [done|]. split; [done|]. split.
  - intros p' k Hp' Hne x Hx. assert (Hp'q : p' <> q) by congruence.
    assert (Hp'1 : <[q := m]> L !! p' = Some k) by (by rewrite lookup_insert_ne).
    rewrite (Hag3 p' k Hp'1 Hne x Hx). cbn. rewrite (Hag2 p' k Hp'1 Hp'q x Hx). by apply (Hag p' k Hp').
  - right. split; [done|]. exists cs3, m. split_and!; try done.
    + by rewrite <- delete_insert_ne.
    + by rewrite lookup_delete_ne.
    + intros i Hi'. rewrite (Hag3 q m Hq1 ltac:(done)) by lia. cbn. rewrite (Hmv i Hi'). apply (Hag p n Hp). lia.
Qed.

Lemma sys_heap_aligned_realloc_spec h cs L p n a bytes :
  rep h cs L -> L !! p = Some n -> alloc_loops <> O -> align_arg a 0 -> 0 < bytes < 2 ^ 32 ->
  size_too_big h bytes = true \/ hb + bytes + slack E a 0 <= 8 * E ->
  exists h' q, sys_heap_aligned_realloc h p a bytes = Some (h', q) /\ realloc_result h h' L p n bytes a q.
Proof using HS.
  intros Hrep Hp Hloops Ha Hb Hfit. pose proof (shape_end _ _ _ HS) as Hend. pose proof (shape_A _ _ _ HS) as [HA HA8]. pose proof (shape_C0 _ _ _ HS) as HC.
  pose proof (rep_heap _ _ _ _ _ _ Hrep) as Hh. pose proof (hb_pos E) as [Hhb _].
  destruct (block_chunk A E C0 _ _ _ _ _ Hrep Hp) as (pre & s & post & -> & Hid & Hi & He & Hn). pose proof Hi as Hi'. unfold HeapSpec.in_chunk in Hi'.
  pose proof Hrep as [(F & Ho) HB]. pose proof (ok_st _ _ _ _ _ _ Ho) as Hst.
  pose proof (t_bounds _ _ _ _ _ _ _ _ (st_tiled _ _ _ _ _ _ Hst)) as (B1 & B2 & B3).
  unfold sys_heap_aligned_realloc. rewrite (proj2 (Z.eqb_neq p 0)), (proj2 (Z.eqb_neq bytes 0)) by lia.
  assert (Hland : Z.land a (u32 (a - 1)) = 0).
  { destruct Ha as [[-> _]|(e & He' & -> & _)]; [done|]. pose proof (pow2_bound e He'). rewrite land_wrap by lia. apply pow2_land. lia. }
  rewrite Hland, Z.eqb_refl. cbn [negb]. destruct (size_too_big h bytes) eqn:Hbig.
  { exists h, 0. split; [done|]. split; [done|]. split; [done|]. left. split; [done|]. split; [by eexists|done]. }
  destruct Hfit as [?|Hfit]; [done|]. rewrite Hid. set (c := C0 + total pre) in *.
  destruct (read_mid A E C0 HS h pre s true post F Hst) as (R1 & R2 & R3 & R4 & R5 & _). fold c in R1, R2, R3, R4, R5.
  rewrite R3. cbn [mbind option_bind]. rewrite (chunk_mem_exact A E h c Hh). rewrite (wrap_u_small 32 (p - (A + 8 * c + hb))) by lia.
  assert (Hsl : 0 <= slack E a 0).
  { unfold slack. destruct (simple E a 0) eqn:Hs; [done|]. destruct (gap_div E a 0 Ha Hs). lia. }
  rewrite (wrap_u_small 32 (bytes + (p - (A + 8 * c + hb)))), (bytes_to_chunksz_exact A E h) by (done || lia).
  fold (units (bytes + (p - (A + 8 * c + hb)))). set (need := units (bytes + (p - (A + 8 * c + hb)))).
  destruct (units_spec E (bytes + (p - (A + 8 * c + hb)))) as [Hu Hmn]; [lia|]. fold need in Hu, Hmn.
  pose proof (move_spec _ _ _ _ _ a bytes c Hrep Hp Hid Hloops Ha Hb Hfit) as Hmove.
  destruct (negb (a =? 0) && negb (Z.land p (u32 (a - 1)) =? 0)) eqn:Hmis; [done|].
  assert (Hal : aligned a 0 p).
  { intros Hne. rewrite (proj2 (Z.eqb_neq a 0)) in Hmis by done. cbn in Hmis. apply negb_false_iff, Z.eqb_eq in Hmis.
    destruct Ha as [[? _]|(e & He' & -> & _)]; [done|]. pose proof (pow2_bound e He'). rewrite land_wrap in Hmis by lia.
    replace (2 ^ e - 1) with (Z.ones e) in Hmis by (rewrite Z.ones_equiv; lia). rewrite Z.land_ones in Hmis by lia.
    rewrite Z.add_0_r. apply Z.mod_divide; [lia|done]. }
  rewrite R1. cbn [mbind option_bind]. destruct (Z.eqb_spec s need) as [Es|Hne].
  { exists h, p. split; [done|]. split; [done|]. split; [done|]. right. split; [lia|]. exists (pre ++ (s, true) :: post), n.
    rewrite insert_delete_eq, insert_id by done. split; [done|]. split; [apply lookup_delete_eq|]. split; [lia|done]. }
  destruct (Z.gtb_spec s need) as [Hgt|Hle].
  { destruct (shrink_spec h pre s post F need Ho) as (h1 & h2 & h3 & E1 & E2 & E3 & Hres); [pose proof (mn_pos E); lia|]. fold c in E1, E2, E3.
    rewrite E1. cbn [mbind option_bind]. rewrite E2. cbn [mbind option_bind]. rewrite E3. cbn [mbind option_bind].
    exists h3, p. split; [done|]. apply (resized_blocks h h3 pre post s need); try done; fold c; lia. }
  rewrite R4. cbn [mbind option_bind]. destruct post as [|[rs [|]] post]; cbn [next snd negb]; [exact Hmove|exact Hmove|].
  rewrite R5. cbn [mbind option_bind next fst]. assert (Hrs : 0 <= s + rs < 2 ^ 32).
  { pose proof (t_size _ _ _ _ _ (st_tiled _ _ _ _ _ _ Hst)) as Hs. pose proof (t_total _ _ _ _ _ (st_tiled _ _ _ _ _ _ Hst)) as Ht.
    rewrite total_app in Ht. apply sized_app in Hs as [_ [_ [Hs1 Hs2]%Forall_cons_1]%Forall_cons_1]. cbn in Hs1, Ht. pose proof (sized_total _ Hs2).
    fold (total post) in Ht. lia. }
  rewrite (wrap_u_small 32 (s + rs)) by done. destruct (Z.geb_spec (s + rs) need) as [Hge|Hlt]; [|exact Hmove].
  destruct (expand_spec h pre s rs post F need Ho) as (h1 & h2 & h3 & h4 & E1 & Er & E2 & E3 & E4 & Hres); [lia|]. fold c in E1, Er, E2, E3, E4.
  rewrite E1. cbn [mbind option_bind]. rewrite Er. cbn [mbind option_bind]. rewrite (wrap_u_small 32 (need - s)), <- Z.gtb_ltb by lia.
  rewrite E2. cbn [mbind option_bind]. rewrite E3. cbn [mbind option_bind]. rewrite E4. cbn [mbind option_bind].
  exists h4, p. split; [done|]. apply (resized_blocks h h4 pre ((rs, false) :: post) s need); try done; fold c; lia.
Qed.
End Realloc.
