(* ===== verification/HeapInit.v ===== *)
(** * The chunk heap: initialisation, and what the functions promise

    [sys_heap_init] makes a heap of one free chunk; the theorems about the public functions
    are stated with [heap_rep], the relation of a heap and the blocks in use. *)

From S2P Require Import Prelude KState KLogic MemOps SysHeap HeapModel HeapOps HeapAlloc HeapSpec HeapAlign HeapRealloc.

Local Open Scope Z_scope.

(** ** Initialisation *)

Section Init.
Context `{HeapConfig}.

Lemma take_out_lookup m a n q : take_out m a n !! q = if decide (a <= q < a + n) then None else m !! q.
Proof.
  unfold take_out. assert (G : forall l, foldr delete m l !! q = if decide (q ∈ l) then None else m !! q).
  { induction l as [|x l IH]; cbn; [by rewrite decide_False by apply not_elem_of_nil|]. destruct (decide (q = x)) as [->|Hne].
    - rewrite lookup_delete_eq, decide_True; [done|]. by left.
    - rewrite lookup_delete_ne, IH by done. apply decide_ext. rewrite elem_of_cons. tauto. }
  rewrite G. apply decide_ext. apply elem_of_seqZ.
Qed.

Section Words.
Context (A E C0 : Z) (HS : shape A E C0).

Abbreviation wd := (wd A E).
Abbreviation slot := (slot E).

Lemma init_lists m : lists A E (mkHeap A m E 0 (replicate (nb E) 0)) ∅ (replicate (nb E) []).
Proof using.
  split; cbn [buckets avail_buckets hp_mem].
  - by rewrite !length_replicate.
  - intros i l [-> Hi]%lookup_replicate. by apply lookup_replicate.
  - intros i l [-> _]%lookup_replicate. by rewrite Z.bits_0.
  - intros i l [-> _]%lookup_replicate. by split; [constructor|].
  - intros i l c [-> _]%lookup_replicate. rewrite elem_of_nil. split; [done|]. intros (s & Hs & _). by rewrite lookup_empty in Hs.
  - intros i _. apply Z.bits_0.
  - done.
Qed.

(** The writes of the headers, and the free list. *)
Lemma init_headers m :
  let h := mkHeap A m E 0 (replicate (nb E) 0) in
  mapped m A (hb E) -> mapped m (A + 8 * C0) (8 * (E - C0) + hb E) ->
  exists h' , (h ← set_chunk_size h 0 C0;
        h ← set_left_chunk_size h 0 0;
        h ← set_chunk_used h 0 true;
        h ← set_chunk_size h C0 (E - C0);
        h ← set_left_chunk_size h C0 C0;
        h ← set_chunk_size h E 0;
        h ← set_left_chunk_size h E (E - C0);
        h ← set_chunk_used h E true;
        free_list_add h C0) = Some h' /\ ok A E C0 h' [(E - C0, false)].
Proof using HS.
  intros h M0 M1. assert (Hh : isheap A E h) by done. pose proof (shape_C0 _ _ _ HS) as HC. pose proof (shape_E _ _ _ HS) as HE. pose proof (lim_32 E) as Hlim.
  assert (W0 : forall t, 0 <= t < 2 -> is_Some (wd m (slot 0 t))).
  { intros t Ht. apply load_mapped. intros q Hq. apply M0. unfold within, HeapModel.slot, hb, uw, fb in *. destruct big; lia. }
  assert (W1 : forall c t, 0 <= t < 2 -> C0 <= c <= E -> is_Some (wd m (slot c t))).
  { intros c t Ht Hc. apply load_mapped. intros q Hq. apply M1. unfold within, HeapModel.slot, hb, uw, fb in *. destruct big; lia. }
  assert (Mk : forall x, Z.lor (2 * x) 1 = 2 * x + 1) by (intros x; pose proof (mark_exact x false true) as Hx; cbn in Hx; by rewrite Z.add_0_r in Hx).
  unfold set_chunk_size, set_left_chunk_size, set_chunk_used. rewrite !shl_exact by lia.
  set_step Hh (puts_nil A E m) m1 P1; [apply W0; cbn; lia|lia|]. set_step Hh P1 m2 P2; [apply W0; cbn; lia|lia|].
  rewrite (field_wd A E) by done. cbn [field_index hp_mem with_mem]. rewrite (puts_wd _ _ _ _ _ P2). cbn [written]. slots. cbn [mbind option_bind].
  rewrite Mk. set_step Hh P2 m3 P3; [apply W0; cbn; lia|lia|]. set_step Hh P3 m4 P4; [apply W1; cbn; lia|lia|].
  set_step Hh P4 m5 P5; [apply W1; cbn; lia|lia|]. set_step Hh P5 m6 P6; [apply W1; cbn; lia|lia|].
  set_step Hh P6 m7 P7; [apply W1; cbn; lia|lia|].
  rewrite (field_wd A E) by done. cbn [field_index hp_mem with_mem]. rewrite (puts_wd _ _ _ _ _ P7). cbn [written]. slots. cbn [mbind option_bind].
  rewrite Mk. set_step Hh P7 m8 P8; [apply W1; cbn; lia|lia|]. clear P1 P2 P3 P4 P5 P6 P7.
  assert (G : almost A E C0 (with_mem m8 h) [] (E - C0) [] ∅).
  { split; [|done|intros d k _ Hd Hne; cbn in Hd; apply list_elem_of_singleton in Hd; injection Hd as -> ->; cbn in Hne; lia].
    split; [done| |exists (replicate (nb E) []); by apply init_lists|done].
    split; cbn -[HeapModel.wd HeapModel.slot]; rewrite ?Forall_cons, ?Forall_nil; cbn -[HeapModel.wd HeapModel.slot].
    - rewrite !(puts_wd _ _ _ _ _ P8). cbn [written]. slots. split; [done|f_equal; lia].
    - replace (C0 + (E - C0)) with E by lia. rewrite !(puts_wd _ _ _ _ _ P8). cbn [written]. slots. split_and!; try done; f_equal; lia.
    - repeat constructor. cbn. lia.
    - lia.
    - intros q Hq. apply (puts_dom _ _ _ _ _ P8). by apply M1. }
  destruct (add_done A E C0 HS _ _ _ _ _ G) as (h' & E1 & Hok & _); [by split; [left|]|].
  exists h'. cbn in E1. rewrite Z.add_0_r in E1. by split.
Qed.
End Words.

Definition max_units : Z := if small_only then 0x7fff else 0x7fffffff.

Lemma small_or_big E : E <= max_units -> 2 * E + 1 < lim E.
Proof using.
  unfold max_units, lim, big, big_heap_chunks. destruct small_only; [lia|]. destruct big_only; [lia|]. destruct (Z.gtb_spec E 0x7fff); lia.
Qed.

Lemma footer_covers bytes E : E <= bytes / 8 -> hb E <= heap_footer_bytes bytes <= 8.
Proof using.
  unfold hb, heap_footer_bytes, big, big_heap_bytes, big_heap_chunks, CHUNK_UNIT. intros HE. destruct small_only; [lia|]. destruct big_only; [lia|].
  destruct (Z.gtb_spec E 0x7fff), (Z.gtb_spec (bytes / 8) 0x7fff); lia.
Qed.

(** Bounds for the start and the size of the heap. *)
Lemma init_bounds mem bytes :
  let foot := heap_footer_bytes bytes in let A := ROUND_UP mem CHUNK_UNIT in
  let E := u32 (ROUND_DOWN (mem + (bytes - foot)) CHUNK_UNIT - A) / CHUNK_UNIT in
  0 < mem -> 24 <= bytes -> mem + bytes + 8 <= 2 ^ 32 ->
  mem <= A < mem + 8 /\ A mod 8 = 0 /\ 0 <= E /\ A + 8 * E + foot <= mem + bytes < A + 8 * E + foot + 8 /\ E <= bytes / 8 /\ hb E <= foot <= 8.
Proof using.
  intros foot A E Hm Hb Hlt. assert (Hf : 4 <= foot <= 8) by (unfold foot, heap_footer_bytes; destruct (big_heap_bytes bytes); lia).
  assert (HA : mem <= A < mem + 8 /\ A = 8 * (A / 8)).
  { unfold A, ROUND_UP, CHUNK_UNIT. rewrite wrap_u_small by lia. Z.to_euclidean_division_equations. lia. }
  set (D := ROUND_DOWN (mem + (bytes - foot)) CHUNK_UNIT) in *.
  assert (HD : D <= mem + (bytes - foot) < D + 8 /\ D = 8 * (D / 8)) by (unfold D, ROUND_DOWN, CHUNK_UNIT; Z.to_euclidean_division_equations; lia).
  assert (HE : 8 * E = D - A /\ 0 <= E).
  { unfold E, CHUNK_UNIT. rewrite wrap_u_small by lia. Z.to_euclidean_division_equations. lia. }
  assert (HEb : E <= bytes / 8) by (apply Z.div_le_lower_bound; lia).
  pose proof (footer_covers bytes E HEb) as Hc. fold foot in Hc.
  split; [lia|]. split; [Z.to_euclidean_division_equations; lia|]. lia.
Qed.

Lemma sys_heap_init_spec m mem bytes :
  0 < mem -> 24 <= bytes -> mem + bytes + 8 <= 2 ^ 32 -> mapped m mem bytes ->
  match sys_heap_init m mem bytes with
  | Some h => exists C0, shape (hp_addr h) (end_chunk h) C0 /\ ok (hp_addr h) (end_chunk h) C0 h [(end_chunk h - C0, false)] /\
      mem <= hp_addr h /\ hp_addr h + 8 * end_chunk h + hb (end_chunk h) <= mem + bytes < hp_addr h + 8 * end_chunk h + 16 /\ C0 <= 18
  | None => bytes < 192 \/ max_units < bytes / 8
  end.
Proof using.
  intros Hm Hb Hlt Hmap. destruct (init_bounds mem bytes Hm Hb Hlt) as (HA & HA8 & HE0 & HE & HEb & Hf). unfold sys_heap_init. fold max_units.
  destruct (Z.leb_spec (bytes / CHUNK_UNIT) max_units) as [Hmax|Hmax]; cbn [negb]; [|by right].
  set (foot := heap_footer_bytes bytes) in *. destruct (Z.gtb_spec bytes foot) as [_|?]; cbn [negb]; [|lia].
  set (A := ROUND_UP mem CHUNK_UNIT) in *. set (E := u32 (ROUND_DOWN (mem + (bytes - foot)) CHUNK_UNIT - A) / CHUNK_UNIT) in *.
  change (chunksz sizeof_z_heap) with 2. destruct (Z.gtb_spec E 2) as [HE2|]; cbn [negb]; [|left; lia].
  assert (HEm : E <= max_units) by (unfold CHUNK_UNIT in Hmax; lia). pose proof (small_or_big E HEm) as HEl. pose proof (lim_32 E).
  assert (mn E <= 2) by (unfold mn; destruct big; lia).
  rewrite (bucket_idx_exact A E) by (done || lia). cbn [mbind option_bind]. rewrite (min_size A E) by done.
  assert (Hnb : 0 <= Z.of_nat (bidx E E) <= 30).
  { unfold bidx. pose proof (Z.log2_nonneg (E - mn E + 1)). assert (Z.log2 (E - mn E + 1) < 31); [|lia]. pose proof (mn_pos E). apply Z.log2_lt_pow2; lia. }
  rewrite chunksz_exact by (unfold sizeof_z_heap, sizeof_bucket; lia). unfold sizeof_z_heap, sizeof_bucket.
  set (C0 := (16 + (Z.of_nat (bidx E E) + 1) * 4 + 7) / 8).
  assert (HC : 16 + (Z.of_nat (bidx E E) + 1) * 4 <= 8 * C0 /\ 2 <= C0 <= 18) by (unfold C0; Z.to_euclidean_division_equations; lia).
  destruct (Z.leb_spec (C0 + mn E) E) as [Hfit|]; cbn [negb]; [|left; lia]. pose proof (mn_pos E).
  pose proof (hb_pos E).
  assert (HS : shape A E C0) by (split; [lia|done|split; [lia|done]|lia]).
  replace (Z.to_nat (Z.of_nat (bidx E E) + 1)) with (nb E) by (unfold nb; lia).
  destruct (init_headers A E C0 HS (take_out m (A + 8) (16 - 8 + (Z.of_nat (bidx E E) + 1) * 4))) as (h' & Eh & Hok).
  - intros q Hq. rewrite take_out_lookup. unfold within in Hq. rewrite decide_False by lia. apply Hmap. unfold within. lia.
  - intros q Hq. rewrite take_out_lookup. unfold within in Hq. rewrite decide_False by lia. apply Hmap. unfold within. lia.
  - cbn zeta in Eh. rewrite Eh. destruct Hok as (F & Ho). destruct (st_heap _ _ _ _ _ _ (ok_st _ _ _ _ _ _ Ho)) as [-> ->].
    exists C0. split; [done|]. split; [by exists F|]. lia.
Qed.
End Init.
