(* ===== verification/HeapProps.v ===== *)
(** * The chunk heap: what its functions promise

    Blocks in use are disjoint, lie in the heap and keep their contents, whatever is
    allocated, freed and reallocated, and whatever their users write into them; and a heap
    without blocks is one free chunk again. *)

From S2P Require Import Prelude KState KLogic MemOps SysHeap HeapModel HeapOps HeapAlloc HeapSpec HeapAlign HeapRealloc HeapInit.

Local Open Scope Z_scope.

Section Heaps.
Context `{HeapConfig}.

(** A heap, the sizes and marks of its chunks, and the blocks in use. *)
Definition heap_rep (h : z_heap) (cs : list (Z * bool)) (L : gmap Z Z) : Prop :=
  exists C0, shape (hp_addr h) (end_chunk h) C0 /\ rep (hp_addr h) (end_chunk h) C0 h cs L.

(** Requests that the code can handle: those it rejects as too big, and those that fit into
    the heap, with the header and what is added for the alignment. *)
Definition in_range (h : z_heap) (a r bytes : Z) : Prop :=
  size_too_big h bytes = true \/
  hb (end_chunk h) + bytes + slack (end_chunk h) a r <= 8 * end_chunk h /\ hp_addr h + 8 * end_chunk h + 8 + r <= 2 ^ 32.

Lemma rep_rebase A E C0 h cs L : shape A E C0 -> isheap A E h -> rep A E C0 h cs L -> heap_rep h cs L.
Proof using. intros HS [HA HE] Hrep. exists C0. by rewrite HA, HE. Qed.

Lemma alloc_align_0 h bytes : sys_heap_aligned_alloc h 0 bytes = sys_heap_alloc h bytes.
Proof using. unfold sys_heap_aligned_alloc, chunk_header_bytes. cbn. by destruct (big_heap h). Qed.

Lemma rep_empty A E C0 h cs : C0 < E -> rep A E C0 h cs ∅ -> exists k, cs = [(k, false)] /\ C0 + k = E.
Proof using.
  intros HC [(F & Ho) HB]. pose proof (st_tiled _ _ _ _ _ _ (ok_st _ _ _ _ _ _ Ho)) as Ht. pose proof (t_total _ _ _ _ _ Ht) as Htot.
  assert (Hu : forall s, (s, true) ∉ cs).
  { intros s (c & Hc)%(places_of C0). destruct (bl_full _ _ _ _ _ HB _ _ Hc) as (p & n & Hp & _). by rewrite lookup_empty in Hp. }
  destruct cs as [|[k [|]] cs]; [cbn in Htot; lia|exfalso; apply (Hu k); by left|].
  destruct cs as [|[k' [|]] cs]; [exists k; cbn in Htot; split; [done|lia]|exfalso; apply (Hu k'); by right; left|].
  pose proof (ok_coal _ _ _ _ _ _ Ho) as Hco. cbn in Hco. destruct Hco as (_ & [?|?] & _); done.
Qed.

(** C15: For a request in range (one that fits into the heap with header and padding, or is
    rejected as too big) sys_heap_alloc and sys_heap_aligned_alloc return a new block of at least
    the bytes asked for, aligned and rewound as asked, or NULL, and then the request was 0 or too
    big or every free chunk has less than twice the units needed; no block in use changes. *)
Theorem heap_alloc_refines h cs L a r bytes :
  heap_rep h cs L -> alloc_loops <> O -> align_arg a r -> 0 <= bytes < 2 ^ 32 -> in_range h a r bytes ->
  exists h' p, sys_heap_aligned_alloc h (a + r) bytes = Some (h', p) /\ (a + r = 0 -> sys_heap_alloc h bytes = Some (h', p)) /\
    (forall q n, L !! q = Some n -> agree (hp_mem h) (hp_mem h') q n) /\
    (p = 0 /\ heap_rep h' cs L /\
       (bytes = 0 \/ size_too_big h bytes = true \/ too_small (end_chunk h) cs (units (end_chunk h) (bytes + slack (end_chunk h) a r))) \/
     0 < p /\ exists cs' n, heap_rep h' cs' (<[p := n]> L) /\ L !! p = None /\ bytes <= n /\ aligned a r p).
Proof.
  intros (C0 & HS & Hrep) Hloops Ha Hb Hr.
  destruct (sys_heap_aligned_alloc_spec _ _ _ HS h cs L a r bytes Hrep Hloops Ha Hb Hr) as (h' & p & E1 & Hh' & Hag & Hres).
  exists h', p. split; [done|]. split; [intros E0; by rewrite <- alloc_align_0, <- E0|]. split; [done|].
  destruct Hres as [(-> & Hrep' & Hwhy)|(Hp & cs' & n & Hrep' & Hrest)]; [left|right].
  - split; [done|]. split; [by eapply rep_rebase|done].
  - split; [done|]. exists cs', n. split; [by eapply rep_rebase|done].
Qed.

(** C16: sys_heap_free takes the block out of use, merging its chunk with free neighbours,
    and changes no other block; sys_heap_usable_size returns the bytes of the block. *)
Theorem heap_free_refines h cs L p n :
  heap_rep h cs L -> L !! p = Some n ->
  sys_heap_usable_size h p = Some n /\
  exists h' cs', sys_heap_free h p = Some h' /\ heap_rep h' cs' (delete p L) /\
    forall q k, L !! q = Some k -> q <> p -> agree (hp_mem h) (hp_mem h') q k.
Proof.
  intros (C0 & HS & Hrep) Hp. split; [by eapply usable_size_spec|].
  destruct (sys_heap_free_spec _ _ _ HS h cs L p n Hrep Hp) as (h' & cs' & E1 & Hh' & Hrep' & Hag).
  exists h', cs'. split; [done|]. split; [by eapply rep_rebase|done].
Qed.

(** C17: For a new size in range (one that fits into the heap with header and padding, or is
    rejected as too big) sys_heap_aligned_realloc shrinks, grows or moves a block: the result is
    aligned, has room for the new size and begins with the old contents; or it is NULL and the
    block is as it was. Other blocks do not change. *)
Theorem heap_realloc_refines h cs L p n a bytes :
  heap_rep h cs L -> L !! p = Some n -> alloc_loops <> O -> align_arg a 0 -> 0 < bytes < 2 ^ 32 -> in_range h a 0 bytes ->
  exists h' q, sys_heap_aligned_realloc h p a bytes = Some (h', q) /\
    (forall p' k, L !! p' = Some k -> p' <> p -> agree (hp_mem h) (hp_mem h') p' k) /\
    (q = 0 /\ (exists cs', heap_rep h' cs' L) /\ agree (hp_mem h) (hp_mem h') p n \/
     0 < q /\ exists cs' n', heap_rep h' cs' (<[q := n']> (delete p L)) /\ delete p L !! q = None /\ bytes <= n' /\ aligned a 0 q /\
       moved (hp_mem h) (hp_mem h') p q (Z.min n bytes)).
Proof.
  intros (C0 & HS & Hrep) Hp Hloops Ha Hb Hr.
  destruct (sys_heap_aligned_realloc_spec _ _ _ HS h cs L p n a bytes Hrep Hp Hloops Ha Hb) as (h' & q & E1 & Hh' & Hag & Hres).
  { destruct Hr as [?|[? _]]; tauto. }
  exists h', q. split; [done|]. split; [done|]. destruct Hres as [(-> & (cs' & Hrep') & Hk)|(Hq & cs' & n' & Hrep' & Hrest)]; [left|right].
  - split; [done|]. split; [|done]. exists cs'. by eapply rep_rebase.
  - split; [done|]. exists cs', n'. split; [by eapply rep_rebase|done].
Qed.

(** C18: When all blocks have been freed the heap is one free chunk again, from which any
    request that fits into it is served: fragmentation does not outlive the blocks. *)
Theorem heap_whole_again h cs :
  heap_rep h cs ∅ -> alloc_loops <> O ->
  exists k, cs = [(k, false)] /\
    forall bytes, 0 < bytes -> hb (end_chunk h) + bytes <= 8 * k ->
      exists h' p, sys_heap_alloc h bytes = Some (h', p) /\ 0 < p.
Proof.
  intros (C0 & HS & Hrep) Hloops. pose proof (shape_C0 _ _ _ HS) as HC. pose proof (shape_end _ _ _ HS) as Hend. pose proof (shape_A _ _ _ HS) as [HA _].
  destruct (rep_empty _ _ _ _ _ (proj2 HC) Hrep) as (k & -> & Hk). exists k. split; [done|]. intros bytes Hb Hfit.
  pose proof (hb_pos (end_chunk h)) as [Hhb _].
  destruct (sys_heap_alloc_spec _ _ _ HS h _ ∅ bytes Hrep Hloops) as (h' & p & E1 & Hh' & _ & Hres); [lia|lia|].
  exists h', p. split; [done|]. destruct Hres as [(-> & _ & Hwhy)|[Hp _]]; [|done]. exfalso.
  destruct (units_spec (end_chunk h) bytes Hb) as [Hu _]. destruct Hwhy as [->|[Hbig|[_ Hone]]]; [lia| |].
  - unfold size_too_big, CHUNK_UNIT in Hbig. apply Z.geb_le in Hbig. assert (bytes / 8 < end_chunk h); [|lia].
    apply Z.div_lt_upper_bound; lia.
  - specialize (Hone k eq_refl). lia.
Qed.

(** ** Runs *)

(** The blocks in use after a call that returned [p]. *)
Definition track (h : z_heap) (p : Z) (L : gmap Z Z) : gmap Z Z :=
  match sys_heap_usable_size h p with Some n => <[p := n]> L | None => L end.

(** The states that the calls of heap.c reach, together with writes of the users to their
    blocks. *)
Inductive reach : z_heap -> gmap Z Z -> Prop :=
| reach_init m mem bytes h :
    0 < mem -> 24 <= bytes -> mem + bytes + 8 <= 2 ^ 32 -> mapped m mem bytes -> sys_heap_init m mem bytes = Some h -> reach h ∅
| reach_alloc h L a r bytes h' p :
    reach h L -> align_arg a r -> 0 <= bytes < 2 ^ 32 -> in_range h a r bytes ->
    sys_heap_aligned_alloc h (a + r) bytes = Some (h', p) -> reach h' (if p =? 0 then L else track h' p L)
| reach_free h L p h' :
    reach h L -> is_Some (L !! p) -> sys_heap_free h p = Some h' -> reach h' (delete p L)
| reach_realloc h L p a bytes h' q :
    reach h L -> is_Some (L !! p) -> align_arg a 0 -> 0 < bytes < 2 ^ 32 -> in_range h a 0 bytes ->
    sys_heap_aligned_realloc h p a bytes = Some (h', q) -> reach h' (if q =? 0 then L else track h' q (delete p L))
| reach_write h L p n m :
    reach h L -> L !! p = Some n -> (forall q, is_Some (m !! q) <-> is_Some (hp_mem h !! q)) ->
    (forall q, ~ p <= q < p + n -> m !! q = hp_mem h !! q) -> reach (with_mem m h) L.

Lemma track_rep h cs p n L : heap_rep h cs (<[p := n]> L) -> track h p L = <[p := n]> L.
Proof using.
  intros (C0 & HS & Hrep). unfold track. erewrite usable_size_spec; [done|done|exact Hrep|]. apply lookup_insert_eq.
Qed.

Lemma init_rep m mem bytes h :
  0 < mem -> 24 <= bytes -> mem + bytes + 8 <= 2 ^ 32 -> mapped m mem bytes -> sys_heap_init m mem bytes = Some h ->
  exists k, heap_rep h [(k, false)] ∅ /\ hp_addr h < hp_addr h + 8 * end_chunk h + hb (end_chunk h) <= mem + bytes /\
    mem <= hp_addr h /\ mem + bytes - 160 < 8 * k + hp_addr h.
Proof using.
  intros Hm Hb Hlt Hmap Eh. pose proof (sys_heap_init_spec m mem bytes Hm Hb Hlt Hmap) as Hi. rewrite Eh in Hi.
  destruct Hi as (C0 & HS & Hok & B1 & B2 & B3). exists (end_chunk h - C0). pose proof (hb_pos (end_chunk h)). pose proof (shape_C0 _ _ _ HS).
  split; [|lia]. exists C0. split; [done|]. split; [done|]. split.
  - intros p n Hp. by rewrite lookup_empty in Hp.
  - intros c s Hc. cbn in Hc. apply list_elem_of_singleton in Hc. done.
  - intros p p' n n' c Hp. by rewrite lookup_empty in Hp.
Qed.

Lemma reach_rep h L : alloc_loops <> O -> reach h L -> exists cs, heap_rep h cs L.
Proof using.
  intros Hloops. induction 1 as [m mem bytes h Hm Hb Hlt Hmap Eh|h L a r bytes h' p _ (cs & C0 & HS & Hrep) Ha Hb Hr Eh|h L p h' _ (cs & C0 & HS & Hrep) [n Hp] Eh
    |h L p a bytes h' q _ (cs & C0 & HS & Hrep) [n Hp] Ha Hb Hr Eh|h L p n m _ (cs & C0 & HS & Hrep) Hp Hd Hm].
  - destruct (init_rep _ _ _ _ Hm Hb Hlt Hmap Eh) as (k & Hrep & _). eauto.
  - destruct (sys_heap_aligned_alloc_spec _ _ _ HS h cs L a r bytes Hrep Hloops Ha Hb Hr) as (h1 & p1 & E1 & Hh & _ & Hres).
    rewrite E1 in Eh. injection Eh as -> ->. destruct Hres as [(-> & Hrep' & _)|(Hp & cs' & n & Hrep' & _)]; [exists cs; by eapply rep_rebase|].
    rewrite (proj2 (Z.eqb_neq p 0)) by lia. exists cs'. pose proof (rep_rebase _ _ _ _ _ _ HS Hh Hrep') as Hrr. by rewrite (track_rep _ _ _ _ _ Hrr).
  - destruct (sys_heap_free_spec _ _ _ HS h cs L p n Hrep Hp) as (h1 & cs' & E1 & Hh & Hrep' & _).
    rewrite E1 in Eh. injection Eh as ->. exists cs'. by eapply rep_rebase.
  - destruct (sys_heap_aligned_realloc_spec _ _ _ HS h cs L p n a bytes Hrep Hp Hloops Ha Hb) as (h1 & q1 & E1 & Hh & _ & Hres).
    { destruct Hr as [?|[? _]]; tauto. }
    rewrite E1 in Eh. injection Eh as -> ->. destruct Hres as [(-> & (cs' & Hrep') & _)|(Hq & cs' & n' & Hrep' & _)]; [exists cs'; by eapply rep_rebase|].
    rewrite (proj2 (Z.eqb_neq q 0)) by lia. exists cs'. pose proof (rep_rebase _ _ _ _ _ _ HS Hh Hrep') as Hrr. by rewrite (track_rep _ _ _ _ _ Hrr).
  - exists cs, C0. split; [done|]. by apply (user_write _ _ _ HS h cs L p n m).
Qed.

(** C14: In every state that calls of the heap functions with requests in range (which fit
    into the heap with header and padding, or are rejected as too big) and writes of users to
    their own blocks reach from an initialised heap, the blocks in use are disjoint, lie in mapped
    memory inside the heap, have the size sys_heap_usable_size reports, and can be freed without
    tripping an assertion. *)
Theorem heap_safe h L :
  reach h L -> alloc_loops <> O ->
  (forall p n, L !! p = Some n ->
     hp_addr h < p /\ 0 < n /\ p + n <= hp_addr h + 8 * end_chunk h /\ mapped (hp_mem h) p n /\
     sys_heap_usable_size h p = Some n /\ is_Some (sys_heap_free h p)) /\
  (forall p q n k, L !! p = Some n -> L !! q = Some k -> p <> q -> p + n <= q \/ q + k <= p).
Proof.
  intros Hre Hloops. destruct (reach_rep h L Hloops Hre) as (cs & C0 & HS & Hrep). split.
  - intros p n Hp. pose proof (block_mapped _ _ _ HS _ _ _ _ _ Hrep Hp) as Hmap. pose proof (usable_size_spec _ _ _ HS _ _ _ _ _ Hrep Hp) as Hu.
    destruct (sys_heap_free_spec _ _ _ HS h cs L p n Hrep Hp) as (h' & _ & E1 & _).
    destruct (block_chunk _ _ _ _ _ _ _ _ Hrep Hp) as (pre & s & post & -> & _ & Hi & He & Hn). destruct Hrep as [(F & Ho) _].
    pose proof (t_bounds _ _ _ _ _ _ _ _ (st_tiled _ _ _ _ _ _ (ok_st _ _ _ _ _ _ Ho))) as (B1 & B2 & B3).
    pose proof (hb_pos (end_chunk h)). pose proof (shape_C0 _ _ _ HS). unfold in_chunk in Hi.
    split_and!; try done; try lia.
  - intros p q n k. by apply (blocks_apart (hp_addr h) (end_chunk h) C0 h cs L).
Qed.

Theorem heap_init_correct m mem bytes :
  0 < mem -> 24 <= bytes -> mem + bytes + 8 <= 2 ^ 32 -> mapped m mem bytes ->
  match sys_heap_init m mem bytes with
  | Some h => exists k, heap_rep h [(k, false)] ∅ /\ mem <= hp_addr h /\
      hp_addr h + 8 * end_chunk h + hb (end_chunk h) <= mem + bytes /\ mem + bytes - 160 < 8 * k + hp_addr h
  | None => bytes < 192 \/ max_units < bytes / 8
  end.
Proof.
  intros Hm Hb Hlt Hmap. pose proof (sys_heap_init_spec m mem bytes Hm Hb Hlt Hmap) as Hi.
  destruct (sys_heap_init m mem bytes) as [h|] eqn:Eh; [|done]. destruct (init_rep _ _ _ _ Hm Hb Hlt Hmap Eh) as (k & Hrep & B). exists k. split; [done|]. lia.
Qed.

(** ** Requests for more than the heap *)

(** C19: For a request that leaves less than a header of the whole heap, which size_too_big
    does not reject, sys_heap_alloc indexes the array of free lists past its end when the number
    of units is at the limit of a list. *)
Theorem heap_alloc_past_buckets h cs L bytes k :
  heap_rep h cs L -> 0 <= k -> end_chunk h + 2 - mn (end_chunk h) = 2 ^ k ->
  8 * end_chunk h - hb (end_chunk h) < bytes < 8 * end_chunk h ->
  size_too_big h bytes = false /\ sys_heap_alloc h bytes = None.
Proof.
  intros (C0 & HS & Hrep) Hk Hpow Hb. pose proof (shape_C0 _ _ _ HS) as HC. pose proof (shape_end _ _ _ HS) as Hend. pose proof (shape_A _ _ _ HS) as [HA HA8].
  assert (HA' : 8 <= hp_addr h) by (clear -HA HA8; Z.to_euclidean_division_equations; lia).
  pose proof (hb_pos (end_chunk h)) as [Hhb _]. assert (Hh : isheap (hp_addr h) (end_chunk h) h) by done.
  assert (Hbig : size_too_big h bytes = false).
  { unfold size_too_big, CHUNK_UNIT. rewrite Z.geb_leb. apply Z.leb_gt. apply Z.div_lt_upper_bound; lia. }
  split; [done|]. unfold sys_heap_alloc. rewrite (proj2 (Z.eqb_neq bytes 0)), Hbig by lia. cbn [orb].
  rewrite (bytes_to_chunksz_exact (hp_addr h) (end_chunk h)) by (done || lia). fold (units (end_chunk h) bytes).
  destruct (units_spec (end_chunk h) bytes ltac:(lia)) as [Hu Hm]. replace (units (end_chunk h) bytes) with (end_chunk h + 1) by lia.
  pose proof (shape_E _ _ _ HS). pose proof (lim_32 (end_chunk h)). pose proof (mn_pos (end_chunk h)).
  assert (mn (end_chunk h) <= 2) by (unfold mn; destruct big; lia). unfold alloc_chunk. rewrite (bucket_idx_exact (hp_addr h) (end_chunk h)) by (done || lia). cbn [mbind option_bind].
  destruct Hrep as [(F & Ho) _]. destruct (st_lists _ _ _ _ _ _ (ok_st _ _ _ _ _ _ Ho)) as [fl Hl]. destruct (ls_len _ _ _ _ _ Hl) as [Lb _].
  unfold bucket_next. rewrite Nat2Z.id, lookup_ge_None_2; [done|]. rewrite Lb. unfold nb, bidx.
  replace (end_chunk h + 1 - mn (end_chunk h) + 1) with (2 ^ k) by lia. rewrite Z.log2_pow2 by done.
  assert (Z.log2 (end_chunk h - mn (end_chunk h) + 1) < k); [apply Z.log2_lt_pow2; lia|].
  pose proof (Z.log2_nonneg (end_chunk h - mn (end_chunk h) + 1)). lia.
Qed.
End Heaps.

(** ** A heap of 33 units at the address 16 *)

Module HeapDemo.
#[local] Instance demo_config : HeapConfig := mkHeapConfig false false 3.

Definition demo_mem : gmap Z Z := list_to_map ((fun a => (a, 0)) <$> seqZ 16 268).
Definition demo_heap : z_heap := default (mkHeap 0 ∅ 0 0 []) (sys_heap_init demo_mem 16 268).
(** Two blocks: one of 40 bytes, which begins 4 bytes before a multiple of 16, and one of
    30 bytes. *)
Definition demo_heap1 : z_heap := (default (demo_heap, 0) (sys_heap_aligned_alloc demo_heap 20 40)).1.
Definition demo_heap2 : z_heap := (default (demo_heap, 0) (sys_heap_alloc demo_heap1 30)).1.
Definition demo_blocks : gmap Z Z := <[108 := 36]> (<[60 := 44]> ∅).

Lemma demo_loops : alloc_loops <> O.
Proof. done. Qed.

Lemma demo_mapped n : 0 <= n <= 268 -> mapped demo_mem 16 n.
Proof.
  intros Hn q Hq. unfold within in Hq. assert (Hd : q ∈ seqZ 16 268) by (apply elem_of_seqZ; lia).
  unfold demo_mem. exists 0. apply elem_of_list_to_map; [|by apply list_elem_of_fmap; exists q].
  rewrite <- list_fmap_compose. cbn. rewrite list_fmap_id. apply NoDup_seqZ.
Qed.

Lemma demo_init : sys_heap_init demo_mem 16 268 = Some demo_heap.
Proof. vm_compute. reflexivity. Qed.

Lemma demo_reach : reach demo_heap ∅.
Proof. apply (reach_init demo_mem 16 268); try lia; [by apply demo_mapped|apply demo_init]. Qed.

Lemma demo_reach2 : reach demo_heap2 demo_blocks.
Proof.
  replace demo_blocks with (if 108 =? 0 then <[60 := 44]> ∅ else track demo_heap2 108 (<[60 := 44]> ∅)) by (by vm_compute).
  apply (reach_alloc demo_heap1 (<[60 := 44]> ∅) 0 0 30 demo_heap2 108); [|by left|lia|right; by vm_compute|vm_compute; reflexivity].
  replace (<[60 := 44]> ∅) with (if 60 =? 0 then ∅ else track demo_heap1 60 ∅) by (by vm_compute).
  apply (reach_alloc demo_heap ∅ 16 4 40 demo_heap1 60); [apply demo_reach| |lia|right; by vm_compute|vm_compute; reflexivity].
  right. exists 4. split; [lia|]. split; [done|]. right. exists 2. split; [lia|done].
Qed.

Lemma heap_safe_witness :
  reach demo_heap2 demo_blocks /\ alloc_loops <> O /\ demo_blocks !! 108 = Some 36 /\ 108 + 36 <= hp_addr demo_heap2 + 8 * end_chunk demo_heap2.
Proof.
  pose proof (heap_safe demo_heap2 demo_blocks demo_reach2 demo_loops) as [Hs _].
  split; [apply demo_reach2|]. split; [done|]. split; [done|]. by destruct (Hs 108 36 eq_refl) as (_ & _ & ? & _).
Defined.

Lemma heap_alloc_refines_witness :
  exists cs h' p, heap_rep demo_heap cs ∅ /\ sys_heap_aligned_alloc demo_heap 20 40 = Some (h', p) /\ 0 < p /\ aligned 16 4 p.
Proof.
  destruct (reach_rep demo_heap ∅ demo_loops demo_reach) as (cs & Hrep). exists cs.
  destruct (heap_alloc_refines demo_heap cs ∅ 16 4 40 Hrep) as (h' & p & E1 & _ & _ & Hres); [done| |lia|right; by vm_compute|].
  { right. exists 4. split; [lia|]. split; [done|]. right. exists 2. split; [lia|done]. }
  exists h', p. change (16 + 4) with 20 in E1. split; [exact Hrep|]. split; [exact E1|]. destruct Hres as [(-> & _)|(Hp & cs' & n & _ & _ & _ & Ha)]; [|exact (conj Hp Ha)].
  exfalso. assert (Ep : snd <$> sys_heap_aligned_alloc demo_heap 20 40 = Some 60) by (by vm_compute). rewrite E1 in Ep. done.
Defined.

Lemma heap_free_refines_witness :
  exists cs h' cs', heap_rep demo_heap2 cs demo_blocks /\ sys_heap_free demo_heap2 108 = Some h' /\ heap_rep h' cs' (delete 108 demo_blocks).
Proof.
  destruct (reach_rep demo_heap2 demo_blocks demo_loops demo_reach2) as (cs & Hrep). exists cs.
  destruct (heap_free_refines demo_heap2 cs demo_blocks 108 36 Hrep eq_refl) as (_ & h' & cs' & E1 & Hrep' & _).
  exists h', cs'. exact (conj Hrep (conj E1 Hrep')).
Defined.

Lemma heap_realloc_refines_witness :
  exists cs h' q, heap_rep demo_heap2 cs demo_blocks /\ sys_heap_aligned_realloc demo_heap2 60 8 100 = Some (h', q) /\
    0 < q /\ moved (hp_mem demo_heap2) (hp_mem h') 60 q 44.
Proof.
  destruct (reach_rep demo_heap2 demo_blocks demo_loops demo_reach2) as (cs & Hrep). exists cs.
  destruct (heap_realloc_refines demo_heap2 cs demo_blocks 60 44 8 100 Hrep eq_refl) as (h' & q & E1 & _ & Hres); [done| |lia|right; by vm_compute|].
  { right. exists 3. split; [lia|]. by split; [|left]. }
  exists h', q. split; [exact Hrep|]. split; [exact E1|]. destruct Hres as [(-> & _)|(Hq & cs' & n & _ & _ & _ & _ & Hm)]; [|exact (conj Hq Hm)].
  exfalso. assert (Ep : snd <$> sys_heap_aligned_realloc demo_heap2 60 8 100 = Some 152) by (by vm_compute). rewrite E1 in Ep. done.
Defined.

Lemma heap_whole_again_witness :
  exists cs k, heap_rep demo_heap cs ∅ /\ cs = [(k, false)].
Proof.
  destruct (reach_rep demo_heap ∅ demo_loops demo_reach) as (cs & Hrep).
  destruct (heap_whole_again demo_heap cs Hrep demo_loops) as (k & -> & _).
  exists [(k, false)], k. exact (conj Hrep eq_refl).
Defined.

Lemma heap_init_correct_witness :
  mapped demo_mem 16 268 /\ exists k, heap_rep demo_heap [(k, false)] ∅ /\ 100 < 8 * k.
Proof.
  split; [by apply demo_mapped|]. pose proof (heap_init_correct demo_mem 16 268 ltac:(lia) ltac:(lia) ltac:(lia) (demo_mapped 268 ltac:(lia))) as Hi.
  rewrite demo_init in Hi. destruct Hi as (k & Hrep & _ & _ & Hk). exists k. split; [exact Hrep|].
  assert (Ea : hp_addr demo_heap = 16) by (by vm_compute). rewrite Ea in Hk. lia.
Defined.

(** A heap of 15 units, with four lists, and a request for 119 of its 120 bytes. *)
Definition tight_heap : z_heap := default (mkHeap 0 ∅ 0 0 []) (sys_heap_init demo_mem 16 124).

Lemma tight_init : sys_heap_init demo_mem 16 124 = Some tight_heap.
Proof. vm_compute. reflexivity. Qed.

Lemma tight_reach : reach tight_heap ∅.
Proof. apply (reach_init demo_mem 16 124); [lia|lia|lia|by apply demo_mapped|apply tight_init]. Qed.

Lemma heap_alloc_past_buckets_witness :
  size_too_big tight_heap 119 = false /\ sys_heap_alloc tight_heap 119 = None.
Proof.
  destruct (reach_rep tight_heap ∅ demo_loops tight_reach) as (cs & Hrep).
  apply (heap_alloc_past_buckets tight_heap cs ∅ 119 4 Hrep); by vm_compute.
Defined.

(** The padding for an alignment is not checked at all: with an alignment of 4096 the index
    of the list for 16 bytes is 9, and there are six lists. *)
Example aligned_alloc_past_buckets :
  size_too_big demo_heap 16 = false /\ length (buckets demo_heap) = 6%nat /\ sys_heap_aligned_alloc demo_heap 4096 16 = None.
Proof. vm_compute. repeat split; reflexivity. Qed.
End HeapDemo.
