(* ===== verification/BitOps.v ===== *)
(** * Bits of machine words

    Bit tests of the operations on words, words as sequences of bits and their reversal,
    and the tactics that prove equations between words bit by bit. *)

From S2P Require Import Prelude.

Local Open Scope Z_scope.

(** ** Bits of words *)

Create HintDb crc.
Create HintDb crcbits.

Lemma testbit_wrap_u w x i : 0 <= w -> Z.testbit (wrap_u w x) i = (i <? w) && Z.testbit x i.
Proof. intros. unfold wrap_u. by apply Z.testbit_mod_pow2. Qed.

Lemma testbit_if (b : bool) x y i :
  Z.testbit (if b then x else y) i = if b then Z.testbit x i else Z.testbit y i.
Proof. by destruct b. Qed.

Lemma testbit_shiftl x n i : 0 <= n -> Z.testbit (Z.shiftl x n) i = Z.testbit x (i - n).
Proof.
  intros. destruct (Z.ltb_spec i 0); [by rewrite !Z.testbit_neg_r by lia|].
  by apply Z.shiftl_spec.
Qed.

#[export] Hint Rewrite Z.lxor_spec Z.land_spec Z.lor_spec testbit_if Z.bits_0 : crcbits.
#[export] Hint Rewrite testbit_shiftl Z.shiftr_spec testbit_wrap_u Z.lnot_spec using lia : crcbits.

Lemma land_pow2_eqb x m n : 0 <= n -> m = 2 ^ n -> negb (Z.land x m =? 0) = Z.testbit x n.
Proof.
  intros ? ->. rewrite <- Z.shiftl_1_l, <- negb_involutive. f_equal. by apply land_BIT_eqb.
Qed.

Lemma testbit_above w x i : 0 <= x < 2 ^ w -> w <= i -> Z.testbit x i = false.
Proof.
  intros Hx Hi. destruct (Z.ltb_spec w 0).
  - rewrite Z.pow_neg_r in Hx by lia. lia.
  - rewrite <- (Z.mod_small x (2 ^ w)) by lia. by apply Z.mod_pow2_bits_high.
Qed.

Lemma lxor_range w x y : 0 <= w -> 0 <= x < 2 ^ w -> 0 <= y < 2 ^ w -> 0 <= Z.lxor x y < 2 ^ w.
Proof.
  intros Hw Hx Hy. rewrite <- (wrap_u_small w x), <- (wrap_u_small w y) by lia.
  replace (Z.lxor _ _) with (wrap_u w (Z.lxor x y)).
  - by apply wrap_u_range.
  - apply Z.bits_inj'. intros i Hi. rewrite Z.lxor_spec, !testbit_wrap_u, Z.lxor_spec by lia.
    by destruct (i <? w).
Qed.

Lemma shiftr_range w x k : 0 <= k -> 0 <= x < 2 ^ w -> 0 <= Z.shiftr x k < 2 ^ w.
Proof.
  intros Hk Hx. rewrite Z.shiftr_div_pow2 by lia. pose proof (Z.pow_pos_nonneg 2 k).
  split; [apply Z.div_pos; lia|]. apply Z.div_lt_upper_bound; nia.
Qed.

Lemma if_range (b : bool) w x : 0 <= x < 2 ^ w -> 0 <= (if b then x else 0) < 2 ^ w.
Proof. destruct b; lia. Qed.

#[export] Hint Resolve lxor_range shiftr_range if_range wrap_u_range : crc.

Lemma shiftl_lxor x y n : 0 <= n -> Z.shiftl (Z.lxor x y) n = Z.lxor (Z.shiftl x n) (Z.shiftl y n).
Proof. intros. apply Z.bits_inj'. intros i Hi. by autorewrite with crcbits. Qed.

Lemma testbit_1 i n : Z.testbit 1 (i - n) = (i =? n).
Proof.
  destruct (Z.eqb_spec i n) as [->|]; [by rewrite Z.sub_diag|].
  destruct (Z.ltb_spec i n); [by rewrite Z.testbit_neg_r by lia|].
  apply Z.bits_above_log2; cbn; lia.
Qed.

(** Equality of integers bit by bit: every bit of both sides is computed, and the
    comparisons of bit positions are decided. *)
Ltac bit_cases :=
  repeat match goal with
  | |- context [?a <? ?b] =>
      first [rewrite (proj2 (Z.ltb_lt a b)) by lia | rewrite (proj2 (Z.ltb_ge a b)) by lia
            | destruct (Z.ltb_spec a b)]
  | |- context [?a =? ?b] =>
      first [rewrite (proj2 (Z.eqb_eq a b)) by lia | rewrite (proj2 (Z.eqb_neq a b)) by lia
            | destruct (Z.eqb_spec a b)]
  | |- context [Z.testbit _ ?n] => rewrite (Z.testbit_neg_r _ n) by lia
  end.

Ltac bits := autorewrite with crcbits.

Ltac bool_cases :=
  rewrite ?andb_true_r, ?andb_false_r, ?xorb_false_r; cbn [andb orb xorb negb];
  repeat match goal with |- context [Z.testbit ?x ?n] => destruct (Z.testbit x n) end;
  cbn [andb orb xorb negb]; repeat match goal with |- context [xorb _ ?b] => is_var b; destruct b end;
  try reflexivity.

Lemma wrap_u_bits w x : 0 <= w -> (forall i, w <= i -> Z.testbit x i = false) -> wrap_u w x = x.
Proof.
  intros Hw Hx. apply Z.bits_inj'. intros i Hi. rewrite testbit_wrap_u by lia.
  destruct (Z.ltb_spec i w); [done|]. by rewrite Hx.
Qed.

Lemma wrap_u_lxor w x y : 0 <= w -> wrap_u w (Z.lxor x y) = Z.lxor (wrap_u w x) (wrap_u w y).
Proof. intros. apply Z.bits_inj'. intros i Hi. bits. by destruct (i <? w). Qed.

Lemma shiftr_lxor x y n : 0 <= n -> Z.shiftr (Z.lxor x y) n = Z.lxor (Z.shiftr x n) (Z.shiftr y n).
Proof. intros. apply Z.bits_inj'. intros i Hi. by bits. Qed.

Lemma shiftr_small n x : 0 <= n -> 0 <= x < 2 ^ n -> Z.shiftr x n = 0.
Proof. intros. rewrite Z.shiftr_div_pow2 by lia. by apply Z.div_small. Qed.

Lemma lxor_swap a b c d : Z.lxor (Z.lxor a b) (Z.lxor c d) = Z.lxor (Z.lxor a c) (Z.lxor b d).
Proof. apply Z.bits_inj'. intros i Hi. bits. bool_cases. Qed.

Lemma land_ones_wrap x m n : 0 <= n -> m = 2 ^ n - 1 -> Z.land x m = wrap_u n x.
Proof. intros ? ->. unfold wrap_u. rewrite <- Z.land_ones, Z.ones_equiv by lia. f_equal. Qed.

(** ** Proof by cases *)

Lemma below_cases (P : Z -> Prop) n : Forall P (seqZ 0 n) -> forall x, 0 <= x < n -> P x.
Proof. intros HP x Hx. eapply Forall_forall; [done|]. apply elem_of_seqZ. lia. Qed.

(** ** Words and sequences of bits *)

(** The [k] low bits of a word, highest first. *)
Fixpoint msb_bits (k : nat) (x : Z) : list bool :=
  match k with O => [] | S k' => Z.testbit x (Z.of_nat k') :: msb_bits k' x end.

(** The [k] low bits of a word, lowest first. *)
Definition lsb_bits (k : nat) (x : Z) : list bool := reverse (msb_bits k x).

(** The number that a sequence of bits is, first bit highest. *)
Definition bits_value (bs : list bool) : Z :=
  foldl (fun acc (b : bool) => Z.lor (Z.shiftl acc 1) (if b then 1 else 0)) 0 bs.

Fixpoint brev (k : nat) (x : Z) : Z :=
  match k with
  | O => 0
  | S k' => Z.lor (Z.shiftl (if Z.testbit x 0 then 1 else 0) (Z.of_nat k')) (brev k' (Z.shiftr x 1))
  end.

(** A buffer of bytes. *)
Definition byte_list (src : list Z) : Prop := Forall (fun x => 0 <= x < 2 ^ 8) src.

Lemma msb_bits_length k x : length (msb_bits k x) = k.
Proof. induction k as [|k IH]; cbn; congruence. Qed.

Lemma msb_bits_ext k x y :
  (forall i, 0 <= i < Z.of_nat k -> Z.testbit x i = Z.testbit y i) -> msb_bits k x = msb_bits k y.
Proof.
  induction k as [|k IH]; intros H; [done|]. cbn [msb_bits].
  rewrite (H (Z.of_nat k)) by lia. f_equal. apply IH. intros. apply H. lia.
Qed.

Lemma testbit_snoc v (b : bool) i : 0 <= i ->
  Z.testbit (Z.lor (Z.shiftl v 1) (if b then 1 else 0)) i =
  if i =? 0 then b else Z.testbit v (i - 1).
Proof.
  intros. bits. replace i with (i - 0) at 2 by lia. rewrite testbit_1.
  bit_cases; destruct b; by rewrite ?orb_false_r, ?orb_true_r.
Qed.

Lemma msb_bits_shift k x : msb_bits (S k) x = msb_bits k (Z.shiftr x 1) ++ [Z.testbit x 0].
Proof.
  induction k as [|k IH]; [done|].
  change (msb_bits (S (S k)) x) with (Z.testbit x (Z.of_nat (S k)) :: msb_bits (S k) x).
  rewrite IH. cbn [msb_bits app]. f_equal. rewrite Z.shiftr_spec by lia. f_equal. lia.
Qed.

Lemma bits_value_snoc xs b :
  bits_value (xs ++ [b]) = Z.lor (Z.shiftl (bits_value xs) 1) (if b then 1 else 0).
Proof. unfold bits_value. by rewrite foldl_app. Qed.

Lemma msb_bits_value xs : msb_bits (length xs) (bits_value xs) = xs.
Proof.
  induction xs as [|b xs IH] using rev_ind; [done|].
  rewrite length_app, Nat.add_1_r, msb_bits_shift, bits_value_snoc. f_equal.
  - transitivity (msb_bits (length xs) (bits_value xs)); [|done]. apply msb_bits_ext. intros i Hi.
    rewrite Z.shiftr_spec, testbit_snoc by lia. bit_cases. f_equal. lia.
  - by rewrite testbit_snoc by lia.
Qed.

(** A word after a sequence of bits. *)
Lemma bits_value_word k xs x :
  bits_value (xs ++ msb_bits k x) =
  Z.lor (Z.shiftl (bits_value xs) (Z.of_nat k)) (wrap_u (Z.of_nat k) x).
Proof.
  revert x. induction k as [|k IH]; intros x.
  - cbn. unfold wrap_u. by rewrite app_nil_r, Z.mod_1_r, Z.shiftl_0_r, Z.lor_0_r.
  - rewrite msb_bits_shift, app_assoc, bits_value_snoc, IH. apply Z.bits_inj'. intros i Hi.
    rewrite testbit_snoc by lia. destruct (Z.eqb_spec i 0) as [->|].
    + bits. by rewrite (Z.testbit_neg_r _ (0 - Z.of_nat (S k))) by lia.
    + bits. replace (i - 1 + 1) with i by lia.
      replace (i - 1 - Z.of_nat k) with (i - Z.of_nat (S k)) by lia.
      by bit_cases.
Qed.

Lemma msb_bits_nibbles x : msb_bits 8 x = msb_bits 4 (Z.shiftr x 4) ++ msb_bits 4 x.
Proof. cbn [msb_bits]. by rewrite !Z.shiftr_spec by lia. Qed.

(** ** Reversal *)

Lemma testbit_brev k x i :
  0 <= i -> Z.testbit (brev k x) i = (i <? Z.of_nat k) && Z.testbit x (Z.of_nat k - 1 - i).
Proof.
  revert x. induction k as [|k IH]; intros x Hi; cbn [brev].
  - rewrite Z.bits_0. by bit_cases.
  - bits. rewrite IH by done. rewrite testbit_1.
    destruct (Z.eqb_spec i (Z.of_nat k)) as [->|].
    + rewrite Z.ltb_irrefl, (proj2 (Z.ltb_lt _ _)) by lia.
      replace (Z.of_nat (S k) - 1 - Z.of_nat k) with 0 by lia. bool_cases.
    + destruct (Z.ltb_spec i (Z.of_nat k)).
      * rewrite Z.shiftr_spec, (proj2 (Z.ltb_lt i (Z.of_nat (S k)))) by lia.
        replace (Z.of_nat k - 1 - i + 1) with (Z.of_nat (S k) - 1 - i) by lia.
        rewrite andb_true_l. by destruct (Z.testbit x 0).
      * rewrite (proj2 (Z.ltb_ge i (Z.of_nat (S k)))) by lia. by destruct (Z.testbit x 0).
Qed.

Lemma brev_range k x : 0 <= brev k x < 2 ^ Z.of_nat k.
Proof.
  rewrite <- (wrap_u_bits (Z.of_nat k) (brev k x)); [apply wrap_u_range; lia|lia|].
  intros i Hi. rewrite testbit_brev by lia. by bit_cases.
Qed.

Lemma brev_involutive k x : 0 <= x < 2 ^ Z.of_nat k -> brev k (brev k x) = x.
Proof.
  intros Hx. apply Z.bits_inj'. intros i Hi. rewrite testbit_brev by lia.
  destruct (Z.ltb_spec i (Z.of_nat k)).
  - rewrite testbit_brev by lia. bit_cases. cbn [andb]. f_equal. lia.
  - symmetry. by eapply testbit_above.
Qed.

Lemma brev_inj k x y :
  0 <= x < 2 ^ Z.of_nat k -> 0 <= y < 2 ^ Z.of_nat k -> brev k x = brev k y -> x = y.
Proof. intros Hx Hy H. by rewrite <- (brev_involutive k x), H, brev_involutive. Qed.

Lemma msb_bits_brev k x : msb_bits k (brev k x) = lsb_bits k x.
Proof.
  unfold lsb_bits. revert x. induction k as [|k IH]; intros x; [done|].
  rewrite (msb_bits_shift k x), reverse_app, <- IH. cbn [msb_bits reverse rev_append].
  rewrite testbit_brev by lia. bit_cases. cbn [andb].
  change (reverse [Z.testbit x 0]) with [Z.testbit x 0]. cbn [app]. f_equal.
  - f_equal. lia.
  - apply msb_bits_ext. intros i Hi. rewrite !testbit_brev by lia. bit_cases. cbn [andb].
    rewrite Z.shiftr_spec by lia. f_equal. lia.
Qed.
