(* ===== verification/Crc.v ===== *)
(** * CRC checksums

    lib/crc: the software implementations of the cyclic redundancy checks and the
    dispatch function of include/zephyr/sys/crc.h.  A buffer is the list of its bytes.
    The reference is the shift register that takes the message bit by bit; it computes the
    remainder of a division of polynomials over GF(2).  What the routines do to it is shown
    in the next file. *)

From S2P Require Import Prelude BitOps.

Local Open Scope Z_scope.

(** ** The code *)

(** *** lib/crc/crc16_sw.c *)

Definition crc16 (poly seed : Z) (src : list Z) : Z :=
  foldl (fun crc x =>
    let crc := u16 (Z.lxor crc (u16 (Z.shiftl x 8))) in
    Nat.iter 8 (fun crc =>
      if negb (Z.land crc 0x8000 =? 0) then u16 (Z.lxor (Z.shiftl crc 1) poly)
      else u16 (Z.shiftl crc 1)) crc) seed src.

Definition crc16_reflect (poly seed : Z) (src : list Z) : Z :=
  foldl (fun crc x =>
    let crc := u16 (Z.lxor crc (u16 x)) in
    Nat.iter 8 (fun crc =>
      if negb (Z.land crc 0x0001 =? 0) then u16 (Z.lxor (Z.shiftr crc 1) poly)
      else u16 (Z.shiftr crc 1)) crc) seed src.

Definition crc16_ccitt (seed : Z) (src : list Z) : Z :=
  foldl (fun seed x =>
    let e := u8 (Z.lxor seed x) in
    let f := u8 (Z.lxor e (Z.shiftl e 4)) in
    u16 (Z.lxor (Z.lxor (Z.lxor (Z.shiftr seed 8) (Z.shiftl f 8)) (Z.shiftl f 3))
           (Z.shiftr f 4))) seed src.

(** The last three statements of the loop of [crc16_itu_t]. *)
Definition itu_t_byte (seed : Z) : Z :=
  let seed := u16 (Z.lxor seed (Z.shiftr (Z.land seed 0xff) 4)) in
  let seed := u16 (Z.lxor seed (Z.shiftl seed 12)) in
  u16 (Z.lxor seed (Z.shiftl (Z.land seed 0xff) 5)).

Definition crc16_itu_t (seed : Z) (src : list Z) : Z :=
  foldl (fun seed x =>
    let seed := u16 (Z.lor (Z.shiftr seed 8) (Z.shiftl seed 8)) in
    let seed := u16 (Z.lxor seed x) in
    itu_t_byte seed) seed src.

Definition crc16_ansi (src : list Z) : Z := crc16_reflect 0xA001 0xffff src.

(** *** lib/crc/crc24_sw.c *)

Definition CRC24_PGP_INITIAL_VALUE : Z := 0x00B704CE.
Definition CRC24_FINAL_VALUE_MASK : Z := 0x00FFFFFF.
Definition CRC24_PGP_POLY : Z := 0x01864cfb.

Definition crc24_pgp_update (crc : Z) (data : list Z) : Z :=
  foldl (fun crc x =>
    let crc := u32 (Z.lxor crc (Z.shiftl x 16)) in
    Nat.iter 8 (fun crc =>
      let crc := u32 (Z.shiftl crc 1) in
      if negb (Z.land crc 0x01000000 =? 0) then u32 (Z.lxor crc CRC24_PGP_POLY) else crc)
      crc) crc data.

Definition crc24_pgp (data : list Z) : Z :=
  Z.land (crc24_pgp_update CRC24_PGP_INITIAL_VALUE data) CRC24_FINAL_VALUE_MASK.

(** *** lib/crc/crc32_sw.c and lib/crc/crc32c_sw.c *)

Definition crc32_table : list Z := [
  0x00000000; 0x1db71064; 0x3b6e20c8; 0x26d930ac;
  0x76dc4190; 0x6b6b51f4; 0x4db26158; 0x5005713c;
  0xedb88320; 0xf00f9344; 0xd6d6a3e8; 0xcb61b38c;
  0x9b64c2b0; 0x86d3d2d4; 0xa00ae278; 0xbdbdf21c].

Definition crc32_ieee_update (crc : Z) (data : list Z) : Z :=
  let crc := u32 (Z.lnot crc) in
  let crc := foldl (fun crc byte =>
    let crc := Z.lxor (Z.shiftr crc 4)
      (crc32_table !!! Z.to_nat (Z.land (Z.lxor crc byte) 0x0f)) in
    Z.lxor (Z.shiftr crc 4)
      (crc32_table !!! Z.to_nat (Z.land (Z.lxor crc (Z.shiftr byte 4)) 0x0f))) crc data in
  u32 (Z.lnot crc).

Definition crc32_ieee (data : list Z) : Z := crc32_ieee_update 0x0 data.

Definition crc32c_table : list Z := [
  0x00000000; 0x105EC76F; 0x20BD8EDE; 0x30E349B1;
  0x417B1DBC; 0x5125DAD3; 0x61C69362; 0x7198540D;
  0x82F63B78; 0x92A8FC17; 0xA24BB5A6; 0xB21572C9;
  0xC38D26C4; 0xD3D3E1AB; 0xE330A81A; 0xF36E6F75].

Definition CRC32C_XOR_OUT : Z := 0xFFFFFFFF.
Definition CRC32C_INIT : Z := 0xFFFFFFFF.

Definition crc32_c (crc : Z) (data : list Z) (first_pkt last_pkt : bool) : Z :=
  let crc := if first_pkt then CRC32C_INIT else crc in
  let crc := foldl (fun crc x =>
    let crc := Z.lxor (crc32c_table !!! Z.to_nat (Z.land (Z.lxor crc x) 0x0F))
      (Z.shiftr crc 4) in
    Z.lxor (crc32c_table !!! Z.to_nat (Z.land (Z.lxor crc (Z.shiftr x 4)) 0x0F))
      (Z.shiftr crc 4)) crc data in
  if last_pkt then Z.lxor crc CRC32C_XOR_OUT else crc.

(** *** lib/crc/crc4_sw.c *)

Definition crc4 (src : list Z) (polynomial initial_value : Z) (reversed : bool) : Z :=
  let crc := foldl (fun crc x =>
    foldl (fun crc j =>
      let crc := u8 (Z.lxor crc (Z.land (Z.shiftr x (4 * (1 - j))) 0xf)) in
      Nat.iter 4 (fun crc =>
        if reversed then
          if negb (Z.land crc 0x01 =? 0) then u8 (Z.lxor (Z.shiftr crc 1) polynomial)
          else u8 (Z.shiftr crc 1)
        else
          if negb (Z.land crc 0x8 =? 0) then u8 (Z.lxor (Z.shiftl crc 1) polynomial)
          else u8 (Z.shiftl crc 1)) crc) crc [0; 1]) initial_value src in
  Z.land crc 0xF.

Definition crc4_ti_lookup : list Z := [0x03; 0x65; 0xcf; 0xa9; 0xb8; 0xde; 0x74; 0x12].

(** [None]: the table is read past its end. *)
Definition crc4_ti (seed : Z) (src : list Z) : option Z :=
  foldl (fun seed x =>
    foldl (fun seed j =>
      seed ← seed;
      let index := u8 (Z.lxor seed (Z.land (Z.shiftr x (4 * (1 - j))) 0xf)) in
      entry ← crc4_ti_lookup !! Z.to_nat (Z.shiftr index 1);
      Some (Z.land (Z.shiftr entry ((1 - Z.land index 1) * 4)) 0xf)) seed [0; 1])
    (Some seed) src.

(** *** lib/crc/crc7_sw.c *)

Definition crc7_be (seed : Z) (src : list Z) : Z :=
  foldl (fun seed x =>
    let e := u8 (Z.lxor seed x) in
    let f := u8 (Z.lxor (Z.lxor e (Z.shiftr e 4)) (Z.shiftr e 7)) in
    u8 (Z.lxor (Z.shiftl f 1) (Z.shiftl f 4))) seed src.

(** *** lib/crc/crc8_sw.c *)

Definition crc8_ccitt_small_table : list Z := [
  0x00; 0x07; 0x0e; 0x09; 0x1c; 0x1b; 0x12; 0x15;
  0x38; 0x3f; 0x36; 0x31; 0x24; 0x23; 0x2a; 0x2d].

Definition crc8_ccitt (val : Z) (buf : list Z) : Z :=
  foldl (fun val x =>
    let val := u8 (Z.lxor val x) in
    let val := u8 (Z.lxor (Z.shiftl val 4)
      (crc8_ccitt_small_table !!! Z.to_nat (Z.shiftr val 4))) in
    u8 (Z.lxor (Z.shiftl val 4)
      (crc8_ccitt_small_table !!! Z.to_nat (Z.shiftr val 4)))) val buf.

Definition crc8 (src : list Z) (polynomial initial_value : Z) (reversed : bool) : Z :=
  foldl (fun crc x =>
    let crc := u8 (Z.lxor crc x) in
    Nat.iter 8 (fun crc =>
      if reversed then
        if negb (Z.land crc 0x01 =? 0) then u8 (Z.lxor (Z.shiftr crc 1) polynomial)
        else u8 (Z.shiftr crc 1)
      else
        if negb (Z.land crc 0x80 =? 0) then u8 (Z.lxor (Z.shiftl crc 1) polynomial)
        else u8 (Z.shiftl crc 1)) crc) initial_value src.

(** *** include/zephyr/sys/crc.h *)

Inductive crc_type :=
  CRC4 | CRC4_TI | CRC7_BE | CRC8 | CRC8_CCITT | CRC16 | CRC16_ANSI | CRC16_CCITT
  | CRC16_ITU_T | CRC24_PGP | CRC32_C | CRC32_IEEE.

Definition crc_by_type (type : crc_type) (src : list Z) (seed poly : Z)
    (reflect first last : bool) : option Z :=
  match type with
  | CRC4 => Some (crc4 src (u8 poly) (u8 seed) reflect)
  | CRC4_TI => crc4_ti (u8 seed) src
  | CRC7_BE => Some (crc7_be (u8 seed) src)
  | CRC8 => Some (crc8 src (u8 poly) (u8 seed) reflect)
  | CRC8_CCITT => Some (crc8_ccitt (u8 seed) src)
  | CRC16 => Some (if reflect then crc16_reflect (u16 poly) (u16 seed) src
                   else crc16 (u16 poly) (u16 seed) src)
  | CRC16_ANSI => Some (crc16_ansi src)
  | CRC16_CCITT => Some (crc16_ccitt (u16 seed) src)
  | CRC16_ITU_T => Some (crc16_itu_t (u16 seed) src)
  | CRC24_PGP =>
      let crc := crc24_pgp_update seed src in
      Some (if last then Z.land crc CRC24_FINAL_VALUE_MASK else crc)
  | CRC32_C => Some (crc32_c seed src first last)
  | CRC32_IEEE => Some (crc32_ieee_update seed src)
  end.

(** ** The reference: a shift register *)

(** One step of the register of [w] bits for the polynomial [x^w + p]: the next bit of the
    message is added to the one that is shifted out. *)
Definition crc_step (w p r : Z) (b : bool) : Z :=
  Z.lxor (wrap_u w (Z.shiftl r 1)) (if xorb (Z.testbit r (w - 1)) b then p else 0).

Definition crc_reg (w p r : Z) (bs : list bool) : Z := foldl (crc_step w p) r bs.

(** The same with the register reversed: the lowest bit is the first to leave it. *)
Definition crc_step_r (p r : Z) (b : bool) : Z :=
  Z.lxor (Z.shiftr r 1) (if xorb (Z.testbit r 0) b then p else 0).

Definition crc_reg_r (p r : Z) (bs : list bool) : Z := foldl (crc_step_r p) r bs.

(** A message as a sequence of bits. *)
Definition msg_bits (src : list Z) : list bool := src ≫= msb_bits 8.
Definition msg_bits_r (src : list Z) : list bool := src ≫= lsb_bits 8.

(** *** Polynomials over GF(2) *)

(** Product of two polynomials; the first one is given by its coefficients, lowest first. *)
Fixpoint clmul (q : list bool) (p : Z) : Z :=
  match q with [] => 0 | b :: q => Z.lxor (if b then p else 0) (Z.shiftl (clmul q p) 1) end.

(** [r] is the remainder of [m] divided by the polynomial [d] of degree [w]. *)
Definition is_remainder (w d m r : Z) : Prop :=
  0 <= r < 2 ^ w /\ exists q, m = Z.lxor (clmul q d) r.

(** The number that a message is, first byte highest. *)
Definition be_value (src : list Z) : Z := foldl (fun acc x => Z.lor (Z.shiftl acc 8) x) 0 src.

(** The polynomial whose remainder is the CRC: the message times [x^w], with the initial
    value added to the coefficients of the highest powers. *)
Definition dividend (w seed : Z) (src : list Z) : Z :=
  Z.lxor (Z.shiftl seed (8 * Z.of_nat (length src))) (Z.shiftl (be_value src) w).

(** ** Messages *)

Lemma msg_bits_app xs ys : msg_bits (xs ++ ys) = msg_bits xs ++ msg_bits ys.
Proof. unfold msg_bits. by rewrite bind_app. Qed.

Lemma msg_bits_length src : length (msg_bits src) = (8 * length src)%nat.
Proof.
  induction src as [|x src IH]; [done|]. change (x :: src) with ([x] ++ src).
  rewrite msg_bits_app, !length_app, IH. change (length (msg_bits [x])) with 8%nat. cbn [length]. lia.
Qed.

Lemma bits_value_msg src : byte_list src -> bits_value (msg_bits src) = be_value src.
Proof.
  induction src as [|x src IH] using rev_ind; intros Hs; [done|].
  apply Forall_app in Hs as [Hs Hx]. apply Forall_inv in Hx.
  rewrite msg_bits_app. change (msg_bits [x]) with (msb_bits 8 x ++ []).
  rewrite app_nil_r, bits_value_word, IH, wrap_u_small by done.
  unfold be_value. by rewrite foldl_app.
Qed.

(** ** The register *)

Section Register.
Context (w p : Z) (Hw : 0 < w) (Hp : 0 <= p < 2 ^ w).

Lemma crc_step_range r b : 0 <= crc_step w p r b < 2 ^ w.
Proof using Hw Hp. unfold crc_step. auto with crc lia. Qed.

Lemma crc_reg_range r bs : 0 <= r < 2 ^ w -> 0 <= crc_reg w p r bs < 2 ^ w.
Proof using Hw Hp.
  revert r. induction bs as [|b bs IH]; intros r Hr; [done|]. apply IH, crc_step_range.
Qed.

Lemma testbit_crc_step r b i : 0 <= i ->
  Z.testbit (crc_step w p r b) i =
  xorb ((i <? w) && Z.testbit r (i - 1))
    (if xorb (Z.testbit r (w - 1)) b then Z.testbit p i else false).
Proof using Hw. intros. unfold crc_step. bits. done. Qed.

(** A word of [k] bits can be added to the top of the register before the steps that shift
    it out. *)
Lemma crc_reg_word k r x : Z.of_nat k <= w -> 
  crc_reg w p r (msb_bits k x) =
  Nat.iter k (fun r => crc_step w p r false)
    (Z.lxor r (Z.shiftl (wrap_u (Z.of_nat k) x) (w - Z.of_nat k))).
Proof using Hw.
  revert r. induction k as [|k IH]; intros r Hk.
  - cbn. unfold wrap_u. by rewrite Z.mod_1_r, Z.shiftl_0_l, Z.lxor_0_r.
  - change (crc_reg w p r (msb_bits (S k) x))
      with (crc_reg w p (crc_step w p r (Z.testbit x (Z.of_nat k))) (msb_bits k x)).
    rewrite IH, Nat.iter_succ_r by lia. f_equal. apply Z.bits_inj'. intros i Hi.
    rewrite testbit_crc_step, Z.lxor_spec, testbit_crc_step by lia. bits. replace (i - 1 - (w - Z.of_nat (S k))) with (i - (w - Z.of_nat k)) by lia.
    replace (w - 1 - (w - Z.of_nat (S k))) with (Z.of_nat k) by lia.
    bit_cases; bool_cases.
Qed.

(** The bits of the register are shifted one up, and the polynomial [x^w + p] is added if
    one leaves it. *)
Lemma crc_step_divide r (b : bool) : 0 <= r < 2 ^ w ->
  Z.lxor (Z.shiftl r 1) (Z.shiftl (if b then 1 else 0) w) =
  Z.lxor (if xorb (Z.testbit r (w - 1)) b then Z.lxor (2 ^ w) p else 0) (crc_step w p r b).
Proof using Hw Hp.
  intros Hr. apply Z.bits_inj'. intros i Hi.
  rewrite !Z.lxor_spec, testbit_crc_step by lia. bits.
  rewrite Z.pow2_bits_eqb by lia. rewrite testbit_1.
  destruct (Z.eqb_spec i w) as [->|].
  - rewrite (testbit_above w p) by lia. bit_cases. bool_cases; by destruct b.
  - destruct (Z.ltb_spec i w).
    + rewrite (proj2 (Z.eqb_neq w i)) by lia. bool_cases; by destruct b.
    + rewrite (testbit_above w p), (testbit_above w r), (proj2 (Z.eqb_neq w i)) by lia.
      bool_cases; by destruct b.
Qed.

Lemma crc_reg_divide r bs : 0 <= r < 2 ^ w ->
  exists q, Z.lxor (Z.shiftl r (Z.of_nat (length bs))) (Z.shiftl (bits_value bs) w) =
    Z.lxor (clmul q (Z.lxor (2 ^ w) p)) (crc_reg w p r bs).
Proof using Hw Hp.
  intros Hr. induction bs as [|b bs [q Hq]] using rev_ind.
  - exists []. unfold bits_value. cbn.
    by rewrite !Z.shiftl_0_l, Z.shiftl_0_r, Z.lxor_0_r, Z.lxor_0_l.
  - unfold crc_reg, bits_value. rewrite !foldl_app, length_app. cbn [foldl length].
    fold (crc_reg w p r bs) (bits_value bs).
    pose proof (crc_step_divide (crc_reg w p r bs) b (crc_reg_range _ _ Hr)) as Hs.
    set (t := xorb (Z.testbit (crc_reg w p r bs) (w - 1)) b) in Hs.
    exists (t :: q). cbn [clmul].
    rewrite (Z.lxor_comm (if t then _ else _)), Z.lxor_assoc.
    rewrite <- Hs, <- Z.lxor_assoc, <- shiftl_lxor, <- Hq by lia.
    apply Z.bits_inj'. intros i Hi. bits.
    replace (i - 1 - Z.of_nat (length bs)) with (i - Z.of_nat (length bs + 1)) by lia.
    replace (i - 1 - w) with (i - w - 1) by lia.
    rewrite ?testbit_1.
    destruct (Z.eqb_spec i w) as [->|].
    + rewrite (Z.testbit_neg_r _ (w - w - 1)) by lia. bool_cases; by destruct b.
    + bool_cases; by destruct b.
Qed.

(** *** The remainder is unique *)

Lemma clmul_add d q1 q2 : exists q3, Z.lxor (clmul q1 d) (clmul q2 d) = clmul q3 d.
Proof.
  revert q2. induction q1 as [|b1 q1 IH]; intros [|b2 q2].
  - by exists [].
  - exists (b2 :: q2). cbn. by rewrite Z.lxor_0_l.
  - exists (b1 :: q1). cbn. by rewrite Z.lxor_0_r.
  - destruct (IH q2) as [q3 Hq]. exists (xorb b1 b2 :: q3). cbn [clmul].
    rewrite <- Hq, shiftl_lxor by lia. apply Z.bits_inj'. intros i Hi. bits.
    destruct b1, b2; bool_cases.
Qed.

Lemma clmul_small q :
  (forall i, w <= i -> Z.testbit (clmul q (Z.lxor (2 ^ w) p)) i = false) ->
  clmul q (Z.lxor (2 ^ w) p) = 0.
Proof using Hw Hp.
  set (d := Z.lxor (2 ^ w) p).
  assert (Hd : forall i, w <= i -> Z.testbit d i = (i =? w)).
  { intros i Hi. unfold d. rewrite Z.lxor_spec, Z.pow2_bits_eqb, (testbit_above w p) by lia.
    rewrite xorb_false_r. apply Z.eqb_sym. }
  induction q as [|b q IH]; [done|]. cbn [clmul]. intros Hb.
  assert (H0 : clmul q d = 0).
  { apply IH. intros i Hi. specialize (Hb (i + 1)). revert Hb. bits.
    rewrite Hd by lia. replace (i + 1 - 1) with i by lia. bit_cases.
    destruct b; cbn; rewrite ?xorb_false_l; intros Hb; apply Hb; lia. }
  rewrite H0 in *. rewrite Z.shiftl_0_l, Z.lxor_0_r in *.
  destruct b; [|done]. specialize (Hb w). rewrite Hd, Z.eqb_refl in Hb by lia. lia.
Qed.

Lemma is_remainder_unique m r1 r2 :
  is_remainder w (Z.lxor (2 ^ w) p) m r1 -> is_remainder w (Z.lxor (2 ^ w) p) m r2 -> r1 = r2.
Proof using Hw Hp.
  intros (Hr1 & q1 & Hq1) (Hr2 & q2 & Hq2).
  destruct (clmul_add (Z.lxor (2 ^ w) p) q1 q2) as [q3 Hq3].
  assert (Hx : Z.lxor r1 r2 = clmul q3 (Z.lxor (2 ^ w) p)).
  { rewrite <- Hq3. rewrite Hq1 in Hq2. apply Z.bits_inj'. intros i Hi.
    apply (f_equal (fun z => Z.testbit z i)) in Hq2. revert Hq2. rewrite !Z.lxor_spec.
    bool_cases; done. }
  apply Z.lxor_eq. rewrite Hx. apply clmul_small. intros i Hi. rewrite <- Hx, Z.lxor_spec.
  by rewrite !(testbit_above w) by lia.
Qed.

(** *** The register loses nothing *)

Hypothesis Hodd : Z.testbit p 0 = true.

Lemma crc_step_inj r r' b :
  0 <= r < 2 ^ w -> 0 <= r' < 2 ^ w -> crc_step w p r b = crc_step w p r' b -> r = r'.
Proof using Hw Hp Hodd.
  intros Hr Hr' Heq.
  assert (Hb : forall i, 0 <= i -> Z.testbit (crc_step w p r b) i = Z.testbit (crc_step w p r' b) i)
    by (intros; by rewrite Heq).
  assert (Ht : Z.testbit r (w - 1) = Z.testbit r' (w - 1)).
  { specialize (Hb 0). rewrite !testbit_crc_step, !(Z.testbit_neg_r _ (0 - 1)), Hodd in Hb by lia.
    revert Hb. rewrite !andb_false_r. destruct b; bool_cases; intros Hb; by destruct (Hb ltac:(lia)). }
  apply Z.bits_inj'. intros i Hi. destruct (Z.ltb_spec i w).
  - specialize (Hb (i + 1)). rewrite !testbit_crc_step, Ht in Hb by lia.
    replace (i + 1 - 1) with i in Hb by lia. destruct (Z.ltb_spec (i + 1) w).
    + revert Hb. bool_cases; intros Hb; specialize (Hb ltac:(lia)); destruct b, (Z.testbit p (i + 1)); done.
    + replace i with (w - 1) by lia. done.
  - by rewrite !(testbit_above w) by lia.
Qed.

Lemma crc_reg_inj r r' bs :
  0 <= r < 2 ^ w -> 0 <= r' < 2 ^ w -> crc_reg w p r bs = crc_reg w p r' bs -> r = r'.
Proof using Hw Hp Hodd.
  revert r r'. induction bs as [|b bs IH]; intros r r' Hr Hr'; [done|]. intros Heq.
  apply IH in Heq; [|apply crc_step_range; lia..]. by apply crc_step_inj in Heq.
Qed.

(** Up to [w] bits of the message can be read off the register. *)
Lemma crc_reg_short_inj r xs ys :
  0 <= r < 2 ^ w -> length xs = length ys -> Z.of_nat (length xs) <= w ->
  crc_reg w p r xs = crc_reg w p r ys -> xs = ys.
Proof using Hw Hp Hodd.
  intros Hr Hl Hk Heq. pose proof (msb_bits_value xs) as Hx. pose proof (msb_bits_value ys) as Hy.
  rewrite <- Hl in Hy. revert Hx Hy Hk Heq. generalize (length xs) (bits_value xs) (bits_value ys).
  intros k u v <- <- Hk Heq. rewrite !crc_reg_word in Heq by done.
  assert (Hit : forall n x y, 0 <= x < 2 ^ w -> 0 <= y < 2 ^ w ->
    Nat.iter n (fun r => crc_step w p r false) x = Nat.iter n (fun r => crc_step w p r false) y -> x = y).
  { induction n as [|n IH]; intros x y Hx Hy; [done|]. rewrite !Nat.iter_succ_r. intros H.
    apply IH in H; [|apply crc_step_range; lia..]. by apply crc_step_inj in H. }
  assert (Hsh : forall z, 0 <= Z.shiftl (wrap_u (Z.of_nat k) z) (w - Z.of_nat k) < 2 ^ w).
  { intros z. rewrite Z.shiftl_mul_pow2 by lia. pose proof (wrap_u_range (Z.of_nat k) z).
    replace (2 ^ w) with (2 ^ Z.of_nat k * 2 ^ (w - Z.of_nat k)) by (rewrite <- Z.pow_add_r by lia; f_equal; lia).
    pose proof (Z.pow_pos_nonneg 2 (w - Z.of_nat k)). nia. }
  apply Hit in Heq; [|apply lxor_range; auto with lia..].
  apply msb_bits_ext. intros i Hi.
  apply (f_equal (fun z => Z.testbit z (i + (w - Z.of_nat k)))) in Heq. revert Heq. bits.
  replace (i + (w - Z.of_nat k) - (w - Z.of_nat k)) with i by lia.
  bit_cases. bool_cases; done.
Qed.

(** A burst of changes within [w] bits changes the register at the end of the message. *)
Lemma crc_reg_burst r pre xs ys post :
  0 <= r < 2 ^ w -> length xs = length ys -> Z.of_nat (length xs) <= w -> xs <> ys ->
  crc_reg w p r (pre ++ xs ++ post) <> crc_reg w p r (pre ++ ys ++ post).
Proof using Hw Hp Hodd.
  intros Hr Hl Hk Hne Heq. unfold crc_reg in Heq. rewrite !foldl_app in Heq.
  fold (crc_reg w p r pre) in Heq.
  apply crc_reg_inj in Heq; [|apply crc_reg_range; try done; by apply crc_reg_range..].
  apply crc_reg_short_inj in Heq; [done..|by apply crc_reg_range|done|done].
Qed.
End Register.

(** ** The reversed register *)

Lemma crc_step_brev k p r b : (0 < k)%nat ->
  crc_step_r (brev k p) (brev k r) b = brev k (crc_step (Z.of_nat k) p r b).
Proof.
  intros Hk. apply Z.bits_inj'. intros i Hi. unfold crc_step_r.
  rewrite (testbit_brev k (crc_step _ _ _ _)) by lia. bits.
  rewrite !testbit_brev by lia.
  replace (Z.of_nat k - 1 - 0) with (Z.of_nat k - 1) by lia.
  replace (Z.of_nat k - 1 - (i + 1)) with (Z.of_nat k - 1 - i - 1) by lia.
  rewrite (proj2 (Z.ltb_lt 0 (Z.of_nat k))) by lia. cbn [andb].
  destruct (Z.ltb_spec i (Z.of_nat k)).
  - rewrite testbit_crc_step, (proj2 (Z.ltb_lt (Z.of_nat k - 1 - i) (Z.of_nat k))) by lia.
    destruct (Z.ltb_spec (i + 1) (Z.of_nat k)); [done|].
    by rewrite (Z.testbit_neg_r _ (Z.of_nat k - 1 - i - 1)) by lia.
  - rewrite (proj2 (Z.ltb_ge (i + 1) (Z.of_nat k))) by lia. cbn. by destruct (xorb _ b).
Qed.

Lemma crc_reg_brev k p r bs : (0 < k)%nat ->
  crc_reg_r (brev k p) (brev k r) bs = brev k (crc_reg (Z.of_nat k) p r bs).
Proof.
  intros Hk. revert r. induction bs as [|b bs IH]; intros r; [done|]. cbn.
  rewrite crc_step_brev by done. apply IH.
Qed.

Lemma msg_bits_brev src : msg_bits (map (brev 8) src) = msg_bits_r src.
Proof.
  unfold msg_bits, msg_bits_r. induction src as [|x src IH]; [done|].
  cbn [map]. rewrite !bind_cons, IH. f_equal. apply msb_bits_brev.
Qed.

Lemma crc_step_r_range w p r b :
  0 <= w -> 0 <= p < 2 ^ w -> 0 <= r < 2 ^ w -> 0 <= crc_step_r p r b < 2 ^ w.
Proof. intros. unfold crc_step_r. auto with crc lia. Qed.

Lemma crc_reg_r_range w p r bs :
  0 <= w -> 0 <= p < 2 ^ w -> 0 <= r < 2 ^ w -> 0 <= crc_reg_r p r bs < 2 ^ w.
Proof.
  intros Hw Hp. revert r. induction bs as [|b bs IH]; intros r Hr; [done|].
  apply IH. by apply crc_step_r_range.
Qed.

Lemma crc_reg_r_word p k r x :
  crc_reg_r p r (lsb_bits k x) =
  Nat.iter k (fun r => crc_step_r p r false) (Z.lxor r (wrap_u (Z.of_nat k) x)).
Proof.
  revert r x. induction k as [|k IH]; intros r x.
  - cbn. unfold wrap_u. by rewrite Z.mod_1_r, Z.lxor_0_r.
  - unfold lsb_bits. rewrite msb_bits_shift, reverse_app.
    change (crc_reg_r p r (reverse [Z.testbit x 0] ++ reverse (msb_bits k (Z.shiftr x 1))))
      with (crc_reg_r p (crc_step_r p r (Z.testbit x 0)) (lsb_bits k (Z.shiftr x 1))).
    rewrite IH, Nat.iter_succ_r. f_equal. apply Z.bits_inj'. intros i Hi.
    unfold crc_step_r. bits. rewrite (proj2 (Z.ltb_lt 0 (Z.of_nat (S k)))) by lia.
    destruct (Z.ltb_spec i (Z.of_nat k)).
    + rewrite (proj2 (Z.ltb_lt (i + 1) (Z.of_nat (S k)))) by lia. bool_cases.
    + rewrite (proj2 (Z.ltb_ge (i + 1) (Z.of_nat (S k)))) by lia. bool_cases.
Qed.

(** ** Several steps at once *)

(** Steps without input are linear, and those that shift out zeros only shift; so the
    result of [k] steps depends on the [k] bits shifted out through a table. *)

Section Linear.
Context (f : Z -> Z) (Hf : forall x y, f (Z.lxor x y) = Z.lxor (f x) (f y)).

Lemma iter_linear k x y : Nat.iter k f (Z.lxor x y) = Z.lxor (Nat.iter k f x) (Nat.iter k f y).
Proof using Hf. induction k as [|k IH]; [done|]. by rewrite !Nat.iter_succ, IH, Hf. Qed.
End Linear.

Lemma crc_step_linear w p x y : 0 < w ->
  crc_step w p (Z.lxor x y) false = Z.lxor (crc_step w p x false) (crc_step w p y false).
Proof.
  intros Hw. apply Z.bits_inj'. intros i Hi. rewrite Z.lxor_spec, !testbit_crc_step by lia.
  bits. destruct (i <? w); bool_cases.
Qed.

Lemma crc_step_r_linear p x y :
  crc_step_r p (Z.lxor x y) false = Z.lxor (crc_step_r p x false) (crc_step_r p y false).
Proof. apply Z.bits_inj'. intros i Hi. unfold crc_step_r. bits. bool_cases. Qed.

Lemma iter_step_shift w p k x : 0 < w -> Z.of_nat k <= w -> 0 <= x < 2 ^ (w - Z.of_nat k) ->
  Nat.iter k (fun r => crc_step w p r false) x = Z.shiftl x (Z.of_nat k).
Proof.
  intros Hw. revert x. induction k as [|k IH]; intros x Hk Hx; [by rewrite Z.shiftl_0_r|].
  rewrite Nat.iter_succ_r. replace (crc_step w p x false) with (Z.shiftl x 1).
  - rewrite IH; [|lia|].
    + rewrite Z.shiftl_shiftl by lia. f_equal. lia.
    + rewrite Z.shiftl_mul_pow2 by lia.
      replace (w - Z.of_nat k) with (w - Z.of_nat (S k) + 1) by lia.
      rewrite Z.pow_add_r by lia. lia.
  - apply Z.bits_inj'. intros i Hi. rewrite testbit_crc_step by lia. bits.
    rewrite (testbit_above _ x (w - 1) Hx) by lia. cbn. rewrite xorb_false_r.
    destruct (Z.ltb_spec i w); [done|]. apply (testbit_above _ x (i - 1) Hx). lia.
Qed.

Lemma iter_step_split w p k x : 0 < w -> Z.of_nat k <= w -> 0 <= x < 2 ^ w ->
  Nat.iter k (fun r => crc_step w p r false) x =
  Z.lxor (wrap_u w (Z.shiftl x (Z.of_nat k)))
    (Nat.iter k (fun r => crc_step w p r false)
      (Z.shiftl (Z.shiftr x (w - Z.of_nat k)) (w - Z.of_nat k))).
Proof.
  intros Hw Hk Hx.
  replace x with (Z.lxor (wrap_u (w - Z.of_nat k) x)
    (Z.shiftl (Z.shiftr x (w - Z.of_nat k)) (w - Z.of_nat k))) at 1.
  - rewrite iter_linear by (intros; by apply crc_step_linear). f_equal.
    rewrite iter_step_shift by (try apply wrap_u_range; lia).
    apply Z.bits_inj'. intros i Hi. bits. bit_cases; done.
  - apply Z.bits_inj'. intros i Hi. bits. destruct (Z.ltb_spec i (w - Z.of_nat k)).
    + by rewrite (Z.testbit_neg_r _ (i - _)), xorb_false_r by lia.
    + rewrite Z.shiftr_spec by lia. cbn [andb]. rewrite xorb_false_l. f_equal. lia.
Qed.

Lemma iter_step_r_shift p k h :
  Nat.iter k (fun r => crc_step_r p r false) (Z.shiftl h (Z.of_nat k)) = h.
Proof.
  induction k as [|k IH]; [by rewrite Z.shiftl_0_r|]. rewrite Nat.iter_succ_r.
  rewrite <- IH at 2. f_equal. apply Z.bits_inj'. intros i Hi. unfold crc_step_r. bits.
  rewrite xorb_false_r. f_equal. lia.
Qed.

Lemma iter_step_r_split p k x :
  Nat.iter k (fun r => crc_step_r p r false) x =
  Z.lxor (Z.shiftr x (Z.of_nat k))
    (Nat.iter k (fun r => crc_step_r p r false) (wrap_u (Z.of_nat k) x)).
Proof.
  replace x with (Z.lxor (Z.shiftl (Z.shiftr x (Z.of_nat k)) (Z.of_nat k)) (wrap_u (Z.of_nat k) x)) at 1.
  - rewrite iter_linear by apply crc_step_r_linear. by rewrite iter_step_r_shift.
  - apply Z.bits_inj'. intros i Hi. bits. destruct (Z.ltb_spec i (Z.of_nat k)).
    + by rewrite (Z.testbit_neg_r _ (i - _)) by lia.
    + rewrite Z.shiftr_spec by lia. cbn [andb]. rewrite xorb_false_r. f_equal. lia.
Qed.
