(* ===== verification/CrcRoutines.v ===== *)
(** * What the CRC routines compute

    Every routine of lib/crc, bitwise or table driven, does to its register what the bits of
    the message do to the reference; so they agree, return remainders, and notice bursts of
    errors. *)

From S2P Require Import Prelude BitOps Crc.

Local Open Scope Z_scope.

(** ** The routines as registers *)

Lemma iter_ext_range (P : Z -> Prop) f g k x :
  (forall y, P y -> f y = g y /\ P (g y)) -> P x -> Nat.iter k f x = Nat.iter k g x.
Proof.
  intros Hfg. revert x. induction k as [|k IH]; intros x Hx; [done|].
  destruct (Hfg x Hx) as [Hx1 Hx2]. rewrite !Nat.iter_succ_r, Hx1. by apply IH.
Qed.

Lemma crc_reg_app w p r xs ys : crc_reg w p r (xs ++ ys) = crc_reg w p (crc_reg w p r xs) ys.
Proof. unfold crc_reg. by rewrite foldl_app. Qed.

Lemma crc_reg_r_app p r xs ys : crc_reg_r p r (xs ++ ys) = crc_reg_r p (crc_reg_r p r xs) ys.
Proof. unfold crc_reg_r. by rewrite foldl_app. Qed.

Lemma msg_bits_cons x src : msg_bits (x :: src) = msb_bits 8 x ++ msg_bits src.
Proof. apply bind_cons. Qed.

Lemma msg_bits_r_cons x src : msg_bits_r (x :: src) = lsb_bits 8 x ++ msg_bits_r src.
Proof. apply bind_cons. Qed.

(** A loop over the bytes of the message that does to the register what their bits do. *)
Lemma foldl_reg w p f r src : 0 < w -> 0 <= p < 2 ^ w -> byte_list src -> 0 <= r < 2 ^ w ->
  (forall r x, 0 <= r < 2 ^ w -> 0 <= x < 2 ^ 8 -> f r x = crc_reg w p r (msb_bits 8 x)) ->
  foldl f r src = crc_reg w p r (msg_bits src).
Proof.
  intros Hw Hp Hs Hr Hf. revert r Hr. induction Hs as [|x src Hx Hs IH]; intros r Hr; [done|].
  cbn [foldl]. rewrite msg_bits_cons, crc_reg_app, Hf by done.
  rewrite IH by (by apply crc_reg_range). done.
Qed.

Lemma foldl_reg_r w p f r src : 0 < w -> 0 <= p < 2 ^ w -> byte_list src -> 0 <= r < 2 ^ w ->
  (forall r x, 0 <= r < 2 ^ w -> 0 <= x < 2 ^ 8 -> f r x = crc_reg_r p r (lsb_bits 8 x)) ->
  foldl f r src = crc_reg_r p r (msg_bits_r src).
Proof.
  intros Hw Hp Hs Hr Hf. revert r Hr. induction Hs as [|x src Hx Hs IH]; intros r Hr; [done|].
  cbn [foldl]. rewrite msg_bits_r_cons, crc_reg_r_app, Hf by done.
  rewrite IH by (apply crc_reg_r_range; lia || done). done.
Qed.

(** The step of the code, on a register that may be wider than the polynomial. *)
Lemma code_step W w p crc : 0 < w <= W ->
  wrap_u w (if Z.testbit crc (w - 1) then wrap_u W (Z.lxor (Z.shiftl crc 1) p)
            else wrap_u W (Z.shiftl crc 1)) =
  crc_step w (wrap_u w p) (wrap_u w crc) false.
Proof.
  intros Hw. apply Z.bits_inj'. intros i Hi. rewrite testbit_crc_step by lia. bits.
  rewrite (proj2 (Z.ltb_lt (w - 1) w)) by lia. cbn [andb]. rewrite xorb_false_r.
  destruct (Z.ltb_spec i w).
  - bit_cases. destruct (Z.testbit crc (w - 1)); cbn [andb]; by rewrite ?xorb_false_r.
  - by destruct (Z.testbit crc (w - 1)).
Qed.

Lemma code_step_exact w p crc : 0 < w -> 0 <= p < 2 ^ w -> 0 <= crc < 2 ^ w ->
  (if Z.testbit crc (w - 1) then wrap_u w (Z.lxor (Z.shiftl crc 1) p)
   else wrap_u w (Z.shiftl crc 1)) = crc_step w p crc false.
Proof.
  intros Hw Hp Hc. pose proof (code_step w w p crc ltac:(lia)) as H.
  rewrite (wrap_u_small w p), (wrap_u_small w crc) in H by done. rewrite <- H.
  symmetry. apply wrap_u_small. destruct (Z.testbit _ _); apply wrap_u_range; lia.
Qed.

Lemma code_step_r w p crc : 0 < w -> 0 <= p < 2 ^ w -> 0 <= crc < 2 ^ w ->
  (if Z.testbit crc 0 then wrap_u w (Z.lxor (Z.shiftr crc 1) p)
   else wrap_u w (Z.shiftr crc 1)) = crc_step_r p crc false.
Proof.
  intros Hw Hp Hc. unfold crc_step_r. rewrite xorb_false_r.
  destruct (Z.testbit crc 0); [|rewrite Z.lxor_0_r]; apply wrap_u_small; auto with crc lia.
Qed.

Lemma crc16_register poly seed src :
  0 <= poly < 2 ^ 16 -> 0 <= seed < 2 ^ 16 -> byte_list src ->
  crc16 poly seed src = crc_reg 16 poly seed (msg_bits src).
Proof.
  intros Hp Hs Hb. apply foldl_reg; [lia|done..|]. intros r x Hr Hx.
  rewrite crc_reg_word by lia. cbn zeta.
  rewrite (wrap_u_small 16 (Z.shiftl x 8)), (wrap_u_small (Z.of_nat 8) x)
    by (rewrite ?Z.shiftl_mul_pow2; lia).
  change (16 - Z.of_nat 8) with 8. rewrite (wrap_u_small 16 (Z.lxor _ _))
    by (apply lxor_range; rewrite ?Z.shiftl_mul_pow2; lia).
  apply (iter_ext_range (fun r => 0 <= r < 2 ^ 16)).
  - intros y Hy. rewrite (land_pow2_eqb y _ 15), (code_step_exact 16) by lia.
    split; [done|]. apply crc_step_range; lia.
  - apply lxor_range; rewrite ?Z.shiftl_mul_pow2; lia.
Qed.

Lemma crc16_reflect_register poly seed src :
  0 <= poly < 2 ^ 16 -> 0 <= seed < 2 ^ 16 -> byte_list src ->
  crc16_reflect poly seed src = crc_reg_r poly seed (msg_bits_r src).
Proof.
  intros Hp Hs Hb. apply (foldl_reg_r 16); [lia|done..|]. intros r x Hr Hx.
  rewrite crc_reg_r_word. cbn zeta.
  rewrite (wrap_u_small 16 x), (wrap_u_small (Z.of_nat 8) x) by lia.
  rewrite (wrap_u_small 16 (Z.lxor _ _)) by (apply lxor_range; lia).
  apply (iter_ext_range (fun r => 0 <= r < 2 ^ 16)).
  - intros y Hy. rewrite (land_pow2_eqb y _ 0), (code_step_r 16) by lia.
    split; [done|]. apply crc_step_r_range; lia.
  - apply lxor_range; lia.
Qed.

Lemma crc8_register src polynomial initial_value :
  0 <= polynomial < 2 ^ 8 -> 0 <= initial_value < 2 ^ 8 -> byte_list src ->
  crc8 src polynomial initial_value false =
  crc_reg 8 polynomial initial_value (msg_bits src).
Proof.
  intros Hp Hs Hb. apply foldl_reg; [lia|done..|]. intros r x Hr Hx.
  rewrite crc_reg_word by lia. cbn zeta.
  rewrite (wrap_u_small (Z.of_nat 8) x) by lia. change (8 - Z.of_nat 8) with 0.
  rewrite Z.shiftl_0_r, (wrap_u_small 8 (Z.lxor _ _)) by (apply lxor_range; lia).
  apply (iter_ext_range (fun r => 0 <= r < 2 ^ 8)).
  - intros y Hy. rewrite (land_pow2_eqb y _ 7), (code_step_exact 8) by lia.
    split; [done|]. apply crc_step_range; lia.
  - apply lxor_range; lia.
Qed.

Lemma crc8_reversed_register src polynomial initial_value :
  0 <= polynomial < 2 ^ 8 -> 0 <= initial_value < 2 ^ 8 -> byte_list src ->
  crc8 src polynomial initial_value true =
  crc_reg_r polynomial initial_value (msg_bits_r src).
Proof.
  intros Hp Hs Hb. apply (foldl_reg_r 8); [lia|done..|]. intros r x Hr Hx.
  rewrite crc_reg_r_word. cbn zeta. rewrite (wrap_u_small (Z.of_nat 8) x) by lia.
  rewrite (wrap_u_small 8 (Z.lxor _ _)) by (apply lxor_range; lia).
  apply (iter_ext_range (fun r => 0 <= r < 2 ^ 8)).
  - intros y Hy. rewrite (land_pow2_eqb y _ 0), (code_step_r 8) by lia.
    split; [done|]. apply crc_step_r_range; lia.
  - apply lxor_range; lia.
Qed.

Lemma foldl_reg_abs (a : Z -> Z) w p f r src : byte_list src ->
  (forall r x, 0 <= x < 2 ^ 8 -> a (f r x) = crc_reg w p (a r) (msb_bits 8 x)) ->
  a (foldl f r src) = crc_reg w p (a r) (msg_bits src).
Proof.
  intros Hs Hf. revert r. induction Hs as [|x src Hx Hs IH]; intros r; [done|].
  cbn [foldl]. by rewrite msg_bits_cons, crc_reg_app, IH, Hf by done.
Qed.

Lemma iter_abs (a f g : Z -> Z) k x :
  (forall y, a (f y) = g (a y)) -> a (Nat.iter k f x) = Nat.iter k g (a x).
Proof.
  intros H. induction k as [|k IH]; [done|]. by rewrite !Nat.iter_succ, H, IH.
Qed.

Lemma crc24_register crc data : byte_list data ->
  wrap_u 24 (crc24_pgp_update crc data) =
  crc_reg 24 (wrap_u 24 CRC24_PGP_POLY) (wrap_u 24 crc) (msg_bits data).
Proof.
  intros Hb. apply foldl_reg_abs; [done|]. intros r x Hx. rewrite crc_reg_word by lia. cbn zeta.
  rewrite (iter_abs (wrap_u 24) _ (fun r => crc_step 24 (wrap_u 24 CRC24_PGP_POLY) r false)).
  - f_equal. rewrite (wrap_u_small (Z.of_nat 8) x) by lia. change (24 - Z.of_nat 8) with 16.
    apply Z.bits_inj'. intros i Hi. bits. destruct (Z.ltb_spec i 24).
    + bit_cases. bool_cases.
    + by rewrite (testbit_above 8 x) by lia.
  - intros y. rewrite (land_pow2_eqb _ _ 24), <- (code_step 32) by lia. rewrite testbit_wrap_u by lia.
    rewrite testbit_shiftl by lia. change (24 - 1) with 23. cbn [Z.ltb Z.compare Pos.compare Pos.compare_cont andb].
    destruct (Z.testbit y 23); [|done]. apply Z.bits_inj'. intros i Hi. bits. bit_cases; bool_cases.
Qed.

Lemma crc4_nibble polynomial crc n :
  wrap_u 4 (Nat.iter 4 (fun crc =>
    if negb (Z.land crc 0x8 =? 0) then u8 (Z.lxor (Z.shiftl crc 1) polynomial)
    else u8 (Z.shiftl crc 1)) (u8 (Z.lxor crc (Z.land n 0xf)))) =
  crc_reg 4 (wrap_u 4 polynomial) (wrap_u 4 crc) (msb_bits 4 n).
Proof.
  rewrite crc_reg_word by lia.
  rewrite (iter_abs (wrap_u 4) _ (fun r => crc_step 4 (wrap_u 4 polynomial) r false)).
  - f_equal. rewrite (land_ones_wrap n _ 4), Z.shiftl_0_r by lia. apply Z.bits_inj'.
    intros i Hi. bits. change (Z.of_nat 4) with 4. bit_cases; bool_cases.
  - intros y. rewrite (land_pow2_eqb y _ 3) by lia. by rewrite <- (code_step 8) by lia.
Qed.

Lemma crc4_register src polynomial initial_value : byte_list src ->
  crc4 src polynomial initial_value false =
  crc_reg 4 (wrap_u 4 polynomial) (wrap_u 4 initial_value) (msg_bits src).
Proof.
  intros Hb. unfold crc4. rewrite (land_ones_wrap _ _ 4) by lia.
  apply foldl_reg_abs; [done|]. intros r x Hx. cbn [foldl].
  rewrite !crc4_nibble, <- crc_reg_app, msb_bits_nibbles. by rewrite Z.shiftr_0_r.
Qed.

Lemma crc4_ti_nibble index : 0 <= index < 2 ^ 4 ->
  (entry ← crc4_ti_lookup !! Z.to_nat (Z.shiftr index 1);
   Some (Z.land (Z.shiftr entry ((1 - Z.land index 1) * 4)) 0xf)) =
  Some (Nat.iter 4 (fun r => crc_step 4 0x3 r false) index).
Proof. revert index. apply below_cases. by_decision. Qed.

Lemma crc4_ti_half s n : 0 <= s < 2 ^ 4 ->
  (entry ← crc4_ti_lookup !! Z.to_nat (Z.shiftr (u8 (Z.lxor s (Z.land n 0xf))) 1);
   Some (Z.land (Z.shiftr entry ((1 - Z.land (u8 (Z.lxor s (Z.land n 0xf))) 1) * 4)) 0xf)) =
  Some (crc_reg 4 0x3 s (msb_bits 4 n)).
Proof.
  intros Hs. rewrite crc_reg_word by lia. rewrite (land_ones_wrap n _ 4) by lia.
  change (4 - Z.of_nat 4) with 0. change (Z.of_nat 4) with 4. rewrite Z.shiftl_0_r.
  assert (0 <= Z.lxor s (wrap_u 4 n) < 2 ^ 4)
    by (apply lxor_range; [lia|done|apply wrap_u_range; lia]).
  rewrite (wrap_u_small 8) by lia. by apply crc4_ti_nibble.
Qed.

Lemma crc4_ti_register seed src : 0 <= seed < 2 ^ 4 -> byte_list src ->
  crc4_ti seed src = Some (crc_reg 4 0x3 seed (msg_bits src)).
Proof.
  intros Hs Hb. unfold crc4_ti. revert seed Hs.
  induction Hb as [|x src Hx Hb IH]; intros seed Hs; [done|].
  cbn [foldl]. rewrite msg_bits_cons, crc_reg_app, msb_bits_nibbles, crc_reg_app.
  assert (Hr : 0 <= crc_reg 4 0x3 seed (msb_bits 4 (Z.shiftr x 4)) < 2 ^ 4)
    by (apply crc_reg_range; lia).
  rewrite <- IH by (apply crc_reg_range; lia). f_equal. cbn [mbind option_bind] in *.
  rewrite crc4_ti_half by done. cbn [mbind option_bind]. rewrite crc4_ti_half by done.
  by rewrite Z.shiftr_0_r.
Qed.

(** A reversed CRC-4 takes the upper half of each byte first, each half lowest bit first. *)
Definition nibble_bits_r (src : list Z) : list bool :=
  src ≫= (fun x => lsb_bits 4 (Z.shiftr x 4) ++ lsb_bits 4 x).

Lemma crc4_nibble_r polynomial crc n : 0 <= polynomial < 2 ^ 4 -> 0 <= crc < 2 ^ 4 ->
  Nat.iter 4 (fun crc =>
    if negb (Z.land crc 0x01 =? 0) then u8 (Z.lxor (Z.shiftr crc 1) polynomial)
    else u8 (Z.shiftr crc 1)) (u8 (Z.lxor crc (Z.land n 0xf))) =
  crc_reg_r polynomial crc (lsb_bits 4 n).
Proof.
  intros Hp Hc. rewrite crc_reg_r_word, (land_ones_wrap n _ 4) by lia.
  change (Z.of_nat 4) with 4.
  assert (0 <= Z.lxor crc (wrap_u 4 n) < 2 ^ 4) by (apply lxor_range; [lia|done|apply wrap_u_range; lia]).
  rewrite (wrap_u_small 8) by lia. apply (iter_ext_range (fun r => 0 <= r < 2 ^ 4)); [|done].
  intros y Hy. rewrite (land_pow2_eqb y _ 0), (code_step_r 8) by lia.
  split; [done|]. apply crc_step_r_range; lia.
Qed.

Lemma crc4_reversed_register src polynomial initial_value :
  0 <= polynomial < 2 ^ 4 -> 0 <= initial_value < 2 ^ 4 -> byte_list src ->
  crc4 src polynomial initial_value true =
  crc_reg_r polynomial initial_value (nibble_bits_r src).
Proof.
  intros Hp Hi Hb. unfold crc4. rewrite (land_ones_wrap _ _ 4) by lia.
  assert (Hr : forall bs r, 0 <= r < 2 ^ 4 -> 0 <= crc_reg_r polynomial r bs < 2 ^ 4)
    by (intros; apply crc_reg_r_range; lia).
  transitivity (wrap_u 4 (crc_reg_r polynomial initial_value (nibble_bits_r src))).
  2: { apply wrap_u_small, Hr, Hi. }
  f_equal. clear Hb. revert initial_value Hi. induction src as [|x src IH]; intros r Hi; [done|].
  unfold nibble_bits_r. rewrite bind_cons. fold (nibble_bits_r src).
  rewrite !crc_reg_r_app. cbn [foldl]. rewrite (crc4_nibble_r polynomial r) by done.
  rewrite crc4_nibble_r by (done || by apply Hr). rewrite IH by (by apply Hr, Hr). by rewrite Z.shiftr_0_r.
Qed.

(** ** Table-driven and shift-and-add routines *)

Lemma crc8_ccitt_entry t : 0 <= t < 2 ^ 4 ->
  wrap_u 8 (crc8_ccitt_small_table !!! Z.to_nat t) =
  Nat.iter 4 (fun r => crc_step 8 0x07 r false) (Z.shiftl t 4).
Proof. revert t. apply below_cases. by_decision. Qed.

Lemma crc8_ccitt_nibble val : 0 <= val < 2 ^ 8 ->
  u8 (Z.lxor (Z.shiftl val 4) (crc8_ccitt_small_table !!! Z.to_nat (Z.shiftr val 4))) =
  Nat.iter 4 (fun r => crc_step 8 0x07 r false) val.
Proof.
  intros Hv. rewrite iter_step_split by lia. change (8 - Z.of_nat 4) with 4.
  change (Z.of_nat 4) with 4. rewrite wrap_u_lxor, crc8_ccitt_entry; [done| |lia].
  rewrite Z.shiftr_div_pow2 by lia. split; [apply Z.div_pos|apply Z.div_lt_upper_bound]; lia.
Qed.

Lemma iter_add (f : Z -> Z) m n x : Nat.iter (m + n) f x = Nat.iter m f (Nat.iter n f x).
Proof. apply Nat.iter_add. Qed.

Lemma crc8_ccitt_register val buf : 0 <= val < 2 ^ 8 -> byte_list buf ->
  crc8_ccitt val buf = crc_reg 8 0x07 val (msg_bits buf).
Proof.
  intros Hv Hb. apply foldl_reg; [lia|lia|done..|]. intros r x Hr Hx. cbn zeta.
  rewrite crc_reg_word by lia. rewrite (wrap_u_small (Z.of_nat 8) x) by lia.
  change (8 - Z.of_nat 8) with 0. rewrite Z.shiftl_0_r.
  assert (0 <= Z.lxor r x < 2 ^ 8) by (apply lxor_range; lia).
  rewrite (wrap_u_small 8 (Z.lxor r x)), !crc8_ccitt_nibble by (try apply wrap_u_range; lia).
  symmetry. apply (iter_add _ 4 4).
Qed.

Lemma crc7_be_register seed src : 0 <= seed < 2 ^ 8 -> byte_list src ->
  crc7_be seed src = crc_reg 8 0x12 seed (msg_bits src).
Proof.
  intros Hs Hb. apply foldl_reg; [lia|lia|done..|]. intros r x Hr Hx. cbn zeta.
  rewrite crc_reg_word by lia. rewrite (wrap_u_small (Z.of_nat 8) x) by lia.
  change (8 - Z.of_nat 8) with 0. rewrite Z.shiftl_0_r.
  assert (He : 0 <= Z.lxor r x < 2 ^ 8) by (apply lxor_range; lia).
  rewrite (wrap_u_small 8 (Z.lxor r x)) by done. revert He. generalize (Z.lxor r x).
  apply below_cases. by_decision.
Qed.

(** The register of [w + 1] bits whose lowest one is not used is that of [w] bits. *)
Lemma crc_reg_justified w p r bs : 0 < w -> 0 <= p < 2 ^ w ->
  crc_reg (w + 1) (Z.shiftl p 1) (Z.shiftl r 1) bs = Z.shiftl (crc_reg w p r bs) 1.
Proof.
  intros Hw Hp. revert r. induction bs as [|b bs IH]; intros r; [done|].
  change (crc_reg ?w ?p ?r (b :: bs)) with (crc_reg w p (crc_step w p r b) bs).
  rewrite <- IH. f_equal. apply Z.bits_inj'. intros i Hi.
  rewrite testbit_crc_step, testbit_shiftl by lia. bits.
  replace (w + 1 - 1 - 1) with (w - 1) by lia. destruct (Z.eqb_spec i 0) as [->|].
  - assert (Hn : forall z, Z.testbit z (0 - 1) = false) by (intros; by apply Z.testbit_neg_r).
    rewrite !Hn, (Z.testbit_neg_r _ (0 - 1 - 1)), andb_false_r by lia. by destruct (xorb _ b).
  - rewrite testbit_crc_step by lia. replace (i <? w + 1) with (i - 1 <? w); [done|].
    bit_cases; done.
Qed.

Lemma crc16_ccitt_register seed src : 0 <= seed < 2 ^ 16 -> byte_list src ->
  crc16_ccitt seed src = crc_reg_r 0x8408 seed (msg_bits_r src).
Proof.
  intros Hs Hb. apply (foldl_reg_r 16); [lia|lia|done..|]. intros r x Hr Hx. cbn zeta.
  rewrite crc_reg_r_word, iter_step_r_split. change (Z.of_nat 8) with 8.
  rewrite (wrap_u_small 8 x), shiftr_lxor, (shiftr_small 8 x), Z.lxor_0_r by lia.
  pose proof (wrap_u_range 8 (Z.lxor r x) ltac:(lia)) as He. revert He.
  generalize (wrap_u 8 (Z.lxor r x)). intros e He.
  rewrite !(Z.lxor_assoc (Z.shiftr r 8)), (wrap_u_lxor 16 (Z.shiftr r 8)) by lia.
  f_equal; [apply wrap_u_small, shiftr_range; lia|].
  revert e He. apply below_cases. by_decision.
Qed.

Lemma itu_t_byte_linear x y :
  itu_t_byte (Z.lxor x y) = Z.lxor (itu_t_byte x) (itu_t_byte y).
Proof.
  assert (Hl : forall g w, 0 <= w -> (forall x y, g (Z.lxor x y) = Z.lxor (g x) (g y)) ->
    forall x y, wrap_u w (Z.lxor (Z.lxor x y) (g (Z.lxor x y))) =
      Z.lxor (wrap_u w (Z.lxor x (g x))) (wrap_u w (Z.lxor y (g y)))).
  { intros g w Hw Hg u v. by rewrite Hg, lxor_swap, wrap_u_lxor by done. }
  unfold itu_t_byte. cbn zeta. rewrite !(land_ones_wrap _ 0xff 8) by lia.
  rewrite (Hl (fun t => Z.shiftr (wrap_u 8 t) 4)), (Hl (fun t => Z.shiftl t 12)),
    (Hl (fun t => Z.shiftl (wrap_u 8 t) 5)); try done;
    intros; by rewrite ?wrap_u_lxor, ?shiftr_lxor, ?shiftl_lxor by lia.
Qed.

Lemma itu_t_byte_low l : 0 <= l < 2 ^ 8 -> itu_t_byte (Z.shiftl l 8) = Z.shiftl l 8.
Proof. revert l. apply below_cases. by_decision. Qed.

Lemma itu_t_byte_high t : 0 <= t < 2 ^ 8 ->
  itu_t_byte t = Nat.iter 8 (fun r => crc_step 16 0x1021 r false) (Z.shiftl t 8).
Proof. revert t. apply below_cases. by_decision. Qed.

Lemma itu_t_swap r x : 0 <= r < 2 ^ 16 -> 0 <= x < 2 ^ 8 ->
  u16 (Z.lxor (u16 (Z.lor (Z.shiftr r 8) (Z.shiftl r 8))) x) =
  Z.lxor (Z.shiftl (wrap_u 8 r) 8) (Z.lxor (Z.shiftr r 8) x).
Proof.
  intros Hr Hx. apply Z.bits_inj'. intros i Hi. bits. destruct (Z.ltb_spec i 8).
  - bit_cases. bool_cases.
  - rewrite (testbit_above _ r (i + 8) Hr), (testbit_above _ x i Hx) by lia.
    bit_cases; bool_cases.
Qed.

Lemma crc16_itu_t_register seed src : 0 <= seed < 2 ^ 16 -> byte_list src ->
  crc16_itu_t seed src = crc_reg 16 0x1021 seed (msg_bits src).
Proof.
  intros Hs Hb. apply foldl_reg; [lia|lia|done..|]. intros r x Hr Hx. cbn zeta.
  rewrite crc_reg_word by lia. change (16 - Z.of_nat 8) with 8.
  rewrite (wrap_u_small (Z.of_nat 8) x) by lia.
  assert (Ht : 0 <= Z.lxor (Z.shiftr r 8) x < 2 ^ 8).
  { apply lxor_range; [lia| |lia]. rewrite Z.shiftr_div_pow2 by lia.
    split; [apply Z.div_pos|apply Z.div_lt_upper_bound]; lia. }
  assert (Hx' : 0 <= Z.lxor r (Z.shiftl x 8) < 2 ^ 16)
    by (apply lxor_range; rewrite ?Z.shiftl_mul_pow2; lia).
  rewrite iter_step_split by lia. change (16 - Z.of_nat 8) with 8. change (Z.of_nat 8) with 8.
  rewrite itu_t_swap, itu_t_byte_linear, itu_t_byte_low, itu_t_byte_high
    by (try apply wrap_u_range; lia).
  f_equal.
  - apply Z.bits_inj'. intros i Hi. bits. destruct (Z.ltb_spec i 16); bit_cases; [|done].
    by rewrite xorb_false_r.
  - do 2 f_equal. apply Z.bits_inj'. intros i Hi. bits.
    by replace (i + 8 - 8) with i by lia.
Qed.

(** Four steps at once through a table with sixteen entries, first for the lower and then
    for the upper half of the byte. *)
Lemma nibble_table_byte p (T : list Z) r x :
  (forall t, 0 <= t < 2 ^ 4 ->
    T !!! Z.to_nat t = Nat.iter 4 (fun r => crc_step_r p r false) t) ->
  0 <= x < 2 ^ 8 ->
  let r1 := Z.lxor (Z.shiftr r 4) (T !!! Z.to_nat (Z.land (Z.lxor r x) 0x0f)) in
  Z.lxor (Z.shiftr r1 4) (T !!! Z.to_nat (Z.land (Z.lxor r1 (Z.shiftr x 4)) 0x0f)) =
  crc_reg_r p r (lsb_bits 8 x).
Proof.
  intros HT Hx r1. rewrite crc_reg_r_word, (wrap_u_small (Z.of_nat 8) x) by lia.
  rewrite (iter_add _ 4 4), (iter_step_r_split p 4 (Z.lxor r x)). change (Z.of_nat 4) with 4.
  rewrite <- (HT (wrap_u 4 _)) by (apply wrap_u_range; lia). rewrite shiftr_lxor by lia.
  replace (Z.lxor (Z.lxor _ _) _) with (Z.lxor r1 (Z.shiftr x 4)).
  - rewrite iter_step_r_split. change (Z.of_nat 4) with 4.
    rewrite <- (HT (wrap_u 4 _)) by (apply wrap_u_range; lia).
    rewrite shiftr_lxor, Z.shiftr_shiftr, (shiftr_small (4 + 4) x), Z.lxor_0_r by lia.
    by rewrite (land_ones_wrap _ 0x0f 4) by lia.
  - unfold r1. rewrite (land_ones_wrap _ 0x0f 4) by lia.
    by rewrite !Z.lxor_assoc, (Z.lxor_comm (Z.shiftr x 4)).
Qed.

Lemma crc32_table_entry t : 0 <= t < 2 ^ 4 ->
  crc32_table !!! Z.to_nat t = Nat.iter 4 (fun r => crc_step_r 0xedb88320 r false) t.
Proof. revert t. apply below_cases. by_decision. Qed.

Lemma crc32c_table_entry t : 0 <= t < 2 ^ 4 ->
  crc32c_table !!! Z.to_nat t = Nat.iter 4 (fun r => crc_step_r 0x82F63B78 r false) t.
Proof. revert t. apply below_cases. by_decision. Qed.

Lemma crc32_ieee_register crc data : byte_list data ->
  crc32_ieee_update crc data =
  u32 (Z.lnot (crc_reg_r 0xedb88320 (u32 (Z.lnot crc)) (msg_bits_r data))).
Proof.
  intros Hb. unfold crc32_ieee_update. cbn zeta. do 2 f_equal.
  apply (foldl_reg_r 32); [lia|lia|done|apply wrap_u_range; lia|].
  intros r x _ Hx. apply (nibble_table_byte 0xedb88320 crc32_table); [apply crc32_table_entry|done].
Qed.

Lemma crc32_c_register crc data first_pkt last_pkt : 0 <= crc < 2 ^ 32 -> byte_list data ->
  crc32_c crc data first_pkt last_pkt =
  Z.lxor (crc_reg_r 0x82F63B78 (if first_pkt then 0xFFFFFFFF else crc) (msg_bits_r data))
    (if last_pkt then 0xFFFFFFFF else 0).
Proof.
  intros Hc Hb. unfold crc32_c. cbn zeta.
  rewrite (foldl_reg_r 32 0x82F63B78); [|lia|lia|done|by destruct first_pkt|].
  - destruct last_pkt; [done|]. by rewrite Z.lxor_0_r.
  - intros r x _ Hx. cbn zeta. rewrite !(Z.lxor_comm (crc32c_table !!! _)).
    apply (nibble_table_byte 0x82F63B78 crc32c_table); [apply crc32c_table_entry|done].
Qed.

(** ** The properties *)

Lemma register_remainder w p seed src r : 0 < w -> 0 <= p < 2 ^ w -> 0 <= seed < 2 ^ w ->
  byte_list src ->
  is_remainder w (Z.lxor (2 ^ w) p) (dividend w seed src) r <-> r = crc_reg w p seed (msg_bits src).
Proof.
  intros Hw Hp Hs Hb.
  assert (Hr : is_remainder w (Z.lxor (2 ^ w) p) (dividend w seed src) (crc_reg w p seed (msg_bits src))).
  { split; [by apply crc_reg_range|]. unfold dividend. rewrite <- bits_value_msg by done.
    replace (8 * Z.of_nat (length src)) with (Z.of_nat (length (msg_bits src)))
      by (rewrite msg_bits_length; lia).
    by apply crc_reg_divide. }
  split; [|by intros ->]. intros H. by eapply (is_remainder_unique w p).
Qed.

Lemma register_reversed k p r bs : (0 < k)%nat ->
  0 <= p < 2 ^ Z.of_nat k -> 0 <= r < 2 ^ Z.of_nat k ->
  crc_reg_r p r bs = brev k (crc_reg (Z.of_nat k) (brev k p) (brev k r) bs).
Proof. intros Hk Hp Hr. by rewrite <- crc_reg_brev, !brev_involutive. Qed.

Lemma reversed_remainder k p seed src : (0 < k)%nat ->
  0 <= p < 2 ^ Z.of_nat k -> 0 <= seed < 2 ^ Z.of_nat k -> byte_list src ->
  is_remainder (Z.of_nat k) (Z.lxor (2 ^ Z.of_nat k) (brev k p))
    (dividend (Z.of_nat k) (brev k seed) (map (brev 8) src))
    (brev k (crc_reg_r p seed (msg_bits_r src))).
Proof.
  intros Hk Hp Hs Hb. apply register_remainder; try apply brev_range; [lia| |].
  - apply Forall_forall. intros x Hx. apply list_elem_of_fmap in Hx as (y & -> & _).
    apply (brev_range 8).
  - rewrite (register_reversed k) by done. rewrite brev_involutive, msg_bits_brev; [done|].
    apply crc_reg_range; try apply brev_range. lia.
Qed.

(** [crc] tells two messages apart whose bits, in the order [bits] they are sent in, differ
    within [n] consecutive places. *)
Definition detects_bursts (n : Z) (bits : list Z -> list bool) (crc : list Z -> Z) : Prop :=
  forall src src' pre xs ys post, byte_list src -> byte_list src' ->
  bits src = pre ++ xs ++ post -> bits src' = pre ++ ys ++ post ->
  length xs = length ys -> Z.of_nat (length xs) <= n -> xs <> ys -> crc src <> crc src'.

Lemma register_bursts w p seed crc (g : Z -> Z) :
  0 < w -> 0 <= p < 2 ^ w -> Z.testbit p 0 = true -> 0 <= seed < 2 ^ w ->
  (forall x y, 0 <= x < 2 ^ w -> 0 <= y < 2 ^ w -> g x = g y -> x = y) ->
  (forall src, byte_list src -> crc src = g (crc_reg w p seed (msg_bits src))) ->
  detects_bursts w msg_bits crc.
Proof.
  intros Hw Hp Ho Hs Hg Hcrc src src' pre xs ys post Hb Hb' H1 H2 Hl Hn Hne Heq.
  rewrite !Hcrc in Heq by done. apply Hg in Heq; [|by apply crc_reg_range..].
  rewrite H1, H2 in Heq. by eapply crc_reg_burst in Heq.
Qed.

Lemma reversed_bursts k p seed crc (g : Z -> Z) :
  (0 < k)%nat -> 0 <= p < 2 ^ Z.of_nat k -> Z.testbit p (Z.of_nat k - 1) = true ->
  0 <= seed < 2 ^ Z.of_nat k ->
  (forall x y, 0 <= x < 2 ^ Z.of_nat k -> 0 <= y < 2 ^ Z.of_nat k -> g x = g y -> x = y) ->
  (forall src, byte_list src -> crc src = g (crc_reg_r p seed (msg_bits_r src))) ->
  detects_bursts (Z.of_nat k) msg_bits_r crc.
Proof.
  intros Hk Hp Ho Hs Hg Hcrc src src' pre xs ys post Hb Hb' H1 H2 Hl Hn Hne Heq.
  rewrite !Hcrc in Heq by done. apply Hg in Heq; [|apply crc_reg_r_range; lia || done..].
  rewrite H1, H2, !(register_reversed k) in Heq by done.
  apply brev_inj in Heq; [|apply crc_reg_range; try apply brev_range; lia..].
  eapply crc_reg_burst in Heq; try done; try apply brev_range; [lia|].
  rewrite testbit_brev by lia. rewrite (proj2 (Z.ltb_lt _ _)) by lia.
  by replace (Z.of_nat k - 1 - 0) with (Z.of_nat k - 1) by lia.
Qed.

Lemma u32_lnot_involutive x : 0 <= x < 2 ^ 32 -> u32 (Z.lnot (u32 (Z.lnot x))) = x.
Proof.
  intros Hx. apply Z.bits_inj'. intros i Hi. bits. destruct (Z.ltb_spec i 32); cbn [andb].
  - by rewrite negb_involutive.
  - symmetry. by eapply testbit_above.
Qed.

Lemma u32_lnot_inj x y : 0 <= x < 2 ^ 32 -> 0 <= y < 2 ^ 32 ->
  u32 (Z.lnot x) = u32 (Z.lnot y) -> x = y.
Proof. intros Hx Hy H. by rewrite <- (u32_lnot_involutive x), H, u32_lnot_involutive. Qed.

Lemma u32_lnot_lxor x : 0 <= x < 2 ^ 32 -> Z.lxor x 0xFFFFFFFF = u32 (Z.lnot x).
Proof.
  intros Hx. change 0xFFFFFFFF with (Z.ones 32). apply Z.bits_inj'. intros i Hi. bits.
  rewrite Z.testbit_ones_nonneg by lia. destruct (Z.ltb_spec i 32); cbn [andb].
  - apply xorb_true_r.
  - rewrite xorb_false_r. by eapply testbit_above.
Qed.

(** C34: The routines without reflection return the remainder, and no other number is one, of the
    message times [x^w] plus the initial value, divided by the polynomial; the two CRC-32
    return the complement of the reversed remainder for the message with the bits of its
    bytes reversed. *)
Theorem crc_is_remainder src r : byte_list src ->
  (forall poly seed, 0 <= poly < 2 ^ 16 -> 0 <= seed < 2 ^ 16 ->
    is_remainder 16 (Z.lxor (2 ^ 16) poly) (dividend 16 seed src) r <-> r = crc16 poly seed src) /\
  (forall poly seed, 0 <= poly < 2 ^ 8 -> 0 <= seed < 2 ^ 8 ->
    is_remainder 8 (Z.lxor (2 ^ 8) poly) (dividend 8 seed src) r <-> r = crc8 src poly seed false) /\
  (forall poly seed, 0 <= poly < 2 ^ 4 -> 0 <= seed < 2 ^ 4 ->
    is_remainder 4 (Z.lxor (2 ^ 4) poly) (dividend 4 seed src) r <-> r = crc4 src poly seed false) /\
  (is_remainder 24 CRC24_PGP_POLY (dividend 24 CRC24_PGP_INITIAL_VALUE src) r <->
    r = crc24_pgp src) /\
  is_remainder 32 (Z.lxor (2 ^ 32) 0x04C11DB7) (dividend 32 0xFFFFFFFF (map (brev 8) src))
    (brev 32 (u32 (Z.lnot (crc32_ieee src)))) /\
  forall crc, is_remainder 32 (Z.lxor (2 ^ 32) 0x1EDC6F41)
    (dividend 32 0xFFFFFFFF (map (brev 8) src))
    (brev 32 (u32 (Z.lnot (crc32_c crc src true true)))).
Proof.
  intros Hb. split_and!.
  - intros poly seed Hp Hs. rewrite crc16_register by done. apply register_remainder; lia || done.
  - intros poly seed Hp Hs. rewrite crc8_register by done. apply register_remainder; lia || done.
  - intros poly seed Hp Hs. rewrite crc4_register, !wrap_u_small by done.
    apply register_remainder; lia || done.
  - unfold crc24_pgp. rewrite (land_ones_wrap _ _ 24), crc24_register by done.
    apply (register_remainder 24 (wrap_u 24 CRC24_PGP_POLY)); done || lia.
  - unfold crc32_ieee. rewrite crc32_ieee_register, u32_lnot_involutive by
      (try apply crc_reg_r_range; try apply wrap_u_range; done || lia).
    apply (reversed_remainder 32 0xedb88320 0xFFFFFFFF); done || lia.
  - intros crc. change (crc32_c crc src true true) with (crc32_c 0 src true true).
    rewrite crc32_c_register by done.
    rewrite u32_lnot_lxor, u32_lnot_involutive by (apply crc_reg_r_range; done || lia).
    apply (reversed_remainder 32 0x82F63B78 0xFFFFFFFF); done || lia.
Qed.

Lemma crc_is_remainder_witness :
  is_remainder 16 (Z.lxor (2 ^ 16) 0x1021) (dividend 16 0xffff [0x31; 0x32]) 0x3DBA.
Proof.
  apply (crc_is_remainder [0x31; 0x32] 0x3DBA); [by_decision|lia|lia|vm_compute; reflexivity].
Defined.

(** C35: The table-driven and shift-and-xor routines return what the bitwise ones return for
    their polynomial, and crc16_reflect and crc8 with reversed set return what crc16 and crc8 do
    with all bits reversed. (crc4 with reversed set takes the high nibble of a byte first and is
    not such a reflection.) *)
Theorem crc_routines_agree src : byte_list src ->
  (forall seed, 0 <= seed < 2 ^ 16 ->
    crc16_ccitt seed src = crc16_reflect 0x8408 seed src /\
    crc16_itu_t seed src = crc16 0x1021 seed src) /\
  (forall seed, 0 <= seed < 2 ^ 8 ->
    crc8_ccitt seed src = crc8 src 0x07 seed false /\
    crc7_be seed src = crc8 src 0x12 seed false) /\
  (forall seed, 0 <= seed < 2 ^ 4 -> crc4_ti seed src = Some (crc4 src 0x03 seed false)) /\
  (forall poly seed, 0 <= poly < 2 ^ 16 -> 0 <= seed < 2 ^ 16 ->
    crc16_reflect poly seed src =
    brev 16 (crc16 (brev 16 poly) (brev 16 seed) (map (brev 8) src))) /\
  (forall poly seed, 0 <= poly < 2 ^ 8 -> 0 <= seed < 2 ^ 8 ->
    crc8 src poly seed true =
    brev 8 (crc8 (map (brev 8) src) (brev 8 poly) (brev 8 seed) false)).
Proof.
  intros Hb. assert (Hb' : byte_list (map (brev 8) src)).
  { apply Forall_forall. intros x Hx. apply list_elem_of_fmap in Hx as (y & -> & _).
    apply (brev_range 8). }
  split_and!.
  - intros seed Hs. by rewrite crc16_ccitt_register, crc16_reflect_register,
      crc16_itu_t_register, crc16_register by (done || lia).
  - intros seed Hs. by rewrite crc8_ccitt_register, crc7_be_register, !crc8_register by (done || lia).
  - intros seed Hs. rewrite crc4_ti_register, crc4_register by done. by rewrite !wrap_u_small.
  - intros poly seed Hp Hs. rewrite crc16_reflect_register, crc16_register
      by (done || apply (brev_range 16)).
    by rewrite msg_bits_brev, (register_reversed 16) by (done || lia).
  - intros poly seed Hp Hs. rewrite crc8_reversed_register, crc8_register
      by (done || apply (brev_range 8)).
    by rewrite msg_bits_brev, (register_reversed 8) by (done || lia).
Qed.

Lemma crc_routines_agree_witness :
  crc4_ti 0 [0xA5; 0x0F] = Some (crc4 [0xA5; 0x0F] 0x03 0 false) /\
  crc16_ccitt 0xffff [0xA5] = 0xFD20.
Proof.
  split; [apply (crc_routines_agree [0xA5; 0x0F]); [by_decision|lia]|].
  transitivity (crc16_reflect 0x8408 0xffff [0xA5]).
  - apply (crc_routines_agree [0xA5]); [by_decision|lia].
  - vm_compute. reflexivity.
Defined.

Ltac by_register w p seed g lem := apply (register_bursts w p seed _ g); done || lia || (intros; by apply lem) || idtac.
Ltac by_reversed w p seed g lem := apply (reversed_bursts w p seed _ g); done || lia || (intros; by apply lem) || idtac.

Lemma crc4_bursts poly seed : 0 <= seed < 2 ^ 4 -> 0 <= poly < 2 ^ 4 -> Z.testbit poly 0 = true ->
  detects_bursts 4 msg_bits (fun src => crc4 src poly seed false).
Proof. intros. by_register 4 poly seed (@id Z) crc4_register. intros. by rewrite crc4_register, !wrap_u_small. Qed.

Lemma crc4_ti_bursts seed : 0 <= seed < 2 ^ 4 ->
  detects_bursts 4 msg_bits (fun src => default 0 (crc4_ti seed src)).
Proof. intros. by_register 4 3 seed (@id Z) crc4_register. intros. by rewrite crc4_ti_register. Qed.

Lemma crc7_be_bursts seed : 0 <= seed < 2 ^ 7 -> detects_bursts 7 msg_bits (crc7_be (Z.shiftl seed 1)).
Proof.
  intros. by_register 7 0x09 seed (fun x => Z.shiftl x 1) crc7_be_register.
  - intros x y _ _ Hxy. rewrite !Z.shiftl_mul_pow2 in Hxy by lia. lia.
  - intros src Hb. rewrite crc7_be_register by (done || rewrite Z.shiftl_mul_pow2; lia).
    by apply (crc_reg_justified 7 0x09).
Qed.

Lemma crc24_bursts : detects_bursts 24 msg_bits crc24_pgp.
Proof.
  by_register 24 (wrap_u 24 CRC24_PGP_POLY) CRC24_PGP_INITIAL_VALUE (@id Z) crc24_register.
  intros src Hb. unfold crc24_pgp. by rewrite (land_ones_wrap _ _ 24), crc24_register.
Qed.

Lemma crc32_ieee_bursts seed : detects_bursts 32 msg_bits_r (crc32_ieee_update seed).
Proof.
  by_reversed 32%nat 0xedb88320 (u32 (Z.lnot seed)) (fun x => u32 (Z.lnot x)) crc32_ieee_register.
  - by apply wrap_u_range.
  - apply u32_lnot_inj.
Qed.

Lemma crc32_c_bursts seed first last : 0 <= seed < 2 ^ 32 ->
  detects_bursts 32 msg_bits_r (fun data => crc32_c seed data first last).
Proof.
  intros. by_reversed 32%nat 0x82F63B78 (if first then 0xFFFFFFFF else seed)
    (fun x => Z.lxor x (if last then 0xFFFFFFFF else 0)) crc32_c_register.
  - by destruct first.
  - intros x y Hx Hy. destruct last; [rewrite !u32_lnot_lxor by done; by apply u32_lnot_inj|].
    by rewrite !Z.lxor_0_r.
Qed.

(** C37: Two messages whose bits, in the order in which the routine takes them, differ within
    no more consecutive places than the width of the checksum have different checksums, for every
    routine but crc4 with reversed set, and for every polynomial with a constant term where the
    polynomial is an argument. *)
Theorem crc_detects_bursts seed : 0 <= seed ->
  (forall poly, seed < 2 ^ 4 -> 0 <= poly < 2 ^ 4 -> Z.testbit poly 0 = true ->
    detects_bursts 4 msg_bits (fun src => crc4 src poly seed false)) /\
  (seed < 2 ^ 4 -> detects_bursts 4 msg_bits (fun src => default 0 (crc4_ti seed src))) /\
  (seed < 2 ^ 7 -> detects_bursts 7 msg_bits (crc7_be (Z.shiftl seed 1))) /\
  (forall poly, seed < 2 ^ 8 -> 0 <= poly < 2 ^ 8 -> Z.testbit poly 0 = true ->
    detects_bursts 8 msg_bits (fun src => crc8 src poly seed false)) /\
  (forall poly, seed < 2 ^ 8 -> 0 <= poly < 2 ^ 8 -> Z.testbit poly 7 = true ->
    detects_bursts 8 msg_bits_r (fun src => crc8 src poly seed true)) /\
  (seed < 2 ^ 8 -> detects_bursts 8 msg_bits (crc8_ccitt seed)) /\
  (forall poly, seed < 2 ^ 16 -> 0 <= poly < 2 ^ 16 -> Z.testbit poly 0 = true ->
    detects_bursts 16 msg_bits (crc16 poly seed)) /\
  (forall poly, seed < 2 ^ 16 -> 0 <= poly < 2 ^ 16 -> Z.testbit poly 15 = true ->
    detects_bursts 16 msg_bits_r (crc16_reflect poly seed)) /\
  detects_bursts 16 msg_bits_r crc16_ansi /\
  (seed < 2 ^ 16 -> detects_bursts 16 msg_bits_r (crc16_ccitt seed)) /\
  (seed < 2 ^ 16 -> detects_bursts 16 msg_bits (crc16_itu_t seed)) /\
  detects_bursts 24 msg_bits crc24_pgp /\
  detects_bursts 32 msg_bits_r (crc32_ieee_update seed) /\
  forall first last, seed < 2 ^ 32 ->
    detects_bursts 32 msg_bits_r (fun data => crc32_c seed data first last).
Proof.
  intros Hs. split_and!; intros;
    auto using crc4_bursts, crc4_ti_bursts, crc7_be_bursts, crc24_bursts, crc32_ieee_bursts, crc32_c_bursts.
  - by_register 8 poly seed (@id Z) crc8_register.
  - by_reversed 8%nat poly seed (@id Z) crc8_reversed_register.
  - by_register 8 0x07 seed (@id Z) crc8_ccitt_register.
  - by_register 16 poly seed (@id Z) crc16_register.
  - by_reversed 16%nat poly seed (@id Z) crc16_reflect_register.
  - by_reversed 16%nat 0xA001 0xffff (@id Z) crc16_reflect_register.
  - by_reversed 16%nat 0x8408 seed (@id Z) crc16_ccitt_register.
  - by_register 16 0x1021 seed (@id Z) crc16_itu_t_register.
Qed.

Lemma crc_detects_bursts_witness :
  crc32_ieee_update 0 [0x5A; 0x00; 0x11] <> crc32_ieee_update 0 [0x5A; 0xFF; 0x11].
Proof.
  apply (crc_detects_bursts 0 ltac:(lia)) with (pre := lsb_bits 8 0x5A) (xs := lsb_bits 8 0)
    (ys := lsb_bits 8 0xFF) (post := lsb_bits 8 0x11); by_decision.
Defined.

(** A message can be checked in pieces. *)
Lemma crc32_ieee_update_app crc xs ys : byte_list xs -> byte_list ys ->
  crc32_ieee_update (crc32_ieee_update crc xs) ys = crc32_ieee_update crc (xs ++ ys).
Proof.
  intros Hx Hy. rewrite !crc32_ieee_register by (try apply Forall_app; done).
  rewrite u32_lnot_involutive by (apply crc_reg_r_range; try apply wrap_u_range; lia).
  unfold msg_bits_r. by rewrite bind_app, crc_reg_r_app.
Qed.

(** A seed of more than four bits makes [crc4_ti] read past its table. *)
Example crc4_ti_out_of_bounds : crc4_ti 0x10 [0x00] = None.
Proof. reflexivity. Qed.

(** With [reversed] set [crc4] takes the high nibble of a byte first, so that it misses errors in
    four bits that lie next to each other in the byte. *)
Example crc4_reversed_misses_burst : crc4 [0x14] 0xA 0 true = crc4 [0x00] 0xA 0 true.
Proof. reflexivity. Qed.
