(* ===== verification/CrcByType.v ===== *)
(** * Checksums by type

    The entry point [crc_by_type] of include/zephyr/sys/crc.h against a table of parameters: for
    each type the width, the polynomial, the initial value, the order in which the bits enter the
    register and the value added at the end.  A message can be checked block by block, the result
    of one block being the seed of the next. *)

From S2P Require Import Prelude BitOps Crc CrcRoutines.

Local Open Scope Z_scope.

(** ** The parameters of each type *)

Inductive bit_order := Msb_first | Lsb_first | High_nibble_lsb_first.

Record crc_params := mkParams {
  width : Z; polynomial : Z; init : Z; order : bit_order; xor_out : Z
}.

(** The checksum with given parameters, as a shift register. *)
Definition crc_of (p : crc_params) (src : list Z) : Z :=
  Z.lxor (match order p with
          | Msb_first => crc_reg (width p) (polynomial p) (init p) (msg_bits src)
          | Lsb_first => crc_reg_r (polynomial p) (init p) (msg_bits_r src)
          | High_nibble_lsb_first => crc_reg_r (polynomial p) (init p) (nibble_bits_r src)
          end) (xor_out p).

Definition params (type : crc_type) (seed poly : Z) (reflect first last : bool) : crc_params :=
  match type with
  | CRC4 => mkParams 4 poly seed (if reflect then High_nibble_lsb_first else Msb_first) 0
  | CRC4_TI => mkParams 4 0x3 seed Msb_first 0
  | CRC7_BE => mkParams 8 (2 * 0x09) (u8 seed) Msb_first 0
  | CRC8 => mkParams 8 (u8 poly) (u8 seed) (if reflect then Lsb_first else Msb_first) 0
  | CRC8_CCITT => mkParams 8 0x07 (u8 seed) Msb_first 0
  | CRC16 => mkParams 16 (u16 poly) (u16 seed) (if reflect then Lsb_first else Msb_first) 0
  | CRC16_ANSI => mkParams 16 0xA001 0xFFFF Lsb_first 0
  | CRC16_CCITT => mkParams 16 0x8408 (u16 seed) Lsb_first 0
  | CRC16_ITU_T => mkParams 16 0x1021 (u16 seed) Msb_first 0
  | CRC24_PGP => mkParams 24 0x864CFB (wrap_u 24 seed) Msb_first 0
  | CRC32_C => mkParams 32 0x82F63B78 (if first then 0xFFFFFFFF else seed) Lsb_first (if last then 0xFFFFFFFF else 0)
  | CRC32_IEEE => mkParams 32 0xEDB88320 (0xFFFFFFFF - seed) Lsb_first 0xFFFFFFFF
  end.

(** The seeds and polynomials a caller may give; the routines for four bits do not cut theirs off. *)
Definition argument (type : crc_type) (x : Z) : Prop :=
  0 <= x < 2 ^ match type with CRC4 | CRC4_TI => 4 | _ => 32 end.

(** CRC-24 leaves the bits above the checksum in the register until the last block. *)
Definition unfinished (type : crc_type) (last : bool) : bool :=
  match type with CRC24_PGP => negb last | _ => false end.
Definition is_checksum (type : crc_type) (last : bool) (p : crc_params) (src : list Z) (c : Z) : Prop :=
  0 <= c < 2 ^ (if unfinished type last then 32 else width p) /\ wrap_u (width p) c = crc_of p src.

(** ** Proofs *)

Lemma iter_range w f k x : (forall x, 0 <= f x < 2 ^ w) -> 0 <= x < 2 ^ w -> 0 <= Nat.iter k f x < 2 ^ w.
Proof. intros Hf Hx. destruct k; [done|apply Hf]. Qed.

Lemma crc24_pgp_update_range crc data : 0 <= crc < 2 ^ 32 -> 0 <= crc24_pgp_update crc data < 2 ^ 32.
Proof.
  unfold crc24_pgp_update. revert crc. induction data as [|x data IH]; intros crc Hc; [done|]. cbn [foldl]. apply IH.
  apply iter_range; [|by apply wrap_u_range]. intros y. cbn zeta. destruct (negb _); by apply wrap_u_range.
Qed.

Lemma checksum_intro type last p src c :
  c = crc_of p src -> 0 < width p <= 32 -> 0 <= c < 2 ^ width p -> is_checksum type last p src c.
Proof.
  intros Hc Hw Hr. split; [|by rewrite wrap_u_small]. destruct (unfinished type last); [|done].
  assert (2 ^ width p <= 2 ^ 32) by (apply Z.pow_le_mono_r; lia). lia.
Qed.

(** A register that is neither complemented nor cut. *)
Ltac is_register :=
  eexists; split; [done|]; apply checksum_intro; cbn [width];
  [unfold crc_of; cbn [xor_out order]; by rewrite Z.lxor_0_r|lia|];
  first [apply crc_reg_range|apply crc_reg_r_range]; done || lia || by apply wrap_u_range.
Ltac plain_register H := rewrite H by (done || lia || by apply wrap_u_range); is_register.

Section Registers.
Context (src : list Z) (seed poly : Z) (Hb : byte_list src).

Lemma crc4_by_type reflect first last : 0 <= seed < 2 ^ 4 -> 0 <= poly < 2 ^ 4 ->
  exists c, crc_by_type CRC4 src seed poly reflect first last = Some c /\
    is_checksum CRC4 last (params CRC4 seed poly reflect first last) src c.
Proof using Hb.
  intros Hs Hp. cbn [crc_by_type params]. rewrite !(wrap_u_small 8) by lia.
  destruct reflect; [plain_register crc4_reversed_register|].
  rewrite crc4_register, !wrap_u_small by done. is_register.
Qed.

Lemma crc24_by_type reflect first last : 0 <= seed < 2 ^ 32 ->
  exists c, crc_by_type CRC24_PGP src seed poly reflect first last = Some c /\
    is_checksum CRC24_PGP last (params CRC24_PGP seed poly reflect first last) src c.
Proof using Hb.
  intros Hs. eexists. split; [done|]. cbn zeta. pose proof (crc24_pgp_update_range seed src Hs) as Hr.
  pose proof (crc24_register seed src Hb) as Hreg. unfold is_checksum, crc_of. cbn. rewrite Z.lxor_0_r.
  destruct last; cbn [negb]; [|done]. rewrite (land_ones_wrap _ _ 24) by done.
  pose proof (wrap_u_range 24 (crc24_pgp_update seed src)). rewrite (wrap_u_small 24 (wrap_u 24 _)) by lia.
  split; [lia|done].
Qed.

Lemma crc32_by_type type reflect first last : type = CRC32_C \/ type = CRC32_IEEE -> 0 <= seed < 2 ^ 32 ->
  exists c, crc_by_type type src seed poly reflect first last = Some c /\
    is_checksum type last (params type seed poly reflect first last) src c.
Proof using Hb.
  intros [-> | ->] Hs; cbn [crc_by_type params]; eexists; (split; [done|]); apply checksum_intro; try done; cbn [width].
  - by rewrite crc32_c_register.
  - rewrite crc32_c_register by done. apply lxor_range; [done| |by destruct last].
    apply crc_reg_r_range; try done; try lia. by destruct first.
  - rewrite crc32_ieee_register by done. unfold crc_of. cbn [order polynomial init xor_out].
    assert (E : u32 (Z.lnot seed) = 0xFFFFFFFF - seed).
    { unfold wrap_u, Z.lnot. rewrite <- (Z.mod_unique_pos _ _ (-1) (0xFFFFFFFF - seed)); lia. }
    rewrite E, u32_lnot_lxor; [done|]. apply crc_reg_r_range; done || lia.
  - rewrite crc32_ieee_register by done. by apply wrap_u_range.
Qed.

Lemma crc_by_type_checksum type reflect first last : argument type seed -> argument type poly ->
  exists c, crc_by_type type src seed poly reflect first last = Some c /\
    is_checksum type last (params type seed poly reflect first last) src c.
Proof using Hb.
  unfold argument. destruct type; intros Hs Hp; auto using crc4_by_type, crc24_by_type, crc32_by_type;
    cbn [crc_by_type params].
  - rewrite (wrap_u_small 8 seed) by lia. plain_register crc4_ti_register.
  - plain_register crc7_be_register.
  - destruct reflect; [plain_register crc8_reversed_register|plain_register crc8_register].
  - plain_register crc8_ccitt_register.
  - destruct reflect; [plain_register crc16_reflect_register|plain_register crc16_register].
  - unfold crc16_ansi. plain_register crc16_reflect_register.
  - plain_register crc16_ccitt_register.
  - plain_register crc16_itu_t_register.
Qed.
End Registers.

(** The routines are folds over the message. *)
Lemma crc4_app xs ys poly seed reversed : byte_list xs -> byte_list ys -> 0 <= poly < 2 ^ 4 -> 0 <= seed < 2 ^ 4 ->
  crc4 (xs ++ ys) poly seed reversed = crc4 ys poly (crc4 xs poly seed reversed) reversed.
Proof.
  intros Hx Hy Hp Hs. assert (byte_list (xs ++ ys)) by (by apply Forall_app). destruct reversed.
  - assert (0 <= crc_reg_r poly seed (nibble_bits_r xs) < 2 ^ 4) by (apply crc_reg_r_range; done || lia).
    rewrite !crc4_reversed_register by (done || rewrite ?crc4_reversed_register; done).
    unfold nibble_bits_r. by rewrite bind_app, crc_reg_r_app.
  - assert (0 <= crc_reg 4 poly seed (msg_bits xs) < 2 ^ 4) by (apply crc_reg_range; done || lia).
    rewrite !crc4_register by done. rewrite !wrap_u_small by (done || rewrite ?wrap_u_small; done).
    unfold msg_bits. by rewrite bind_app, crc_reg_app.
Qed.

Lemma crc_by_type_app type xs ys seed poly reflect first last : byte_list xs -> byte_list ys ->
  argument type seed -> argument type poly -> type <> CRC16_ANSI ->
  crc_by_type type (xs ++ ys) seed poly reflect first last =
  c ← crc_by_type type xs seed poly reflect first false; crc_by_type type ys c poly reflect false last.
Proof.
  intros Hx Hy Hs Hp Hn. destruct (crc_by_type_checksum xs seed poly Hx type reflect first false Hs Hp) as (c & Hc & Hr & _).
  rewrite Hc. cbn [mbind option_bind]. unfold argument in *.
  destruct type; cbn [params width unfinished negb crc_by_type] in *; try done; rewrite ?(wrap_u_small _ c) by lia.
  all: try (injection Hc as <-).
  - f_equal. rewrite !(wrap_u_small 8) by lia. by apply crc4_app.
  - unfold crc4_ti in *. by rewrite foldl_app, Hc.
  - f_equal. apply foldl_app.
  - f_equal. apply foldl_app.
  - f_equal. apply foldl_app.
  - f_equal. destruct reflect; apply foldl_app.
  - f_equal. apply foldl_app.
  - f_equal. apply foldl_app.
  - cbn zeta. unfold crc24_pgp_update. by rewrite foldl_app.
  - unfold crc32_c. by rewrite foldl_app.
  - by rewrite crc32_ieee_update_app.
Qed.

(** CRC-7 is kept in the upper seven bits of a byte. *)
Lemma crc7_by_type src s poly reflect first last : byte_list src -> 0 <= s < 2 ^ 7 ->
  crc_by_type CRC7_BE src (2 * s) poly reflect first last = Some (2 * crc_reg 7 0x09 s (msg_bits src)).
Proof.
  intros Hb Hs. cbn [crc_by_type]. rewrite wrap_u_small, crc7_be_register by (done || lia). f_equal.
  pose proof (crc_reg_justified 7 0x09 s (msg_bits src)) as Hj. rewrite !Z.shiftl_mul_pow2 in Hj by lia.
  rewrite !(Z.mul_comm 2). apply Hj; lia.
Qed.

(** C36: crc_by_type dispatches to the right checksum: for every type its result is that of
    the shift register with the width, polynomial, initial value, bit order and final complement
    listed for the type, with seed and polynomial cut to the width, the reflected form exactly
    when asked for, and the bits above a CRC-24 cleared with the last block; CRC-7 stands in the
    upper seven bits of the byte. The 4-bit types take 4-bit arguments only. A message in two
    blocks has the checksum of the second block with the result of the first as seed, for every
    type but CRC16_ANSI, which has no seed. *)
Theorem crc_by_type_correct type xs ys seed poly reflect first last :
  byte_list xs -> byte_list ys -> argument type seed -> argument type poly ->
  (exists c, crc_by_type type xs seed poly reflect first last = Some c /\
    is_checksum type last (params type seed poly reflect first last) xs c) /\
  (forall s, 0 <= s < 2 ^ 7 -> crc_by_type CRC7_BE xs (2 * s) poly reflect first last =
    Some (2 * crc_reg 7 0x09 s (msg_bits xs))) /\
  (type <> CRC16_ANSI ->
    crc_by_type type (xs ++ ys) seed poly reflect first last =
    c ← crc_by_type type xs seed poly reflect first false; crc_by_type type ys c poly reflect false last).
Proof.
  intros Hx Hy Hs Hp. split_and!; [by apply crc_by_type_checksum|intros; by apply crc7_by_type|intros; by apply crc_by_type_app].
Qed.

(** The check value of CRC-32, that of the digits 1 to 9. *)
Lemma crc_by_type_witness :
  (exists c, crc_by_type CRC32_IEEE [0x31; 0x32; 0x33; 0x34; 0x35; 0x36; 0x37; 0x38; 0x39] 0 0 false true true = Some c /\
    wrap_u 32 c = 0xCBF43926) /\
  crc_by_type CRC32_C ([0x31; 0x32; 0x33] ++ [0x34; 0x35]) 7 0 false true true =
  c ← crc_by_type CRC32_C [0x31; 0x32; 0x33] 7 0 false true false; crc_by_type CRC32_C [0x34; 0x35] c 0 false false true.
Proof.
  split; [|apply (crc_by_type_correct CRC32_C [0x31; 0x32; 0x33] [0x34; 0x35] 7 0 false true true); [by_decision..|discriminate]].
  edestruct (crc_by_type_correct CRC32_IEEE [0x31; 0x32; 0x33; 0x34; 0x35; 0x36; 0x37; 0x38; 0x39] [] 0 0 false true true)
    as [(c & Hc & _ & Hw) _]; [by_decision..|].
  exists c. split; [exact Hc|]. etransitivity; [exact Hw|]. vm_compute. reflexivity.
Defined.
