(* ===== verification/Buffer.v ===== *)
(** * Buffers that are filled from the front

    An array of bytes together with the position of the next write, the way the text
    routines of lib/utils fill their output: a write past the end of the array is an error. *)

From S2P Require Import Prelude.

Local Open Scope Z_scope.

(** [buf[i] = v] *)
Definition store (buf : list Z) (i v : Z) : option (list Z) :=
  if (0 <=? i) && (i <? Z.of_nat (length buf)) then Some (<[Z.to_nat i := v]> buf) else None.

(** [*p++ = v], where [p] points into the array. *)
Definition put (o : list Z * Z) (v : Z) : option (list Z * Z) :=
  let '(buf, p) := o in buf ← store buf p v; Some (buf, p + 1).

(** The array [dst] after [out] has been written to its front. *)
Definition over (dst out : list Z) : list Z := out ++ drop (length out) dst.
Definition filled (dst out : list Z) : list Z * Z := (over dst out, Z.of_nat (length out)).

Lemma over_nil dst : over dst [] = dst.
Proof. unfold over. apply drop_0. Qed.

Lemma over_length dst out : (length out <= length dst)%nat -> length (over dst out) = length dst.
Proof. intros. unfold over. rewrite length_app, length_drop. lia. Qed.

Lemma take_over dst out : take (length out) (over dst out) = out.
Proof. unfold over. apply take_app_length. Qed.

Lemma over_lookup_ge dst out i : (length out <= i)%nat -> over dst out !! i = dst !! i.
Proof.
  intros. unfold over. rewrite lookup_app_r, lookup_drop by done. f_equal. lia.
Qed.

Lemma store_over dst out v : (length out < length dst)%nat ->
  store (over dst out) (Z.of_nat (length out)) v = Some (over dst (out ++ [v])).
Proof.
  intros Hl. unfold store. rewrite over_length by lia.
  rewrite (proj2 (Z.leb_le 0 _)), (proj2 (Z.ltb_lt _ _)) by lia. cbn [andb]. f_equal.
  rewrite Nat2Z.id. unfold over.
  destruct (drop (length out) dst) as [|d ds] eqn:Hd.
  - apply (f_equal length) in Hd. rewrite length_drop in Hd. cbn in Hd. lia.
  - rewrite insert_app_r_alt, Nat.sub_diag, <- app_assoc by lia. cbn. do 2 f_equal.
    rewrite length_app, <- drop_drop, Hd. done.
Qed.

(** Overwriting the byte written last. *)
Lemma store_last dst out u v : (length out < length dst)%nat ->
  store (over dst (out ++ [u])) (Z.of_nat (length out)) v = Some (over dst (out ++ [v])).
Proof.
  intros Hl. unfold store. rewrite over_length by (rewrite length_app; cbn; lia).
  rewrite (proj2 (Z.leb_le 0 _)), (proj2 (Z.ltb_lt _ _)) by lia. cbn [andb]. f_equal.
  rewrite Nat2Z.id. unfold over. rewrite !length_app, <- !app_assoc.
  rewrite insert_app_r_alt, Nat.sub_diag by lia. done.
Qed.

Lemma lookup_over_last dst out u : over dst (out ++ [u]) !! length out = Some u.
Proof. unfold over. rewrite <- app_assoc, lookup_app_r, Nat.sub_diag by lia. done. Qed.

Lemma put_filled dst out v : (length out < length dst)%nat ->
  put (filled dst out) v = Some (filled dst (out ++ [v])).
Proof.
  intros Hl. unfold put, filled. rewrite store_over by done. cbn [mbind option_bind].
  do 2 f_equal. rewrite length_app. cbn. lia.
Qed.
