(* ===== verification/Base64.v ===== *)
(** * Base64

    lib/utils/base64.c: encoding and decoding of buffers.  Sizes are 32 bits wide.  A call
    returns its result, the new value of [*olen] and the destination; [None] stands for an
    access outside an array.  The decoder is shown to implement a specification of the format
    (lines of groups of four characters, blanks at the end of a line, padding at the end of
    the text), and to invert the encoder. *)

From S2P Require Import Prelude Timeout KState BitOps Buffer.

Local Open Scope Z_scope.

(** ** The code *)

Definition base64_enc_map : list Z := [
   65;  66;  67;  68;  69;  70;  71;  72;  73;  74;
   75;  76;  77;  78;  79;  80;  81;  82;  83;  84;
   85;  86;  87;  88;  89;  90;  97;  98;  99; 100;
  101; 102; 103; 104; 105; 106; 107; 108; 109; 110;
  111; 112; 113; 114; 115; 116; 117; 118; 119; 120;
  121; 122;  48;  49;  50;  51;  52;  53;  54;  55;
   56;  57;  43;  47].

Definition base64_dec_map : list Z := [
  127; 127; 127; 127; 127; 127; 127; 127; 127; 127;
  127; 127; 127; 127; 127; 127; 127; 127; 127; 127;
  127; 127; 127; 127; 127; 127; 127; 127; 127; 127;
  127; 127; 127; 127; 127; 127; 127; 127; 127; 127;
  127; 127; 127;  62; 127; 127; 127;  63;  52;  53;
   54;  55;  56;  57;  58;  59;  60;  61; 127; 127;
  127;  64; 127; 127; 127;   0;   1;   2;   3;   4;
    5;   6;   7;   8;   9;  10;  11;  12;  13;  14;
   15;  16;  17;  18;  19;  20;  21;  22;  23;  24;
   25; 127; 127; 127; 127; 127; 127;  26;  27;  28;
   29;  30;  31;  32;  33;  34;  35;  36;  37;  38;
   39;  40;  41;  42;  43;  44;  45;  46;  47;  48;
   49;  50;  51; 127; 127; 127; 127; 127].

Definition BASE64_SIZE_T_MAX : Z := u32 (-1).

(** Characters: line feed, carriage return, blank, padding. *)
Definition chr_LF : Z := 10.
Definition chr_CR : Z := 13.
Definition chr_SP : Z := 32.
Definition chr_EQ : Z := 61.

Definition enc_char (i : Z) : option Z := base64_enc_map !! Z.to_nat (Z.land i 0x3F).

(** The loop over whole groups of three bytes; returns what is left of the source. *)
Fixpoint encode_groups (k : nat) (src : list Z) (o : list Z * Z) : option (list Z * (list Z * Z)) :=
  match k with
  | O => Some (src, o)
  | S k =>
      match src with
      | C1 :: C2 :: C3 :: src =>
          c ← enc_char (Z.shiftr C1 2); o ← put o c;
          c ← enc_char (Z.shiftl (Z.land C1 3) 4 + Z.shiftr C2 4); o ← put o c;
          c ← enc_char (Z.shiftl (Z.land C2 15) 2 + Z.shiftr C3 6); o ← put o c;
          c ← enc_char C3; o ← put o c;
          encode_groups k src o
      | _ => None
      end
  end.

(** The part after the loop, for the one or two bytes left over. *)
Definition encode_tail (i slen : Z) (src : list Z) (o : list Z * Z) : option (list Z * Z) :=
  if i <? slen then
    C1 ← head src;
    C2 ← (if i + 1 <? slen then src !! 1%nat else Some 0);
    c ← enc_char (Z.shiftr C1 2); o ← put o c;
    c ← enc_char (Z.shiftl (Z.land C1 3) 4 + Z.shiftr C2 4); o ← put o c;
    c ← (if i + 1 <? slen then enc_char (Z.shiftl (Z.land C2 15) 2) else Some chr_EQ);
    o ← put o c;
    put o chr_EQ
  else Some o.

Definition base64_encode (dst : option (list Z)) (dlen : Z) (src : list Z) :
    option (Z * Z * option (list Z)) :=
  let slen := Z.of_nat (length src) in
  if slen =? 0 then Some (0, 0, dst) else
  let n := slen / 3 + (if slen mod 3 =? 0 then 0 else 1) in
  if n >? (BASE64_SIZE_T_MAX - 1) / 4 then Some (- ENOMEM, BASE64_SIZE_T_MAX, dst) else
  let n := u32 (n * 4) in
  match dst with
  | None => Some (- ENOMEM, u32 (n + 1), dst)
  | Some buf =>
      if dlen <? u32 (n + 1) then Some (- ENOMEM, u32 (n + 1), dst) else
      let n := slen / 3 * 3 in
      '(src, o) ← encode_groups (Z.to_nat (slen / 3)) src (buf, 0);
      o ← encode_tail n slen src o;
      let olen := snd o in
      o ← put o 0;
      Some (0, olen, Some (fst o))
  end.

(** [while (i < slen && src[i] == ' ')] *)
Fixpoint skip_blanks (fuel : nat) (src : list Z) (i x : Z) : option (Z * Z) :=
  match fuel with
  | O => None
  | S fuel =>
      if i <? Z.of_nat (length src) then
        c ← src !! Z.to_nat i;
        if c =? chr_SP then skip_blanks fuel src (i + 1) (u32 (x + 1)) else Some (i, x)
      else Some (i, x)
  end.

(** The first pass: the position it ended at, the number of characters and of pads, or the
    error. *)
Fixpoint decode_check (fuel : nat) (src : list Z) (i n j : Z) : option (Z + Z * Z * Z) :=
  match fuel with
  | O => None
  | S fuel =>
      let slen := Z.of_nat (length src) in
      if negb (i <? slen) then Some (inr (i, n, j)) else
      '(i, x) ← skip_blanks (S (length src)) src i 0;
      if i =? slen then Some (inr (i, n, j)) else
      c ← src !! Z.to_nat i;
      if (slen - i >=? 2) && (c =? chr_CR) && bool_decide (src !! Z.to_nat (i + 1) = Some chr_LF)
      then decode_check fuel src (i + 1) n j else
      if c =? chr_LF then decode_check fuel src (i + 1) n j else
      if negb (x =? 0) then Some (inl (- EINVAL)) else
      let j := if c =? chr_EQ then u32 (j + 1) else j in
      if (c =? chr_EQ) && (j >? 2) then Some (inl (- EINVAL)) else
      if c >? 127 then Some (inl (- EINVAL)) else
      m ← base64_dec_map !! Z.to_nat c;
      if m =? 127 then Some (inl (- EINVAL)) else
      if (m <? 64) && negb (j =? 0) then Some (inl (- EINVAL)) else
      decode_check fuel src (i + 1) (u32 (n + 1)) j
  end.

(** The second pass, over the characters [cs]. *)
Fixpoint decode_groups (cs : list Z) (j n x : Z) (o : list Z * Z) : option (list Z * Z) :=
  match cs with
  | [] => Some o
  | c :: cs =>
      if (c =? chr_CR) || (c =? chr_LF) || (c =? chr_SP) then decode_groups cs j n x o else
      m ← base64_dec_map !! Z.to_nat c;
      let j := u32 (j - (if m =? 64 then 1 else 0)) in
      let x := u32 (Z.lor (Z.shiftl x 6) (Z.land m 0x3F)) in
      let n := n + 1 in
      if n =? 4 then
        o ← (if j >? 0 then put o (u8 (Z.shiftr x 16)) else Some o);
        o ← (if j >? 1 then put o (u8 (Z.shiftr x 8)) else Some o);
        o ← (if j >? 2 then put o (u8 x) else Some o);
        decode_groups cs j 0 x o
      else decode_groups cs j n x o
  end.

Definition base64_decode (dst : option (list Z)) (dlen olen : Z) (src : list Z) :
    option (Z * Z * option (list Z)) :=
  r ← decode_check (S (length src)) src 0 0 0;
  match r with
  | inl ret => Some (ret, olen, dst)
  | inr (i, n, j) =>
      if n =? 0 then Some (0, 0, dst) else
      let n := u32 (6 * Z.shiftr n 3 + Z.shiftr (6 * Z.land n 0x7 + 7) 3) in
      let n := u32 (n - j) in
      match dst with
      | None => Some (- ENOMEM, n, dst)
      | Some buf =>
          if dlen <? n then Some (- ENOMEM, n, dst) else
          o ← decode_groups (take (Z.to_nat i) src) 3 0 0 (buf, 0);
          Some (0, snd o, Some (fst o))
      end
  end.

(** ** The format *)

(** The digits and their letters. *)
Definition letter (m : Z) : Z :=
  if m <? 26 then 65 + m else if m <? 52 then 97 + (m - 26) else if m <? 62 then 48 + (m - 52)
  else if m =? 62 then 43 else 47.

Definition digit (c : Z) : option Z :=
  if (65 <=? c) && (c <=? 90) then Some (c - 65)
  else if (97 <=? c) && (c <=? 122) then Some (c - 97 + 26)
  else if (48 <=? c) && (c <=? 57) then Some (c - 48 + 52)
  else if c =? 43 then Some 62 else if c =? 47 then Some 63 else None.

(** The characters of a text without line breaks and the blanks before them; [blank] if the
    text follows a blank.  A blank inside a line is an error. *)
Fixpoint unlines (blank : bool) (src : list Z) : option (list Z) :=
  match src with
  | [] => Some []
  | c :: r =>
      if c =? chr_SP then unlines true r
      else if (c =? chr_CR) && bool_decide (head r = Some chr_LF) then unlines false r
      else if c =? chr_LF then unlines false r
      else if blank then None
      else (ds ← unlines false r; Some (c :: ds))
  end.

(** Digits followed by at most two pads. *)
Fixpoint payload (ds : list Z) : option (list Z * Z) :=
  match ds with
  | [] => Some ([], 0)
  | c :: r =>
      match digit c with
      | Some m => '(ms, k) ← payload r; Some (m :: ms, k)
      | None => if bool_decide (ds = [chr_EQ]) then Some ([], 1)
                else if bool_decide (ds = [chr_EQ; chr_EQ]) then Some ([], 2) else None
      end
  end.

Definition text (src : list Z) : option (list Z * Z) := ds ← unlines false src; payload ds.

(** The bytes that the digits [ms] followed by [k] pads stand for. *)
Fixpoint of_digits (ms : list Z) (k : Z) : list Z :=
  match ms with
  | a :: b :: c :: d :: r =>
      [a * 4 + b / 16; b mod 16 * 16 + c / 4; c mod 4 * 64 + d] ++ of_digits r k
  | [a; b; c] => if 1 <=? k then [a * 4 + b / 16; b mod 16 * 16 + c / 4] else []
  | [a; b] => if 2 <=? k then [a * 4 + b / 16] else []
  | _ => []
  end.

(** The digits that stand for some bytes, and the number of pads after them. *)
Fixpoint to_digits (src : list Z) : list Z :=
  match src with
  | a :: b :: c :: r => [a / 4; a mod 4 * 16 + b / 16; b mod 16 * 4 + c / 64; c mod 64] ++ to_digits r
  | [a; b] => [a / 4; a mod 4 * 16 + b / 16; b mod 16 * 4]
  | [a] => [a / 4; a mod 4 * 16]
  | [] => []
  end.

Definition npads (src : list Z) : Z := (- Z.of_nat (length src)) mod 3.

Definition b64_text (src : list Z) : list Z :=
  map letter (to_digits src) ++ replicate (Z.to_nat (npads src)) chr_EQ.

(** The room that the decoder asks for. *)
Definition room (ms : list Z) (k : Z) : Z := (6 * (Z.of_nat (length ms) + k) + 7) / 8 - k.

(** ** Digits *)

Lemma dec_map_lookup c : 0 <= c < 128 ->
  base64_dec_map !! Z.to_nat c =
  Some (match digit c with Some m => m | None => if c =? chr_EQ then 64 else 127 end).
Proof. revert c. apply below_cases. by_decision. Qed.

Lemma enc_map_lookup m : 0 <= m < 64 -> base64_enc_map !! Z.to_nat m = Some (letter m).
Proof. revert m. apply below_cases. by_decision. Qed.

Lemma digit_letter m : 0 <= m < 64 -> digit (letter m) = Some m.
Proof. revert m. apply below_cases. by_decision. Qed.

Lemma digit_range c m : digit c = Some m -> 0 <= m < 64 /\ 0 <= c < 128.
Proof.
  unfold digit. intros H. repeat case_match; simplify_eq; bool_to_prop; lia.
Qed.

Lemma digit_text c m : digit c = Some m ->
  c <> chr_SP /\ c <> chr_CR /\ c <> chr_LF /\ c <> chr_EQ.
Proof.
  intros H. split_and!; intros ->; discriminate.
Qed.

Lemma payload_digits ds ms k : payload ds = Some (ms, k) -> Forall (fun m => 0 <= m < 64) ms /\ 0 <= k <= 2.
Proof.
  revert ms. induction ds as [|c r IH]; intros ms; cbn [payload]; [intros [= <- <-]; split; [done|lia]|].
  destruct (digit c) as [m|] eqn:Hm; [|repeat case_bool_decide; try done; intros [= <- <-]; split; done || lia].
  destruct (payload r) as [[ms' k']|]; [|done]. intros [= <- <-].
  destruct (IH ms' eq_refl). split; [|done]. constructor; [|done]. by apply (digit_range c).
Qed.

Lemma payload_eq ds ms k : payload ds = Some (ms, k) ->
  ds = map letter ms ++ replicate (Z.to_nat k) chr_EQ.
Proof.
  revert ms. induction ds as [|c r IH]; intros ms; cbn [payload]; [by intros [= <- <-]|].
  destruct (digit c) as [m|] eqn:Hm.
  - destruct (payload r) as [[ms' k']|]; [|done]. intros [= <- <-]. cbn [map app].
    rewrite <- (IH ms' eq_refl). f_equal. revert Hm. unfold digit, letter.
    intros H. repeat case_match; simplify_eq; bool_to_prop; lia.
  - repeat case_bool_decide; try done; intros [= <- <-]; done.
Qed.

(** What the first pass makes of the characters: the number of pads. *)
Fixpoint pads (j : Z) (ds : list Z) : option Z :=
  match ds with
  | [] => Some j
  | c :: r =>
      if c =? chr_EQ then (if j + 1 >? 2 then None else pads (j + 1) r)
      else match digit c with
           | Some _ => if j =? 0 then pads j r else None
           | None => None
           end
  end.

Lemma pads_after j ds : 1 <= j <= 2 ->
  pads j ds = if bool_decide (ds = []) then Some j
              else if bool_decide (ds = [chr_EQ]) && (j =? 1) then Some 2 else None.
Proof.
  intros Hj. destruct ds as [|c r]; [done|]. cbn [pads].
  rewrite (bool_decide_eq_false_2 (c :: r = [])) by done.
  destruct (Z.eqb_spec c chr_EQ) as [->|Hc].
  - destruct (Z.eqb_spec j 1) as [->|].
    + cbn. destruct r as [|c' r']; [done|]. rewrite bool_decide_eq_false_2 by congruence. cbn [pads andb].
      destruct (c' =? chr_EQ); [done|]. by destruct (digit c').
    + rewrite andb_false_r. destruct (Z.gtb_spec (j + 1) 2); [done|lia].
  - rewrite (bool_decide_eq_false_2 (c :: r = [chr_EQ])) by congruence. cbn [andb].
    destruct (digit c); [|done]. by rewrite (proj2 (Z.eqb_neq j 0)) by lia.
Qed.

Lemma pads_payload ds : pads 0 ds = snd <$> payload ds.
Proof.
  induction ds as [|c r IH]; [done|]. cbn [pads payload].
  destruct (Z.eqb_spec c chr_EQ) as [->|Hc].
  - change (digit chr_EQ) with (@None Z). cbn [Z.gtb Z.compare]. change (0 + 1) with 1.
    rewrite (pads_after 1 r) by lia. rewrite andb_true_r. 
    destruct r as [|c' r']; [done|]. rewrite (bool_decide_eq_false_2 (c' :: r' = [])) by done.
    rewrite (bool_decide_eq_false_2 (chr_EQ :: c' :: r' = [chr_EQ])) by done.
    destruct (decide (c' :: r' = [chr_EQ])) as [->|Hne]; [done|].
    rewrite !bool_decide_eq_false_2 by congruence. done.
  - destruct (digit c) as [m|] eqn:Hm; cbn [Z.eqb].
    + rewrite IH. by destruct (payload r) as [[ms k]|].
    + rewrite !bool_decide_eq_false_2 by congruence. done.
Qed.

(** ** The first pass *)

Lemma skip_blanks_spec fuel src i x :
  0 <= i <= Z.of_nat (length src) -> 0 <= x -> x + Z.of_nat (length src) - i < 2 ^ 32 ->
  (length src - Z.to_nat i < fuel)%nat ->
  exists b r, drop (Z.to_nat i) src = replicate b chr_SP ++ r /\ head r <> Some chr_SP /\
    skip_blanks fuel src i x = Some (i + Z.of_nat b, x + Z.of_nat b).
Proof.
  revert i x. induction fuel as [|fuel IH]; intros i x Hi Hx Hm Hf; [lia|]. cbn [skip_blanks].
  destruct (Z.ltb_spec i (Z.of_nat (length src))) as [Hlt|].
  - destruct (lookup_lt_is_Some_2 src (Z.to_nat i)) as [c Hc]; [lia|].
    rewrite Hc. cbn [mbind option_bind]. rewrite (drop_S _ _ _ Hc).
    destruct (Z.eqb_spec c chr_SP) as [->|Hne].
    + rewrite wrap_u_small by lia. destruct (IH (i + 1) (x + 1)) as (b & r & Hd & Hr & ->); [lia..|].
      exists (S b), r. replace (S (Z.to_nat i)) with (Z.to_nat (i + 1)) by lia. rewrite Hd.
      split_and!; [done..|]. do 2 f_equal; lia.
    + exists 0%nat, (c :: drop (S (Z.to_nat i)) src). split_and!; [done|by intros [=]|].
      do 2 f_equal; lia.
  - exists 0%nat, []. rewrite drop_ge by lia. split_and!; [done..|]. do 2 f_equal; lia.
Qed.

Lemma unlines_blanks bl b r :
  unlines bl (replicate b chr_SP ++ r) = unlines (if (b =? 0)%nat then bl else true) r.
Proof.
  revert bl. induction b as [|b IH]; intros bl; [done|]. cbn [replicate app unlines Nat.eqb].
  rewrite Z.eqb_refl, IH. by destruct b.
Qed.

(** The result of the first pass on the rest of the text. *)
Definition check_result (slen n j : Z) (rest : list Z) : Z + Z * Z * Z :=
  match (ds ← unlines false rest; j' ← pads j ds; Some (Z.of_nat (length ds), j')) with
  | Some (l, j') => inr (slen, n + l, j')
  | None => inl (- EINVAL)
  end.

Lemma check_result_ok slen n j c r :
  c <> chr_SP -> c <> chr_LF -> (c = chr_CR -> head r <> Some chr_LF) ->
  check_result slen n j (c :: r) =
  if c =? chr_EQ then (if j + 1 >? 2 then inl (- EINVAL) else check_result slen (n + 1) (j + 1) r)
  else match digit c with
       | Some _ => if j =? 0 then check_result slen (n + 1) j r else inl (- EINVAL)
       | None => inl (- EINVAL)
       end.
Proof.
  intros H1 H2 H3. unfold check_result. cbn [unlines].
  rewrite (proj2 (Z.eqb_neq c chr_SP)), (proj2 (Z.eqb_neq c chr_LF)) by done.
  replace ((c =? chr_CR) && bool_decide (head r = Some chr_LF)) with false.
  2: { destruct (Z.eqb_spec c chr_CR) as [Hc|]; [|done]. by rewrite bool_decide_eq_false_2 by auto. }
  destruct (unlines false r) as [ds|]; cbn [mbind option_bind pads].
  - destruct (c =? chr_EQ).
    + destruct (j + 1 >? 2); cbn; [done|]. destruct (pads (j + 1) ds); cbn; [|done].
      by replace (n + 1 + Z.of_nat (length ds)) with (n + Z.of_nat (S (length ds))) by lia.
    + destruct (digit c); [|done]. destruct (j =? 0); cbn; [|done].
      destruct (pads j ds); cbn; [|done].
      by replace (n + 1 + Z.of_nat (length ds)) with (n + Z.of_nat (S (length ds))) by lia.
  - repeat case_match; done.
Qed.

Lemma check_result_blanks slen n j b c r : c <> chr_SP ->
  check_result slen n j (replicate b chr_SP ++ c :: r) =
  if (c =? chr_CR) && bool_decide (head r = Some chr_LF) then check_result slen n j r
  else if c =? chr_LF then check_result slen n j r
  else if (b =? 0)%nat then check_result slen n j (c :: r) else inl (- EINVAL).
Proof.
  intros Hc. unfold check_result at 1. rewrite unlines_blanks. cbn [unlines].
  rewrite (proj2 (Z.eqb_neq c chr_SP)) by done.
  destruct (_ && _) eqn:H1; [done|]. destruct (c =? chr_LF) eqn:H2; [done|].
  destruct (b =? 0)%nat; [|done]. unfold check_result. cbn [unlines].
  by rewrite (proj2 (Z.eqb_neq c chr_SP)), H1, H2.
Qed.

(** What the loop does with a character in the text, before it goes on with [k]. *)
Lemma decode_char {R} (e : R) (k : Z -> option R) c j : 0 <= c < 2 ^ 8 -> 0 <= j <= 2 ->
  (let j := if c =? chr_EQ then u32 (j + 1) else j in
   if (c =? chr_EQ) && (j >? 2) then Some e else
   if c >? 127 then Some e else
   m ← base64_dec_map !! Z.to_nat c;
   if m =? 127 then Some e else
   if (m <? 64) && negb (j =? 0) then Some e else k j) =
  if c =? chr_EQ then (if j + 1 >? 2 then Some e else k (j + 1))
  else match digit c with Some _ => if j =? 0 then k j else Some e | None => Some e end.
Proof.
  intros Hc Hj. cbn zeta. destruct (Z.eqb_spec c chr_EQ) as [->|Hne].
  - rewrite wrap_u_small by lia. cbn [andb]. destruct (j + 1 >? 2); [done|].
    by rewrite dec_map_lookup by (unfold chr_EQ; lia).
  - cbn [andb]. destruct (Z.gtb_spec c 127).
    + destruct (digit c) as [m|] eqn:Hd; [|done]. apply digit_range in Hd. lia.
    + rewrite dec_map_lookup by lia. cbn [mbind option_bind]. destruct (digit c) as [m|] eqn:Hd.
      * apply digit_range in Hd. rewrite (proj2 (Z.eqb_neq m 127)), (proj2 (Z.ltb_lt m 64)) by lia.
        by destruct (j =? 0).
      * by rewrite (proj2 (Z.eqb_neq c chr_EQ)).
Qed.

Lemma decode_check_spec fuel src i n j :
  byte_list src -> Z.of_nat (length src) < 2 ^ 32 ->
  0 <= i <= Z.of_nat (length src) -> 0 <= n <= i -> 0 <= j <= 2 ->
  (length src - Z.to_nat i < fuel)%nat ->
  decode_check fuel src i n j =
  Some (check_result (Z.of_nat (length src)) n j (drop (Z.to_nat i) src)).
Proof.
  intros Hb Hlen. revert i n j. induction fuel as [|fuel IH]; intros i n j Hi Hn Hj Hf; [lia|].
  cbn [decode_check]. destruct (Z.ltb_spec i (Z.of_nat (length src))) as [Hlt|]; cbn [negb].
  2: { rewrite drop_ge by lia. cbn. do 3 f_equal. f_equal; [|lia]. f_equal; lia. }
  destruct (skip_blanks_spec (S (length src)) src i 0) as (b & r & Hd & Hr & ->); [lia..|].
  cbn [mbind option_bind].
  assert (Hlr : Z.of_nat (length r) = Z.of_nat (length src) - i - Z.of_nat b).
  { apply (f_equal length) in Hd. rewrite length_drop, length_app, length_replicate in Hd. lia. }
  assert (Hdr : drop (Z.to_nat (i + Z.of_nat b)) src = r).
  { replace (Z.to_nat (i + Z.of_nat b)) with (Z.to_nat i + b)%nat by lia.
    rewrite <- drop_drop, Hd. by rewrite drop_app_length' by (by rewrite length_replicate). }
  rewrite Hd. destruct r as [|c r].
  { cbn [length] in Hlr. rewrite (proj2 (Z.eqb_eq _ _)) by lia. unfold check_result.
    rewrite unlines_blanks. cbn. repeat f_equal; lia. }
  cbn [length] in Hlr. rewrite (proj2 (Z.eqb_neq _ _)) by lia.
  assert (Hc : src !! Z.to_nat (i + Z.of_nat b) = Some c)
    by (rewrite <- (Nat.add_0_r (Z.to_nat _)), <- lookup_drop, Hdr; done).
  assert (Hdr1 : drop (Z.to_nat (i + Z.of_nat b + 1)) src = r).
  { replace (Z.to_nat (i + Z.of_nat b + 1)) with (Z.to_nat (i + Z.of_nat b) + 1)%nat by lia.
    by rewrite <- drop_drop, Hdr. }
  assert (Hnx : src !! Z.to_nat (i + Z.of_nat b + 1) = head r).
  { rewrite <- (Nat.add_0_r (Z.to_nat _)), <- lookup_drop, Hdr1. by destruct r. }
  rewrite Hc, Hnx. cbn [mbind option_bind].
  assert (Hsp : c <> chr_SP) by (intros ->; done).
  rewrite (check_result_blanks _ _ _ b c r Hsp).
  replace ((Z.of_nat (length src) - (i + Z.of_nat b) >=? 2) && (c =? chr_CR) &&
    bool_decide (head r = Some chr_LF)) with ((c =? chr_CR) && bool_decide (head r = Some chr_LF)).
  2: { destruct r as [|c' r]; [cbn; by rewrite !andb_false_r|]. cbn [length] in Hlr.
       rewrite Z.geb_leb, (proj2 (Z.leb_le _ _)) by lia. done. }
  assert (Hnext : forall n j, 0 <= n <= i + 1 -> 0 <= j <= 2 ->
    decode_check fuel src (i + Z.of_nat b + 1) n j = Some (check_result (Z.of_nat (length src)) n j r)).
  { intros n' j' ? ?. rewrite IH, Hdr1 by lia. done. }
  destruct (_ && _) eqn:H1; [by apply Hnext; lia|]. destruct (c =? chr_LF) eqn:H2; [by apply Hnext; lia|].
  destruct b as [|b]; cbn [Nat.eqb].
  2: { by rewrite (proj2 (Z.eqb_neq _ 0)) by lia. }
  change (negb (0 + Z.of_nat 0 =? 0)) with false. cbn match.
  bool_to_prop. rewrite check_result_ok; [|done..|].
  2: { intros ->. rewrite Z.eqb_refl in H1. cbn in H1. by apply bool_decide_eq_false in H1. }
  assert (Hcr : 0 <= c < 2 ^ 8) by exact (Forall_lookup_1 _ _ _ _ Hb Hc).
  etransitivity; [apply (decode_char (inl (- EINVAL)) (fun j => decode_check fuel src _ (u32 (n + 1)) j)); done|].
  rewrite wrap_u_small by lia. cbn [Z.of_nat] in Hnext. 
  destruct (c =? chr_EQ); [destruct (Z.gtb_spec (j + 1) 2); [done|]; apply Hnext; lia|].
  destruct (digit c); [|done]. destruct (j =? 0); [|done]. apply Hnext; lia.
Qed.

(** ** The second pass *)

Lemma decode_groups_unlines bl src ds j n x o :
  unlines bl src = Some ds -> chr_CR ∉ ds ->
  decode_groups src j n x o = decode_groups ds j n x o.
Proof.
  revert bl ds j n x o. induction src as [|c r IH]; intros bl ds j n x o; cbn [unlines].
  { by intros [= <-]. }
  intros H Hcr. cbn [decode_groups]. destruct (Z.eqb_spec c chr_SP) as [->|Hsp].
  { rewrite !orb_true_r. by eapply IH. }
  destruct (Z.eqb_spec c chr_CR) as [->|Hncr]; cbn [andb] in H.
  { cbn [orb]. destruct (bool_decide _); [by eapply IH|]. change (chr_CR =? chr_LF) with false in H.
    destruct bl; [done|]. destruct (unlines false r); simplify_eq/=. set_solver. }
  destruct (Z.eqb_spec c chr_LF) as [->|Hlf]; [by eapply IH|]. cbn [orb].
  destruct bl; [done|]. destruct (unlines false r) as [ds'|] eqn:Hr; simplify_eq/=.
  rewrite (proj2 (Z.eqb_neq c chr_CR)), (proj2 (Z.eqb_neq c chr_LF)), (proj2 (Z.eqb_neq c chr_SP)) by done.
  cbn [orb].
  assert (Hcr' : chr_CR ∉ ds') by set_solver.
  destruct (base64_dec_map !! Z.to_nat c) as [m|]; cbn [mbind option_bind]; [|done].
  destruct (n + 1 =? 4); [|by eapply IH].
  do 3 (apply option_bind_ext_fun; intros ?). by eapply IH.
Qed.

(** The accumulator after one more digit. *)
Definition acc (x m : Z) : Z := u32 (Z.lor (Z.shiftl x 6) (Z.land m 0x3F)).

Lemma acc_eq x m : acc x m = (x * 64 + m mod 64) mod 2 ^ 32.
Proof.
  unfold acc. rewrite (land_ones_wrap m 0x3F 6) by lia. unfold wrap_u. f_equal.
  assert (H0 : Z.land (Z.shiftl x 6) (m mod 2 ^ 6) = 0).
  { apply Z.bits_inj'. intros i Hi. rewrite Z.land_spec, testbit_shiftl, Z.bits_0 by lia.
    rewrite Z.testbit_mod_pow2 by lia. destruct (Z.ltb_spec i 6); [|apply andb_false_r].
    by rewrite Z.testbit_neg_r by lia. }
  rewrite <- Z.lxor_lor, <- Z.add_nocarry_lxor by done. by rewrite Z.shiftl_mul_pow2.
Qed.

Lemma acc_mod x m k : 0 <= k <= 26 -> acc x m mod 2 ^ (k + 6) = x mod 2 ^ k * 64 + m mod 64.
Proof.
  intros Hk. rewrite acc_eq, Z.mod_mod_divide.
  2: { exists (2 ^ (32 - (k + 6))). rewrite <- Z.pow_add_r by lia. f_equal. lia. }
  rewrite Z.pow_add_r by lia. pose proof (Z.pow_pos_nonneg 2 k).
  pose proof (Z.mod_pos_bound x (2 ^ k)). pose proof (Z.mod_pos_bound m 64).
  symmetry. apply Z.mod_unique_pos with (x / 2 ^ k); [nia|].
  rewrite (Z.div_mod x (2 ^ k)) at 1 by lia. lia.
Qed.

Lemma acc_quad x a b c d :
  acc (acc (acc (acc x a) b) c) d mod 2 ^ 24 =
  ((a mod 64 * 64 + b mod 64) * 64 + c mod 64) * 64 + d mod 64.
Proof.
  rewrite (acc_mod _ d 18), (acc_mod _ c 12), (acc_mod _ b 6), (acc_mod _ a 0) by lia.
  rewrite Z.mod_1_r. lia.
Qed.

Lemma acc_bytes x a b c d : 0 <= a < 64 -> 0 <= b < 64 ->
  let y := acc (acc (acc (acc x a) b) c) d in
  u8 (Z.shiftr y 16) = a * 4 + b / 16 /\
  u8 (Z.shiftr y 8) = b mod 16 * 16 + c mod 64 / 4 /\
  u8 y = c mod 4 * 64 + d mod 64.
Proof.
  intros Ha Hb y. pose proof (acc_quad x a b c d) as Hq. fold y in Hq.
  rewrite (Z.mod_small a), (Z.mod_small b) in Hq by lia.
  rewrite !Z.shiftr_div_pow2 by lia. unfold wrap_u.
  assert (H24 : forall k, 0 <= k <= 16 -> y / 2 ^ k mod 2 ^ 8 = (y mod 2 ^ 24) / 2 ^ k mod 2 ^ 8).
  { intros k Hk. apply Z.bits_inj'. intros i Hi. rewrite !Z.testbit_mod_pow2 by lia.
    rewrite <- !Z.shiftr_div_pow2, !Z.shiftr_spec by lia. rewrite Z.testbit_mod_pow2 by lia.
    bit_cases; done. }
  pose proof (H24 16) as H16. pose proof (H24 8) as H8. pose proof (H24 0) as H0.
  rewrite Z.pow_0_r, !Z.div_1_r in H0. rewrite H16, H8, H0, Hq by lia. clear - Ha Hb.
  pose proof (Z.mod_pos_bound c 64). pose proof (Z.mod_pos_bound d 64).
  split_and!; Z.div_mod_to_equations; lia.
Qed.

(** The bytes written at the end of a group. *)
Definition emit (j y : Z) (o : list Z * Z) : option (list Z * Z) :=
  o ← (if j >? 0 then put o (u8 (Z.shiftr y 16)) else Some o);
  o ← (if j >? 1 then put o (u8 (Z.shiftr y 8)) else Some o);
  if j >? 2 then put o (u8 y) else Some o.

Lemma emit_filled j y buf out : 0 <= j <= 3 -> (length out + Z.to_nat j <= length buf)%nat ->
  emit j y (filled buf out) =
  Some (filled buf (out ++ take (Z.to_nat j) [u8 (Z.shiftr y 16); u8 (Z.shiftr y 8); u8 y])).
Proof.
  intros Hj Hl. unfold emit.
  assert (j = 0 \/ j = 1 \/ j = 2 \/ j = 3) as [->|[->|[-> | ->]]] by lia;
    cbn [Z.gtb Z.compare Pos.compare Pos.compare_cont mbind option_bind];
    change (Z.to_nat 1) with 1%nat in *; change (Z.to_nat 2) with 2%nat in *;
    change (Z.to_nat 3) with 3%nat in *.
  - change (Z.to_nat 0) with 0%nat. by rewrite take_0, app_nil_r.
  - by rewrite put_filled by lia.
  - rewrite put_filled by lia. cbn [mbind option_bind].
    rewrite put_filled by (rewrite length_app; cbn; lia). by rewrite <- app_assoc.
  - rewrite put_filled by lia. cbn [mbind option_bind].
    rewrite put_filled by (rewrite length_app; cbn; lia). cbn [mbind option_bind].
    rewrite put_filled by (rewrite !length_app; cbn; lia). by rewrite <- !app_assoc.
Qed.

Definition next_group (cs : list Z) (j n y : Z) (o : list Z * Z) : option (list Z * Z) :=
  if n =? 4 then (o ← emit j y o; decode_groups cs j 0 y o) else decode_groups cs j n y o.

Lemma decode_groups_char c m cs j n x o : 0 <= c < 128 ->
  base64_dec_map !! Z.to_nat c = Some m -> m <> 127 ->
  decode_groups (c :: cs) j n x o =
  next_group cs (u32 (j - (if m =? 64 then 1 else 0))) (n + 1) (acc x m) o.
Proof.
  intros Hc Hm Hv. cbn [decode_groups]. rewrite Hm.
  assert ((c =? chr_CR) || (c =? chr_LF) || (c =? chr_SP) = false) as ->.
  { destruct (_ || _ || _) eqn:H; [|done]. exfalso.
    apply orb_prop in H as [[H|H]%orb_prop|H]; apply Z.eqb_eq in H; subst; by vm_compute in Hm; simplify_eq. }
  cbn [mbind option_bind]. fold (acc x m). unfold next_group, emit.
  destruct (n + 1 =? 4); [|done]. destruct (_ >? 0); cbn [mbind option_bind].
  - destruct (put o _); cbn [mbind option_bind]; [|done].
    destruct (_ >? 1); cbn [mbind option_bind]; [|done]. by destruct (put p _).
  - by destruct (_ >? 1); cbn [mbind option_bind]; [destruct (put o _)|].
Qed.

Lemma decode_groups_digit m cs j n x o : 0 <= m < 64 -> 0 <= j <= 3 ->
  decode_groups (letter m :: cs) j n x o = next_group cs j (n + 1) (acc x m) o.
Proof.
  intros Hm Hj. pose proof (digit_letter m Hm) as Hd.
  rewrite (decode_groups_char _ m).
  - rewrite (proj2 (Z.eqb_neq m 64)), Z.sub_0_r, wrap_u_small by lia. done.
  - apply (digit_range _ _ Hd).
  - rewrite dec_map_lookup; [by rewrite Hd|]. apply (digit_range _ _ Hd).
  - lia.
Qed.

Lemma decode_groups_pad cs j n x o : 1 <= j <= 3 ->
  decode_groups (chr_EQ :: cs) j n x o = next_group cs (j - 1) (n + 1) (acc x 64) o.
Proof.
  intros Hj. rewrite (decode_groups_char _ 64); [|unfold chr_EQ; lia|done|done].
  rewrite wrap_u_small by (cbn; lia). done.
Qed.

(** Induction on the groups of four digits. *)
Lemma list_ind_4 {A} (P : list A -> Prop) :
  P [] -> (forall a, P [a]) -> (forall a b, P [a; b]) -> (forall a b c, P [a; b; c]) ->
  (forall a b c d r, P r -> P (a :: b :: c :: d :: r)) -> forall l, P l.
Proof.
  intros H0 H1 H2 H3 H4. fix IH 1. intros [|a [|b [|c [|d r]]]];
    [exact H0|apply H1|apply H2|apply H3|apply H4, IH].
Qed.

Lemma next_group_more cs j n y o : n <> 4 -> next_group cs j n y o = decode_groups cs j n y o.
Proof. intros. unfold next_group. by rewrite (proj2 (Z.eqb_neq n 4)). Qed.

Lemma next_group_end cs j y o : next_group cs j 4 y o = (o ← emit j y o; decode_groups cs j 0 y o).
Proof. done. Qed.

Ltac pad_list :=
  change (replicate (Z.to_nat 0) chr_EQ) with (@nil Z);
  change (replicate (Z.to_nat 1) chr_EQ) with [chr_EQ];
  change (replicate (Z.to_nat 2) chr_EQ) with [chr_EQ; chr_EQ]; cbn [app].

(** Run the loop over the characters of a group. *)
Ltac group_steps :=
  repeat (first [rewrite decode_groups_digit by lia | rewrite decode_groups_pad by lia];
    change (0 + 1) with 1; change (1 + 1) with 2; change (2 + 1) with 3; change (3 + 1) with 4;
    change (3 - 1) with 2; change (2 - 1) with 1;
    first [rewrite next_group_end | rewrite next_group_more by lia]).

Lemma decode_groups_digits ms k x buf out :
  Forall (fun m => 0 <= m < 64) ms -> 0 <= k <= 2 ->
  (length out + length (of_digits ms k) <= length buf)%nat ->
  decode_groups (map letter ms ++ replicate (Z.to_nat k) chr_EQ) 3 0 x (filled buf out) =
  Some (filled buf (out ++ of_digits ms k)).
Proof.
  intros Hms Hk. assert (k = 0 \/ k = 1 \/ k = 2) as Hk' by lia. revert Hms x out.
  induction ms as [|a|a b|a b c|a b c d r IH] using list_ind_4; intros Hms x out Hl;
    repeat (apply Forall_cons in Hms as [? Hms]); cbn [map app] in *.
  - destruct Hk' as [->|[-> | ->]]; cbn [of_digits] in *; rewrite app_nil_r;
      pad_list; by group_steps.
  - destruct Hk' as [->|[-> | ->]]; cbn [of_digits] in *; rewrite app_nil_r;
      pad_list; by group_steps.
  - destruct (acc_bytes x a b 64 64) as (H16 & _ & _); [done..|].
    destruct Hk' as [->|[-> | ->]]; cbn [of_digits Z.leb Z.compare Pos.compare Pos.compare_cont length] in *;
      pad_list; group_steps; rewrite ?app_nil_r; try done.
    rewrite emit_filled by (cbn; lia). cbn [mbind option_bind decode_groups].
    change (Z.to_nat 1) with 1%nat. cbn [take]. by rewrite H16.
  - destruct (acc_bytes x a b c 64) as (H16 & H8 & _); [done..|]. rewrite (Z.mod_small c) in H8 by lia.
    destruct Hk' as [->|[-> | ->]]; cbn [of_digits Z.leb Z.compare Pos.compare Pos.compare_cont length] in *;
      pad_list; group_steps; rewrite ?app_nil_r; try done.
    + rewrite emit_filled by (cbn; lia). cbn [mbind option_bind decode_groups].
      change (Z.to_nat 2) with 2%nat. cbn [take]. by rewrite H16, H8.
    + rewrite emit_filled by (cbn; lia). cbn [mbind option_bind]. group_steps.
      change (Z.to_nat 2) with 2%nat. cbn [take decode_groups]. by rewrite H16, H8.
  - destruct (acc_bytes x a b c d) as (H16 & H8 & Hlo); [done..|].
    rewrite (Z.mod_small c) in H8 by lia. rewrite (Z.mod_small d) in Hlo by lia.
    cbn [of_digits app length] in Hl |- *. group_steps.
    rewrite emit_filled by (cbn; lia). cbn [mbind option_bind]. change (Z.to_nat 3) with 3%nat.
    cbn [take]. rewrite H16, H8, Hlo, IH by (done || rewrite length_app; cbn; lia).
    by rewrite <- app_assoc.
Qed.

(** ** The decoder *)

Lemma room_step a b c d r k : room (a :: b :: c :: d :: r) k = room r k + 3.
Proof. unfold room. cbn [length]. Z.div_mod_to_equations. lia. Qed.

Lemma of_digits_room ms k : 0 <= k <= 2 -> Z.of_nat (length (of_digits ms k)) <= room ms k.
Proof.
  intros Hk. assert (k = 0 \/ k = 1 \/ k = 2) as Hk' by lia.
  induction ms as [|a|a b|a b c|a b c d r IH] using list_ind_4;
    [destruct Hk' as [->|[-> | ->]]; vm_compute; discriminate..|].
  rewrite room_step. cbn [of_digits app length]. lia.
Qed.

Lemma room_nonneg ms k : 0 <= k <= 2 -> 0 <= room ms k.
Proof. intros. pose proof (of_digits_room ms k). lia. Qed.

(** A text of whole groups fills exactly the room asked for. *)
Lemma of_digits_length ms k : 0 <= k <= 2 -> (Z.of_nat (length ms) + k) mod 4 = 0 ->
  Z.of_nat (length (of_digits ms k)) = room ms k.
Proof.
  intros Hk. assert (k = 0 \/ k = 1 \/ k = 2) as Hk' by lia.
  induction ms as [|a|a b|a b c|a b c d r IH] using list_ind_4;
    [destruct Hk' as [->|[-> | ->]]; by vm_compute..|].
  intros Hm. rewrite room_step. cbn [of_digits app length] in Hm |- *.
  rewrite !Nat2Z.inj_succ, IH; [lia|]. Z.div_mod_to_equations. lia.
Qed.

Lemma room_code ms k : 0 <= k <= 2 -> Z.of_nat (length ms) + k < 2 ^ 32 ->
  let n := Z.of_nat (length ms) + k in
  u32 (u32 (6 * Z.shiftr n 3 + Z.shiftr (6 * Z.land n 0x7 + 7) 3) - k) = room ms k.
Proof.
  intros Hk Hn n. rewrite (land_ones_wrap n 0x7 3) by lia. unfold wrap_u at 3.
  rewrite !Z.shiftr_div_pow2 by lia. pose proof (room_nonneg ms k Hk) as Hr. unfold room in *.
  fold n in Hr |- *. assert (0 <= n) by lia.
  replace (6 * (n / 2 ^ 3) + (6 * (n mod 2 ^ 3) + 7) / 2 ^ 3) with ((6 * n + 7) / 8)
    by (Z.div_mod_to_equations; lia).
  assert ((6 * n + 7) / 8 < 2 ^ 32) by (apply Z.div_lt_upper_bound; lia).
  rewrite (wrap_u_small 32 ((6 * n + 7) / 8)) by (split; [apply Z.div_pos|]; lia).
  apply wrap_u_small. lia.
Qed.

Lemma unlines_length bl src ds : unlines bl src = Some ds -> (length ds <= length src)%nat.
Proof.
  revert bl ds. induction src as [|c r IH]; intros bl ds; cbn [unlines length]; [by intros [= <-]|].
  destruct (c =? chr_SP); [intros H%IH; lia|]. destruct (_ && _); [intros H%IH; lia|].
  destruct (c =? chr_LF); [intros H%IH; lia|]. destruct bl; [done|].
  destruct (unlines false r) eqn:Hr; [|done]. intros [= <-]. apply IH in Hr. cbn [length]. lia.
Qed.

(** What the decoder returns, stores in [*olen] and leaves in the destination: it rejects a text
    outside the format, asks for room when there is not enough, and otherwise writes the bytes
    that the digits stand for to the front of the destination. *)
Definition decode_outcome (dst : option (list Z)) (dlen olen : Z) (src : list Z) : Z * Z * option (list Z) :=
  match text src with
  | None => (- EINVAL, olen, dst)
  | Some (ms, k) =>
      if Z.of_nat (length ms) + k =? 0 then (0, 0, dst) else
      match dst with
      | None => (- ENOMEM, room ms k, None)
      | Some buf =>
          if dlen <? room ms k then (- ENOMEM, room ms k, Some buf)
          else (0, Z.of_nat (length (of_digits ms k)), Some (over buf (of_digits ms k)))
      end
  end.

Lemma base64_decode_outcome dst dlen olen src :
  byte_list src -> Z.of_nat (length src) < 2 ^ 32 ->
  (forall buf, dst = Some buf -> dlen <= Z.of_nat (length buf)) ->
  base64_decode dst dlen olen src = Some (decode_outcome dst dlen olen src).
Proof.
  intros Hb Hl Hdst. unfold base64_decode, decode_outcome.
  rewrite decode_check_spec by (done || lia). change (Z.to_nat 0) with 0%nat. rewrite drop_0.
  cbn [mbind option_bind]. unfold check_result, text.
  destruct (unlines false src) as [ds|] eqn:Hu; cbn [mbind option_bind]; [|done].
  rewrite pads_payload. destruct (payload ds) as [[ms k]|] eqn:Hp; cbn [fmap option_fmap option_map mbind option_bind snd]; [|done].
  destruct (payload_digits ds ms k Hp) as [Hms Hk]. pose proof (payload_eq ds ms k Hp) as Hds.
  assert (Hn : 0 + Z.of_nat (length ds) = Z.of_nat (length ms) + k)
    by (rewrite Hds, length_app, length_map, length_replicate; lia).
  pose proof (unlines_length _ _ _ Hu). rewrite Hn, room_code by lia.
  destruct (_ =? 0); [done|]. destruct dst as [buf|]; [|done].
  destruct (Z.ltb_spec dlen (room ms k)); [done|].
  rewrite Nat2Z.id, take_ge by lia.
  rewrite (decode_groups_unlines false src ds _ _ _ _ Hu).
  2: { rewrite Hds. intros [Hc|Hc]%elem_of_app.
       - apply list_elem_of_fmap in Hc as (m & Hm & Hin). eapply Forall_forall in Hms; [|done].
         by destruct (digit_text _ _ (digit_letter m Hms)) as (_ & ? & _).
       - by apply elem_of_replicate in Hc as [? _]. }
  specialize (Hdst buf eq_refl). pose proof (of_digits_room ms k Hk).
  replace (buf, 0) with (filled buf []) by (unfold filled; by rewrite over_nil).
  rewrite Hds, decode_groups_digits by (done || cbn; lia). done.
Qed.

(** ** The encoder *)

Lemma enc_char_eq e m : e mod 64 = m -> enc_char e = Some (letter m).
Proof.
  intros <-. unfold enc_char. rewrite (land_ones_wrap e 0x3F 6) by lia.
  apply enc_map_lookup. apply Z.mod_pos_bound. lia.
Qed.

Lemma enc_chars a b c : 0 <= a < 2 ^ 8 -> 0 <= b < 2 ^ 8 -> 0 <= c < 2 ^ 8 ->
  enc_char (Z.shiftr a 2) = Some (letter (a / 4)) /\
  enc_char (Z.shiftl (Z.land a 3) 4 + Z.shiftr b 4) = Some (letter (a mod 4 * 16 + b / 16)) /\
  enc_char (Z.shiftl (Z.land b 15) 2 + Z.shiftr c 6) = Some (letter (b mod 16 * 4 + c / 64)) /\
  enc_char (Z.shiftl (Z.land b 15) 2) = Some (letter (b mod 16 * 4)) /\
  enc_char c = Some (letter (c mod 64)).
Proof.
  intros Ha Hb Hc. rewrite (land_ones_wrap a 3 2), (land_ones_wrap b 15 4) by lia. unfold wrap_u.
  rewrite !Z.shiftr_div_pow2, !Z.shiftl_mul_pow2 by lia.
  split_and!; apply enc_char_eq; Z.div_mod_to_equations; lia.
Qed.

Lemma encode_groups_spec k xs rest buf out :
  byte_list xs -> length xs = (3 * k)%nat -> (length out + 4 * k <= length buf)%nat ->
  encode_groups k (xs ++ rest) (filled buf out) =
  Some (rest, filled buf (out ++ map letter (to_digits xs))).
Proof.
  revert xs out. induction k as [|k IH]; intros xs out Hb Hx Hl.
  { destruct xs; [|done]. cbn. by rewrite app_nil_r. }
  destruct xs as [|a [|b [|c xs]]]; cbn [length] in Hx; try lia.
  repeat (apply Forall_cons in Hb as [? Hb]).
  destruct (enc_chars a b c) as (E1 & E2 & E3 & _ & E4); [done..|].
  cbn [app encode_groups]. rewrite E1, E2, E3, E4.
  repeat (cbn [mbind option_bind]; rewrite put_filled by (rewrite ?length_app; cbn [length]; lia)).
  cbn [mbind option_bind]. rewrite IH by (try done; rewrite ?length_app; cbn [length]; lia).
  by rewrite <- !app_assoc.
Qed.

(** A source is some whole groups and up to two more bytes. *)
Lemma groups_of (src : list Z) : exists k xs rest, src = xs ++ rest /\ length xs = (3 * k)%nat /\
  (length rest < 3)%nat /\ to_digits src = to_digits xs ++ to_digits rest.
Proof.
  remember (length src) as n eqn:Hn. revert src Hn.
  induction (lt_wf n) as [n _ IH]. intros [|a [|b [|c r]]] ->;
    [by exists O, [], []; cbn; auto with lia|by exists O, [], [a]; cbn; auto with lia
    |by exists O, [], [a; b]; cbn; auto with lia|].
  destruct (IH (length r) ltac:(cbn; lia) r eq_refl) as (k & xs & rest & -> & Hx & Hr & Hd).
  exists (S k), (a :: b :: c :: xs), rest. cbn [app length to_digits]. rewrite Hd.
  split_and!; [done|lia|done|done].
Qed.

Lemma to_digits_length src :
  Z.of_nat (length (to_digits src)) + npads src = 4 * ((Z.of_nat (length src) + 2) / 3).
Proof.
  unfold npads. remember (length src) as n eqn:Hn. revert src Hn.
  induction (lt_wf n) as [n _ IH]. intros [|a [|b [|c r]]] ->; [done..|].
  specialize (IH (length r) ltac:(cbn; lia) r eq_refl). cbn [to_digits app length] in *.
  rewrite !Nat2Z.inj_succ. Z.div_mod_to_equations. lia.
Qed.

Lemma b64_text_length src :
  Z.of_nat (length (b64_text src)) = 4 * ((Z.of_nat (length src) + 2) / 3).
Proof.
  unfold b64_text. rewrite length_app, length_map, length_replicate, <- to_digits_length.
  unfold npads. pose proof (Z.mod_pos_bound (- Z.of_nat (length src)) 3). lia.
Qed.

Lemma encode_tail_spec i slen rest buf out : byte_list rest -> (length rest < 3)%nat ->
  slen = i + Z.of_nat (length rest) -> (rest <> [] -> length out + 4 <= length buf)%nat ->
  encode_tail i slen rest (filled buf out) =
  Some (filled buf (out ++ map letter (to_digits rest) ++ replicate (Z.to_nat (npads rest)) chr_EQ)).
Proof.
  intros Hb Hr -> Hl. unfold encode_tail. destruct rest as [|a [|b [|c rest]]]; cbn [length] in *;
    try lia; repeat (apply Forall_cons in Hb as [? Hb]).
  - rewrite (proj2 (Z.ltb_ge _ _)) by lia. cbn. by rewrite app_nil_r.
  - destruct (enc_chars a 0 0) as (E1 & E2 & _); [done..|].
    rewrite (proj2 (Z.ltb_lt _ _)), (proj2 (Z.ltb_ge _ _)) by lia. cbn [head mbind option_bind].
    rewrite E1, E2. specialize (Hl ltac:(done)).
    repeat (cbn [mbind option_bind]; rewrite put_filled by (rewrite ?length_app; cbn [length]; lia)).
    rewrite <- !app_assoc. cbn [to_digits map app].
    by replace (a mod 4 * 16 + 0 / 16) with (a mod 4 * 16) by (change (0 / 16) with 0; lia).
  - destruct (enc_chars a b 0) as (E1 & E2 & _ & E3 & _); [done..|].
    rewrite !(proj2 (Z.ltb_lt _ _)) by lia. cbn [head mbind option_bind lookup list_lookup].
    rewrite E1, E2, E3. specialize (Hl ltac:(done)).
    repeat (cbn [mbind option_bind]; rewrite put_filled by (rewrite ?length_app; cbn [length]; lia)).
    by rewrite <- !app_assoc.
Qed.

Lemma base64_encode_spec buf dlen src :
  byte_list src -> src <> [] ->
  (Z.of_nat (length src) + 2) / 3 <= (BASE64_SIZE_T_MAX - 1) / 4 ->
  Z.of_nat (length (b64_text src)) + 1 <= dlen <= Z.of_nat (length buf) ->
  base64_encode (Some buf) dlen src =
  Some (0, Z.of_nat (length (b64_text src)), Some (over buf (b64_text src ++ [0]))).
Proof.
  intros Hb Hne Hmax Hd. rewrite b64_text_length in *. unfold base64_encode.
  assert (Hl0 : 0 < Z.of_nat (length src)) by (destruct src; [done|cbn; lia]).
  rewrite (proj2 (Z.eqb_neq _ 0)) by lia.
  assert (Hn : Z.of_nat (length src) / 3 + (if Z.of_nat (length src) mod 3 =? 0 then 0 else 1) =
    (Z.of_nat (length src) + 2) / 3).
  { destruct (Z.eqb_spec (Z.of_nat (length src) mod 3) 0); Z.div_mod_to_equations; lia. }
  rewrite Hn, Z.gtb_ltb, (proj2 (Z.ltb_ge _ _)) by lia.
  set (g := (Z.of_nat (length src) + 2) / 3) in *.
  assert (0 <= g) by (apply Z.div_pos; lia). unfold BASE64_SIZE_T_MAX in Hmax.
  change ((u32 (-1) - 1) / 4) with 1073741823 in Hmax.
  rewrite (wrap_u_small 32 (g * 4)), (wrap_u_small 32 (g * 4 + 1)), (proj2 (Z.ltb_ge _ _)) by lia.
  destruct (groups_of src) as (k & xs & rest & Hs & Hx & Hr & Hdig).
  assert (Hk : Z.of_nat (length src) / 3 = Z.of_nat k).
  { rewrite Hs, length_app, Hx. Z.div_mod_to_equations. lia. }
  rewrite Hk, Nat2Z.id.
  replace (buf, 0) with (filled buf []) by (unfold filled; by rewrite over_nil).
  assert (Hlen : length src = (3 * k + length rest)%nat) by (rewrite Hs, length_app; lia).
  rewrite Hs in Hb. apply Forall_app in Hb as [Hbx Hbr].
  assert (Hg : Z.of_nat k <= g) by (subst g; rewrite <- Hk; Z.div_mod_to_equations; lia).
  assert (Hpad : npads src = npads rest)
    by (unfold npads; rewrite Hlen; Z.div_mod_to_equations; lia).
  rewrite Hs at 1. rewrite encode_groups_spec by (done || cbn; lia). cbn [mbind option_bind app].
  assert (Hlt : length (map letter (to_digits xs)) = (4 * k)%nat).
  { rewrite length_map. pose proof (to_digits_length xs) as Ht. unfold npads in Ht.
    rewrite Hx in Ht. revert Ht. Z.div_mod_to_equations. lia. }
  rewrite encode_tail_spec; [|done|done|lia|].
  2: { intros Hne'. rewrite Hlt. assert (Z.of_nat k + 1 <= g); [|lia]. subst g.
       destruct rest; [done|]. cbn [length] in *. rewrite Hlen. Z.div_mod_to_equations. lia. }
  cbn [mbind option_bind]. rewrite app_assoc, <- map_app, <- Hdig, <- Hpad.
  fold (b64_text src). pose proof (b64_text_length src) as Hbl. fold g in Hbl.
  rewrite put_filled by lia. cbn [mbind option_bind filled fst snd]. by rewrite Hbl.
Qed.

(** ** Round trip *)

Lemma list_ind_3 {A} (P : list A -> Prop) :
  P [] -> (forall a, P [a]) -> (forall a b, P [a; b]) ->
  (forall a b c r, P r -> P (a :: b :: c :: r)) -> forall l, P l.
Proof.
  intros H0 H1 H2 H3. fix IH 1. intros [|a [|b [|c r]]]; [exact H0|apply H1|apply H2|apply H3, IH].
Qed.

Lemma to_digits_range src : byte_list src -> Forall (fun m => 0 <= m < 64) (to_digits src).
Proof.
  induction src as [|a|a b|a b c r IH] using list_ind_3; intros Hb;
    repeat (apply Forall_cons in Hb as [? Hb]); cbn [to_digits app];
    repeat (apply Forall_cons; split; [Z.div_mod_to_equations; lia|]); [done..|by apply IH].
Qed.

Lemma of_to_digits src : byte_list src -> of_digits (to_digits src) (npads src) = src.
Proof.
  induction src as [|a|a b|a b c r IH] using list_ind_3; intros Hb;
    repeat (apply Forall_cons in Hb as [? Hb]); [done|..].
  - change (npads [a]) with 2. cbn. f_equal. Z.div_mod_to_equations. lia.
  - change (npads [a; b]) with 1. cbn. f_equal; [|f_equal]; Z.div_mod_to_equations; lia.
  - replace (npads (a :: b :: c :: r)) with (npads r)
      by (unfold npads; cbn [length]; Z.div_mod_to_equations; lia).
    cbn [to_digits app of_digits]. rewrite IH by done.
    f_equal; [|f_equal; [|f_equal]]; Z.div_mod_to_equations; lia.
Qed.

Lemma unlines_text ds : Forall (fun c => c <> chr_SP /\ c <> chr_CR /\ c <> chr_LF) ds ->
  unlines false ds = Some ds.
Proof.
  induction 1 as [|c r (H1 & H2 & H3) Hr IH]; [done|]. cbn [unlines].
  rewrite (proj2 (Z.eqb_neq c chr_SP)), (proj2 (Z.eqb_neq c chr_CR)),
    (proj2 (Z.eqb_neq c chr_LF)), IH by done. done.
Qed.

Lemma payload_text ms k : Forall (fun m => 0 <= m < 64) ms -> 0 <= k <= 2 ->
  payload (map letter ms ++ replicate (Z.to_nat k) chr_EQ) = Some (ms, k).
Proof.
  intros Hms Hk. induction Hms as [|m ms Hm Hms IH]; cbn [map app payload].
  - assert (k = 0 \/ k = 1 \/ k = 2) as [->|[-> | ->]] by lia; by vm_compute.
  - by rewrite digit_letter, IH.
Qed.

Lemma text_b64_text src : byte_list src -> text (b64_text src) = Some (to_digits src, npads src).
Proof.
  intros Hb. pose proof (to_digits_range src Hb) as Hd. unfold text.
  rewrite unlines_text; cbn [mbind option_bind].
  - apply payload_text; [done|]. unfold npads. pose proof (Z.mod_pos_bound (- Z.of_nat (length src)) 3). lia.
  - apply Forall_app. split; [|by apply Forall_replicate].
    apply Forall_map. eapply Forall_impl; [exact Hd|]. intros m Hm. cbn.
    destruct (digit_text _ _ (digit_letter m Hm)) as (? & ? & ? & _). done.
Qed.

Lemma letter_byte m : 0 <= m < 64 -> 0 <= letter m < 2 ^ 8.
Proof. revert m. apply below_cases. by_decision. Qed.

Lemma b64_text_bytes src : byte_list src -> byte_list (b64_text src).
Proof.
  intros Hb. apply Forall_app. split; [|by apply Forall_replicate].
  apply Forall_map. eapply Forall_impl; [by apply to_digits_range|]. apply letter_byte.
Qed.

(** What the encoder returns, stores in [*olen] and leaves in the destination: it refuses what
    cannot be represented or has no room, and otherwise writes the text and a final zero. *)
Definition encode_outcome (dst : option (list Z)) (dlen : Z) (src : list Z) : Z * Z * option (list Z) :=
  if bool_decide (src = []) then (0, 0, dst) else
  if Z.of_nat (length (b64_text src)) + 1 >? BASE64_SIZE_T_MAX
  then (- ENOMEM, BASE64_SIZE_T_MAX, dst) else
  match dst with
  | None => (- ENOMEM, Z.of_nat (length (b64_text src)) + 1, None)
  | Some buf =>
      if dlen <? Z.of_nat (length (b64_text src)) + 1
      then (- ENOMEM, Z.of_nat (length (b64_text src)) + 1, Some buf)
      else (0, Z.of_nat (length (b64_text src)), Some (over buf (b64_text src ++ [0])))
  end.

Lemma base64_encode_outcome dst dlen src : byte_list src ->
  (forall buf, dst = Some buf -> dlen <= Z.of_nat (length buf)) ->
  base64_encode dst dlen src = Some (encode_outcome dst dlen src).
Proof.
  intros Hb Hdst. unfold encode_outcome. case_bool_decide as Hs; [by rewrite Hs|].
  pose proof (b64_text_length src) as Hl. change BASE64_SIZE_T_MAX with (2 ^ 32 - 1).
  assert (Hn : Z.of_nat (length src) / 3 + (if Z.of_nat (length src) mod 3 =? 0 then 0 else 1) =
    (Z.of_nat (length src) + 2) / 3).
  { destruct (Z.eqb_spec (Z.of_nat (length src) mod 3) 0); Z.div_mod_to_equations; lia. }
  assert (0 < Z.of_nat (length src)) by (destruct src; [done|cbn; lia]).
  assert (0 <= (Z.of_nat (length src) + 2) / 3) by (apply Z.div_pos; lia).
  destruct (Z.gtb_spec (Z.of_nat (length (b64_text src)) + 1) (2 ^ 32 - 1)) as [Hgt|Hle];
    [|destruct dst as [buf|]; [destruct (Z.ltb_spec dlen (Z.of_nat (length (b64_text src)) + 1))|]].
  3: { apply base64_encode_spec; try done.
       - change ((BASE64_SIZE_T_MAX - 1) / 4) with 1073741823. lia.
       - specialize (Hdst buf eq_refl). lia. }
  all: unfold base64_encode; rewrite (proj2 (Z.eqb_neq _ 0)), Hn by lia;
    change ((BASE64_SIZE_T_MAX - 1) / 4) with 1073741823; rewrite Z.gtb_ltb.
  - by rewrite (proj2 (Z.ltb_lt 1073741823 _)) by lia.
  - rewrite (proj2 (Z.ltb_ge 1073741823 _)), (wrap_u_small 32 (_ * 4)), wrap_u_small by lia.
    rewrite (proj2 (Z.ltb_lt dlen _)) by lia. do 2 f_equal. f_equal. lia.
  - rewrite (proj2 (Z.ltb_ge 1073741823 _)), (wrap_u_small 32 (_ * 4)), wrap_u_small by lia. do 2 f_equal. f_equal. lia.
Qed.

(** C38: Encoder and decoder on any input: the encoder writes the text of the input and a final
    zero; the decoder rejects exactly the texts outside the format, with spaces and line ends
    where they are allowed, and otherwise writes the bytes the text stands for.  Where there is
    no room they say how much is needed and write nothing; they never touch anything else. *)
Theorem base64_correct dst dlen olen src :
  byte_list src -> Z.of_nat (length src) < 2 ^ 32 ->
  (forall buf, dst = Some buf -> dlen <= Z.of_nat (length buf)) ->
  base64_encode dst dlen src = Some (encode_outcome dst dlen src) /\
  base64_decode dst dlen olen src = Some (decode_outcome dst dlen olen src).
Proof. intros Hb Hl Hdst. split; [by apply base64_encode_outcome|by apply base64_decode_outcome]. Qed.

(** C39: What has been encoded is decoded to the same bytes. *)
Theorem base64_roundtrip src buf dlen : byte_list src ->
  Z.of_nat (length (b64_text src)) + 1 <= dlen <= Z.of_nat (length buf) -> dlen < 2 ^ 32 ->
  exists olen buf', base64_encode (Some buf) dlen src = Some (0, olen, Some buf') /\
    olen = 4 * ((Z.of_nat (length src) + 2) / 3) /\
    forall dst ddlen o,
      Z.of_nat (length src) <= ddlen <= Z.of_nat (length dst) ->
      base64_decode (Some dst) ddlen o (take (Z.to_nat olen) buf') =
      Some (0, Z.of_nat (length src), Some (over dst src)).
Proof.
  intros Hb Hd Hmax. pose proof (b64_text_length src) as Hl.
  rewrite base64_encode_outcome by (try done; intros ? [= ->]; lia). unfold encode_outcome.
  destruct (decide (src = [])) as [->|Hs].
  { exists 0, buf. split_and!; [done..|]. intros dst ddlen o _. by rewrite over_nil. }
  rewrite bool_decide_eq_false_2 by done.
  rewrite Z.gtb_ltb, (proj2 (Z.ltb_ge BASE64_SIZE_T_MAX _)), (proj2 (Z.ltb_ge dlen _))
    by (change BASE64_SIZE_T_MAX with (2 ^ 32 - 1); lia).
  eexists _, _. split; [done|]. split; [done|]. intros dst ddlen o Hdd.
  unfold over at 1. rewrite Nat2Z.id, <- app_assoc, take_app_length.
  pose proof (to_digits_length src) as Htl.
  assert (Hp : 0 <= npads src <= 2)
    by (unfold npads; pose proof (Z.mod_pos_bound (- Z.of_nat (length src)) 3); lia).
  assert (Hsl : 0 < Z.of_nat (length src)) by (destruct src; [done|cbn; lia]).
  rewrite base64_decode_outcome; [|by apply b64_text_bytes|lia|intros ? [= ->]; lia]. unfold decode_outcome.
  rewrite text_b64_text by done.
  rewrite (proj2 (Z.eqb_neq _ 0)) by (rewrite Htl; Z.div_mod_to_equations; lia).
  rewrite <- of_digits_length, of_to_digits, (proj2 (Z.ltb_ge ddlen _)) by
    (try done; try lia; rewrite Htl, Z.mul_comm; apply Z.mod_mul; lia).
  done.
Qed.

Lemma base64_roundtrip_witness :
  exists olen buf', base64_encode (Some (replicate 12 0)) 12 [77; 97; 110; 33] = Some (0, olen, Some buf') /\
    olen = 8 /\
    forall dst ddlen o, 4 <= ddlen <= Z.of_nat (length dst) ->
      base64_decode (Some dst) ddlen o (take (Z.to_nat olen) buf') =
      Some (0, 4, Some (over dst [77; 97; 110; 33])).
Proof.
  apply (base64_roundtrip [77; 97; 110; 33] (replicate 12 0) 12); [by_decision| |lia].
  split; vm_compute; discriminate.
Defined.

Lemma base64_correct_witness :
  base64_encode (Some [0; 0; 0; 0]) 4 [1] = Some (- ENOMEM, 5, Some [0; 0; 0; 0]) /\
  base64_decode (Some [0; 0; 0]) 3 7 [84; 87; 32; 13; 10; 70; 61; 32; 10] = Some (0, 2, Some [77; 97; 0]) /\
  base64_decode (Some [0; 0; 0]) 3 7 [84; 87; 32; 70; 117] = Some (- EINVAL, 7, Some [0; 0; 0]).
Proof.
  split_and!; (etransitivity;
    [apply (base64_correct _ _ 7); [by_decision|cbn; lia|intros ? [= <-]; cbn; lia]|vm_compute; reflexivity]).
Defined.
