(* ===== verification/TextUtils.v ===== *)
(** * Text utilities

    lib/utils/hex.c, dec.c and utf8.c: numbers and byte strings as text, and strings cut at
    character boundaries.  [None] stands for an access outside an array. *)

From S2P Require Import Prelude BitOps Buffer.

Local Open Scope Z_scope.

(** ** The code *)

(** *** lib/utils/hex.c *)

(** [None]: -EINVAL, and nothing is stored. *)
Definition char2hex (c : Z) : option Z :=
  if (c >=? 48) && (c <=? 57) then Some (u8 (c - 48))
  else if (c >=? 97) && (c <=? 102) then Some (u8 (c - 97 + 10))
  else if (c >=? 65) && (c <=? 70) then Some (u8 (c - 65 + 10))
  else None.

Definition hex2char (x : Z) : option Z :=
  if x <=? 9 then Some (x + 48) else if x <=? 15 then Some (x - 10 + 97) else None.

Fixpoint bin2hex_loop (n : nat) (i : Z) (buf hex : list Z) : option (Z * list Z) :=
  match n with
  | O =>
      let buflen := Z.of_nat (length buf) in
      hex ← store hex (u32 (2 * buflen)) 0;
      Some (u32 (2 * buflen), hex)
  | S n =>
      x ← buf !! Z.to_nat i;
      match hex2char (Z.shiftr x 4) with
      | None => Some (0, hex)
      | Some c =>
          hex ← store hex (u32 (2 * i)) c;
          match hex2char (Z.land x 0xf) with
          | None => Some (0, hex)
          | Some c =>
              hex ← store hex (u32 (u32 (2 * i) + 1)) c;
              bin2hex_loop n (i + 1) buf hex
          end
      end
  end.

Definition bin2hex (buf hex : list Z) (hexlen : Z) : option (Z * list Z) :=
  let buflen := Z.of_nat (length buf) in
  if hexlen <? u32 (u32 (buflen * 2) + 1) then Some (0, hex)
  else bin2hex_loop (length buf) 0 buf hex.

(** The loop from pair [i] on; [h] and [b] are what has been added to the pointers. *)
Fixpoint hex2bin_loop (n : nat) (i h b : Z) (hex buf : list Z) : option (Z * list Z) :=
  match n with
  | O => let hexlen := Z.of_nat (length hex) in Some (hexlen / 2 + hexlen mod 2, buf)
  | S n =>
      c ← hex !! Z.to_nat (h + 2 * i);
      match char2hex c with
      | None => Some (0, buf)
      | Some dec =>
          buf ← store buf (b + i) (u8 (Z.shiftl dec 4));
          c ← hex !! Z.to_nat (h + 2 * i + 1);
          match char2hex c with
          | None => Some (0, buf)
          | Some dec =>
              v ← buf !! Z.to_nat (b + i);
              buf ← store buf (b + i) (u8 (v + dec));
              hex2bin_loop n (i + 1) h b hex buf
          end
      end
  end.

Definition hex2bin (hex buf : list Z) (buflen : Z) : option (Z * list Z) :=
  let hexlen := Z.of_nat (length hex) in
  if buflen <? hexlen / 2 + hexlen mod 2 then Some (0, buf) else
  if negb (hexlen mod 2 =? 0) then
    c ← hex !! 0%nat;
    match char2hex c with
    | None => Some (0, buf)
    | Some dec =>
        buf ← store buf 0 dec;
        hex2bin_loop (Z.to_nat (hexlen / 2)) 0 1 1 hex buf
    end
  else hex2bin_loop (Z.to_nat (hexlen / 2)) 0 0 0 hex buf.

(** *** lib/utils/dec.c *)

Fixpoint u8_to_dec_loop (fuel : nat) (o : list Z * Z) (buflen divisor num_digits value : Z) :
    option (Z * list Z) :=
  match fuel with
  | O => None
  | S fuel =>
      if (buflen >? 0) && (divisor >? 0) then
        let digit := value / divisor in
        let value' := u8 (value - digit * divisor) in
        let divisor' := divisor / 10 in
        if negb (digit =? 0) || (divisor =? 1) || negb (num_digits =? 0) then
          o ← put o (digit + 48);
          u8_to_dec_loop fuel o (buflen - 1) divisor' (num_digits + 1) value'
        else u8_to_dec_loop fuel o buflen divisor' num_digits value'
      else
        o ← (if negb (buflen =? 0) then put o 0 else Some o);
        Some (num_digits, fst o)
  end.

Definition u8_to_dec (buf : list Z) (buflen value : Z) : option (Z * list Z) :=
  u8_to_dec_loop 4 (buf, 0) buflen 100 0 value.

(** *** lib/utils/utf8.c *)

(** strlen, [None] if the array holds no zero *)
Fixpoint strlen (s : list Z) : option nat :=
  match s with [] => None | c :: s => if c =? 0 then Some O else S <$> strlen s end.

(** strncpy: at most [n] characters, padded with zeros *)
Fixpoint strncpy (dst src : list Z) (n : nat) {struct n} : option (list Z) :=
  match n with
  | O => Some dst
  | S n =>
      match dst, src with
      | _ :: dst, c :: src' => (fun r => c :: r) <$> strncpy dst (if c =? 0 then src else src') n
      | _, _ => None
      end
  end.

Definition ASCII_CHAR : Z := 0x7F.
Definition SEQUENCE_FIRST_MASK : Z := 0xC0.
Definition SEQUENCE_LEN_2_BYTE : Z := 0xC0.
Definition SEQUENCE_LEN_3_BYTE : Z := 0xE0.
Definition SEQUENCE_LEN_4_BYTE : Z := 0xF0.

(** The search for the first byte of the last character, from [p] down. *)
Fixpoint find_start (p : nat) (bytes_truncated : Z) (s : list Z) : option (nat * Z) :=
  c ← s !! p;
  if negb (Z.land c SEQUENCE_FIRST_MASK =? SEQUENCE_FIRST_MASK) then
    match p with
    | O => Some (O, bytes_truncated)
    | S p => find_start p (u8 (bytes_truncated + 1)) s
    end
  else Some (p, bytes_truncated).

Definition utf8_trunc (utf8_str : list Z) : option (list Z) :=
  len ← strlen utf8_str;
  match len with
  | O => Some utf8_str
  | S last =>
      c ← utf8_str !! last;
      if Z.land c ASCII_CHAR =? c then Some utf8_str else
      '(p, bytes_truncated) ← find_start last 0 utf8_str;
      let bytes_truncated := u8 (bytes_truncated + 1) in
      seq_start_byte ← utf8_str !! p;
      let whole :=
        if Z.land seq_start_byte SEQUENCE_LEN_4_BYTE =? SEQUENCE_LEN_4_BYTE then bytes_truncated =? 4
        else if Z.land seq_start_byte SEQUENCE_LEN_3_BYTE =? SEQUENCE_LEN_3_BYTE then bytes_truncated =? 3
        else if Z.land seq_start_byte SEQUENCE_LEN_2_BYTE =? SEQUENCE_LEN_2_BYTE then bytes_truncated =? 2
        else false in
      if whole then Some utf8_str else Some (<[p := 0]> utf8_str)
  end.

Definition utf8_lcpy (dst src : list Z) (n : Z) : option (list Z) :=
  if n >? 0 then
    dst ← strncpy dst src (Z.to_nat (n - 1));
    dst ← store dst (n - 1) 0;
    if negb (n =? 1) then utf8_trunc dst else Some dst
  else Some dst.

(** ** Hexadecimal text *)

Definition hex_char (d : Z) : Z := if d <? 10 then 48 + d else 97 + (d - 10).
Definition hex_text (buf : list Z) : list Z := buf ≫= (fun x => [hex_char (x / 16); hex_char (x mod 16)]).

Definition hex_digit (c : Z) : option Z :=
  if (48 <=? c) && (c <=? 57) then Some (c - 48)
  else if (97 <=? c) && (c <=? 102) then Some (c - 97 + 10)
  else if (65 <=? c) && (c <=? 70) then Some (c - 65 + 10) else None.

Fixpoint hex_pairs (ds : list Z) : list Z :=
  match ds with a :: b :: ds => (a * 16 + b) :: hex_pairs ds | _ => [] end.

(** The bytes of a hexadecimal number, which a zero is put in front of if need be. *)
Definition hex_bytes (ds : list Z) : list Z :=
  if Z.of_nat (length ds) mod 2 =? 0 then hex_pairs ds else hex_pairs (0 :: ds).

Lemma hex2char_eq x : 0 <= x < 16 -> hex2char x = Some (hex_char x).
Proof. revert x. apply below_cases. by_decision. Qed.

Lemma char2hex_eq c : char2hex c = hex_digit c.
Proof.
  unfold char2hex, hex_digit. rewrite !Z.geb_leb.
  destruct (_ && _) eqn:H1; [rewrite wrap_u_small; [done|bool_to_prop; lia]|].
  destruct ((97 <=? c) && _) eqn:H2; [rewrite wrap_u_small; [done|bool_to_prop; lia]|].
  destruct ((65 <=? c) && _) eqn:H3; [rewrite wrap_u_small; [done|bool_to_prop; lia]|done].
Qed.

Lemma hex_digit_char d : 0 <= d < 16 -> hex_digit (hex_char d) = Some d.
Proof. revert d. apply below_cases. by_decision. Qed.

Lemma hex_digit_range c d : hex_digit c = Some d -> 0 <= d < 16.
Proof. unfold hex_digit. intros H. repeat case_match; simplify_eq; bool_to_prop; lia. Qed.

Lemma hex_text_app xs ys : hex_text (xs ++ ys) = hex_text xs ++ hex_text ys.
Proof. unfold hex_text. apply bind_app. Qed.

Lemma hex_text_length xs : length (hex_text xs) = (2 * length xs)%nat.
Proof. induction xs as [|x xs IH]; [done|]. unfold hex_text in *. rewrite bind_cons, length_app, IH. cbn. lia. Qed.

Lemma bin2hex_loop_spec n done_ buf hex : byte_list buf ->
  length buf = (length done_ + n)%nat -> done_ = take (length done_) buf ->
  (2 * length buf < length hex)%nat -> 2 * Z.of_nat (length buf) < 2 ^ 32 ->
  bin2hex_loop n (Z.of_nat (length done_)) buf (over hex (hex_text done_)) =
  Some (2 * Z.of_nat (length buf), over hex (hex_text buf ++ [0])).
Proof.
  intros Hb. revert done_. induction n as [|n IH]; intros xs Hn Hx Hl Hm; cbn [bin2hex_loop].
  - rewrite take_ge in Hx by lia. subst xs. rewrite wrap_u_small by lia.
    replace (2 * Z.of_nat (length buf)) with (Z.of_nat (length (hex_text buf)))
      by (rewrite hex_text_length; lia).
    rewrite store_over by (rewrite hex_text_length; lia). done.
  - destruct (lookup_lt_is_Some_2 buf (length xs)) as [x Hlk]; [lia|].
    rewrite Nat2Z.id, Hlk. cbn [mbind option_bind].
    assert (Hxr : 0 <= x < 2 ^ 8) by exact (Forall_lookup_1 _ _ _ _ Hb Hlk).
    rewrite (land_ones_wrap x 0xf 4), Z.shiftr_div_pow2 by lia.
    change (wrap_u 4 x) with (x mod 16). change (2 ^ 4) with 16.
    rewrite !hex2char_eq by (Z.div_mod_to_equations; lia).
    rewrite (wrap_u_small 32 (2 * Z.of_nat (length xs))), wrap_u_small by lia.
    replace (2 * Z.of_nat (length xs)) with (Z.of_nat (length (hex_text xs)))
      by (rewrite hex_text_length; lia).
    rewrite store_over by (rewrite hex_text_length; lia). cbn [mbind option_bind].
    replace (Z.of_nat (length (hex_text xs)) + 1)
      with (Z.of_nat (length (hex_text xs ++ [hex_char (x / 16)]))) by (rewrite length_app; cbn; lia).
    rewrite store_over by (rewrite length_app, hex_text_length; cbn; lia). cbn [mbind option_bind].
    rewrite <- app_assoc. specialize (IH (xs ++ [x])). rewrite length_app in IH. cbn [length] in IH.
    replace (Z.of_nat (length xs) + 1) with (Z.of_nat (length xs + 1)) by lia.
    rewrite hex_text_app in IH. rewrite <- IH; [done|lia| |lia|lia].
    rewrite Nat.add_1_r, (take_S_r _ _ _ Hlk). by f_equal.
Qed.

Lemma bin2hex_spec buf hex hexlen : byte_list buf -> 2 * Z.of_nat (length buf) + 1 < 2 ^ 32 ->
  hexlen <= Z.of_nat (length hex) ->
  bin2hex buf hex hexlen = Some
    (if hexlen <? 2 * Z.of_nat (length buf) + 1 then (0, hex)
     else (2 * Z.of_nat (length buf), over hex (hex_text buf ++ [0]))).
Proof.
  intros Hb Hm Hl. unfold bin2hex. rewrite (wrap_u_small 32 (_ * 2)), wrap_u_small by lia.
  rewrite (Z.mul_comm _ 2). destruct (Z.ltb_spec hexlen (2 * Z.of_nat (length buf) + 1)); [done|].
  pose proof (bin2hex_loop_spec (length buf) [] buf hex) as H1. cbn [length] in H1.
  change (hex_text []) with (@nil Z) in H1. rewrite over_nil in H1. apply H1; done || lia.
Qed.

(** What [hex2bin] leaves in the destination: the bytes, or some of them and a result of 0. *)
Definition hex2bin_post (hex dst out : list Z) (n : nat) (ds : option (list Z)) (r : Z * list Z) : Prop :=
  match ds with
  | Some ds => r = ((Z.of_nat (length hex) + 1) / 2, over dst (out ++ hex_pairs ds))
  | None => exists out', (length out' <= length out + n)%nat /\ r = (0, over dst out')
  end.

Lemma hex2bin_loop_spec n i h b hex dst out :
  0 <= i -> 0 <= h -> length out = Z.to_nat (b + i) -> 0 <= b ->
  Z.of_nat (length hex) = h + 2 * i + 2 * Z.of_nat n -> (length out + n <= length dst)%nat ->
  exists r, hex2bin_loop n i h b hex (over dst out) = Some r /\
    hex2bin_post hex dst out n (mapM hex_digit (drop (Z.to_nat (h + 2 * i)) hex)) r.
Proof.
  revert i out. induction n as [|n IH]; intros i out Hi Hh Ho Hb Hl Hd; cbn [hex2bin_loop].
  - eexists. split; [done|]. rewrite drop_ge by lia. cbn. rewrite app_nil_r. f_equal.
    Z.div_mod_to_equations. lia.
  - destruct (lookup_lt_is_Some_2 hex (Z.to_nat (h + 2 * i))) as [c1 H1]; [lia|].
    destruct (lookup_lt_is_Some_2 hex (Z.to_nat (h + 2 * i + 1))) as [c2 H2]; [lia|].
    rewrite H1, H2, (drop_S _ _ _ H1). cbn [mbind option_bind].
    replace (S (Z.to_nat (h + 2 * i))) with (Z.to_nat (h + 2 * i + 1)) by lia.
    rewrite (drop_S _ _ _ H2). cbn [mapM]. rewrite !char2hex_eq.
    destruct (hex_digit c1) as [d1|] eqn:Hd1; cbn [mbind option_bind].
    2: { eexists. split; [done|]. exists out. split; [lia|done]. }
    apply hex_digit_range in Hd1. rewrite Z.shiftl_mul_pow2, (wrap_u_small 8) by lia.
    replace (b + i) with (Z.of_nat (length out)) by lia.
    rewrite store_over by lia. cbn [mbind option_bind].
    destruct (hex_digit c2) as [d2|] eqn:Hd2; cbn [mbind option_bind].
    2: { eexists. split; [done|]. exists (out ++ [d1 * 2 ^ 4]). rewrite length_app. cbn. split; [lia|done]. }
    apply hex_digit_range in Hd2. rewrite Nat2Z.id, lookup_over_last. cbn [mbind option_bind].
    rewrite wrap_u_small, store_last by lia. cbn [mbind option_bind].
    destruct (IH (i + 1) (out ++ [d1 * 2 ^ 4 + d2])) as (r & Hr & Hpost);
      [lia|lia|rewrite length_app; cbn; lia|lia|lia|rewrite length_app; cbn; lia|].
    exists r. split; [done|]. 
    replace (S (Z.to_nat (h + 2 * i + 1))) with (Z.to_nat (h + 2 * (i + 1))) by lia.
    fold (mapM hex_digit) in *.
    destruct (mapM hex_digit (drop (Z.to_nat (h + 2 * (i + 1))) hex)) as [ds|]; cbn in Hpost |- *.
    + rewrite <- app_assoc in Hpost. done.
    + destruct Hpost as (out' & Hl' & ->). exists out'. rewrite length_app in Hl'. cbn in Hl'. split; [lia|done].
Qed.

(** [hex2bin] writes the bytes that the digits stand for; it returns 0, and writes no further
    than they would have gone, if some character is no digit or there is no room. *)
Lemma hex2bin_spec hex buf buflen : buflen <= Z.of_nat (length buf) ->
  exists ret buf', hex2bin hex buf buflen = Some (ret, buf') /\
    match mapM hex_digit hex with
    | Some ds =>
        if buflen <? (Z.of_nat (length hex) + 1) / 2 then ret = 0 /\ buf' = buf
        else ret = (Z.of_nat (length hex) + 1) / 2 /\ buf' = over buf (hex_bytes ds)
    | None => ret = 0 /\ length buf' = length buf /\
        forall i, (Z.of_nat (length hex) + 1) / 2 <= Z.of_nat i -> buf' !! i = buf !! i
    end.
Proof.
  intros Hl. unfold hex2bin.
  replace (Z.of_nat (length hex) / 2 + Z.of_nat (length hex) mod 2)
    with ((Z.of_nat (length hex) + 1) / 2) by (Z.div_mod_to_equations; lia).
  destruct (Z.ltb_spec buflen ((Z.of_nat (length hex) + 1) / 2)) as [Hlt|Hge].
  { eexists _, _. split; [done|]. destruct (mapM _ _); done. }
  assert (Hpost : forall out n r, (length out + n = Z.to_nat ((Z.of_nat (length hex) + 1) / 2))%nat ->
    forall ds, hex2bin_post hex buf out n ds r ->
    match ds with
    | Some ds => r = ((Z.of_nat (length hex) + 1) / 2, over buf (out ++ hex_pairs ds))
    | None => r.1 = 0 /\ length r.2 = length buf /\
        forall i, (Z.of_nat (length hex) + 1) / 2 <= Z.of_nat i -> r.2 !! i = buf !! i
    end).
  { intros out n r Hn [ds|]; [done|]. intros (out' & Hl' & ->). cbn [fst snd].
    split_and!; [done|apply over_length; lia|]. intros i Hi. apply over_lookup_ge. lia. }
  destruct (Z.eqb_spec (Z.of_nat (length hex) mod 2) 0) as [Hev|Hodd]; cbn [negb].
  - destruct (hex2bin_loop_spec (Z.to_nat (Z.of_nat (length hex) / 2)) 0 0 0 hex buf [])
      as ([ret buf'] & Hr & Hp); [lia|lia|done|lia|Z.div_mod_to_equations; lia|cbn; Z.div_mod_to_equations; lia|].
    rewrite over_nil in Hr. exists ret, buf'. split; [done|].
    apply Hpost in Hp; [|cbn; Z.div_mod_to_equations; lia]. change (Z.to_nat (0 + 2 * 0)) with 0%nat in Hp. rewrite drop_0 in Hp.
    destruct (mapM hex_digit hex) as [ds|] eqn:Hm; [|done]. injection Hp as -> ->. split; [done|].
    unfold hex_bytes. apply length_mapM in Hm. rewrite <- Hm, (proj2 (Z.eqb_eq _ 0)); done.
  - destruct hex as [|c hex]; [done|]. cbn [lookup list_lookup mbind option_bind].
    rewrite char2hex_eq. cbn [mapM]. destruct (hex_digit c) as [d|] eqn:Hd; cbn [mbind option_bind].
    2: { eexists _, _. split; [done|]. done. }
    assert (1 <= (Z.of_nat (length (c :: hex)) + 1) / 2) by (cbn [length]; Z.div_mod_to_equations; lia).
    assert (Hst : store buf 0 d = Some (over buf [d])).
    { pose proof (store_over buf [] d) as Hs. rewrite over_nil in Hs. apply Hs. cbn [length]. lia. }
    rewrite Hst. cbn [mbind option_bind].
    destruct (hex2bin_loop_spec (Z.to_nat (Z.of_nat (length (c :: hex)) / 2)) 0 1 1 (c :: hex) buf [d])
      as ([ret buf'] & Hr & Hp); [lia|lia|done|lia|Z.div_mod_to_equations; lia|cbn [length] in *; Z.div_mod_to_equations; lia|].
    exists ret, buf'. split; [done|].
    apply Hpost in Hp; [|cbn [length] in *; Z.div_mod_to_equations; lia].
    change (drop (Z.to_nat (1 + 2 * 0)) (c :: hex)) with hex in Hp.
    destruct (mapM hex_digit hex) as [ds|] eqn:Hm; [|done]. injection Hp as -> ->. split; [done|].
    unfold hex_bytes. apply length_mapM in Hm. cbn [length] in *. rewrite <- Hm, (proj2 (Z.eqb_neq _ 0)) by done.
    done.
Qed.

Lemma mapM_hex_text buf : byte_list buf ->
  mapM hex_digit (hex_text buf) = Some (buf ≫= (fun x => [x / 16; x mod 16])).
Proof.
  induction 1 as [|x buf Hx Hb IH]; [done|]. unfold hex_text in *. rewrite !bind_cons.
  cbn [app mapM]. rewrite hex_digit_char by (Z.div_mod_to_equations; lia). cbn [mbind option_bind].
  rewrite hex_digit_char by (Z.div_mod_to_equations; lia). cbn [mbind option_bind].
  by rewrite IH.
Qed.

Lemma hex_pairs_split buf : byte_list buf -> hex_pairs (buf ≫= (fun x => [x / 16; x mod 16])) = buf.
Proof.
  induction 1 as [|x buf Hx Hb IH]; [done|]. rewrite bind_cons. cbn [app hex_pairs]. rewrite IH.
  f_equal. Z.div_mod_to_equations. lia.
Qed.

(** [bin2hex] writes two digits for each byte and a final zero if there is room, and [hex2bin]
    reads the same bytes back. *)
Theorem hex_roundtrip buf hex hexlen :
  byte_list buf -> 2 * Z.of_nat (length buf) + 1 < 2 ^ 32 -> hexlen <= Z.of_nat (length hex) ->
  exists ret hex', bin2hex buf hex hexlen = Some (ret, hex') /\
    if hexlen <? 2 * Z.of_nat (length buf) + 1 then ret = 0 /\ hex' = hex
    else ret = 2 * Z.of_nat (length buf) /\ hex' !! Z.to_nat ret = Some 0 /\
      forall dst dlen, Z.of_nat (length buf) <= dlen <= Z.of_nat (length dst) ->
      hex2bin (take (Z.to_nat ret) hex') dst dlen =
      Some (Z.of_nat (length buf), over dst buf).
Proof.
  intros Hb Hm Hl. rewrite bin2hex_spec by done.
  destruct (Z.ltb_spec hexlen (2 * Z.of_nat (length buf) + 1)) as [|Hge]; [by eexists _, _|].
  eexists _, _. split; [done|]. split; [done|].
  replace (Z.to_nat (2 * Z.of_nat (length buf))) with (length (hex_text buf))
    by (rewrite hex_text_length; lia).
  split; [unfold over; rewrite <- app_assoc, lookup_app_r, Nat.sub_diag by lia; done|].
  intros dst dlen Hd. unfold over at 1. rewrite <- app_assoc, take_app_length.
  destruct (hex2bin_spec (hex_text buf) dst dlen) as (ret & buf' & Hr & Hp); [lia|].
  rewrite Hr. rewrite mapM_hex_text in Hp by done. rewrite hex_text_length in Hp.
  replace ((Z.of_nat (2 * length buf) + 1) / 2) with (Z.of_nat (length buf)) in Hp
    by (Z.div_mod_to_equations; lia).
  rewrite (proj2 (Z.ltb_ge dlen _)) in Hp by lia. destruct Hp as [-> ->].
  unfold hex_bytes. pose proof (length_mapM _ _ _ (mapM_hex_text buf Hb)) as Hlen.
  rewrite <- Hlen, hex_text_length, (proj2 (Z.eqb_eq _ 0)) by (Z.div_mod_to_equations; lia).
  by rewrite hex_pairs_split.
Qed.

Lemma hex_roundtrip_witness :
  exists ret hex', bin2hex [0xA5; 0x07] (replicate 5 1) 5 = Some (ret, hex') /\
    ret = 4 /\ hex' !! Z.to_nat ret = Some 0 /\
    forall dst dlen, 2 <= dlen <= Z.of_nat (length dst) ->
      hex2bin (take (Z.to_nat ret) hex') dst dlen = Some (2, over dst [0xA5; 0x07]).
Proof.
  apply (hex_roundtrip [0xA5; 0x07] (replicate 5 1) 5); [by_decision|cbn; lia|cbn; lia].
Defined.

(** ** Decimal numbers *)

(** The decimal digits of a number below 1000. *)
Definition decimal (v : Z) : list Z :=
  if v <? 10 then [v] else if v <? 100 then [v / 10; v mod 10]
  else [v / 100; v / 10 mod 10; v mod 10].

Section DecimalLoop.
Context (buf : list Z).

Lemma dec_skip f o b d v : 0 < b -> 1 < d -> 0 <= v < d -> v < 2 ^ 8 ->
  u8_to_dec_loop (S f) o b d 0 v = u8_to_dec_loop f o b (d / 10) 0 v.
Proof.
  intros Hb Hd Hv Hv'. cbn [u8_to_dec_loop]. rewrite !Z.gtb_ltb, !(proj2 (Z.ltb_lt _ _)) by lia.
  rewrite (Z.div_small v d), (proj2 (Z.eqb_neq d 1)) by lia. cbn [andb orb negb Z.eqb].
  by rewrite wrap_u_small by lia; rewrite Z.mul_0_l, Z.sub_0_r.
Qed.

Lemma dec_emit f out b d n v : 0 < b -> 0 < d -> 0 <= v < 2 ^ 8 ->
  (v / d <> 0 \/ d = 1 \/ n <> 0) -> (length out < length buf)%nat ->
  u8_to_dec_loop (S f) (filled buf out) b d n v =
  u8_to_dec_loop f (filled buf (out ++ [48 + v / d])) (b - 1) (d / 10) (n + 1) (v mod d).
Proof.
  intros Hb Hd Hv He Hl. cbn [u8_to_dec_loop]. rewrite !Z.gtb_ltb, !(proj2 (Z.ltb_lt _ _)) by lia.
  replace (negb (v / d =? 0) || (d =? 1) || negb (n =? 0)) with true.
  2: { destruct (Z.eqb_spec (v / d) 0), (Z.eqb_spec d 1), (Z.eqb_spec n 0); cbn; done || lia. }
  cbn [andb]. rewrite put_filled by done. cbn [mbind option_bind].
  rewrite Z.mul_comm, <- Z.mod_eq, wrap_u_small, (Z.add_comm 48) by
    (try pose proof (Z.mod_pos_bound v d); pose proof (Z.mod_le v d); lia). done.
Qed.

Lemma dec_stop f o d n v : u8_to_dec_loop (S f) o 0 d n v = Some (n, fst o).
Proof. done. Qed.

Lemma dec_end f out b n v : 0 < b -> (length out < length buf)%nat ->
  u8_to_dec_loop (S f) (filled buf out) b 0 n v = Some (n, over buf (out ++ [0])).
Proof.
  intros Hb Hl. cbn [u8_to_dec_loop]. rewrite andb_false_r, (proj2 (Z.eqb_neq b 0)) by lia. cbn [negb].
  rewrite put_filled by done. done.
Qed.
End DecimalLoop.

(** [u8_to_dec] writes the decimal digits as far as they fit, and a final zero if it does. *)
Theorem u8_to_dec_correct buf buflen value :
  0 <= value < 2 ^ 8 -> 0 <= buflen < 2 ^ 8 -> buflen <= Z.of_nat (length buf) ->
  let text := map (Z.add 48) (take (Z.to_nat buflen) (decimal value)) in
  u8_to_dec buf buflen value =
  Some (Z.of_nat (length text),
        over buf (if Z.of_nat (length text) <? buflen then text ++ [0] else text)).
Proof.
  intros Hv Hl Hb text. unfold u8_to_dec.
  replace (buf, 0) with (filled buf []) by (unfold filled; by rewrite over_nil).
  unfold text, decimal. destruct (Z.ltb_spec value 10); [|destruct (Z.ltb_spec value 100)].
  - destruct (decide (buflen = 0)) as [->|]; [done|]. rewrite dec_skip by lia.
    change (100 / 10) with 10. rewrite dec_skip by lia. change (10 / 10) with 1. rewrite dec_emit by (done || cbn [length app]; lia).
    rewrite Z.div_1_r, take_ge by (cbn [length app]; lia). cbn [map app length Z.of_nat].
    destruct (decide (buflen = 1)) as [->|]; [done|].
    rewrite dec_end by (cbn [length app]; lia). rewrite (proj2 (Z.ltb_lt _ _)) by lia. done.
  - destruct (decide (buflen = 0)) as [->|]; [done|]. rewrite dec_skip by lia.
    change (100 / 10) with 10. rewrite dec_emit by (cbn [length app]; Z.div_mod_to_equations; lia).
    destruct (decide (buflen = 1)) as [->|]; [done|]. change (10 / 10) with 1. change (0 + 1) with 1.
    rewrite dec_emit by (cbn [length app]; Z.div_mod_to_equations; lia).
    rewrite Z.div_1_r, take_ge by (cbn [length app]; lia). cbn [map app length Z.of_nat].
    destruct (decide (buflen = 2)) as [->|]; [done|]. change (1 / 10) with 0.
    rewrite dec_end by (cbn [length app]; lia). rewrite (proj2 (Z.ltb_lt _ _)) by lia. done.
  - destruct (decide (buflen = 0)) as [->|]; [done|].
    rewrite dec_emit by (cbn [length app]; Z.div_mod_to_equations; lia).
    destruct (decide (buflen = 1)) as [->|]; [done|]. change (100 / 10) with 10. change (0 + 1) with 1.
    replace (value / 10 mod 10) with (value mod 100 / 10) by (Z.div_mod_to_equations; lia).
    rewrite dec_emit by (cbn [length app]; Z.div_mod_to_equations; lia).
    destruct (decide (buflen = 2)) as [->|]; [done|]. change (10 / 10) with 1. change (1 + 1) with 2.
    replace (value mod 10) with (value mod 100 mod 10) by (Z.div_mod_to_equations; lia).
    rewrite dec_emit by (cbn [length app]; Z.div_mod_to_equations; lia).
    rewrite Z.div_1_r, take_ge by (cbn [length app]; lia). cbn [map app length Z.of_nat].
    destruct (decide (buflen = 3)) as [->|]; [done|]. change (1 / 10) with 0.
    rewrite dec_end by (cbn [length app]; lia). rewrite (proj2 (Z.ltb_lt _ _)) by (cbn [length app]; lia). done.
Qed.

Lemma u8_to_dec_correct_witness :
  u8_to_dec (replicate 4 7) 4 205 = Some (3, [50; 48; 53; 0]) /\
  u8_to_dec (replicate 4 7) 2 205 = Some (2, [50; 48; 7; 7]).
Proof.
  split; (etransitivity; [apply u8_to_dec_correct; cbn; lia|vm_compute; reflexivity]).
Defined.

(** ** UTF-8 strings *)

Definition is_cont (x : Z) : Prop := 0x80 <= x < 0xC0.

#[export] Instance is_cont_dec x : Decision (is_cont x).
Proof. unfold is_cont. apply _. Defined.

(** The bytes of one character: a first byte that tells their number, and the others. *)
Definition utf8_char (c : list Z) : Prop :=
  match c with
  | [a] => 0 < a < 0x80
  | [a; b] => 0xC0 <= a < 0xE0 /\ is_cont b
  | [a; b; c] => 0xE0 <= a < 0xF0 /\ is_cont b /\ is_cont c
  | [a; b; c; d] => 0xF0 <= a < 0xF8 /\ is_cont b /\ is_cont c /\ is_cont d
  | _ => False
  end.

#[export] Instance utf8_char_dec c : Decision (utf8_char c).
Proof. destruct c as [|? [|? [|? [|? [|]]]]]; cbn; apply _. Defined.

(** The characters from the front that fit into [m] bytes together. *)
Fixpoint fit (m : nat) (chars : list (list Z)) : list (list Z) :=
  match chars with
  | [] => []
  | c :: chars => if (length c <=? m)%nat then c :: fit (m - length c) chars else []
  end.

Lemma is_cont_bits x : is_cont x ->
  Z.land x ASCII_CHAR <> x /\ Z.land x SEQUENCE_FIRST_MASK <> SEQUENCE_FIRST_MASK.
Proof.
  intros Hx. assert (H : 0 <= x < 256) by (unfold is_cont in Hx; lia). revert x H Hx.
  apply (below_cases (fun x => is_cont x -> _ /\ _)). by_decision.
Qed.

Lemma lead_bits a : 0xC0 <= a < 0xF8 ->
  Z.land a ASCII_CHAR <> a /\ Z.land a SEQUENCE_FIRST_MASK = SEQUENCE_FIRST_MASK /\
  (Z.land a SEQUENCE_LEN_4_BYTE = SEQUENCE_LEN_4_BYTE <-> 0xF0 <= a) /\
  (Z.land a SEQUENCE_LEN_3_BYTE = SEQUENCE_LEN_3_BYTE <-> 0xE0 <= a).
Proof.
  intros Hx. assert (H : 0 <= a < 256) by lia. revert a H Hx.
  apply (below_cases (fun a => 0xC0 <= a < 0xF8 -> _ /\ _ /\ (_ <-> _) /\ (_ <-> _))). by_decision.
Qed.

Lemma ascii_bits a : 0 < a < 0x80 -> Z.land a ASCII_CHAR = a.
Proof.
  intros Hx. assert (H : 0 <= a < 0x80) by lia. revert a H Hx.
  apply (below_cases (fun a => 0 < a < 0x80 -> _)). by_decision.
Qed.

(** The first byte and the number of bytes of a character of more than one byte. *)
Lemma utf8_char_cons c : utf8_char c -> (1 < length c)%nat ->
  exists a cs, c = a :: cs /\ 0xC0 <= a < 0xF8 /\ Forall is_cont cs /\ (length c <= 4)%nat /\
    forall n, (if Z.land a SEQUENCE_LEN_4_BYTE =? SEQUENCE_LEN_4_BYTE then n =? 4
       else if Z.land a SEQUENCE_LEN_3_BYTE =? SEQUENCE_LEN_3_BYTE then n =? 3
       else if Z.land a SEQUENCE_LEN_2_BYTE =? SEQUENCE_LEN_2_BYTE then n =? 2
       else false) = (n =? Z.of_nat (length c)).
Proof.
  intros Hc Hl. destruct c as [|a cs]; [done|]. exists a, cs.
  assert (Ha : 0xC0 <= a < 0xF8 /\ Forall is_cont cs /\ (length (a :: cs) <= 4)%nat /\
    (0xF0 <= a <-> length cs = 3%nat) /\ (0xE0 <= a <-> (2 <= length cs)%nat)).
  { destruct cs as [|b [|c [|d [|]]]]; cbn [length] in *; try lia; cbn in Hc; try done;
      (split; [lia|]; split; [naive_solver|]; split; [lia|]; split; split; lia). }
  destruct Ha as (Ha & Hcs & Hlen & H4 & H3). split_and!; [done|lia|lia|done|done|].
  destruct (lead_bits a Ha) as (_ & H2 & Hb4 & Hb3). intros n. unfold SEQUENCE_LEN_2_BYTE.
  unfold SEQUENCE_FIRST_MASK in H2. rewrite H2, Z.eqb_refl. cbn [length] in *.
  destruct (Z.eqb_spec (Z.land a SEQUENCE_LEN_4_BYTE) SEQUENCE_LEN_4_BYTE) as [E4|N4].
  - apply Hb4, H4 in E4. by rewrite E4.
  - destruct (Z.eqb_spec (Z.land a SEQUENCE_LEN_3_BYTE) SEQUENCE_LEN_3_BYTE) as [E3|N3].
    + apply Hb3, H3 in E3. assert (length cs <> 3)%nat by (intros E; apply N4, Hb4, H4, E).
      by replace (length cs) with 2%nat by lia.
    + assert (~ (2 <= length cs)%nat) by (intros E; apply N3, Hb3, H3, E).
      by replace (length cs) with 1%nat by lia.
Qed.

Lemma find_start_spec pre a cs rest bt :
  Z.land a SEQUENCE_FIRST_MASK = SEQUENCE_FIRST_MASK -> Forall is_cont cs ->
  0 <= bt -> bt + Z.of_nat (length cs) < 2 ^ 8 ->
  find_start (length pre + length cs) bt (pre ++ a :: cs ++ rest) =
  Some (length pre, bt + Z.of_nat (length cs)).
Proof.
  intros Ha Hcs. revert bt rest. induction cs as [|x cs IH] using rev_ind; intros bt rest Hb0 Hb.
  - cbn [length app]. rewrite Nat.add_0_r, Z.add_0_r. destruct pre as [|y pre]; cbn [find_start length app].
    + cbn [lookup list_lookup mbind option_bind]. by rewrite Ha, Z.eqb_refl.
    + change ((y :: pre ++ a :: rest) !! S (length pre)) with ((pre ++ a :: rest) !! length pre).
      rewrite list_lookup_middle by done. cbn [mbind option_bind]. by rewrite Ha, Z.eqb_refl.
  - apply Forall_app in Hcs as [Hcs Hx]. apply Forall_inv in Hx.
    rewrite length_app in *. cbn [length] in *. rewrite <- app_assoc. cbn [app].
    replace (length pre + (length cs + 1))%nat with (S (length pre + length cs)) by lia.
    cbn [find_start].
    replace (pre ++ a :: cs ++ x :: rest) with ((pre ++ a :: cs) ++ x :: rest) by (by rewrite <- app_assoc).
    rewrite list_lookup_middle by (rewrite length_app; cbn; lia). cbn [mbind option_bind].
    rewrite (proj2 (Z.eqb_neq _ _)) by (by apply is_cont_bits). cbn [negb].
    rewrite <- app_assoc. cbn [app]. rewrite IH by (rewrite ?wrap_u_small; done || lia).
    rewrite wrap_u_small by lia. do 2 f_equal. lia.
Qed.

Lemma strlen_spec t rest : Forall (fun x => x <> 0) t -> strlen (t ++ 0 :: rest) = Some (length t).
Proof.
  induction 1 as [|x t Hx Ht IH]; [done|]. cbn [app strlen length].
  by rewrite (proj2 (Z.eqb_neq x 0)), IH.
Qed.

Lemma utf8_char_nonzero c : utf8_char c -> Forall (fun x => x <> 0) c.
Proof.
  destruct c as [|? [|? [|? [|? [|]]]]]; cbn; try done; unfold is_cont; intros;
    repeat (apply Forall_cons; split; [lia|]); done.
Qed.

(** The string ends with the first [k] bytes of the character [c]: all of it stays, or none
    of it. *)
Lemma utf8_trunc_spec pre c k rest : Forall (fun x => x <> 0) pre -> utf8_char c ->
  (0 < k <= length c)%nat ->
  utf8_trunc (pre ++ take k c ++ 0 :: rest) =
  Some (if (k =? length c)%nat then pre ++ take k c ++ 0 :: rest
        else pre ++ 0 :: drop 1 (take k c) ++ 0 :: rest).
Proof.
  intros Hpre Hc Hk. unfold utf8_trunc. rewrite app_assoc, strlen_spec.
  2: { apply Forall_app. split; [done|]. by apply Forall_take, utf8_char_nonzero. }
  cbn [mbind option_bind]. rewrite length_app, length_take, Nat.min_l by lia.
  destruct (decide (length c = 1%nat)) as [H1|H1].
  - destruct c as [|a [|]]; try done. replace k with 1%nat by lia. cbn [take length Nat.eqb].
    rewrite Nat.add_1_r, <- app_assoc. cbn [app]. rewrite list_lookup_middle by done. cbn [mbind option_bind].
    by rewrite (ascii_bits a), Z.eqb_refl.
  - destruct (utf8_char_cons c Hc) as (a & cs & -> & Ha & Hcs & Hlen & Hwhole); [lia|].
    destruct k as [|k]; [lia|]. cbn [take length Nat.eqb drop] in *. rewrite drop_0.
    replace (length pre + S k)%nat with (S (length pre + k)) by lia.
    assert (Hlk : exists x, ((pre ++ a :: take k cs) ++ 0 :: rest) !! (length pre + k)%nat = Some x /\ Z.land x ASCII_CHAR <> x).
    { rewrite lookup_app_l by (rewrite length_app; cbn [length]; rewrite length_take; lia).
      rewrite lookup_app_r, Nat.add_comm, Nat.add_sub by lia. destruct k as [|k].
      - exists a. split; [done|]. by apply lead_bits.
      - change ((a :: take (S k) cs) !! S k) with (take (S k) cs !! k).
        destruct (lookup_lt_is_Some_2 cs k) as [x Hx]; [lia|]. exists x.
        rewrite lookup_take_lt by lia. split; [done|]. apply is_cont_bits. by eapply Forall_lookup_1. }
    destruct Hlk as (x & -> & Hx). cbn [mbind option_bind]. rewrite (proj2 (Z.eqb_neq _ _)) by done.
    destruct (lead_bits a Ha) as (_ & Hfirst & _).
    rewrite <- app_assoc. cbn [app].
    pose proof (find_start_spec pre a (take k cs) (0 :: rest) 0) as Hfs.
    rewrite length_take, Nat.min_l in Hfs by lia. rewrite Hfs by (try apply Forall_take; done || lia).
    cbn [mbind option_bind]. rewrite list_lookup_middle by done. cbn [mbind option_bind].
    rewrite Hwhole, wrap_u_small by lia. cbn [length].
    destruct (Nat.eqb_spec k (length cs)) as [->|Hne].
    + by rewrite (proj2 (Z.eqb_eq _ _)) by lia.
    + rewrite (proj2 (Z.eqb_neq _ _)) by lia. rewrite insert_app_r_alt, Nat.sub_diag by lia. done.
Qed.

Lemma strncpy_spec dst s junk m : Forall (fun x => x <> 0) s -> (m <= length dst)%nat ->
  strncpy dst (s ++ 0 :: junk) m = Some (take m s ++ replicate (m - length s) 0 ++ drop m dst).
Proof.
  revert dst s. induction m as [|m IH]; intros dst s Hs Hm; [done|].
  destruct dst as [|d dst]; cbn [length] in Hm; [lia|]. cbn [strncpy].
  destruct Hs as [|x s Hx Hs]; cbn [app].
  - rewrite Z.eqb_refl. pose proof (IH dst []) as H0. cbn [app] in H0. rewrite H0 by (done || lia).
    rewrite !take_nil. cbn. by rewrite Nat.sub_0_r.
  - rewrite (proj2 (Z.eqb_neq x 0)), IH by (done || lia). done.
Qed.

Lemma fit_spec m chars : Forall utf8_char chars ->
  Forall utf8_char (fit m chars) /\
  exists c k, utf8_char c /\ (k < length c)%nat /\
    take m (concat chars) = concat (fit m chars) ++ take k c.
Proof.
  intros Hc. revert m. induction Hc as [|c chars Hc Hcs IH]; intros m; cbn [fit concat].
  - split; [done|]. exists [1], O. rewrite take_nil. split_and!; [by cbn|cbn; lia|done].
  - destruct (Nat.leb_spec (length c) m) as [Hle|Hlt].
    + destruct (IH (m - length c)%nat) as (Hf & c' & k & Hc' & Hk & Ht).
      split; [by constructor|]. exists c', k. split_and!; [done..|]. cbn [concat].
      rewrite take_app, (take_ge c), Ht, app_assoc by lia. done.
    + split; [done|]. exists c, m. split_and!; [done..|]. rewrite take_app.
      replace (m - length c)%nat with O by lia. by rewrite take_0, app_nil_r.
Qed.

(** The destination after the copy and the final zero. *)
Lemma lcpy_store s dst n : 0 < n <= Z.of_nat (length dst) -> let m := Z.to_nat (n - 1) in
  exists rest, store (take m s ++ replicate (m - length s) 0 ++ drop m dst) (n - 1) 0 =
    Some (take m s ++ 0 :: rest) /\ length (take m s ++ 0 :: rest) = length dst /\
    forall i, n <= Z.of_nat i -> (take m s ++ 0 :: rest) !! i = dst !! i.
Proof.
  intros Hn m. destruct (drop m dst) as [|d ds] eqn:Hd.
  { apply (f_equal length) in Hd. rewrite length_drop in Hd. cbn in Hd. lia. }
  assert (Hds : ds = drop (S m) dst) by (rewrite <- Nat.add_1_r, <- drop_drop, Hd; done).
  set (t := take m s ++ replicate (m - length s) 0).
  assert (Ht : length t = m) by (unfold t; rewrite length_app, length_take, length_replicate; lia).
  assert (Hlen : (m + S (length ds) = length dst)%nat)
    by (rewrite Hds, length_drop; lia).
  assert (Hz : exists rest, t ++ 0 :: ds = take m s ++ 0 :: rest).
  { unfold t. rewrite <- app_assoc. destruct (m - length s)%nat; [by eexists|]. by eexists. }
  destruct Hz as [rest Hz]. exists rest. rewrite <- Hz, app_assoc. fold t. split_and!.
  - unfold store. rewrite length_app, Ht. cbn [length].
    rewrite (proj2 (Z.leb_le 0 _)), (proj2 (Z.ltb_lt _ _)) by lia. cbn [andb]. fold m. f_equal.
    rewrite insert_app_r_alt, Ht, Nat.sub_diag by lia. done.
  - rewrite length_app, Ht. cbn [length]. lia.
  - intros i Hi. rewrite lookup_app_r, Ht by lia.
    replace (i - m)%nat with (S (i - S m)) by lia.
    change ((0 :: ds) !! S (i - S m)) with (ds !! (i - S m)%nat).
    rewrite Hds, lookup_drop. f_equal. lia.
Qed.

Lemma trunc_fit pre c k rest : Forall utf8_char pre -> utf8_char c -> (k < length c)%nat ->
  exists t, utf8_trunc (concat pre ++ take k c ++ 0 :: rest) = Some t /\
    length t = length (concat pre ++ take k c ++ 0 :: rest) /\
    (strlen t = Some (length (concat pre)) /\ take (length (concat pre)) t = concat pre) /\
    forall i, (length (concat pre) + k <= i)%nat -> t !! i = (concat pre ++ take k c ++ 0 :: rest) !! i.
Proof.
  intros Hpre Hc Hk. assert (Hnz : Forall (fun x => x <> 0) (concat pre))
    by (apply Forall_concat; eapply Forall_impl; [done|apply utf8_char_nonzero]).
  destruct k as [|k].
  - cbn [take app]. exists (concat pre ++ 0 :: rest). split; [|rewrite strlen_spec, take_app_length; done].
    destruct pre as [|c' pre _] using rev_ind; [done|].
    rewrite concat_app in *. cbn [concat] in *. rewrite app_nil_r in *.
    apply Forall_app in Hnz as [Hnz _]. apply Forall_app in Hpre as [_ Hc']. apply Forall_inv in Hc'.
    pose proof (utf8_trunc_spec (concat pre) c' (length c') rest Hnz Hc') as Ht.
    rewrite take_ge, Nat.eqb_refl, app_assoc in Ht by lia. apply Ht.
    destruct c'; [done|cbn; lia].
  - rewrite utf8_trunc_spec by (done || lia). rewrite (proj2 (Nat.eqb_neq _ _)) by lia.
    eexists. split; [done|]. rewrite !length_app. cbn [length]. rewrite !length_app, length_drop, length_take.
    split; [cbn [length]; lia|]. split; [rewrite strlen_spec, take_app_length; done|].
    intros i Hi. rewrite !lookup_app_r by lia. rewrite (lookup_app_r (take _ _)) by (rewrite length_take; lia).
    replace (i - length (concat pre))%nat with (S (i - length (concat pre) - 1)) at 1 by lia.
    change ((0 :: ?l) !! S ?j) with (l !! j) at 1.
    rewrite lookup_app_r by (rewrite length_drop, length_take; lia).
    f_equal. rewrite length_drop, length_take. lia.
Qed.

(** C40: [utf8_lcpy] copies the characters from the front that fit, and none of them in part; it
    leaves the rest of the destination alone. *)
Theorem utf8_lcpy_correct dst chars junk n :
  Forall utf8_char chars -> 0 < n <= Z.of_nat (length dst) ->
  exists dst', utf8_lcpy dst (concat chars ++ 0 :: junk) n = Some dst' /\
    length dst' = length dst /\
    (exists k, strlen dst' = Some k /\ take k dst' = concat (fit (Z.to_nat (n - 1)) chars)) /\
    forall i, n <= Z.of_nat i -> dst' !! i = dst !! i.
Proof.
  intros Hc Hn. unfold utf8_lcpy. rewrite Z.gtb_ltb, (proj2 (Z.ltb_lt 0 n)) by lia.
  set (m := Z.to_nat (n - 1)). set (s := concat chars).
  rewrite strncpy_spec; [|apply Forall_concat; eapply Forall_impl; [done|apply utf8_char_nonzero]|lia].
  destruct (lcpy_store s dst n Hn) as (rest & Hst & Hlen & Hout). fold m in Hst, Hlen, Hout.
  cbn [mbind option_bind]. rewrite Hst. cbn [mbind option_bind].
  destruct (fit_spec m chars Hc) as (Hf & c & k & Hcc & Hk & Ht). fold s in Ht.
  assert (Hlk : (length (concat (fit m chars)) + k <= m)%nat).
  { apply (f_equal length) in Ht. rewrite length_app, !length_take in Ht. lia. }
  rewrite Ht, <- app_assoc in *.
  destruct (trunc_fit (fit m chars) c k rest Hf Hcc Hk) as (t & Htr & Hl & Hstr & Hrest).
  destruct (Z.eqb_spec n 1) as [->|Hn1]; cbn [negb].
  - assert (m = 0%nat) as Hm0 by lia. assert (k = 0%nat) as -> by lia.
    assert (Hnil : concat (fit m chars) = []) by (apply nil_length_inv; lia).
    eexists. split; [done|]. split; [done|]. split; [|done]. exists O. rewrite Hnil. done.
  - exists t. split; [done|]. split; [congruence|]. split; [eauto|].
    intros i Hi. rewrite Hrest by lia. by apply Hout.
Qed.

Lemma utf8_lcpy_correct_witness :
  exists dst', utf8_lcpy (replicate 6 1) ([0x41; 0xE2; 0x82; 0xAC] ++ [0xC3; 0xA9; 0]) 6 = Some dst' /\
    length dst' = 6%nat /\ 
    (exists k, strlen dst' = Some k /\ take k dst' = [0x41; 0xE2; 0x82; 0xAC]) /\
    forall i, 6 <= Z.of_nat i -> dst' !! i = replicate 6 1 !! i.
Proof.
  apply (utf8_lcpy_correct (replicate 6 1) [[0x41]; [0xE2; 0x82; 0xAC]; [0xC3; 0xA9]] [] 6);
    [by_decision|cbn; lia].
Defined.
