(* ===== verification/Bitarray.v ===== *)
(** * Bit arrays

    lib/utils/bitarray.c: an array of bits in words of 32 bits, with operations on single bits
    and on regions, and allocation of free regions.  [None] stands for an access outside the
    array or a failed assertion.  The spin locks do nothing on one CPU but mask interrupts.
    The pointers through which results are returned are not null; what is stored through them
    is part of the result. *)

From S2P Require Import Prelude Timeout KState BitOps.

Local Open Scope Z_scope.

Definition ENOSPC : Z := 28.
Definition EEXIST : Z := 17.

(** ** The code *)

Record sys_bitarray := mkBitarray { num_bits : Z; num_bundles : Z; bundles : list Z }.

(** _SYS_BITARRAY_DEFINE *)
Definition SYS_BITARRAY_DEFINE (total_bits : Z) : sys_bitarray :=
  let n := ((total_bits + 8 - 1) / 8 + 4 - 1) / 4 in
  mkBitarray total_bits n (replicate (Z.to_nat n) 0).

Record bundle_data := mkBundleData {
  sidx : Z; eidx : Z; soff : Z; eoff : Z; smask : Z; emask : Z }.

Definition bundle_bitness : Z := 32.

Definition setup_bundle_data (offset num_bits : Z) : bundle_data :=
  let last := u32 (u32 (offset + num_bits) - 1) in
  let sidx := offset / bundle_bitness in
  let soff := offset mod bundle_bitness in
  let eidx := last / bundle_bitness in
  let eoff := last mod bundle_bitness in
  let smask := u32 (Z.lnot (BIT soff - 1)) in
  let emask := Z.lor (BIT eoff - 1) (BIT eoff) in
  let smask := if sidx =? eidx then Z.land smask emask else smask in
  mkBundleData sidx eidx soff eoff smask emask.

Definition get_bundle (ba : sys_bitarray) (idx : Z) : option Z := bundles ba !! Z.to_nat idx.

Definition set_bundle (ba : sys_bitarray) (idx v : Z) : option sys_bitarray :=
  if idx <? Z.of_nat (length (bundles ba))
  then Some (mkBitarray (num_bits ba) (num_bundles ba) (<[Z.to_nat idx := v]> (bundles ba)))
  else None.

(** include/zephyr/arch/common/ffs.h: the loop from bit [bit] on *)
Fixpoint find_lsb_from (n : nat) (bit op : Z) : Z :=
  match n with
  | O => 0
  | S n => if negb (Z.land op (Z.shiftl 1 bit) =? 0) then bit + 1 else find_lsb_from n (bit + 1) op
  end.
Definition find_lsb_set (op : Z) : Z := if op =? 0 then 0 else find_lsb_from 32 0 op.

(** __builtin_popcount *)
Definition POPCOUNT (x : Z) : Z := Z.of_nat (length (filter (fun j => Z.testbit x j = true) (seqZ 0 32))).

(** The loop of [match_region] over the bundles between the first and the last: the mismatched
    bundle and its index, if any. *)
Fixpoint match_between (n : nat) (idx : Z) (ba : sys_bitarray) (match_set : bool) :
    option (option (Z * Z)) :=
  match n with
  | O => Some None
  | S n =>
      bundle ← get_bundle ba idx;
      let bundle := if match_set then u32 (Z.lnot bundle) else bundle in
      if negb (bundle =? 0) then Some (Some (bundle, idx)) else match_between n (idx + 1) ba match_set
  end.

(** The mismatched bundle and its index, or [None] if the region matches. *)
Definition match_bundles (ba : sys_bitarray) (bd : bundle_data) (match_set : bool) :
    option (option (Z * Z)) :=
  bundle ← get_bundle ba (sidx bd);
  let bundle := if match_set then bundle else u32 (Z.lnot bundle) in
  if negb (Z.land bundle (smask bd) =? smask bd)
  then Some (Some (Z.land (u32 (Z.lnot bundle)) (smask bd), sidx bd)) else
  if sidx bd =? eidx bd then Some None else
  bundle ← get_bundle ba (eidx bd);
  let bundle := if match_set then bundle else u32 (Z.lnot bundle) in
  if negb (Z.land bundle (emask bd) =? emask bd)
  then Some (Some (Z.land (u32 (Z.lnot bundle)) (emask bd), eidx bd)) else
  match_between (Z.to_nat (eidx bd - sidx bd - 1)) (sidx bd + 1) ba match_set.

(** [match_region] without the position of the mismatch. *)
Definition match_region (ba : sys_bitarray) (offset num_bits : Z) (match_set : bool) :
    option (bundle_data * bool) :=
  let bd := setup_bundle_data offset num_bits in
  r ← match_bundles ba bd match_set;
  Some (bd, match r with None => true | Some _ => false end).

(** [match_region] with it. *)
Definition match_region_at (ba : sys_bitarray) (offset num_bits : Z) (match_set : bool) :
    option (bundle_data * option Z) :=
  let bd := setup_bundle_data offset num_bits in
  r ← match_bundles ba bd match_set;
  match r with
  | None => Some (bd, None)
  | Some (mismatch_bundle, mismatch_bundle_idx) =>
      if mismatch_bundle =? 0 then None else
      Some (bd, Some (u32 (find_lsb_set mismatch_bundle - 1 + mismatch_bundle_idx * bundle_bitness)))
  end.

(** [for (idx = sidx + 1; idx < eidx; idx++)] *)
Fixpoint for_between (n : nat) (idx : Z) (f : Z -> sys_bitarray -> option sys_bitarray)
    (ba : sys_bitarray) : option sys_bitarray :=
  match n with O => Some ba | S n => ba ← f idx ba; for_between n (idx + 1) f ba end.

Definition between (bd : bundle_data) : nat := Z.to_nat (eidx bd - sidx bd - 1).

Definition set_region (ba : sys_bitarray) (to_set : bool) (bd : bundle_data) : option sys_bitarray :=
  let apply idx mask ba :=
    v ← get_bundle ba idx;
    set_bundle ba idx (if to_set then Z.lor v mask else Z.land v (u32 (Z.lnot mask))) in
  ba ← apply (sidx bd) (smask bd) ba;
  if sidx bd =? eidx bd then Some ba else
  ba ← apply (eidx bd) (emask bd) ba;
  for_between (between bd) (sidx bd + 1)
    (fun idx ba => set_bundle ba idx (if to_set then 0xFFFFFFFF else 0)) ba.

Fixpoint popcount_between (n : nat) (idx : Z) (ba : sys_bitarray) (count : Z) : option Z :=
  match n with
  | O => Some count
  | S n => v ← get_bundle ba idx; popcount_between n (idx + 1) ba (u32 (count + POPCOUNT v))
  end.

(** The result, and what is stored in [*count]. *)
Definition sys_bitarray_popcount_region (ba : sys_bitarray) (num offset : Z) : option (Z * option Z) :=
  if (num =? 0) || (u32 (offset + num) >? num_bits ba) then Some (- EINVAL, None) else
  let bd := setup_bundle_data offset num in
  v ← get_bundle ba (sidx bd);
  let count := POPCOUNT (Z.land v (smask bd)) in
  if sidx bd =? eidx bd then Some (0, Some count) else
  v ← get_bundle ba (eidx bd);
  let count := u32 (count + POPCOUNT (Z.land v (emask bd))) in
  count ← popcount_between (between bd) (sidx bd + 1) ba count;
  Some (0, Some count).

Definition sys_bitarray_xor (dst other : sys_bitarray) (num offset : Z) : option (Z * sys_bitarray) :=
  if negb (num_bits dst =? num_bits other) then Some (- EINVAL, dst) else
  if (num =? 0) || (u32 (offset + num) >? num_bits dst) then Some (- EINVAL, dst) else
  let bd := setup_bundle_data offset num in
  let apply idx mask dst :=
    o ← get_bundle other idx;
    v ← get_bundle dst idx;
    set_bundle dst idx (Z.lor (Z.land (Z.lxor o v) mask) (Z.land v (u32 (Z.lnot mask)))) in
  dst ← apply (sidx bd) (smask bd) dst;
  if sidx bd =? eidx bd then Some (0, dst) else
  dst ← apply (eidx bd) (emask bd) dst;
  dst ← for_between (between bd) (sidx bd + 1)
    (fun idx dst =>
       v ← get_bundle dst idx; o ← get_bundle other idx; set_bundle dst idx (Z.lxor v o)) dst;
  Some (0, dst).

Definition sys_bitarray_set_bit (ba : sys_bitarray) (bit : Z) : option (Z * sys_bitarray) :=
  if bit >=? num_bits ba then Some (- EINVAL, ba) else
  let idx := bit / bundle_bitness in
  let off := bit mod bundle_bitness in
  v ← get_bundle ba idx;
  ba ← set_bundle ba idx (Z.lor v (BIT off));
  Some (0, ba).

Definition sys_bitarray_clear_bit (ba : sys_bitarray) (bit : Z) : option (Z * sys_bitarray) :=
  if bit >=? num_bits ba then Some (- EINVAL, ba) else
  let idx := bit / bundle_bitness in
  let off := bit mod bundle_bitness in
  v ← get_bundle ba idx;
  ba ← set_bundle ba idx (Z.land v (u32 (Z.lnot (BIT off))));
  Some (0, ba).

Definition sys_bitarray_test_bit (ba : sys_bitarray) (bit : Z) : option (Z * option Z) :=
  if bit >=? num_bits ba then Some (- EINVAL, None) else
  let idx := bit / bundle_bitness in
  let off := bit mod bundle_bitness in
  v ← get_bundle ba idx;
  Some (0, Some (if negb (Z.land v (BIT off) =? 0) then 1 else 0)).

Definition sys_bitarray_test_and_set_bit (ba : sys_bitarray) (bit : Z) :
    option (Z * option Z * sys_bitarray) :=
  if bit >=? num_bits ba then Some (- EINVAL, None, ba) else
  let idx := bit / bundle_bitness in
  let off := bit mod bundle_bitness in
  v ← get_bundle ba idx;
  let prev_val := if negb (Z.land v (BIT off) =? 0) then 1 else 0 in
  ba ← set_bundle ba idx (Z.lor v (BIT off));
  Some (0, Some prev_val, ba).

Definition sys_bitarray_test_and_clear_bit (ba : sys_bitarray) (bit : Z) :
    option (Z * option Z * sys_bitarray) :=
  if bit >=? num_bits ba then Some (- EINVAL, None, ba) else
  let idx := bit / bundle_bitness in
  let off := bit mod bundle_bitness in
  v ← get_bundle ba idx;
  let prev_val := if negb (Z.land v (BIT off) =? 0) then 1 else 0 in
  ba ← set_bundle ba idx (Z.land v (u32 (Z.lnot (BIT off))));
  Some (0, Some prev_val, ba).

(** The search of [sys_bitarray_alloc] for the first bundle with a free bit. *)
Fixpoint skip_full (n : nat) (idx : Z) (ba : sys_bitarray) (bit_idx : Z) : option Z :=
  match n with
  | O => Some bit_idx
  | S n =>
      v ← get_bundle ba idx;
      if u32 (Z.lnot v) =? 0 then skip_full n (idx + 1) ba (u32 (bit_idx + bundle_bitness)) else
      if negb (v =? 0) then Some (u32 (bit_idx + (find_lsb_set (u32 (Z.lnot v)) - 1))) else Some bit_idx
  end.

(** [while (bit_idx <= off_end)] *)
Fixpoint alloc_search (fuel : nat) (ba : sys_bitarray) (num off_end bit_idx : Z) :
    option (Z * option Z * sys_bitarray) :=
  match fuel with
  | O => None
  | S fuel =>
      if bit_idx <=? off_end then
        '(bd, r) ← match_region_at ba bit_idx num false;
        match r with
        | None => ba ← set_region ba true bd; Some (0, Some bit_idx, ba)
        | Some mismatch => alloc_search fuel ba num off_end (u32 (mismatch + 1))
        end
      else Some (- ENOSPC, None, ba)
  end.

(** The result, what is stored in [*offset], and the array. *)
Definition sys_bitarray_alloc (ba : sys_bitarray) (num : Z) : option (Z * option Z * sys_bitarray) :=
  if (num =? 0) || (num >? num_bits ba) then Some (- EINVAL, None, ba) else
  bit_idx ← skip_full (Z.to_nat (num_bundles ba)) 0 ba 0;
  let off_end := num_bits ba - num in
  alloc_search (S (Z.to_nat (num_bits ba))) ba num off_end bit_idx.

(** The loop of [sys_bitarray_find_nth_set] over the bits of the bundle found. *)
Fixpoint nth_in_bundle (k : nat) (j : Z) (v mask idx n : Z) : Z * option Z :=
  match k with
  | O => (1, None)
  | S k =>
      if negb (Z.land (Z.land v mask) (BIT j) =? 0) then
        if n - 1 <=? 0 then (0, Some (u32 (idx * bundle_bitness + j)))
        else nth_in_bundle k (j + 1) v mask idx (n - 1)
      else nth_in_bundle k (j + 1) v mask idx n
  end.

(** The loop over the bundles between the first and the last: the bundle that holds the bit
    looked for, or what is left to count. *)
Fixpoint nth_between (k : nat) (idx : Z) (ba : sys_bitarray) (n : Z) : option (Z * option Z) :=
  match k with
  | O => Some (n, None)
  | S k =>
      v ← get_bundle ba idx;
      let count := POPCOUNT v in
      if count >=? n then Some (n, Some idx) else nth_between k (idx + 1) ba (n - count)
  end.

Definition sys_bitarray_find_nth_set (ba : sys_bitarray) (n num offset : Z) : option (Z * option Z) :=
  if (n =? 0) || (num =? 0) || (u32 (offset + num) >? num_bits ba) then Some (- EINVAL, None) else
  let bd := setup_bundle_data offset num in
  let found idx mask n := v ← get_bundle ba idx; Some (nth_in_bundle 32 0 v mask idx n) in
  v ← get_bundle ba (sidx bd);
  let count := POPCOUNT (Z.land v (smask bd)) in
  if count >=? n then found (sidx bd) (smask bd) n else
  if negb (sidx bd =? eidx bd) then
    '(n, r) ← nth_between (between bd) (sidx bd + 1) ba (n - count);
    match r with
    | Some idx => found idx 0xFFFFFFFF n
    | None =>
        v ← get_bundle ba (eidx bd);
        let count := POPCOUNT (Z.land v (emask bd)) in
        if count >=? n then found (eidx bd) (emask bd) n else Some (1, None)
    end
  else Some (1, None).

(** The check of the region that the following functions share. *)
Definition bad_region (ba : sys_bitarray) (num offset : Z) : bool :=
  let off_end := u32 (u32 (offset + num) - 1) in
  (num =? 0) || (num >? num_bits ba) || (offset >=? num_bits ba) || (off_end >=? num_bits ba).

Definition sys_bitarray_free (ba : sys_bitarray) (num offset : Z) : option (Z * sys_bitarray) :=
  if bad_region ba num offset then Some (- EINVAL, ba) else
  '(bd, matches) ← match_region ba offset num true;
  if (matches : bool) then ba ← set_region ba false bd; Some (0, ba)
  else Some (- EFAULT, ba).

Definition is_region_set_clear (ba : sys_bitarray) (num offset : Z) (to_set : bool) : option bool :=
  if bad_region ba num offset then Some false else
  '(_, matches) ← match_region ba offset num to_set; Some matches.

Definition sys_bitarray_is_region_set (ba : sys_bitarray) (num offset : Z) : option bool :=
  is_region_set_clear ba num offset true.

Definition sys_bitarray_is_region_cleared (ba : sys_bitarray) (num offset : Z) : option bool :=
  is_region_set_clear ba num offset false.

Definition set_clear_region (ba : sys_bitarray) (num offset : Z) (to_set : bool) :
    option (Z * sys_bitarray) :=
  if bad_region ba num offset then Some (- EINVAL, ba) else
  ba ← set_region ba to_set (setup_bundle_data offset num);
  Some (0, ba).

Definition sys_bitarray_test_and_set_region (ba : sys_bitarray) (num offset : Z) (to_set : bool) :
    option (Z * sys_bitarray) :=
  if bad_region ba num offset then Some (- EINVAL, ba) else
  '(bd, matches) ← match_region ba offset num (negb to_set);
  if (matches : bool) then ba ← set_region ba to_set bd; Some (0, ba)
  else Some (- EEXIST, ba).

Definition sys_bitarray_set_region (ba : sys_bitarray) (num offset : Z) : option (Z * sys_bitarray) :=
  set_clear_region ba num offset true.

Definition sys_bitarray_clear_region (ba : sys_bitarray) (num offset : Z) : option (Z * sys_bitarray) :=
  set_clear_region ba num offset false.
