(* ===== verification/BitarraySet.v ===== *)
(** * Bit arrays as sets

    The bits that are set in a bit array, as a finite set of positions, and what every
    operation of lib/utils/bitarray.c does to it. *)

From S2P Require Import Prelude Timeout KState BitOps Bitarray.

Local Open Scope Z_scope.

(** ** Positions *)

(** The bit at position [i]. *)
Definition bit_at (ba : sys_bitarray) (i : Z) : bool :=
  match bundles ba !! Z.to_nat (i / 32) with Some v => Z.testbit v (i mod 32) | None => false end.

Definition wf (ba : sys_bitarray) : Prop :=
  0 < num_bits ba < 2 ^ 32 /\ num_bundles ba = (num_bits ba + 31) / 32 /\
  Z.of_nat (length (bundles ba)) = num_bundles ba /\
  Forall (fun v => 0 <= v < 2 ^ 32) (bundles ba).

(** The set of the bits that are set. *)
Definition members (ba : sys_bitarray) : gset Z :=
  list_to_set (filter (fun i => bit_at ba i = true) (seqZ 0 (num_bits ba))).

Definition region (offset num : Z) : gset Z := list_to_set (seqZ offset num).

Lemma elem_of_members ba i : i ∈ members ba <-> 0 <= i < num_bits ba /\ bit_at ba i = true.
Proof. unfold members. rewrite elem_of_list_to_set, list_elem_of_filter, elem_of_seqZ. naive_solver lia. Qed.

Lemma elem_of_region offset num i : i ∈ region offset num <-> offset <= i < offset + num.
Proof. unfold region. by rewrite elem_of_list_to_set, elem_of_seqZ. Qed.

Lemma members_ext ba ba' : num_bits ba' = num_bits ba ->
  (forall i, 0 <= i < num_bits ba -> bit_at ba' i = bit_at ba i) -> members ba' = members ba.
Proof.
  intros Hn Hb. apply set_eq. intros i. rewrite !elem_of_members, Hn.
  split; intros [Hi Hbit]; (split; [done|]); [rewrite <- Hb by done|rewrite Hb by done]; done.
Qed.

(** ** Masks *)

(** The bits of bundle [k] that belong to the region. *)
Definition mask (bd : bundle_data) (k : Z) : Z :=
  if k =? sidx bd then smask bd else if k =? eidx bd then emask bd
  else if (sidx bd <? k) && (k <? eidx bd) then 0xFFFFFFFF else 0.

Lemma BIT_ones n : 0 <= n -> BIT n - 1 = Z.ones n.
Proof. intros. unfold BIT. rewrite Z.shiftl_1_l, Z.ones_equiv. lia. Qed.

Lemma testbit_smask s j : 0 <= s -> 0 <= j < 32 -> Z.testbit (u32 (Z.lnot (BIT s - 1))) j = (s <=? j).
Proof.
  intros Hs Hj. rewrite BIT_ones, testbit_wrap_u, Z.lnot_spec, Z.testbit_ones_nonneg by lia.
  rewrite (proj2 (Z.ltb_lt j 32)) by lia. cbn [andb]. by rewrite Z.leb_antisym.
Qed.

Lemma testbit_emask e j : 0 <= e -> 0 <= j -> Z.testbit (Z.lor (BIT e - 1) (BIT e)) j = (j <=? e).
Proof.
  intros He Hj. rewrite BIT_ones, Z.lor_spec, Z.testbit_ones_nonneg, testbit_BIT by lia.
  destruct (Z.ltb_spec j e), (Z.eqb_spec j e), (Z.leb_spec j e); cbn; done || lia.
Qed.

Section Setup.
Context (offset num : Z) (Ho : 0 <= offset) (Hn : 0 < num) (Hmax : offset + num < 2 ^ 32).
Let bd := setup_bundle_data offset num.

Lemma setup_last : u32 (u32 (offset + num) - 1) = offset + num - 1.
Proof using Ho Hn Hmax. rewrite (wrap_u_small 32 (offset + num)), wrap_u_small; lia. Qed.

Lemma setup_idx : sidx bd = offset / 32 /\ eidx bd = (offset + num - 1) / 32 /\
  0 <= sidx bd <= eidx bd.
Proof using Ho Hn Hmax.
  unfold bd, setup_bundle_data. cbn [sidx eidx]. rewrite setup_last.
  unfold bundle_bitness. split; [done|]. split; [done|].
  split; [apply Z.div_pos|apply Z.div_le_mono]; lia.
Qed.

Lemma testbit_mask k j : 0 <= k -> 0 <= j < 32 ->
  Z.testbit (mask bd k) j = (offset <=? 32 * k + j) && (32 * k + j <? offset + num).
Proof using Ho Hn Hmax.
  intros Hk Hj. destruct setup_idx as (Hs & He & Hse). unfold mask.
  assert (Hsm : smask bd = (if sidx bd =? eidx bd then Z.land (u32 (Z.lnot (BIT (offset mod 32) - 1))) (emask bd)
    else u32 (Z.lnot (BIT (offset mod 32) - 1)))) by done.
  assert (Hem : emask bd = Z.lor (BIT ((offset + num - 1) mod 32) - 1) (BIT ((offset + num - 1) mod 32))).
  { unfold bd, setup_bundle_data. cbn [emask]. by rewrite setup_last. }
  pose proof (Z.mod_pos_bound offset 32). pose proof (Z.mod_pos_bound (offset + num - 1) 32).
  pose proof (Z.div_mod offset 32). pose proof (Z.div_mod (offset + num - 1) 32).
  assert (Hb1 : Z.testbit (u32 (Z.lnot (BIT (offset mod 32) - 1))) j = (offset mod 32 <=? j))
    by (apply testbit_smask; lia).
  assert (Hb2 : Z.testbit (emask bd) j = (j <=? (offset + num - 1) mod 32))
    by (rewrite Hem; apply testbit_emask; lia).
  destruct (Z.eqb_spec k (sidx bd)) as [->|Hks]; [|destruct (Z.eqb_spec k (eidx bd)) as [->|Hke]].
  - rewrite Hsm. destruct (Z.eqb_spec (sidx bd) (eidx bd)) as [Heq|Hneq].
    + rewrite Z.land_spec, Hb1, Hb2. f_equal.
      * apply eq_true_iff_eq. rewrite !Z.leb_le. lia.
      * apply eq_true_iff_eq. rewrite Z.leb_le, Z.ltb_lt. lia.
    + rewrite Hb1. rewrite (proj2 (Z.ltb_lt _ _)) by lia. rewrite andb_true_r.
      apply eq_true_iff_eq. rewrite !Z.leb_le. lia.
  - rewrite Hb2, (proj2 (Z.leb_le offset _)) by lia. cbn [andb].
    apply eq_true_iff_eq. rewrite Z.leb_le, Z.ltb_lt. lia.
  - destruct (Z.ltb_spec (sidx bd) k), (Z.ltb_spec k (eidx bd)); cbn [andb].
    + change 0xFFFFFFFF with (Z.ones 32). rewrite Z.testbit_ones_nonneg by lia.
      by rewrite (proj2 (Z.ltb_lt j 32)), (proj2 (Z.leb_le _ _)), (proj2 (Z.ltb_lt _ _)) by lia.
    + rewrite Z.bits_0, (proj2 (Z.ltb_ge _ _)) by lia. by rewrite andb_false_r.
    + rewrite Z.bits_0, (proj2 (Z.leb_gt _ _)) by lia. done.
    + lia.
Qed.

Lemma mask_range k : 0 <= mask bd k < 2 ^ 32.
Proof using Ho Hn Hmax.
  destruct setup_idx as (Hs & He & Hse).
  pose proof (Z.mod_pos_bound (offset + num - 1) 32).
  assert (Hem : 0 <= emask bd < 2 ^ 32).
  { unfold bd, setup_bundle_data. cbn [emask]. rewrite setup_last.
    unfold bundle_bitness. rewrite <- (wrap_u_bits 32 (Z.lor _ _)); [apply wrap_u_range; lia|lia|].
    intros i Hi. rewrite testbit_emask by lia. apply Z.leb_gt. lia. }
  assert (Hsm : 0 <= smask bd < 2 ^ 32).
  { unfold bd, setup_bundle_data. cbn [smask]. destruct (_ =? _); [|apply wrap_u_range; lia].
    rewrite <- (wrap_u_bits 32 (Z.land _ _)); [apply wrap_u_range; lia|lia|].
    intros i Hi. rewrite Z.land_spec, testbit_wrap_u by lia. by rewrite (proj2 (Z.ltb_ge i 32)) by lia. }
  unfold mask. repeat case_match; done.
Qed.
End Setup.

(** ** Updates of bundles *)

Definition upd (ba : sys_bitarray) (idx : Z) (h : Z -> Z) : option sys_bitarray :=
  v ← get_bundle ba idx; set_bundle ba idx (h v).

(** [ba'] is [ba] with bundle [k] mapped by [H k]. *)
Definition mapped_by (H : Z -> Z -> Z) (ba ba' : sys_bitarray) : Prop :=
  num_bits ba' = num_bits ba /\ num_bundles ba' = num_bundles ba /\
  length (bundles ba') = length (bundles ba) /\
  forall k, bundles ba' !! k = H (Z.of_nat k) <$> bundles ba !! k.

Definition only (P : Z -> bool) (H : Z -> Z -> Z) (k v : Z) : Z := if P k then H k v else v.

Lemma upd_spec ba idx h : 0 <= idx < Z.of_nat (length (bundles ba)) ->
  exists ba', upd ba idx h = Some ba' /\ mapped_by (only (Z.eqb idx) (fun _ => h)) ba ba'.
Proof.
  intros Hi. unfold upd, get_bundle, set_bundle.
  destruct (lookup_lt_is_Some_2 (bundles ba) (Z.to_nat idx)) as [v Hv]; [lia|]. rewrite Hv.
  cbn [mbind option_bind]. rewrite (proj2 (Z.ltb_lt _ _)) by lia. eexists. split; [done|].
  split; [done|]. split; [done|]. cbn [bundles]. split; [apply length_insert|]. intros k. unfold only.
  destruct (Z.eqb_spec idx (Z.of_nat k)) as [->|Hne].
  - rewrite Nat2Z.id in *. rewrite list_lookup_insert_eq by lia. by rewrite Hv.
  - rewrite list_lookup_insert_ne by lia. by destruct (bundles ba !! k).
Qed.

Lemma mapped_by_trans H1 H2 ba1 ba2 ba3 : mapped_by H1 ba1 ba2 -> mapped_by H2 ba2 ba3 ->
  mapped_by (fun k v => H2 k (H1 k v)) ba1 ba3.
Proof.
  intros (A1 & B1 & C1 & D1) (A2 & B2 & C2 & D2). split; [congruence|]. split; [congruence|].
  split; [congruence|]. intros k. rewrite D2, D1. by destruct (bundles ba1 !! k).
Qed.

Lemma mapped_by_ext H1 H2 ba ba' : (forall k v, bundles ba !! k = Some v -> H1 (Z.of_nat k) v = H2 (Z.of_nat k) v) ->
  mapped_by H1 ba ba' -> mapped_by H2 ba ba'.
Proof.
  intros Hext (A & B & C & D). split; [done|]. split; [done|]. split; [done|]. intros k. rewrite D.
  destruct (bundles ba !! k) as [v|] eqn:Hv; cbn; [|done]. by rewrite (Hext k v Hv).
Qed.

Lemma for_between_spec n idx f H ba :
  (forall k ba', idx <= k < idx + Z.of_nat n -> length (bundles ba') = length (bundles ba) ->
    f k ba' = upd ba' k (H k)) ->
  0 <= idx -> idx + Z.of_nat n <= Z.of_nat (length (bundles ba)) ->
  exists ba', for_between n idx f ba = Some ba' /\
    mapped_by (only (fun k => (idx <=? k) && (k <? idx + Z.of_nat n)) H) ba ba'.
Proof.
  revert idx ba. induction n as [|n IH]; intros idx ba Hf Hi Hl; cbn [for_between].
  - exists ba. split; [done|]. split; [done|]. split; [done|]. split; [done|]. intros k. unfold only.
    replace ((idx <=? Z.of_nat k) && (Z.of_nat k <? idx + Z.of_nat 0)) with false.
    + by destruct (bundles ba !! k).
    + symmetry. apply andb_false_iff. rewrite Z.leb_gt, Z.ltb_ge. lia.
  - rewrite Hf by lia. destruct (upd_spec ba idx (H idx)) as (ba1 & -> & Hm1); [lia|].
    cbn [mbind option_bind]. destruct Hm1 as (A & B & C & D) eqn:E. clear E.
    destruct (IH (idx + 1) ba1) as (ba2 & Hfb & Hm2); [|lia|lia|].
    { intros k ba' Hk Hl'. apply Hf; [lia|congruence]. }
    exists ba2. split; [done|]. eapply mapped_by_ext; [|exact (mapped_by_trans _ _ _ _ _ (conj A (conj B (conj C D))) Hm2)].
    intros k v Hv. cbn. unfold only.
    destruct (Z.eqb_spec idx (Z.of_nat k)) as [<-|Hne].
    + rewrite (proj2 (Z.leb_gt (idx + 1) idx)), (proj2 (Z.leb_le idx idx)),
        (proj2 (Z.ltb_lt idx (idx + Z.of_nat (S n)))) by lia. done.
    + replace ((idx + 1 <=? Z.of_nat k) && (Z.of_nat k <? idx + 1 + Z.of_nat n))
        with ((idx <=? Z.of_nat k) && (Z.of_nat k <? idx + Z.of_nat (S n))); [done|].
      apply eq_true_iff_eq. rewrite !andb_true_iff, !Z.leb_le, !Z.ltb_lt. lia.
Qed.

(** An update of the bundles of a region, each with its part of the mask. *)
Lemma region_update ba bd (op : Z -> Z -> Z -> Z) mid f :
  0 <= sidx bd <= eidx bd -> eidx bd < Z.of_nat (length (bundles ba)) ->
  (forall k ba', sidx bd < k < eidx bd -> length (bundles ba') = length (bundles ba) ->
    f k ba' = upd ba' k (mid k)) ->
  (forall k v, bundles ba !! Z.to_nat k = Some v -> mid k v = op k v 0xFFFFFFFF) ->
  exists ba', (ba ← upd ba (sidx bd) (fun v => op (sidx bd) v (smask bd));
    if sidx bd =? eidx bd then Some ba else
    ba ← upd ba (eidx bd) (fun v => op (eidx bd) v (emask bd));
    for_between (between bd) (sidx bd + 1) f ba) = Some ba' /\
    mapped_by (only (fun k => (sidx bd <=? k) && (k <=? eidx bd)) (fun k v => op k v (mask bd k))) ba ba'.
Proof.
  intros Hs He Hf Hmid. destruct (upd_spec ba (sidx bd) (fun v => op (sidx bd) v (smask bd))) as (ba1 & -> & Hm1); [lia|].
  cbn [mbind option_bind]. destruct (Z.eqb_spec (sidx bd) (eidx bd)) as [Heq|Hneq].
  - exists ba1. split; [done|]. eapply mapped_by_ext; [|exact Hm1]. intros k v _. unfold only, mask.
    rewrite <- Heq. destruct (Z.eqb_spec (sidx bd) (Z.of_nat k)) as [<-|Hne].
    + by rewrite Z.leb_refl, Z.eqb_refl.
    + replace ((sidx bd <=? Z.of_nat k) && (Z.of_nat k <=? sidx bd)) with false; [done|].
      symmetry. apply andb_false_iff. rewrite !Z.leb_gt. lia.
  - destruct (upd_spec ba1 (eidx bd) (fun v => op (eidx bd) v (emask bd))) as (ba2 & -> & Hm2);
      [destruct Hm1 as (_ & _ & -> & _); lia|].
    cbn [mbind option_bind]. unfold between.
    pose proof (mapped_by_trans _ _ _ _ _ Hm1 Hm2) as Hm12.
    destruct (for_between_spec (Z.to_nat (eidx bd - sidx bd - 1)) (sidx bd + 1) f
      mid ba2) as (ba3 & Hfb & Hm3).
    { intros k ba' Hk Hl'. apply Hf; [lia|]. destruct Hm12 as (_ & _ & C & _). congruence. }
    { lia. } { destruct Hm12 as (_ & _ & -> & _). lia. }
    exists ba3. split; [done|]. eapply mapped_by_ext; [|exact (mapped_by_trans _ _ _ _ _ Hm12 Hm3)].
    intros k v Hv. unfold only, mask. cbn beta. rewrite <- (Nat2Z.id k) in Hv. apply Hmid in Hv.
    destruct (Z.eqb_spec (sidx bd) (Z.of_nat k)), (Z.eqb_spec (eidx bd) (Z.of_nat k)); try lia.
    all: destruct (Z.leb_spec (sidx bd + 1) (Z.of_nat k)),
      (Z.ltb_spec (Z.of_nat k) (sidx bd + 1 + Z.of_nat (Z.to_nat (eidx bd - sidx bd - 1)))),
      (Z.leb_spec (sidx bd) (Z.of_nat k)), (Z.leb_spec (Z.of_nat k) (eidx bd)),
      (Z.eqb_spec (Z.of_nat k) (sidx bd)), (Z.eqb_spec (Z.of_nat k) (eidx bd)),
      (Z.ltb_spec (sidx bd) (Z.of_nat k)), (Z.ltb_spec (Z.of_nat k) (eidx bd)); try lia; cbn [andb]; try done; congruence.
Qed.

Lemma mapped_wf H ba ba' : wf ba -> mapped_by H ba ba' ->
  (forall k v, 0 <= v < 2 ^ 32 -> 0 <= H k v < 2 ^ 32) -> wf ba'.
Proof.
  intros (Hn & Hnb & Hl & Hv) (A & B & C & D) HH. split; [by rewrite A|]. split; [congruence|].
  split; [congruence|]. apply Forall_lookup. intros k v. rewrite D.
  intros (u & Hu & ->)%fmap_Some. apply HH. exact (Forall_lookup_1 _ _ _ _ Hv Hu).
Qed.

(** The bundle that holds position [i]. *)
Lemma bundle_of ba i : wf ba -> 0 <= i < num_bits ba ->
  exists v, bundles ba !! Z.to_nat (i / 32) = Some v /\ 0 <= v < 2 ^ 32 /\
    bit_at ba i = Z.testbit v (i mod 32).
Proof.
  intros (Hn & Hnb & Hl & Hv) Hi. destruct (lookup_lt_is_Some_2 (bundles ba) (Z.to_nat (i / 32))) as [v Hlk].
  { pose proof (Z.div_pos i 32). rewrite Hnb in Hl.
    assert (i / 32 < (num_bits ba + 31) / 32) by (Z.div_mod_to_equations; lia). lia. }
  exists v. split; [done|]. split; [exact (Forall_lookup_1 _ _ _ _ Hv Hlk)|].
  unfold bit_at. by rewrite Hlk.
Qed.

Lemma bit_at_mapped H ba ba' i v : mapped_by H ba ba' -> 0 <= i ->
  bundles ba !! Z.to_nat (i / 32) = Some v -> bit_at ba' i = Z.testbit (H (i / 32) v) (i mod 32).
Proof.
  intros (_ & _ & _ & D) Hi Hv. unfold bit_at. rewrite D, Hv. cbn.
  by rewrite Z2Nat.id by (apply Z.div_pos; lia).
Qed.

(** A bitwise operation on the bundles of a region. *)
Section RegionOp.
Context (op : Z -> Z -> Z -> Z) (g : Z -> bool -> bool).
Context (ba ba' : sys_bitarray) (offset num : Z).
Let bd := setup_bundle_data offset num.
Context (Hwf : wf ba) (Ho : 0 <= offset) (Hn : 0 < num) (Hmax : offset + num <= num_bits ba).
Context (Hop : forall k v m j, 0 <= k -> 0 <= v < 2 ^ 32 -> 0 <= m < 2 ^ 32 -> 0 <= j < 32 ->
  Z.testbit (op k v m) j = if Z.testbit m j then g (32 * k + j) (Z.testbit v j) else Z.testbit v j).
Context (Hrange : forall k v m, 0 <= v < 2 ^ 32 -> 0 <= m < 2 ^ 32 -> 0 <= op k v m < 2 ^ 32).
Context (Hm : mapped_by (only (fun k => (sidx bd <=? k) && (k <=? eidx bd))
  (fun k v => op k v (mask bd k))) ba ba').

Lemma region_op_wf : wf ba'.
Proof using All.
  assert (Hlt : offset + num < 2 ^ 32) by (destruct Hwf as (? & _); lia).
  eapply mapped_wf; [done|exact Hm|]. intros k v Hv. unfold only. destruct (_ && _); [|done].
  apply Hrange; [done|]. by apply mask_range.
Qed.

Lemma region_op_bit i : 0 <= i < num_bits ba ->
  bit_at ba' i = if bool_decide (i ∈ region offset num) then g i (bit_at ba i) else bit_at ba i.
Proof using All.
  intros Hi. assert (Hlt : offset + num < 2 ^ 32) by (destruct Hwf as (? & _); lia).
  destruct (bundle_of ba i Hwf Hi) as (v & Hv & Hvr & ->).
  rewrite (bit_at_mapped _ _ _ i v Hm) by (done || lia). unfold only.
  pose proof (Z.mod_pos_bound i 32 ltac:(lia)). pose proof (Z.div_mod i 32 ltac:(lia)) as Hdm.
  pose proof (Z.div_pos i 32). destruct (setup_idx offset num Ho Hn Hlt) as (Hs & He & _). fold bd in Hs, He.
  pose proof (testbit_mask offset num Ho Hn Hlt (i / 32) (i mod 32)) as Hb.
  rewrite <- Hdm in Hb. fold bd in Hb.
  destruct ((sidx bd <=? i / 32) && (i / 32 <=? eidx bd)) eqn:Hin.
  - rewrite Hop by (try apply mask_range; lia). rewrite Hb, <- Hdm by lia.
    case_bool_decide as Hr; rewrite elem_of_region in Hr.
    + by rewrite (proj2 (Z.leb_le _ _)), (proj2 (Z.ltb_lt _ _)) by lia.
    + replace ((offset <=? i) && (i <? offset + num)) with false; [done|].
      symmetry. apply andb_false_iff. rewrite Z.leb_gt, Z.ltb_ge. lia.
  - rewrite bool_decide_eq_false_2; [done|]. rewrite elem_of_region. intros Hr.
    apply andb_false_iff in Hin. rewrite !Z.leb_gt, Hs, He in Hin.
    pose proof (Z.div_le_mono offset i 32). pose proof (Z.div_le_mono i (offset + num - 1) 32). lia.
Qed.
End RegionOp.

(** Setting or clearing the bits of a mask. *)
Definition set_op (to_set : bool) (_ v m : Z) : Z :=
  if to_set then Z.lor v m else Z.land v (u32 (Z.lnot m)).

Lemma testbit_set_op to_set k v m j : 0 <= j < 32 ->
  Z.testbit (set_op to_set k v m) j = if Z.testbit m j then to_set else Z.testbit v j.
Proof.
  intros Hj. unfold set_op. destruct to_set.
  - rewrite Z.lor_spec. destruct (Z.testbit m j); [apply orb_true_r|apply orb_false_r].
  - rewrite Z.land_spec, testbit_wrap_u, Z.lnot_spec, (proj2 (Z.ltb_lt j 32)) by lia.
    destruct (Z.testbit m j); [apply andb_false_r|apply andb_true_r].
Qed.

Lemma set_op_range to_set k v m : 0 <= v < 2 ^ 32 -> 0 <= m < 2 ^ 32 -> 0 <= set_op to_set k v m < 2 ^ 32.
Proof.
  intros Hv Hm. unfold set_op. rewrite <- (wrap_u_bits 32 (if to_set then _ else _)); [apply wrap_u_range; lia|lia|].
  intros i Hi. destruct to_set; [rewrite Z.lor_spec|rewrite Z.land_spec];
    by rewrite (testbit_above 32 v), ?(testbit_above 32 m) by lia.
Qed.

Lemma set_op_all to_set k v : 0 <= v < 2 ^ 32 ->
  set_op to_set k v 0xFFFFFFFF = if to_set then 0xFFFFFFFF else 0.
Proof.
  intros Hv. apply Z.bits_inj'. intros i Hi. destruct (Z.ltb_spec i 32).
  - rewrite testbit_set_op by lia. change 0xFFFFFFFF with (Z.ones 32).
    rewrite Z.testbit_ones_nonneg, (proj2 (Z.ltb_lt i 32)) by lia. destruct to_set; [|by rewrite Z.bits_0].
    by rewrite Z.testbit_ones_nonneg, (proj2 (Z.ltb_lt i 32)) by lia.
  - rewrite (testbit_above 32) by (try apply set_op_range; lia). symmetry.
    apply (testbit_above 32); [destruct to_set; lia|lia].
Qed.

Lemma setup_length ba offset num : wf ba -> 0 <= offset -> 0 < num -> offset + num <= num_bits ba ->
  let bd := setup_bundle_data offset num in
  0 <= sidx bd <= eidx bd /\ eidx bd < Z.of_nat (length (bundles ba)) /\ offset + num < 2 ^ 32.
Proof.
  intros (Hnb & Hn & Hl & _) Ho Hp Hmax bd.
  destruct (setup_idx offset num Ho Hp ltac:(lia)) as (_ & He & Hse). fold bd in He, Hse.
  split_and!; [lia|lia| |lia]. rewrite He, Hl, Hn. Z.div_mod_to_equations. lia.
Qed.

Lemma set_region_spec ba offset num to_set : wf ba -> 0 <= offset -> 0 < num ->
  offset + num <= num_bits ba ->
  exists ba', set_region ba to_set (setup_bundle_data offset num) = Some ba' /\ wf ba' /\
    num_bits ba' = num_bits ba /\
    members ba' = if to_set then members ba ∪ region offset num else members ba ∖ region offset num.
Proof.
  intros Hwf Ho Hn Hmax. destruct (setup_length ba offset num Hwf Ho Hn Hmax) as (Hse & Hlen & Hlt).
  set (bd := setup_bundle_data offset num) in *.
  destruct (region_update ba bd (set_op to_set) (fun _ _ => if to_set then 0xFFFFFFFF else 0)
    (fun idx ba => set_bundle ba idx (if to_set then 0xFFFFFFFF else 0))) as (ba' & Hset & Hm); [done..| | |].
  { intros k ba' Hk Hl'. unfold upd, get_bundle.
    destruct (lookup_lt_is_Some_2 (bundles ba') (Z.to_nat k)) as [v ->]; [lia|done]. }
  { intros k v Hv. destruct Hwf as (_ & _ & _ & Hr). apply (Forall_lookup_1 _ _ _ _ Hr) in Hv.
    by rewrite set_op_all. }
  exists ba'. split; [exact Hset|].
  assert (Hop : forall k v m j, 0 <= k -> 0 <= v < 2 ^ 32 -> 0 <= m < 2 ^ 32 -> 0 <= j < 32 ->
    Z.testbit (set_op to_set k v m) j = if Z.testbit m j then to_set else Z.testbit v j)
    by (intros; by apply testbit_set_op).
  split; [apply (region_op_wf (set_op to_set) (fun _ _ => to_set) ba ba' offset num); try done; apply set_op_range|].
  pose proof (region_op_bit (set_op to_set) (fun _ _ => to_set) ba ba' offset num Hwf Ho Hn Hmax Hop
    (set_op_range to_set) Hm) as Hbit. cbn beta in Hbit.
  destruct Hm as (HA & _). split; [done|]. apply set_eq. intros i. specialize (Hbit i).
  destruct to_set; rewrite ?elem_of_union, ?elem_of_difference, !elem_of_members, HA.
  - split.
    + intros [Hi Hb]. rewrite Hbit in Hb by done. case_bool_decide; [by right|by left].
    + intros [[Hi Hb]|Hr].
      * split; [done|]. rewrite Hbit by done. by case_bool_decide.
      * pose proof Hr as Hr'. rewrite elem_of_region in Hr'. split; [lia|].
        rewrite Hbit by lia. by rewrite bool_decide_eq_true_2.
  - split.
    + intros [Hi Hb]. rewrite Hbit in Hb by done. by case_bool_decide.
    + intros [[Hi Hb] Hr]. split; [done|]. rewrite Hbit by done. by rewrite bool_decide_eq_false_2.
Qed.

(** ** Matching of regions *)

(** The bits of [v] under the mask that differ from what is looked for. *)
Definition miss (match_set : bool) (v m : Z) : Z :=
  Z.land (u32 (Z.lnot (if match_set then v else u32 (Z.lnot v)))) m.

Lemma testbit_miss match_set v m j : 0 <= j < 32 ->
  Z.testbit (miss match_set v m) j = Z.testbit m j && xorb (Z.testbit v j) match_set.
Proof.
  intros Hj. unfold miss. rewrite Z.land_spec, testbit_wrap_u, Z.lnot_spec, (proj2 (Z.ltb_lt j 32)) by lia.
  cbn [andb]. rewrite andb_comm. f_equal. destruct match_set.
  - by rewrite xorb_true_r.
  - rewrite testbit_wrap_u, Z.lnot_spec, (proj2 (Z.ltb_lt j 32)) by lia. cbn [andb].
    by rewrite negb_involutive, xorb_false_r.
Qed.

Lemma miss_range match_set v m : 0 <= m < 2 ^ 32 -> 0 <= miss match_set v m < 2 ^ 32.
Proof.
  intros Hm. rewrite <- (wrap_u_bits 32 (miss _ _ _)); [apply wrap_u_range; lia|lia|].
  intros i Hi. unfold miss. rewrite Z.land_spec, (testbit_above 32 m) by lia. apply andb_false_r.
Qed.

Lemma bits_eq_0 x : 0 <= x < 2 ^ 32 -> (x = 0 <-> forall j, 0 <= j < 32 -> Z.testbit x j = false).
Proof.
  intros Hx. split; [intros -> j _; apply Z.bits_0|]. intros H. apply Z.bits_inj'. intros i Hi.
  rewrite Z.bits_0. destruct (Z.ltb_spec i 32); [by apply H|]. by apply (testbit_above 32).
Qed.

(** The comparison in the code. *)
Lemma miss_eqb (match_set : bool) v m : 0 <= m < 2 ^ 32 ->
  negb (Z.land (if match_set then v else u32 (Z.lnot v)) m =? m) = negb (miss match_set v m =? 0).
Proof.
  intros Hm. f_equal. apply eq_true_iff_eq. rewrite !Z.eqb_eq, (bits_eq_0 _ (miss_range _ _ _ Hm)).
  set (b := if match_set then v else u32 (Z.lnot v)).
  assert (Hb : forall j, 0 <= j < 32 -> Z.testbit b j = negb (xorb (Z.testbit v j) match_set)).
  { intros j Hj. unfold b. destruct match_set; [by rewrite xorb_true_r, negb_involutive|].
    rewrite testbit_wrap_u, Z.lnot_spec, (proj2 (Z.ltb_lt j 32)) by lia. by rewrite xorb_false_r. }
  split.
  - intros Heq j Hj. rewrite testbit_miss by done.
    assert (Hj' : Z.testbit b j && Z.testbit m j = Z.testbit m j) by (by rewrite <- Z.land_spec, Heq).
    rewrite Hb in Hj' by done. destruct (Z.testbit m j), (xorb _ _); done.
  - intros H. apply Z.bits_inj'. intros j Hj. rewrite Z.land_spec. destruct (Z.ltb_spec j 32).
    + specialize (H j ltac:(lia)). rewrite testbit_miss in H by lia. rewrite Hb by lia.
      destruct (Z.testbit m j), (xorb _ _); done.
    + by rewrite (testbit_above 32 m), andb_false_r by lia.
Qed.

Lemma miss_all (match_set : bool) v : 0 <= v < 2 ^ 32 ->
  (if match_set then u32 (Z.lnot v) else v) = miss match_set v 0xFFFFFFFF.
Proof.
  intros Hv. apply Z.bits_inj'. intros j Hj. destruct (Z.ltb_spec j 32).
  - rewrite testbit_miss by lia. change 0xFFFFFFFF with (Z.ones 32).
    rewrite Z.testbit_ones_nonneg, (proj2 (Z.ltb_lt j 32)) by lia. cbn [andb]. destruct match_set.
    + rewrite testbit_wrap_u, Z.lnot_spec, (proj2 (Z.ltb_lt j 32)) by lia. by rewrite xorb_true_r.
    + by rewrite xorb_false_r.
  - rewrite (testbit_above 32 (miss _ _ _)) by (try apply miss_range; lia).
    apply (testbit_above 32); [destruct match_set; [apply wrap_u_range; lia|done]|done].
Qed.

(** What a comparison of bundles [lo] to [hi] finds. *)
Definition compared (ba : sys_bitarray) (match_set : bool) (msk : Z -> Z) (lo hi : Z)
    (r : option (Z * Z)) : Prop :=
  match r with
  | None => forall k v, lo <= k <= hi -> bundles ba !! Z.to_nat k = Some v -> miss match_set v (msk k) = 0
  | Some (mb, idx) => lo <= idx <= hi /\ mb <> 0 /\
      exists v, bundles ba !! Z.to_nat idx = Some v /\ mb = miss match_set v (msk idx)
  end.

Lemma match_between_spec n idx ba match_set : wf ba -> 0 <= idx ->
  idx + Z.of_nat n <= Z.of_nat (length (bundles ba)) ->
  exists r, match_between n idx ba match_set = Some r /\
    compared ba match_set (fun _ => 0xFFFFFFFF) idx (idx + Z.of_nat n - 1) r.
Proof.
  intros Hwf. revert idx. induction n as [|n IH]; intros idx Hi Hl; cbn [match_between].
  - exists None. split; [done|]. intros k v Hk. lia.
  - unfold get_bundle. destruct (lookup_lt_is_Some_2 (bundles ba) (Z.to_nat idx)) as [v Hv]; [lia|].
    rewrite Hv. cbn [mbind option_bind]. pose proof Hwf as (_ & _ & _ & Hr).
    pose proof (Forall_lookup_1 _ _ _ _ Hr Hv) as Hvr. cbn in Hvr. rewrite miss_all by done.
    destruct (Z.eqb_spec (miss match_set v 0xFFFFFFFF) 0) as [H0|H0]; cbn [negb].
    + destruct (IH (idx + 1)) as (r & -> & Hc); [lia|lia|]. exists r. split; [done|].
      replace (idx + Z.of_nat (S n) - 1) with (idx + 1 + Z.of_nat n - 1) by lia.
      destruct r as [[mb k]|].
      * destruct Hc as (? & ? & ?). split; [lia|]. done.
      * intros k u Hk Hu. destruct (decide (k = idx)) as [->|]; [congruence|]. apply (Hc k u); [lia|done].
    + eexists. split; [done|]. split; [lia|]. split; [done|]. eauto.
Qed.

Lemma match_bundles_spec ba offset num match_set : wf ba -> 0 <= offset -> 0 < num ->
  offset + num <= num_bits ba ->
  let bd := setup_bundle_data offset num in
  exists r, match_bundles ba bd match_set = Some r /\
    compared ba match_set (mask bd) (sidx bd) (eidx bd) r.
Proof.
  intros Hwf Ho Hn Hmax bd. destruct (setup_length ba offset num Hwf Ho Hn Hmax) as (Hse & Hlen & Hlt). fold bd in Hse, Hlen.
  assert (Hmr : forall k, 0 <= mask bd k < 2 ^ 32) by (intros; by apply mask_range).
  assert (Hsm : smask bd = mask bd (sidx bd)) by (unfold mask; by rewrite Z.eqb_refl).
  unfold match_bundles, get_bundle.
  destruct (lookup_lt_is_Some_2 (bundles ba) (Z.to_nat (sidx bd))) as [v Hv]; [lia|].
  destruct (lookup_lt_is_Some_2 (bundles ba) (Z.to_nat (eidx bd))) as [w Hw]; [lia|].
  rewrite Hv, Hw. cbn [mbind option_bind]. rewrite Hsm, miss_eqb by done. fold (miss match_set v (mask bd (sidx bd))).
  destruct (Z.eqb_spec (miss match_set v (mask bd (sidx bd))) 0) as [H0|H0]; cbn [negb].
  2: { eexists. split; [done|]. split; [lia|]. split; [done|]. eauto. }
  destruct (Z.eqb_spec (sidx bd) (eidx bd)) as [Heq|Hneq].
  { exists None. split; [done|]. intros k u Hk Hu. replace k with (sidx bd) in * by lia. congruence. }
  assert (Hem : emask bd = mask bd (eidx bd)).
  { unfold mask. by rewrite Z.eqb_refl, (proj2 (Z.eqb_neq (eidx bd) (sidx bd))) by lia. }
  rewrite Hem, miss_eqb by done. fold (miss match_set w (mask bd (eidx bd))).
  destruct (Z.eqb_spec (miss match_set w (mask bd (eidx bd))) 0) as [H1|H1]; cbn [negb].
  2: { eexists. split; [done|]. split; [lia|]. split; [done|]. eauto. }
  destruct (match_between_spec (Z.to_nat (eidx bd - sidx bd - 1)) (sidx bd + 1) ba match_set Hwf)
    as (r & -> & Hc); [lia|lia|].
  replace (sidx bd + 1 + Z.of_nat (Z.to_nat (eidx bd - sidx bd - 1)) - 1) with (eidx bd - 1) in Hc by lia.
  assert (Hmid : forall k, sidx bd + 1 <= k <= eidx bd - 1 -> mask bd k = 0xFFFFFFFF).
  { intros k Hk. unfold mask. rewrite !(proj2 (Z.eqb_neq k _)), !(proj2 (Z.ltb_lt _ _)) by lia. done. }
  exists r. split; [done|]. destruct r as [[mb k]|].
  - destruct Hc as (Hk & Hne & u & Hu & Hmb). split; [lia|]. split; [done|]. exists u.
    by rewrite Hmid.
  - intros k u Hk Hu. destruct (decide (k = sidx bd)) as [->|]; [congruence|].
    destruct (decide (k = eidx bd)) as [->|]; [congruence|]. rewrite Hmid by lia. apply (Hc k u); [lia|done].
Qed.

Lemma find_lsb_from_spec n b op : 0 <= b -> (exists j, b <= j < b + Z.of_nat n /\ Z.testbit op j = true) ->
  let r := find_lsb_from n b op - 1 in
  b <= r < b + Z.of_nat n /\ Z.testbit op r = true /\ forall i, b <= i < r -> Z.testbit op i = false.
Proof.
  revert b. induction n as [|n IH]; intros b Hb (j & Hj & Ht); [lia|]. cbn [find_lsb_from].
  rewrite Z.shiftl_1_l, (land_pow2_eqb op _ b) by lia. destruct (Z.testbit op b) eqn:Hbit.
  - cbn zeta. replace (b + 1 - 1) with b by lia. split; [lia|]. split; [done|]. lia.
  - destruct (IH (b + 1)) as (H1 & H2 & H3); [lia|exists j; split; [|done]|].
    { destruct (decide (j = b)) as [->|]; [congruence|lia]. }
    split; [lia|]. split; [done|]. intros i Hi. destruct (decide (i = b)) as [->|]; [done|]. apply H3. lia.
Qed.

Lemma find_lsb_set_spec op : 0 <= op < 2 ^ 32 -> op <> 0 ->
  0 <= find_lsb_set op - 1 < 32 /\ Z.testbit op (find_lsb_set op - 1) = true /\
  forall i, 0 <= i < find_lsb_set op - 1 -> Z.testbit op i = false.
Proof.
  intros Hop Hne. unfold find_lsb_set. rewrite (proj2 (Z.eqb_neq op 0)) by done.
  destruct (find_lsb_from_spec 32 0 op) as (H1 & H2 & H3); [lia| |done].
  exists (Z.log2 op). split; [|apply Z.bit_log2; lia].
  pose proof (Z.log2_nonneg op). assert (Z.log2 op < 32) by (apply Z.log2_lt_pow2; lia). lia.
Qed.

(** Position [32 k + j] is bit [j] of bundle [k]. *)
Lemma position k j : 0 <= k -> 0 <= j < 32 -> (32 * k + j) / 32 = k /\ (32 * k + j) mod 32 = j.
Proof. intros. Z.div_mod_to_equations. lia. Qed.

Lemma bit_at_position ba k j v : 0 <= k -> 0 <= j < 32 -> bundles ba !! Z.to_nat k = Some v ->
  bit_at ba (32 * k + j) = Z.testbit v j.
Proof. intros Hk Hj Hv. unfold bit_at. destruct (position k j Hk Hj) as [-> ->]. by rewrite Hv. Qed.

Section Match.
Context (ba : sys_bitarray) (offset num : Z) (match_set : bool).
Context (Hwf : wf ba) (Ho : 0 <= offset) (Hn : 0 < num) (Hmax : offset + num <= num_bits ba).
Let bd := setup_bundle_data offset num.

(** All bits of the region are as looked for. *)
Definition matching : Prop :=
  if match_set then region offset num ⊆ members ba else region offset num ## members ba.

Lemma matching_bits : matching <-> forall i, offset <= i < offset + num -> bit_at ba i = match_set.
Proof using Hwf Ho Hn Hmax.
  unfold matching. destruct match_set.
  - split.
    + intros H i Hi. assert (Hm : i ∈ members ba) by (apply H; by rewrite elem_of_region).
      by apply elem_of_members in Hm as [_ ?].
    + intros H i Hi%elem_of_region. apply elem_of_members. split; [lia|by apply H].
  - split.
    + intros H i Hi. destruct (bit_at ba i) eqn:Hb; [|done]. exfalso. apply (H i).
      * by rewrite elem_of_region.
      * apply elem_of_members. split; [lia|done].
    + intros H i Hi%elem_of_region [_ Hb]%elem_of_members. by rewrite H in Hb.
Qed.

Lemma compared_none : compared ba match_set (mask bd) (sidx bd) (eidx bd) None -> matching.
Proof using Hwf Ho Hn Hmax.
  intros Hc. apply matching_bits. intros i Hi.
  destruct (setup_length ba offset num Hwf Ho Hn Hmax) as (Hse & Hlen & Hlt). fold bd in Hse, Hlen.
  destruct (setup_idx offset num Ho Hn Hlt) as (Hs & He & _). fold bd in Hs, He.
  destruct (bundle_of ba i Hwf) as (v & Hv & Hvr & ->); [lia|].
  pose proof (Z.mod_pos_bound i 32 ltac:(lia)). pose proof (Z.div_mod i 32 ltac:(lia)) as Hdm.
  assert (Hk : sidx bd <= i / 32 <= eidx bd).
  { rewrite Hs, He. split; apply Z.div_le_mono; lia. }
  specialize (Hc (i / 32) v Hk Hv). pose proof (testbit_miss match_set v (mask bd (i / 32)) (i mod 32)) as Hb.
  unfold bd in Hb at 2. rewrite Hc, Z.bits_0, testbit_mask, <- Hdm in Hb by (done || lia).
  rewrite (proj2 (Z.leb_le _ _)), (proj2 (Z.ltb_lt _ _)) in Hb by lia. cbn [andb] in Hb.
  specialize (Hb ltac:(lia)). by destruct (Z.testbit v (i mod 32)), match_set.
Qed.

Lemma compared_some mb idx : compared ba match_set (mask bd) (sidx bd) (eidx bd) (Some (mb, idx)) ->
  let p := find_lsb_set mb - 1 + idx * bundle_bitness in
  offset <= p < offset + num /\ bit_at ba p = negb match_set.
Proof using Hwf Ho Hn Hmax.
  intros (Hi & Hne & v & Hv & ->) p.
  destruct (setup_length ba offset num Hwf Ho Hn Hmax) as (Hse & Hlen & Hlt). fold bd in Hse, Hlen.
  destruct (find_lsb_set_spec (miss match_set v (mask bd idx))) as (Hj & Ht & _);
    [apply miss_range, mask_range; done|done|].
  set (j := find_lsb_set (miss match_set v (mask bd idx)) - 1) in *.
  replace p with (32 * idx + j) by (unfold p, bundle_bitness; lia).
  rewrite (bit_at_position ba idx j v) by (done || lia).
  rewrite testbit_miss in Ht by done. apply andb_prop in Ht as [Hm Hx].
  unfold bd in Hm. rewrite testbit_mask in Hm by (done || lia). bool_to_prop.
  split; [lia|]. by destruct (Z.testbit v j), match_set.
Qed.

Lemma match_region_spec :
  exists b, match_region ba offset num match_set = Some (bd, b) /\ (b = true <-> matching).
Proof using Hwf Ho Hn Hmax.
  unfold match_region.
  destruct (match_bundles_spec ba offset num match_set Hwf Ho Hn Hmax) as (r & -> & Hc). cbn [mbind option_bind].
  eexists. split; [done|]. destruct r as [[mb idx]|].
  - apply compared_some in Hc as [Hp Hb]. split; [done|]. intros Hm. rewrite matching_bits in Hm.
    rewrite Hm in Hb by done. by destruct match_set.
  - split; [|done]. intros _. by apply compared_none.
Qed.

Lemma match_region_at_spec :
  exists r, match_region_at ba offset num match_set = Some (bd, r) /\
    match r with
    | None => matching
    | Some p => offset <= p < offset + num /\ bit_at ba p = negb match_set
    end.
Proof using Hwf Ho Hn Hmax.
  unfold match_region_at.
  destruct (match_bundles_spec ba offset num match_set Hwf Ho Hn Hmax) as (r & -> & Hc). cbn [mbind option_bind].
  destruct r as [[mb idx]|].
  - pose proof Hc as (_ & Hne & _). rewrite (proj2 (Z.eqb_neq mb 0)) by done.
    apply compared_some in Hc as [Hp Hb]. eexists. split; [done|].
    destruct Hwf as (Hnb & _). rewrite wrap_u_small by lia. done.
  - eexists. split; [done|]. by apply compared_none.
Qed.
End Match.

(** ** Allocation *)

(** The first offset at which a region of [num] bits is free. *)
Definition first_fit (X : gset Z) (n num : Z) : option Z :=
  head (filter (fun o => region o num ## X) (seqZ 0 (n - num + 1))).

Lemma filter_none {A} (P : A -> Prop) `{!forall x, Decision (P x)} l :
  (forall x, x ∈ l -> ~ P x) -> filter P l = [].
Proof.
  induction l as [|x l IH]; intros Hl; [done|]. rewrite filter_cons_False by (apply Hl; by left).
  apply IH. intros y Hy. apply Hl. by right.
Qed.

Lemma first_fit_none X n num : (forall o, 0 <= o <= n - num -> ~ region o num ## X) -> first_fit X n num = None.
Proof.
  intros H. unfold first_fit. rewrite filter_none; [done|].
  intros o Ho%elem_of_seqZ. apply H. lia.
Qed.

Lemma first_fit_some X n num b : 0 <= b <= n - num -> region b num ## X ->
  (forall o, 0 <= o < b -> ~ region o num ## X) -> first_fit X n num = Some b.
Proof.
  intros Hb Hd H. unfold first_fit. replace (n - num + 1) with (b + (n - num + 1 - b)) by lia.
  rewrite (seqZ_app 0 b), filter_app, filter_none by
    (try (intros o Ho%elem_of_seqZ; apply H); lia).
  rewrite seqZ_cons, filter_cons_True by (done || lia). done.
Qed.

Lemma skip_full_spec n idx ba : wf ba -> 0 <= idx -> idx + Z.of_nat n = num_bundles ba ->
  (forall i, 0 <= i < 32 * idx -> bit_at ba i = true) ->
  exists b, skip_full n idx ba (u32 (32 * idx)) = Some b /\ 0 <= b < 2 ^ 32 /\
    forall i, 0 <= i < b -> bit_at ba i = true.
Proof.
  intros Hwf. pose proof Hwf as (Hnb & Hn & Hl & Hr). revert idx.
  induction n as [|n IH]; intros idx Hi Hidx Hfull; cbn [skip_full].
  - exists (u32 (32 * idx)). split; [done|]. split; [apply wrap_u_range; lia|].
    intros i Hii. apply Hfull. pose proof (Z.mod_le (32 * idx) (2 ^ 32)). unfold wrap_u in Hii. lia.
  - assert (32 * idx + 32 <= 2 ^ 32) by (rewrite Hn in Hidx; Z.div_mod_to_equations; lia).
    unfold get_bundle. destruct (lookup_lt_is_Some_2 (bundles ba) (Z.to_nat idx)) as [v Hv]; [lia|].
    rewrite Hv. cbn [mbind option_bind]. pose proof (Forall_lookup_1 _ _ _ _ Hr Hv) as Hvr. cbn in Hvr.
    assert (Hnot : forall j, 0 <= j < 32 -> Z.testbit (u32 (Z.lnot v)) j = negb (Z.testbit v j)).
    { intros j Hj. by rewrite testbit_wrap_u, Z.lnot_spec, (proj2 (Z.ltb_lt j 32)) by lia. }
    assert (Hpos : forall i, 32 * idx <= i < 32 * idx + 32 -> bit_at ba i = Z.testbit v (i - 32 * idx)).
    { intros i Hii. rewrite <- (bit_at_position ba idx (i - 32 * idx) v) by (done || lia). f_equal. lia. }
    destruct (Z.eqb_spec (u32 (Z.lnot v)) 0) as [H0|H0].
    + replace (u32 (u32 (32 * idx) + bundle_bitness)) with (u32 (32 * (idx + 1))).
      * apply IH; [lia|lia|]. intros i Hii. destruct (decide (i < 32 * idx)); [apply Hfull; lia|].
        rewrite Hpos by lia. specialize (Hnot (i - 32 * idx) ltac:(lia)).
        rewrite H0, Z.bits_0 in Hnot. by destruct (Z.testbit v (i - 32 * idx)).
      * unfold bundle_bitness. rewrite (wrap_u_small 32 (32 * idx)) by lia. f_equal. lia.
    + rewrite (wrap_u_small 32 (32 * idx)) by lia.
      destruct (find_lsb_set_spec (u32 (Z.lnot v))) as (Hj & Ht & Hlow); [apply wrap_u_range; lia|done|].
      destruct (Z.eqb_spec v 0); cbn [negb].
      * exists (32 * idx). split; [done|]. split; [lia|]. done.
      * eexists. split; [done|]. rewrite wrap_u_small by lia. split; [lia|]. intros i Hii.
        destruct (decide (i < 32 * idx)); [apply Hfull; lia|]. rewrite Hpos by lia.
        specialize (Hlow (i - 32 * idx) ltac:(lia)). rewrite Hnot in Hlow by lia.
        by destruct (Z.testbit v (i - 32 * idx)).
Qed.

(** The result of the search, for an array in state [ba]. *)
Definition alloc_result (ba : sys_bitarray) (num : Z) (r : Z * option Z * sys_bitarray) : Prop :=
  match first_fit (members ba) (num_bits ba) num with
  | None => r = (- ENOSPC, None, ba)
  | Some o => exists ba', r = (0, Some o, ba') /\ wf ba' /\ num_bits ba' = num_bits ba /\
      members ba' = members ba ∪ region o num
  end.

Lemma alloc_search_spec fuel ba num b : wf ba -> 0 < num <= num_bits ba -> 0 <= b ->
  (forall o, 0 <= o < b -> o <= num_bits ba - num -> ~ region o num ## members ba) ->
  num_bits ba - num - b + 1 < Z.of_nat fuel -> (0 < fuel)%nat ->
  exists r, alloc_search fuel ba num (num_bits ba - num) b = Some r /\ alloc_result ba num r.
Proof.
  intros Hwf Hnum. revert b. induction fuel as [|fuel IH]; intros b Hb Hbad Hf Hpos; [lia|].
  cbn [alloc_search]. destruct (Z.leb_spec b (num_bits ba - num)) as [Hle|Hgt].
  - destruct (match_region_at_spec ba b num false Hwf) as (r & -> & Hr); [lia..|]. cbn [mbind option_bind].
    destruct r as [p|].
    + destruct Hr as [Hp Hbit]. destruct Hwf as (Hnb & Hrest). rewrite wrap_u_small by lia.
      apply IH; [lia| |lia|lia]. intros o Ho Hoe. destruct (decide (o < b)); [apply Hbad; lia|].
      intros Hd. apply (Hd p); [apply elem_of_region; lia|apply elem_of_members; split; [lia|done]].
    + destruct (set_region_spec ba b num true Hwf) as (ba' & -> & Hwf' & Hn' & Hm); [lia..|].
      cbn [mbind option_bind]. eexists. split; [done|]. unfold alloc_result.
      rewrite (first_fit_some _ _ _ b); [|lia|done|intros o Ho; apply Hbad; lia]. eauto.
  - eexists. split; [done|]. unfold alloc_result. rewrite first_fit_none; [done|].
    intros o Ho. apply Hbad; lia.
Qed.

Lemma sys_bitarray_alloc_spec ba num : wf ba -> 0 < num <= num_bits ba ->
  exists r, sys_bitarray_alloc ba num = Some r /\ alloc_result ba num r.
Proof.
  intros Hwf Hnum. unfold sys_bitarray_alloc.
  rewrite (proj2 (Z.eqb_neq num 0)), Z.gtb_ltb, (proj2 (Z.ltb_ge _ _)) by lia. cbn [orb].
  pose proof Hwf as (Hnb & Hn & Hl & Hr).
  destruct (skip_full_spec (Z.to_nat (num_bundles ba)) 0 ba Hwf) as (b & Hs & Hb & Hfull);
    [lia|lia|lia|]. change (u32 (32 * 0)) with 0 in Hs. rewrite Hs. cbn [mbind option_bind].
  apply alloc_search_spec; [done|done|lia| |lia|lia]. intros o Ho Hoe Hd.
  apply (Hd o); [apply elem_of_region; lia|apply elem_of_members; split; [lia|by apply Hfull]].
Qed.

(** ** Counting *)

(** The positions of the bits of bundle [k] under a mask. *)
Definition positions (k v m : Z) : list Z :=
  (Z.add (32 * k)) <$> filter (fun j => Z.testbit (Z.land v m) j = true) (seqZ 0 32).

Lemma positions_length k v m : Z.of_nat (length (positions k v m)) = POPCOUNT (Z.land v m).
Proof. unfold positions, POPCOUNT. by rewrite length_fmap. Qed.

Lemma filter_concat {A} (P : A -> Prop) `{!forall x, Decision (P x)} ls :
  filter P (concat ls) = concat (filter P <$> ls).
Proof. induction ls as [|l ls IH]; [done|]. cbn. by rewrite filter_app, IH. Qed.

Lemma filter_fmap {A B} (f : A -> B) (P : B -> Prop) `{!forall x, Decision (P x)} (l : list A) :
  filter P (f <$> l) = f <$> filter (fun x => P (f x)) l.
Proof.
  induction l as [|x l IH]; [done|]. cbn [fmap list_fmap]. rewrite !filter_cons.
  destruct (decide (P (f x))); cbn; by rewrite <- IH.
Qed.

Lemma seqZ_shift m n : seqZ m n = Z.add m <$> seqZ 0 n.
Proof.
  unfold seqZ. rewrite <- list_fmap_compose. apply list_fmap_ext. intros i x _. unfold compose. lia.
Qed.

Lemma seqZ_blocks s n : 0 <= n ->
  seqZ (32 * s) (32 * n) = concat ((fun k => seqZ (32 * k) 32) <$> seqZ s n).
Proof.
  intros Hn. rewrite <- (Z2Nat.id n) by lia. generalize (Z.to_nat n) as m. clear n Hn. intros m.
  revert s. induction m as [|m IH]; intros s; [done|].
  replace (32 * Z.of_nat (S m)) with (32 + 32 * Z.of_nat m) by lia.
  rewrite seqZ_app by lia. rewrite (seqZ_cons s) by lia. cbn [fmap list_fmap concat]. f_equal.
  replace (32 * s + 32) with (32 * Z.succ s) by lia.
  replace (Z.pred (Z.of_nat (S m))) with (Z.of_nat m) by lia. apply IH.
Qed.

Section Count.
Context (ba : sys_bitarray) (offset num : Z).
Context (Hwf : wf ba) (Ho : 0 <= offset) (Hn : 0 < num) (Hmax : offset + num <= num_bits ba).
Let bd := setup_bundle_data offset num.
Let P (k : Z) : list Z := positions k (bundles ba !!! Z.to_nat k) (mask bd k).

Lemma filter_block k : 0 <= k < Z.of_nat (length (bundles ba)) ->
  filter (fun i => (offset <= i < offset + num) /\ bit_at ba i = true) (seqZ (32 * k) 32) = P k.
Proof using Hwf Ho Hn Hmax.
  intros Hk. destruct (setup_length ba offset num Hwf Ho Hn Hmax) as (_ & _ & Hlt).
  destruct (lookup_lt_is_Some_2 (bundles ba) (Z.to_nat k)) as [v Hv]; [lia|].
  rewrite seqZ_shift, filter_fmap. unfold P, positions. f_equal. apply filter_ext_in.
  intros j Hj%elem_of_seqZ. rewrite (list_lookup_total_correct _ _ _ Hv).
  rewrite (bit_at_position ba k j v) by (done || lia). rewrite Z.land_spec, andb_true_iff.
  unfold bd. rewrite testbit_mask by (done || lia). rewrite andb_true_iff, Z.leb_le, Z.ltb_lt. tauto.
Qed.

Lemma positions_region :
  filter (fun i => i ∈ members ba) (seqZ offset num) = concat (P <$> seqZ (sidx bd) (eidx bd - sidx bd + 1)).
Proof using Hwf Ho Hn Hmax.
  destruct (setup_length ba offset num Hwf Ho Hn Hmax) as (Hse & Hlen & Hlt). fold bd in Hse, Hlen.
  destruct (setup_idx offset num Ho Hn Hlt) as (Hs & He & _). fold bd in Hs, He.
  set (Q := fun i => (offset <= i < offset + num) /\ bit_at ba i = true).
  transitivity (filter Q (seqZ (32 * sidx bd) (32 * (eidx bd - sidx bd + 1)))).
  - set (a := offset - 32 * sidx bd). set (c := 32 * (eidx bd + 1) - (offset + num)).
    assert (Ha : 0 <= a /\ 0 <= c) by (unfold a, c; rewrite Hs, He; Z.div_mod_to_equations; lia).
    replace (32 * (eidx bd - sidx bd + 1)) with (a + (num + c)) by (unfold a, c; lia).
    rewrite !seqZ_app, !filter_app by lia. replace (32 * sidx bd + a) with offset by (unfold a; lia).
    rewrite (filter_none Q (seqZ (32 * _) _)), (filter_none Q (seqZ (offset + num) _)), app_nil_r.
    + apply filter_ext_in. intros i Hi%elem_of_seqZ. unfold Q. rewrite elem_of_members. naive_solver lia.
    + intros i Hi%elem_of_seqZ. unfold Q. lia.
    + intros i Hi%elem_of_seqZ. unfold Q, a in *. lia.
  - rewrite seqZ_blocks, filter_concat, <- list_fmap_compose by lia. f_equal.
    apply list_fmap_ext. intros n k Hk%list_elem_of_lookup_2%elem_of_seqZ. unfold compose. apply filter_block. lia.
Qed.

Lemma positions_single : sidx bd = eidx bd -> concat (P <$> seqZ (sidx bd) (eidx bd - sidx bd + 1)) = P (sidx bd).
Proof using.
  intros Heq. rewrite <- Heq, Z.sub_diag, seqZ_cons, seqZ_nil by lia.
  cbn [fmap list_fmap concat]. apply app_nil_r.
Qed.

Lemma positions_split : sidx bd < eidx bd ->
  concat (P <$> seqZ (sidx bd) (eidx bd - sidx bd + 1)) =
  P (sidx bd) ++ concat (P <$> seqZ (sidx bd + 1) (eidx bd - sidx bd - 1)) ++ P (eidx bd).
Proof using.
  intros Hlt. rewrite seqZ_cons by lia. cbn [fmap list_fmap concat]. f_equal.
  replace (Z.pred (eidx bd - sidx bd + 1)) with ((eidx bd - sidx bd - 1) + 1) by lia.
  rewrite seqZ_app by lia. rewrite fmap_app, concat_app. f_equal.
  replace (Z.succ (sidx bd) + (eidx bd - sidx bd - 1)) with (eidx bd) by lia.
  rewrite seqZ_cons, seqZ_nil by lia. cbn [fmap list_fmap concat]. apply app_nil_r.
Qed.

Lemma get_bundle_total k : 0 <= k < Z.of_nat (length (bundles ba)) ->
  get_bundle ba k = Some (bundles ba !!! Z.to_nat k) /\ 0 <= bundles ba !!! Z.to_nat k < 2 ^ 32.
Proof using Hwf.
  intros Hk. unfold get_bundle. destruct (lookup_lt_is_Some_2 (bundles ba) (Z.to_nat k)) as [v Hv]; [lia|].
  rewrite (list_lookup_total_correct _ _ _ Hv). split; [done|].
  destruct Hwf as (_ & _ & _ & Hr). exact (Forall_lookup_1 _ _ _ _ Hr Hv).
Qed.

(** A bundle between the first and the last belongs to the region as a whole. *)
Lemma positions_between k : sidx bd < k < eidx bd ->
  P k = positions k (bundles ba !!! Z.to_nat k) 0xFFFFFFFF /\
  Z.of_nat (length (P k)) = POPCOUNT (bundles ba !!! Z.to_nat k).
Proof using Hwf Ho Hn Hmax.
  intros Hk. destruct (setup_length ba offset num Hwf Ho Hn Hmax) as (Hse & Hlen & Hlt). fold bd in Hse, Hlen.
  assert (Hm : mask bd k = 0xFFFFFFFF).
  { unfold mask. by rewrite !(proj2 (Z.eqb_neq k _)), !(proj2 (Z.ltb_lt _ _)) by lia. }
  unfold P. rewrite Hm. split; [done|]. rewrite positions_length. f_equal.
  destruct (get_bundle_total k) as [_ Hv]; [lia|]. rewrite (land_ones_wrap _ _ 32) by lia. by apply wrap_u_small.
Qed.

Lemma popcount_between_spec n idx count : sidx bd < idx -> idx + Z.of_nat n <= eidx bd -> 0 <= count ->
  count + Z.of_nat (length (concat (P <$> seqZ idx (Z.of_nat n)))) < 2 ^ 32 ->
  popcount_between n idx ba count = Some (count + Z.of_nat (length (concat (P <$> seqZ idx (Z.of_nat n))))).
Proof using Hwf Ho Hn Hmax.
  destruct (setup_length ba offset num Hwf Ho Hn Hmax) as (Hse & Hlen & Hlt). fold bd in Hse, Hlen.
  revert idx count. induction n as [|n IH]; intros idx count Hi Hle Hc Hsum; cbn [popcount_between].
  { rewrite seqZ_nil by lia. cbn [fmap list_fmap concat length]. f_equal. lia. }
  destruct (get_bundle_total idx) as [-> Hv]; [lia|]. cbn [mbind option_bind].
  destruct (positions_between idx) as [_ Hp]; [lia|]. rewrite <- Hp.
  rewrite seqZ_cons in Hsum |- * by lia. cbn [fmap list_fmap concat] in Hsum |- *. rewrite length_app in Hsum |- *.
  replace (Z.pred (Z.of_nat (S n))) with (Z.of_nat n) in * by lia. rewrite <- Z.add_1_r in *.
  rewrite wrap_u_small by lia. rewrite IH by lia. f_equal. lia.
Qed.

Lemma smask_mask : smask bd = mask bd (sidx bd).
Proof using. unfold mask. by rewrite Z.eqb_refl. Qed.

Lemma emask_mask : sidx bd <> eidx bd -> emask bd = mask bd (eidx bd).
Proof using. intros. unfold mask. by rewrite Z.eqb_refl, (proj2 (Z.eqb_neq (eidx bd) _)) by lia. Qed.

Lemma popcount_region_spec :
  sys_bitarray_popcount_region ba num offset =
  Some (0, Some (Z.of_nat (length (filter (fun i => i ∈ members ba) (seqZ offset num))))).
Proof using Hwf Ho Hn Hmax.
  destruct (setup_length ba offset num Hwf Ho Hn Hmax) as (Hse & Hlen & Hlt). fold bd in Hse, Hlen.
  pose proof (length_filter (fun i => i ∈ members ba) (seqZ offset num)) as Hle. rewrite length_seqZ in Hle.
  unfold sys_bitarray_popcount_region. fold bd.
  rewrite (proj2 (Z.eqb_neq num 0)), wrap_u_small, Z.gtb_ltb, (proj2 (Z.ltb_ge _ _)) by lia. cbn [orb].
  destruct (get_bundle_total (sidx bd)) as [-> _]; [lia|]. cbn [mbind option_bind].
  rewrite smask_mask, <- (positions_length (sidx bd)). rewrite positions_region in Hle |- *. fold bd P in Hle |- *.
  destruct (Z.eqb_spec (sidx bd) (eidx bd)) as [Heq|Hne]; [by rewrite positions_single by done|].
  destruct (get_bundle_total (eidx bd)) as [-> _]; [lia|]. cbn [mbind option_bind].
  rewrite emask_mask, <- (positions_length (eidx bd)) by done. fold (P (sidx bd)) (P (eidx bd)).
  rewrite positions_split, !length_app in Hle |- * by lia. unfold between.
  rewrite wrap_u_small by lia. rewrite popcount_between_spec; rewrite ?Z2Nat.id by lia; [|lia..].
  cbn [mbind option_bind]. do 3 f_equal. lia.
Qed.

(** What a search for the [n]th element of a list of positions returns. *)
Definition nth_result (l : list Z) (n : Z) : Z * option Z :=
  match l !! Z.to_nat (n - 1) with Some i => (0, Some i) | None => (1, None) end.

Lemma nth_in_bundle_spec k j v m idx n : 0 <= j -> j + Z.of_nat k <= 32 -> 1 <= n ->
  0 <= idx -> 32 * idx + 32 <= 2 ^ 32 ->
  nth_in_bundle k j v m idx n =
  nth_result (Z.add (32 * idx) <$> filter (fun j => Z.testbit (Z.land v m) j = true) (seqZ j (Z.of_nat k))) n.
Proof using.
  revert j n. induction k as [|k IH]; intros j n Hj Hk Hn1 Hi Hmx; cbn [nth_in_bundle].
  { rewrite seqZ_nil by lia. done. }
  rewrite (land_pow2_eqb _ _ j) by (done || unfold BIT; apply Z.shiftl_1_l).
  rewrite seqZ_cons, filter_cons by lia. rewrite <- Z.add_1_r.
  replace (Z.pred (Z.of_nat (S k))) with (Z.of_nat k) by lia.
  destruct (Z.testbit (Z.land v m) j) eqn:Hb.
  - rewrite decide_True by done. cbn [fmap list_fmap]. unfold nth_result.
    destruct (Z.leb_spec (n - 1) 0).
    + replace n with 1 by lia. unfold bundle_bitness. rewrite wrap_u_small by lia.
      change ((?x :: ?l) !! Z.to_nat (1 - 1)) with (Some x). cbn match. do 2 f_equal. lia.
    + rewrite IH by lia. unfold nth_result.
      replace (Z.to_nat (n - 1)) with (S (Z.to_nat (n - 1 - 1))) by lia. done.
  - rewrite decide_False by done. rewrite IH by lia. done.
Qed.

Lemma nth_found k m n : 0 <= k < Z.of_nat (length (bundles ba)) -> 1 <= n ->
  (v ← get_bundle ba k; Some (nth_in_bundle 32 0 v m k n)) =
  Some (nth_result (positions k (bundles ba !!! Z.to_nat k) m) n).
Proof using Hwf offset num.
  intros Hk Hn1. destruct (get_bundle_total k Hk) as [-> _]. cbn [mbind option_bind].
  destruct Hwf as (Hnb & Hnbs & Hl & _). rewrite nth_in_bundle_spec; [done|lia|lia|lia|lia|].
  rewrite Hl, Hnbs in Hk. Z.div_mod_to_equations. lia.
Qed.

Lemma nth_result_app_l l1 l2 n : 1 <= n <= Z.of_nat (length l1) -> nth_result (l1 ++ l2) n = nth_result l1 n.
Proof using. intros Hx. unfold nth_result. by rewrite lookup_app_l by lia. Qed.

Lemma nth_result_app_r l1 l2 n : Z.of_nat (length l1) < n ->
  nth_result (l1 ++ l2) n = nth_result l2 (n - Z.of_nat (length l1)).
Proof using.
  intros Hx. unfold nth_result. rewrite lookup_app_r by lia.
  by replace (Z.to_nat (n - 1) - length l1)%nat with (Z.to_nat (n - Z.of_nat (length l1) - 1)) by lia.
Qed.

Lemma nth_between_spec k idx n : sidx bd < idx -> idx + Z.of_nat k <= eidx bd -> 1 <= n ->
  exists n' r, nth_between k idx ba n = Some (n', r) /\ 1 <= n' /\
    match r with
    | Some i => sidx bd < i < eidx bd /\
        forall l, nth_result (concat (P <$> seqZ idx (Z.of_nat k)) ++ l) n = nth_result (P i) n'
    | None => forall l, nth_result (concat (P <$> seqZ idx (Z.of_nat k)) ++ l) n = nth_result l n'
    end.
Proof using Hwf Ho Hn Hmax.
  destruct (setup_length ba offset num Hwf Ho Hn Hmax) as (Hse & Hlen & Hlt). fold bd in Hse, Hlen.
  revert idx n. induction k as [|k IH]; intros idx n Hi Hk Hn1; cbn [nth_between].
  { exists n, None. rewrite seqZ_nil by lia. done. }
  destruct (get_bundle_total idx) as [-> _]; [lia|]. cbn [mbind option_bind].
  destruct (positions_between idx) as [_ Hp]; [lia|]. rewrite <- Hp, Z.geb_leb.
  rewrite seqZ_cons by lia. rewrite <- Z.add_1_r. cbn [fmap list_fmap concat].
  replace (Z.pred (Z.of_nat (S k))) with (Z.of_nat k) by lia.
  destruct (Z.leb_spec n (Z.of_nat (length (P idx)))).
  - exists n, (Some idx). split; [done|]. split; [done|]. split; [lia|]. intros l.
    rewrite <- app_assoc. apply nth_result_app_l. lia.
  - destruct (IH (idx + 1) (n - Z.of_nat (length (P idx)))) as (n' & r & Hb & Hn' & Hr); [lia..|].
    exists n', r. split; [done|]. split; [done|]. destruct r as [i|].
    + destruct Hr as [Hii Hr]. split; [done|]. intros l. rewrite <- app_assoc, nth_result_app_r by lia. apply Hr.
    + intros l. rewrite <- app_assoc, nth_result_app_r by lia. apply Hr.
Qed.

Lemma find_nth_set_spec n : 1 <= n ->
  sys_bitarray_find_nth_set ba n num offset =
  Some (nth_result (filter (fun i => i ∈ members ba) (seqZ offset num)) n).
Proof using Hwf Ho Hn Hmax.
  intros Hn1. destruct (setup_length ba offset num Hwf Ho Hn Hmax) as (Hse & Hlen & Hlt). fold bd in Hse, Hlen.
  unfold sys_bitarray_find_nth_set. fold bd.
  rewrite (proj2 (Z.eqb_neq n 0)), (proj2 (Z.eqb_neq num 0)), wrap_u_small, Z.gtb_ltb, (proj2 (Z.ltb_ge _ _)) by lia.
  cbn [orb]. rewrite !nth_found by lia.
  destruct (get_bundle_total (sidx bd)) as [-> _]; [lia|]. cbn [mbind option_bind].
  rewrite smask_mask, <- (positions_length (sidx bd)), Z.geb_leb. rewrite positions_region. fold bd P (P (sidx bd)).
  destruct (Z.eqb_spec (sidx bd) (eidx bd)) as [Heq|Hne]; cbn [negb].
  - rewrite positions_single by done. destruct (Z.leb_spec n (Z.of_nat (length (P (sidx bd))))); [done|].
    unfold nth_result. by rewrite lookup_ge_None_2 by lia.
  - rewrite positions_split by lia. destruct (Z.leb_spec n (Z.of_nat (length (P (sidx bd))))).
    { by rewrite nth_result_app_l by lia. }
    rewrite nth_result_app_r by lia.
    destruct (nth_between_spec (between bd) (sidx bd + 1) (n - Z.of_nat (length (P (sidx bd)))))
      as (n' & r & -> & Hn' & Hr); [lia|unfold between; lia|lia|]. cbn [mbind option_bind].
    unfold between in Hr. rewrite Z2Nat.id in Hr by lia. destruct r as [i|].
    + destruct Hr as [Hi ->]. rewrite nth_found by lia. f_equal.
      destruct (positions_between i Hi) as [-> _]. done.
    + rewrite Hr. pose proof (nth_found (eidx bd) (mask bd (eidx bd)) n' ltac:(lia) Hn') as Hf.
      destruct (get_bundle_total (eidx bd)) as [Hg _]; [lia|]. rewrite Hg in *. cbn [mbind option_bind] in *.
      rewrite emask_mask, <- (positions_length (eidx bd)), Z.geb_leb by done. fold (P (eidx bd)).
      destruct (Z.leb_spec n' (Z.of_nat (length (P (eidx bd))))).
      * exact Hf.
      * unfold nth_result. by rewrite lookup_ge_None_2 by lia.
Qed.
End Count.
