(* ===== verification/BitarrayProps.v ===== *)
(** * Bit arrays: every operation on the set

    The remaining operations of lib/utils/bitarray.c on the set of the bits that are set, a
    specification of all of them on finite sets, and the refinement. *)

From S2P Require Import Prelude Timeout KState BitOps Bitarray BitarraySet.

Local Open Scope Z_scope.

(** ** Exclusive or *)

Section Xor.
Context (dst other : sys_bitarray) (offset num : Z).
Context (Hwf : wf dst) (Hwfo : wf other) (Hsame : num_bits dst = num_bits other).
Context (Ho : 0 <= offset) (Hn : 0 < num) (Hmax : offset + num <= num_bits dst).
Let bd := setup_bundle_data offset num.

(** The word of [other] beside a word of the destination. *)
Definition beside (k : Z) : Z := default 0 (bundles other !! Z.to_nat k).

Definition xor_op (k v m : Z) : Z :=
  Z.lor (Z.land (Z.lxor (beside k) v) m) (Z.land v (u32 (Z.lnot m))).

Lemma beside_range k : 0 <= beside k < 2 ^ 32.
Proof using Hwfo.
  unfold beside.
  destruct (bundles other !! Z.to_nat k) as [v|] eqn:Hv; [|done].
  destruct Hwfo as (_ & _ & _ & Hr). exact (Forall_lookup_1 _ _ _ _ Hr Hv).
Qed.

Lemma testbit_xor_op k v m j : 0 <= j < 32 ->
  Z.testbit (xor_op k v m) j = if Z.testbit m j then xorb (Z.testbit (beside k) j) (Z.testbit v j) else Z.testbit v j.
Proof using.
  intros Hj. unfold xor_op.
  rewrite Z.lor_spec, !Z.land_spec, Z.lxor_spec, testbit_wrap_u, Z.lnot_spec, (proj2 (Z.ltb_lt j 32)) by lia.
  by destruct (Z.testbit m j), (Z.testbit v j), (Z.testbit (beside k) j).
Qed.

Lemma xor_op_range k v m : 0 <= v < 2 ^ 32 -> 0 <= m < 2 ^ 32 -> 0 <= xor_op k v m < 2 ^ 32.
Proof using Hwfo.
  intros Hv Hm. rewrite <- (wrap_u_bits 32 (xor_op k v m)); [apply wrap_u_range; lia|lia|].
  intros i Hi. unfold xor_op. rewrite Z.lor_spec, !Z.land_spec.
  by rewrite (testbit_above 32 v), (testbit_above 32 m), andb_false_r by lia.
Qed.

Lemma xor_op_all k v : 0 <= v < 2 ^ 32 -> Z.lxor v (beside k) = xor_op k v 0xFFFFFFFF.
Proof using Hwfo.
  intros Hv. pose proof (beside_range k). apply Z.bits_inj'. intros i Hi. rewrite Z.lxor_spec.
  destruct (Z.ltb_spec i 32).
  - rewrite testbit_xor_op by lia. change 0xFFFFFFFF with (Z.ones 32).
    rewrite Z.testbit_ones_nonneg, (proj2 (Z.ltb_lt i 32)) by lia. apply xorb_comm.
  - rewrite (testbit_above 32 (xor_op _ _ _)) by (try apply xor_op_range; lia).
    by rewrite (testbit_above 32 v), (testbit_above 32 (beside k)) by lia.
Qed.

Lemma bit_beside k j : 0 <= k -> 0 <= j < 32 -> Z.testbit (beside k) j = bit_at other (32 * k + j).
Proof using.
  intros Hk Hj. unfold bit_at, beside. destruct (position k j Hk Hj) as [-> ->].
  destruct (bundles other !! Z.to_nat k); [done|apply Z.bits_0].
Qed.

(** The words of the region are combined as one loop over masks would. *)
Lemma xor_words : exists dst', sys_bitarray_xor dst other num offset = Some (0, dst') /\
  mapped_by (only (fun k => (sidx bd <=? k) && (k <=? eidx bd)) (fun k v => xor_op k v (mask bd k))) dst dst'.
Proof using Hwf Hwfo Hsame Ho Hn Hmax.
  destruct (setup_length dst offset num Hwf Ho Hn Hmax) as (Hse & Hlen & Hlt). fold bd in Hse, Hlen.
  assert (Hlo : length (bundles other) = length (bundles dst)).
  { destruct Hwf as (_ & N1 & L1 & _), Hwfo as (_ & N2 & L2 & _). rewrite N1, Hsame, <- N2 in L1. lia. }
  assert (Hget : forall k, 0 <= k <= eidx bd -> get_bundle other k = Some (beside k)).
  { intros k Hk. unfold get_bundle, beside. 
    destruct (lookup_lt_is_Some_2 (bundles other) (Z.to_nat k)) as [v ->]; [lia|done]. }
  destruct (region_update dst bd xor_op (fun k v => Z.lxor v (beside k))
    (fun idx dst => v ← get_bundle dst idx; o ← get_bundle other idx; set_bundle dst idx (Z.lxor v o)))
    as (dst' & Hup & Hm); [done..| | |].
  { intros k ba Hk _. unfold upd. rewrite Hget by lia. done. }
  { intros k v Hv. apply xor_op_all. destruct Hwf as (_ & _ & _ & Hr). exact (Forall_lookup_1 _ _ _ _ Hr Hv). }
  exists dst'. split; [|done]. unfold sys_bitarray_xor. fold bd.
  rewrite (proj2 (Z.eqb_eq _ _) Hsame), (proj2 (Z.eqb_neq num 0)), wrap_u_small, Z.gtb_ltb,
    (proj2 (Z.ltb_ge _ _)) by lia. cbn [negb orb].
  rewrite !Hget by lia. unfold upd in Hup. cbn [mbind option_bind] in Hup |- *.
  unfold xor_op in Hup. apply bind_Some in Hup as (d1 & -> & Hup). cbn [mbind option_bind].
  destruct (sidx bd =? eidx bd); [by simplify_eq|].
  apply bind_Some in Hup as (d2 & -> & Hup). cbn [mbind option_bind]. rewrite Hup. done.
Qed.

(** The bits of the region in which the two arrays differ. *)
Lemma sys_bitarray_xor_spec : exists dst', sys_bitarray_xor dst other num offset = Some (0, dst') /\
  wf dst' /\ num_bits dst' = num_bits dst /\
  members dst' = members dst ∖ region offset num ∪
    (members dst ∖ members other ∪ members other ∖ members dst) ∩ region offset num.
Proof using Hwf Hwfo Hsame Ho Hn Hmax.
  destruct xor_words as (dst' & Hx & Hm). exists dst'. split; [done|].
  pose (g := fun i b => xorb (bit_at other i) b).
  assert (Hop : forall k v m j, 0 <= k -> 0 <= v < 2 ^ 32 -> 0 <= m < 2 ^ 32 -> 0 <= j < 32 ->
    Z.testbit (xor_op k v m) j = if Z.testbit m j then g (32 * k + j) (Z.testbit v j) else Z.testbit v j).
  { intros k v m j Hk _ _ Hj. rewrite testbit_xor_op, bit_beside by done. done. }
  split; [by apply (region_op_wf xor_op g dst dst' offset num Hwf Ho Hn Hmax Hop xor_op_range)|].
  pose proof (region_op_bit xor_op g dst dst' offset num Hwf Ho Hn Hmax Hop xor_op_range Hm) as Hbit.
  destruct Hm as (HA & _). split; [done|]. apply set_eq. intros i.
  rewrite elem_of_union, elem_of_intersection, elem_of_union, !elem_of_difference, !elem_of_members, HA, <- Hsame.
  specialize (Hbit i). unfold g in Hbit. destruct (decide (0 <= i < num_bits dst)) as [Hi|Hi]; [|intuition].
  rewrite Hbit by done. case_bool_decide; destruct (bit_at dst i), (bit_at other i); cbn [xorb]; intuition done.
Qed.
End Xor.

(** ** Single bits *)

Section Bit.
Context (ba : sys_bitarray) (bit : Z) (Hwf : wf ba) (Hbit : 0 <= bit < num_bits ba).

Lemma bit_bounds : 0 <= bit / 32 < Z.of_nat (length (bundles ba)) /\ 0 <= bit mod 32 < 32.
Proof using Hwf Hbit.
  destruct Hwf as (_ & Hn & -> & _). rewrite Hn. pose proof (Z.mod_pos_bound bit 32). Z.div_mod_to_equations. lia.
Qed.

(** The word of the bit, and the test of the bit in it. *)
Lemma test_word : exists v, get_bundle ba (bit / bundle_bitness) = Some v /\
  (if negb (Z.land v (BIT (bit mod bundle_bitness)) =? 0) then 1 else 0) = Z.b2z (bool_decide (bit ∈ members ba)).
Proof using Hwf Hbit.
  destruct (bundle_of ba bit Hwf Hbit) as (v & Hv & _ & Hb). exists v. split; [exact Hv|].
  unfold bundle_bitness. rewrite (land_pow2_eqb _ _ (bit mod 32))
    by (apply bit_bounds || apply Z.shiftl_1_l || (unfold BIT; apply Z.shiftl_1_l)).
  rewrite (bool_decide_ext _ (Z.testbit v (bit mod 32) = true))
    by (rewrite elem_of_members, <- Hb; tauto).
  by destruct (Z.testbit v (bit mod 32)).
Qed.

Lemma upd_bit to_set : exists ba',
  upd ba (bit / bundle_bitness) (fun v => set_op to_set (bit / bundle_bitness) v (BIT (bit mod bundle_bitness))) = Some ba' /\
  wf ba' /\ num_bits ba' = num_bits ba /\
  members ba' = if to_set then members ba ∪ {[bit]} else members ba ∖ {[bit]}.
Proof using Hwf Hbit.
  unfold bundle_bitness. destruct bit_bounds as [Hk Hj].
  destruct (upd_spec ba (bit / 32) (fun v => set_op to_set (bit / 32) v (BIT (bit mod 32))) Hk) as (ba' & Hu & Hm).
  exists ba'. split; [done|].
  assert (Hr : 0 <= BIT (bit mod 32) < 2 ^ 32).
  { unfold BIT. rewrite Z.shiftl_1_l. pose proof (Z.pow_lt_mono_r 2 (bit mod 32) 32). lia. }
  split. { eapply mapped_wf; [done|exact Hm|]. intros k v Hv. unfold only. destruct (_ =? _); [by apply set_op_range|done]. }
  assert (Hb : forall i, 0 <= i < num_bits ba -> bit_at ba' i = if bool_decide (i = bit) then to_set else bit_at ba i).
  { intros i Hi. destruct (bundle_of ba i Hwf Hi) as (v & Hv & Hvr & ->).
    rewrite (bit_at_mapped _ _ _ i v Hm) by (done || lia). unfold only.
    destruct (Z.eqb_spec (bit / 32) (i / 32)) as [Heq|Hne].
    - rewrite testbit_set_op, testbit_BIT by (apply Z.mod_pos_bound; lia).
      rewrite (bool_decide_ext _ (i mod 32 = bit mod 32)) by (Z.div_mod_to_equations; lia).
      destruct (Z.eqb_spec (i mod 32) (bit mod 32)); by case_bool_decide.
    - rewrite bool_decide_eq_false_2 by congruence. done. }
  destruct Hm as (HA & _). split; [done|]. apply set_eq. intros i. specialize (Hb i).
  destruct (decide (0 <= i < num_bits ba)) as [Hi|Hi]; destruct to_set;
    rewrite ?elem_of_union, ?elem_of_difference, !elem_of_members, elem_of_singleton, HA.
  1, 2: rewrite Hb by done; case_bool_decide; intuition done.
  all: intuition (lia || congruence).
Qed.
End Bit.

(** ** The checks of a region *)

Definition fits (n num offset : Z) : bool := (0 <? num) && (offset + num <=? n).

(** The test on the last bit finds every region that does not fit, unless the sum of offset and
    length wraps around to a bit of the array. *)
Lemma bad_region_spec ba num offset : wf ba -> 0 <= num -> 0 <= offset ->
  offset + num < 2 ^ 32 \/ num_bits ba <= 2 ^ 31 ->
  bad_region ba num offset = negb (fits (num_bits ba) num offset).
Proof.
  intros (Hnb & _) Hn Ho Hv. unfold bad_region, fits.
  rewrite Z.gtb_ltb, !Z.geb_leb.
  destruct (Z.eqb_spec num 0) as [->|Hne]; [done|]. rewrite (proj2 (Z.ltb_lt 0 num)) by lia.
  destruct (Z.ltb_spec (num_bits ba) num) as [Hbig|Hsm].
  { by rewrite (proj2 (Z.leb_gt (offset + num) _)) by lia. }
  destruct (Z.leb_spec (num_bits ba) offset) as [Hbo|Hso].
  { by rewrite (proj2 (Z.leb_gt (offset + num) _)) by lia. }
  cbn [orb andb].
  destruct (decide (offset + num < 2 ^ 32)) as [Hlt|Hge].
  - rewrite setup_last by lia.
    destruct (Z.leb_spec (offset + num) (num_bits ba)), (Z.leb_spec (num_bits ba) (offset + num - 1)); done || lia.
  - assert (Hs : offset + num = 2 ^ 32 \/ offset + num < 2 ^ 32) by lia. lia.
Qed.

Lemma sum_check ba num offset : 0 <= num -> 0 <= offset -> offset + num < 2 ^ 32 ->
  (num =? 0) || (u32 (offset + num) >? num_bits ba) = negb (fits (num_bits ba) num offset).
Proof.
  intros Hn Ho Hlt. unfold fits. rewrite wrap_u_small, Z.gtb_ltb by lia.
  destruct (Z.eqb_spec num 0), (Z.ltb_spec 0 num), (Z.ltb_spec (num_bits ba) (offset + num)),
    (Z.leb_spec (offset + num) (num_bits ba)); done || lia.
Qed.

(** ** Operations on sets *)

Inductive call :=
| CSet (bit : Z) | CClear (bit : Z) | CTest (bit : Z) | CTestSet (bit : Z) | CTestClear (bit : Z)
| CAlloc (num : Z) | CFree (num offset : Z)
| CIsSet (num offset : Z) | CIsCleared (num offset : Z)
| CSetRegion (num offset : Z) | CClearRegion (num offset : Z)
| CTestSetRegion (num offset : Z) (to_set : bool)
| CPopcount (num offset : Z) | CFindNth (n num offset : Z)
| CXor (other : sys_bitarray) (num offset : Z).

(** What a call gives its caller: the result with what is stored through a pointer, or a
    truth value. *)
Inductive answer := Code (ret : Z) (out : option Z) | Truth (b : bool).

Definition plain (r : option (Z * sys_bitarray)) : option (answer * sys_bitarray) :=
  '(ret, ba) ← r; Some (Code ret None, ba).

Definition query (ba : sys_bitarray) (r : option (Z * option Z)) : option (answer * sys_bitarray) :=
  '(ret, out) ← r; Some (Code ret out, ba).

Definition update (r : option (Z * option Z * sys_bitarray)) : option (answer * sys_bitarray) :=
  '(ret, out, ba) ← r; Some (Code ret out, ba).

Definition exec (ba : sys_bitarray) (c : call) : option (answer * sys_bitarray) :=
  match c with
  | CSet bit => plain (sys_bitarray_set_bit ba bit)
  | CClear bit => plain (sys_bitarray_clear_bit ba bit)
  | CTest bit => query ba (sys_bitarray_test_bit ba bit)
  | CTestSet bit => update (sys_bitarray_test_and_set_bit ba bit)
  | CTestClear bit => update (sys_bitarray_test_and_clear_bit ba bit)
  | CAlloc num => update (sys_bitarray_alloc ba num)
  | CFree num offset => plain (sys_bitarray_free ba num offset)
  | CIsSet num offset => b ← sys_bitarray_is_region_set ba num offset; Some (Truth b, ba)
  | CIsCleared num offset => b ← sys_bitarray_is_region_cleared ba num offset; Some (Truth b, ba)
  | CSetRegion num offset => plain (sys_bitarray_set_region ba num offset)
  | CClearRegion num offset => plain (sys_bitarray_clear_region ba num offset)
  | CTestSetRegion num offset to_set => plain (sys_bitarray_test_and_set_region ba num offset to_set)
  | CPopcount num offset => query ba (sys_bitarray_popcount_region ba num offset)
  | CFindNth n num offset => query ba (sys_bitarray_find_nth_set ba n num offset)
  | CXor other num offset => plain (sys_bitarray_xor ba other num offset)
  end.

(** The same calls on a set [X] of numbers below [n]. *)
Definition spec_bit (n : Z) (X : gset Z) (bit : Z) (r : answer * gset Z) : answer * gset Z :=
  if bit <? n then r else (Code (- EINVAL) None, X).

Definition spec_region (n : Z) (X : gset Z) (num offset : Z) (r : answer * gset Z) : answer * gset Z :=
  if fits n num offset then r else (Code (- EINVAL) None, X).

Definition was (X : gset Z) (bit : Z) : option Z := Some (Z.b2z (bool_decide (bit ∈ X))).

Definition spec (n : Z) (X : gset Z) (c : call) : answer * gset Z :=
  match c with
  | CSet bit => spec_bit n X bit (Code 0 None, X ∪ {[bit]})
  | CClear bit => spec_bit n X bit (Code 0 None, X ∖ {[bit]})
  | CTest bit => spec_bit n X bit (Code 0 (was X bit), X)
  | CTestSet bit => spec_bit n X bit (Code 0 (was X bit), X ∪ {[bit]})
  | CTestClear bit => spec_bit n X bit (Code 0 (was X bit), X ∖ {[bit]})
  | CAlloc num =>
      spec_region n X num 0
        match first_fit X n num with
        | Some o => (Code 0 (Some o), X ∪ region o num)
        | None => (Code (- ENOSPC) None, X)
        end
  | CFree num offset =>
      spec_region n X num offset
        (if bool_decide (region offset num ⊆ X) then (Code 0 None, X ∖ region offset num)
         else (Code (- EFAULT) None, X))
  | CIsSet num offset => (Truth (fits n num offset && bool_decide (region offset num ⊆ X)), X)
  | CIsCleared num offset => (Truth (fits n num offset && bool_decide (region offset num ## X)), X)
  | CSetRegion num offset => spec_region n X num offset (Code 0 None, X ∪ region offset num)
  | CClearRegion num offset => spec_region n X num offset (Code 0 None, X ∖ region offset num)
  | CTestSetRegion num offset true =>
      spec_region n X num offset
        (if bool_decide (region offset num ## X) then (Code 0 None, X ∪ region offset num)
         else (Code (- EEXIST) None, X))
  | CTestSetRegion num offset false =>
      spec_region n X num offset
        (if bool_decide (region offset num ⊆ X) then (Code 0 None, X ∖ region offset num)
         else (Code (- EEXIST) None, X))
  | CPopcount num offset =>
      spec_region n X num offset (Code 0 (Some (Z.of_nat (size (X ∩ region offset num)))), X)
  | CFindNth k num offset =>
      if k =? 0 then (Code (- EINVAL) None, X) else
      spec_region n X num offset
        match filter (fun i => i ∈ X) (seqZ offset num) !! Z.to_nat (k - 1) with
        | Some i => (Code 0 (Some i), X)
        | None => (Code 1 None, X)
        end
  | CXor other num offset =>
      if n =? num_bits other then
        spec_region n X num offset
          (Code 0 None, X ∖ region offset num ∪ (X ∖ members other ∪ members other ∖ X) ∩ region offset num)
      else (Code (- EINVAL) None, X)
  end.

(** The arguments have 32 bits, and offset and length do not wrap around: always, for the three
    functions that check the sum, and unless the array has at most [2 ^ 31] bits, for the others. *)
Definition valid (n : Z) (c : call) : Prop :=
  match c with
  | CSet bit | CClear bit | CTest bit | CTestSet bit | CTestClear bit => 0 <= bit
  | CAlloc num => 0 <= num
  | CFree num offset | CIsSet num offset | CIsCleared num offset | CSetRegion num offset
  | CClearRegion num offset | CTestSetRegion num offset _ =>
      0 <= num /\ 0 <= offset /\ (offset + num < 2 ^ 32 \/ n <= 2 ^ 31)
  | CPopcount num offset => 0 <= num /\ 0 <= offset /\ offset + num < 2 ^ 32
  | CFindNth k num offset => 0 <= k /\ 0 <= num /\ 0 <= offset /\ offset + num < 2 ^ 32
  | CXor other num offset => wf other /\ 0 <= num /\ 0 <= offset /\ offset + num < 2 ^ 32
  end.

(** An outcome of a call on an array of [n] bits is one of the specification. *)
Definition implements (n : Z) (r : option (answer * sys_bitarray)) (s : answer * gset Z) : Prop :=
  exists ba, r = Some (s.1, ba) /\ wf ba /\ num_bits ba = n /\ members ba = s.2.

Lemma implements_same ba a : wf ba -> implements (num_bits ba) (Some (a, ba)) (a, members ba).
Proof. intros Hwf. by exists ba. Qed.

Lemma fits_true n num offset : fits n num offset = true <-> 0 < num /\ offset + num <= n.
Proof. unfold fits. rewrite andb_true_iff, Z.ltb_lt, Z.leb_le. done. Qed.

Section Calls.
Context (ba : sys_bitarray) (Hwf : wf ba).

Ltac on_bit bit :=
  rewrite Z.geb_leb; unfold spec_bit; destruct (Z.leb_spec (num_bits ba) bit);
  [rewrite (proj2 (Z.ltb_ge bit _)) by lia; by apply implements_same|rewrite (proj2 (Z.ltb_lt bit _)) by lia].

Lemma bit_call bit : 0 <= bit ->
  implements (num_bits ba) (exec ba (CSet bit)) (spec (num_bits ba) (members ba) (CSet bit)) /\
  implements (num_bits ba) (exec ba (CClear bit)) (spec (num_bits ba) (members ba) (CClear bit)).
Proof using Hwf.
  intros Hb. cbn [exec spec]. unfold sys_bitarray_set_bit, sys_bitarray_clear_bit. cbn zeta. split; on_bit bit.
  - destruct (upd_bit ba bit Hwf ltac:(lia) true) as (ba' & Hu & Hwf' & Hn & Hm).
    unfold upd, set_op in Hu. apply bind_Some in Hu as (v & -> & Hu). cbn [mbind option_bind]. rewrite Hu. by exists ba'.
  - destruct (upd_bit ba bit Hwf ltac:(lia) false) as (ba' & Hu & Hwf' & Hn & Hm).
    unfold upd, set_op in Hu. apply bind_Some in Hu as (v & -> & Hu). cbn [mbind option_bind]. rewrite Hu. by exists ba'.
Qed.

Lemma test_call bit : 0 <= bit ->
  implements (num_bits ba) (exec ba (CTest bit)) (spec (num_bits ba) (members ba) (CTest bit)).
Proof using Hwf.
  intros Hb. cbn [exec spec]. unfold sys_bitarray_test_bit. cbn zeta. on_bit bit.
  destruct (test_word ba bit Hwf ltac:(lia)) as (v & -> & Hv). cbn [mbind option_bind query].
  rewrite Hv. by apply implements_same.
Qed.

Lemma test_set_call bit : 0 <= bit ->
  implements (num_bits ba) (exec ba (CTestSet bit)) (spec (num_bits ba) (members ba) (CTestSet bit)) /\
  implements (num_bits ba) (exec ba (CTestClear bit)) (spec (num_bits ba) (members ba) (CTestClear bit)).
Proof using Hwf.
  intros Hb. cbn [exec spec]. unfold sys_bitarray_test_and_set_bit, sys_bitarray_test_and_clear_bit. cbn zeta.
  split; on_bit bit; destruct (test_word ba bit Hwf ltac:(lia)) as (v & Hg & Hv).
  - destruct (upd_bit ba bit Hwf ltac:(lia) true) as (ba' & Hu & Hwf' & Hn & Hm).
    unfold upd, set_op in Hu. rewrite Hg in *. cbn [mbind option_bind] in *. rewrite Hu, Hv. by exists ba'.
  - destruct (upd_bit ba bit Hwf ltac:(lia) false) as (ba' & Hu & Hwf' & Hn & Hm).
    unfold upd, set_op in Hu. rewrite Hg in *. cbn [mbind option_bind] in *. rewrite Hu, Hv. by exists ba'.
Qed.

Lemma alloc_call num : 0 <= num ->
  implements (num_bits ba) (exec ba (CAlloc num)) (spec (num_bits ba) (members ba) (CAlloc num)).
Proof using Hwf.
  intros Hn. cbn [exec spec]. unfold spec_region. destruct (fits (num_bits ba) num 0) eqn:Hf.
  - apply fits_true in Hf. destruct (sys_bitarray_alloc_spec ba num Hwf) as (r & -> & Hr); [lia|].
    unfold alloc_result in Hr. destruct (first_fit _ _ _) as [o|].
    + destruct Hr as (ba' & -> & Hwf' & Hn' & Hm). by exists ba'.
    + rewrite Hr. by apply implements_same.
  - unfold fits in Hf. apply andb_false_iff in Hf. rewrite Z.ltb_ge, Z.leb_gt in Hf. unfold sys_bitarray_alloc.
    rewrite Z.gtb_ltb. replace ((num =? 0) || (num_bits ba <? num)) with true; [by apply implements_same|].
    symmetry. rewrite orb_true_iff, Z.eqb_eq, Z.ltb_lt. lia.
Qed.

(** The operations on a region. *)
Section Region.
Context (num offset : Z) (Hn : 0 <= num) (Ho : 0 <= offset).

Lemma match_call (match_set : bool) : fits (num_bits ba) num offset = true ->
  match_region ba offset num match_set =
  Some (setup_bundle_data offset num,
    if match_set then bool_decide (region offset num ⊆ members ba) else bool_decide (region offset num ## members ba)).
Proof using Hwf Hn Ho.
  intros [Hp Hm]%fits_true. destruct (match_region_spec ba offset num match_set Hwf Ho Hp Hm) as (b & -> & Hb).
  do 2 f_equal. apply eq_true_iff_eq. rewrite Hb. unfold matching.
  destruct match_set; by rewrite bool_decide_eq_true.
Qed.

Lemma set_region_call (to_set : bool) : fits (num_bits ba) num offset = true ->
  implements (num_bits ba)
    (plain (ba ← set_region ba to_set (setup_bundle_data offset num); Some (0, ba)))
    (Code 0 None, if to_set then members ba ∪ region offset num else members ba ∖ region offset num).
Proof using Hwf Hn Ho.
  intros [Hp Hm]%fits_true. destruct (set_region_spec ba offset num to_set Hwf Ho Hp Hm) as (ba' & -> & H').
  by exists ba'.
Qed.

Context (Hsum : offset + num < 2 ^ 32 \/ num_bits ba <= 2 ^ 31).

Ltac on_region :=
  rewrite bad_region_spec by done; unfold spec_region;
  destruct (fits (num_bits ba) num offset) eqn:Hf; cbn [negb]; [|by apply implements_same].

Lemma region_call (to_set : bool) :
  implements (num_bits ba) (exec ba (if to_set then CSetRegion num offset else CClearRegion num offset))
    (spec (num_bits ba) (members ba) (if to_set then CSetRegion num offset else CClearRegion num offset)).
Proof using Hwf Hn Ho Hsum.
  destruct to_set; cbn [exec spec]; unfold sys_bitarray_set_region, sys_bitarray_clear_region, set_clear_region;
    on_region; [by apply (set_region_call true)|by apply (set_region_call false)].
Qed.

Lemma is_region_call (b : bool) :
  implements (num_bits ba) (exec ba (if b then CIsSet num offset else CIsCleared num offset))
    (spec (num_bits ba) (members ba) (if b then CIsSet num offset else CIsCleared num offset)).
Proof using Hwf Hn Ho Hsum.
  destruct b; cbn [exec spec]; unfold sys_bitarray_is_region_set, sys_bitarray_is_region_cleared, is_region_set_clear;
    on_region; rewrite match_call by done; by apply implements_same.
Qed.

Lemma free_call :
  implements (num_bits ba) (exec ba (CFree num offset)) (spec (num_bits ba) (members ba) (CFree num offset)).
Proof using Hwf Hn Ho Hsum.
  cbn [exec spec]; unfold sys_bitarray_free. on_region. rewrite match_call by done. cbn [mbind option_bind].
  case_bool_decide; [by apply (set_region_call false)|by apply implements_same].
Qed.

Lemma test_set_region_call to_set :
  implements (num_bits ba) (exec ba (CTestSetRegion num offset to_set))
    (spec (num_bits ba) (members ba) (CTestSetRegion num offset to_set)).
Proof using Hwf Hn Ho Hsum.
  cbn [exec spec]; unfold sys_bitarray_test_and_set_region.
  destruct to_set; on_region; rewrite match_call by done; cbn [mbind option_bind negb];
    (case_bool_decide; [by apply set_region_call|by apply implements_same]).
Qed.
End Region.

Section Sum.
Context (num offset : Z) (Hn : 0 <= num) (Ho : 0 <= offset) (Hsum : offset + num < 2 ^ 32).

(** The numbers of a set in a region, counted along the region. *)
Lemma size_region (X : gset Z) :
  size (X ∩ region offset num) = length (filter (fun i => i ∈ X) (seqZ offset num)).
Proof using.
  rewrite <- (size_list_to_set (C := gset Z)) by (apply NoDup_filter, NoDup_seqZ).
  f_equal. apply set_eq. intros i. unfold region. rewrite elem_of_intersection, !elem_of_list_to_set, list_elem_of_filter. done.
Qed.

Lemma popcount_call :
  implements (num_bits ba) (exec ba (CPopcount num offset)) (spec (num_bits ba) (members ba) (CPopcount num offset)).
Proof using Hwf Hn Ho Hsum.
  cbn [exec spec]. unfold spec_region. destruct (fits (num_bits ba) num offset) eqn:Hf.
  - apply fits_true in Hf as [Hp Hm]. rewrite popcount_region_spec, size_region by done. by apply implements_same.
  - unfold sys_bitarray_popcount_region. rewrite sum_check, Hf by done. by apply implements_same.
Qed.

Lemma find_nth_call k : 0 <= k ->
  implements (num_bits ba) (exec ba (CFindNth k num offset)) (spec (num_bits ba) (members ba) (CFindNth k num offset)).
Proof using Hwf Hn Ho Hsum.
  intros Hk. cbn [exec spec]. destruct (Z.eqb_spec k 0) as [->|Hne].
  { by apply implements_same. }
  unfold spec_region. destruct (fits (num_bits ba) num offset) eqn:Hf.
  - apply fits_true in Hf as [Hp Hm]. rewrite find_nth_set_spec by (done || lia). unfold nth_result.
    destruct (_ !! _); by apply implements_same.
  - unfold sys_bitarray_find_nth_set. rewrite <- orb_assoc, sum_check, Hf, orb_true_r by done. by apply implements_same.
Qed.

Lemma xor_call other : wf other ->
  implements (num_bits ba) (exec ba (CXor other num offset)) (spec (num_bits ba) (members ba) (CXor other num offset)).
Proof using Hwf Hn Ho Hsum.
  intros Hwo. cbn [exec spec]. destruct (Z.eqb_spec (num_bits ba) (num_bits other)) as [Heq|Hne].
  - unfold spec_region. destruct (fits (num_bits ba) num offset) eqn:Hf.
    + apply fits_true in Hf as [Hp Hm].
      destruct (sys_bitarray_xor_spec ba other offset num) as (ba' & -> & H'); [done..|]. by exists ba'.
    + unfold sys_bitarray_xor. rewrite (proj2 (Z.eqb_eq _ _) Heq), sum_check, Hf by done. by apply implements_same.
  - unfold sys_bitarray_xor. rewrite (proj2 (Z.eqb_neq _ _) Hne). by apply implements_same.
Qed.
End Sum.

Lemma call_implements c : valid (num_bits ba) c ->
  implements (num_bits ba) (exec ba c) (spec (num_bits ba) (members ba) c).
Proof using Hwf.
  destruct c; cbn [valid]; intros Hv; destruct_and? Hv;
    [apply bit_call|apply bit_call|apply test_call|apply test_set_call|apply test_set_call|apply alloc_call
    |apply free_call|apply (is_region_call num offset) with (b := true)|apply (is_region_call num offset) with (b := false)
    |apply (region_call num offset) with (to_set := true)|apply (region_call num offset) with (to_set := false)
    |apply test_set_region_call|apply popcount_call|apply find_nth_call|apply xor_call]; done.
Qed.
End Calls.

(** ** Sequences of calls *)

(** The answers to a sequence of calls. *)
Fixpoint exec_all (ba : sys_bitarray) (cs : list call) : option (list answer) :=
  match cs with
  | [] => Some []
  | c :: cs => '(a, ba) ← exec ba c; l ← exec_all ba cs; Some (a :: l)
  end.

Fixpoint spec_all (n : Z) (X : gset Z) (cs : list call) : list answer :=
  match cs with
  | [] => []
  | c :: cs => let '(a, X) := spec n X c in a :: spec_all n X cs
  end.

Lemma define_wf n : 0 < n < 2 ^ 31 -> wf (SYS_BITARRAY_DEFINE n) /\ members (SYS_BITARRAY_DEFINE n) = ∅.
Proof.
  intros Hn. unfold SYS_BITARRAY_DEFINE. set (k := ((n + 8 - 1) / 8 + 4 - 1) / 4).
  assert (Hk : k = (n + 31) / 32 /\ 0 <= k) by (unfold k; Z.div_mod_to_equations; lia).
  split.
  - split; [cbn; lia|]. split; [cbn; lia|]. cbn [bundles num_bundles]. rewrite length_replicate.
    split; [lia|]. by apply Forall_replicate.
  - apply set_eq. intros i. rewrite elem_of_members. unfold bit_at. cbn [bundles].
    split; [|by intros ?%elem_of_empty]. intros [_ Hb].
    destruct (replicate _ 0 !! _) as [v|] eqn:Hv; [|done]. apply lookup_replicate in Hv as [-> _].
    by rewrite Z.bits_0 in Hb.
Qed.

Lemma exec_all_spec ba cs : wf ba -> Forall (valid (num_bits ba)) cs ->
  exec_all ba cs = Some (spec_all (num_bits ba) (members ba) cs).
Proof.
  intros Hwf Hv. remember (num_bits ba) as n eqn:Hn. revert ba Hwf Hn.
  induction Hv as [|c cs Hc _ IH]; intros ba Hwf Hn; [done|]. cbn [exec_all spec_all]. subst n.
  destruct (call_implements ba Hwf c Hc) as (ba' & -> & Hwf' & Hn' & Hm). cbn [mbind option_bind].
  rewrite (IH ba' Hwf' (eq_sym Hn')), Hm. by destruct (spec _ _ c).
Qed.

(** C31: The state of the bit array after any sequence of calls is a finite set: every call of
    lib/utils/bitarray.c answers as the operation on sets does, never touches memory outside the
    array, and its loops end.  [sys_bitarray_alloc] gives the first free region. *)
Theorem bitarray_refines_set n cs : 0 < n < 2 ^ 31 -> Forall (valid n) cs ->
  exec_all (SYS_BITARRAY_DEFINE n) cs = Some (spec_all n ∅ cs).
Proof.
  intros Hn Hv. destruct (define_wf n Hn) as [Hwf <-]. by apply exec_all_spec.
Qed.

Lemma bitarray_refines_set_witness :
  exec_all (SYS_BITARRAY_DEFINE 70)
    [CAlloc 40; CAlloc 20; CTestSet 65; CFree 40 0; CAlloc 33; CAlloc 10; CPopcount 70 0; CFindNth 34 70 0;
     CIsSet 20 40; CIsCleared 4 66; CFree 2 69; CTestSetRegion 3 66 true] =
  Some [Code 0 (Some 0); Code 0 (Some 40); Code 0 (Some 0); Code 0 None; Code 0 (Some 0); Code (- ENOSPC) None;
    Code 0 (Some 54); Code 0 (Some 40); Truth true; Truth true; Code (- EINVAL) None; Code 0 None].
Proof.
  rewrite bitarray_refines_set; [vm_compute; reflexivity|lia|].
  repeat (apply Forall_cons_2; [cbn [valid]; lia|]). apply Forall_nil_2.
Defined.

Lemma get_bundle_outside ba idx : Z.of_nat (length (bundles ba)) <= idx -> get_bundle ba idx = None.
Proof. intros Hi. unfold get_bundle. apply lookup_ge_None_2. lia. Qed.

(** Where offset and length wrap around, three of the functions take the region for one of the
    array and read or write outside it. *)
Example bitarray_sum_wraps :
  sys_bitarray_popcount_region (SYS_BITARRAY_DEFINE 64) 0x20 0xFFFFFFF0 = None /\
  sys_bitarray_find_nth_set (SYS_BITARRAY_DEFINE 64) 1 0x20 0xFFFFFFF0 = None /\
  sys_bitarray_xor (SYS_BITARRAY_DEFINE 64) (SYS_BITARRAY_DEFINE 64) 0x20 0xFFFFFFF0 = None.
Proof.
  assert (Hg : get_bundle (SYS_BITARRAY_DEFINE 64) (sidx (setup_bundle_data 0xFFFFFFF0 0x20)) = None)
    by (apply get_bundle_outside; vm_compute; discriminate).
  unfold sys_bitarray_popcount_region, sys_bitarray_find_nth_set, sys_bitarray_xor.
  rewrite Hg. split_and!; reflexivity.
Qed.
