(* ===== verification/MemBlocks.v ===== *)
(** * Memory blocks

    lib/mem_blocks/mem_blocks.c: blocks of one size in a buffer, handed out singly or in
    contiguous runs, with a bit array of the blocks in use; and groups of such pools.  Built with
    CONFIG_SYS_MEM_BLOCKS_RUNTIME_STATS and without listeners.  Pointers are numbers of 32
    bits, and 0 is [NULL]; their difference is a signed number of 32 bits.  [None] stands for a failed assertion or an access outside an array. *)

From S2P Require Import Prelude Timeout KState BitOps Buffer Bitarray BitarraySet BitarrayProps.

Local Open Scope Z_scope.

(** ** The code *)

Record sys_mem_blocks := mkPool {
  mb_num_blocks : Z; mb_shift : Z; mb_used : Z; mb_max_used : Z; mb_buffer : Z; mb_bitmap : sys_bitarray }.

Definition with_bitmap (bm : sys_bitarray) (p : sys_mem_blocks) : sys_mem_blocks :=
  mkPool (mb_num_blocks p) (mb_shift p) (mb_used p) (mb_max_used p) (mb_buffer p) bm.
Definition with_used (n : Z) (p : sys_mem_blocks) : sys_mem_blocks :=
  mkPool (mb_num_blocks p) (mb_shift p) n (mb_max_used p) (mb_buffer p) (mb_bitmap p).
Definition with_max_used (n : Z) (p : sys_mem_blocks) : sys_mem_blocks :=
  mkPool (mb_num_blocks p) (mb_shift p) (mb_used p) n (mb_buffer p) (mb_bitmap p).

(** [ilog2] of the block size, a power of two, gives the shift. *)
Definition SYS_MEM_BLOCKS_DEFINE (blk_sz num_blks buf : Z) : sys_mem_blocks :=
  mkPool num_blks (Z.log2 blk_sz) 0 0 buf (SYS_BITARRAY_DEFINE num_blks).

(** The statistics after blocks have been taken. *)
Definition count_used (num_blocks : Z) (p : sys_mem_blocks) : sys_mem_blocks :=
  let p := with_used (u32 (mb_used p + num_blocks)) p in
  if mb_max_used p <? mb_used p then with_max_used (mb_used p) p else p.

Definition alloc_blocks (p : sys_mem_blocks) (num_blocks : Z) : option (Z * sys_mem_blocks) :=
  '(r, offset, bm) ← sys_bitarray_alloc (mb_bitmap p) num_blocks;
  let p := with_bitmap bm p in
  if negb (r =? 0) then Some (0, p) else
  offset ← offset;
  let p := count_used num_blocks p in
  Some (u32 (mb_buffer p + u32 (Z.shiftl offset (mb_shift p))), p).

Definition free_blocks (p : sys_mem_blocks) (ptr num_blocks : Z) : option (Z * sys_mem_blocks) :=
  if ptr <? mb_buffer p then Some (- EFAULT, p) else
  let offset := u32 (Z.shiftr (s32 (ptr - mb_buffer p)) (mb_shift p)) in
  if offset >=? mb_num_blocks p then Some (- EFAULT, p) else
  '(ret, bm) ← sys_bitarray_free (mb_bitmap p) num_blocks offset;
  let p := with_bitmap bm p in
  Some (ret, if ret =? 0 then with_used (u32 (mb_used p - num_blocks)) p else p).

(** The result, what is stored in [*out_block], and the pool. *)
Definition sys_mem_blocks_alloc_contiguous (p : sys_mem_blocks) (count : Z) :
    option (Z * option Z * sys_mem_blocks) :=
  if count =? 0 then Some (0, Some 0, p) else
  if count >? mb_num_blocks p then Some (- ENOMEM, None, p) else
  '(ptr, p) ← alloc_blocks p count;
  if ptr =? 0 then Some (- ENOMEM, None, p) else Some (0, Some ptr, p).

(** The loop of [sys_mem_blocks_alloc] over [n] more blocks from index [i] on: the index it
    stopped at, the array of pointers and the pool. *)
Fixpoint alloc_each (n : nat) (i : Z) (out_blocks : list Z) (p : sys_mem_blocks) :
    option (Z * list Z * sys_mem_blocks) :=
  match n with
  | O => Some (i, out_blocks, p)
  | S n =>
      '(ptr, p) ← alloc_blocks p 1;
      if ptr =? 0 then Some (i, out_blocks, p) else
      out_blocks ← store out_blocks i ptr;
      alloc_each n (i + 1) out_blocks p
  end.

(** The loop of [sys_mem_blocks_free]. *)
Fixpoint free_each (n : nat) (i ret : Z) (in_blocks : list Z) (p : sys_mem_blocks) :
    option (Z * sys_mem_blocks) :=
  match n with
  | O => Some (ret, p)
  | S n =>
      ptr ← in_blocks !! Z.to_nat i;
      '(r, p) ← free_blocks p ptr 1;
      free_each n (i + 1) (if negb (r =? 0) then r else ret) in_blocks p
  end.

Definition sys_mem_blocks_free (p : sys_mem_blocks) (count : Z) (in_blocks : list Z) :
    option (Z * sys_mem_blocks) :=
  if count =? 0 then Some (0, p) else
  if count >? mb_num_blocks p then Some (- EINVAL, p) else
  free_each (Z.to_nat count) 0 0 in_blocks p.

Definition sys_mem_blocks_alloc (p : sys_mem_blocks) (count : Z) (out_blocks : list Z) :
    option (Z * list Z * sys_mem_blocks) :=
  if count =? 0 then Some (0, out_blocks, p) else
  if count >? mb_num_blocks p then Some (- ENOMEM, out_blocks, p) else
  '(i, out_blocks, p) ← alloc_each (Z.to_nat count) 0 out_blocks p;
  if i <? count then
    '(_, p) ← sys_mem_blocks_free p i out_blocks;
    Some (- ENOMEM, out_blocks, p)
  else Some (0, out_blocks, p).

Definition sys_mem_blocks_is_region_free (p : sys_mem_blocks) (in_block count : Z) : option bool :=
  let offset := u32 (Z.shiftr (s32 (in_block - mb_buffer p)) (mb_shift p)) in
  if u32 (offset + count) <=? mb_num_blocks p
  then sys_bitarray_is_region_cleared (mb_bitmap p) count offset else None.

(** [offset] is an [int], converted to [size_t] where it is added to [count] and passed on. *)
Definition sys_mem_blocks_get (p : sys_mem_blocks) (in_block count : Z) : option (Z * sys_mem_blocks) :=
  if count =? 0 then Some (0, p) else
  let offset := u32 (Z.shiftr (s32 (in_block - mb_buffer p)) (mb_shift p)) in
  if u32 (offset + count) >? mb_num_blocks p then Some (- ENOMEM, p) else
  '(ret, bm) ← sys_bitarray_test_and_set_region (mb_bitmap p) count offset true;
  let p := with_bitmap bm p in
  if negb (ret =? 0) then Some (- ENOMEM, p) else
  Some (0, count_used count p).

Definition sys_mem_blocks_free_contiguous (p : sys_mem_blocks) (block count : Z) :
    option (Z * sys_mem_blocks) :=
  if count =? 0 then Some (0, p) else
  if count >? mb_num_blocks p then Some (- EINVAL, p) else
  free_blocks p block count.

(** [struct sys_memory_stats]: the allocated, the free and the most ever allocated bytes. *)
Definition sys_mem_blocks_runtime_stats_get (p : sys_mem_blocks) : Z * Z * Z :=
  let allocated := u32 (Z.shiftl (mb_used p) (mb_shift p)) in
  (allocated, u32 (u32 (Z.shiftl (mb_num_blocks p) (mb_shift p)) - allocated),
   u32 (Z.shiftl (mb_max_used p) (mb_shift p))).

Definition sys_mem_blocks_runtime_stats_reset_max (p : sys_mem_blocks) : sys_mem_blocks :=
  with_max_used (mb_used p) p.

(** ** Groups of pools *)

Definition MAX_MULTI_ALLOCATORS : Z := 8.

(** The allocators are pools in a store, named by their addresses.  The function that chooses
    among them is the user's. *)
Record sys_multi_mem_blocks {cfg : Type} := mkGroup {
  num_allocators : Z; choice_fn : list Z -> gmap Z sys_mem_blocks -> cfg -> option Z; allocators : list Z }.
Arguments sys_multi_mem_blocks : clear implicits.

Section Multi.
Context {cfg : Type}.
Implicit Types (g : sys_multi_mem_blocks cfg) (ps : gmap Z sys_mem_blocks).

Definition sys_multi_mem_blocks_init (choice : list Z -> gmap Z sys_mem_blocks -> cfg -> option Z) : sys_multi_mem_blocks cfg :=
  mkGroup cfg 0 choice [].

Definition sys_multi_mem_blocks_add_allocator g (alloc : Z) : option (sys_multi_mem_blocks cfg) :=
  if num_allocators g <? MAX_MULTI_ALLOCATORS
  then Some (mkGroup cfg (num_allocators g + 1) (choice_fn g) (allocators g ++ [alloc])) else None.

(** The result, the array of pointers, what is stored in [*blk_size], and the pools. *)
Definition sys_multi_mem_blocks_alloc g ps (c : cfg) (count : Z) (out_blocks : list Z) :
    option (Z * list Z * option Z * gmap Z sys_mem_blocks) :=
  if count =? 0 then Some (0, out_blocks, Some 0, ps) else
  match choice_fn g (allocators g) ps c with
  | None => Some (- EINVAL, out_blocks, None, ps)
  | Some a =>
      p ← ps !! a;
      if count >? mb_num_blocks p then Some (- ENOMEM, out_blocks, None, ps) else
      '(ret, out_blocks, p) ← sys_mem_blocks_alloc p count out_blocks;
      Some (ret, out_blocks, if ret =? 0 then Some (BIT (mb_shift p)) else None, <[a := p]> ps)
  end.

(** The pool whose buffer the pointer lies in. *)
Fixpoint find_allocator (l : list Z) ps (ptr : Z) : option (option Z) :=
  match l with
  | [] => Some None
  | a :: l =>
      p ← ps !! a;
      let start := mb_buffer p in
      let bound := u32 (start + u32 (BIT (mb_shift p) * mb_num_blocks p)) in
      if (ptr >=? start) && (ptr <? bound) then Some (Some a) else find_allocator l ps ptr
  end.

Definition sys_multi_mem_blocks_free g ps (count : Z) (in_blocks : list Z) :
    option (Z * gmap Z sys_mem_blocks) :=
  if count =? 0 then Some (0, ps) else
  ptr ← in_blocks !! 0%nat;
  allocator ← find_allocator (take (Z.to_nat (num_allocators g)) (allocators g)) ps ptr;
  match allocator with
  | None => Some (- EINVAL, ps)
  | Some a =>
      p ← ps !! a;
      '(ret, p) ← sys_mem_blocks_free p count in_blocks;
      Some (ret, <[a := p]> ps)
  end.
End Multi.

(** ** A pool as a set of blocks *)

Lemma region_single o : region o 1 = {[o]}.
Proof. apply set_eq. intros i. rewrite elem_of_region, elem_of_singleton. lia. Qed.

Section Pool.
(** The number of blocks, the shift and the address of the buffer. *)
Context (n sh buf : Z).

(** The blocks in use are [X], and at most [m] were in use at any time. *)
Definition pool (p : sys_mem_blocks) (X : gset Z) (m : Z) : Prop :=
  mb_num_blocks p = n /\ mb_shift p = sh /\ mb_buffer p = buf /\
  wf (mb_bitmap p) /\ num_bits (mb_bitmap p) = n /\ members (mb_bitmap p) = X /\
  mb_used p = Z.of_nat (size X) /\ mb_max_used p = m /\ mb_used p <= m <= n.

(** The buffer lies in memory. *)
Definition in_memory : Prop := 0 < n /\ 0 <= sh /\ 0 < buf /\ buf + n * 2 ^ sh < 2 ^ 32 /\ n * 2 ^ sh < 2 ^ 31.

Definition block_at (i : Z) : Z := buf + i * 2 ^ sh.

(** The block that a pointer lies in. *)
Definition block_of (ptr : Z) : option Z :=
  if (buf <=? ptr) && (ptr <? buf + n * 2 ^ sh) then Some ((ptr - buf) / 2 ^ sh) else None.

Lemma block_of_at i : 0 <= sh -> 0 <= i < n -> block_of (block_at i) = Some i.
Proof.
  intros Hs Hi. unfold block_of, block_at. pose proof (Z.pow_pos_nonneg 2 sh ltac:(lia) Hs).
  rewrite (proj2 (Z.leb_le _ _)), (proj2 (Z.ltb_lt _ _)) by nia. cbn [andb].
  by replace (buf + i * 2 ^ sh - buf) with (i * 2 ^ sh) by lia; rewrite Z.div_mul by lia.
Qed.

Lemma block_of_range ptr i : 0 <= sh -> block_of ptr = Some i -> 0 <= i < n.
Proof.
  intros Hs. unfold block_of. destruct (_ && _) eqn:Hb; [|done]. intros [= <-].
  apply andb_prop in Hb as [H1%Z.leb_le H2%Z.ltb_lt].
  pose proof (Z.pow_pos_nonneg 2 sh ltac:(lia) Hs).
  split; [apply Z.div_pos; lia|apply Z.div_lt_upper_bound; lia].
Qed.

Lemma members_size ba : 0 <= num_bits ba -> Z.of_nat (size (members ba)) <= num_bits ba.
Proof.
  intros Hn. assert (Hsub : members ba ⊆ region 0 (num_bits ba)).
  { intros i. rewrite elem_of_members, elem_of_region. lia. }
  apply subseteq_size in Hsub. unfold region in Hsub.
  rewrite (size_list_to_set (C := gset Z)), length_seqZ in Hsub by apply NoDup_seqZ. lia.
Qed.

Lemma size_taken (X : gset Z) o k : 0 <= k -> region o k ## X ->
  Z.of_nat (size (X ∪ region o k)) = Z.of_nat (size X) + k.
Proof.
  intros Hk Hd. rewrite size_union by (by symmetry). unfold region.
  rewrite (size_list_to_set (C := gset Z)), length_seqZ by apply NoDup_seqZ. lia.
Qed.

Lemma size_freed (X : gset Z) o k : 0 <= k -> region o k ⊆ X ->
  Z.of_nat (size (X ∖ region o k)) = Z.of_nat (size X) - k.
Proof.
  intros Hk Hs. rewrite size_difference by done. apply subseteq_size in Hs. unfold region in *.
  rewrite (size_list_to_set (C := gset Z)), length_seqZ in * by apply NoDup_seqZ. lia.
Qed.

Lemma first_fit_inv X k num o : first_fit X k num = Some o -> 0 <= o <= k - num /\ region o num ## X.
Proof.
  unfold first_fit. intros Ho%head_Some_elem_of.
  apply list_elem_of_filter in Ho as [Hd Hr%elem_of_seqZ]. split; [lia|done].
Qed.

Lemma count_used_layout k p : mb_buffer (count_used k p) = mb_buffer p /\ mb_shift (count_used k p) = mb_shift p /\
  mb_num_blocks (count_used k p) = mb_num_blocks p.
Proof. unfold count_used. by destruct (_ <? _). Qed.

Lemma count_used_spec p X m k o : pool p X m -> 0 <= k -> region o k ## X ->
  Z.of_nat (size X) + k <= n < 2 ^ 32 ->
  forall bm, wf bm -> num_bits bm = n -> members bm = X ∪ region o k ->
  pool (count_used k (with_bitmap bm p)) (X ∪ region o k) (Z.max m (Z.of_nat (size X) + k)).
Proof.
  intros (H1 & H2 & H3 & Hwf & Hnb & HX & Hu & Hm & Hle) Hk Hd Hlt bm Hwf' Hn' HX'.
  unfold count_used. cbn [mb_used with_bitmap]. rewrite Hu, wrap_u_small by lia.
  cbn [mb_max_used with_used mb_used with_bitmap]. rewrite Hm.
  destruct (Z.ltb_spec m (Z.of_nat (size X) + k)).
  - unfold pool. cbn. rewrite size_taken, Z.max_r by (done || lia). split_and!; done || lia.
  - unfold pool. cbn. rewrite size_taken, Z.max_l by (done || lia). split_and!; done || lia.
Qed.

Lemma plain_inv r ret ba : plain r = Some (Code ret None, ba) -> r = Some (ret, ba).
Proof. destruct r as [[ret' ba']|]; [|done]. by intros [= -> ->]. Qed.

Context (Hmem : in_memory).

Lemma pow_pos : 0 < 2 ^ sh.
Proof using Hmem. destruct Hmem as (_ & Hs & _). by apply Z.pow_pos_nonneg. Qed.

Lemma blocks_bound : n < 2 ^ 31.
Proof using Hmem. pose proof pow_pos. destruct Hmem. nia. Qed.

(** ** Taking blocks *)

Lemma with_same_bitmap p : with_bitmap (mb_bitmap p) p = p.
Proof using. by destruct p. Qed.

Lemma alloc_blocks_spec p X m k : pool p X m -> 0 < k <= n ->
  exists p', match first_fit X n k with
  | Some o => alloc_blocks p k = Some (block_at o, p') /\
      pool p' (X ∪ region o k) (Z.max m (Z.of_nat (size X) + k))
  | None => alloc_blocks p k = Some (0, p') /\ pool p' X m
  end.
Proof using Hmem.
  intros Hp Hk. pose proof pow_pos. pose proof blocks_bound. destruct Hmem as (Hn & Hs & Hb & Hend & _).
  pose proof Hp as (H1 & H2 & H3 & Hwf & Hnb & HX & Hu & Hm & Hle). unfold alloc_blocks.
  destruct (sys_bitarray_alloc_spec (mb_bitmap p) k Hwf) as (r & -> & Hr); [lia|].
  unfold alloc_result in Hr. rewrite HX, Hnb in Hr. destruct (first_fit X n k) as [o|] eqn:Hff.
  - destruct Hr as (bm & -> & Hwf' & Hn' & HX'). destruct (first_fit_inv _ _ _ _ Hff) as [Ho Hd].
    eexists. split.
    + cbn [mbind option_bind]. rewrite Z.eqb_refl. cbn [negb].
      destruct (count_used_layout k (with_bitmap bm p)) as (-> & -> & _). cbn [mb_buffer mb_shift with_bitmap].
      rewrite H2, H3, Z.shiftl_mul_pow2, (wrap_u_small 32 (o * 2 ^ sh)), wrap_u_small by nia. done.
    + apply count_used_spec; try done; [lia|].
      rewrite <- (size_taken X o), <- HX', <- Hn' by (done || lia). split; [apply members_size|]; lia.
  - rewrite Hr. cbn [mbind option_bind]. exists p. by rewrite with_same_bitmap.
Qed.

(** The outcome of taking the blocks that lie at [ptr], if they are free. *)
Definition abs_get (X : gset Z) (ptr k : Z) : Z * gset Z :=
  if k =? 0 then (0, X) else
  match block_of ptr with
  | Some i => if bool_decide (i + k <= n /\ region i k ## X) then (0, X ∪ region i k) else (- ENOMEM, X)
  | None => (- ENOMEM, X)
  end.

(** The outcome of freeing the [k] blocks from the one that [ptr] lies in. *)
Definition abs_free (X : gset Z) (ptr k : Z) : Z * gset Z :=
  match block_of ptr with
  | Some i =>
      if i + k <=? n then if bool_decide (region i k ⊆ X) then (0, X ∖ region i k) else (- EFAULT, X)
      else (- EINVAL, X)
  | None => (- EFAULT, X)
  end.

(** The offset that the code computes: the block of a pointer into the buffer, and otherwise a
    number that is none. *)
Lemma shift_block d : - 2 ^ 31 <= d < 2 ^ 31 ->
  let offset := u32 (Z.shiftr d sh) in
  0 <= offset < 2 ^ 32 /\ if (0 <=? d) && (d <? n * 2 ^ sh) then offset = d / 2 ^ sh /\ offset < n else n <= offset.
Proof using Hmem.
  intros Hd offset. pose proof pow_pos. pose proof blocks_bound. destruct Hmem as (Hn & Hs & _).
  split; [by apply wrap_u_range|]. unfold offset. rewrite Z.shiftr_div_pow2 by lia.
  destruct (Z.leb_spec 0 d) as [Hd0|Hneg]; cbn [andb].
  - assert (0 <= d / 2 ^ sh) by (apply Z.div_pos; lia).
    assert (d / 2 ^ sh < 2 ^ 31) by (apply Z.div_lt_upper_bound; nia). rewrite wrap_u_small by lia.
    destruct (Z.ltb_spec d (n * 2 ^ sh)); [split; [done|apply Z.div_lt_upper_bound; lia]|apply Z.div_le_lower_bound; lia].
  - assert (d / 2 ^ sh < 0) by (apply Z.div_lt_upper_bound; lia).
    assert (- 2 ^ 31 <= d / 2 ^ sh) by (apply Z.div_le_lower_bound; nia).
    unfold wrap_u. rewrite <- (Z.mod_add _ 1), Z.mod_small by lia. lia.
Qed.

Lemma offset_block ptr : 0 <= ptr < 2 ^ 32 ->
  let offset := u32 (Z.shiftr (s32 (ptr - buf)) sh) in
  0 <= offset < 2 ^ 32 /\ block_of ptr = if offset <? n then Some offset else None.
Proof using Hmem.
  intros Hp offset. pose proof Hmem as (Hn & Hs & Hbf & Hend & Hsz).
  destruct (shift_block (s32 (ptr - buf))) as [Hr Ho]; [apply (wrap_s_range 32); lia|]. fold offset in Hr, Ho.
  split; [done|]. unfold block_of. pose proof (wrap_s_range 32 (ptr - buf) ltac:(lia)) as Hd. change (32 - 1) with 31 in Hd.
  assert (Hc : exists c, s32 (ptr - buf) = ptr - buf + c * 2 ^ 32).
  { exists (- ((ptr - buf + 2 ^ 31) / 2 ^ 32)). unfold wrap_s. change (32 - 1) with 31.
    pose proof (Z.div_mod (ptr - buf + 2 ^ 31) (2 ^ 32) ltac:(lia)). lia. }
  destruct Hc as [c Hc].
  replace ((buf <=? ptr) && (ptr <? buf + n * 2 ^ sh)) with ((0 <=? s32 (ptr - buf)) && (s32 (ptr - buf) <? n * 2 ^ sh)).
  - destruct (_ && _) eqn:Hb.
    + destruct Ho as [-> Hlt]. rewrite (proj2 (Z.ltb_lt _ _)) by done. do 2 f_equal.
      apply andb_prop in Hb as [H1%Z.leb_le H2%Z.ltb_lt]. assert (c = 0 \/ c <= -1 \/ 1 <= c) as [-> | [|]] by lia; lia.
    + by rewrite (proj2 (Z.ltb_ge _ _)).
  - apply eq_true_iff_eq. rewrite !andb_true_iff, !Z.leb_le, !Z.ltb_lt.
    assert (c = 0 \/ c <= -1 \/ 1 <= c) as [-> | [|]] by lia; lia.
Qed.

Lemma free_blocks_spec p X m ptr k : pool p X m -> 0 < k <= n -> 0 <= ptr < 2 ^ 32 ->
  exists p', free_blocks p ptr k = Some ((abs_free X ptr k).1, p') /\ pool p' (abs_free X ptr k).2 m.
Proof using Hmem.
  intros Hp Hk Hptr. pose proof Hp as (H1 & H2 & H3 & Hwf & Hnb & HX & Hu & Hm & Hle).
  unfold free_blocks, abs_free. rewrite H1, H2, H3. destruct (Z.ltb_spec ptr buf) as [Hlt|Hge].
  { unfold block_of. rewrite (proj2 (Z.leb_gt buf ptr)) by lia. by exists p. }
  destruct (offset_block ptr Hptr) as [Ho ->]. set (o := u32 _) in *.
  rewrite Z.geb_leb, (Z.leb_antisym o n). destruct (Z.ltb_spec o n) as [Hon|]; [|by exists p]. cbn [negb].
  pose proof blocks_bound.
  destruct (free_call (mb_bitmap p) Hwf k o) as (bm & Hf & Hwf' & Hn' & HX'); [lia|lia|right; lia|].
  rewrite Hnb, HX in *. cbn [exec spec] in Hf, HX'. unfold spec_region, fits in Hf, HX'.
  rewrite (proj2 (Z.ltb_lt 0 k)) in Hf, HX' by lia. cbn [andb] in Hf, HX'.
  destruct (Z.leb_spec (o + k) n); [case_bool_decide as Hsub|]; cbn [fst snd] in *; apply plain_inv in Hf; rewrite Hf;
    cbn [mbind option_bind].
  - eexists. split; [done|]. change (0 =? 0) with true. cbn match.
    pose proof (size_freed X o k ltac:(lia) Hsub). unfold pool. cbn. rewrite Hu, wrap_u_small by lia. split_and!; done || lia.
  - exists (with_bitmap bm p). split; [done|]. unfold pool. cbn. split_and!; done || lia.
  - exists (with_bitmap bm p). split; [done|]. unfold pool. cbn. split_and!; done || lia.
Qed.

Lemma get_spec p X m ptr k : pool p X m -> 0 <= k < 2 ^ 32 -> 0 <= ptr < 2 ^ 32 ->
  exists p', sys_mem_blocks_get p ptr k = Some ((abs_get X ptr k).1, p') /\
    pool p' (abs_get X ptr k).2 (Z.max m (Z.of_nat (size (abs_get X ptr k).2))).
Proof using Hmem.
  intros Hp Hk Hptr. pose proof Hp as (H1 & H2 & H3 & Hwf & Hnb & HX & Hu & Hm & Hle).
  assert (Hsame : forall p', pool p' X m -> pool p' X (Z.max m (Z.of_nat (size X)))) by (intros; by rewrite Z.max_l by lia).
  unfold sys_mem_blocks_get, abs_get. rewrite H1, H2, H3.
  destruct (Z.eqb_spec k 0) as [->|Hk0]; [exists p; auto|].
  destruct (offset_block ptr Hptr) as [Ho ->]. set (o := u32 _) in *. pose proof blocks_bound.
  destruct (test_set_region_call (mb_bitmap p) Hwf k o ltac:(lia) ltac:(lia) ltac:(lia) true)
    as (bm & Hf & Hwf' & Hn' & HX').
  rewrite Hnb, HX in *. cbn [exec spec] in Hf, HX'. unfold spec_region, fits in Hf, HX'.
  rewrite (proj2 (Z.ltb_lt 0 k)) in Hf, HX' by lia. cbn [andb] in Hf, HX'.
  destruct (Z.ltb_spec o n) as [Hon|Hon].
  - destruct (Z.leb_spec (o + k) n) as [Hok|Hok].
    + rewrite wrap_u_small, Z.gtb_ltb, (proj2 (Z.ltb_ge n _)) by lia.
      case_bool_decide as Hd; cbn [fst snd] in *; apply plain_inv in Hf; rewrite Hf; cbn [mbind option_bind].
      * rewrite bool_decide_eq_true_2 by done. change (0 =? 0) with true. cbn [negb]. eexists. split; [done|]. cbn [snd].
        rewrite (size_taken X o) by (done || lia). apply count_used_spec; try done; [lia|].
        rewrite <- (size_taken X o), <- HX', <- Hn' by (done || lia). split; [apply members_size|]; lia.
      * rewrite bool_decide_eq_false_2 by tauto. eexists. split; [done|]. apply Hsame. unfold pool. cbn. split_and!; done || lia.
    + rewrite bool_decide_eq_false_2 by lia. apply plain_inv in Hf. rewrite Hf. destruct (_ >? _); [exists p; auto|].
      cbn [mbind option_bind]. eexists. split; [done|]. apply Hsame. unfold pool. cbn. split_and!; done || lia.
  - rewrite (proj2 (Z.leb_gt (o + k) n)) in Hf, HX' by lia. apply plain_inv in Hf. rewrite Hf.
    destruct (_ >? _); [exists p; auto|].
    cbn [mbind option_bind]. eexists. split; [done|]. apply Hsame. unfold pool. cbn. split_and!; done || lia.
Qed.

(** ** Many blocks at once *)

(** The blocks that are free, in order. *)
Definition unused (X : gset Z) : list Z := filter (fun i => i ∉ X) (seqZ 0 n).

Lemma first_fit_single X : first_fit X n 1 = head (unused X).
Proof using.
  clear Hmem. unfold first_fit, unused. rewrite Z.sub_add. f_equal. apply list_filter_iff.
  intros o. rewrite region_single. set_solver.
Qed.

Lemma unused_rest X o l : unused X = o :: l -> unused (X ∪ region o 1) = l.
Proof using.
  clear Hmem. intros Hu. assert (Hnd : NoDup (o :: l)) by (rewrite <- Hu; apply NoDup_filter, NoDup_seqZ).
  apply NoDup_cons in Hnd as [Hin _].
  assert (He : unused (X ∪ region o 1) = filter (fun i => i <> o) (unused X)).
  { unfold unused. rewrite list_filter_filter. apply list_filter_iff. intros i. rewrite region_single. set_solver. }
  rewrite He, Hu, filter_cons, decide_False by (intros Hn; by apply Hn). apply list_filter_all.
  intros i Hi ->. done.
Qed.

Lemma unused_lt X i : i ∈ unused X -> 0 <= i < n /\ i ∉ X.
Proof using. unfold unused. rewrite list_elem_of_filter, elem_of_seqZ. rewrite Z.add_0_l. by intros [? ?]. Qed.

Lemma alloc_each_spec k p X m out done : pool p X m -> (length done + k <= length out)%nat ->
  let l := take k (unused X) in
  exists p', alloc_each k (Z.of_nat (length done)) (over out done) p =
    Some (Z.of_nat (length done + length l), over out (done ++ map block_at l), p') /\
    pool p' (X ∪ list_to_set l) (Z.max m (Z.of_nat (size X + length l))).
Proof using Hmem.
  revert p X m done. induction k as [|k IH]; intros p X m done Hp Hl l; cbn [alloc_each].
  - exists p. unfold l. rewrite take_0. cbn. rewrite app_nil_r, Nat.add_0_r, (right_id_L ∅ (∪)), Nat.add_0_r.
    pose proof Hp as (_ & _ & _ & _ & _ & _ & Hu & _ & Hle). by rewrite Z.max_l by lia.
  - destruct Hmem as (Hn & Hs & Hb & _). pose proof pow_pos.
    destruct (alloc_blocks_spec p X m 1 Hp ltac:(lia)) as (p1 & Ha). rewrite first_fit_single in Ha.
    destruct (unused X) as [|o r] eqn:Hu; cbn [head] in Ha; destruct Ha as [-> Hp1]; cbn [mbind option_bind].
    + exists p1. unfold l. rewrite Z.eqb_refl, take_nil. cbn. rewrite app_nil_r, Nat.add_0_r, (right_id_L ∅ (∪)), Nat.add_0_r.
      pose proof Hp as (_ & _ & _ & _ & _ & _ & Hus & _ & Hle). by rewrite Z.max_l by lia.
    + destruct (unused_lt X o) as [Ho Hox]; [rewrite Hu; left|].
      rewrite (proj2 (Z.eqb_neq (block_at o) 0)) by (unfold block_at; nia).
      rewrite store_over by lia. cbn [mbind option_bind].
      replace (Z.of_nat (length done) + 1) with (Z.of_nat (length (done ++ [block_at o]))) by (rewrite length_app; cbn; lia).
      destruct (IH p1 _ _ (done ++ [block_at o]) Hp1) as (p' & -> & Hp'); [rewrite length_app; cbn; lia|].
      rewrite (unused_rest X o r Hu) in *. exists p'. unfold l. cbn [take map length]. rewrite length_app, <- app_assoc. cbn [length app].
      split; [do 3 f_equal; lia|]. cbn [list_to_set]. rewrite region_single, <- (assoc_L (∪)) in Hp'.
      pose proof (size_taken X o 1 ltac:(lia)) as Hsz. rewrite region_single in Hsz. rewrite <- !Hsz in Hp' by set_solver.
      replace (Z.max _ _) with (Z.max m (Z.of_nat (size X + S (length (take k r))))) in Hp' by (specialize (Hsz ltac:(set_solver)); lia).
      done.
Qed.

(** Freeing one pointer after the other: the last error is reported, the rest is freed. *)
Fixpoint abs_free_all (ptrs : list Z) (ret : Z) (X : gset Z) : Z * gset Z :=
  match ptrs with
  | [] => (ret, X)
  | ptr :: ptrs => let '(r, X) := abs_free X ptr 1 in abs_free_all ptrs (if r =? 0 then ret else r) X
  end.

Definition pointers (l : list Z) : Prop := Forall (fun ptr => 0 <= ptr < 2 ^ 32) l.

Lemma free_each_spec k i ret ptrs p X m : pool p X m -> pointers (take k (drop i ptrs)) ->
  (i + k <= length ptrs)%nat ->
  exists p', free_each k (Z.of_nat i) ret ptrs p =
    Some ((abs_free_all (take k (drop i ptrs)) ret X).1, p') /\
    pool p' (abs_free_all (take k (drop i ptrs)) ret X).2 m.
Proof using Hmem.
  revert i ret p X. induction k as [|k IH]; intros i ret p X Hp Hr Hl; cbn [free_each].
  { exists p. by rewrite take_0. }
  rewrite Nat2Z.id. destruct (lookup_lt_is_Some_2 ptrs i) as [ptr Hptr]; [lia|]. rewrite Hptr. cbn [mbind option_bind].
  rewrite (drop_S ptrs ptr i) in Hr |- * by done. cbn [take abs_free_all] in Hr |- *.
  apply Forall_cons in Hr as [Hpr Hr]. destruct Hmem as (Hn & _).
  destruct (free_blocks_spec p X m ptr 1 Hp ltac:(lia) Hpr) as (p1 & -> & Hp1).
  cbn [mbind option_bind]. destruct (abs_free X ptr 1) as [r X1]. cbn [fst snd] in *.
  replace (Z.of_nat i + 1) with (Z.of_nat (S i)) by lia.
  destruct (IH (S i) (if negb (r =? 0) then r else ret) p1 X1 Hp1 Hr) as (p' & -> & Hp'); [lia|].
  exists p'. by destruct (r =? 0).
Qed.

Lemma block_at_range i : 0 <= i < n -> 0 < block_at i < 2 ^ 32.
Proof using Hmem. intros Hi. pose proof pow_pos. destruct Hmem as (_ & _ & Hb & He & _). unfold block_at. nia. Qed.

(** Freeing the blocks of a list. *)
Lemma abs_free_blocks l X : NoDup l -> (forall i, i ∈ l -> 0 <= i < n /\ i ∈ X) ->
  abs_free_all (map block_at l) 0 X = (0, X ∖ list_to_set l).
Proof using Hmem.
  revert X. induction l as [|i l IH]; intros X Hnd Hin; cbn [map abs_free_all].
  { cbn. f_equal. by rewrite difference_empty_L. }
  apply NoDup_cons in Hnd as [Hni Hnd]. destruct (Hin i) as [Hi HiX]; [left|]. destruct Hmem as (_ & Hs & _).
  unfold abs_free at 1. rewrite block_of_at by done. rewrite (proj2 (Z.leb_le _ _)) by lia.
  rewrite region_single, bool_decide_eq_true_2 by (clear - HiX; set_solver). cbn [Z.eqb]. rewrite IH; [|done|].
  - cbn [list_to_set]. f_equal. clear. set_solver.
  - intros j Hj. destruct (Hin j) as [Hjr HjX]; [by right|]. split; [done|].
    apply elem_of_difference. split; [done|]. intros ->%elem_of_singleton. done.
Qed.

Lemma unused_back X l k : l = take k (unused X) -> (X ∪ list_to_set l) ∖ list_to_set l = X.
Proof using.
  clear Hmem. intros ->. apply set_eq. intros i. rewrite elem_of_difference, elem_of_union, elem_of_list_to_set.
  assert (i ∈ take k (unused X) -> i ∉ X).
  { intros Hi. apply elem_of_take in Hi as (j & Hi%list_elem_of_lookup_2 & _). by apply unused_lt in Hi as [_ ?]. }
  tauto.
Qed.

(** [count] single blocks, or none: the first free ones. *)
Definition abs_alloc (X : gset Z) (m count : Z) (out : list Z) : Z * list Z * gset Z * Z :=
  if n <? count then (- ENOMEM, out, X, m) else
  let l := take (Z.to_nat count) (unused X) in
  let out := over out (map block_at l) in
  let m := Z.max m (Z.of_nat (size X + length l)) in
  if Z.of_nat (length l) <? count then (- ENOMEM, out, X, m) else (0, out, X ∪ list_to_set l, m).

Lemma alloc_spec p X m count out : pool p X m -> 0 <= count -> (count <= n -> count <= Z.of_nat (length out)) ->
  exists p', sys_mem_blocks_alloc p count out = Some ((abs_alloc X m count out).1.1, p') /\
    pool p' (abs_alloc X m count out).1.2 (abs_alloc X m count out).2.
Proof using Hmem.
  intros Hp Hc Hlen. pose proof Hp as (H1 & _ & _ & _ & _ & _ & Hu & _ & Hle).
  unfold sys_mem_blocks_alloc, abs_alloc. rewrite H1, Z.gtb_ltb.
  destruct (Z.eqb_spec count 0) as [->|Hc0].
  { rewrite (proj2 (Z.ltb_ge n 0)), take_0 by (destruct Hmem; lia). cbn [map length fst snd list_to_set Z.of_nat]. change (0 <? 0) with false. cbn match. cbn [fst snd].
    rewrite over_nil, (right_id_L ∅ (∪)), Nat.add_0_r, Z.max_l by lia. by exists p. }
  destruct (Z.ltb_spec n count) as [Hbig|Hsm]; [by exists p|].
  destruct (alloc_each_spec (Z.to_nat count) p X m out [] Hp) as (p1 & Ha & Hp1); [cbn; lia|].
  rewrite over_nil in Ha. cbn [length app Nat.add] in Ha. change (Z.of_nat 0) with 0 in Ha. rewrite Ha. cbn [mbind option_bind].
  remember (take (Z.to_nat count) (unused X)) as l eqn:El.
  assert (Hnl : NoDup l /\ forall i, i ∈ l -> 0 <= i < n).
  { assert (Hs : l `sublist_of` unused X) by (rewrite El; apply sublist_take). split.
    - refine (sublist_NoDup _ _ _ Hs). apply NoDup_filter, NoDup_seqZ.
    - intros i Hi. eapply elem_of_sublist in Hi; [|exact Hs]. by apply unused_lt in Hi as [? _]. }
  destruct (Z.ltb_spec (Z.of_nat (length l)) count) as [Hlt|Hge]; [|by exists p1].
  unfold sys_mem_blocks_free. pose proof Hp1 as (-> & _). rewrite Z.gtb_ltb, (proj2 (Z.ltb_ge n _)) by lia.
  destruct (Z.eqb_spec (Z.of_nat (length l)) 0) as [Hz|Hz].
  { exists p1. cbn. destruct l; [|cbn in Hz; lia]. cbn in Hp1. by rewrite (right_id_L ∅ (∪)) in Hp1. }
  rewrite Nat2Z.id.
  assert (Htake : take (length l) (drop 0 (over out (map block_at l))) = map block_at l).
  { rewrite drop_0, <- (length_map block_at l). apply take_over. }
  assert (Hall : abs_free_all (map block_at l) 0 (X ∪ list_to_set l) = (0, X)).
  { rewrite abs_free_blocks; [by rewrite (unused_back X l (Z.to_nat count) El)|apply Hnl|].
    intros i Hi. split; [by apply Hnl|]. apply elem_of_union_r, elem_of_list_to_set, Hi. }
  destruct (free_each_spec (length l) 0 0 (over out (map block_at l)) p1 _ _ Hp1) as (p2 & Hf & Hp2).
  - rewrite Htake. apply Forall_map, Forall_forall. intros i Hi. apply Hnl in Hi. apply block_at_range in Hi. cbn. lia.
  - rewrite over_length; rewrite ?length_map; lia.
  - change (Z.of_nat 0) with 0 in Hf. rewrite Htake, Hall in *. rewrite Hf. by exists p2.
Qed.

(** ** Calls *)

Inductive pool_call :=
| PAlloc (count : Z) (out : list Z) | PContiguous (count : Z) | PGet (ptr count : Z)
| PFree (count : Z) (ptrs : list Z) | PFreeContiguous (ptr count : Z)
| PIsFree (ptr count : Z) | PStats | PResetMax.

Inductive pool_answer :=
| Ret (ret : Z) | RetBlock (ret : Z) (out : option Z) | RetBlocks (ret : Z) (out : list Z)
| RetFree (b : bool) | RetStats (allocated free max : Z).

Definition pool_exec (p : sys_mem_blocks) (c : pool_call) : option (pool_answer * sys_mem_blocks) :=
  match c with
  | PAlloc count out => '(r, out, p) ← sys_mem_blocks_alloc p count out; Some (RetBlocks r out, p)
  | PContiguous count => '(r, out, p) ← sys_mem_blocks_alloc_contiguous p count; Some (RetBlock r out, p)
  | PGet ptr count => '(r, p) ← sys_mem_blocks_get p ptr count; Some (Ret r, p)
  | PFree count ptrs => '(r, p) ← sys_mem_blocks_free p count ptrs; Some (Ret r, p)
  | PFreeContiguous ptr count => '(r, p) ← sys_mem_blocks_free_contiguous p ptr count; Some (Ret r, p)
  | PIsFree ptr count => b ← sys_mem_blocks_is_region_free p ptr count; Some (RetFree b, p)
  | PStats => let '(a, f, m) := sys_mem_blocks_runtime_stats_get p in Some (RetStats a f m, p)
  | PResetMax => Some (Ret 0, sys_mem_blocks_runtime_stats_reset_max p)
  end.

(** The same on the set of the blocks in use and the largest number of them so far. *)
Definition pool_spec (X : gset Z) (m : Z) (c : pool_call) : pool_answer * gset Z * Z :=
  match c with
  | PAlloc count out => let '(r, out, X, m) := abs_alloc X m count out in (RetBlocks r out, X, m)
  | PContiguous count =>
      if count =? 0 then (RetBlock 0 (Some 0), X, m) else
      match (if n <? count then None else first_fit X n count) with
      | None => (RetBlock (- ENOMEM) None, X, m)
      | Some o => (RetBlock 0 (Some (block_at o)), X ∪ region o count, Z.max m (Z.of_nat (size X) + count))
      end
  | PGet ptr count => let '(r, X) := abs_get X ptr count in (Ret r, X, Z.max m (Z.of_nat (size X)))
  | PFree count ptrs =>
      if n <? count then (Ret (- EINVAL), X, m) else
      let '(r, X) := abs_free_all (take (Z.to_nat count) ptrs) 0 X in (Ret r, X, m)
  | PFreeContiguous ptr count =>
      if count =? 0 then (Ret 0, X, m) else
      if n <? count then (Ret (- EINVAL), X, m) else
      let '(r, X) := abs_free X ptr count in (Ret r, X, m)
  | PIsFree ptr count =>
      (RetFree match block_of ptr with
               | Some i => (0 <? count) && bool_decide (region i count ## X)
               | None => false
               end, X, m)
  | PStats => (RetStats (Z.of_nat (size X) * 2 ^ sh) ((n - Z.of_nat (size X)) * 2 ^ sh) (m * 2 ^ sh), X, m)
  | PResetMax => (Ret 0, X, Z.of_nat (size X))
  end.

(** Arguments have 32 bits, arrays are as long as the count says, and the region asked about
    lies in the pool. *)
Definition pool_valid (c : pool_call) : Prop :=
  match c with
  | PAlloc count out => 0 <= count /\ (count <= n -> count <= Z.of_nat (length out))
  | PContiguous count => 0 <= count
  | PGet ptr count => 0 <= count < 2 ^ 32 /\ 0 <= ptr < 2 ^ 32
  | PFree count ptrs => 0 <= count /\ (count <= n -> count <= Z.of_nat (length ptrs)) /\ pointers ptrs
  | PFreeContiguous ptr count => 0 <= count /\ 0 <= ptr < 2 ^ 32
  | PIsFree ptr count => 0 <= count /\ 0 <= ptr < 2 ^ 32 /\ exists i, block_of ptr = Some i /\ i + count <= n
  | PStats | PResetMax => True
  end.

Lemma contiguous_spec p X m count : pool p X m -> 0 <= count ->
  exists p', pool_exec p (PContiguous count) = Some ((pool_spec X m (PContiguous count)).1.1, p') /\
    pool p' (pool_spec X m (PContiguous count)).1.2 (pool_spec X m (PContiguous count)).2.
Proof using Hmem.
  intros Hp Hc. pose proof Hp as (H1 & _). cbn [pool_exec pool_spec]. unfold sys_mem_blocks_alloc_contiguous.
  rewrite H1, Z.gtb_ltb. destruct (Z.eqb_spec count 0) as [->|Hc0]; [by exists p|].
  destruct (Z.ltb_spec n count) as [|Hle]; [by exists p|].
  destruct (alloc_blocks_spec p X m count Hp ltac:(lia)) as (p' & Ha).
  destruct (first_fit X n count) as [o|] eqn:Hff; destruct Ha as [-> Hp']; cbn [mbind option_bind].
  - apply first_fit_inv in Hff as [Ho _].
    pose proof (block_at_range o ltac:(lia)). rewrite (proj2 (Z.eqb_neq (block_at o) 0)) by lia. by exists p'.
  - by exists p'.
Qed.

Lemma free_list_spec p X m count ptrs : pool p X m -> pool_valid (PFree count ptrs) ->
  exists p', pool_exec p (PFree count ptrs) = Some ((pool_spec X m (PFree count ptrs)).1.1, p') /\
    pool p' (pool_spec X m (PFree count ptrs)).1.2 (pool_spec X m (PFree count ptrs)).2.
Proof using Hmem.
  intros Hp (Hc & Hl & Hr). pose proof Hp as (H1 & _). cbn [pool_exec pool_spec]. unfold sys_mem_blocks_free.
  rewrite H1, Z.gtb_ltb. destruct (Z.eqb_spec count 0) as [->|Hc0].
  { rewrite (proj2 (Z.ltb_ge n 0)) by (destruct Hmem; lia). by exists p. }
  destruct (Z.ltb_spec n count) as [|Hle]; [by exists p|].
  destruct (free_each_spec (Z.to_nat count) 0 0 ptrs p X m Hp) as (p' & Hf & Hp').
  - rewrite drop_0. by apply Forall_take.
  - lia.
  - change (Z.of_nat 0) with 0 in Hf. rewrite drop_0 in *. rewrite Hf. cbn [mbind option_bind].
    destruct (abs_free_all _ _ _) as [r X']. by exists p'.
Qed.

Lemma is_free_spec p X m ptr count : pool p X m -> pool_valid (PIsFree ptr count) ->
  pool_exec p (PIsFree ptr count) = Some ((pool_spec X m (PIsFree ptr count)).1.1, p).
Proof using Hmem.
  intros Hp (Hc & Hptr & i & Hi & Hin). pose proof Hp as (H1 & H2 & H3 & Hwf & Hnb & HX & _).
  cbn [pool_exec pool_spec]. unfold sys_mem_blocks_is_region_free. rewrite H1, H2, H3, Hi.
  destruct (offset_block ptr Hptr) as [Ho Hb]. rewrite Hi in Hb. set (o := u32 _) in *.
  destruct (Z.ltb_spec o n); [|done]. injection Hb as ->. pose proof blocks_bound.
  rewrite wrap_u_small, (proj2 (Z.leb_le _ _)) by lia.
  destruct (is_region_call (mb_bitmap p) Hwf count o Hc ltac:(lia) ltac:(lia) false) as (bm & Hx & _).
  cbn [exec spec] in Hx. rewrite Hnb, HX in Hx. unfold fits in Hx. rewrite (proj2 (Z.leb_le _ _)), andb_true_r in Hx by lia.
  destruct (sys_bitarray_is_region_cleared _ _ _) as [b|]; [|done]. cbn [mbind option_bind] in *. cbn [fst] in Hx.
  by injection Hx as -> _.
Qed.

Lemma stats_spec p X m : pool p X m ->
  pool_exec p PStats = Some ((pool_spec X m PStats).1.1, p).
Proof using Hmem.
  intros (H1 & H2 & H3 & Hwf & Hnb & HX & Hu & Hm & Hle). cbn [pool_exec pool_spec].
  unfold sys_mem_blocks_runtime_stats_get. rewrite H1, H2, Hu, Hm. pose proof pow_pos. destruct Hmem as (Hn & Hs & _ & _ & Hsz).
  rewrite !Z.shiftl_mul_pow2 by lia.
  rewrite !(wrap_u_small 32 (_ * _)) by nia. rewrite wrap_u_small by nia. cbn [fst]. do 3 f_equal. lia.
Qed.

Lemma pool_call_spec p X m c : pool p X m -> pool_valid c ->
  exists p', pool_exec p c = Some ((pool_spec X m c).1.1, p') /\ pool p' (pool_spec X m c).1.2 (pool_spec X m c).2.
Proof using Hmem.
  intros Hp Hv. destruct c as [count out|count|ptr count|count ptrs|ptr count|ptr count| |].
  - destruct Hv as [Hc Hl]. destruct (alloc_spec p X m count out Hp Hc Hl) as (p' & Ha & Hp').
    exists p'. cbn [pool_exec pool_spec]. rewrite Ha. by destruct (abs_alloc X m count out) as [[[r o] X'] m'].
  - by apply contiguous_spec.
  - destruct Hv as [Hc Hptr]. destruct (get_spec p X m ptr count Hp Hc Hptr) as (p' & Ha & Hp').
    exists p'. cbn [pool_exec pool_spec]. rewrite Ha. by destruct (abs_get X ptr count) as [r X'].
  - by apply free_list_spec.
  - destruct Hv as [Hc Hptr]. pose proof Hp as (H1 & _). cbn [pool_exec pool_spec]. unfold sys_mem_blocks_free_contiguous.
    rewrite H1, Z.gtb_ltb. destruct (Z.eqb_spec count 0); [by exists p|]. destruct (Z.ltb_spec n count); [by exists p|].
    destruct (free_blocks_spec p X m ptr count Hp ltac:(lia) Hptr) as (p' & -> & Hp').
    exists p'. by destruct (abs_free X ptr count) as [r X'].
  - exists p. split; [by apply is_free_spec|done].
  - exists p. split; [by apply stats_spec|done].
  - exists (sys_mem_blocks_runtime_stats_reset_max p). split; [done|].
    destruct Hp as (H1 & H2 & H3 & Hwf & Hnb & HX & Hu & Hm & Hle). unfold pool. cbn. split_and!; done || lia.
Qed.

(** The answers to a sequence of calls. *)
Fixpoint pool_run (p : sys_mem_blocks) (cs : list pool_call) : option (list pool_answer) :=
  match cs with
  | [] => Some []
  | c :: cs => '(a, p) ← pool_exec p c; l ← pool_run p cs; Some (a :: l)
  end.

Fixpoint pool_spec_run (X : gset Z) (m : Z) (cs : list pool_call) : list pool_answer :=
  match cs with
  | [] => []
  | c :: cs => let '(a, X, m) := pool_spec X m c in a :: pool_spec_run X m cs
  end.

Lemma pool_run_spec p X m cs : pool p X m -> Forall pool_valid cs -> pool_run p cs = Some (pool_spec_run X m cs).
Proof using Hmem.
  intros Hp Hv. revert p X m Hp. induction Hv as [|c cs Hc _ IH]; intros p X m Hp; [done|]. cbn [pool_run pool_spec_run].
  destruct (pool_call_spec p X m c Hp Hc) as (p' & -> & Hp'). cbn [mbind option_bind].
  rewrite (IH p' _ _ Hp'). by destruct (pool_spec X m c) as [[a X'] m'].
Qed.

Lemma define_pool : pool (SYS_MEM_BLOCKS_DEFINE (2 ^ sh) n buf) ∅ 0.
Proof using Hmem.
  pose proof blocks_bound. destruct Hmem as (Hn & Hs & _). destruct (define_wf n) as [Hwf HX]; [lia|].
  unfold pool, SYS_MEM_BLOCKS_DEFINE. cbn [mb_num_blocks mb_shift mb_buffer mb_bitmap mb_used mb_max_used].
  rewrite Z.log2_pow2 by done. split_and!; done || lia.
Qed.
End Pool.

(** C32: Under any sequence of calls a pool of memory blocks is the set of its blocks in use:
    single blocks are the first free ones and a contiguous run the first that fits. A request that
    cannot be met leaves the set as it was; one for single blocks, no more than the pool has, has
    then written the free blocks it found to the array and raised the maximum in the statistics to
    the whole pool. Freeing an array frees the blocks in it that are in use and returns the last
    error for the others; a run is freed as a whole or not at all. The statistics count the
    blocks; no assertion fails and no access leaves an array. *)
Theorem mem_blocks_refine_set n sh buf cs : in_memory n sh buf -> Forall (pool_valid n sh buf) cs ->
  pool_run (SYS_MEM_BLOCKS_DEFINE (2 ^ sh) n buf) cs = Some (pool_spec_run n sh buf ∅ 0 cs).
Proof. intros Hm Hv. eapply pool_run_spec; [done|by apply define_pool|done]. Qed.

Lemma mem_blocks_refine_set_witness :
  pool_run (SYS_MEM_BLOCKS_DEFINE (2 ^ 5) 6 0x1000)
    [PContiguous 3; PAlloc 2 [0; 0]; PGet 0x1080 1; PGet 0x10A0 1; PFree 2 [0x1020; 0x1000]; PContiguous 3;
     PAlloc 3 [1; 2; 3]; PStats; PFreeContiguous 0x1040 1; PIsFree 0x1000 3; PFree 1 [0x10C0]; PResetMax; PStats] =
  Some [RetBlock 0 (Some 0x1000); RetBlocks 0 [0x1060; 0x1080]; Ret (- ENOMEM); Ret 0; Ret 0;
    RetBlock (- ENOMEM) None; RetBlocks (- ENOMEM) [0x1000; 0x1020; 3]; RetStats 128 64 192; Ret 0; RetFree true;
    Ret (- EFAULT); Ret 0; RetStats 96 96 96].
Proof.
  rewrite (mem_blocks_refine_set 6 5 0x1000).
  - vm_compute. reflexivity.
  - unfold in_memory. lia.
  - repeat apply Forall_cons_2; try apply Forall_nil_2; cbn [pool_valid length]; unfold pointers;
      try (split; [lia|]; split; [lia|]); try (repeat constructor; lia).
    exists 0. split; [reflexivity|lia].
Defined.

(** ** Groups *)

Definition inside (p : sys_mem_blocks) (ptr : Z) : Prop :=
  mb_buffer p <= ptr < mb_buffer p + mb_num_blocks p * 2 ^ mb_shift p.

Definition in_order (p : sys_mem_blocks) : Prop :=
  in_memory (mb_num_blocks p) (mb_shift p) (mb_buffer p) /\
  exists X m, pool (mb_num_blocks p) (mb_shift p) (mb_buffer p) p X m.

(** The pools of a group are in order and their buffers disjoint. *)
Definition group_ok {cfg} (g : sys_multi_mem_blocks cfg) (ps : gmap Z sys_mem_blocks) : Prop :=
  num_allocators g = Z.of_nat (length (allocators g)) /\
  (forall a, a ∈ allocators g -> exists p, ps !! a = Some p /\ in_order p) /\
  forall a b pa pb ptr, a ∈ allocators g -> b ∈ allocators g -> ps !! a = Some pa -> ps !! b = Some pb ->
    inside pa ptr -> inside pb ptr -> a = b.

(** The blocks in use, pool by pool. *)
Definition in_use (ps : gmap Z sys_mem_blocks) (a : Z) : option (gset Z) :=
  (fun p => members (mb_bitmap p)) <$> ps !! a.

Lemma pool_layout n sh buf p X m : pool n sh buf p X m ->
  mb_num_blocks p = n /\ mb_shift p = sh /\ mb_buffer p = buf /\ members (mb_bitmap p) = X.
Proof. by intros (-> & -> & -> & _ & _ & -> & _). Qed.

Lemma find_allocator_spec l ps ptr a p :
  (forall b, b ∈ l -> exists q, ps !! b = Some q /\ in_order q) ->
  (forall b q, b ∈ l -> ps !! b = Some q -> inside q ptr -> b = a) ->
  a ∈ l -> ps !! a = Some p -> inside p ptr -> find_allocator l ps ptr = Some (Some a).
Proof.
  intros Hok Huniq Ha Hp Hin. induction l as [|b l IH]; [by apply elem_of_nil in Ha|]. cbn [find_allocator].
  destruct (Hok b) as (q & Hq & Hm & _); [left|]. rewrite Hq. cbn [mbind option_bind].
  destruct Hm as (Hn & Hs & Hb & He & _). pose proof (Z.pow_pos_nonneg 2 (mb_shift q) ltac:(lia) Hs).
  unfold BIT. rewrite Z.shiftl_1_l, (wrap_u_small 32 (2 ^ _ * _)), wrap_u_small, Z.geb_leb by nia.
  destruct ((mb_buffer q <=? ptr) && (ptr <? mb_buffer q + 2 ^ mb_shift q * mb_num_blocks q)) eqn:Hbr.
  - apply andb_prop in Hbr as [H1%Z.leb_le H2%Z.ltb_lt].
    do 2 f_equal. apply (Huniq b q); [left|done|unfold inside; lia].
  - apply IH; [intros c Hc; apply Hok; by right|intros c d Hc; apply Huniq; by right|].
    apply elem_of_cons in Ha as [->|]; [|done]. assert (q = p) as -> by congruence. exfalso.
    apply andb_false_iff in Hbr. rewrite Z.leb_gt, Z.ltb_ge in Hbr. unfold inside in Hin. lia.
Qed.

Section Group.
Context {cfg : Type} (g : sys_multi_mem_blocks cfg).

(** A pool of the group is replaced by one with the same layout. *)
Lemma group_ok_insert ps a p p' : group_ok g ps -> ps !! a = Some p -> in_order p' ->
  mb_num_blocks p' = mb_num_blocks p -> mb_shift p' = mb_shift p -> mb_buffer p' = mb_buffer p ->
  group_ok g (<[a := p']> ps).
Proof.
  intros (Hl & Hok & Hd) Hp Hp' E1 E2 E3. split; [done|].
  assert (Hback : forall b q, <[a := p']> ps !! b = Some q -> exists q0, ps !! b = Some q0 /\ forall ptr, inside q ptr -> inside q0 ptr).
  { intros b q. destruct (decide (b = a)) as [->|Hne].
    - rewrite lookup_insert_eq. intros [= <-]. exists p. split; [done|]. unfold inside. by rewrite E1, E2, E3.
    - rewrite lookup_insert_ne by done. eauto. }
  split.
  - intros b Hb. destruct (decide (b = a)) as [->|Hne]; [rewrite lookup_insert_eq; eauto|].
    rewrite lookup_insert_ne by done. auto.
  - intros b c qb qc ptr Hb Hc Eb Ec Hib Hic. destruct (Hback b qb Eb) as (b0 & Eb0 & Hb0), (Hback c qc Ec) as (c0 & Ec0 & Hc0).
    apply (Hd b c b0 c0 ptr); auto.
Qed.

Lemma in_use_insert ps a p X : ps !! a = Some p -> members (mb_bitmap p) = X ->
  forall p' b, members (mb_bitmap p') = X -> in_use (<[a := p']> ps) b = in_use ps b.
Proof.
  intros Hp HX p' b HX'. unfold in_use. destruct (decide (b = a)) as [->|Hne].
  - rewrite lookup_insert_eq, Hp. cbn. congruence.
  - by rewrite lookup_insert_ne.
Qed.
End Group.

(** Blocks that were handed out can be given back. *)
Lemma alloc_then_free n sh buf p X m count out : in_memory n sh buf -> pool n sh buf p X m ->
  0 < count <= Z.of_nat (length out) ->
  exists r out' p' X' m', sys_mem_blocks_alloc p count out = Some (r, out', p') /\ pool n sh buf p' X' m' /\
    if r =? 0 then
      exists l, length l = Z.to_nat count /\ out' = over out (map (block_at sh buf) l) /\ NoDup l /\
        (forall i, i ∈ l -> 0 <= i < n /\ i ∉ X) /\ X' = X ∪ list_to_set l /\
        exists p'', sys_mem_blocks_free p' count out' = Some (0, p'') /\ pool n sh buf p'' X m'
    else r = - ENOMEM /\ X' = X.
Proof.
  intros Hm Hp Hc. destruct (alloc_spec n sh buf Hm p X m count out Hp) as (p' & Ha & Hp'); [lia|lia|].
  revert Ha Hp'. unfold abs_alloc. destruct (Z.ltb_spec n count) as [|Hn];
    [cbn [fst snd]; intros Ha Hp'; do 5 eexists; split; [exact Ha|]; split; [exact Hp'|done]|].
  set (l := take (Z.to_nat count) (unused n X)).
  destruct (Z.ltb_spec (Z.of_nat (length l)) count) as [|Hl]; cbn [fst snd]; intros Ha Hp';
    [do 5 eexists; split; [exact Ha|]; split; [exact Hp'|done]|].
  do 5 eexists. split; [exact Ha|]. split; [exact Hp'|]. cbn [Z.eqb]. exists l.
  assert (Hsub : l `sublist_of` unused n X) by apply sublist_take.
  assert (Hnd : NoDup l) by (refine (sublist_NoDup _ _ _ Hsub); apply NoDup_filter, NoDup_seqZ).
  assert (Hin : forall i, i ∈ l -> 0 <= i < n /\ i ∉ X).
  { intros i Hi. eapply elem_of_sublist in Hi; [|exact Hsub]. by apply (unused_lt n). }
  assert (Hlen : length l = Z.to_nat count) by (pose proof (length_take (unused n X) (Z.to_nat count)); unfold l in *; lia).
  split; [done|]. split; [done|]. split; [done|]. split; [done|]. split; [done|].
  unfold sys_mem_blocks_free. pose proof Hp' as (-> & _).
  rewrite (proj2 (Z.eqb_neq count 0)), Z.gtb_ltb, (proj2 (Z.ltb_ge n _)) by lia. rewrite <- Hlen.
  assert (Htake : take (length l) (drop 0 (over out (map (block_at sh buf) l))) = map (block_at sh buf) l).
  { rewrite drop_0, <- (length_map (block_at sh buf) l). apply take_over. }
  destruct (free_each_spec n sh buf Hm (length l) 0 0 (over out (map (block_at sh buf) l)) p' _ _ Hp') as (p2 & Hf & Hp2).
  - rewrite Htake. apply Forall_map, Forall_forall. intros i Hi. apply Hin in Hi as [Hi _].
    apply (block_at_range n sh buf Hm) in Hi. cbn. lia.
  - rewrite over_length; rewrite ?length_map; lia.
  - change (Z.of_nat 0) with 0 in Hf. rewrite Htake in Hf, Hp2.
    rewrite (abs_free_blocks n sh buf Hm l (X ∪ list_to_set l) Hnd) in Hf, Hp2 by
      (intros i Hi; split; [by apply Hin|apply elem_of_union_r, elem_of_list_to_set, Hi]).
    rewrite Hf. exists p2. split; [done|]. cbn [snd] in Hp2. by rewrite (unused_back n X l (Z.to_nat count) eq_refl) in Hp2.
Qed.

(** C33: Allocating from a group whose pools are in order and disjoint takes free blocks of
    the pool that was chosen, or returns -ENOMEM with the blocks in use of every pool as they
    were; giving the same array back finds that pool again and restores what was in use in every
    pool. *)
Theorem multi_mem_blocks_roundtrip {cfg} (g : sys_multi_mem_blocks cfg) ps c a count out :
  group_ok g ps -> choice_fn g (allocators g) ps c = Some a -> a ∈ allocators g ->
  0 < count <= Z.of_nat (length out) ->
  exists r out' blk_size ps', sys_multi_mem_blocks_alloc g ps c count out = Some (r, out', blk_size, ps') /\
    group_ok g ps' /\
    if r =? 0 then
      (exists p, ps !! a = Some p /\ blk_size = Some (2 ^ mb_shift p) /\
        Forall (inside p) (take (Z.to_nat count) out')) /\
      exists ps'', sys_multi_mem_blocks_free g ps' count out' = Some (0, ps'') /\ group_ok g ps'' /\
        forall b, in_use ps'' b = in_use ps b
    else r = - ENOMEM /\ forall b, in_use ps' b = in_use ps b.
Proof.
  intros Hg Hch Ha Hc. pose proof Hg as (Hnum & Hok & Hdis). destruct (Hok a Ha) as (p & Hp & Hm & X & m & Hpool).
  pose proof (pool_layout _ _ _ _ _ _ Hpool) as (_ & _ & _ & HX).
  unfold sys_multi_mem_blocks_alloc. rewrite (proj2 (Z.eqb_neq count 0)), Hch, Hp by lia. cbn [mbind option_bind].
  rewrite Z.gtb_ltb. destruct (Z.ltb_spec (mb_num_blocks p) count) as [|Hcn]; [do 4 eexists; split; [done|]; split; [done|]; done|].
  destruct (alloc_then_free _ _ _ p X m count out Hm Hpool Hc) as (r & out' & p' & X' & m' & -> & Hp' & Hr).
  cbn [mbind option_bind]. do 4 eexists. split; [done|].
  pose proof (pool_layout _ _ _ _ _ _ Hp') as (E1 & E2 & E3 & HX').
  assert (Hg' : group_ok g (<[a := p']> ps)).
  { apply (group_ok_insert g ps a p p' Hg Hp); try done. split; [by rewrite E1, E2, E3|]. rewrite E1, E2, E3. eauto. }
  split; [done|]. destruct (r =? 0) eqn:Er; [|by destruct Hr as [-> ->]; split; [|intros b; by apply (in_use_insert ps a p X Hp HX)]].
  destruct Hr as (l & Hlen & -> & Hnd & Hl & -> & p'' & Hf & Hp'').
  assert (Htake : take (Z.to_nat count) (over out (map (block_at (mb_shift p) (mb_buffer p)) l)) =
    map (block_at (mb_shift p) (mb_buffer p)) l).
  { rewrite <- Hlen, <- (length_map (block_at (mb_shift p) (mb_buffer p)) l). apply take_over. }
  assert (Hins : Forall (inside p) (map (block_at (mb_shift p) (mb_buffer p)) l)).
  { apply Forall_map, Forall_forall. intros i Hi. apply Hl in Hi as [Hi _]. destruct Hm as (_ & Hs & _).
    pose proof (Z.pow_pos_nonneg 2 (mb_shift p) ltac:(lia) Hs). cbn. unfold inside, block_at. nia. }
  split; [exists p; rewrite E2, Htake; unfold BIT; by rewrite Z.shiftl_1_l|].
  destruct l as [|i l]; [cbn in Hlen; lia|]. unfold sys_multi_mem_blocks_free.
  rewrite (proj2 (Z.eqb_neq count 0)), Hnum, Nat2Z.id, firstn_all by lia. change (over out (map ?f (i :: l)) !! 0%nat) with (Some (f i)).
  cbn [mbind option_bind]. pose proof Hg' as (_ & Hok' & Hdis'). apply Forall_cons in Hins as [Hi _].
  assert (Hi' : inside p' (block_at (mb_shift p) (mb_buffer p) i)) by (unfold inside; by rewrite E1, E2, E3).
  rewrite (find_allocator_spec _ _ _ a p'); [|done| |done|apply lookup_insert_eq|done].
  - cbn [mbind option_bind]. rewrite lookup_insert_eq. cbn [mbind option_bind]. rewrite Hf. cbn [mbind option_bind].
    exists (<[a := p'']> (<[a := p']> ps)). split; [done|].
    pose proof (pool_layout _ _ _ _ _ _ Hp'') as (F1 & F2 & F3 & HX''). rewrite insert_insert_eq. split.
    + apply (group_ok_insert g ps a p p'' Hg Hp); try done. split; [by rewrite F1, F2, F3|]. rewrite F1, F2, F3. eauto.
    + intros b. by apply (in_use_insert ps a p X Hp HX).
  - intros b q Hb Hq Hin. by apply (Hdis' b a q p' _ Hb Ha Hq (lookup_insert_eq _ _ _) Hin).
Qed.

Definition demo_pools : gmap Z sys_mem_blocks :=
  <[1 := SYS_MEM_BLOCKS_DEFINE (2 ^ 4) 2 0x100]> (<[2 := SYS_MEM_BLOCKS_DEFINE (2 ^ 5) 4 0x200]> ∅).
Definition demo_group : sys_multi_mem_blocks Z := mkGroup Z 2 (fun _ _ size => Some (if size <=? 16 then 1 else 2)) [1; 2].

Lemma demo_in_order n sh buf : in_memory n sh buf -> in_order (SYS_MEM_BLOCKS_DEFINE (2 ^ sh) n buf).
Proof.
  intros Hm. pose proof (define_pool n sh buf Hm) as Hp. pose proof (pool_layout _ _ _ _ _ _ Hp) as (E1 & E2 & E3 & _).
  split; rewrite E1, E2, E3; eauto.
Qed.

Lemma demo_group_ok : group_ok demo_group demo_pools.
Proof.
  split; [done|]. split.
  - intros a [->|[->|[]%elem_of_nil]%elem_of_cons]%elem_of_cons; eexists; (split; [reflexivity|]); apply demo_in_order; unfold in_memory; lia.
  - intros a b pa pb ptr Ha Hb.
    apply elem_of_cons in Ha as [->|[->|[]%elem_of_nil]%elem_of_cons];
      apply elem_of_cons in Hb as [->|[->|[]%elem_of_nil]%elem_of_cons]; intros [= <-] [= <-]; try done; intros H1 H2.
    + change (0x100 <= ptr < 0x120) in H1. change (0x200 <= ptr < 0x280) in H2. lia.
    + change (0x100 <= ptr < 0x120) in H2. change (0x200 <= ptr < 0x280) in H1. lia.
Qed.

Lemma multi_mem_blocks_roundtrip_witness :
  exists out' ps', sys_multi_mem_blocks_alloc demo_group demo_pools 20 3 [0; 0; 0] = Some (0, out', Some 32, ps') /\
    exists ps'', sys_multi_mem_blocks_free demo_group ps' 3 out' = Some (0, ps'') /\ in_use ps'' 2 = Some ∅.
Proof.
  destruct (multi_mem_blocks_roundtrip demo_group demo_pools 20 2 3 [0; 0; 0] demo_group_ok eq_refl
    ltac:(by_decision) ltac:(cbn; lia)) as (r & out' & sz & ps' & Ha & _ & Hr).
  assert (Hz : option_map (fun x => fst (fst (fst x))) (sys_multi_mem_blocks_alloc demo_group demo_pools 20 3 [0; 0; 0]) = Some 0)
    by (vm_compute; reflexivity).
  rewrite Ha in Hz. injection Hz as ->. destruct Hr as [(p & [= <-] & -> & _) (ps'' & Hf & _ & Hu)].
  exists out', ps'. split; [exact Ha|]. exists ps''. split; [exact Hf|]. rewrite Hu. vm_compute. reflexivity.
Defined.
