(* ===== verification/Sched.v ===== *)
(** * The scheduler (kernel/sched.c, kernel/timeslicing.c, kernel/include/{kthread,ksched,kswap}.h)

    Thread states, the ready queue and its cached choice, wait queues, time slices,
    context switches, and the thread calls built on them: starting, suspending,
    resuming, aborting, joining, sleeping, waking and changing priority.  Every
    function of the sources that the modelled build compiles is a definition here
    under its own name; code that needs a second CPU is left out, as
    [thread_active_elsewhere] finds no other CPU on a uniprocessor. *)

From S2P Require Import Prelude TimeUnits Timeout PriorityQ KState.

Local Open Scope Z_scope.

(** ** Thread state (kthread.h) *)

Definition is_thread_dummy (th : k_thread) : bool :=
  negb (Z.land (thread_state th) _THREAD_DUMMY =? 0).
Definition z_is_thread_suspended (th : k_thread) : bool :=
  negb (Z.land (thread_state th) _THREAD_SUSPENDED =? 0).
Definition z_is_thread_pending (th : k_thread) : bool :=
  negb (Z.land (thread_state th) _THREAD_PENDING =? 0).
Definition prevented_mask : Z :=
  Z.lor _THREAD_PENDING (Z.lor _THREAD_PRESTART (Z.lor _THREAD_DEAD
    (Z.lor _THREAD_DUMMY _THREAD_SUSPENDED))).
Definition z_is_thread_prevented_from_running (th : k_thread) : bool :=
  negb (Z.land (thread_state th) prevented_mask =? 0).
Definition z_is_thread_timeout_active (thread : tid) (s : kstate) : bool :=
  negb (z_is_inactive_timeout (TN_thread thread) (tq s)).
Definition z_is_thread_ready (thread : tid) : K bool :=
  th ← get_thread thread;
  active ← kget (z_is_thread_timeout_active thread);
  mret (negb (z_is_thread_prevented_from_running th || active)).
Definition z_has_thread_started (th : k_thread) : bool :=
  Z.land (thread_state th) _THREAD_PRESTART =? 0.
Definition z_is_thread_state_set (th : k_thread) (state : Z) : bool :=
  negb (Z.land (thread_state th) state =? 0).
Definition z_is_thread_queued (th : k_thread) : bool := z_is_thread_state_set th _THREAD_QUEUED.

Definition set_state_bits (bits : Z) (th : k_thread) : k_thread :=
  with_thread_state (Z.lor (thread_state th) bits) th.
Definition clear_state_bits (bits : Z) (th : k_thread) : k_thread :=
  with_thread_state (Z.land (thread_state th) (Z.lnot bits)) th.

Definition z_mark_thread_as_suspended (t : tid) : K unit := upd_thread t (set_state_bits _THREAD_SUSPENDED).
Definition z_mark_thread_as_not_suspended (t : tid) : K unit := upd_thread t (clear_state_bits _THREAD_SUSPENDED).
Definition z_mark_thread_as_started (t : tid) : K unit := upd_thread t (clear_state_bits _THREAD_PRESTART).
Definition z_mark_thread_as_pending (t : tid) : K unit := upd_thread t (set_state_bits _THREAD_PENDING).
Definition z_mark_thread_as_not_pending (t : tid) : K unit := upd_thread t (clear_state_bits _THREAD_PENDING).

Definition z_thread_essential_set (th : k_thread) : k_thread :=
  with_user_options (Z.lor (user_options th) K_ESSENTIAL) th.
Definition z_thread_essential_clear (th : k_thread) : k_thread :=
  with_user_options (Z.land (user_options th) (Z.lnot K_ESSENTIAL)) th.
Definition z_is_thread_essential (th : k_thread) : bool :=
  Z.land (user_options th) K_ESSENTIAL =? K_ESSENTIAL.

(** [thread->base.preempt], the union of [prio] and [sched_locked]. *)
Definition preempt (th : k_thread) : Z := sched_locked th * 256 + prio th mod 256.
Definition thread_is_preemptible (th : k_thread) : bool := preempt th <=? _PREEMPT_THRESHOLD.

Section Sched.
Context `{KConfig}.

Definition thread_is_metairq (th : k_thread) : bool :=
  if CONFIG_NUM_METAIRQ_PRIORITIES >? 0
  then prio th - K_HIGHEST_THREAD_PRIO <? CONFIG_NUM_METAIRQ_PRIORITIES
  else false.

Definition z_is_idle_thread_object (thread : tid) : bool := bool_decide (thread = z_idle_thread).

Definition should_preempt (thread : tid) (preempt_ok : bool) : K bool :=
  if preempt_ok then mret true
  else
    curr ← kget current;
    curr_th ← get_thread curr;
    if z_is_thread_prevented_from_running curr_th then mret true
    else
      active ← kget (z_is_thread_timeout_active thread);
      if CONFIG_SWAP_NONATOMIC && active then mret true
      else
        th ← get_thread thread;
        mret (thread_is_preemptible curr_th || thread_is_metairq th).

(** ** The ready queue (sched.c)

    Unlinking a node that is not linked, or linking one that is, is undefined. *)

Definition runq_add (thread : tid) : K unit :=
  kassert (negb (z_is_idle_thread_object thread));;
  _ ← get_thread thread;
  q ← kget runq;
  kassert (bool_decide (thread ∉ q));;
  kmod (fun s => set_runq (z_priq_dumb_add (prio_of s) thread (runq s)) s).

Definition runq_remove (thread : tid) : K unit :=
  kassert (negb (z_is_idle_thread_object thread));;
  q ← kget runq;
  kassert (bool_decide (thread ∈ q));;
  kmod (fun s => set_runq (z_priq_dumb_remove thread (runq s)) s).

Definition runq_best : K (option tid) := kget (fun s => z_priq_dumb_best (runq s)).

Definition should_queue_thread (thread : tid) : bool := true.

Definition queue_thread (thread : tid) : K unit :=
  upd_thread thread (set_state_bits _THREAD_QUEUED);;
  kwhen (should_queue_thread thread) (runq_add thread).

Definition dequeue_thread (thread : tid) : K unit :=
  upd_thread thread (clear_state_bits _THREAD_QUEUED);;
  kwhen (should_queue_thread thread) (runq_remove thread).

Definition is_aborting (th : k_thread) : bool :=
  negb (Z.land (thread_state th) _THREAD_ABORTING =? 0).
Definition is_halting (th : k_thread) : bool :=
  negb (Z.land (thread_state th) (Z.lor _THREAD_ABORTING _THREAD_SUSPENDING) =? 0).
Definition clear_halting (thread : tid) : K unit :=
  upd_thread thread (clear_state_bits (Z.lor _THREAD_ABORTING _THREAD_SUSPENDING)).

(** The preprocessor condition on the MetaIRQ bookkeeping. *)
Definition metairq_tracking : bool :=
  (CONFIG_NUM_METAIRQ_PRIORITIES >? 0) &&
  (CONFIG_NUM_COOP_PRIORITIES >? CONFIG_NUM_METAIRQ_PRIORITIES).

Definition next_up : K tid :=
  thread ← runq_best;
  thread ← (if metairq_tracking then
    mirqp ← kget metairq_preempted;
    is_mirq ← (match thread with
               | None => mret false
               | Some t => th ← get_thread t; mret (thread_is_metairq th)
               end : K bool);
    match mirqp with
    | Some m =>
        if (is_mirq : bool) then mret thread
        else
          mth ← get_thread m;
          if negb (z_is_thread_prevented_from_running mth) then mret (Some m)
          else kmod (set_metairq_preempted None);; mret thread
    | None => mret thread
    end
  else mret thread : K (option tid));
  mret (default z_idle_thread thread).

Definition update_metairq_preempt (thread : tid) : K unit :=
  if metairq_tracking then
    th ← get_thread thread;
    curr ← kget current;
    curr_th ← get_thread curr;
    if thread_is_metairq th && negb (thread_is_metairq curr_th)
       && negb (thread_is_preemptible curr_th)
    then kmod (set_metairq_preempted (Some curr))
    else if negb (thread_is_metairq th) && negb (z_is_idle_thread_object thread)
    then kmod (set_metairq_preempted None)
    else mret tt
  else mret tt.

(** ** Time slices (timeslicing.c) *)

Definition z_is_prio_higher (prio test_prio : Z) : bool := prio <? test_prio.

Definition slice_time (thread : tid) : K Z := kget slice_ticks.

Definition thread_is_sliceable (thread : tid) : K bool :=
  th ← get_thread thread;
  st ← slice_time thread;
  max_prio ← kget slice_max_prio;
  mret (thread_is_preemptible th && negb (st =? 0)
        && negb (z_is_prio_higher (prio th) max_prio)
        && negb (z_is_thread_prevented_from_running th)
        && negb (z_is_idle_thread_object thread)).

Definition slice_timeout : K unit := kmod (set_slice_expired true).

Definition z_reset_time_slice (thread : tid) : K unit :=
  _ ← k_abort_timeout TN_slice;
  kmod (set_slice_expired false);;
  sliceable ← thread_is_sliceable thread;
  kwhen sliceable
    (st ← slice_time thread;
     k_add_timeout TN_slice fn_slice_timeout (K_TICKS (st - 1))).

Definition k_sched_time_slice_set (slice prio : Z) : K unit :=
  K_SPINLOCK
    (kmod (set_slice_ticks (s32 (k_ms_to_ticks_ceil32 slice)));;
     kmod (set_slice_max_prio prio);;
     curr ← kget current;
     z_reset_time_slice curr).

(** ** The cached choice (sched.c) *)

Definition update_cache (preempt_ok : bool) : K unit :=
  thread ← next_up;
  ok ← should_preempt thread preempt_ok;
  curr ← kget current;
  if (ok : bool) then
    kwhen (CONFIG_TIMESLICING && bool_decide (thread <> curr)) (z_reset_time_slice thread);;
    update_metairq_preempt thread;;
    kmod (set_cache thread)
  else kmod (set_cache curr).

Definition move_thread_to_end_of_prio_q (thread : tid) : K unit :=
  th ← get_thread thread;
  kwhen (z_is_thread_queued th) (dequeue_thread thread);;
  queue_thread thread;;
  curr ← kget current;
  update_cache (bool_decide (thread = curr)).

(** With one CPU no thread runs elsewhere. *)
Definition thread_active_elsewhere (thread : tid) : option unit := None.

Definition ready_thread (thread : tid) : K unit :=
  th ← get_thread thread;
  ready ← z_is_thread_ready thread;
  kwhen (negb (z_is_thread_queued th) && ready)
    (queue_thread thread;; update_cache false).

Definition z_ready_thread_locked (thread : tid) : K unit :=
  match thread_active_elsewhere thread with None => ready_thread thread | Some _ => mret tt end.

Definition z_ready_thread (thread : tid) : K unit :=
  K_SPINLOCK (match thread_active_elsewhere thread with
              | None => ready_thread thread
              | Some _ => mret tt
              end).

Definition z_move_thread_to_end_of_prio_q (thread : tid) : K unit :=
  K_SPINLOCK (move_thread_to_end_of_prio_q thread).

Definition z_time_slice : K unit :=
  key ← k_spin_lock;
  curr ← kget current;
  pc ← kget pending_current;
  if CONFIG_SWAP_NONATOMIC && bool_decide (pc = Some curr) then
    z_reset_time_slice curr;;
    k_spin_unlock key
  else
    kwhen CONFIG_SWAP_NONATOMIC (kmod (set_pending_current None));;
    expired ← kget slice_expired;
    sliceable ← thread_is_sliceable curr;
    kwhen (expired && sliceable)
      (th ← get_thread curr;
       kwhen (negb (z_is_thread_prevented_from_running th)) (move_thread_to_end_of_prio_q curr);;
       z_reset_time_slice curr);;
    k_spin_unlock key.

(** ** Context switch (kswap.h, sched.c) *)

Definition z_swap_next_thread : K tid := kget cache.

Definition do_swap (key : bool) (lock : option k_spinlock) (is_spinlock : bool) : M Z :=
  old_thread ← lift (kget current);
  lift (upd_thread old_thread (with_swap_retval (- EAGAIN)));;
  lift (kwhen (negb is_spinlock || bool_decide (lock <> Some Lock_sched))
          (_ ← k_spin_lock; mret tt));;
  new_thread ← lift z_swap_next_thread;
  (if decide (new_thread = old_thread) then mret tt
   else
     lift (kmod (set_current new_thread));;
     lift (kwhen CONFIG_TIMESLICING (z_reset_time_slice new_thread));;
     arch_switch);;
  lift (arch_irq_unlock key);;
  curr ← lift (kget current);
  th ← lift (get_thread curr);
  mret (swap_retval th).

Definition z_swap_irqlock (key : bool) : M Z := do_swap key None false.
Definition z_swap (lock : k_spinlock) (key : bool) : M Z := do_swap key (Some lock) true.
Definition z_swap_unlocked : M unit :=
  key ← lift arch_irq_lock; _ ← do_swap key None true; mret tt.

(** [_thread_dummy] becomes the current thread. *)
Definition z_dummy_thread_init (dummy_thread : tid) : K unit :=
  upd_thread dummy_thread (with_thread_state _THREAD_DUMMY);;
  upd_thread dummy_thread (with_user_options K_ESSENTIAL);;
  kmod (set_current dummy_thread).

Definition resched (key : bool) : K bool :=
  isr ← arch_is_in_isr; mret (arch_irq_unlocked key && negb isr).

Definition need_swap : K bool :=
  new_thread ← kget cache;
  curr ← kget current;
  mret (bool_decide (new_thread <> curr)).

Definition z_reschedule (lock : k_spinlock) (key : bool) : M unit :=
  r ← lift (resched key);
  n ← lift need_swap;
  if (r : bool) && (n : bool) then (_ ← z_swap lock key; mret tt)
  else lift (k_spin_unlock key).

Definition z_reschedule_irqlock (key : bool) : M unit :=
  r ← lift (resched key);
  n ← lift need_swap;
  if (r : bool) && (n : bool) then (_ ← z_swap_irqlock key; mret tt)
  else lift (arch_irq_unlock key).

Definition z_reschedule_unlocked : M unit :=
  key ← lift arch_irq_lock; z_reschedule_irqlock key.

(** [set_current] and [z_get_next_switch_handle]: the switch at the end of an
    interrupt.  The handles it exchanges with the architecture are left out. *)
Definition set_current_thread (new_thread : tid) : K unit := kmod (set_current new_thread).
Definition z_get_next_switch_handle : K unit :=
  c ← kget cache; set_current_thread c.

(** ** Wait queues (sched.c) *)

Definition priq_wait_add (w : wqid) (thread : tid) : K unit :=
  l ← kget (fun s => waitq s w);
  kassert (bool_decide (thread ∉ l));;
  p ← kget prio_of;
  put_waitq w (z_priq_dumb_add p thread l).

Definition priq_wait_remove (w : wqid) (thread : tid) : K unit :=
  l ← kget (fun s => waitq s w);
  kassert (bool_decide (thread ∈ l));;
  put_waitq w (z_priq_dumb_remove thread l).

Definition priq_wait_best (w : wqid) : K (option tid) :=
  kget (fun s => z_priq_dumb_best (waitq s w)).

(** wait_q.h *)
Definition z_waitq_init (w : wqid) : K unit := put_waitq w [].
Definition z_waitq_head (w : wqid) : K (option tid) := kget (fun s => head (waitq s w)).

Definition pended_on_thread (thread : tid) : K wqid :=
  th ← get_thread thread;
  match pended_on th with
  | Some w => mret w
  | None => kfail
  end.

Definition unready_thread (thread : tid) : K unit :=
  th ← get_thread thread;
  kwhen (z_is_thread_queued th) (dequeue_thread thread);;
  curr ← kget current;
  update_cache (bool_decide (thread = curr)).

Definition add_to_waitq_locked (thread : tid) (wait_q : option wqid) : K unit :=
  unready_thread thread;;
  z_mark_thread_as_pending thread;;
  match wait_q with
  | Some w => upd_thread thread (with_pended_on (Some w));; priq_wait_add w thread
  | None => mret tt
  end.

Definition add_thread_timeout (thread : tid) (timeout : k_timeout_t) : K unit :=
  kwhen (negb (K_TIMEOUT_EQ timeout K_FOREVER)) (z_add_thread_timeout thread timeout).

Definition pend_locked (thread : tid) (wait_q : option wqid) (timeout : k_timeout_t) : K unit :=
  add_to_waitq_locked thread wait_q;;
  add_thread_timeout thread timeout.

Definition z_pend_thread (thread : tid) (wait_q : option wqid) (timeout : k_timeout_t) : K unit :=
  curr ← kget current;
  th ← get_thread thread;
  kassert (bool_decide (thread = curr) || is_thread_dummy th);;
  K_SPINLOCK (pend_locked thread wait_q timeout).

Definition unpend_thread_no_timeout (thread : tid) : K unit :=
  w ← pended_on_thread thread;
  priq_wait_remove w thread;;
  z_mark_thread_as_not_pending thread;;
  upd_thread thread (with_pended_on None).

Definition z_unpend_thread_no_timeout (thread : tid) : K unit :=
  K_SPINLOCK
    (th ← get_thread thread;
     match pended_on th with
     | Some _ => unpend_thread_no_timeout thread
     | None => mret tt
     end).

Definition z_sched_wake_thread (thread : tid) (is_timeout : bool) : K unit :=
  K_SPINLOCK
    (th ← get_thread thread;
     let killed := negb (Z.land (thread_state th) (Z.lor _THREAD_DEAD _THREAD_ABORTING) =? 0) in
     let do_nothing := no_wake_on_timeout th && is_timeout in
     upd_thread thread (with_no_wake_on_timeout false);;
     if do_nothing then mret tt
     else kwhen (negb killed)
       (match pended_on th with
        | Some _ => unpend_thread_no_timeout thread
        | None => mret tt
        end;;
        z_mark_thread_as_started thread;;
        kwhen is_timeout (z_mark_thread_as_not_suspended thread);;
        ready_thread thread)).

Definition z_thread_timeout (thread : tid) : K unit := z_sched_wake_thread thread true.

Definition z_pend_curr (lock : k_spinlock) (key : bool) (wait_q : option wqid) (timeout : k_timeout_t)
    : M Z :=
  curr ← lift (kget current);
  lift (kwhen (CONFIG_TIMESLICING && CONFIG_SWAP_NONATOMIC) (kmod (set_pending_current (Some curr))));;
  lift (kassert (bool_decide (lock <> Lock_sched)));;
  _ ← lift k_spin_lock;
  lift (pend_locked curr wait_q timeout);;
  z_swap Lock_sched key.

Definition z_unpend1_no_timeout (w : wqid) : K (option tid) :=
  K_SPINLOCK
    (thread ← priq_wait_best w;
     match thread with
     | Some t => unpend_thread_no_timeout t
     | None => mret tt
     end;;
     mret thread).

Definition z_unpend_first_thread (w : wqid) : K (option tid) :=
  K_SPINLOCK
    (thread ← priq_wait_best w;
     match thread with
     | Some t => unpend_thread_no_timeout t;; _ ← z_abort_thread_timeout t; mret tt
     | None => mret tt
     end;;
     mret thread).

Definition z_unpend_thread (thread : tid) : K unit :=
  z_unpend_thread_no_timeout thread;;
  _ ← z_abort_thread_timeout thread;
  mret tt.

(** The loop of [z_unpend_all]; every round takes one thread off the queue. *)
Fixpoint z_unpend_all_loop (fuel : nat) (w : wqid) (need_sched : bool) : K bool :=
  thread ← z_waitq_head w;
  match thread with
  | None => mret need_sched
  | Some t =>
      match fuel with
      | O => kfail
      | S fuel => z_unpend_thread t;; z_ready_thread t;; z_unpend_all_loop fuel w true
      end
  end.
Definition z_unpend_all (w : wqid) : K bool :=
  l ← kget (fun s => waitq s w); z_unpend_all_loop (length l) w false.

(** [arch_thread_return_value_set], [z_thread_return_value_set_with_data]
    (kernel_internal.h) *)
Definition arch_thread_return_value_set (thread : tid) (value : Z) : K unit :=
  upd_thread thread (with_swap_retval value).
Definition z_thread_return_value_set_with_data (thread : tid) (value data : Z) : K unit :=
  arch_thread_return_value_set thread value;;
  upd_thread thread (with_swap_data data).

Definition z_sched_wake (w : wqid) (swap_retval swap_data : Z) : K bool :=
  K_SPINLOCK
    (thread ← priq_wait_best w;
     match thread with
     | Some t =>
         z_thread_return_value_set_with_data t swap_retval swap_data;;
         unpend_thread_no_timeout t;;
         _ ← z_abort_thread_timeout t;
         ready_thread t;;
         mret true
     | None => mret false
     end).

Fixpoint z_sched_wake_all_loop (fuel : nat) (w : wqid) (swap_retval swap_data : Z) (woken : bool)
    : K bool :=
  more ← z_sched_wake w swap_retval swap_data;
  if (more : bool) then
    match fuel with
    | O => kfail
    | S fuel => z_sched_wake_all_loop fuel w swap_retval swap_data true
    end
  else mret woken.
Definition z_sched_wake_all (w : wqid) (swap_retval swap_data : Z) : K bool :=
  l ← kget (fun s => waitq s w);
  z_sched_wake_all_loop (length l) w swap_retval swap_data false.

(** The result is the return value and [*data]. *)
Definition z_sched_wait (lock : k_spinlock) (key : bool) (w : wqid) (timeout : k_timeout_t)
    : M (Z * Z) :=
  ret ← z_pend_curr lock key (Some w) timeout;
  curr ← lift (kget current);
  th ← lift (get_thread curr);
  mret (ret, swap_data th).

(** [z_sched_waitq_walk]: the callback on each waiting thread, in queue order,
    until one returns non-zero.  [data] is what the callback's argument points to. *)
Fixpoint waitq_walk_loop {D} (func : tid -> D -> K (Z * D)) (l : list tid) (data : D) : K (Z * D) :=
  match l with
  | [] => mret (0, data)
  | t :: l =>
      r ← func t data;
      if negb (r.1 =? 0) then mret r else waitq_walk_loop func l r.2
  end.
Definition z_sched_waitq_walk {D} (w : wqid) (func : tid -> D -> K (Z * D)) (data : D) : K (Z * D) :=
  K_SPINLOCK (l ← kget (fun s => waitq s w); waitq_walk_loop func l data).

(** ** Priority *)

(** [Z_VALID_PRIO(prio, NULL)] *)
Definition Z_VALID_PRIO (prio : Z) : bool :=
  (K_LOWEST_APPLICATION_THREAD_PRIO >=? K_HIGHEST_APPLICATION_THREAD_PRIO)
  && (prio >=? K_HIGHEST_APPLICATION_THREAD_PRIO) && (prio <=? K_LOWEST_APPLICATION_THREAD_PRIO).

Definition z_is_under_prio_ceiling (prio : Z) : bool := prio >=? CONFIG_PRIORITY_CEILING.
Definition z_get_new_prio_with_ceiling (prio : Z) : Z :=
  if z_is_under_prio_ceiling prio then prio else CONFIG_PRIORITY_CEILING.
Definition z_is_prio1_higher_than_or_equal_to_prio2 (prio1 prio2 : Z) : bool := prio1 <=? prio2.
Definition z_is_prio_higher_or_equal (prio1 prio2 : Z) : bool :=
  z_is_prio1_higher_than_or_equal_to_prio2 prio1 prio2.

Definition z_thread_prio_set (thread : tid) (prio : Z) : K bool :=
  K_SPINLOCK
    (need_sched ← z_is_thread_ready thread;
     (if (need_sched : bool) then
        dequeue_thread thread;;
        upd_thread thread (with_prio (s8 prio));;
        queue_thread thread;;
        update_cache true
      else upd_thread thread (with_prio (s8 prio)));;
     mret need_sched).

Definition z_impl_k_thread_priority_set (thread : tid) (prio : Z) : M unit :=
  lift (kassert (Z_VALID_PRIO prio));;
  isr ← lift arch_is_in_isr;
  lift (kassert (negb isr));;
  need_sched ← lift (z_thread_prio_set thread prio);
  curr ← lift (kget current);
  th ← lift (get_thread curr);
  if (need_sched : bool) && (sched_locked th =? 0) then z_reschedule_unlocked else mret tt.

Definition z_impl_k_thread_priority_get (thread : tid) : K Z :=
  th ← get_thread thread; mret (prio th).

(** ** Locking the scheduler *)

(** [sched_locked] is an [uint8_t]. *)
Definition z_sched_lock : K unit :=
  isr ← arch_is_in_isr;
  kassert (negb isr);;
  curr ← kget current;
  th ← get_thread curr;
  kassert (negb (sched_locked th =? 1));;
  upd_thread curr (with_sched_locked (u8 (sched_locked th - 1))).

Definition k_sched_lock : K unit := K_SPINLOCK z_sched_lock.

Definition k_sched_unlock : M unit :=
  lift (K_SPINLOCK
    (curr ← kget current;
     th ← get_thread curr;
     kassert (negb (sched_locked th =? 0));;
     isr ← arch_is_in_isr;
     kassert (negb isr);;
     upd_thread curr (with_sched_locked (u8 (sched_locked th + 1)));;
     update_cache false));;
  z_reschedule_unlocked.

(** ** Starting, halting and joining threads *)

Definition z_sched_start (thread : tid) : M unit :=
  key ← lift k_spin_lock;
  th ← lift (get_thread thread);
  if z_has_thread_started th then lift (k_spin_unlock key)
  else
    lift (z_mark_thread_as_started thread);;
    lift (ready_thread thread);;
    z_reschedule Lock_sched key.

Definition z_impl_k_thread_start (thread : tid) : M unit := z_sched_start thread.

(** The loop of [unpend_all]. *)
Fixpoint unpend_all_loop (fuel : nat) (w : wqid) : K unit :=
  thread ← z_waitq_head w;
  match thread with
  | None => mret tt
  | Some t =>
      match fuel with
      | O => kfail
      | S fuel =>
          unpend_thread_no_timeout t;;
          _ ← z_abort_thread_timeout t;
          arch_thread_return_value_set t 0;;
          ready_thread t;;
          unpend_all_loop fuel w
      end
  end.
Definition unpend_all (w : wqid) : K unit :=
  l ← kget (fun s => waitq s w); unpend_all_loop (length l) w.

Definition halt_thread (thread : tid) (new_state : Z) : K unit :=
  th ← get_thread thread;
  kwhen (Z.land (thread_state th) new_state =? 0)
    (upd_thread thread (set_state_bits new_state);;
     th ← get_thread thread;
     kwhen (z_is_thread_queued th) (dequeue_thread thread);;
     dummify ← (if new_state =? _THREAD_DEAD then
        match pended_on th with
        | Some _ => unpend_thread_no_timeout thread
        | None => mret tt
        end;;
        _ ← z_abort_thread_timeout thread;
        unpend_all (WQ_join thread);;
        curr ← kget current;
        isr ← arch_is_in_isr;
        mret (bool_decide (thread = curr) && isr)
      else mret false : K bool);
     update_cache true;;
     if new_state =? _THREAD_SUSPENDED then clear_halting thread
     else
       kwhen dummify (z_dummy_thread_init thread_dummy);;
       clear_halting thread).

Definition z_thread_halt (thread : tid) (key : bool) (terminate : bool) : M unit :=
  lift (halt_thread thread (if terminate then _THREAD_DEAD else _THREAD_SUSPENDED));;
  curr ← lift (kget current);
  isr ← lift arch_is_in_isr;
  if bool_decide (thread = curr) && negb (isr : bool)
  then (_ ← z_swap Lock_sched key; lift (kassert (negb terminate)))
  else lift (k_spin_unlock key).

Definition z_impl_k_thread_suspend (thread : tid) : M unit :=
  _ ← lift (z_abort_thread_timeout thread);
  key ← lift k_spin_lock;
  th ← lift (get_thread thread);
  if negb (Z.land (thread_state th) _THREAD_SUSPENDED =? 0) then lift (k_spin_unlock key)
  else z_thread_halt thread key false.

Definition z_impl_k_thread_resume (thread : tid) : M unit :=
  key ← lift k_spin_lock;
  th ← lift (get_thread thread);
  if negb (z_is_thread_suspended th) then lift (k_spin_unlock key)
  else
    lift (z_mark_thread_as_not_suspended thread);;
    lift (ready_thread thread);;
    z_reschedule Lock_sched key.

(** Aborting an essential thread fails the assertion that follows the unlock. *)
Definition z_thread_abort (thread : tid) : M unit :=
  key ← lift k_spin_lock;
  th ← lift (get_thread thread);
  if z_is_thread_essential th then (lift (k_spin_unlock key);; lift kfail)
  else if negb (Z.land (thread_state th) _THREAD_DEAD =? 0) then lift (k_spin_unlock key)
  else z_thread_halt thread key true.

Definition z_impl_k_thread_abort (thread : tid) : M unit :=
  z_thread_abort thread;;
  th ← lift (get_thread thread);
  lift (kassert (negb (Z.land (thread_state th) _THREAD_DEAD =? 0))).

Definition z_impl_k_thread_join (thread : tid) (timeout : k_timeout_t) : M Z :=
  key ← lift k_spin_lock;
  th ← lift (get_thread thread);
  curr ← lift (kget current);
  if negb (Z.land (thread_state th) _THREAD_DEAD =? 0) then (lift (k_spin_unlock key);; mret 0)
  else if K_TIMEOUT_EQ timeout K_NO_WAIT then (lift (k_spin_unlock key);; mret (- EBUSY))
  else if bool_decide (thread = curr) || bool_decide (pended_on th = Some (WQ_join curr))
  then (lift (k_spin_unlock key);; mret (- EDEADLK))
  else
    isr ← lift arch_is_in_isr;
    lift (kassert (negb isr));;
    lift (add_to_waitq_locked curr (Some (WQ_join thread)));;
    lift (add_thread_timeout curr timeout);;
    z_swap Lock_sched key.

(** ** Yielding and sleeping *)

Definition z_impl_k_yield : M unit :=
  isr ← lift arch_is_in_isr;
  lift (kassert (negb isr));;
  key ← lift k_spin_lock;
  curr ← lift (kget current);
  lift (dequeue_thread curr);;
  lift (queue_thread curr);;
  lift (update_cache true);;
  _ ← z_swap Lock_sched key;
  mret tt.

Definition z_tick_sleep (ticks : Z) : M Z :=
  isr ← lift arch_is_in_isr;
  lift (kassert (negb isr));;
  if ticks =? 0 then (z_impl_k_yield;; mret 0)
  else
    now ← lift (kget (fun s => sys_clock_tick_get_32 (tq s)));
    let expected_wakeup_ticks :=
      if Z_TICK_ABS ticks <=? 0 then u32 (ticks + now) else u32 (Z_TICK_ABS ticks) in
    let timeout := ticks in
    key ← lift k_spin_lock;
    curr ← lift (kget current);
    lift (kwhen (CONFIG_TIMESLICING && CONFIG_SWAP_NONATOMIC) (kmod (set_pending_current (Some curr))));;
    lift (unready_thread curr);;
    lift (z_add_thread_timeout curr timeout);;
    lift (z_mark_thread_as_suspended curr);;
    _ ← z_swap Lock_sched key;
    curr ← lift (kget current);
    th ← lift (get_thread curr);
    lift (kassert (negb (z_is_thread_state_set th _THREAD_SUSPENDED)));;
    now ← lift (kget (fun s => sys_clock_tick_get_32 (tq s)));
    let ticks := expected_wakeup_ticks - now in
    mret (if ticks >? 0 then s32 ticks else 0).

Definition z_impl_k_sleep (timeout : k_timeout_t) : M Z :=
  isr ← lift arch_is_in_isr;
  lift (kassert (negb isr));;
  if K_TIMEOUT_EQ timeout K_FOREVER then
    curr ← lift (kget current);
    z_impl_k_thread_suspend curr;;
    mret (s32 K_TICKS_FOREVER)
  else
    ticks ← z_tick_sleep timeout;
    mret (s32 (k_ticks_to_ms_ceil64 ticks)).

Definition z_impl_k_usleep (us : Z) : M Z :=
  let ticks := s32 (k_us_to_ticks_ceil64 us) in
  ticks ← z_tick_sleep ticks;
  mret (s32 (k_ticks_to_us_ceil64 ticks)).

Definition z_impl_k_wakeup (thread : tid) : M unit :=
  th ← lift (get_thread thread);
  if z_is_thread_pending th then mret tt
  else
    ret ← lift (z_abort_thread_timeout thread);
    th ← lift (get_thread thread);
    if (ret <? 0) && negb (thread_state th =? _THREAD_SUSPENDED) then mret tt
    else
      key ← lift k_spin_lock;
      lift (z_mark_thread_as_not_suspended thread);;
      lift (match thread_active_elsewhere thread with
            | None => ready_thread thread
            | Some _ => mret tt
            end);;
      isr ← lift arch_is_in_isr;
      if (isr : bool) then lift (k_spin_unlock key) else z_reschedule Lock_sched key.

Definition z_impl_k_sched_current_thread_query : K tid := kget current.

Definition z_impl_k_is_preempt_thread : K bool :=
  isr ← arch_is_in_isr;
  curr ← kget current;
  th ← get_thread curr;
  mret (negb isr && thread_is_preemptible th).

(** ** Creating threads (thread.c) *)

(** [z_init_thread_base]; [base] is what the memory of the thread held before.
    Initialising the node of a queued timeout would corrupt the timeout queue. *)
Definition z_init_thread_base (base : k_thread) (thread : tid) (priority initial_state options : Z)
    : K unit :=
  let th := with_sched_locked 0 (with_prio (s8 priority) (with_thread_state (u8 initial_state)
              (with_user_options (u8 options) (with_pended_on None base)))) in
  active ← kget (z_is_thread_timeout_active thread);
  kassert (negb active);;
  kmod (fun s => set_threads (<[thread := th]> (threads s)) s).

Definition z_setup_new_thread (base : k_thread) (new_thread : tid) (prio options : Z) : K unit :=
  kassert (Z_VALID_PRIO prio);;
  z_waitq_init (WQ_join new_thread);;
  z_init_thread_base base new_thread prio _THREAD_PRESTART options;;
  upd_thread new_thread (with_no_wake_on_timeout false).

Definition thread_schedule_new (thread : tid) (delay : k_timeout_t) : M unit :=
  if K_TIMEOUT_EQ delay K_NO_WAIT then z_impl_k_thread_start thread
  else lift (z_add_thread_timeout thread delay).

Definition z_impl_k_thread_create (base : k_thread) (new_thread : tid) (prio options : Z)
    (delay : k_timeout_t) : M tid :=
  isr ← lift arch_is_in_isr;
  lift (kassert (negb isr));;
  lift (z_setup_new_thread base new_thread prio options);;
  (if negb (K_TIMEOUT_EQ delay K_FOREVER) then thread_schedule_new new_thread delay else mret tt);;
  mret new_thread.

(** ** The clock interrupt (timeout.c) *)

(** The call [t->fn(t)] of [sys_clock_announce]. *)
Definition run_timeout_fn (f : timeout_fn) (n : timeout_node) (s : kstate) : option kstate :=
  match f, n with
  | fn_z_thread_timeout, TN_thread t => snd <$> z_thread_timeout t s
  | fn_slice_timeout, TN_slice => snd <$> slice_timeout s
  | _, _ => None
  end.

(** [sys_clock_announce]: the driver reports that [ticks] ticks have passed. *)
Definition sys_clock_announce (ticks : Z) : K unit :=
  (fun s => s ← announce tq set_tq run_timeout_fn ticks s; Some (tt, s));;
  kwhen CONFIG_TIMESLICING z_time_slice.
End Sched.
