(* ===== verification/SchedInv.v ===== *)
(** * The scheduler's invariant

    What kernel/sched.c keeps true of threads and queues, and that each of its
    building blocks preserves it: a thread is in the ready queue exactly when its
    state says so and nothing keeps it from running, it is in the wait queue it
    points to and in no other, the ready queue is sorted by priority, and the cached
    choice is the best ready thread unless the current one may not be preempted.

    The theorems are for builds without MetaIRQ priorities. *)

From S2P Require Import Prelude TimeUnits Timeout PriorityQ KState KLogic Sched.

Local Open Scope Z_scope.

(** ** Thread state bits *)

(** Bit [n] of [thread_state]: 0 dummy, 1 pending, 2 prestart, 3 dead, 4 suspended,
    5 aborting, 6 suspending, 7 queued. *)
Definition st (n : Z) (th : k_thread) : bool := Z.testbit (thread_state th) n.

Definition blocked (th : k_thread) : bool := st 0 th || st 1 th || st 2 th || st 3 th || st 4 th.

Section Bits.
Implicit Types (th : k_thread) (n m : Z).

Lemma is_queued_st th : z_is_thread_queued th = st 7 th.
Proof. unfold z_is_thread_queued, z_is_thread_state_set, _THREAD_QUEUED. by rewrite land_BIT_eqb, negb_involutive by lia. Qed.
Lemma is_pending_st th : z_is_thread_pending th = st 1 th.
Proof. unfold z_is_thread_pending, _THREAD_PENDING. by rewrite land_BIT_eqb, negb_involutive by lia. Qed.
Lemma is_suspended_st th : z_is_thread_suspended th = st 4 th.
Proof. unfold z_is_thread_suspended, _THREAD_SUSPENDED. by rewrite land_BIT_eqb, negb_involutive by lia. Qed.
Lemma has_started_st th : z_has_thread_started th = negb (st 2 th).
Proof. unfold z_has_thread_started, _THREAD_PRESTART. by rewrite land_BIT_eqb by lia. Qed.
Lemma land_dead_st th : (Z.land (thread_state th) _THREAD_DEAD =? 0) = negb (st 3 th).
Proof. unfold _THREAD_DEAD. by rewrite land_BIT_eqb by lia. Qed.
Lemma land_suspended_st th : (Z.land (thread_state th) _THREAD_SUSPENDED =? 0) = negb (st 4 th).
Proof. unfold _THREAD_SUSPENDED. by rewrite land_BIT_eqb by lia. Qed.

Lemma prevented_blocked th : z_is_thread_prevented_from_running th = blocked th.
Proof.
  unfold z_is_thread_prevented_from_running, blocked, st. set (x := thread_state th).
  change prevented_mask with (Z.ones 5). apply eq_true_iff_eq.
  rewrite negb_true_iff, Z.eqb_neq, !orb_true_iff. split.
  - intros Hne. destruct (Z.testbit x 0) eqn:E0; [tauto|]. destruct (Z.testbit x 1) eqn:E1; [tauto|].
    destruct (Z.testbit x 2) eqn:E2; [tauto|]. destruct (Z.testbit x 3) eqn:E3; [tauto|].
    destruct (Z.testbit x 4) eqn:E4; [tauto|]. exfalso. apply Hne. apply Z.bits_inj'.
    intros i Hi. rewrite Z.land_spec, Z.bits_0.
    destruct (Z.ltb_spec i 5); [|rewrite Z.ones_spec_high by lia; apply andb_false_r].
    assert (i = 0 \/ i = 1 \/ i = 2 \/ i = 3 \/ i = 4) as [->|[->|[->|[->| ->]]]] by lia;
      [by rewrite E0|by rewrite E1|by rewrite E2|by rewrite E3|by rewrite E4].
  - intros Hb E. assert (Hall : forall i, 0 <= i < 5 -> Z.testbit x i = false).
    { intros i Hi. apply (f_equal (fun z => Z.testbit z i)) in E.
      by rewrite Z.land_spec, Z.bits_0, Z.ones_spec_low, andb_true_r in E by lia. }
    rewrite !Hall in Hb by lia. naive_solver.
Qed.

Lemma st_set th n m : 0 <= n -> st m (set_state_bits (BIT n) th) = st m th || (m =? n).
Proof. intros. unfold st. cbn. by rewrite testbit_setflag. Qed.
Lemma st_clear th n m : 0 <= n -> st m (clear_state_bits (BIT n) th) = st m th && negb (m =? n).
Proof. intros. unfold st. cbn. by rewrite testbit_clrflag. Qed.
Lemma st_clear_halting th m :
  0 <= m -> st m (clear_state_bits (Z.lor _THREAD_ABORTING _THREAD_SUSPENDING) th) =
  st m th && negb ((m =? 5) || (m =? 6)).
Proof.
  intros. unfold st, _THREAD_ABORTING, _THREAD_SUSPENDING. cbn [thread_state clear_state_bits with_thread_state].
  by rewrite Z.land_spec, Z.lnot_spec, Z.lor_spec, !testbit_BIT by lia.
Qed.
Lemma is_killed_st th :
  negb (Z.land (thread_state th) (Z.lor _THREAD_DEAD _THREAD_ABORTING) =? 0) = st 3 th || st 5 th.
Proof.
  rewrite Z.land_lor_distr_r. unfold st, _THREAD_DEAD, _THREAD_ABORTING.
  rewrite <- (negb_involutive (Z.testbit _ 3)), <- (negb_involutive (Z.testbit _ 5)),
    <- !land_BIT_eqb, <- negb_andb by lia. f_equal. apply eq_true_iff_eq.
  by rewrite andb_true_iff, !Z.eqb_eq, Z.lor_eq_0_iff.
Qed.
End Bits.

(** Decide the state bits after an update of the state word. *)
Ltac bits_simpl :=
  unfold blocked, _THREAD_DUMMY, _THREAD_PENDING, _THREAD_PRESTART, _THREAD_DEAD, _THREAD_SUSPENDED,
    _THREAD_QUEUED in *;
  repeat (rewrite st_set in * by lia); repeat (rewrite st_clear in * by lia);
  repeat (rewrite st_clear_halting in * by lia);
  cbn [Z.eqb Pos.eqb orb andb negb] in *;
  rewrite ?orb_false_r, ?orb_true_r, ?andb_false_r, ?andb_true_r in *.

(** ** The invariant *)

(** The thread's own timeout is queued. *)
Definition active (t : tid) (s : kstate) : bool := is_linked (TN_thread t) (tq s).

Lemma timeout_active_active t s : z_is_thread_timeout_active t s = active t s.
Proof. unfold z_is_thread_timeout_active, z_is_inactive_timeout, active. apply negb_involutive. Qed.

(** A queued timeout belongs to an existing thread or is the time slice's, with the
    matching function. *)
Definition deadline_ok (s : kstate) (x : deadline) : Prop :=
  match x.1 with
  | (TN_thread t, fn_z_thread_timeout) => is_Some (threads s !! t)
  | (TN_slice, fn_slice_timeout) => True
  | _ => False
  end.

#[export] Instance deadline_ok_dec s x : Decision (deadline_ok s x).
Proof. unfold deadline_ok. destruct x as [[[t|] []] d]; cbn; apply _. Defined.

Section Invariant.
Context `{KConfig}.

(** The state of one thread agrees with the queues.  [x] names a thread that is
    ready but not yet queued, while an operation is between the two. *)
Record thread_ok (x : option tid) (s : kstate) (t : tid) (th : k_thread) : Prop := {
  tok_queued : st 7 th = bool_decide (t ∈ runq s);
  tok_runs : t ∈ runq s -> blocked th = false /\ active t s = false /\ t <> z_idle_thread;
  tok_ready : t <> z_idle_thread -> x <> Some t -> blocked th = false -> active t s = false ->
              t ∈ runq s;
  tok_waitq : forall w, pended_on th = Some w -> t ∈ waitq s w;
  tok_pending : st 1 th = bool_decide (pended_on th <> None);
  tok_prio : -128 <= prio th < 128;
  tok_locked : 0 <= sched_locked th < 256
}.

(** A wait queue holds the threads that point to it, once each. *)
Definition wait_ok (s : kstate) (w : wqid) (l : list tid) : Prop :=
  NoDup l /\ Forall (fun t => threads s !! t ≫= pended_on = Some w) l.

(** The idle thread is always there to run. *)
Definition idle_ok (th : k_thread) : Prop := thread_state th = 0 /\ thread_is_preemptible th = true.

(** The stand-in for an aborted current thread waits for nothing. *)
Definition dummy_ok (th : k_thread) : Prop := thread_state th = _THREAD_DUMMY /\ pended_on th = None.

Record RInv (x : option tid) (s : kstate) : Prop := {
  ri_nodup : NoDup (runq s);
  ri_sorted : prio_sorted (prio_of s) (runq s);
  ri_dom : Forall (fun t => is_Some (threads s !! t)) (runq s);
  ri_threads : map_Forall (thread_ok x s) (threads s);
  ri_waitqs : map_Forall (wait_ok s) (waitqs s);
  ri_tq_wf : wf_timeouts (tq s);
  ri_tq_dom : Forall (deadline_ok s) (deadlines (tq s));
  ri_clock : valid_elapsed (tq s);
  ri_slice : 0 <= slice_ticks s <= INT_MAX;
  ri_idle : exists th, threads s !! z_idle_thread = Some th /\ idle_ok th;
  ri_idle_timeout : active z_idle_thread s = false;
  ri_current : is_Some (threads s !! current s);
  ri_dummy : exists th, threads s !! thread_dummy = Some th /\ dummy_ok th;
  ri_dummy_timeout : active thread_dummy s = false
}.

Implicit Types (s : kstate) (t u : tid) (th : k_thread) (x : option tid) (w : wqid).

Lemma ri_thread x s t th : RInv x s -> threads s !! t = Some th -> thread_ok x s t th.
Proof. intros Hi Ht. exact (ri_threads x s Hi t th Ht). Qed.

Lemma not_dummy x s t th :
  RInv x s -> threads s !! t = Some th -> blocked th = false \/ pended_on th <> None -> t <> thread_dummy.
Proof.
  intros Hi E Hb ->. destruct (ri_dummy x s Hi) as (th' & E' & Hst & Hp). simplify_eq.
  destruct Hb as [Hb|]; [|done]. revert Hb. unfold blocked, st. by rewrite Hst.
Qed.

Lemma ri_runq_thread x s t :
  RInv x s -> t ∈ runq s ->
  exists th, threads s !! t = Some th /\ st 7 th = true /\ blocked th = false /\ active t s = false /\
    t <> z_idle_thread.
Proof.
  intros Hi Ht. pose proof (ri_dom x s Hi) as Hd. rewrite Forall_forall in Hd.
  destruct (Hd t Ht) as [th E]. exists th. pose proof (ri_thread x s t th Hi E) as Hok.
  split; [done|]. split; [rewrite (tok_queued _ _ _ _ Hok); by apply bool_decide_eq_true|].
  by apply (tok_runs _ _ _ _ Hok).
Qed.

Lemma elem_of_waitq s w t : t ∈ waitq s w -> exists l, waitqs s !! w = Some l /\ t ∈ l.
Proof. unfold waitq. destruct (waitqs s !! w) as [l|]; cbn; [eauto|]. by intros ?%not_elem_of_nil. Qed.

Lemma ri_waitq_thread x s w t :
  RInv x s -> t ∈ waitq s w -> exists th, threads s !! t = Some th /\ pended_on th = Some w /\ st 1 th = true.
Proof.
  intros Hi Ht. destruct (elem_of_waitq _ _ _ Ht) as (l & El & Hl).
  destruct (ri_waitqs x s Hi w l El) as [_ Hf]. rewrite Forall_forall in Hf. specialize (Hf t Hl).
  destruct (threads s !! t) as [th|] eqn:E; [|done]. cbn in Hf. exists th. split_and!; [done..|].
  rewrite (tok_pending _ _ _ _ (ri_thread x s t th Hi E)), Hf. by apply bool_decide_eq_true.
Qed.

Lemma ri_waitq_nodup x s w : RInv x s -> NoDup (waitq s w).
Proof.
  intros Hi. unfold waitq. destruct (waitqs s !! w) as [l|] eqn:E; cbn; [|constructor].
  apply (ri_waitqs x s Hi w l E).
Qed.

Lemma deadline_ok_mono s s' (d : deadline) :
  (forall t, is_Some (threads s !! t) -> is_Some (threads s' !! t)) -> deadline_ok s d -> deadline_ok s' d.
Proof. unfold deadline_ok. destruct d as [[[t|] []] d]; cbn; auto. Qed.

(** What the queues and the timeout queue must satisfy when one thread changes. *)
Record update_ok (s s' : kstate) (t : tid) (th' : k_thread) : Prop := {
  uo_threads : threads s' = <[t := th']> (threads s);
  uo_current : current s' = current s;
  uo_slice : slice_ticks s' = slice_ticks s;
  uo_nodup : NoDup (runq s');
  uo_sorted : prio_sorted (prio_of s') (runq s');
  uo_runq : forall u, u <> t -> u ∈ runq s' <-> u ∈ runq s;
  uo_waitqs : forall w l', waitqs s' !! w = Some l' ->
    NoDup l' /\ (forall u, u ∈ l' -> u <> t -> u ∈ waitq s w) /\ (t ∈ l' -> pended_on th' = Some w);
  uo_waitq : forall w u, u <> t -> u ∈ waitq s w -> u ∈ waitq s' w;
  uo_tq_wf : wf_timeouts (tq s');
  uo_tq_dom : Forall (deadline_ok s') (deadlines (tq s'));
  uo_active : forall u, u <> t -> active u s' = active u s;
  uo_clock : valid_elapsed (tq s')
}.

Lemma thread_ok_frame x x' s s' u th :
  thread_ok x s u th -> (u ∈ runq s' <-> u ∈ runq s) -> active u s' = active u s ->
  (forall w, u ∈ waitq s w -> u ∈ waitq s' w) -> (x = Some u -> x' = Some u) ->
  thread_ok x' s' u th.
Proof.
  intros [Hq Hr Hy Hw Hp Hpr Hl] Eq Ea Ew Ex. split; auto.
  - rewrite Hq. by apply bool_decide_ext.
  - rewrite Ea, Eq. done.
  - rewrite Ea, Eq. auto.
Qed.

Lemma RInv_update x x' s s' t th' :
  RInv x s -> is_Some (threads s !! t) -> update_ok s s' t th' ->
  thread_ok x' s' t th' -> (forall u, u <> t -> x = Some u -> x' = Some u) ->
  (t = z_idle_thread -> idle_ok th' /\ active t s' = false) ->
  (t = thread_dummy -> dummy_ok th' /\ active t s' = false) -> RInv x' s'.
Proof.
  intros Hi Hs [Et Ec Esl Hnd Hso Hrq Hwq Hwq' Htw Htd Hac Hcl] Hok Hx Hid Hdu.
  assert (Hdom : forall u, is_Some (threads s !! u) -> is_Some (threads s' !! u)).
  { intros u Hu. rewrite Et. destruct (decide (u = t)) as [->|];
      [rewrite lookup_insert_eq; eauto|by rewrite lookup_insert_ne]. }
  split; try done.
  - apply Forall_forall. intros u Hu. destruct (decide (u = t)) as [->|Hne]; [auto|].
    apply Hdom. apply Hrq in Hu; [|done]. destruct (ri_runq_thread x s u Hi Hu) as (th & E & _). eauto.
  - intros u th E. rewrite Et in E. destruct (decide (u = t)) as [->|Hne].
    + rewrite lookup_insert_eq in E. by simplify_eq.
    + rewrite lookup_insert_ne in E by done. eapply (thread_ok_frame x x' s s'); auto.
      by apply (ri_thread x s).
  - intros w l' E. destruct (Hwq w l' E) as (Hn & Hother & Hmine). split; [done|].
    apply Forall_forall. intros u Hu. rewrite Et. destruct (decide (u = t)) as [->|Hne].
    + rewrite lookup_insert_eq. auto.
    + rewrite lookup_insert_ne by done. specialize (Hother u Hu Hne).
      destruct (ri_waitq_thread x s w u Hi Hother) as (th & -> & Hp & _). done.
  - rewrite Esl. apply (ri_slice x s Hi).
  - destruct (decide (t = z_idle_thread)) as [E|Hne].
    + destruct (Hid E) as [Hth _]. exists th'. by rewrite Et, <- E, lookup_insert_eq.
    + destruct (ri_idle x s Hi) as (th & E & Hth). exists th. by rewrite Et, lookup_insert_ne.
  - destruct (decide (t = z_idle_thread)) as [E|Hne]; [rewrite <- E; by destruct (Hid E)|].
    rewrite Hac by congruence. apply (ri_idle_timeout x s Hi).
  - rewrite Ec. apply Hdom, (ri_current x s Hi).
  - destruct (decide (t = thread_dummy)) as [E|Hne].
    + destruct (Hdu E) as [Hth _]. exists th'. by rewrite Et, <- E, lookup_insert_eq.
    + destruct (ri_dummy x s Hi) as (th & E & Hth). exists th. by rewrite Et, lookup_insert_ne.
  - destruct (decide (t = thread_dummy)) as [E|Hne]; [rewrite <- E; by destruct (Hdu E)|].
    rewrite Hac by congruence. apply (ri_dummy_timeout x s Hi).
Qed.

(** The invariant reads only these fields. *)
Lemma RInv_ext x s s' :
  threads s' = threads s -> current s' = current s -> runq s' = runq s -> waitqs s' = waitqs s ->
  tq s' = tq s -> slice_ticks s' = slice_ticks s -> RInv x s -> RInv x s'.
Proof.
  intros Et Ec Er Ew Eq Es [].
  assert (Ewq : forall w, waitq s' w = waitq s w) by (intros w; unfold waitq; by rewrite Ew).
  split; unfold prio_sorted, prio_of, active in *; rewrite ?Et, ?Ec, ?Er, ?Ew, ?Eq, ?Es; try done.
  - intros u th E. destruct (ri_threads0 u th E) as [].
    split; unfold active; rewrite ?Er, ?Eq, ?Ewq; try done. intros w. rewrite Ewq. auto.
  - intros w l E. destruct (ri_waitqs0 w l E). split; [done|]. by rewrite Et.
  - eapply Forall_impl; [done|]. intros y. apply deadline_ok_mono. by rewrite Et.
Qed.

Lemma RInv_mono x s : RInv None s -> RInv x s.
Proof.
  intros []. split; try done. intros t th E. destruct (ri_threads0 t th E). split; auto.
Qed.

(** A thread that needs no exemption. *)
Lemma RInv_settle t s :
  RInv (Some t) s ->
  (forall th, threads s !! t = Some th -> blocked th = false -> active t s = false -> t ∈ runq s) ->
  RInv None s.
Proof.
  intros [] Ht. split; try done. intros u th E. destruct (ri_threads0 u th E).
  split; auto. intros Hid _ Hb Ha. destruct (decide (u = t)) as [->|Hne]; [by eapply Ht|].
  apply tok_ready0; congruence.
Qed.

Lemma RInv_tq x s s' q :
  RInv x s -> s' = set_tq q s -> wf_timeouts q -> valid_elapsed q ->
  Forall (deadline_ok s) (deadlines q) ->
  (forall t, is_linked (TN_thread t) q = active t s) -> RInv x s'.
Proof.
  intros [] -> Hwf Hel Hd Ha. split; try done.
  - intros t th E. destruct (ri_threads0 t th E).
    split; unfold active; cbn; rewrite ?Ha; auto.
  - unfold active. cbn. by rewrite Ha.
  - unfold active. cbn. by rewrite Ha.
Qed.

Lemma RInv_current x s t : RInv x s -> is_Some (threads s !! t) -> RInv x (set_current t s).
Proof.
  intros [] Ht. split; try done. intros u th E. by destruct (ri_threads0 u th E).
Qed.

(** ** The cached choice *)

Definition cache_ok (s : kstate) : Prop :=
  cache s = default z_idle_thread (head (runq s)) \/
  (cache s = current s /\ current s ∈ runq s /\
   thread_is_preemptible <$> threads s !! current s = Some false).

(** The current thread waits for no timeout, and is ready unless it was made to
    give up the CPU. *)
Definition current_ok (s : kstate) : Prop :=
  active (current s) s = false /\
  match threads s !! current s with
  | Some th => blocked th = false -> current s = z_idle_thread \/ current s ∈ runq s
  | None => False
  end.

(** The state between two operations. *)
Definition SInv (s : kstate) : Prop := RInv None s /\ cache_ok s /\ current_ok s.

(** The end of a time slice is where it was, or ahead. *)
Definition slice_step (q q' : timeout_q) : Prop :=
  forall d : deadline, d ∈ deadlines q' -> d.1.1 = TN_slice -> d ∈ deadlines q \/ 1 <= d.2.

#[export] Instance slice_step_refl : Reflexive slice_step.
Proof. intros q d Hd _. by left. Qed.

(** What recomputing the choice leaves alone: everything but the choice and the time
    slice. *)
Definition thread_deadlines (q : timeout_q) : list deadline :=
  filter (fun d : deadline => d.1.1 <> TN_slice) (deadlines q).

Record cache_frame (s s' : kstate) : Prop := {
  cf_threads : threads s' = threads s;
  cf_current : current s' = current s;
  cf_runq : runq s' = runq s;
  cf_waitqs : waitqs s' = waitqs s;
  cf_metairq : metairq_preempted s' = metairq_preempted s;
  cf_nested : nested s' = nested s;
  cf_irq : irq_locked s' = irq_locked s;
  cf_slice_ticks : slice_ticks s' = slice_ticks s;
  cf_slice_prio : slice_max_prio s' = slice_max_prio s;
  cf_pending : pending_current s' = pending_current s;
  cf_objs : objs s' = objs s;
  cf_mem : mem s' = mem s;
  cf_clock : same_clock (tq s) (tq s');
  cf_deadlines : thread_deadlines (tq s') = thread_deadlines (tq s);
  cf_slice : slice_step (tq s) (tq s')
}.

Lemma cache_frame_refl s : cache_frame s s.
Proof. by split. Qed.

Lemma cache_frame_trans s1 s2 s3 : cache_frame s1 s2 -> cache_frame s2 s3 -> cache_frame s1 s3.
Proof.
  intros [] []. split; try congruence; [unfold same_clock in *; naive_solver congruence|].
  intros d Hd Hn. destruct (cf_slice1 d Hd Hn); auto.
Qed.

Lemma linked_deadlines t q :
  is_linked (TN_thread t) q = bool_decide (TN_thread t ∈ (fun d : deadline => d.1.1) <$> thread_deadlines q).
Proof.
  unfold is_linked, thread_deadlines. apply bool_decide_ext.
  rewrite <- (nodes_deadlines 0). fold (deadlines q). rewrite !list_elem_of_fmap. split.
  - intros (d & E & Hd). exists d. split; [done|]. apply list_elem_of_filter. split; [|done]. by rewrite <- E.
  - intros (d & E & [_ Hd]%list_elem_of_filter). eauto.
Qed.

Lemma cf_active s s' t : cache_frame s s' -> active t s' = active t s.
Proof. intros Hf. unfold active. by rewrite !linked_deadlines, (cf_deadlines _ _ Hf). Qed.

Lemma filter_insert_deadline (d : deadline) (l : list deadline) :
  d.1.1 = TN_slice ->
  filter (fun d : deadline => d.1.1 <> TN_slice) (insert_deadline d l) =
  filter (fun d : deadline => d.1.1 <> TN_slice) l.
Proof.
  intros Hd. induction l as [|y l IH]; cbn [insert_deadline].
  - rewrite filter_cons, decide_False by tauto. done.
  - destruct (_ <? _); rewrite !filter_cons.
    + by rewrite decide_False by tauto.
    + by rewrite IH.
Qed.

Lemma filter_slice_twice (l : list deadline) :
  filter (fun d : deadline => d.1.1 <> TN_slice) (filter (fun d : deadline => d.1.1 <> TN_slice) l) =
  filter (fun d : deadline => d.1.1 <> TN_slice) l.
Proof. apply list_filter_all. by intros d [? _]%list_elem_of_filter. Qed.

Lemma Forall_insert_deadline (P : deadline -> Prop) d (l : list deadline) :
  P d -> Forall P l -> Forall P (insert_deadline d l).
Proof.
  intros Hd Hl. apply Forall_forall. intros y [->|Hy]%elem_of_insert_deadline; [done|].
  by eapply Forall_forall in Hl.
Qed.

Lemma valid_elapsed_clock q q' : same_clock q q' -> valid_elapsed q -> valid_elapsed q'.
Proof. intros (_ & _ & E). unfold valid_elapsed. by rewrite E. Qed.

Lemma same_clock_trans q1 q2 q3 : same_clock q1 q2 -> same_clock q2 q3 -> same_clock q1 q3.
Proof. unfold same_clock. intuition congruence. Qed.

Lemma abort_slice_spec x s :
  RInv x s -> kwp (k_abort_timeout TN_slice) s (fun _ s' =>
    RInv x s' /\ cache_frame s s' /\ cache s' = cache s /\ TN_slice ∉ node <$> timeout_list (tq s')).
Proof.
  intros Hi. unfold kwp, k_abort_timeout.
  pose proof (z_abort_timeout_ok TN_slice (tq s) (ri_tq_wf x s Hi)) as Ha.
  destruct (z_abort_timeout TN_slice (tq s)) as [ret q]. destruct Ha as (_ & Hwf & Hc & Hn & Hd).
  assert (Hdl : thread_deadlines q = thread_deadlines (tq s)).
  { unfold thread_deadlines. rewrite Hd. apply filter_slice_twice. }
  assert (Hsl : slice_step (tq s) q).
  { intros d. rewrite Hd. intros [Hne _]%list_elem_of_filter ?. by destruct Hne. }
  split_and!; [|by split|done|].
  - eapply RInv_tq; [done|done|done| | |].
    + by eapply valid_elapsed_clock, ri_clock.
    + rewrite Hd. apply Forall_forall. intros d [_ Hin]%list_elem_of_filter.
      pose proof (ri_tq_dom x s Hi) as Hf. by eapply Forall_forall in Hf.
    + intros t. unfold active. by rewrite !linked_deadlines, Hdl.
  - cbn. rewrite Hn. by intros [? _]%list_elem_of_filter.
Qed.

Lemma add_slice_spec x s ticks :
  RInv x s -> TN_slice ∉ node <$> timeout_list (tq s) -> 0 <= ticks <= INT_MAX ->
  kwp (k_add_timeout TN_slice fn_slice_timeout (K_TICKS ticks)) s (fun _ s' =>
    RInv x s' /\ cache_frame s s' /\ cache s' = cache s).
Proof.
  intros Hi Hn Ht. unfold kwp, k_add_timeout.
  destruct (z_add_timeout_ok TN_slice fn_slice_timeout (K_TICKS ticks) (tq s))
    as (q & -> & Hwf & Hc & _ & Hd).
  - apply (ri_tq_wf x s Hi).
  - done.
  - unfold valid_timeout, K_TICKS, K_FOREVER, K_TICKS_FOREVER, INT_MAX, INT64_MAX in *. lia.
  - apply (ri_clock x s Hi).
  - assert (Hdl : thread_deadlines q = thread_deadlines (tq s)).
    { unfold thread_deadlines. rewrite Hd. by apply filter_insert_deadline. }
    assert (Hsl : slice_step (tq s) q).
    { intros d. rewrite Hd. intros [->|Hin]%elem_of_insert_deadline _; [right|by left]. cbn.
      apply timeout_dticks_range; [|apply (ri_clock x s Hi)].
      unfold valid_timeout, K_TICKS, K_FOREVER, K_TICKS_FOREVER, INT_MAX, INT64_MAX in *. lia. }
    split_and!; [|by split|done]. eapply RInv_tq; [done|done|done| | |].
    + by eapply valid_elapsed_clock, ri_clock.
    + rewrite Hd. apply Forall_insert_deadline; [done|]. apply (ri_tq_dom x s Hi).
    + intros t. unfold active. by rewrite !linked_deadlines, Hdl.
Qed.
End Invariant.

(** ** The building blocks *)

Abbreviation put_thread t th s := (set_threads (<[t := th]> (threads s)) s).

Section Blocks.
Context `{KConfig}.
Hypothesis no_metairq : CONFIG_NUM_METAIRQ_PRIORITIES = 0.
Implicit Types (s : kstate) (t u : tid) (th : k_thread) (x : option tid) (w : wqid).

Lemma metairq_tracking_off : metairq_tracking = false.
Proof. unfold metairq_tracking. by rewrite no_metairq. Qed.

Lemma not_metairq th : thread_is_metairq th = false.
Proof. unfold thread_is_metairq. by rewrite no_metairq. Qed.

Lemma reset_time_slice_spec x s t :
  RInv x s -> is_Some (threads s !! t) -> kwp (z_reset_time_slice t) s (fun _ s' =>
    RInv x s' /\ cache_frame s s' /\ cache s' = cache s).
Proof.
  intros Hi [th Ht]. unfold z_reset_time_slice. kstep.
  eapply kwp_mono; [by apply (abort_slice_spec x)|]. intros _ s1 (Hi1 & Hf1 & Hc1 & Hn1).
  ksteps. set (s2 := set_slice_expired false s1).
  assert (Hi2 : RInv x s2) by (by eapply RInv_ext; [..|exact Hi1]).
  assert (Hf2 : cache_frame s s2) by (destruct Hf1; by split).
  unfold thread_is_sliceable. kstep. eapply kwp_get_thread.
  { cbn. rewrite (cf_threads _ _ Hf1). exact Ht. }
  unfold slice_time. ksteps. apply kwp_when; [|done]. intros Hb. ksteps.
  eapply kwp_mono; [apply (add_slice_spec x); [done|done|]|].
  - bool_to_prop. pose proof (ri_slice x s2 Hi2). cbn in *. lia.
  - cbn. intros _ s3 (Hi3 & Hf3 & Hc3). split; [done|].
    split; [by eapply cache_frame_trans|]. by rewrite Hc3.
Qed.

Lemma next_up_spec s Q :
  Q (default z_idle_thread (head (runq s))) s -> kwp next_up s Q.
Proof. intros HQ. unfold next_up, runq_best. rewrite metairq_tracking_off. by ksteps. Qed.

Lemma next_up_thread x s : RInv x s -> is_Some (threads s !! default z_idle_thread (head (runq s))).
Proof.
  intros Hi. destruct (runq s) as [|t q] eqn:E; cbn.
  - destruct (ri_idle x s Hi) as (th & Hth & _). eauto.
  - destruct (ri_runq_thread x s t Hi) as (th & Hth & _); [rewrite E; left|eauto].
Qed.

Lemma update_cache_spec b x s :
  RInv x s -> (b = false -> current_ok s) ->
  kwp (update_cache b) s (fun _ s' => RInv x s' /\ cache_ok s' /\ cache_frame s s').
Proof.
  intros Hi Hcur. unfold update_cache. kstep. apply next_up_spec.
  set (n := default z_idle_thread (head (runq s))).
  pose proof (next_up_thread x s Hi : is_Some (threads s !! n)) as Hn.
  destruct (ri_current x s Hi) as [cth Ec].
  assert (Hyes : kwp (kwhen (CONFIG_TIMESLICING && bool_decide (n <> current s)) (z_reset_time_slice n)) s
     (fun _ s' => kwp (update_metairq_preempt n;; kmod (set_cache n)) s'
       (fun _ s' => RInv x s' /\ cache_ok s' /\ cache_frame s s'))).
  { unfold update_metairq_preempt. rewrite metairq_tracking_off.
    assert (Hdone : forall s1, RInv x s1 /\ cache_frame s s1 /\ cache s1 = cache s ->
      RInv x (set_cache n s1) /\ cache_ok (set_cache n s1) /\ cache_frame s (set_cache n s1)).
    { intros s1 (Hi1 & Hf1 & _). split; [by eapply RInv_ext; [..|exact Hi1]|]. split.
      - left. cbn. by rewrite (cf_runq _ _ Hf1).
      - destruct Hf1. by split. }
    apply kwp_when; intros _.
    - eapply kwp_mono; [by apply reset_time_slice_spec|]. cbv beta. intros _ s1 Hs1.
      ksteps. by apply Hdone.
    - ksteps. apply Hdone. split_and!; [done|apply cache_frame_refl|done]. }
  kstep. unfold should_preempt. destruct b; [ksteps; exact Hyes|].
  ksteps. eapply kwp_get_thread; [exact Ec|]. rewrite prevented_blocked.
  destruct (blocked cth) eqn:Hb; [ksteps; exact Hyes|]. ksteps.
  destruct (CONFIG_SWAP_NONATOMIC && _); [ksteps; exact Hyes|].
  destruct Hn as [nth Hn]. ksteps. eapply kwp_get_thread; [exact Hn|].
  rewrite not_metairq, orb_false_r. ksteps.
  destruct (thread_is_preemptible cth) eqn:Hp; [kstep; exact Hyes|].
  ksteps. split; [by eapply RInv_ext; [..|exact Hi]|]. split; [|by split].
  right. cbn. split; [done|]. rewrite Ec. cbn. rewrite Hp. split; [|done].
  destruct (Hcur eq_refl) as [_ Hc]. rewrite Ec in Hc.
  destruct (Hc Hb) as [Eid|]; [|done]. destruct (ri_idle x s Hi) as (ith & Ei & _ & Hpi).
  rewrite Eid in Ec. rewrite Ec in Ei. simplify_eq. congruence.
Qed.

(** *** The ready queue *)

Definition dequeue_st (t : tid) (th : k_thread) (s : kstate) : kstate :=
  set_runq (z_priq_dumb_remove t (runq s))
    (set_threads (<[t := clear_state_bits _THREAD_QUEUED th]> (threads s)) s).

Definition queue_st (t : tid) (th : k_thread) (s : kstate) : kstate :=
  let s := set_threads (<[t := set_state_bits _THREAD_QUEUED th]> (threads s)) s in
  set_runq (z_priq_dumb_add (prio_of s) t (runq s)) s.

Lemma prio_of_insert s s' t th th' :
  threads s !! t = Some th -> threads s' = <[t := th']> (threads s) -> prio th' = prio th ->
  forall u, prio_of s' u = prio_of s u.
Proof.
  intros E Et Ep u. unfold prio_of. rewrite Et. destruct (decide (u = t)) as [->|Hne].
  - by rewrite lookup_insert_eq, E.
  - by rewrite lookup_insert_ne.
Qed.

Lemma prio_sorted_prio s s' q :
  (forall u, prio_of s' u = prio_of s u) -> prio_sorted (prio_of s) q -> prio_sorted (prio_of s') q.
Proof. intros Hp. apply prio_sorted_ext. auto. Qed.

(** The wait queues and timeouts of [s'] are those of [s]. *)
Lemma update_ok_queues x s s' t th th' :
  RInv x s -> threads s !! t = Some th ->
  threads s' = <[t := th']> (threads s) -> current s' = current s -> slice_ticks s' = slice_ticks s ->
  waitqs s' = waitqs s -> tq s' = tq s -> pended_on th' = pended_on th ->
  NoDup (runq s') -> prio_sorted (prio_of s') (runq s') ->
  (forall u, u <> t -> u ∈ runq s' <-> u ∈ runq s) -> update_ok s s' t th'.
Proof.
  intros Hi E Et Ec Es Ew Eq Ep Hnd Hso Hrq. split; try done.
  - intros w l' El. rewrite Ew in El. destruct (ri_waitqs x s Hi w l' El) as [Hn Hf].
    assert (Hmem : forall u, u ∈ l' -> u ∈ waitq s w) by (intros u; unfold waitq; by rewrite El).
    split_and!; [done|by auto|]. intros Ht. rewrite Ep.
    destruct (ri_waitq_thread x s w t Hi (Hmem t Ht)) as (th0 & E0 & Hp & _). congruence.
  - intros w u _. unfold waitq. by rewrite Ew.
  - rewrite Eq. apply (ri_tq_wf x s Hi).
  - rewrite Eq. eapply Forall_impl; [apply (ri_tq_dom x s Hi)|]. intros d. apply deadline_ok_mono.
    intros u Hu. rewrite Et. destruct (decide (u = t)) as [->|];
      [rewrite lookup_insert_eq; eauto|by rewrite lookup_insert_ne].
  - intros u _. unfold active. by rewrite Eq.
  - rewrite Eq. apply (ri_clock x s Hi).
Qed.

Lemma dequeue_thread_spec x s t th :
  RInv x s -> (x = None \/ x = Some t) -> threads s !! t = Some th -> t ∈ runq s ->
  RInv (Some t) (dequeue_st t th s) /\
  forall Q, Q tt (dequeue_st t th s) -> kwp (dequeue_thread t) s Q.
Proof.
  intros Hi Hx E Ht. pose proof (ri_thread x s t th Hi E) as Hok.
  destruct (tok_runs _ _ _ _ Hok Ht) as (Hb & Ha & Hid). split.
  - set (th' := clear_state_bits _THREAD_QUEUED th).
    assert (Hp : forall u, prio_of (dequeue_st t th s) u = prio_of s u)
      by (by eapply prio_of_insert).
    apply (RInv_update x (Some t) s (dequeue_st t th s) t th');
      [done|eauto| | |naive_solver|done|intros Ht'; by destruct (not_dummy x s t th Hi E (or_introl Hb))].
    + eapply update_ok_queues; try done.
      * apply NoDup_remove_elem, (ri_nodup x s Hi).
      * eapply prio_sorted_prio; [exact Hp|]. apply dumb_remove_sorted, (ri_sorted x s Hi).
      * intros u Hu. cbn. unfold z_priq_dumb_remove. rewrite elem_of_remove_elem. tauto.
    + assert (Hout : t ∉ runq (dequeue_st t th s))
        by (cbn; unfold z_priq_dumb_remove; rewrite elem_of_remove_elem; tauto).
      destruct Hok. split; try done.
      * rewrite bool_decide_false by done. subst th'. bits_simpl. done.
      * subst th'. bits_simpl. done.
  - intros Q HQ. unfold dequeue_thread. kstep. eapply kwp_upd_thread; [done|].
    unfold should_queue_thread, kwhen, runq_remove, z_is_idle_thread_object. ksteps.
    apply kwp_assert; [by rewrite bool_decide_false|]. ksteps.
    apply kwp_assert; [by rewrite bool_decide_true|]. ksteps. exact HQ.
Qed.

Lemma queue_thread_spec x s t th :
  RInv x s -> (x = None \/ x = Some t) -> threads s !! t = Some th -> t ∉ runq s ->
  t <> z_idle_thread -> blocked th = false -> active t s = false ->
  RInv None (queue_st t th s) /\
  forall Q, Q tt (queue_st t th s) -> kwp (queue_thread t) s Q.
Proof.
  intros Hi Hx E Ht Hid Hb Ha. pose proof (ri_thread x s t th Hi E) as Hok. split.
  - set (th' := set_state_bits _THREAD_QUEUED th).
    assert (Hp : forall u, prio_of (queue_st t th s) u = prio_of s u)
      by (by eapply prio_of_insert).
    assert (Hin : forall u, u ∈ runq (queue_st t th s) <-> u = t \/ u ∈ runq s)
      by (intros u; apply elem_of_dumb_add).
    apply (RInv_update x None s (queue_st t th s) t th');
      [done|eauto| | |naive_solver|done|intros Ht'; by destruct (not_dummy x s t th Hi E (or_introl Hb))].
    + eapply update_ok_queues; try done.
      * apply dumb_add_NoDup; [apply (ri_nodup x s Hi)|done].
      * apply dumb_add_sorted. eapply prio_sorted_prio; [exact Hp|]. apply (ri_sorted x s Hi).
      * intros u Hu. rewrite Hin. tauto.
    + destruct Hok. split; try done.
      * rewrite bool_decide_true by (rewrite Hin; tauto). subst th'. bits_simpl. done.
      * intros _. subst th'. bits_simpl. done.
      * intros. rewrite Hin. tauto.
      * subst th'. bits_simpl. done.
  - intros Q HQ. unfold queue_thread. kstep. eapply kwp_upd_thread; [done|].
    unfold should_queue_thread, kwhen, runq_add, z_is_idle_thread_object. ksteps.
    apply kwp_assert; [by rewrite bool_decide_false|]. ksteps.
    eapply kwp_get_thread; [cbn; apply lookup_insert_eq|]. ksteps.
    apply kwp_assert; [by rewrite bool_decide_true|]. ksteps. exact HQ.
Qed.

(** [current_ok], not counting on [t] being queued. *)
Definition current_ok_but (t : tid) (s : kstate) : Prop :=
  active (current s) s = false /\ (current s <> t -> current_ok s).

Lemma current_ok_weaken t s : current_ok s -> current_ok_but t s.
Proof. intros Hc. split; [apply Hc|done]. Qed.

Lemma current_ok_frame s s' : cache_frame s s' -> current_ok s -> current_ok s'.
Proof.
  intros Hf [Ha Hc]. unfold current_ok. rewrite (cf_active _ _ _ Hf), (cf_current _ _ Hf),
    (cf_threads _ _ Hf), (cf_runq _ _ Hf). done.
Qed.

Lemma queue_st_current t th s :
  threads s !! t = Some th -> current_ok_but t s -> current_ok (queue_st t th s).
Proof.
  intros E [Ha Hc]. split; [done|]. cbn. destruct (decide (current s = t)) as [->|Hne].
  - rewrite lookup_insert_eq. intros _. right. apply elem_of_dumb_add. by left.
  - rewrite lookup_insert_ne by done. destruct (Hc Hne) as [_ Hc'].
    destruct (threads s !! current s); [|done]. intros Hb. destruct (Hc' Hb); [by left|right].
    apply elem_of_dumb_add. by right.
Qed.

(** [ready_thread] queues the thread when it is ready, and does nothing when
    something still keeps it from running. *)
Definition readied (t : tid) (th : k_thread) (s s' : kstate) : Prop :=
  if st 7 th || blocked th || active t s then s' = s else cache_frame (queue_st t th s) s'.

(** The choice of the next thread may be out of date before. *)
Lemma ready_thread_core s t th :
  RInv (Some t) s -> current_ok_but t s -> threads s !! t = Some th -> t <> z_idle_thread ->
  kwp (ready_thread t) s (fun _ s' =>
    RInv None s' /\ current_ok s' /\ (cache_ok s -> cache_ok s') /\ readied t th s s').
Proof.
  intros Hi Hcur E Hid. pose proof (ri_thread _ s t th Hi E) as Hok. unfold readied.
  unfold ready_thread, z_is_thread_ready. kstep. eapply kwp_get_thread; [done|]. ksteps.
  eapply kwp_get_thread; [done|]. ksteps. rewrite is_queued_st, prevented_blocked, timeout_active_active.
  destruct (st 7 th) eqn:Hq; cbn [negb andb orb].
  { ksteps. assert (Ht : t ∈ runq s).
    { rewrite (tok_queued _ _ _ _ Hok) in Hq. by apply bool_decide_eq_true in Hq. }
    split; [by eapply RInv_settle|split; [|done]]. destruct Hcur as [Ha Hcu].
    destruct (decide (current s = t)) as [Et|Hne]; [|by apply Hcu]. split; [done|].
    rewrite Et, E. by right. }
  assert (Ht : t ∉ runq s).
  { rewrite (tok_queued _ _ _ _ Hok) in Hq. by apply bool_decide_eq_false in Hq. }
  destruct (blocked th || active t s) eqn:Hba; cbn [negb].
  { ksteps. split; [|split; [|done]].
    - eapply RInv_settle; [done|]. intros th0 E0 Hb Ha. simplify_eq. by rewrite Hb, Ha in Hba.
    - destruct Hcur as [Ha Hcu]. destruct (decide (current s = t)) as [Et|Hne]; [|by apply Hcu].
      split; [done|]. rewrite Et, E. rewrite Et in Ha. rewrite Ha, orb_false_r in Hba. congruence. }
  apply orb_false_iff in Hba as [Hb Ha].
  destruct (queue_thread_spec (Some t) s t th) as [Hi' Hkwp]; [done|by right|done..|].
  unfold kwhen. kstep. apply Hkwp.
  eapply kwp_mono; [apply (update_cache_spec false None); [done|]|].
  - intros _. by apply queue_st_current.
  - cbv beta. intros _ s' (Hi'' & Hc'' & Hf). split; [done|split; [|done]].
    by eapply current_ok_frame, queue_st_current.
Qed.

Lemma ready_thread_spec s t th :
  RInv (Some t) s -> cache_ok s -> current_ok_but t s -> threads s !! t = Some th -> t <> z_idle_thread ->
  kwp (ready_thread t) s (fun _ s' => SInv s' /\ readied t th s s').
Proof.
  intros Hi Hc Hcur E Hid. eapply kwp_mono; [by apply (ready_thread_core s t th)|]. cbv beta.
  intros _ s' (Hi' & Hu' & Hc' & Hr). split; [|done]. split; auto.
Qed.

(** [unready_thread] takes the thread out of the ready queue. *)
Lemma unready_thread_spec s t th :
  RInv None s -> threads s !! t = Some th -> (t <> current s -> current_ok s) ->
  kwp (unready_thread t) s (fun _ s' =>
    RInv (Some t) s' /\ cache_ok s' /\ (t ∉ runq s') /\
    (if st 7 th then cache_frame (dequeue_st t th s) s' else cache_frame s s')).
Proof.
  intros Hi E Hcur. pose proof (ri_thread _ s t th Hi E) as Hok.
  unfold unready_thread. kstep. eapply kwp_get_thread; [done|]. rewrite is_queued_st.
  pose proof (tok_queued _ _ _ _ Hok) as Hq. destruct (st 7 th) eqn:Eq.
  - symmetry in Hq. apply bool_decide_eq_true in Hq. kstep. unfold kwhen.
    destruct (dequeue_thread_spec None s t th) as [Hi' Hkwp]; [done|by left|done..|].
    apply Hkwp. ksteps. eapply kwp_mono; [apply (update_cache_spec _ (Some t)); [done|]|].
    + intros Hne%bool_decide_eq_false. destruct (Hcur Hne) as [Ha Hc]. split; [done|]. cbn in *.
      rewrite lookup_insert_ne by done. destruct (threads s !! current s); [|done].
      intros Hb. destruct (Hc Hb); [by left|right]. unfold z_priq_dumb_remove.
      rewrite elem_of_remove_elem. split; [congruence|done].
    + cbv beta. intros _ s' (Hi'' & Hc'' & Hf). split_and!; [done..| |done].
      rewrite (cf_runq _ _ Hf). cbn. unfold z_priq_dumb_remove. rewrite elem_of_remove_elem. tauto.
  - symmetry in Hq. apply bool_decide_eq_false in Hq. kstep. unfold kwhen. ksteps.
    eapply kwp_mono; [apply (update_cache_spec _ None); [done|]|].
    + intros Hne%bool_decide_eq_false. auto.
    + cbv beta. intros _ s' (Hi'' & Hc'' & Hf). split_and!; [by apply RInv_mono|done| |done].
      by rewrite (cf_runq _ _ Hf).
Qed.

(** *** Changing one thread *)

Lemma put_thread_sorted x s t th th' :
  RInv x s -> threads s !! t = Some th -> (prio th' = prio th \/ t ∉ runq s) ->
  prio_sorted (prio_of (put_thread t th' s)) (runq s).
Proof.
  intros Hi E [Hp|Ht].
  - eapply prio_sorted_prio; [|apply (ri_sorted x s Hi)]. by eapply prio_of_insert.
  - eapply prio_sorted_ext; [|apply (ri_sorted x s Hi)]. intros u Hu. unfold prio_of. cbn.
    rewrite lookup_insert_ne; [done|]. by intros ->.
Qed.

(** Fields the scheduler does not look at, and priorities outside the ready queue. *)
Lemma RInv_data x s t th th' :
  RInv x s -> threads s !! t = Some th -> thread_state th' = thread_state th ->
  pended_on th' = pended_on th -> (prio th' = prio th \/ t ∉ runq s) ->
  -128 <= prio th' < 128 -> 0 <= sched_locked th' < 256 ->
  (t = z_idle_thread -> thread_is_preemptible th' = true) -> RInv x (put_thread t th' s).
Proof.
  clear no_metairq. intros Hi E Est Epo Hpr Hr Hl Hid. pose proof (ri_thread x s t th Hi E) as Hok.
  assert (Hst : forall n, st n th' = st n th) by (intros n; unfold st; by rewrite Est).
  assert (Hb : blocked th' = blocked th) by (unfold blocked; by rewrite !Hst).
  apply (RInv_update x x s _ t th'); [done|eauto| |..]; [| |done| |].
  - eapply update_ok_queues; try done; [exact (ri_nodup x s Hi)|].
    exact (put_thread_sorted x s t th th' Hi E Hpr).
  - destruct Hok. split; rewrite ?Hst, ?Hb, ?Epo; done.
  - intros ->. destruct (ri_idle x s Hi) as (ith & Ei & Hst0 & _). split; [|apply (ri_idle_timeout x s Hi)].
    split; [rewrite Est; congruence|auto].
  - intros ->. destruct (ri_dummy x s Hi) as (dth & Ed & Hd & Hp). split; [|apply (ri_dummy_timeout x s Hi)].
    split; congruence.
Qed.

(** A state word: the thread may become ready without being queued. *)
Lemma RInv_state x s t th th' :
  RInv x s -> (x = None \/ x = Some t) -> threads s !! t = Some th ->
  pended_on th' = pended_on th -> prio th' = prio th -> sched_locked th' = sched_locked th ->
  st 1 th' = st 1 th -> st 7 th' = st 7 th -> (t ∈ runq s -> blocked th' = false) ->
  t <> z_idle_thread -> t <> thread_dummy -> RInv (Some t) (put_thread t th' s).
Proof.
  intros Hi Hx E Epo Hpr Hl H1 H7 Hrun Hid Hdu. pose proof (ri_thread x s t th Hi E) as Hok.
  apply (RInv_update x (Some t) s _ t th'); [done|eauto| |..]; [| |naive_solver|done|done].
  - eapply update_ok_queues; try done; [exact (ri_nodup x s Hi)|].
    exact (put_thread_sorted x s t th th' Hi E (or_introl Hpr)).
  - destruct Hok. split; rewrite ?H1, ?H7, ?Epo, ?Hpr, ?Hl; try done.
    intros Ht. split; [auto|]. by apply tok_runs0.
Qed.

(** The cached choice and the current thread see only these of a thread. *)
Lemma cache_ok_put s t th th' :
  threads s !! t = Some th -> thread_is_preemptible th' = thread_is_preemptible th ->
  cache_ok s -> cache_ok (put_thread t th' s).
Proof.
  intros E Ep [Hc|(Hc & Hr & Hp)]; [by left|]. right. cbn. split_and!; [done..|].
  destruct (decide (current s = t)) as [Et|]; [|by rewrite lookup_insert_ne].
  rewrite Et, lookup_insert_eq. rewrite Et, E in Hp. cbn in *. congruence.
Qed.

Lemma current_ok_put s t th th' :
  threads s !! t = Some th -> blocked th' = blocked th -> current_ok s -> current_ok (put_thread t th' s).
Proof.
  intros E Eb [Ha Hc]. split; [done|]. cbn. destruct (decide (current s = t)) as [Et|Hne].
  - rewrite Et, lookup_insert_eq, Eb. rewrite Et, E in Hc. done.
  - by rewrite lookup_insert_ne.
Qed.

Lemma current_ok_but_put s t th' : current_ok_but t s -> current_ok_but t (put_thread t th' s).
Proof.
  intros [Ha Hc]. split; [done|]. intros Hne. destruct (Hc Hne) as [_ Hc']. split; [done|].
  cbn in *. by rewrite lookup_insert_ne.
Qed.

(** *** Wait queues *)

Definition unpended (th : k_thread) : k_thread :=
  with_pended_on None (clear_state_bits _THREAD_PENDING th).
Definition unpend_st (t : tid) (th : k_thread) (w : wqid) (s : kstate) : kstate :=
  set_threads (<[t := unpended th]> (threads s))
    (set_waitqs (<[w := z_priq_dumb_remove t (waitq s w)]> (waitqs s)) s).

Lemma waitq_insert s w l w' :
  waitq (set_waitqs (<[w := l]> (waitqs s)) s) w' = if decide (w' = w) then l else waitq s w'.
Proof.
  unfold waitq. cbn. destruct (decide (w' = w)) as [->|].
  - by rewrite lookup_insert_eq.
  - by rewrite lookup_insert_ne.
Qed.

Lemma update_ok_waitq x s s' t th th' w l :
  RInv x s -> threads s !! t = Some th -> threads s' = <[t := th']> (threads s) ->
  current s' = current s -> slice_ticks s' = slice_ticks s ->
  waitqs s' = <[w := l]> (waitqs s) -> tq s' = tq s -> runq s' = runq s -> prio th' = prio th ->
  NoDup l -> (forall u, u <> t -> u ∈ l <-> u ∈ waitq s w) -> (t ∈ l -> pended_on th' = Some w) ->
  (forall w', w' <> w -> t ∉ waitq s w') -> update_ok s s' t th'.
Proof.
  intros Hi E Et Ec Es Ew Eq Er Ep Hnd Hl Hin Hout.
  assert (Ewq : forall w', waitq s' w' = if decide (w' = w) then l else waitq s w').
  { intros w'. rewrite <- waitq_insert. unfold waitq. by rewrite Ew. }
  split; try done.
  - rewrite Er. apply (ri_nodup x s Hi).
  - rewrite Er. eapply prio_sorted_prio; [|apply (ri_sorted x s Hi)]. by eapply prio_of_insert.
  - by rewrite Er.
  - intros w' l' El. rewrite Ew in El. destruct (decide (w' = w)) as [->|Hne].
    + rewrite lookup_insert_eq in El. simplify_eq. split_and!; [done| |done].
      intros u Hu Hne. by apply Hl.
    + rewrite lookup_insert_ne in El by done.
      assert (Ewl : waitq s w' = l') by (unfold waitq; by rewrite El). rewrite <- Ewl in *.
      split_and!; [apply (ri_waitq_nodup x s w' Hi)|done|]. by intros ?%(Hout w' Hne).
  - intros w' u Hne Hu. rewrite Ewq. case_decide as Ed; [|done]. apply Hl; [done|]. by rewrite <- Ed.
  - rewrite Eq. apply (ri_tq_wf x s Hi).
  - rewrite Eq. eapply Forall_impl; [apply (ri_tq_dom x s Hi)|]. intros d. apply deadline_ok_mono.
    intros u Hu. rewrite Et. destruct (decide (u = t)) as [->|];
      [rewrite lookup_insert_eq; eauto|by rewrite lookup_insert_ne].
  - intros u _. unfold active. by rewrite Eq.
  - rewrite Eq. apply (ri_clock x s Hi).
Qed.

Lemma waitq_unique x s w w' t th :
  RInv x s -> threads s !! t = Some th -> pended_on th = Some w -> w' <> w -> t ∉ waitq s w'.
Proof.
  intros Hi E Ep Hne Hin. destruct (ri_waitq_thread x s w' t Hi Hin) as (th' & E' & Ep' & _). congruence.
Qed.

Lemma waitq_unpended x s w t th :
  RInv x s -> threads s !! t = Some th -> pended_on th = None -> t ∉ waitq s w.
Proof.
  intros Hi E Ep Hin. destruct (ri_waitq_thread x s w t Hi Hin) as (th' & E' & Ep' & _). congruence.
Qed.

Lemma unpend_thread_spec x s t th w :
  RInv x s -> (x = None \/ x = Some t) -> threads s !! t = Some th -> pended_on th = Some w ->
  t <> z_idle_thread /\ (t ∉ runq s) /\ RInv (Some t) (unpend_st t th w s) /\
  forall Q, Q tt (unpend_st t th w s) -> kwp (unpend_thread_no_timeout t) s Q.
Proof.
  intros Hi Hx E Ep. pose proof (ri_thread x s t th Hi E) as Hok.
  assert (H1 : st 1 th = true).
  { rewrite (tok_pending _ _ _ _ Hok), Ep. by apply bool_decide_eq_true. }
  assert (Hid : t <> z_idle_thread).
  { intros ->. destruct (ri_idle x s Hi) as (ith & Ei & Hst & _). rewrite E in Ei. simplify_eq.
    unfold st in H1. rewrite Hst in H1. by rewrite Z.bits_0 in H1. }
  assert (Hrun : t ∉ runq s).
  { intros Hr. destruct (tok_runs _ _ _ _ Hok Hr) as (Hb & _). unfold blocked in Hb.
    rewrite H1, orb_true_r in Hb. done. }
  assert (Hin : t ∈ waitq s w) by (by apply (tok_waitq _ _ _ _ Hok)).
  assert (Hrem : forall u, u ∈ z_priq_dumb_remove t (waitq s w) <-> u <> t /\ u ∈ waitq s w)
    by (intros u; apply elem_of_remove_elem).
  split_and!; [done..| |].
  - apply (RInv_update x (Some t) s _ t (unpended th));
      [done|eauto| | |naive_solver|done|].
    + eapply update_ok_waitq; try done.
      * apply NoDup_remove_elem, (ri_waitq_nodup x s w Hi).
      * intros u Hu. rewrite Hrem. tauto.
      * intros [? _]%Hrem. done.
      * intros w' Hne. by eapply waitq_unique.
    + destruct Hok. split; try done.
      * change (st 7 (clear_state_bits _THREAD_PENDING th) = bool_decide (t ∈ runq s)).
        rewrite <- tok_queued0. bits_simpl. done.
      * change (st 1 (clear_state_bits _THREAD_PENDING th) = false). bits_simpl. done.
    + intros Ht'. destruct (not_dummy x s t th Hi E); [right; congruence|done].
  - intros Q HQ. unfold unpend_thread_no_timeout, pended_on_thread, priq_wait_remove, put_waitq.
    ksteps. eapply kwp_get_thread; [done|]. rewrite Ep. ksteps.
    apply kwp_assert; [by apply bool_decide_eq_true|]. ksteps.
    eapply kwp_upd_thread; [exact E|]. eapply kwp_upd_thread; [cbn; apply lookup_insert_eq|].
    cbn. rewrite insert_insert_eq. exact HQ.
Qed.

Definition pended (w : wqid) (th : k_thread) : k_thread :=
  with_pended_on (Some w) (set_state_bits _THREAD_PENDING th).
Definition pend_st (t : tid) (th : k_thread) (w : wqid) (s : kstate) : kstate :=
  set_waitqs (<[w := z_priq_dumb_add (prio_of s) t (waitq s w)]> (waitqs s))
    (set_threads (<[t := pended w th]> (threads s)) s).

(** The tail of [add_to_waitq_locked], once the thread is out of the ready queue. *)
Lemma pend_spec x s t th w :
  RInv x s -> (x = None \/ x = Some t) -> threads s !! t = Some th -> pended_on th = None ->
  (t ∉ runq s) -> t <> z_idle_thread -> t <> thread_dummy ->
  RInv None (pend_st t th w s) /\
  forall Q, Q tt (pend_st t th w s) ->
    kwp (z_mark_thread_as_pending t;;
         upd_thread t (with_pended_on (Some w));; priq_wait_add w t) s Q.
Proof.
  intros Hi Hx E Ep Hrun Hid Hdu. pose proof (ri_thread x s t th Hi E) as Hok.
  assert (Hout : forall w, t ∉ waitq s w) by (intros w'; by eapply waitq_unpended).
  assert (Hadd : forall u, u ∈ z_priq_dumb_add (prio_of s) t (waitq s w) <-> u = t \/ u ∈ waitq s w)
    by (intros u; apply elem_of_dumb_add).
  split.
  - apply (RInv_update x None s _ t (pended w th)); [done|eauto| | |naive_solver|done|done].
    + eapply update_ok_waitq; try done.
      * by apply dumb_add_NoDup; [apply (ri_waitq_nodup x s w Hi)|].
      * intros u Hu. rewrite Hadd. tauto.
    + destruct Hok. split; try done.
      * change (st 7 (set_state_bits _THREAD_PENDING th) = bool_decide (t ∈ runq s)).
        rewrite <- tok_queued0. bits_simpl. done.
      * intros _ _ Hb. exfalso. revert Hb. change (blocked (set_state_bits _THREAD_PENDING th) = false -> False).
        bits_simpl. done.
      * intros w' [= <-]. unfold pend_st, waitq. cbn. rewrite lookup_insert_eq. cbn. rewrite Hadd. by left.
      * change (st 1 (set_state_bits _THREAD_PENDING th) = true). bits_simpl. done.
  - intros Q HQ. unfold z_mark_thread_as_pending, priq_wait_add, put_waitq. ksteps.
    eapply kwp_upd_thread; [exact E|]. kstep.
    eapply kwp_upd_thread; [cbn; apply lookup_insert_eq|]. ksteps.
    apply kwp_assert; [apply bool_decide_eq_true; exact (Hout w)|]. ksteps. cbn. rewrite insert_insert_eq.
    match goal with |- Q tt ?s' => replace s' with (pend_st t th w s); [exact HQ|] end.
    unfold pend_st. cbn. do 2 f_equal. symmetry. apply dumb_add_ext.
    intros u _. by eapply prio_of_insert.
Qed.

(** *** Thread timeouts *)

Lemma update_ok_tq x s t th q :
  RInv x s -> threads s !! t = Some th -> wf_timeouts q -> valid_elapsed q ->
  Forall (deadline_ok s) (deadlines q) ->
  (forall u, u <> t -> is_linked (TN_thread u) q = active u s) -> update_ok s (set_tq q s) t th.
Proof.
  intros Hi E Hwf Hel Hd Ha. split; try done.
  - symmetry. by apply insert_id.
  - apply (ri_nodup x s Hi).
  - exact (ri_sorted x s Hi).
  - intros w l El. destruct (ri_waitqs x s Hi w l El) as [Hn Hf]. split_and!; [done| |].
    + intros u Hu _. unfold waitq. cbn in El. by rewrite El.
    + intros Ht. rewrite Forall_forall in Hf. specialize (Hf t Ht). by rewrite E in Hf.
Qed.

Lemma is_linked_nodes n q q' :
  node <$> timeout_list q' ≡ₚ node <$> timeout_list q -> is_linked n q' = is_linked n q.
Proof. intros Hp. unfold is_linked. apply bool_decide_ext. by rewrite Hp. Qed.

Definition abort_st (t : tid) (s : kstate) : kstate :=
  set_tq (z_abort_timeout (TN_thread t) (tq s)).2 s.

Lemma abort_st_active x s t u :
  RInv x s -> active u (abort_st t s) = if decide (u = t) then false else active u s.
Proof.
  intros Hi. pose proof (z_abort_timeout_ok (TN_thread t) (tq s) (ri_tq_wf x s Hi)) as Ha.
  unfold active, abort_st, is_linked. cbn [tq set_tq].
  destruct (z_abort_timeout (TN_thread t) (tq s)) as [ret q]. destruct Ha as (_ & _ & _ & Hn & _).
  cbn [snd]. rewrite Hn. case_decide as Hu; [subst u; apply bool_decide_false|apply bool_decide_ext];
    rewrite list_elem_of_filter; [tauto|]. split; [tauto|]. intros ?. split; [congruence|done].
Qed.

Lemma abort_timeout_spec x s t th :
  RInv x s -> (x = None \/ x = Some t) -> threads s !! t = Some th ->
  RInv (Some t) (abort_st t s) /\ same_clock (tq s) (tq (abort_st t s)) /\
  forall Q, Q (if active t s then 0 else - EINVAL) (abort_st t s) -> kwp (z_abort_thread_timeout t) s Q.
Proof.
  intros Hi Hx E. pose proof (ri_thread x s t th Hi E) as Hok.
  pose proof (fun u => abort_st_active x s t u Hi) as Hac.
  pose proof (z_abort_timeout_ok (TN_thread t) (tq s) (ri_tq_wf x s Hi)) as Ha.
  unfold abort_st, active in *. cbn [tq set_tq] in *.
  destruct (z_abort_timeout (TN_thread t) (tq s)) as [ret q] eqn:Eab. cbn [snd] in *.
  destruct Ha as (Hret & Hwf & Hc & Hn & Hd). split_and!; [|done|].
  - apply (RInv_update x (Some t) s _ t th); [done|eauto| | |naive_solver| |].
    + eapply update_ok_tq; try done.
      * eapply valid_elapsed_clock; [done|apply (ri_clock x s Hi)].
      * rewrite Hd. apply Forall_forall. intros d [_ Hin]%list_elem_of_filter.
        pose proof (ri_tq_dom x s Hi) as Hf. by eapply Forall_forall in Hf.
      * intros u Hu. rewrite Hac. by rewrite decide_False.
    + destruct Hok. split; try done. intros Hr. destruct (tok_runs0 Hr) as (? & ? & ?).
      split_and!; [done| |done]. unfold active. cbn. rewrite Hac. by rewrite decide_True.
    + intros ->. destruct (ri_idle x s Hi) as (ith & Ei & Hith). rewrite E in Ei. simplify_eq.
      split; [done|]. unfold active. cbn. rewrite Hac. by rewrite decide_True.
    + intros ->. destruct (ri_dummy x s Hi) as (ith & Ei & Hith). rewrite E in Ei. simplify_eq.
      split; [done|]. unfold active. cbn. rewrite Hac. by rewrite decide_True.
  - intros Q HQ. unfold kwp, z_abort_thread_timeout, k_abort_timeout. rewrite Eab.
    rewrite Hret. unfold is_linked in HQ. by destruct (decide _) as [Hl|Hl];
      [rewrite bool_decide_true in HQ by done|rewrite bool_decide_false in HQ by done].
Qed.

(** The state after a thread's timeout was started. *)
Definition timed_st (t : tid) (timeout : k_timeout_t) (s s' : kstate) : Prop :=
  exists q, s' = set_tq q s /\ same_clock (tq s) q /\
    deadlines q = insert_deadline (TN_thread t, fn_z_thread_timeout, timeout_dticks timeout (tq s))
                    (deadlines (tq s)).

Lemma add_timeout_spec x s t th timeout :
  RInv x s -> (x = None \/ x = Some t) -> threads s !! t = Some th -> (t ∉ runq s) ->
  t <> z_idle_thread -> t <> thread_dummy -> active t s = false -> valid_timeout timeout ->
  kwp (z_add_thread_timeout t timeout) s (fun _ s' => RInv None s' /\ timed_st t timeout s s').
Proof.
  intros Hi Hx E Hr Hid Hdu Ha Ht. unfold kwp, z_add_thread_timeout, k_add_timeout.
  destruct (z_add_timeout_ok (TN_thread t) fn_z_thread_timeout timeout (tq s))
    as (q & -> & Hwf & Hc & Hp & Hd); [apply (ri_tq_wf x s Hi)| |done|apply (ri_clock x s Hi)|].
  { by apply is_linked_false. }
  assert (Hlk : forall u, is_linked (TN_thread u) q = true <-> u = t \/ active u s = true).
  { intros u. unfold active. rewrite !is_linked_true, Hp, elem_of_cons. split; [|naive_solver].
    intros [[= ->]|?]; auto. }
  split; [|by exists q].
  apply (RInv_update x None s _ t th); [done|eauto| | |naive_solver|done|done].
  - eapply update_ok_tq; try done.
    + eapply valid_elapsed_clock; [done|apply (ri_clock x s Hi)].
    + rewrite Hd. apply Forall_insert_deadline; [cbn; eauto|apply (ri_tq_dom x s Hi)].
    + intros u Hu. apply eq_true_iff_eq. rewrite Hlk. tauto.
  - destruct (ri_thread x s t th Hi E). split; try done. intros _ _ _ Hna. exfalso.
    assert (Ht1 : is_linked (TN_thread t) q = true) by (apply Hlk; by left).
    unfold active in Hna. cbn in Hna. congruence.
Qed.

(** A timeout that an API call accepts: [K_FOREVER], or one that cannot overflow. *)
Definition api_timeout (timeout : k_timeout_t) : Prop := timeout = K_FOREVER \/ valid_timeout timeout.

Lemma add_thread_timeout_spec s t th timeout :
  RInv None s -> threads s !! t = Some th -> (t ∉ runq s) -> t <> z_idle_thread -> t <> thread_dummy -> active t s = false ->
  api_timeout timeout ->
  kwp (add_thread_timeout t timeout) s (fun _ s' =>
    RInv None s' /\ if decide (timeout = K_FOREVER) then s' = s else timed_st t timeout s s').
Proof.
  intros Hi E Hr Hid Hdu Ha [->|Ht]; unfold add_thread_timeout, K_TIMEOUT_EQ.
  - rewrite Z.eqb_refl. cbn [negb kwhen]. apply kwp_ret. by rewrite decide_True.
  - rewrite (proj2 (Z.eqb_neq timeout K_FOREVER)) by apply Ht.
    cbn [negb kwhen]. eapply kwp_mono; [eapply add_timeout_spec; [done|by left|done..]|].
    cbv beta. intros _ s' Hs'. by rewrite decide_False by apply Ht.
Qed.
End Blocks.
