(* ===== verification/SchedOps.v ===== *)
(** * What the scheduler does to the rest of the kernel

    Frames and specifications of the scheduler functions the other parts of the
    kernel call: unpending and readying waiters, pending the current thread, and
    switching threads.  Each runs without a failed assertion and restores the
    invariant of [SchedInv].

    [wframe] says that a step leaves alone every thread that goes on waiting: what is
    known about an object the step did not touch survives it, if it tolerates waiters
    leaving.
    [seg] is the guarantee a thread gives to all others about a stretch of its
    execution: a waiting thread is either left alone or woken, with a return value
    that is justified ([granted]), and mutexes others own stay theirs. *)

From S2P Require Import Prelude TimeUnits Timeout PriorityQ KState KLogic Sched SchedInv.

Local Open Scope Z_scope.

(** ** Frames *)

(** The fields through which a waiting thread and the object it waits on
    communicate. *)
Definition waiter_data (th : k_thread) : Z * Z * Z := (swap_data th, th_events th, event_options th).

(** A thread can be woken: its timeout counts, it is not being aborted, and it does not
    wait once it is dead. *)
Definition wake_fine (th : k_thread) : bool :=
  negb (no_wake_on_timeout th) && negb (st 5 th) && negb (st 3 th && bool_decide (pended_on th <> None)).
Definition wake_ok (s : kstate) : Prop := map_Forall (fun _ th => wake_fine th = true) (threads s).

Definition dead (s : kstate) (t : tid) : bool := from_option (st 3) false (threads s !! t).

(** The current thread can run. *)
Definition running (s : kstate) : Prop := blocked <$> threads s !! current s = Some false.

Record wframe (s s' : kstate) : Prop := {
  wf_mem : forall p, is_Some (mem s !! p) -> is_Some (mem s' !! p);
  wf_nested : nested s' = nested s;
  wf_dom : forall t, is_Some (threads s !! t) -> is_Some (threads s' !! t);
  wf_waitq : forall w, waitq s' w `sublist_of` waitq s w;
  wf_data : forall w t, t ∈ waitq s' w -> waiter_data <$> threads s' !! t = waiter_data <$> threads s !! t;
  wf_wake : wake_ok s -> wake_ok s'
}.

(** The return value of [u], woken from [w], is one it may act on: a mutex was
    handed over, a joined thread is dead. *)
Definition granted (w : wqid) (u : tid) (r : Z) (s : kstate) : Prop :=
  match w with
  | WQ_obj a =>
      match objs s !! a with
      | Some (O_mutex o) => r = 0 /\ owner o = Some u
      | Some (O_sem _) => r = 0 \/ r = - EAGAIN
      | Some (O_msgq _) => r = 0 \/ r = - ENOMSG
      | Some _ => r = 0
      | None => False
      end
  | WQ_join t => r = 0 /\ dead s t = true
  end.

(** What happened to [u] between [s] and [s'] while other threads ran: nothing, or it
    stopped waiting, because its timeout expired, it was aborted, or it was woken with
    a return value it may act on.  Nobody starts a timeout for it. *)
Definition history (u : tid) (s s' : kstate) : Prop :=
  forall th, threads s !! u = Some th -> exists th', threads s' !! u = Some th' /\
    (active u s' = true -> active u s = true) /\
    ((pended_on th' = pended_on th /\ swap_retval th' = swap_retval th) \/
     (pended_on th' = None /\ exists w, pended_on th = Some w /\
        (swap_retval th' = swap_retval th /\ (active u s = true \/ st 3 th' = true) \/
         granted w u (swap_retval th') s'))).

Definition same_kind (o o' : kobj) : bool :=
  match o, o' with
  | O_sem _, O_sem _ | O_mutex _, O_mutex _ | O_condvar, O_condvar | O_msgq _, O_msgq _
  | O_stack _, O_stack _ | O_event _, O_event _ | O_slab _, O_slab _ => true
  | _, _ => false
  end.

(** [u] waits for the mutex [a]. *)
Definition waits_for (u : tid) (a : positive) (s : kstate) : Prop :=
  exists th, threads s !! u = Some th /\ pended_on th = Some (WQ_obj a).

(** [u] owns the mutex [a], in state [o]. *)
Definition owns (u : tid) (a : positive) (o : k_mutex) (s : kstate) : Prop :=
  objs s !! a = Some (O_mutex o) /\ owner o = Some u.

(** A stretch of execution of the thread [c]: a mutex of another thread is not
    touched, and only a thread that waits for one is made its owner. *)
Record seg (c : tid) (s s' : kstate) : Prop := {
  sg_history : forall u, u <> c -> history u s s';
  sg_dead : forall u, dead s u = true -> dead s' u = true;
  sg_kind : forall a o, objs s !! a = Some o -> exists o', objs s' !! a = Some o' /\ same_kind o o' = true;
  sg_owner : forall a o u, owns u a o s -> u <> c -> owns u a o s';
  sg_owned : forall a o u, is_Some (threads s !! u) -> owns u a o s' -> u <> c -> owns u a o s \/ waits_for u a s
}.

(** What a thread [u] can count on while other threads run. *)
Record kept (u : tid) (s s' : kstate) : Prop := {
  kp_history : history u s s';
  kp_dead : forall t, dead s t = true -> dead s' t = true;
  kp_kind : forall a o, objs s !! a = Some o -> exists o', objs s' !! a = Some o' /\ same_kind o o' = true;
  kp_owner : forall a o, owns u a o s -> owns u a o s';
  kp_owned : forall a o, is_Some (threads s !! u) -> owns u a o s' -> owns u a o s \/ waits_for u a s
}.

(** Nothing but scheduling: both of the above, except that the thread [x] may stop
    waiting. *)
Definition thread_frame (th th' : k_thread) : Prop :=
  waiter_data th' = waiter_data th /\ swap_retval th' = swap_retval th /\
  (pended_on th' = pended_on th \/ pended_on th' = None) /\
  (st 3 th = true -> st 3 th' = true) /\ (wake_fine th = true -> wake_fine th' = true).

Record sframe_but (x : option tid) (s s' : kstate) : Prop := {
  sf_objs : objs s' = objs s;
  sf_mem : mem s' = mem s;
  sf_nested : nested s' = nested s;
  sf_current : current s' = current s;
  sf_waitq : forall w, waitq s' w `sublist_of` waitq s w;
  sf_dom : forall u, threads s !! u = None -> threads s' !! u = None;
  sf_threads : forall u th, threads s !! u = Some th ->
    exists th', threads s' !! u = Some th' /\ thread_frame th th';
  sf_active : forall u, active u s' = true -> active u s = true;
  sf_unpend : forall u th th', threads s !! u = Some th -> threads s' !! u = Some th' -> x <> Some u ->
    pended_on th <> None -> pended_on th' = None -> active u s = true \/ st 3 th' = true
}.
Abbreviation sframe := (sframe_but None).

Lemma same_kind_refl o : same_kind o o = true.
Proof. by destruct o. Qed.
Lemma same_kind_trans o1 o2 o3 : same_kind o1 o2 = true -> same_kind o2 o3 = true -> same_kind o1 o3 = true.
Proof. by destruct o1, o2, o3. Qed.

Lemma thread_frame_refl th : thread_frame th th.
Proof. split_and!; auto. Qed.
Lemma thread_frame_trans th1 th2 th3 : thread_frame th1 th2 -> thread_frame th2 th3 -> thread_frame th1 th3.
Proof.
  intros (D1 & R1 & P1 & S1 & W1) (D2 & R2 & P2 & S2 & W2). split_and!; [congruence..| |auto|auto].
  destruct P2 as [P2|P2]; [|by right]. rewrite P2. done.
Qed.

Lemma wframe_refl s : wframe s s.
Proof. by split. Qed.

Lemma wframe_trans s1 s2 s3 : wframe s1 s2 -> wframe s2 s3 -> wframe s1 s3.
Proof.
  intros [M1 N1 D1 W1 F1 K1] [M2 N2 D2 W2 F2 K2]. split; try congruence.
  - auto.
  - auto.
  - intros w. by rewrite W2.
  - intros w t Ht. rewrite (F2 w t Ht). apply (F1 w t). eapply elem_of_sublist; [exact Ht|apply W2].
  - auto.
Qed.

Lemma granted_seg c w u r s s' : seg c s s' -> u <> c -> granted w u r s -> granted w u r s'.
Proof.
  intros Hs Hu. destruct w as [t|a]; cbn.
  - intros [Hr Hd]. split; [done|]. by apply (sg_dead _ _ _ Hs).
  - destruct (objs s !! a) as [o|] eqn:E; [|done]. destruct (sg_kind _ _ _ Hs a o E) as (o' & E' & Hk).
    rewrite E'. destruct o as [|o| | | | |], o' as [|o'| | | | |]; cbn in Hk; try done.
    intros [Hr Ho]. destruct (sg_owner _ _ _ Hs a o u (conj E Ho) Hu) as (E2 & Ho2).
    rewrite E' in E2. by simplify_eq.
Qed.

Lemma history_seg c u s1 s2 s3 : seg c s2 s3 -> u <> c -> history u s1 s2 -> history u s1 s3.
Proof.
  intros Hs Hu H1 th1 E1. destruct (H1 th1 E1) as (th2 & E2 & H12).
  destruct (sg_history _ _ _ Hs u Hu th2 E2) as (th3 & E3 & A23 & H23). destruct H12 as [A12 H12].
  exists th3. split; [done|]. split; [auto|].
  assert (D23 : st 3 th2 = true -> st 3 th3 = true).
  { pose proof (sg_dead _ _ _ Hs u) as Hd. unfold dead in Hd. by rewrite E2, E3 in Hd. }
  destruct H12 as [[P12 R12]|(P2 & w & P1 & H12)].
  - destruct H23 as [[P23 R23]|(P3 & w & P2 & H23)]; [left; split; congruence|]. right. split; [done|].
    exists w. split; [congruence|]. rewrite <- R12. destruct H23 as [[R23 [Ha|Hd]]|Hg]; auto.
  - destruct H23 as [[P23 R23]|(_ & w' & P2' & _)]; [|congruence]. right. split; [congruence|].
    exists w. split; [done|]. rewrite R23. destruct H12 as [[R12 [Ha|Hd]]|Hg]; auto.
    right. by eapply granted_seg.
Qed.

Lemma history_refl u s : history u s s.
Proof. intros th E. exists th. eauto. Qed.

(** Others do not make a thread wait. *)
Lemma waits_for_history u a s s' : is_Some (threads s !! u) -> history u s s' -> waits_for u a s' -> waits_for u a s.
Proof.
  intros [th E] Hh (th' & E' & Hp). destruct (Hh th E) as (th2 & E2 & _ & [[Hp2 _]|(Hp2 & _)]); [|congruence].
  exists th. split; [done|congruence].
Qed.

Lemma history_dom u s s' : is_Some (threads s !! u) -> history u s s' -> is_Some (threads s' !! u).
Proof. intros [th E] Hh. destruct (Hh th E) as (th' & E' & _). eauto. Qed.

Lemma seg_refl c s : seg c s s.
Proof.
  split; [intros; apply history_refl|done| |done|auto]. intros a o E. exists o. split; [done|apply same_kind_refl].
Qed.

Lemma seg_trans c s1 s2 s3 : seg c s1 s2 -> seg c s2 s3 -> seg c s1 s3.
Proof.
  intros H1 H2. split.
  - intros u Hu. eapply history_seg; [done..|]. by apply (sg_history _ _ _ H1).
  - intros u Hu. by apply (sg_dead _ _ _ H2), (sg_dead _ _ _ H1).
  - intros a o E. destruct (sg_kind _ _ _ H1 a o E) as (o2 & E2 & K2).
    destruct (sg_kind _ _ _ H2 a o2 E2) as (o3 & E3 & K3). exists o3. split; [done|by eapply same_kind_trans].
  - intros a o u Ho Hu. apply (sg_owner _ _ _ H2); [|done]. by apply (sg_owner _ _ _ H1).
  - intros a o u Hx Ho Hu. pose proof (history_dom _ _ _ Hx (sg_history _ _ _ H1 u Hu)) as Hx2.
    destruct (sg_owned _ _ _ H2 a o u Hx2 Ho Hu) as [Ho2|Hw2]; [by apply (sg_owned _ _ _ H1)|].
    right. eapply waits_for_history; [done|by apply (sg_history _ _ _ H1)|done].
Qed.

Lemma kept_refl u s : kept u s s.
Proof.
  split; [apply history_refl|done| |done|auto]. intros a o E. exists o. split; [done|apply same_kind_refl].
Qed.

Lemma kept_seg c u s1 s2 s3 : seg c s2 s3 -> u <> c -> kept u s1 s2 -> kept u s1 s3.
Proof.
  intros Hs Hu [Hh Hd Hk Ho Hn]. split.
  - by eapply history_seg.
  - intros t Ht. by apply (sg_dead _ _ _ Hs), Hd.
  - intros a o E. destruct (Hk a o E) as (o2 & E2 & K2).
    destruct (sg_kind _ _ _ Hs a o2 E2) as (o3 & E3 & K3). exists o3. split; [done|by eapply same_kind_trans].
  - intros a o Hown. apply (sg_owner _ _ _ Hs); [|done]. by apply Ho.
  - intros a o Hx Hown. pose proof (history_dom _ _ _ Hx Hh) as Hx2.
    destruct (sg_owned _ _ _ Hs a o u Hx2 Hown Hu) as [Ho2|Hw2]; [by apply Hn|].
    right. by eapply waits_for_history.
Qed.

Lemma sframe_refl x s : sframe_but x s s.
Proof.
  split; try done.
  - intros u th E. exists th. split; [done|apply thread_frame_refl].
  - intros u th th' E E' _ Hp Hn. congruence.
Qed.

Lemma sframe_trans x s1 s2 s3 : sframe_but x s1 s2 -> sframe_but x s2 s3 -> sframe_but x s1 s3.
Proof.
  intros [O1 M1 N1 C1 W1 D1 T1 A1 U1] [O2 M2 N2 C2 W2 D2 T2 A2 U2]. split; try congruence.
  - intros w. by rewrite W2.
  - auto.
  - intros u th E. destruct (T1 u th E) as (th2 & E2 & F2). destruct (T2 u th2 E2) as (th3 & E3 & F3).
    exists th3. split; [done|by eapply thread_frame_trans].
  - auto.
  - intros u th1 th3 E1 E3 Hx Hp Hn. destruct (T1 u th1 E1) as (th2 & E2 & _ & _ & [P2|P2] & _).
    + destruct (U2 u th2 th3 E2 E3 Hx); [congruence|done|auto..].
    + destruct (U1 u th1 th2 E1 E2 Hx Hp P2) as [|Hd]; [auto|right].
      destruct (T2 u th2 E2) as (th3' & E3' & _ & _ & _ & Hd' & _). simplify_eq. auto.
Qed.

Lemma sframe_weaken x s s' : sframe s s' -> sframe_but x s s'.
Proof. intros []. split; try done. intros u th th' E E' _. by apply sf_unpend0. Qed.

Lemma sframe_dom x s s' u : sframe_but x s s' -> is_Some (threads s' !! u) <-> is_Some (threads s !! u).
Proof.
  intros Hf. split; intros [th E].
  - destruct (threads s !! u) as [|] eqn:E'; [eauto|]. by rewrite (sf_dom _ _ _ Hf u E') in E.
  - destruct (sf_threads _ _ _ Hf u th E) as (th' & E' & _). eauto.
Qed.

Lemma sframe_dead x s s' u : sframe_but x s s' -> dead s u = true -> dead s' u = true.
Proof.
  intros Hf. unfold dead. destruct (threads s !! u) as [th|] eqn:E; [|done].
  destruct (sf_threads _ _ _ Hf u th E) as (th' & -> & _ & _ & _ & Hd & _). exact Hd.
Qed.

Lemma sframe_wframe x s s' : sframe_but x s s' -> wframe s s'.
Proof.
  intros Hf. split; [by rewrite (sf_mem _ _ _ Hf)|apply Hf|intros t; by eapply sframe_dom|apply Hf| |].
  - intros w t _. destruct (threads s !! t) as [th|] eqn:E; [|by rewrite (sf_dom _ _ _ Hf t E)].
    destruct (sf_threads _ _ _ Hf t th E) as (th' & -> & Hd & _). cbn. by rewrite Hd.
  - intros Hw t th' E'. destruct (threads s !! t) as [th|] eqn:E; [|by rewrite (sf_dom _ _ _ Hf t E) in E'].
    destruct (sf_threads _ _ _ Hf t th E) as (th2 & E2 & _ & _ & _ & _ & Hf'). simplify_eq.
    apply Hf'. by apply (Hw t).
Qed.

Lemma sframe_seg c s s' : sframe s s' -> seg c s s'.
Proof.
  intros Hf. split.
  - intros u _ th E. destruct (sf_threads _ _ _ Hf u th E) as (th' & E' & _ & Hr & Hp & _).
    exists th'. split; [done|]. split; [apply Hf|]. destruct Hp as [Hp|Hp]; [by left|].
    destruct (pended_on th) as [w|] eqn:Ew; [right|left; split; congruence].
    split; [done|]. exists w. split; [done|]. left. split; [done|].
    eapply (sf_unpend _ _ _ Hf); [done..|congruence|done].
  - intros u. by eapply sframe_dead.
  - intros a o E. exists o. rewrite (sf_objs _ _ _ Hf). split; [done|apply same_kind_refl].
  - intros a o u Ho _. unfold owns. by rewrite (sf_objs _ _ _ Hf).
  - intros a o u _ Ho _. left. unfold owns in *. by rewrite (sf_objs _ _ _ Hf) in Ho.
Qed.

Lemma sframe_cache x s s' : cache_frame s s' -> sframe_but x s s'.
Proof.
  intros Hf. pose proof Hf as []. split; try done.
  - intros w. unfold waitq. by rewrite cf_waitqs.
  - intros u E. by rewrite cf_threads.
  - intros u th E. exists th. rewrite cf_threads. split; [done|apply thread_frame_refl].
  - intros u. by rewrite (cf_active _ _ _ Hf).
  - intros u th th' E E' _ Hp Hn. rewrite cf_threads in E'. congruence.
Qed.

(** One thread changes. *)
Lemma sframe_put x s s' t th th' :
  threads s !! t = Some th -> threads s' = <[t := th']> (threads s) ->
  objs s' = objs s -> mem s' = mem s -> nested s' = nested s -> current s' = current s ->
  tq s' = tq s -> (forall w, waitq s' w `sublist_of` waitq s w) -> thread_frame th th' ->
  (x = Some t \/ pended_on th' = pended_on th) -> sframe_but x s s'.
Proof.
  intros E Et Eo Em En Ec Eq Hw Hth Hx. split; try done; rewrite ?Et.
  - intros u Hu. rewrite lookup_insert_ne; [done|congruence].
  - intros u th2 E2. destruct (decide (u = t)) as [->|Hne].
    + rewrite lookup_insert_eq. eexists. split; [done|]. by simplify_eq.
    + rewrite lookup_insert_ne by done. exists th2. split; [done|apply thread_frame_refl].
  - intros u. unfold active. by rewrite Eq.
  - intros u th1 th2 E1 E2 Hxu Hp Hn. destruct (decide (u = t)) as [->|Hne].
    + rewrite lookup_insert_eq in E2. destruct Hx; [done|]. congruence.
    + rewrite lookup_insert_ne in E2 by done. congruence.
Qed.

(** What a stretch of [c] may do to the object [a]: the kind stays, another thread's
    mutex stays as it is, and a new owner waits for the mutex. *)
Definition obj_step (c : tid) (s : kstate) (a : positive) (o o' : kobj) : Prop :=
  same_kind o o' = true /\
  match o, o' with
  | O_mutex o, O_mutex o' =>
      (forall u, owner o = Some u -> u <> c -> o' = o) /\
      (forall u, owner o' = Some u -> u <> c -> o' = o \/ waits_for u a s)
  | _, _ => True
  end.

Lemma seg_put_obj c s a o o' :
  objs s !! a = Some o -> obj_step c s a o o' -> seg c s (set_objs (<[a := o']> (objs s)) s).
Proof.
  intros E [Hk Hm]. split; cbn.
  - intros u _. intros th Eu. exists th. eauto 10.
  - done.
  - intros a' o2 E2. destruct (decide (a' = a)) as [->|Hne].
    + rewrite lookup_insert_eq. eexists. split; [done|]. by simplify_eq.
    + rewrite lookup_insert_ne by done. exists o2. split; [done|apply same_kind_refl].
  - intros a' o2 u [E2 Ho] Hu. unfold owns. cbn. destruct (decide (a' = a)) as [->|Hne].
    + rewrite lookup_insert_eq. assert (o = O_mutex o2) as -> by congruence.
      destruct o' as [|o'| | | | |]; try done. by rewrite (proj1 Hm u Ho Hu).
    + by rewrite lookup_insert_ne.
  - intros a' o2 u _ [E2 Ho] Hu. cbn in E2. destruct (decide (a' = a)) as [->|Hne].
    + rewrite lookup_insert_eq in E2. injection E2 as ->. destruct o as [|o| | | | |]; try done.
      destruct (proj2 Hm u Ho Hu) as [->|Hw]; [by left|by right].
    + rewrite lookup_insert_ne in E2 by done. by left.
Qed.

(** Waking [t]: off its queue, with a justified return value. *)
Lemma seg_wake c s s1 s2 t th th2 w :
  sframe_but (Some t) s s1 -> t <> c -> threads s !! t = Some th -> pended_on th = Some w ->
  threads s2 = <[t := th2]> (threads s1) -> objs s2 = objs s1 -> tq s2 = tq s1 ->
  pended_on th2 = None -> (dead s1 t = true -> st 3 th2 = true) ->
  granted w t (swap_retval th2) s2 -> seg c s s2.
Proof.
  intros Hs Hc E Ep Et Eo Eq Hp Hd Hg.
  assert (Ha : forall u, active u s2 = true -> active u s = true).
  { intros u Hu. apply (sf_active _ _ _ Hs). unfold active in *. by rewrite <- Eq. }
  split.
  - intros u Hu thu Eu. rewrite Et. destruct (decide (u = t)) as [->|Hne].
    + exists th2. rewrite lookup_insert_eq. split; [done|]. split; [auto|]. right. simplify_eq. eauto.
    + destruct (sf_threads _ _ _ Hs u thu Eu) as (th1 & E1 & _ & Hr & Hpo & _). exists th1.
      rewrite lookup_insert_ne by done. split; [done|]. split; [auto|]. destruct Hpo as [Hpo|Hpo]; [by left|].
      destruct (pended_on thu) as [w'|] eqn:Ew; [right|left; split; congruence].
      split; [done|]. exists w'. split; [done|]. left. split; [done|].
      eapply (sf_unpend _ _ _ Hs u); [done|done|congruence..].
  - intros u Hu. apply (sframe_dead _ _ _ _ Hs) in Hu. unfold dead. rewrite Et.
    destruct (decide (u = t)) as [->|Hne]; [rewrite lookup_insert_eq; cbn; auto|].
    by rewrite lookup_insert_ne.
  - intros a o Ea. exists o. rewrite Eo, (sf_objs _ _ _ Hs). split; [done|apply same_kind_refl].
  - intros a o u Ho _. unfold owns. by rewrite Eo, (sf_objs _ _ _ Hs).
  - intros a o u _ Ho _. left. unfold owns in *. by rewrite Eo, (sf_objs _ _ _ Hs) in Ho.
Qed.

(** A change of [t] its object cannot see, as [t] does not wait. *)
Lemma wframe_put s s' t th th' :
  threads s !! t = Some th -> threads s' = <[t := th']> (threads s) ->
  mem s' = mem s -> nested s' = nested s ->
  (forall w, waitq s' w `sublist_of` waitq s w) -> (forall w, t ∉ waitq s' w) ->
  (wake_fine th = true -> wake_fine th' = true) -> wframe s s'.
Proof.
  intros E Et Em En Hw Hnot Hk. split; rewrite ?Et, ?Em; try done.
  - intros u. destruct (decide (u = t)) as [->|]; [rewrite lookup_insert_eq, E; eauto|].
    by rewrite lookup_insert_ne.
  - intros w u Hu. rewrite lookup_insert_ne; [done|]. intros <-. by apply (Hnot w).
  - intros Hok u thu. unfold wake_ok in Hok. rewrite Et. destruct (decide (u = t)) as [->|].
    + rewrite lookup_insert_eq. intros [= <-]. apply Hk. by apply (Hok t).
    + rewrite lookup_insert_ne by done. apply Hok.
Qed.

Section Ops.
Context `{KConfig}.
Hypothesis no_metairq : CONFIG_NUM_METAIRQ_PRIORITIES = 0.
Implicit Types (b s : kstate) (t u : tid) (th : k_thread) (x : option tid) (w : wqid).

(** ** Fields the invariant does not read *)

Lemma RInv_irq x i s : RInv x s -> RInv x (set_irq_locked i s).
Proof. by apply RInv_ext. Qed.
Lemma SInv_irq i s : SInv s -> SInv (set_irq_locked i s).
Proof. intros (Hi & Hc & Hu). split_and!; [by apply RInv_irq|done|done]. Qed.
Lemma SInv_objs v s : SInv s -> SInv (set_objs v s).
Proof. intros (Hi & Hc & Hu). split_and!; [by eapply RInv_ext; [..|exact Hi]|done|done]. Qed.
Lemma SInv_mem v s : SInv s -> SInv (set_mem v s).
Proof. intros (Hi & Hc & Hu). split_and!; [by eapply RInv_ext; [..|exact Hi]|done|done]. Qed.
Lemma irq_restore s : set_irq_locked (irq_locked s) (set_irq_locked true s) = s.
Proof. by destruct s. Qed.
Lemma sframe_irq i i' s s' : sframe (set_irq_locked i s) s' -> sframe s (set_irq_locked i' s').
Proof. intros []. by split. Qed.
Lemma sframe_irq_r i s s' : sframe s s' -> sframe s (set_irq_locked i s').
Proof. intros []. by split. Qed.

(** A thread between leaving a queue and being readied. *)
Definition floating (t : tid) (s : kstate) : Prop :=
  RInv (Some t) s /\ cache_ok s /\ current_ok_but t s /\ t <> z_idle_thread.

Lemma floating_irq i t s : floating t s -> floating t (set_irq_locked i s).
Proof. intros (Hi & Hc & Hu & Hid). split_and!; [by apply RInv_irq|done..]. Qed.
Lemma floating_objs v t s : floating t s -> floating t (set_objs v s).
Proof. intros (Hi & Hc & Hu & Hid). split_and!; [by eapply RInv_ext; [..|exact Hi]|done..]. Qed.
Lemma floating_mem v t s : floating t s -> floating t (set_mem v s).
Proof. intros (Hi & Hc & Hu & Hid). split_and!; [by eapply RInv_ext; [..|exact Hi]|done..]. Qed.

Lemma preemptible_eq th th' :
  prio th' = prio th -> sched_locked th' = sched_locked th ->
  thread_is_preemptible th' = thread_is_preemptible th.
Proof. intros Ep El. unfold thread_is_preemptible, preempt. by rewrite Ep, El. Qed.

(** The fields the scheduler reads of a thread. *)
Definition same_sched (th th' : k_thread) : Prop :=
  thread_state th' = thread_state th /\ pended_on th' = pended_on th /\ prio th' = prio th /\
  sched_locked th' = sched_locked th.

Lemma floating_put t s th th' :
  floating t s -> threads s !! t = Some th -> same_sched th th' -> floating t (put_thread t th' s).
Proof.
  intros (Hi & Hc & Hu & Hid) E (Est & Epo & Epr & El).
  pose proof (ri_thread _ _ _ _ Hi E) as Hok. split_and!; [| |by apply current_ok_but_put|done].
  - apply (RInv_data (Some t) s t th th'); try done.
    + by left.
    + rewrite Epr. apply (tok_prio _ _ _ _ Hok).
    + rewrite El. apply (tok_locked _ _ _ _ Hok).
  - eapply cache_ok_put; [done|by apply preemptible_eq|done].
Qed.

Lemma SInv_put t s th th' :
  SInv s -> threads s !! t = Some th -> same_sched th th' -> SInv (put_thread t th' s).
Proof.
  intros (Hi & Hc & Hu) E (Est & Epo & Epr & El). pose proof (ri_thread _ _ _ _ Hi E) as Hok.
  assert (Hp : thread_is_preemptible th' = thread_is_preemptible th) by (by apply preemptible_eq).
  split_and!.
  - apply (RInv_data None s t th th'); try done.
    + by left.
    + rewrite Epr. apply (tok_prio _ _ _ _ Hok).
    + rewrite El. apply (tok_locked _ _ _ _ Hok).
    + intros ->. rewrite Hp. destruct (ri_idle _ _ Hi) as (ith & Ei & _ & Hpi). congruence.
  - by eapply cache_ok_put.
  - eapply current_ok_put; [done| |done]. unfold blocked, st. by rewrite Est.
Qed.

(** ** Unpending *)

Lemma unpend_st_waitq t th w s w' :
  waitq (unpend_st t th w s) w' = if decide (w' = w) then remove_elem t (waitq s w) else waitq s w'.
Proof. apply waitq_insert. Qed.

Lemma remove_elem_sublist {A} `{EqDecision A} (a : A) l : remove_elem a l `sublist_of` l.
Proof. apply sublist_filter. Qed.

Lemma unpended_frame th : thread_frame th (unpended th).
Proof.
  split_and!; try done; [by right| |].
  - change (st 3 th = true -> st 3 (clear_state_bits _THREAD_PENDING th) = true). by bits_simpl.
  - unfold wake_fine. rewrite !andb_true_iff. intros [[H1 H2] _]. split_and!; [done| |].
    + change (negb (st 5 (clear_state_bits _THREAD_PENDING th)) = true). by bits_simpl.
    + cbn. by rewrite andb_false_r.
Qed.

Lemma unpend_st_frame s t th w :
  threads s !! t = Some th -> sframe_but (Some t) s (unpend_st t th w s).
Proof.
  intros E. eapply sframe_put; try done; [|apply unpended_frame|by left].
  intros w'. rewrite unpend_st_waitq. case_decide; [subst; apply remove_elem_sublist|done].
Qed.

Lemma abort_st_frame x y t s : RInv y s -> sframe_but x s (abort_st t s).
Proof.
  intros Hi. split; try done.
  - intros u th E. exists th. split; [done|apply thread_frame_refl].
  - intros u. rewrite (abort_st_active _ _ _ _ Hi). by case_decide.
  - intros u th th' E E' _ Hp Hn. cbn in E'. congruence.
Qed.

(** The state after [z_unpend_first_thread] took [t] off the queue [w]. *)
Definition unpended_st (t : tid) (th : k_thread) (w : wqid) (s : kstate) : kstate :=
  abort_st t (unpend_st t th w s).

Lemma unpended_core x s t th w :
  RInv x s -> (x = None \/ x = Some t) -> current_ok_but t s ->
  threads s !! t = Some th -> pended_on th = Some w ->
  (t <> z_idle_thread /\ RInv (Some t) (unpended_st t th w s) /\
   (cache_ok s -> cache_ok (unpended_st t th w s)) /\ current_ok_but t (unpended_st t th w s)) /\ sframe_but (Some t) s (unpended_st t th w s) /\
  active t (unpended_st t th w s) = false /\
  threads (unpended_st t th w s) !! t = Some (unpended th) /\
  (forall w', t ∉ waitq (unpended_st t th w s) w').
Proof.
  intros Hi Hx Hu E Ep.
  destruct (unpend_thread_spec x s t th w) as (Hid & Hr & Hi1 & _); [done..|].
  assert (E1 : threads (unpend_st t th w s) !! t = Some (unpended th)) by apply lookup_insert_eq.
  destruct (abort_timeout_spec (Some t) (unpend_st t th w s) t (unpended th)) as (Hi2 & _);
    [done|by right|done|].
  assert (Hac : forall u, active u (unpended_st t th w s) = if decide (u = t) then false else active u s).
  { intros u. by apply (abort_st_active (Some t) (unpend_st t th w s)). }
  split_and!; try done.
  - intros Hc. change (cache_ok (put_thread t (unpended th) s)). by eapply cache_ok_put.
  - destruct Hu as [Ha Hcu]. split; [|intros Hne; split].
    + rewrite Hac. by case_decide.
    + rewrite Hac. by case_decide.
    + cbn. destruct (Hcu Hne) as [_ Hcu']. cbn in Hne. by rewrite lookup_insert_ne.
  - eapply sframe_trans; [by apply unpend_st_frame|by eapply abort_st_frame].
  - rewrite Hac. by rewrite decide_True.
  - intros w' Hin. eapply (waitq_unpended (Some t)); [exact Hi2|exact E1|done|exact Hin].
Qed.

Lemma unpended_spec x s t th w :
  RInv x s -> (x = None \/ x = Some t) -> cache_ok s -> current_ok_but t s ->
  threads s !! t = Some th -> pended_on th = Some w ->
  floating t (unpended_st t th w s) /\ sframe_but (Some t) s (unpended_st t th w s) /\
  active t (unpended_st t th w s) = false /\
  threads (unpended_st t th w s) !! t = Some (unpended th) /\
  (forall w', t ∉ waitq (unpended_st t th w s) w').
Proof.
  intros Hi Hx Hc Hu E Ep. destruct (unpended_core x s t th w) as ((Hid & Hi' & Hc' & Hu') & ?); [done..|].
  split; [|done]. split_and!; auto.
Qed.

Lemma unpend_first_spec s w Q :
  SInv s ->
  (waitq s w = [] -> Q None s) ->
  (forall t q th, waitq s w = t :: q -> threads s !! t = Some th -> pended_on th = Some w ->
     Q (Some t) (unpended_st t th w s)) ->
  kwp (z_unpend_first_thread w) s Q.
Proof.
  intros Hs Hn Hy. unfold z_unpend_first_thread. apply kwp_spinlock. unfold priq_wait_best. ksteps.
  change (waitq (set_irq_locked true s) w) with (waitq s w).
  destruct (waitq s w) as [|t q] eqn:Ew; cbn [z_priq_dumb_best head].
  { ksteps. rewrite irq_restore. auto. }
  assert (Hs1 : SInv (set_irq_locked true s)) by (by apply SInv_irq).
  destruct (ri_waitq_thread None s w t) as (th & E & Ep & _); [apply Hs|rewrite Ew; left|].
  destruct (unpend_thread_spec None (set_irq_locked true s) t th w) as (_ & _ & Hi1 & Hk);
    [apply Hs1|by left|done..|].
  ksteps. apply Hk. kstep.
  destruct (abort_timeout_spec (Some t) (unpend_st t th w (set_irq_locked true s)) t (unpended th))
    as (_ & _ & Hk2); [done|by right|apply lookup_insert_eq|].
  apply Hk2. ksteps.
  match goal with |- Q _ ?s' => replace s' with (unpended_st t th w s) by (by destruct s) end.
  by eapply Hy.
Qed.

(** ** Readying *)

Lemma queued_frame th : thread_frame th (set_state_bits _THREAD_QUEUED th).
Proof.
  split_and!; try done; [by left|by bits_simpl|]. unfold wake_fine. by bits_simpl.
Qed.

Lemma readied_frame x t th s s' : threads s !! t = Some th -> readied t th s s' -> sframe_but x s s'.
Proof.
  unfold readied. intros E. destruct (_ || _ || _); [intros ->; apply sframe_refl|].
  intros Hf. eapply sframe_trans; [|by apply sframe_cache]. eapply sframe_put; try done; [apply queued_frame|by right].
Qed.

Lemma readied_irq_locked t th s s' : readied t th s s' -> irq_locked s' = irq_locked s.
Proof. unfold readied. destruct (_ || _ || _); [by intros ->|]. by intros []. Qed.

Lemma floating_ready_spec s t th :
  floating t s -> threads s !! t = Some th ->
  kwp (ready_thread t) s (fun _ s' => SInv s' /\ readied t th s s').
Proof. intros (Hi & Hc & Hu & Hid) E. by apply ready_thread_spec. Qed.

Lemma readied_irq i i' t th s s' :
  readied t th (set_irq_locked i s) s' -> i' = irq_locked s -> readied t th s (set_irq_locked i' s').
Proof.
  unfold readied. change (active t (set_irq_locked i s)) with (active t s).
  destruct (st 7 th || blocked th || active t s).
  - intros -> ->. by destruct s.
  - intros [] ->. by split.
Qed.

Lemma z_ready_thread_spec s t th :
  floating t s -> threads s !! t = Some th ->
  kwp (z_ready_thread t) s (fun _ s' => SInv s' /\ readied t th s s').
Proof.
  intros Hf E. unfold z_ready_thread, thread_active_elsewhere. apply kwp_spinlock.
  eapply kwp_mono; [apply (floating_ready_spec (set_irq_locked true s) t th); [by apply floating_irq|done]|].
  cbv beta. intros _ s' [Hs Hr]. split; [by apply SInv_irq|]. by eapply readied_irq.
Qed.

(** ** Pending the current thread *)

(** Between [s] and [s'], [t] started to wait on [w]; nothing else happened. *)
Record pframe (t : tid) (w : wqid) (s s' : kstate) : Prop := {
  pf_objs : objs s' = objs s;
  pf_mem : mem s' = mem s;
  pf_nested : nested s' = nested s;
  pf_current : current s' = current s;
  pf_dom : is_Some (threads s !! t);
  pf_other : forall u, u <> t -> threads s' !! u = threads s !! u;
  pf_self : forall th, threads s !! t = Some th -> exists th', threads s' !! t = Some th' /\
    waiter_data th' = waiter_data th /\ prio th' = prio th /\ pended_on th' = Some w /\
    (st 3 th = true -> st 3 th' = true) /\ wake_fine th' = wake_fine th;
  pf_active : forall u, u <> t -> active u s' = active u s;
  pf_waitq : forall w', waitq s' w' =
    if decide (w' = w) then z_priq_dumb_add (prio_of s) t (waitq s w) else waitq s w'
}.

(** The queues agree, and the choice of the next thread is up to date. *)
Definition QInv (s : kstate) : Prop := RInv None s /\ cache_ok s.

Lemma dequeued_bits th n : (n =? 7) = false -> st n (clear_state_bits _THREAD_QUEUED th) = st n th.
Proof. intros Hn. unfold _THREAD_QUEUED. rewrite st_clear by lia. rewrite Hn. by rewrite andb_true_r. Qed.

Lemma unready_current_spec s th :
  RInv None s -> threads s !! current s = Some th ->
  kwp (unready_thread (current s)) s (fun _ s' =>
    RInv (Some (current s)) s' /\ cache_ok s' /\ (current s ∉ runq s') /\ sframe s s' /\
    irq_locked s' = irq_locked s /\ waitqs s' = waitqs s /\ thread_deadlines (tq s') = thread_deadlines (tq s) /\
    same_clock (tq s) (tq s') /\ (forall u, u <> current s -> threads s' !! u = threads s !! u) /\
    exists th', threads s' !! current s = Some th' /\ prio th' = prio th /\ pended_on th' = pended_on th /\
      waiter_data th' = waiter_data th /\ (st 3 th' = st 3 th) /\ wake_fine th' = wake_fine th).
Proof.
  intros Hi E. eapply kwp_mono; [by eapply unready_thread_spec|]. cbv beta.
  intros _ s' (Hi' & Hc' & Hr' & Hf). split_and!; try done; destruct (st 7 th).
  - eapply sframe_trans; [|by apply sframe_cache]. eapply sframe_put; try done; [|by right].
    split_and!; try done; [by left|by rewrite dequeued_bits|]. unfold wake_fine. by rewrite !dequeued_bits.
  - by apply sframe_cache.
  - apply Hf.
  - apply Hf.
  - apply Hf.
  - apply Hf.
  - apply Hf.
  - apply Hf.
  - apply Hf.
  - apply Hf.
  - intros u Hu. rewrite (cf_threads _ _ Hf). cbn. by rewrite lookup_insert_ne.
  - intros u Hu. by rewrite (cf_threads _ _ Hf).
  - exists (clear_state_bits _THREAD_QUEUED th). rewrite (cf_threads _ _ Hf).
    cbn [threads dequeue_st set_runq set_threads]. rewrite lookup_insert_eq. split_and!; try done; [by rewrite dequeued_bits|]. unfold wake_fine. by rewrite !dequeued_bits.
  - exists th. rewrite (cf_threads _ _ Hf). done.
Qed.

Lemma pend_st_frame t w s s' th :
  threads s !! t = Some th -> pended_on th = None -> st 3 th = false ->
  s' = pend_st t th w s -> pframe t w s s'.
Proof.
  intros E Ep Hd ->. split; try done.
  - intros u Hu. cbn. by rewrite lookup_insert_ne.
  - intros th0 E0. assert (th0 = th) as -> by congruence. exists (pended w th). cbn [threads pend_st set_waitqs set_threads]. rewrite lookup_insert_eq.
    split_and!; try done.
    + change (st 3 th = true -> st 3 (set_state_bits _THREAD_PENDING th) = true). by bits_simpl.
    + unfold wake_fine. rewrite Ep, Hd. change (st 3 (pended w th)) with (st 3 (set_state_bits _THREAD_PENDING th)).
      change (st 5 (pended w th)) with (st 5 (set_state_bits _THREAD_PENDING th)). bits_simpl. rewrite Hd. by rewrite andb_true_r.
  - intros w'. exact (waitq_insert s w _ w').
Qed.

Lemma pframe_sframe t w s1 s2 s3 :
  sframe s1 s2 -> (forall u, active u s2 = active u s1) -> waitqs s2 = waitqs s1 ->
  (forall u, u <> t -> threads s2 !! u = threads s1 !! u) ->
  (forall th, threads s1 !! t = Some th -> exists th', threads s2 !! t = Some th' /\
     prio th' = prio th /\ waiter_data th' = waiter_data th /\ (st 3 th = true -> st 3 th' = true) /\
     wake_fine th' = wake_fine th) ->
  pframe t w s2 s3 -> pframe t w s1 s3.
Proof.
  intros Hf Ea Ew Hother Hself [O M N C D T S A W]. pose proof (proj1 (sframe_dom _ _ _ t Hf) D) as D0.
  destruct Hf as [O1 M1 N1 C1 _ D1 _ _ _].
  assert (Ewq : forall w', waitq s2 w' = waitq s1 w') by (intros w'; unfold waitq; by rewrite Ew).
  assert (Hp : forall u, prio_of s2 u = prio_of s1 u).
  { intros u. unfold prio_of. destruct (decide (u = t)) as [->|Hne]; [|by rewrite Hother].
    destruct (threads s1 !! t) as [th|] eqn:E; [|by rewrite (D1 t E)].
    destruct (Hself th eq_refl) as (th' & -> & Hp & _). exact Hp. }
  split; try congruence.
  - intros u Hu. rewrite T by done. auto.
  - intros th E. destruct (Hself th E) as (th2 & E2 & P2 & D2 & S2 & K2).
    destruct (S th2 E2) as (th3 & E3 & D3 & P3 & W3 & S3 & K3). exists th3.
    split_and!; [done|congruence..|auto|congruence].
  - intros u Hu. rewrite A by done. apply Ea.
  - intros w'. rewrite W, !Ewq. case_decide; [|done]. apply dumb_add_ext. intros u _. apply Hp.
Qed.

Lemma cache_ok_ext s s' :
  cache s' = cache s -> current s' = current s -> runq s' = runq s ->
  (forall th, threads s !! current s = Some th -> exists th', threads s' !! current s = Some th' /\
     prio th' = prio th /\ sched_locked th' = sched_locked th) ->
  cache_ok s -> cache_ok s'.
Proof.
  intros Ec Ecu Er Hth [Hc|(Hc & Hin & Hp)]; [left|right]; rewrite Ec, ?Ecu, ?Er; [done|].
  split_and!; [done..|]. destruct (threads s !! current s) as [th|] eqn:E; [|done].
  destruct (Hth th eq_refl) as (th' & -> & P & L). cbn in *. by rewrite (preemptible_eq _ _ P L).
Qed.

Lemma active_insert_other u t f d s q :
  u <> t -> deadlines q = insert_deadline (TN_thread t, f, d) (deadlines (tq s)) ->
  active u (set_tq q s) = active u s.
Proof.
  intros Hu Hd. unfold active, is_linked. cbn [tq set_tq]. apply bool_decide_ext.
  rewrite <- !(nodes_deadlines 0). fold (deadlines q) (deadlines (tq s)). rewrite Hd, !list_elem_of_fmap.
  split; intros (x & Ex & Hx); exists x; (split; [done|]); rewrite elem_of_insert_deadline in *; [|by right].
  destruct Hx as [->|]; [|done]. cbn in Ex. congruence.
Qed.

Lemma pend_locked_spec s th w timeout :
  RInv None s -> threads s !! current s = Some th -> pended_on th = None -> st 3 th = false ->
  active (current s) s = false -> current s <> z_idle_thread -> current s <> thread_dummy -> api_timeout timeout ->
  kwp (pend_locked (current s) (Some w) timeout) s (fun _ s' =>
    QInv s' /\ pframe (current s) w s s' /\ (current s ∉ runq s') /\
    (active (current s) s' = true -> timeout <> K_FOREVER)).
Proof.
  intros Hi E Ep Hde Ha Hid Hdu Ht. unfold pend_locked, add_to_waitq_locked. do 2 kstep.
  eapply kwp_mono; [by apply (unready_current_spec s th)|]. cbv beta.
  intros _ s1 (Hi1 & Hc1 & Hr1 & Hf1 & Ei1 & Ew1 & Ed1 & _ & Ho1 & th1 & E1 & P1 & Po1 & D1 & S1 & K1).
  assert (Hcu1 : current s1 = current s) by apply Hf1.
  destruct (pend_spec (Some (current s)) s1 (current s) th1 w) as [Hi2 Hk2];
    [done|by right|done|congruence|done..|].
  apply Hk2. set (s2 := pend_st (current s) th1 w s1) in *.
  assert (Hpf : pframe (current s) w s s2).
  { eapply pframe_sframe; [exact Hf1| |done..| |by eapply pend_st_frame; [exact E1|congruence..|]].
    { intros u. unfold active. by rewrite linked_deadlines, Ed1, <- linked_deadlines. }
    intros th0 E0. exists th1. assert (th0 = th) as -> by congruence. split_and!; try done. by rewrite S1. }
  assert (Ha2 : active (current s) s2 = false).
  { change (active (current s) s1 = false). unfold active in *.
    rewrite linked_deadlines, Ed1, <- linked_deadlines. exact Ha. }
  assert (Hc2 : cache_ok s2).
  { eapply cache_ok_ext; [..|exact Hc1]; try done. intros th0 E0. rewrite Hcu1 in *.
    assert (th0 = th1) as -> by congruence. exists (pended w th1). cbn [threads s2 pend_st set_waitqs set_threads]. by rewrite lookup_insert_eq. }
  eapply kwp_mono; [apply (add_thread_timeout_spec s2 (current s) (pended w th1)); try done|].
  { cbn. apply lookup_insert_eq. }
  cbv beta. intros _ s3 [Hi3 Hs3]. case_decide; [subst s3; split_and!; try done; congruence|].
  destruct Hs3 as (q & -> & _ & Hd3). split_and!; [split; [done|exact Hc2]| |done|done]. destruct Hpf. split; try done.
  intros u Hu. rewrite <- pf_active0 by done. by eapply active_insert_other.
Qed.
End Ops.
