(* ===== verification/Switch.v ===== *)
(** * Context switches, by rely and guarantee

    A thread that gives up the CPU hands over a state that satisfies the invariant
    of the scheduler and [J], the invariant of the kernel's objects ([Guar]); when it
    runs again it may rely on both, and on what can have happened to it in between
    ([Rely]).  [J] is arbitrary up to [ObjInv]: it must tolerate waiters leaving. *)

From S2P Require Import Prelude TimeUnits Timeout PriorityQ KState KLogic MemOps Sched SchedInv SchedOps.

Local Open Scope Z_scope.

(** What the objects' invariant promises to the scheduler. *)
Class ObjInv (J : kstate -> Prop) := {
  obj_wake : forall s, J s -> wake_ok s;
  obj_stable : forall s s', wframe s s' -> objs s' = objs s -> mem s' = mem s -> J s -> J s';
  obj_join : forall s s' t u, J s -> pframe t (WQ_join u) s s' -> J s'
}.

(** The fields of a thread other than the return value of its last switch. *)
Definition but_retval (th : k_thread) : k_thread := with_swap_retval 0 th.

(** What a switch away from [c] leaves alone. *)
Record same_view (c : tid) (s s' : kstate) : Prop := {
  sv_objs : objs s' = objs s;
  sv_mem : mem s' = mem s;
  sv_waitqs : waitqs s' = waitqs s;
  sv_runq : runq s' = runq s;
  sv_prio : forall u, prio_of s' u = prio_of s u;
  sv_threads : forall u, u <> c -> threads s' !! u = threads s !! u;
  sv_self : but_retval <$> threads s' !! c = but_retval <$> threads s !! c;
  sv_deadlines : thread_deadlines (tq s') = thread_deadlines (tq s)
}.

Lemma sv_active c s s' t : same_view c s s' -> active t s' = active t s.
Proof. intros Hv. unfold active. by rewrite !linked_deadlines, (sv_deadlines _ _ _ Hv). Qed.

(** What the other parts of the kernel know of the objects of one kind: [J] gives the
    property [ok] of every such object, and survives changes to one that keep [ok]. *)
Class Holds (J : kstate -> Prop) {O : Type} (inj : O -> kobj) (ok : kstate -> positive -> O -> Prop) := {
  holds_get : forall s a o, J s -> objs s !! a = Some (inj o) -> ok s a o;
  holds_put : forall s s' a o o', J s -> objs s !! a = Some (inj o) -> wframe s s' ->
    objs s' = <[a := inj o']> (objs s) -> mem s' = mem s -> ok s' a o' -> J s';
  holds_pend : forall s s' t a o, J s -> objs s !! a = Some (inj o) -> pframe t (WQ_obj a) s s' ->
    ok s' a o -> J s'
}.

(** Which memory the callers and objects may write: the objects' invariant survives
    such writes, which in turn do not take the permission away. *)
Class MemInv (J : kstate -> Prop) (writable : kstate -> Z -> Prop) := {
  mem_write_inv : forall s m, J s -> (forall p, is_Some (m !! p) <-> is_Some (mem s !! p)) ->
    (forall p, m !! p <> mem s !! p -> writable s p) -> J (set_mem m s);
  writable_stable : forall s s' p, J s ->
    (forall a o, objs s' !! a = Some (O_slab o) <-> objs s !! a = Some (O_slab o)) ->
    (forall p, mem s' !! p <> mem s !! p -> writable s p) -> writable s p -> writable s' p
}.

(** Parts of such descriptions: only the object [a] and its queue changed; [t] was
    woken with the return value [r]. *)
Definition only_object (a : positive) (s s' : kstate) : Prop :=
  (forall a', a' <> a -> objs s' !! a' = objs s !! a') /\
  (forall w, w <> WQ_obj a -> waitq s' w = waitq s w).

(** Only memory in [P] changes. *)
Definition only_memory (P : Z -> Prop) (s s' : kstate) : Prop := forall p, ~ P p -> mem s' !! p = mem s !! p.

Definition woken_with (t : tid) (r : Z) (s s' : kstate) : Prop :=
  t <> current s -> exists th', threads s' !! t = Some th' /\ pended_on th' = None /\ swap_retval th' = r.

Lemma pframe_only t a s s' : pframe t (WQ_obj a) s s' -> only_object a s s'.
Proof.
  intros Hp. split; [by intros; rewrite (pf_objs _ _ _ _ Hp)|].
  intros w Hne. by rewrite (pf_waitq _ _ _ _ Hp), decide_False.
Qed.

Lemma pframe_prio t w s s' u : is_Some (threads s !! t) -> pframe t w s s' -> prio_of s' u = prio_of s u.
Proof.
  intros [th E] Hp. unfold prio_of. destruct (decide (u = t)) as [->|]; [|by rewrite (pf_other _ _ _ _ Hp)].
  destruct (pf_self _ _ _ _ Hp th E) as (th' & -> & _ & Hpr & _). by rewrite E.
Qed.

(** The state of the object [a] as its specification sees it. *)
Class View {A} (view : kstate -> option A) (a : positive) := {
  view_ext : forall s s', objs s' !! a = objs s !! a -> waitq s' (WQ_obj a) = waitq s (WQ_obj a) ->
    mem s' = mem s -> view s' = view s
}.

(** A description [V s s'] of what the first stretch of a call does from [s] to
    [s'], in terms of that. *)
Class Effect (V : kstate -> kstate -> Prop) := {
  effect_view : forall s s1 s2, same_view (current s) s1 s2 -> V s s1 -> V s s2
}.

(** A call that maps the object [a] with [f] and wakes the threads [ts] with the
    return value [r]. *)
Definition obj_effect {A} (view : kstate -> option A) (a : positive) (f : kstate -> A -> A)
    (ts : kstate -> list tid) (r : Z) (s s' : kstate) : Prop :=
  view s' = f s <$> view s /\ only_object a s s' /\ Forall (fun t => woken_with t r s s') (ts s).

#[export] Instance obj_effect_ok {A} (view : kstate -> option A) a f ts r :
  View view a -> Effect (obj_effect view a f ts r).
Proof.
  intros Hview. constructor. intros s s1 s2 [Eo Em Ew Er _ Et _ _] (Hv & [Ho Hw] & Hwk).
  assert (Ewq : forall w, waitq s2 w = waitq s1 w) by (intros w; unfold waitq; by rewrite Ew).
  split; [|split].
  - rewrite <- Hv. apply view_ext; [by rewrite Eo|apply Ewq|done].
  - split; [intros a' Ha; rewrite Eo; auto|intros w Hn; rewrite Ewq; auto].
  - eapply Forall_impl; [exact Hwk|]. intros t Ht Hne. rewrite (Et t Hne). auto.
Qed.

#[export] Instance effect_and V1 V2 : Effect V1 -> Effect V2 -> Effect (fun s s' => V1 s s' /\ V2 s s').
Proof. intros H1 H2. constructor. intros s s1 s2 Hv [HV1 HV2]. split; by eapply effect_view. Qed.

#[export] Instance only_memory_ok (P : kstate -> Z -> Prop) : Effect (fun s => only_memory (P s) s).
Proof. constructor. intros s s1 s2 Hv Hm p Hp. rewrite (sv_mem _ _ _ Hv). auto. Qed.

(** The woken threads find the word [d]. *)
Definition given (d : Z) (ts : kstate -> list tid) (s s' : kstate) : Prop :=
  Forall (fun t => t <> current s -> swap_data <$> threads s' !! t = Some d) (ts s).

#[export] Instance given_ok d ts : Effect (given d ts).
Proof.
  constructor. intros s s1 s2 Hv Hg. eapply Forall_impl; [exact Hg|].
  intros t Ht Hne. rewrite (sv_threads _ _ _ Hv t Hne). auto.
Qed.

#[export] Instance effect_any : Effect (fun _ _ => True).
Proof. done. Qed.

Section Switch.
Context `{KConfig}.
Hypothesis no_metairq : CONFIG_NUM_METAIRQ_PRIORITIES = 0.
Context (J : kstate -> Prop) `{!ObjInv J} (V : kstate -> kstate -> Prop) `{!Effect V}.
Implicit Types (b : stretch) (s : kstate) (t u c : tid) (th : k_thread) (w : wqid).

(** The first stretch of the call has the effect [V]. *)
Definition effect (b : stretch) (s : kstate) : Prop := is_first b = true -> V (began b) s.

(** The thread that gives up the CPU leaves -EAGAIN as the return value of its switch,
    which stands unless another thread sets one. *)
Definition Guar (b : stretch) (s : kstate) : Prop :=
  SInv s /\ running s /\ J s /\ nested s = 0 /\ nested (began b) = 0 /\
  seg (current (began b)) (began b) s /\ swap_retval <$> threads s !! current (began b) = Some (- EAGAIN) /\
  effect b s.

Definition Rely (t : tid) (s s' : kstate) : Prop :=
  SInv s' /\ running s' /\ J s' /\ nested s' = 0 /\ current s' = t /\ kept t s s'.

(** Knowing [X] besides of what happens between two states. *)
Definition Rely_if (X : kstate -> kstate -> Prop) (t : tid) (s s' : kstate) : Prop := Rely t s s' /\ X s s'.

(** Objects stay what they are, and the mutexes of [t] stay as they are, while others
    run; [t], waiting on [w], only becomes the owner of what it waits for. *)
Definition objs_kept (t : tid) (w : wqid) (s s' : kstate) : Prop :=
  (forall a o, objs s !! a = Some o -> exists o', objs s' !! a = Some o' /\ same_kind o o' = true) /\
  (forall a o, owns t a o s -> owns t a o s') /\
  (forall a o, owns t a o s' -> owns t a o s \/ w = WQ_obj a).

(** Fields that are not part of what others see. *)
Lemma wframe_ext s s' :
  threads s' = threads s -> waitqs s' = waitqs s -> mem s' = mem s -> nested s' = nested s -> wframe s s'.
Proof.
  intros Et Ew Em En. split; rewrite ?Et, ?Em; try done.
  - intros w. unfold waitq. by rewrite Ew.
  - unfold wake_ok. by rewrite Et.
Qed.

Lemma seg_ext c s s' :
  threads s' = threads s -> objs s' = objs s -> (forall u, active u s' = true -> active u s = true) -> seg c s s'.
Proof.
  intros Et Eo Ea. split; unfold owns; rewrite ?Eo; unfold dead; rewrite ?Et; eauto.
  - intros u _ th E. exists th. rewrite Et. eauto 10.
  - intros a o E. exists o. split; [done|apply same_kind_refl].
Qed.

(** The running thread changes its own fields. *)
Lemma wframe_self s t th th' :
  threads s !! t = Some th -> waiter_data th' = waiter_data th -> wake_fine th' = wake_fine th ->
  wframe s (put_thread t th' s).
Proof.
  intros E Hd Hk. split; cbn; try done.
  - intros u. destruct (decide (u = t)) as [->|]; [rewrite lookup_insert_eq, E; eauto|].
    by rewrite lookup_insert_ne.
  - intros w u _. destruct (decide (u = t)) as [->|]; [|by rewrite lookup_insert_ne].
    rewrite lookup_insert_eq, E. cbn. by rewrite Hd.
  - intros Hok u thu. cbn. destruct (decide (u = t)) as [->|].
    + rewrite lookup_insert_eq. intros [= <-]. rewrite Hk. by apply (Hok t).
    + rewrite lookup_insert_ne by done. apply Hok.
Qed.

Lemma seg_self c s th th' :
  threads s !! c = Some th -> (st 3 th = true -> st 3 th' = true) -> seg c s (put_thread c th' s).
Proof.
  intros E Hd. split; cbn.
  - intros u Hu thu Eu. exists thu. cbn. rewrite lookup_insert_ne by done. eauto 10.
  - intros u. unfold dead. cbn. destruct (decide (u = c)) as [->|]; [|by rewrite lookup_insert_ne].
    by rewrite lookup_insert_eq, E.
  - intros a o Eo. exists o. split; [done|apply same_kind_refl].
  - done.
  - intros a o u _ Ho _. by left.
Qed.

(** ** The switch *)

(** The next thread can run. *)
Lemma next_running s :
  QInv s -> cache s <> current s ->
  SInv (set_current (cache s) s) /\ running (set_current (cache s) s).
Proof.
  intros [Hi Hc] Hne. destruct Hc as [Hc|(Hc & _)]; [|done].
  assert (Hth : exists th, threads s !! cache s = Some th /\ blocked th = false /\ active (cache s) s = false
    /\ (cache s = z_idle_thread \/ cache s ∈ runq s)).
  { rewrite Hc. destruct (runq s) as [|t q] eqn:E; cbn.
    - destruct (ri_idle _ _ Hi) as (th & E1 & Hst & _). exists th. split_and!; [done| |apply Hi|by left].
      unfold blocked, st. by rewrite Hst.
    - destruct (ri_runq_thread None s t Hi) as (th & E1 & _ & Hb & Ha & _); [rewrite E; left|].
      exists th. split_and!; [done..|]. right. left. }
  destruct Hth as (th & E & Hb & Ha & Hin). split; [split; [|split]|].
  - apply RInv_current; eauto.
  - left. exact Hc.
  - split; [exact Ha|]. cbn. rewrite E. auto.
  - unfold running. cbn. rewrite E. cbn. by rewrite Hb.
Qed.

Lemma QInv_put_retval s t th r :
  QInv s -> threads s !! t = Some th -> QInv (put_thread t (with_swap_retval r th) s).
Proof.
  intros [Hi Hc] E. pose proof (ri_thread _ _ _ _ Hi E) as Hok. split.
  - apply (RInv_data None s t th); try done; [by left|apply (tok_prio _ _ _ _ Hok)|
      apply (tok_locked _ _ _ _ Hok)|]. intros ->. destruct (ri_idle _ _ Hi) as (ith & Ei & _ & Hp).
    simplify_eq. exact Hp.
  - by eapply cache_ok_put.
Qed.

(** Taking the slice of the thread that is switched in. *)
Lemma kwhen_reset_slice s :
  SInv s -> running s ->
  kwp (kwhen CONFIG_TIMESLICING (z_reset_time_slice (current s))) s (fun _ s' =>
    SInv s' /\ running s' /\ cache_frame s s').
Proof.
  intros Hs Hr. apply kwp_when; intros _; [|split_and!; [done..|apply cache_frame_refl]].
  destruct Hs as (Hi & Hc & Hu).
  eapply kwp_mono; [apply (reset_time_slice_spec None); [done|apply Hi]|]. cbv beta.
  intros _ s' (Hi' & Hf & Ec). split; [split; [done|split; [|by eapply current_ok_frame]]|split; [|done]].
  - eapply cache_ok_ext; [done|apply Hf|apply Hf| |done]. intros th E. exists th. by rewrite (cf_threads _ _ Hf).
  - unfold running. by rewrite (cf_current _ _ Hf), (cf_threads _ _ Hf).
Qed.

(** The result of a switch in [s] from the thread [t], whose fields were [th], seen
    when it runs again. *)
Definition swapped (X : kstate -> kstate -> Prop) (t : tid) (th : k_thread) (s : kstate) (key : bool) (b' : stretch) (r : Z) (s' : kstate)
    : Prop :=
  exists s0 th', threads s0 !! t = Some (with_swap_retval (- EAGAIN) th) /\ objs s0 = objs s /\
    active t s0 = active t s /\ (Rely_if X t s0 (began b') /\ waitqs s0 = waitqs s) /\
    is_first b' = false /\ s' = set_irq_locked key (began b') /\ threads (began b') !! t = Some th' /\
    r = swap_retval th'.

(** [do_swap], once the return value is set and interrupts are masked. *)
Lemma switch_spec X b s th key :
  QInv s -> J s -> nested s = 0 -> nested (began b) = 0 -> current (began b) = current s ->
  seg (current s) (began b) s -> effect b s ->
  threads s !! current s = Some (with_swap_retval (- EAGAIN) th) -> cache s <> current s ->
  mwp Guar (Rely_if X (current s)) b
    (new_thread ← lift (kget cache);
     (if decide (new_thread = current s) then mret tt
      else lift (kmod (set_current new_thread));;
           lift (kwhen CONFIG_TIMESLICING (z_reset_time_slice new_thread));; arch_switch);;
     lift (arch_irq_unlock key);;
     curr ← lift (kget current); th ← lift (get_thread curr); mret (swap_retval th)) s
    (swapped X (current s) th s key).
Proof.
  intros HQ HJ Hn Hnb Hb Hseg HV E Hne. ksteps. rewrite decide_False by done. ksteps.
  destruct (next_running s HQ Hne) as [Hs2 Hr2].
  eapply kwp_mono; [apply (kwhen_reset_slice _ Hs2 Hr2)|]. cbv beta. intros _ s3 (Hs3 & Hr3 & Hf3).
  apply mwp_switch.
  - split; [done|]. split; [done|]. split_and!.
    + eapply (obj_stable s); [|apply Hf3..|done]. apply wframe_ext; apply Hf3.
    + rewrite (cf_nested _ _ Hf3). exact Hn.
    + done.
    + rewrite Hb. eapply seg_trans; [exact Hseg|]. apply seg_ext; [apply Hf3..|].
      intros u. by rewrite (cf_active _ _ _ Hf3).
    + rewrite Hb, (cf_threads _ _ Hf3). cbn. by rewrite E.
    + intros Hfi. eapply effect_view; [|by apply HV]. destruct Hf3. split; try done.
      * intros u. unfold prio_of. by rewrite cf_threads.
      * intros u _. by rewrite cf_threads.
      * by rewrite cf_threads.
  - intros s' [HR HX]. unfold arch_irq_unlock. ksteps.
    pose proof HR as (_ & _ & _ & _ & Hc' & [Hh' _ _ _ _]). cbn [current set_irq_locked]. rewrite Hc'.
    assert (E0 : threads s3 !! current s = Some (with_swap_retval (- EAGAIN) th))
      by (rewrite (cf_threads _ _ Hf3); exact E).
    destruct (Hh' _ E0) as (th' & E' & _). eapply kwp_get_thread; [exact E'|]. ksteps.
    exists s3, th'. split; [exact E0|]. split; [apply Hf3|]. split; [by rewrite (cf_active _ _ _ Hf3)|].
    split; [|done]. split; [done|apply Hf3].
Qed.

Lemma do_swap_if_spec X b s th key lock isp :
  QInv s -> J s -> nested s = 0 -> nested (began b) = 0 -> current (began b) = current s ->
  seg (current s) (began b) s -> effect b s ->
  threads s !! current s = Some th -> cache s <> current s ->
  mwp Guar (Rely_if X (current s)) b (do_swap key lock isp) s (swapped X (current s) th s key).
Proof.
  intros HQ HJ Hn Hnb Hb Hseg HV E Hne. unfold do_swap, z_swap_next_thread, k_spin_lock, arch_irq_lock. ksteps.
  eapply kwp_upd_thread; [done|]. set (s1 := put_thread (current s) (with_swap_retval (- EAGAIN) th) s).
  assert (Hmain : forall i, _) by (intros i; apply (switch_spec X b (set_irq_locked i s1) th key);
    [|eapply (obj_stable s); [|done|done|exact HJ]|done..| | |apply lookup_insert_eq|done];
    [destruct (QInv_put_retval s (current s) th (- EAGAIN) HQ E); split; [by apply RInv_irq|done]
    |by apply (wframe_trans s s1); [apply (wframe_self s (current s) th)|apply wframe_ext]
    |eapply seg_trans; [exact Hseg|]; apply (seg_trans _ s s1);
       [by apply (seg_self (current s) s th)|by apply seg_ext]
    |intros Hfi; eapply effect_view; [|by apply HV]; split; try done;
       [intros u; by eapply (prio_of_insert s _ (current s) th)
       |intros u Hu; cbn; rewrite lookup_insert_ne; congruence
       |cbn; rewrite Hb, lookup_insert_eq, E; done]]).
  apply mwp_bind, mwp_lift, kwp_when; intros _.
  - do 3 kstep. apply kwp_bind, kwp_mod, kwp_ret, kwp_ret. exact (Hmain true).
  - specialize (Hmain (irq_locked s1)). by replace (set_irq_locked (irq_locked s1) s1) with s1 in Hmain by (by destruct s).
Qed.

Lemma Rely_any t s s' : Rely t s s' -> Rely_if (fun _ _ => True) t s s'.
Proof. by split. Qed.

Lemma do_swap_spec b s th key lock isp :
  QInv s -> J s -> nested s = 0 -> nested (began b) = 0 -> current (began b) = current s ->
  seg (current s) (began b) s -> effect b s ->
  threads s !! current s = Some th -> cache s <> current s ->
  mwp Guar (Rely (current s)) b (do_swap key lock isp) s (swapped (fun _ _ => True) (current s) th s key).
Proof. intros. eapply mwp_rely; [by apply do_swap_if_spec|apply Rely_any]. Qed.

(** ** Between the steps of a call

    [n] is the interrupt nesting level and [c] the calling thread. *)

(** The thread the guarantee makes no promise about: the caller, or nobody (the dummy
    thread) in an interrupt handler. *)
Definition exempt (n : Z) (c : tid) : tid := if n =? 0 then c else thread_dummy.

Section Calls.
Context (n : Z) (c : tid).
Abbreviation e := (exempt n c).

Lemma thread_mode : n = 0 -> e = c.
Proof. unfold exempt. by intros ->. Qed.
Lemma isr_mode : n <> 0 -> e = thread_dummy.
Proof. unfold exempt. by intros Hn%Z.eqb_neq; rewrite Hn. Qed.

Record Steady (b : stretch) (s : kstate) : Prop := {
  so_inv : SInv s;
  so_nested : nested s = n;
  so_began : nested (began b) = n;
  so_seg : seg e (began b) s;
  so_thread : n = 0 -> current s = c /\ running s /\ current (began b) = c
}.

(** With the objects in order. *)
Record Stable (b : stretch) (s : kstate) : Prop := {
  so_steady :> Steady b s;
  so_obj : J s
}.

(** A thread that waits is not the one the guarantee exempts. *)
Lemma waiter_not_exempt b s t th w :
  Steady b s -> threads s !! t = Some th -> pended_on th = Some w -> t <> e.
Proof.
  intros Hs E Ep ->. destruct (so_inv _ _ Hs) as (Hi & _ & _).
  destruct (decide (n = 0)) as [Hn|Hn].
  - destruct (so_thread _ _ Hs Hn) as (Hc & Hr & _). rewrite (thread_mode Hn), <- Hc in E.
    unfold running in Hr. rewrite E in Hr. cbn in Hr.
    pose proof (tok_pending _ _ _ _ (ri_thread _ _ _ _ Hi E)) as H1. rewrite Ep, bool_decide_true in H1 by done.
    unfold blocked in Hr. rewrite H1, orb_true_r in Hr. done.
  - rewrite (isr_mode Hn) in E. destruct (ri_dummy _ _ Hi) as (th' & E' & _ & Hp). congruence.
Qed.

Lemma caller_not_waiting b s w : Steady b s -> n = 0 -> c ∉ waitq s w.
Proof.
  intros Hs Hn Hin. pose proof (so_inv _ _ Hs) as (Hi & _).
  destruct (ri_waitq_thread _ _ _ _ Hi Hin) as (th & E & Ep & _).
  eapply waiter_not_exempt; [done..|]. by rewrite thread_mode.
Qed.

Lemma running_put s s' t th th' :
  threads s !! t = Some th -> threads s' = <[t := th']> (threads s) -> current s' = current s ->
  (blocked th = false -> blocked th' = false) -> running s -> running s'.
Proof.
  intros E Et Ec Hb. unfold running. rewrite Et, Ec. destruct (decide (current s = t)) as [->|Hne].
  - rewrite lookup_insert_eq, E. cbn. intros [= Hr]. by rewrite Hb.
  - by rewrite lookup_insert_ne.
Qed.

Lemma readied_running t th s s' : threads s !! t = Some th -> readied t th s s' -> running s -> running s'.
Proof.
  unfold readied. intros E. destruct (_ || _ || _); [by intros ->|]. intros Hf Hr.
  unfold running. rewrite (cf_threads _ _ Hf), (cf_current _ _ Hf).
  refine (running_put s (queue_st t th s) t th (set_state_bits _THREAD_QUEUED th) E eq_refl eq_refl _ Hr).
  by bits_simpl.
Qed.

Lemma readied_threads t th s s' :
  threads s !! t = Some th -> readied t th s s' ->
  (forall u, u <> t -> threads s' !! u = threads s !! u) /\
  (threads s' !! t = Some th \/ threads s' !! t = Some (set_state_bits _THREAD_QUEUED th)).
Proof.
  unfold readied. intros E. destruct (_ || _ || _); [intros ->; auto|]. intros Hf.
  rewrite (cf_threads _ _ Hf). cbn [threads queue_st set_runq set_threads]. split.
  - intros u Hu. by rewrite lookup_insert_ne.
  - right. apply lookup_insert_eq.
Qed.

Lemma blocked_unpended th : blocked th = false -> blocked (unpended th) = false.
Proof.
  change (blocked th = false -> blocked (clear_state_bits _THREAD_PENDING th) = false). unfold blocked.
  bits_simpl. rewrite !orb_false_iff. tauto.
Qed.

Lemma readied_waitqs t th s s' : readied t th s s' -> waitqs s' = waitqs s.
Proof. unfold readied. destruct (_ || _ || _); [by intros ->|]. by intros []. Qed.

Lemma Steady_irq b s i : Steady b s -> Steady b (set_irq_locked i s).
Proof.
  intros [Hs Hn Hnb Hg Ht]. split; try done; [by apply SInv_irq|].
  eapply seg_trans; [exact Hg|]. by apply seg_ext.
Qed.

Lemma Stable_irq b s i : Stable b s -> Stable b (set_irq_locked i s).
Proof.
  intros [Hs HJ]. split; [by apply Steady_irq|]. eapply (obj_stable s); [by apply wframe_ext|done..].
Qed.

(** Fields that neither the scheduler nor the guarantee reads. *)
Lemma seg_put s t th th' :
  threads s !! t = Some th -> pended_on th' = pended_on th -> swap_retval th' = swap_retval th ->
  (st 3 th = true -> st 3 th' = true) -> seg e s (put_thread t th' s).
Proof.
  intros E Ep Er Hd. split; cbn; try by eauto.
  - intros u _ thu Eu. destruct (decide (u = t)) as [->|Hne].
    + exists th'. cbn. rewrite lookup_insert_eq. assert (thu = th) as -> by congruence. auto.
    + exists thu. cbn. rewrite lookup_insert_ne by done. auto.
  - intros u. unfold dead. cbn. destruct (decide (u = t)) as [->|]; [|by rewrite lookup_insert_ne].
    by rewrite lookup_insert_eq, E.
  - intros a o Eo. exists o. split; [done|apply same_kind_refl].
Qed.

Lemma Steady_put b s t th th' :
  Steady b s -> threads s !! t = Some th -> same_sched th th' -> swap_retval th' = swap_retval th ->
  Steady b (put_thread t th' s).
Proof.
  intros [Hs Hn Hnb Hg Ht] E Hsame Hr. pose proof Hsame as (Est & Epo & _). split; try done; [by eapply SInv_put| |].
  - eapply seg_trans; [exact Hg|]. eapply seg_put; [done..|]. unfold st. by rewrite Est.
  - intros H0. destruct (Ht H0) as (Hc & Hru & Hb). split_and!; [done| |done].
    refine (running_put s (put_thread t th' s) t th th' E eq_refl eq_refl _ Hru). unfold blocked, st. by rewrite Est.
Qed.

(** The timeout of a thread that is kept from running otherwise is cancelled. *)
Lemma Steady_abort b s t th :
  Steady b s -> threads s !! t = Some th -> blocked th = true -> Steady b (abort_st t s).
Proof.
  intros [(Hi & Hc & Hu) Hn Hnb Hg Ht] E Hb. pose proof (abort_st_frame None None t s Hi) as Hf. split; try done.
  - split_and!; [|done|].
    + destruct (abort_timeout_spec None s t th) as (Hi' & _); [done|by left|done|].
      apply (RInv_settle t _ Hi'). intros th0 E0 Hb0. cbn in E0. congruence.
    + destruct Hu as [Ha Hu]. split; [|done]. destruct (active (current (abort_st t s)) (abort_st t s)) eqn:Ea; [|done].
      apply (sf_active _ _ _ Hf) in Ea. cbn in Ea. congruence.
  - eapply seg_trans; [exact Hg|]. by apply sframe_seg.
Qed.

(** The object [a] changes. *)
Lemma Steady_put_obj b s a o o' :
  Steady b s -> objs s !! a = Some o -> obj_step e s a o o' -> Steady b (set_objs (<[a := o']> (objs s)) s).
Proof.
  intros [Hs Hn Hnb Hg Ht] E Ho. split; try done; [by apply SInv_objs|].
  eapply seg_trans; [exact Hg|]. by eapply seg_put_obj.
Qed.

Lemma Stable_put_obj b s a o o' :
  Stable b s -> objs s !! a = Some o -> obj_step e s a o o' -> J (set_objs (<[a := o']> (objs s)) s) ->
  Stable b (set_objs (<[a := o']> (objs s)) s).
Proof. intros [Hs _] E Ho HJ'. split; [by eapply Steady_put_obj|done]. Qed.

(** The caller or an object it uses writes to memory. *)
Lemma Stable_mem W `{!MemInv J W} b s m :
  Stable b s -> (forall p, is_Some (m !! p) <-> is_Some (mem s !! p)) ->
  (forall p, m !! p <> mem s !! p -> W s p) -> Stable b (set_mem m s).
Proof.
  intros [[Hs Hn Hnb Hg Ht] HJ] Hd Hw. split; [|by apply mem_write_inv]. split; try done; [by apply SInv_mem|].
  eapply seg_trans; [exact Hg|]. by apply seg_ext.
Qed.

Lemma Stable_write W `{!MemInv J W} b s p l :
  Stable b s -> region W s p (Z.of_nat (length l)) -> Stable b (set_mem (mem_write (mem s) p l) s).
Proof.
  intros Hs [Hm Hw]. apply (Stable_mem W); [done| |].
  - intros q. by apply mem_write_mapped.
  - intros q Hq%mem_write_changed. auto.
Qed.

(** Regions last through writes and changes to objects other than slabs. *)
Lemma region_stable W `{!MemInv J W} s s' p k :
  J s -> (forall a o, objs s' !! a = Some (O_slab o) <-> objs s !! a = Some (O_slab o)) ->
  (forall x, is_Some (mem s !! x) -> is_Some (mem s' !! x)) ->
  (forall x, mem s' !! x <> mem s !! x -> W s x) -> region W s p k -> region W s' p k.
Proof.
  intros HJ Ho Hm Hw [H1 H2]. split; [intros x Hx; by apply Hm, H1|].
  intros x Hx. apply (writable_stable s); auto.
Qed.

(** The caller changes its own fields, as it does not wait. *)
Lemma Stable_put_self b s th th' :
  Stable b s -> n = 0 -> threads s !! c = Some th -> same_sched th th' -> wake_fine th' = wake_fine th ->
  Stable b (put_thread c th' s).
Proof.
  intros [[Hs Hn Hnb Hg Ht] HJ] H0 E Hsame Hk. destruct (Ht H0) as (Hc & Hr & Hb).
  pose proof Hsame as (Est & Epo & _). assert (Hbl : blocked th' = blocked th) by (unfold blocked, st; by rewrite Est).
  assert (Hnot : forall w, c ∉ waitq s w) by (intros w; by eapply (caller_not_waiting b s)).
  split; [split; try done|eapply (obj_stable s); [|done..]; eapply wframe_put; try done; by rewrite Hk].
  - by eapply SInv_put.
  - eapply seg_trans; [exact Hg|]. rewrite (thread_mode H0). eapply seg_self; [done|].
    unfold st. by rewrite Est.
  - intros _. split_and!; [done| |done]. refine (running_put s (put_thread c th' s) c th th' E eq_refl eq_refl _ Hr).
    by rewrite Hbl.
Qed.

(** ** Waking a waiter *)

(** [t], with its new fields [th2], has left the queue [w]. *)
Record woken (t : tid) (w : wqid) (s s' : kstate) : Prop := {
  wk_objs : objs s' = objs s;
  wk_mem : mem s' = mem s;
  wk_current : current s' = current s;
  wk_irq : irq_locked s' = irq_locked s;
  wk_waitq : forall w', waitq s' w' = if decide (w' = w) then remove_elem t (waitq s w) else waitq s w';
  wk_other : forall u, u <> t -> threads s' !! u = threads s !! u;
  wk_active : forall u, active u s' = true -> active u s = true;
  wk_frame : wframe s s'
}.

(** [t], with its new fields [th2], is readied; [x] is another thread. *)
Lemma wake_core x s t th w th2 :
  RInv None s -> current_ok s -> threads s !! t = Some th -> pended_on th = Some w -> t <> x ->
  same_sched (unpended th) th2 -> wake_fine th2 = wake_fine (unpended th) -> granted w t (swap_retval th2) s ->
  kwp (ready_thread t) (put_thread t th2 (unpended_st t th w s)) (fun _ s' =>
    (RInv None s' /\ current_ok s' /\ (cache_ok s -> cache_ok s')) /\ seg x s s' /\ (running s -> running s') /\
    woken t w s s' /\
    exists th3, threads s' !! t = Some th3 /\ swap_retval th3 = swap_retval th2 /\
      swap_data th3 = swap_data th2 /\ pended_on th3 = None).
Proof.
  intros Hi Hu E Ep Hx Hsame Hk Hg.
  destruct (unpended_core None s t th w) as ((Hid & Hi1 & Hc1 & Hu1) & Hsf & Ha & E1 & Hnot); [done|by left|by apply current_ok_weaken|done..|].
  set (s1 := unpended_st t th w s) in *. set (s2 := put_thread t th2 s1).
  assert (E2 : threads s2 !! t = Some th2) by apply lookup_insert_eq. pose proof Hsame as (Est & Epo & Epr & Elk).
  pose proof (ri_thread _ _ _ _ Hi1 E1) as Hok1.
  assert (Hi2 : RInv (Some t) s2) by (apply (RInv_data (Some t) s1 t (unpended th)); try done; [by left|
    rewrite Epr; apply (tok_prio _ _ _ _ Hok1)|rewrite Elk; apply (tok_locked _ _ _ _ Hok1)]).
  assert (Hw2 : wframe s s2).
  { eapply wframe_trans; [by eapply sframe_wframe|]. eapply (wframe_put s1); try done. by rewrite Hk. }
  eapply kwp_mono; [apply (ready_thread_core no_metairq s2 t th2); [done|by apply current_ok_but_put|done..]|].
  cbv beta. intros _ s' (Hi' & Hu' & Hc' & Hr'). pose proof (readied_frame None _ _ _ _ E2 Hr') as Hf3.
  assert (Hd2 : dead s1 t = true -> st 3 th2 = true)
    by (unfold dead; rewrite E1; cbn [from_option]; unfold st; by rewrite Est).
  split_and!; [done..| | | | |].
  - intros Hc. apply Hc'. eapply cache_ok_put; [done|by apply preemptible_eq|auto].
  - eapply seg_trans; [|by apply sframe_seg]. eapply (seg_wake _ s s1 s2); try done.
    destruct w as [u|]; [|exact Hg]. destruct Hg as [Hr0 Hdu]. split; [done|]. unfold dead.
    apply (sframe_dead _ s s1 u Hsf) in Hdu. destruct (decide (u = t)) as [->|]; [rewrite E2; by apply Hd2|].
    unfold s2. cbn [threads set_threads]. by rewrite lookup_insert_ne.
  - intros Hr. eapply readied_running; [exact E2|exact Hr'|].
    refine (running_put s1 s2 t (unpended th) th2 E1 eq_refl eq_refl _ _); [unfold blocked, st; by rewrite Est|].
    refine (running_put s s1 t th (unpended th) E eq_refl eq_refl _ Hr). apply blocked_unpended.
  - split; try done.
    + by rewrite (sf_objs _ _ _ Hf3).
    + by rewrite (sf_mem _ _ _ Hf3).
    + by rewrite (sf_current _ _ _ Hf3).
    + by rewrite (readied_irq_locked _ _ _ _ Hr').
    + intros w'. unfold waitq at 1. rewrite (readied_waitqs _ _ _ _ Hr'). exact (unpend_st_waitq t th w s w').
    + intros u Hne. rewrite (proj1 (readied_threads _ _ _ _ E2 Hr')) by done.
      cbn [s2 s1 unpended_st abort_st unpend_st threads set_threads set_tq set_waitqs]. by rewrite !lookup_insert_ne.
    + intros u Hau. apply (sf_active _ _ _ Hsf). by apply (sf_active _ _ _ Hf3) in Hau.
    + eapply wframe_trans; [exact Hw2|by eapply sframe_wframe].
  - destruct (readied_threads _ _ _ _ E2 Hr') as [_ [E3|E3]]; (eexists; split; [exact E3|]); done.
Qed.

Lemma wake_steady_spec b s t th w th2 :
  Steady b s -> threads s !! t = Some th -> pended_on th = Some w ->
  same_sched (unpended th) th2 -> wake_fine th2 = wake_fine (unpended th) -> granted w t (swap_retval th2) s ->
  kwp (z_ready_thread t) (put_thread t th2 (unpended_st t th w s)) (fun _ s' =>
    Steady b s' /\ woken t w s s' /\
    exists th3, threads s' !! t = Some th3 /\ swap_retval th3 = swap_retval th2 /\
      swap_data th3 = swap_data th2 /\ pended_on th3 = None).
Proof.
  intros Hs E Ep Hsame Hk Hg. pose proof (waiter_not_exempt _ _ _ _ _ Hs E Ep) as Hte.
  unfold z_ready_thread, z_ready_thread_locked. apply kwp_spinlock.
  pose proof (Steady_irq _ _ true Hs) as [(Hi & Hc & Hu) Hn Hnb Hseg Ht]. set (s0 := set_irq_locked true s) in *.
  change (set_irq_locked true (put_thread t th2 (unpended_st t th w s))) with (put_thread t th2 (unpended_st t th w s0)).
  eapply kwp_mono; [by apply (wake_core e s0 t th w th2)|]. cbv beta.
  intros _ s' ((Hi' & Hu' & Hc') & Hseg' & Hr' & Hw' & Hth).
  assert (Hs' : Steady b s').
  { destruct Hw' as [_ _ Ecu _ _ _ _ Hf]. split; [split; auto|by rewrite (wf_nested _ _ Hf)|done|by eapply seg_trans|].
    intros H0. destruct (Ht H0) as (? & ? & ?). split_and!; [by rewrite Ecu|auto|done]. }
  split_and!; [by apply Steady_irq| |done]. destruct Hw' as [Wo Wm Wc Wi Wq Wt Wa Wf]. split; try done.
  destruct Wf. by split.
Qed.

Lemma wake_spec b s t th w th2 :
  Stable b s -> threads s !! t = Some th -> pended_on th = Some w ->
  same_sched (unpended th) th2 -> wake_fine th2 = wake_fine (unpended th) -> granted w t (swap_retval th2) s ->
  kwp (z_ready_thread t) (put_thread t th2 (unpended_st t th w s)) (fun _ s' =>
    Stable b s' /\ woken t w s s' /\
    exists th3, threads s' !! t = Some th3 /\ swap_retval th3 = swap_retval th2 /\
      swap_data th3 = swap_data th2 /\ pended_on th3 = None).
Proof.
  intros [Hs HJ] E Ep Hsame Hk Hg. eapply kwp_mono; [by eapply wake_steady_spec|]. cbv beta.
  intros _ s' (Hs' & Hw & Hth). split_and!; [|done|done]. split; [done|].
  eapply (obj_stable s); [apply Hw..|done].
Qed.

Lemma woken_head t q w s s' :
  SInv s -> waitq s w = t :: q -> woken t w s s' -> waitq s' w = q.
Proof.
  intros (Hi & _) Ew Hw. rewrite (wk_waitq _ _ _ _ Hw), decide_True, Ew by done.
  pose proof (ri_waitq_nodup _ _ w Hi) as Hn. rewrite Ew in Hn. by apply NoDup_cons in Hn as [Hn _]; apply remove_elem_head.
Qed.

Lemma woken_only t a s s' : woken t (WQ_obj a) s s' -> only_object a s s'.
Proof.
  intros Hw. split; [by intros; rewrite (wk_objs _ _ _ _ Hw)|].
  intros w Hne. by rewrite (wk_waitq _ _ _ _ Hw), decide_False.
Qed.

(** *** Waking every waiter *)

Record woken_all (a : positive) (r : Z) (s s' : kstate) : Prop := {
  wa_objs : objs s' = objs s;
  wa_mem : mem s' = mem s;
  wa_current : current s' = current s;
  wa_irq : irq_locked s' = irq_locked s;
  wa_empty : waitq s' (WQ_obj a) = [];
  wa_waitq : forall w, w <> WQ_obj a -> waitq s' w = waitq s w;
  wa_threads : forall u, u ∉ waitq s (WQ_obj a) -> threads s' !! u = threads s !! u;
  wa_woken : forall t, t ∈ waitq s (WQ_obj a) ->
    exists th, threads s' !! t = Some th /\ pended_on th = None /\ swap_retval th = r
}.

(** The body of the loops that do so. *)
Definition wake_all_body {A} (a : positive) (r : Z) (step : A -> A) (loop : nat -> A -> K A) (fuel : nat) (acc : A)
    : K A :=
  thread ← z_unpend_first_thread (WQ_obj a);
  match thread with
  | None => mret acc
  | Some t =>
      match fuel with
      | O => kfail
      | S fuel => arch_thread_return_value_set t r;; z_ready_thread t;; loop fuel (step acc)
      end
  end.

Lemma wake_all_spec {A} a r (step : A -> A) (loop : nat -> A -> K A) b :
  (forall fuel acc, loop fuel acc = wake_all_body a r step loop fuel acc) ->
  forall l s acc, Stable b s -> waitq s (WQ_obj a) = l -> (forall t, granted (WQ_obj a) t r s) ->
  kwp (loop (length l) acc) s (fun acc' s' =>
    acc' = Nat.iter (length l) step acc /\ Stable b s' /\ woken_all a r s s').
Proof.
  intros Hloop l. induction l as [|t q IH]; intros s acc Hs Ew Hg; rewrite Hloop; unfold wake_all_body; kstep;
    (apply unpend_first_spec; [apply Hs| |]); try (intros Ew'; congruence).
  - intros _. kstep. split_and!; [done..|]. split; try done. intros t. by rewrite Ew, elem_of_nil.
  - intros t' q' th Ew' E Ep. assert (t' = t /\ q' = q) as [-> ->] by (split; congruence). cbn [length]. ksteps.
    eapply kwp_upd_thread; [apply lookup_insert_eq|]. kstep.
    eapply kwp_mono; [apply (wake_spec b s t th (WQ_obj a) (with_swap_retval r (unpended th))); try done; apply Hg|].
    cbv beta. intros _ s1 (Hs1 & Hw1 & th1 & E1 & Hr1 & _ & Hp1).
    pose proof (woken_head _ _ _ _ _ (so_inv _ _ Hs) Ew' Hw1) as Eq1.
    assert (Hnd : t ∉ q) by (pose proof (ri_waitq_nodup _ _ (WQ_obj a) (proj1 (so_inv _ _ Hs))) as Hn;
      rewrite Ew in Hn; by apply NoDup_cons in Hn as [? _]).
    eapply kwp_mono; [apply IH; [done..|]|].
    { intros u. specialize (Hg u). cbn in *. by rewrite (wk_objs _ _ _ _ Hw1). }
    cbv beta. intros acc' s2 (-> & Hs2 & Hw2). split_and!; [by rewrite Nat.iter_succ_r|done|].
    destruct Hw2. destruct Hw1. split; try congruence.
    + intros w Hne. rewrite wa_waitq0, wk_waitq0 by done. by rewrite decide_False.
    + intros u. rewrite Ew, not_elem_of_cons. intros [Hne Hu]. rewrite wa_threads0 by (by rewrite Eq1). auto.
    + intros u. rewrite Ew, elem_of_cons. intros [->|Hu].
      * exists th1. rewrite wa_threads0 by (by rewrite Eq1). done.
      * apply wa_woken0. by rewrite Eq1.
Qed.

(** ** Giving up the CPU *)

Lemma Rely_Stable s0 s' key :
  n = 0 -> Rely c s0 s' -> Stable (Stretch false s') (set_irq_locked key s').
Proof.
  intros H0 (Hs & Hr & HJ & Hn & Hc & _). apply Stable_irq. split; [|done].
  split; cbn; try done; [congruence|congruence|apply seg_refl].
Qed.

(** A call that returns without a switch, to a thread with interrupts enabled, leaves the
    scheduler's choice running. *)
Definition rescheduled (b : stretch) (s : kstate) : Prop :=
  is_first b = true -> irq_locked s = false -> n = 0 -> cache s = current s.

(** Switching if another thread is to run: the common body of [z_reschedule] and
    [z_reschedule_irqlock].  With interrupts masked by the caller no switch happens. *)
Lemma resched_body_spec b s lock isp key :
  Stable b s -> (key = false -> effect b s) ->
  mwp Guar (Rely c) b
    (r ← lift (resched key);
     n ← lift need_swap;
     if (r : bool) && (n : bool) then (_ ← do_swap key lock isp; mret tt) else lift (arch_irq_unlock key)) s
    (fun b' _ s' => Stable b' s' /\ irq_locked s' = key /\
       (b' = b /\ s' = set_irq_locked key s \/ is_first b' = false /\ key = false) /\ rescheduled b' s').
Proof.
  intros Hs HV. unfold resched, need_swap, arch_is_in_isr. ksteps.
  destruct (arch_irq_unlocked key && _ && bool_decide (cache s <> current s)) eqn:Hb.
  - apply andb_true_iff in Hb as [Hb Hne%bool_decide_eq_true].
    apply andb_true_iff in Hb as [Hkey%negb_true_iff Hb%negb_true_iff]. rewrite negb_false_iff in Hb. apply Z.eqb_eq in Hb.
    destruct Hs as [[(Hi & Hca & Hu) Hn Hnb Hseg Ht] HJ]. rewrite Hn in Hb. destruct (Ht Hb) as (Hc & Hr & Hbc).
    destruct (ri_current _ _ Hi) as [th E]. kstep.
    eapply mwp_mono; [rewrite <- Hc; apply (do_swap_spec b s th); try done; try congruence|].
    + rewrite (thread_mode Hb), <- Hc in Hseg. exact Hseg.
    + by apply HV.
    + cbv beta. intros b' r s' (s0 & th' & _ & _ & _ & [[HR _] _] & Hf & -> & _ & _). kstep. rewrite Hc in HR.
      destruct b' as [f b']; cbn in *. subst f. split_and!; [by eapply Rely_Stable|done|by right|done].
  - ksteps. split_and!; [by apply Stable_irq|done|by left|]. intros _ Hkey H0. cbn in Hkey. rewrite Hkey in Hb.
    rewrite (so_nested _ _ Hs), H0 in Hb. apply bool_decide_eq_false in Hb. by destruct (decide (cache s = current s)).
Qed.

Lemma reschedule_key_spec b s lock key :
  Stable b s -> (key = false -> effect b s) ->
  mwp Guar (Rely c) b (z_reschedule lock key) s (fun b' _ s' =>
    Stable b' s' /\ irq_locked s' = key /\
    (b' = b /\ s' = set_irq_locked key s \/ is_first b' = false /\ key = false) /\ rescheduled b' s').
Proof. apply (resched_body_spec b s (Some lock) true key). Qed.

Lemma reschedule_unlocked_spec b s :
  Stable b s -> effect b s ->
  mwp Guar (Rely c) b z_reschedule_unlocked s (fun b' _ s' => Stable b' s' /\ effect b' s' /\ rescheduled b' s').
Proof.
  intros Hs HV. unfold z_reschedule_unlocked, z_reschedule_irqlock, z_swap_irqlock. kstep. apply mwp_lift, kwp_lock.
  assert (HV' : forall k, effect b (set_irq_locked k s)) by (intros k Hf; eapply effect_view; [|by apply HV]; by split).
  eapply mwp_mono; [apply (resched_body_spec b (set_irq_locked true s) None false (irq_locked s)); [by apply Stable_irq|auto]|]. cbv beta.
  intros b' _ s' (Hs' & _ & [[-> ->]|[Hf Hk]] & Hre); (split; [done|]; split; [|done]).
  - exact (HV' (irq_locked s)).
  - intros Hf'. congruence.
Qed.

Lemma reschedule_spec b s lock key :
  Stable b s -> effect b s ->
  mwp Guar (Rely c) b (z_reschedule lock key) s (fun b' _ s' =>
    Stable b' s' /\ effect b' s' /\ irq_locked s' = key /\ (b' = b \/ is_first b' = false) /\ rescheduled b' s').
Proof.
  intros Hs HV. eapply mwp_mono; [by apply reschedule_key_spec|]. cbv beta.
  intros b' _ s' (Hs' & Hi & [[-> ->]|[Hf Hk]] & Hre); split_and!; try done; [|by left|by intros Hf'; rewrite Hf' in Hf|by right].
  intros Hf. eapply effect_view; [|by apply HV]. by split.
Qed.

Lemma pframe_ext w s0 s1 s2 :
  threads s1 = threads s0 -> objs s1 = objs s0 -> mem s1 = mem s0 -> nested s1 = nested s0 ->
  current s1 = current s0 -> waitqs s1 = waitqs s0 -> tq s1 = tq s0 -> pframe c w s1 s2 -> pframe c w s0 s2.
Proof.
  intros Et Eo Em En Ec Ew Eq [O M N C D T S A W]. split; try congruence.
  - intros u Hu. rewrite T by done. by rewrite Et.
  - intros th E. apply S. by rewrite Et.
  - intros u Hu. rewrite A by done. unfold active. by rewrite Eq.
  - intros w'. rewrite W. unfold waitq, prio_of. by rewrite Ew, Et.
Qed.

Lemma pframe_seg w s s' : is_Some (threads s !! c) -> pframe c w s s' -> seg c s s'.
Proof.
  intros [th0 E0] [O M N C _ T S A W]. split; rewrite ?O.
  - intros u Hu th E. exists th. rewrite T by done. split; [done|]. split; [by rewrite A|by left].
  - intros u. unfold dead. destruct (decide (u = c)) as [->|]; [|by rewrite T].
    rewrite E0. destruct (S th0 E0) as (th' & -> & _ & _ & _ & Hd & _). exact Hd.
  - intros a o E. exists o. split; [done|apply same_kind_refl].
  - intros a o u Ho _. unfold owns. by rewrite O.
  - intros a o u _ Ho _. left. unfold owns in *. by rewrite O in Ho.
Qed.

(** The running thread waits for nothing. *)
Lemma running_facts s th :
  SInv s -> running s -> threads s !! current s = Some th ->
  blocked th = false /\ pended_on th = None /\ current s <> thread_dummy /\ active (current s) s = false.
Proof.
  intros (Hi & _ & Ha & _) Hr E. assert (Hb : blocked th = false)
    by (unfold running in Hr; rewrite E in Hr; by injection Hr).
  split_and!; [done| |by eapply not_dummy; [..|left]|done].
  pose proof (tok_pending _ _ _ _ (ri_thread _ _ _ _ Hi E)) as H1. unfold blocked in Hb.
  rewrite !orb_false_iff in Hb. destruct Hb as ((((_ & Hp) & _) & _) & _). rewrite Hp in H1. symmetry in H1.
  apply bool_decide_eq_false in H1. by destruct (pended_on th); [destruct H1|].
Qed.

(** The thread [c] was switched in with the fields [th], among them the return value of the
    switch. *)
Definition resumed (b : stretch) (th : k_thread) : Prop := threads (began b) !! c = Some th.

(** Once the caller waits on [w], it is switched out; the return value it wakes up
    with is the timeout's, or one that is justified. *)
Lemma pended_swap_if_spec X b s s1 w key lock isp timeout :
  Stable b s -> n = 0 -> c <> z_idle_thread -> QInv s1 -> pframe c w s s1 -> (c ∉ runq s1) ->
  J s1 -> effect b s1 -> (active c s1 = true -> timeout <> K_FOREVER) ->
  mwp Guar (Rely_if X c) b (do_swap key lock isp) s1 (fun b' r s' =>
    (Stable b' s' /\ is_first b' = false /\ (r = - EAGAIN /\ timeout <> K_FOREVER \/ granted w c r s') /\ irq_locked s' = key /\
    (exists th, resumed b' th /\ threads s' = threads (began b') /\ swap_retval th = r) /\ objs_kept c w s s') /\
    exists s0, c ∈ waitq s0 w /\ X s0 (began b') /\ swap_retval <$> threads (began b') !! c = Some r).
Proof.
  intros Hs H0 Hid HQ Hp Hrun HJ HV Hto. destruct (so_thread _ _ Hs H0) as (Hc & Hr & Hb).
  destruct (ri_current _ _ (proj1 (so_inv _ _ Hs))) as [th E]. rewrite Hc in E.
  destruct (pf_self _ _ _ _ Hp th E) as (th1 & E1 & _ & _ & Hpo & _).
  pose proof (pf_current _ _ _ _ Hp) as Hc1. rewrite Hc in Hc1.
  eapply mwp_mono; [rewrite <- Hc1; apply (do_swap_if_spec X b s1 th1); rewrite ?Hc1; try done|].
  - rewrite (pf_nested _ _ _ _ Hp). by rewrite (so_nested _ _ Hs).
  - by rewrite (so_began _ _ Hs).
  - eapply seg_trans; [|by eapply pframe_seg; [|exact Hp]]. rewrite <- (thread_mode H0). apply Hs.
  - destruct HQ as [_ [Hca|(_ & Hin & _)]]; [|by rewrite Hc1 in Hin]. rewrite Hca.
    destruct (runq s1) as [|t q] eqn:Eq; cbn; [done|]. intros ->. apply Hrun. left.
  - cbv beta. intros b' r s' (s0 & th' & E0 & Eo0 & Ea0 & [[HR HX] Ew0] & Hf & -> & E' & ->). destruct b' as [f b']; cbn in *. subst f.
    rewrite Hc1 in *. split; [|exists s0; split_and!; [|done|by rewrite E']; unfold waitq; rewrite Ew0; fold (waitq s1 w);
      rewrite (pf_waitq _ _ _ _ Hp), decide_True by done; apply elem_of_dumb_add; by left]. split; [by eapply Rely_Stable|]. split; [done|]. destruct HR as (Hs' & Hr' & _ & _ & Hc' & [Hh _ Hkind Hown Howned]).
    split; [|split; [done|split; [by exists th'|]]].
    2: { unfold owns in *. rewrite Eo0, (pf_objs _ _ _ _ Hp) in Hkind, Hown, Howned. split_and!; [done..|].
      intros a o Ha. destruct (Howned a o) as [|(th0 & Et0 & Hp0)]; [by eexists|done|by left|right].
      rewrite E0 in Et0. injection Et0 as <-. cbn in Hp0. congruence. }
    destruct (Hh _ E0) as (th2 & E2 & _ & Hh2). assert (th2 = th') as -> by congruence.
    rewrite <- Hc' in E'. destruct (running_facts _ _ Hs' Hr' E') as (Hbl & Hpn & _).
    destruct Hh2 as [[Hp2 _]|(_ & w' & Hw' & [[Hrv [Ha|Hd]]|Hg])].
    { cbn in Hp2. congruence. }
    { left. split; [done|]. apply Hto. by rewrite <- Ea0. }
    { unfold blocked in Hbl. by rewrite Hd, orb_true_r in Hbl. }
    right. cbn in Hw'. assert (w' = w) as -> by congruence. destruct w; exact Hg.
Qed.

Lemma pended_swap_spec b s s1 w key lock isp timeout :
  Stable b s -> n = 0 -> c <> z_idle_thread -> QInv s1 -> pframe c w s s1 -> (c ∉ runq s1) ->
  J s1 -> effect b s1 -> (active c s1 = true -> timeout <> K_FOREVER) ->
  mwp Guar (Rely c) b (do_swap key lock isp) s1 (fun b' r s' =>
    Stable b' s' /\ is_first b' = false /\ (r = - EAGAIN /\ timeout <> K_FOREVER \/ granted w c r s') /\ irq_locked s' = key /\
    (exists th, resumed b' th /\ threads s' = threads (began b') /\ swap_retval th = r) /\ objs_kept c w s s').
Proof.
  intros. eapply mwp_mono; [eapply mwp_rely; [by apply pended_swap_if_spec|apply Rely_any]|]. by intros b' r s' [? _].
Qed.

Lemma pend_curr_if_spec X b s w key lock timeout :
  Stable b s -> n = 0 -> c <> z_idle_thread -> lock <> Lock_sched -> api_timeout timeout ->
  (forall s', pframe c w s s' -> J s' /\ effect b s') ->
  mwp Guar (Rely_if X c) b (z_pend_curr lock key (Some w) timeout) s (fun b' r s' =>
    (Stable b' s' /\ is_first b' = false /\ (r = - EAGAIN /\ timeout <> K_FOREVER \/ granted w c r s') /\ irq_locked s' = key /\
    (exists th, resumed b' th /\ threads s' = threads (began b') /\ swap_retval th = r) /\ objs_kept c w s s') /\
    exists s0, c ∈ waitq s0 w /\ X s0 (began b') /\ swap_retval <$> threads (began b') !! c = Some r).
Proof.
  intros Hs H0 Hid Hl Ht HJ. pose proof (so_thread _ _ Hs H0) as (Hc & Hr & _).
  destruct (so_inv _ _ Hs) as (Hi & _ & Ha & _). destruct (ri_current _ _ Hi) as [th E].
  destruct (running_facts _ _ (so_inv _ _ Hs) Hr E) as (Hbl & Hpn & Hdu & _).
  assert (Hde : st 3 th = false) by (unfold blocked in Hbl; rewrite !orb_false_iff in Hbl; tauto).
  assert (Hmain : forall s0, threads s0 = threads s -> objs s0 = objs s -> mem s0 = mem s ->
    nested s0 = nested s -> current s0 = current s -> waitqs s0 = waitqs s -> runq s0 = runq s -> tq s0 = tq s ->
    slice_ticks s0 = slice_ticks s ->
    kwp (pend_locked c (Some w) timeout) s0 (fun _ s1 => QInv s1 /\ pframe c w s s1 /\ (c ∉ runq s1) /\
      (active c s1 = true -> timeout <> K_FOREVER))).
  { intros s0 Et Eo Em En Ec Ew Er Eq Esl. rewrite <- Hc, <- Ec.
    eapply kwp_mono; [apply (pend_locked_spec no_metairq s0 th); rewrite ?Ec, ?Et; try done|].
    - by eapply RInv_ext; [..|exact Hi].
    - unfold active. by rewrite Eq.
    - by rewrite Hc.
    - cbv beta. intros _ s1 (HQ & Hp & Hr1 & Ha1). rewrite Ec, Hc in Hp, Hr1, Ha1 |- *.
      split; [done|]. split; [|done]. eapply pframe_ext; [..|exact Hp]; done. }
  unfold z_pend_curr, k_spin_lock, arch_irq_lock, z_swap. ksteps. rewrite Hc.
  destruct (CONFIG_TIMESLICING && CONFIG_SWAP_NONATOMIC); unfold kwhen; ksteps;
    (apply kwp_assert; [by apply bool_decide_eq_true|]); ksteps;
    (eapply kwp_mono; [by apply Hmain|]); cbv beta; intros _ s1 (HQ & Hp & Hr1 & Ha1);
    destruct (HJ s1 Hp); by eapply pended_swap_if_spec.
Qed.

Lemma pend_curr_spec b s w key lock timeout :
  Stable b s -> n = 0 -> c <> z_idle_thread -> lock <> Lock_sched -> api_timeout timeout ->
  (forall s', pframe c w s s' -> J s' /\ effect b s') ->
  mwp Guar (Rely c) b (z_pend_curr lock key (Some w) timeout) s (fun b' r s' =>
    Stable b' s' /\ is_first b' = false /\ (r = - EAGAIN /\ timeout <> K_FOREVER \/ granted w c r s') /\ irq_locked s' = key /\
    (exists th, resumed b' th /\ threads s' = threads (began b') /\ swap_retval th = r) /\ objs_kept c w s s').
Proof.
  intros. eapply mwp_mono; [eapply mwp_rely; [by apply pend_curr_if_spec|apply Rely_any]|]. by intros b' r s' [? _].
Qed.
End Calls.
End Switch.
