(* ===== verification/ThreadOps.v ===== *)
(** * Scheduling steps the thread calls share (kernel/sched.c)

    Setting a priority and waking a thread whose timeout is gone: both keep the
    scheduler's invariant and are invisible to waiting threads. *)

From S2P Require Import Prelude TimeUnits Timeout PriorityQ KState KLogic Sched SchedInv SchedOps Switch.

Local Open Scope Z_scope.

Section ThreadOps.
Context `{KConfig}.
Hypothesis no_metairq : CONFIG_NUM_METAIRQ_PRIORITIES = 0.
Implicit Types (b : stretch) (s : kstate) (t u c : tid) (th : k_thread) (w : wqid).

(** ** Scheduling steps *)

(** A step that only reschedules: the invariant holds again, waiters are as before,
    and the current thread still runs if it did. *)
Record sched_step (s s' : kstate) : Prop := {
  ss_inv : SInv s';
  ss_frame : sframe s s';
  ss_running : running s -> running s';
  ss_irq : irq_locked s' = irq_locked s
}.

Lemma sched_step_trans s1 s2 s3 : sched_step s1 s2 -> sched_step s2 s3 -> sched_step s1 s3.
Proof. intros [] []. split; [done|by eapply sframe_trans|auto|congruence]. Qed.

Lemma sched_step_refl s : SInv s -> sched_step s s.
Proof. intros Hs. split; [done|apply sframe_refl|done|done]. Qed.

Lemma sched_step_lock s s' : sched_step (set_irq_locked true s) s' -> sched_step s (set_irq_locked (irq_locked s) s').
Proof.
  intros [Hi Hf Hr _]. split; [by apply SInv_irq|by eapply sframe_irq| |done]. exact Hr.
Qed.

Lemma Stable_step J `{!ObjInv J} n c b s s' : Stable J n c b s -> sched_step s s' -> Stable J n c b s'.
Proof.
  intros [[Hs Hn Hnb Hg Ht] HJ] [Hi Hf Hr _].
  split; [split; try done|eapply (obj_stable s); [by eapply sframe_wframe|apply Hf..|done]].
  - by rewrite (sf_nested _ _ _ Hf).
  - eapply seg_trans; [exact Hg|by apply sframe_seg].
  - intros H0. destruct (Ht H0) as (Hc & Hrun & Hb). split_and!; [by rewrite (sf_current _ _ _ Hf)|auto|done].
Qed.

Lemma readied_step t th s s' :
  threads s !! t = Some th -> SInv s' -> readied t th s s' -> sched_step s s'.
Proof.
  intros E Hs Hr. split; [done|by eapply readied_frame|intros; by eapply readied_running|].
  by eapply readied_irq_locked.
Qed.

(** ** Priorities *)

Lemma current_ok_cache s s' : current_ok s -> cache_frame s s' -> current_ok s'.
Proof. intros Hc Hf. by eapply current_ok_frame. Qed.

(** The thread as it is after its priority was set; a ready thread goes behind the others of
    its new priority. *)
Definition requeued_prio (p : Z) (t : tid) (s s' : kstate) : Prop :=
  sched_step s s' /\ waitqs s' = waitqs s /\
  (forall u, u <> t -> threads s' !! u = threads s !! u) /\
  (forall th, threads s !! t = Some th -> threads s' !! t = Some (with_prio (s8 p) th) /\
     runq s' = if blocked th || active t s then runq s
               else z_priq_dumb_add (prio_of s') t (z_priq_dumb_remove t (runq s))).

(** What of this holds also when the priority was the same. *)
Definition reprio (p : Z) (t : tid) (s s' : kstate) : Prop :=
  sched_step s s' /\ waitqs s' = waitqs s /\
  (forall u, u <> t -> threads s' !! u = threads s !! u) /\
  (forall th, threads s !! t = Some th -> exists th', threads s' !! t = Some th' /\ prio th' = s8 p).

Lemma requeued_reprio p t s s' : requeued_prio p t s s' -> reprio p t s s'.
Proof. intros (Hs & Hw & Ho & Ht). split_and!; [done..|]. intros th E. destruct (Ht th E) as [E' _]. by eexists. Qed.

Lemma requeued th : st 7 th = true -> set_state_bits _THREAD_QUEUED (clear_state_bits _THREAD_QUEUED th) = th.
Proof.
  intros H7. destruct th as [po uo state p l d r e te eo nw]. unfold set_state_bits, clear_state_bits, with_thread_state. cbn.
  f_equal. change (Z.testbit state 7 = true) in H7. apply Z.bits_inj'. intros i Hi.
  rewrite Z.lor_spec, Z.land_spec, Z.lnot_spec by done. unfold _THREAD_QUEUED. rewrite testbit_BIT by lia.
  destruct (Z.eqb_spec i 7) as [-> |]; [by rewrite H7|]. by rewrite andb_true_r, orb_false_r.
Qed.

Lemma prio_frame p th : thread_frame th (with_prio p th).
Proof. split_and!; auto. Qed.

Lemma prio_blocked_spec s t th p :
  SInv s -> threads s !! t = Some th -> t <> z_idle_thread -> blocked th || active t s = true ->
  requeued_prio p t s (put_thread t (with_prio (s8 p) th) s).
Proof.
  intros (Hi & Hc & Hu) E Hid Hb. pose proof (ri_thread _ _ _ _ Hi E) as Hok.
  assert (Hrun : t ∉ runq s).
  { intros Hin. destruct (tok_runs _ _ _ _ Hok Hin) as (Hb' & Ha & _). by rewrite Hb', Ha in Hb. }
  assert (Hp : -128 <= s8 p < 128) by (apply (wrap_s_range 8 p); lia).
  split_and!; [|done| |].
  - split; [split; [|split]| | |done].
    + apply (RInv_data None s t th); try done; [by right|apply (tok_locked _ _ _ _ Hok)].
    + destruct Hc as [Hc|(Hc & Hin & Hpre)]; [by left|right]. split_and!; [done..|]. cbn.
      rewrite lookup_insert_ne; [done|congruence].
    + eapply current_ok_put; [done| |done]. done.
    + eapply sframe_put; try done; [apply prio_frame|by right].
    + intros Hr. refine (running_put s (put_thread t (with_prio (s8 p) th) s) t th (with_prio (s8 p) th) E eq_refl eq_refl _ Hr). done.
  - intros u Hne. cbn. by rewrite lookup_insert_ne.
  - intros th0 E0. assert (th0 = th) as -> by congruence. rewrite Hb. cbn. by rewrite lookup_insert_eq.
Qed.

(** The state between the two queue operations of [z_thread_prio_set]. *)
Lemma prio_ready_spec s t th p :
  SInv s -> threads s !! t = Some th -> t <> z_idle_thread -> blocked th = false -> active t s = false ->
  kwp (dequeue_thread t;; upd_thread t (with_prio (s8 p));; queue_thread t;; update_cache true) s
    (fun _ s' => requeued_prio p t s s').
Proof.
  intros (Hi & Hc & Hu) E Hid Hb Ha. pose proof (ri_thread _ _ _ _ Hi E) as Hok.
  assert (Hin : t ∈ runq s) by (by apply (tok_ready _ _ _ _ Hok)).
  assert (Hp : -128 <= s8 p < 128) by (apply (wrap_s_range 8 p); lia).
  destruct (dequeue_thread_spec None s t th) as [Hi1 Hk1]; [done|by left|done..|]. kstep. apply Hk1.
  set (th1 := clear_state_bits _THREAD_QUEUED th) in *. set (s1 := dequeue_st t th s) in *.
  assert (E1 : threads s1 !! t = Some th1) by apply lookup_insert_eq.
  assert (Hout : t ∉ runq s1) by (cbn; unfold z_priq_dumb_remove; rewrite elem_of_remove_elem; tauto).
  kstep. eapply kwp_upd_thread; [exact E1|]. set (th2 := with_prio (s8 p) th1). set (s2 := put_thread t th2 s1).
  assert (Hi2 : RInv (Some t) s2).
  { apply (RInv_data (Some t) s1 t th1); try done; [by right|apply (tok_locked _ _ _ _ Hok)]. }
  assert (E2 : threads s2 !! t = Some th2) by apply lookup_insert_eq.
  assert (Hb2 : blocked th2 = false).
  { change (blocked (clear_state_bits _THREAD_QUEUED th) = false). by bits_simpl. }
  destruct (queue_thread_spec (Some t) s2 t th2) as [Hi3 Hk3]; [done|by right|done..|]. kstep. apply Hk3.
  set (s3 := queue_st t th2 s2) in *. set (th3 := set_state_bits _THREAD_QUEUED th2).
  assert (Et3 : threads s3 = <[t := th3]> (threads s)).
  { change (threads s3) with (<[t := th3]> (<[t := th2]> (<[t := th1]> (threads s)))). by rewrite !insert_insert_eq. }
  assert (Hb3 : blocked th3 = false) by (unfold th3; by bits_simpl).
  assert (Hfth : thread_frame th th3).
  { apply (thread_frame_trans th th2); [apply (thread_frame_trans th th1)|apply queued_frame];
      [|apply prio_frame]. split_and!; try done; [by left|by unfold th1; rewrite dequeued_bits|].
    unfold wake_fine, th1. by rewrite !dequeued_bits. }
  eapply kwp_mono; [apply (update_cache_spec no_metairq true None); [done|done]|]. cbv beta.
  intros _ s4 (Hi4 & Hc4 & Hf4). assert (Et4 : threads s4 = <[t := th3]> (threads s)) by (by rewrite (cf_threads _ _ Hf4)).
  split_and!; [split| | |].
  - split; [done|split; [done|]]. eapply current_ok_frame; [exact Hf4|]. destruct Hu as [Hau Hu].
    split; [done|]. rewrite Et3. change (current s3) with (current s). destruct (decide (current s = t)) as [->|Hne].
    + rewrite lookup_insert_eq. intros _. right. by apply elem_of_dumb_add; left.
    + rewrite lookup_insert_ne by done. destruct (threads s !! current s); [|done].
      intros Hbc. destruct (Hu Hbc) as [|Hq]; [by left|right]. apply elem_of_dumb_add. right. cbn.
      unfold z_priq_dumb_remove. rewrite elem_of_remove_elem. split; [congruence|done].
  - eapply sframe_trans; [|by apply sframe_cache]. eapply sframe_put; try done. by right.
  - intros Hr. refine (running_put s s4 t th th3 E Et4 _ _ Hr); [apply Hf4|]. by rewrite Hb3.
  - by rewrite (cf_irq _ _ Hf4).
  - apply Hf4.
  - intros u Hne. rewrite Et4. by rewrite lookup_insert_ne.
  - intros th0 E0. assert (th0 = th) as -> by congruence. rewrite Hb, Ha, Et4, lookup_insert_eq. split.
    + f_equal. change th3 with (with_prio (s8 p) (set_state_bits _THREAD_QUEUED (clear_state_bits _THREAD_QUEUED th))).
      rewrite requeued; [done|]. rewrite (tok_queued _ _ _ _ Hok). by apply bool_decide_eq_true.
    + rewrite (cf_runq _ _ Hf4). change (runq s3) with (z_priq_dumb_add (prio_of s3) t (z_priq_dumb_remove t (runq s))).
      apply dumb_add_ext. intros u _. unfold prio_of. by rewrite (cf_threads _ _ Hf4).
Qed.

Lemma requeued_prio_lock p t s s' :
  requeued_prio p t (set_irq_locked true s) s' -> requeued_prio p t s (set_irq_locked (irq_locked s) s').
Proof. intros (Hs & Hw & Ho & Ht). split_and!; [by apply sched_step_lock|done..]. Qed.

Lemma prio_set_spec s t th p :
  SInv s -> threads s !! t = Some th -> t <> z_idle_thread ->
  kwp (z_thread_prio_set t p) s (fun r s' => requeued_prio p t s s' /\ r = negb (blocked th || active t s)).
Proof.
  intros Hs E Hid. unfold z_thread_prio_set. apply kwp_spinlock.
  set (s1 := set_irq_locked true s). assert (Hs1 : SInv s1) by (by apply SInv_irq).
  assert (E1 : threads s1 !! t = Some th) by done.
  eapply kwp_mono with (P := fun r s' => requeued_prio p t s1 s' /\ r = negb (blocked th || active t s)).
  - unfold z_is_thread_ready. ksteps. eapply kwp_get_thread; [exact E1|]. ksteps.
    rewrite prevented_blocked, timeout_active_active. change (active t s1) with (active t s).
    destruct (blocked th || active t s) eqn:Hb; cbn [negb].
    + eapply kwp_upd_thread; [exact E1|]. ksteps. split; [|done]. by apply prio_blocked_spec.
    + apply orb_false_iff in Hb as [Hb Ha].
      eapply kwp_mono; [by apply (prio_ready_spec s1 t th)|]. cbv beta. intros _ s2 Hs2. by ksteps.
  - cbv beta. intros r s2 [Hr ->]. split; [by apply requeued_prio_lock|done].
Qed.

(** ** Waking a thread whose timeout is gone *)

Lemma floating_state t s th th' :
  floating t s -> threads s !! t = Some th -> pended_on th' = pended_on th -> prio th' = prio th ->
  sched_locked th' = sched_locked th -> st 1 th' = st 1 th -> st 7 th' = st 7 th ->
  (blocked th = false -> blocked th' = false) -> t <> thread_dummy -> floating t (put_thread t th' s).
Proof.
  intros (Hi & Hc & Hu & Hid) E Epo Epr El H1 H7 Hb Hdu. pose proof (ri_thread _ _ _ _ Hi E) as Hok.
  split_and!; [| |by apply current_ok_but_put|done].
  - apply (RInv_state (Some t) s t th); try done; [by right|].
    intros Hin. apply Hb. by destruct (tok_runs _ _ _ _ Hok Hin).
  - eapply cache_ok_put; [done|by apply preemptible_eq|done].
Qed.

(** What becomes of the thread's fields. *)
Definition woken_thread (is_timeout : bool) (th : k_thread) : k_thread :=
  let th := with_no_wake_on_timeout false th in
  let th := if decide (pended_on th = None) then th else unpended th in
  let th := clear_state_bits _THREAD_PRESTART th in
  if is_timeout then clear_state_bits _THREAD_SUSPENDED th else th.

(** The state in which it is readied. *)
Definition woken_st (is_timeout : bool) (t : tid) (th : k_thread) (s : kstate) : kstate :=
  put_thread t (woken_thread is_timeout th)
    match pended_on th with
    | Some w => set_waitqs (<[w := z_priq_dumb_remove t (waitq s w)]> (waitqs s)) s
    | None => s
    end.

Lemma sched_wake_spec s t th is_timeout :
  floating t s -> threads s !! t = Some th -> t <> thread_dummy ->
  no_wake_on_timeout th && is_timeout = false -> st 3 th || st 5 th = false ->
  kwp (z_sched_wake_thread t is_timeout) s (fun _ s' =>
    floating t (woken_st is_timeout t th s) /\ SInv s' /\
    readied t (woken_thread is_timeout th) (woken_st is_timeout t th s) s').
Proof.
  intros Hf E Hdu Hnw Hk. unfold z_sched_wake_thread. apply kwp_spinlock.
  set (s0 := set_irq_locked true s). assert (Hf0 : floating t s0) by (by apply floating_irq).
  assert (E0 : threads s0 !! t = Some th) by done. ksteps. eapply kwp_get_thread; [exact E0|].
  rewrite is_killed_st, Hk, Hnw. ksteps. eapply kwp_upd_thread; [exact E0|].
  set (th1 := with_no_wake_on_timeout false th). set (s1 := put_thread t th1 s0).
  assert (Hf1 : floating t s1) by (by apply (floating_put t s0 th)).
  assert (E1 : threads s1 !! t = Some th1) by apply lookup_insert_eq. cbn [negb kwhen]. kstep.
  set (th2 := if decide (pended_on th1 = None) then th1 else unpended th1).
  set (sw := match pended_on th with
             | Some w => set_waitqs (<[w := z_priq_dumb_remove t (waitq s w)]> (waitqs s)) s | None => s end).
  set (s2 := put_thread t th2 (set_irq_locked true sw)).
  eapply kwp_mono with (P := fun _ s' => s' = s2 /\ floating t s2 ).
  { unfold s2, th2, sw. change (pended_on th1) with (pended_on th). destruct (pended_on th) as [w|] eqn:Ep; cbn [decide].
    - rewrite decide_False by done. destruct Hf1 as (Hi1 & Hc1 & Hu1 & Hid).
      destruct (unpend_thread_spec (Some t) s1 t th1 w) as (_ & _ & Hi2 & Hk2); [done|by right|done|done|].
      apply Hk2. assert (Heq : unpend_st t th1 w s1 = put_thread t (unpended th1) (set_irq_locked true
        (set_waitqs (<[w := z_priq_dumb_remove t (waitq s w)]> (waitqs s)) s))).
      { unfold unpend_st, s1, s0. cbn. by rewrite insert_insert_eq. }
      rewrite <- Heq. split; [done|]. split_and!; [done| | |done].
      + change (cache_ok (put_thread t (unpended th1) s1)). by eapply cache_ok_put.
      + change (current_ok_but t (put_thread t (unpended th1) s1)). by apply current_ok_but_put.
    - rewrite decide_True by done. by ksteps. }
  cbv beta. intros _ s2' [-> Hf2]. assert (E2 : threads s2 !! t = Some th2) by apply lookup_insert_eq. ksteps.
  unfold z_mark_thread_as_started, z_mark_thread_as_not_suspended. eapply kwp_upd_thread; [exact E2|].
  set (th3 := clear_state_bits _THREAD_PRESTART th2). ksteps.
  set (th4 := if is_timeout then clear_state_bits _THREAD_SUSPENDED th3 else th3).
  assert (Hf4 : floating t (put_thread t th4 s2)).
  { apply (floating_state t s2 th2); try done; unfold th4, th3; destruct is_timeout; try done; try by bits_simpl.
    - bits_simpl. rewrite !orb_false_iff. intros ((((-> & ->) & _) & ->) & _). done.
    - bits_simpl. rewrite !orb_false_iff. intros ((((-> & ->) & _) & ->) & ->). done. }
  eapply kwp_mono with (P := fun _ s' => s' = put_thread t th4 s2).
  { apply kwp_when; intros Hto; unfold th4; rewrite Hto; [|done].
    eapply kwp_upd_thread; [apply lookup_insert_eq|]. cbn [threads set_threads]. by rewrite insert_insert_eq. }
  cbv beta. intros _ s4 ->.
  assert (Heq4 : put_thread t th4 s2 = set_irq_locked true (woken_st is_timeout t th s)).
  { unfold woken_st, s2. change (woken_thread is_timeout th) with th4. fold sw. cbn. by rewrite insert_insert_eq. }
  eapply kwp_mono; [apply (floating_ready_spec no_metairq _ t th4); [exact Hf4|apply lookup_insert_eq]|]. cbv beta.
  intros _ s' [Hs' Hr']. rewrite Heq4 in Hr', Hf4. split_and!.
  - apply (floating_irq (irq_locked s)) in Hf4. unfold woken_st in *. by destruct (pended_on th), s.
  - by apply SInv_irq.
  - eapply readied_irq; [exact Hr'|]. unfold woken_st. by destruct (pended_on th).
Qed.
End ThreadOps.
