(* ===== verification/ThreadApi.v ===== *)
(** * The thread API (kernel/sched.c, kernel/thread.c)

    Starting, resuming, waking, yielding, sleeping, locking the scheduler and
    priorities: each call runs without a failed assertion, keeps the invariants of the
    scheduler and of the kernel's objects and gives the guarantee of [SchedOps] to the
    other threads, and does to its thread what the call promises. *)

From S2P Require Import Prelude TimeUnits Timeout PriorityQ KState KLogic Sched SchedInv SchedOps Switch ThreadOps.

Local Open Scope Z_scope.

(** ** Effects on one thread *)

(** Nothing but the thread [t] changes, which becomes related by [P] to what it was.  A
    switch sets the return value of the running thread, which is left open. *)
Definition thread_effect (P : kstate -> kstate -> k_thread -> k_thread -> Prop) (t : tid) (s s' : kstate) : Prop :=
  objs s' = objs s /\ mem s' = mem s /\
  (forall u, u <> t -> u <> current s -> threads s' !! u = threads s !! u) /\
  (t <> current s -> but_retval <$> threads s' !! current s = but_retval <$> threads s !! current s) /\
  (forall th, threads s !! t = Some th -> exists th' th1, P s s' th th' /\ threads s' !! t = Some th1 /\
     (th1 = th' \/ t = current s /\ but_retval th1 = but_retval th')).

(** Such relations see of the state after the call what a switch leaves alone. *)
Class ThreadRel (P : kstate -> kstate -> k_thread -> k_thread -> Prop) := {
  rel_view : forall s s1 s2 th th', same_view (current s) s1 s2 -> P s s1 th th' -> P s s2 th th'
}.

#[export] Instance thread_effect_ok P t : ThreadRel P -> Effect (thread_effect P t).
Proof.
  intros HP. constructor. intros s s1 s2 Hv (Ho & Hm & Hu & Hc & Ht). split_and!.
  - by rewrite (sv_objs _ _ _ Hv).
  - by rewrite (sv_mem _ _ _ Hv).
  - intros u Hne Hcu. rewrite (sv_threads _ _ _ Hv u Hcu). auto.
  - intros Hne. rewrite (sv_self _ _ _ Hv). auto.
  - intros th E. destruct (Ht th E) as (th' & th1 & HP' & E1 & Hth). exists th'.
    destruct (decide (t = current s)) as [->|Hne].
    + pose proof (sv_self _ _ _ Hv) as Hself. rewrite E1 in Hself. destruct (threads s2 !! current s) as [th2|]; [|done].
      apply (inj Some) in Hself. exists th2. split_and!; [by eapply rel_view|done|]. right. split; [done|].
      destruct Hth as [->|[_ Hth]]; congruence.
    + exists th1. rewrite (sv_threads _ _ _ Hv t Hne). split_and!; [by eapply rel_view|done..].
Qed.

Lemma thread_effect_intro (P : kstate -> kstate -> k_thread -> k_thread -> Prop) s s' t th th' :
  objs s' = objs s -> mem s' = mem s -> (forall u, u <> t -> threads s' !! u = threads s !! u) ->
  threads s !! t = Some th -> threads s' !! t = Some th' -> P s s' th th' -> thread_effect P t s s'.
Proof.
  intros Ho Hm Hu E E' HP. split_and!; [done..|by intros; apply Hu|intros Hne; by rewrite Hu|].
  intros th0 E0. assert (th0 = th) as -> by congruence. exists th', th'. split_and!; [done..|by left].
Qed.

Lemma thread_effect_mono (P P' : kstate -> kstate -> k_thread -> k_thread -> Prop) s s' t :
  (forall th th', threads s !! t = Some th -> P s s' th th' -> P' s s' th th') ->
  thread_effect P t s s' -> thread_effect P' t s s'.
Proof.
  intros HP (Ho & Hm & Hu & Hc & Ht). split_and!; [done..|]. intros th E. destruct (Ht th E) as (th' & th1 & H1 & H2).
  exists th', th1. split; [by apply HP|done].
Qed.

(** The state bits [bits] are cleared, and the thread is queued if it is ready. *)
Definition cleared (bits : Z) (th : k_thread) : k_thread := clear_state_bits bits th.
Definition released (bits : Z) (t : tid) (s s' : kstate) (th th' : k_thread) : Prop :=
  th' = (if st 7 th || blocked (cleared bits th) || active t s' then cleared bits th
         else set_state_bits _THREAD_QUEUED (cleared bits th)).

#[export] Instance released_ok bits t : ThreadRel (released bits t).
Proof. constructor. intros s s1 s2 th th' Hv. unfold released. by rewrite (sv_active _ _ _ _ Hv). Qed.

Section ThreadApi.
Context `{KConfig}.
Hypothesis no_metairq : CONFIG_NUM_METAIRQ_PRIORITIES = 0.
Context (J : kstate -> Prop) `{!ObjInv J}.
Context (n : Z) (c : tid).
Implicit Types (b : stretch) (s : kstate) (t u : tid) (th : k_thread) (w : wqid).

(** A thread other than the two the kernel keeps for itself. *)
Definition ordinary (t : tid) : Prop := t <> z_idle_thread /\ t <> thread_dummy.

Lemma RInv_weaken s t : RInv None s -> RInv (Some t) s.
Proof.
  intros []. split; try done. intros u th E. destruct (ri_threads u th E). by split; auto.
Qed.

Lemma SInv_floating s t : SInv s -> t <> z_idle_thread -> floating t s.
Proof. intros (Hi & Hc & Hu) Hid. split_and!; [by apply RInv_weaken|done|by apply current_ok_weaken|done]. Qed.

(** ** Releasing a thread *)

(** Clearing one of the bits that keep a thread from running. *)
Definition waking_bits (bits : Z) : Prop := bits = _THREAD_PRESTART \/ bits = _THREAD_SUSPENDED.

Lemma cleared_frame bits th : waking_bits bits -> thread_frame th (cleared bits th).
Proof.
  intros [-> | ->]; (split_and!; [done|done|by left|unfold cleared; by bits_simpl|unfold cleared, wake_fine; by bits_simpl]).
Qed.

Lemma release_spec s0 s t th bits :
  floating t s -> sframe s0 s -> (running s0 -> running s) -> irq_locked s = irq_locked s0 ->
  threads s !! t = Some th -> t <> thread_dummy -> waking_bits bits ->
  kwp (ready_thread t) (put_thread t (cleared bits th) s) (fun _ s' =>
    sched_step s0 s' /\ released bits t s s' th (default th (threads s' !! t)) /\
    is_Some (threads s' !! t) /\ active t s' = active t s /\ waitqs s' = waitqs s /\
    (forall u, u <> t -> threads s' !! u = threads s !! u)).
Proof.
  intros Hf Hfr Hrun Hirq E Hdu Hbits. set (th1 := cleared bits th). set (s1 := put_thread t th1 s).
  assert (Hb : blocked th = false -> blocked th1 = false).
  { unfold th1, cleared. destruct Hbits as [-> | ->]; bits_simpl;
      by destruct (st 0 th), (st 1 th), (st 2 th), (st 3 th), (st 4 th). }
  assert (H7 : st 7 th1 = st 7 th) by (unfold th1, cleared; destruct Hbits as [-> | ->]; by bits_simpl).
  assert (Hf1 : floating t s1).
  { apply (floating_state t s th); try done. unfold th1, cleared; destruct Hbits as [-> | ->]; by bits_simpl. }
  assert (E1 : threads s1 !! t = Some th1) by apply lookup_insert_eq.
  eapply kwp_mono; [by apply (floating_ready_spec no_metairq s1 t th1)|]. cbv beta. intros _ s' [Hs' Hr'].
  assert (Hfr1 : sframe s s1) by (eapply sframe_put; try done; [by apply cleared_frame|by right]).
  destruct (readied_threads _ _ _ _ E1 Hr') as [Hu Ht].
  assert (Ha : active t s' = active t s).
  { revert Hr'. unfold readied. destruct (_ || _ || _); [by intros ->|]. intros Hcf. by rewrite (cf_active _ _ _ Hcf). }
  split_and!.
  - split; [done| | |].
    + eapply sframe_trans; [exact Hfr|]. eapply sframe_trans; [exact Hfr1|]. by eapply readied_frame.
    + intros Hr. eapply readied_running; [done..|]. refine (running_put s s1 t th th1 E eq_refl eq_refl _ _); auto.
    + rewrite (readied_irq_locked _ _ _ _ Hr'). done.
  - unfold released. rewrite Ha. fold th1. revert Hr'. unfold readied. rewrite H7. change (active t s1) with (active t s).
    destruct (_ || _ || _); [intros ->; by rewrite E1|]. intros Hcf. rewrite (cf_threads _ _ Hcf). cbn.
    by rewrite lookup_insert_eq.
  - destruct Ht as [-> | ->]; eauto.
  - done.
  - by rewrite (readied_waitqs _ _ _ _ Hr').
  - intros u Hne. rewrite Hu by done. unfold s1. cbn. by rewrite lookup_insert_ne.
Qed.

Lemma step_effect (P : kstate -> kstate -> k_thread -> k_thread -> Prop) s0 s s' t th th' :
  sched_step s s' -> threads s = threads s0 -> objs s = objs s0 -> mem s = mem s0 -> current s = current s0 ->
  (forall u, u <> t -> threads s' !! u = threads s !! u) -> threads s !! t = Some th -> threads s' !! t = Some th' ->
  P s0 s' th th' -> thread_effect P t s0 s'.
Proof.
  intros [_ Hf _ _] Et Eo Em Ec Hu E E' HP. apply (thread_effect_intro P s0 s' t th th'); try done.
  - by rewrite (sf_objs _ _ _ Hf).
  - by rewrite (sf_mem _ _ _ Hf).
  - intros u Hne. rewrite Hu, Et by done. done.
  - by rewrite <- Et.
Qed.

(** The common end of the calls that release a thread. *)
Lemma release_call_spec V `{!Effect V} b s t th bits key :
  Stable J n c b s -> threads s !! t = Some th -> ordinary t -> waking_bits bits ->
  (forall s', active t s' = active t s -> thread_effect (released bits t) t s s' -> effect V b s') ->
  mwp (Guar J V) (Rely J c) b
    (lift (upd_thread t (clear_state_bits bits));; lift (ready_thread t);; z_reschedule Lock_sched key) s
    (fun b' _ s' => Stable J n c b' s' /\ effect V b' s' /\ rescheduled n b' s').
Proof.
  intros Hs E [Hid Hdu] Hbits HV. ksteps. eapply kwp_upd_thread; [exact E|]. ksteps.
  eapply kwp_mono; [apply (release_spec s s t th bits); try done; [by apply SInv_floating; [apply Hs|]|apply sframe_refl]|].
  cbv beta. intros _ s' (Hst & Hrel & [th' E'] & Hact & _ & Hu). rewrite E' in Hrel.
  eapply mwp_mono; [apply (reschedule_spec J V); [by eapply (Stable_step J)|]|].
  - apply HV; [done|by eapply (step_effect _ s)].
  - cbv beta. intros b' _ s'' (? & ? & _ & _ & ?). done.
Qed.

(** ** Starting and resuming *)

(** A thread is released from [bits], unless they are not set. *)
Definition release_effect (bits : Z) (t : tid) (s s' : kstate) (th th' : k_thread) : Prop :=
  if Z.land (thread_state th) bits =? 0 then th' = th else released bits t s s' th th'.

#[export] Instance release_effect_ok bits t : ThreadRel (release_effect bits t).
Proof. constructor. intros s s1 s2 th th' Hv. unfold release_effect. case_match; [done|]. by apply rel_view. Qed.

Lemma thread_effect_none P t th s0 s s' :
  threads s = threads s0 -> objs s = objs s0 -> mem s = mem s0 -> threads s' = threads s -> objs s' = objs s -> mem s' = mem s ->
  threads s !! t = Some th -> P s0 s' th th -> thread_effect P t s0 s'.
Proof.
  intros Et Eo Em Et' Eo' Em' E HP. by apply (thread_effect_intro P s0 s' t th th); try congruence.
Qed.

Lemma release_if_spec b s t th bits key cond :
  is_first b = true -> began b = s -> Stable J n c b s -> threads s !! t = Some th -> ordinary t -> waking_bits bits ->
  cond = (Z.land (thread_state th) bits =? 0) ->
  let V := thread_effect (release_effect bits t) t in
  mwp (Guar J V) (Rely J c) b
    (if (cond : bool) then lift (k_spin_unlock key)
     else lift (upd_thread t (clear_state_bits bits));; lift (ready_thread t);; z_reschedule Lock_sched key)
    (set_irq_locked true s) (fun b' _ s' => Stable J n c b' s' /\ effect V b' s' /\ (cond = false -> rescheduled n b' s')).
Proof.
  intros Hf Hb Hs E Ho Hbits Hcond V. set (s1 := set_irq_locked true s).
  assert (Hs1 : Stable J n c b s1) by (by apply (Stable_irq J)). destruct cond.
  - unfold k_spin_unlock, arch_irq_unlock. ksteps. split_and!; [by apply (Stable_irq J)| |done]. intros _. rewrite Hb.
    eapply (thread_effect_none _ t th s s1); try done. unfold release_effect. by rewrite <- Hcond.
  - eapply mwp_mono; [apply (release_call_spec V b s1 t th bits); try done|by intros b' _ s' (? & ? & ?)].
    intros s' _ He _. rewrite Hb. change s1 with (set_irq_locked true s) in He. revert He.
    apply (thread_effect_mono (released bits t) (release_effect bits t) s s'). intros th0 th' E0 HP.
    assert (th0 = th) as -> by congruence. unfold release_effect. rewrite <- Hcond. exact HP.
Qed.

Lemma k_thread_start_spec b s t th :
  is_first b = true -> began b = s -> Stable J n c b s -> threads s !! t = Some th -> ordinary t ->
  let V := thread_effect (release_effect _THREAD_PRESTART t) t in
  mwp (Guar J V) (Rely J c) b (z_impl_k_thread_start t) s (fun b' _ s' =>
    Stable J n c b' s' /\ effect V b' s' /\ (z_has_thread_started th = false -> rescheduled n b' s')).
Proof.
  intros Hf Hb Hs E Ho V. unfold z_impl_k_thread_start, z_sched_start, k_spin_lock, arch_irq_lock. ksteps.
  eapply kwp_get_thread; [exact E|]. apply (release_if_spec b s t th); try done. by left.
Qed.

Lemma k_thread_resume_spec b s t th :
  is_first b = true -> began b = s -> Stable J n c b s -> threads s !! t = Some th -> ordinary t ->
  let V := thread_effect (release_effect _THREAD_SUSPENDED t) t in
  mwp (Guar J V) (Rely J c) b (z_impl_k_thread_resume t) s (fun b' _ s' =>
    Stable J n c b' s' /\ effect V b' s' /\ (z_is_thread_suspended th = true -> rescheduled n b' s')).
Proof.
  intros Hf Hb Hs E Ho V. unfold z_impl_k_thread_resume, k_spin_lock, arch_irq_lock. ksteps.
  eapply kwp_get_thread; [exact E|]. eapply mwp_mono; [apply (release_if_spec b s t th _THREAD_SUSPENDED); try done; [by right|]|].
  - unfold z_is_thread_suspended. by rewrite negb_involutive.
  - intros b' _ s' (? & ? & Hre). split_and!; [done..|]. intros Hsu. apply Hre. by rewrite Hsu.
Qed.

(** ** Waking *)

Lemma abort_floating s t th :
  SInv s -> threads s !! t = Some th -> t <> z_idle_thread ->
  floating t (abort_st t s) /\ sframe s (abort_st t s) /\ active t (abort_st t s) = false.
Proof.
  intros (Hi & Hc & Hu) E Hid. destruct (abort_timeout_spec None s t th) as (Hi1 & _); [done|by left|done|].
  pose proof (fun u => abort_st_active None s t u Hi) as Ha. split_and!.
  - split_and!; [done|done| |done]. destruct Hu as [Hau Hu]. split; [rewrite Ha; by case_decide|].
    intros Hne. split; [rewrite Ha; by case_decide|done].
  - by eapply abort_st_frame.
  - rewrite Ha. by rewrite decide_True.
Qed.

Lemma abort_st_inactive s t : active t s = false -> abort_st t s = s.
Proof.
  unfold active, abort_st, z_abort_timeout. intros ->. by destruct s.
Qed.

(** A sleeping or suspended thread that waits for nothing is released. *)
Definition can_wake (t : tid) (s : kstate) (th : k_thread) : bool :=
  negb (z_is_thread_pending th) && (active t s || (thread_state th =? _THREAD_SUSPENDED)).
Definition wakeup_effect (t : tid) (s s' : kstate) (th th' : k_thread) : Prop :=
  if can_wake t s th then active t s' = false /\ released _THREAD_SUSPENDED t s s' th th' else th' = th.

#[export] Instance wakeup_effect_ok t : ThreadRel (wakeup_effect t).
Proof.
  constructor. intros s s1 s2 th th' Hv. unfold wakeup_effect. case_match; [|done].
  rewrite (sv_active _ _ _ _ Hv). intros [? ?]. split; [done|by eapply rel_view].
Qed.

Lemma k_wakeup_spec b s t th :
  is_first b = true -> began b = s -> Stable J n c b s -> threads s !! t = Some th -> ordinary t ->
  let V := thread_effect (wakeup_effect t) t in
  mwp (Guar J V) (Rely J c) b (z_impl_k_wakeup t) s (fun b' _ s' =>
    Stable J n c b' s' /\ effect V b' s' /\ (can_wake t s th = true -> rescheduled n b' s')).
Proof.
  intros Hf Hb Hs E [Hid Hdu] V. unfold z_impl_k_wakeup. ksteps. eapply kwp_get_thread; [exact E|].
  destruct (z_is_thread_pending th) eqn:Hp.
  { assert (Hcan : can_wake t s th = false) by (unfold can_wake; by rewrite Hp).
    ksteps. split_and!; [done| |congruence]. intros _. rewrite Hb. eapply (thread_effect_none _ t th s s); try done.
    unfold wakeup_effect. by rewrite Hcan. }
  destruct (abort_timeout_spec None s t th) as (_ & _ & Hk); [apply Hs|by left|done|]. ksteps. apply Hk. ksteps.
  eapply kwp_get_thread; [exact E|].
  destruct (abort_floating s t th) as (Hfl & Hfr & Hna); [apply Hs|done..|].
  replace ((if active t s then 0 else - EINVAL) <? 0) with (negb (active t s)) by (by destruct (active t s)).
  destruct (negb (active t s) && negb (thread_state th =? _THREAD_SUSPENDED)) eqn:Hn.
  - ksteps. apply andb_true_iff in Hn as [Hn Hst]. apply negb_true_iff in Hn. rewrite abort_st_inactive by done.
    assert (Hcan : can_wake t s th = false) by (apply negb_true_iff in Hst; unfold can_wake; by rewrite Hp, Hn, Hst).
    split_and!; [done| |congruence]. intros _. rewrite Hb. eapply (thread_effect_none _ t th s s); try done.
    unfold wakeup_effect. by rewrite Hcan.
  - unfold k_spin_lock, arch_irq_lock, z_mark_thread_as_not_suspended. ksteps.
    eapply kwp_upd_thread; [exact E|]. unfold thread_active_elsewhere. ksteps.
    eapply kwp_mono; [apply (release_spec (set_irq_locked true s) (set_irq_locked true (abort_st t s)) t th _THREAD_SUSPENDED);
      try done; [by apply floating_irq|by destruct Hfr; split|by right]|].
    cbv beta. intros _ s' (Hst & Hrel & [th' E'] & Hact & _ & Hu). rewrite E' in Hrel. cbn [default from_option id] in Hrel.
    assert (Hs' : Stable J n c b s') by (eapply (Stable_step J); [|exact Hst]; by apply (Stable_irq J)).
    assert (HV : forall i, V s (set_irq_locked i s')).
    { intros i. apply (thread_effect_intro _ s _ t th th'); try done;
        [apply (sf_objs _ _ _ (ss_frame _ _ Hst))|apply (sf_mem _ _ _ (ss_frame _ _ Hst))|].
      assert (Hcan : can_wake t s th = true).
      { unfold can_wake. rewrite Hp. by destruct (active t s), (thread_state th =? _THREAD_SUSPENDED). }
      unfold wakeup_effect. rewrite Hcan. split; [|exact Hrel]. by change (active t s' = false); rewrite Hact. }
    unfold arch_is_in_isr. ksteps. destruct (negb (nested s' =? 0)) eqn:Hnest.
    + unfold k_spin_unlock, arch_irq_unlock. ksteps. split_and!; [by apply (Stable_irq J)|intros _; by rewrite Hb|].
      intros _ _ _ H0. by rewrite (so_nested _ _ _ _ Hs'), H0 in Hnest.
    + eapply mwp_mono; [apply (reschedule_spec J V); [exact Hs'|]|].
      * intros _. rewrite Hb. specialize (HV (irq_locked s')). by replace (set_irq_locked (irq_locked s') s') with s' in HV by (by destruct s').
      * cbv beta. intros b' _ s'' (? & ? & _ & _ & ?). done.
Qed.

(** ** Priorities *)

(** The priority changes and no other field; a ready thread goes behind the others of its new
    priority. *)
Definition prio_effect (p : Z) (t : tid) (s s' : kstate) (th th' : k_thread) : Prop :=
  th' = with_prio (s8 p) th /\
  runq s' = if blocked th || active t s then runq s
            else z_priq_dumb_add (prio_of s') t (z_priq_dumb_remove t (runq s)).

#[export] Instance prio_effect_ok p t : ThreadRel (prio_effect p t).
Proof.
  constructor. intros s s1 s2 th th' Hv [-> Hr]. split; [done|]. rewrite (sv_runq _ _ _ Hv), Hr. case_match; [done|].
  apply dumb_add_ext. intros u _. symmetry. apply (sv_prio _ _ _ Hv).
Qed.

Lemma k_thread_priority_set_spec b s t th p :
  n = 0 -> is_first b = true -> began b = s -> Stable J n c b s -> threads s !! t = Some th -> t <> z_idle_thread ->
  Z_VALID_PRIO p = true ->
  let V := thread_effect (prio_effect p t) t in
  mwp (Guar J V) (Rely J c) b (z_impl_k_thread_priority_set t p) s (fun b' _ s' =>
    Stable J n c b' s' /\ effect V b' s' /\
    (blocked th || active t s = false -> sched_locked <$> threads s !! c = Some 0 -> rescheduled n b' s')).
Proof.
  intros H0 Hf Hb Hs E Hid Hp V. unfold z_impl_k_thread_priority_set, arch_is_in_isr. ksteps.
  apply kwp_assert; [done|]. ksteps. apply kwp_assert; [by rewrite (so_nested _ _ _ _ Hs), H0|]. ksteps.
  eapply kwp_mono; [by apply (prio_set_spec no_metairq s t th); [apply Hs|..]|].
  cbv beta. intros r s1 [(Hst & Hw & Hu & Ht) ->]. destruct (Ht th E) as [E' HP].
  pose proof (Stable_step J n c b s s1 Hs Hst) as Hs1.
  assert (HV : effect V b s1) by (intros _; rewrite Hb; by eapply (step_effect _ s)).
  ksteps. destruct (ri_current _ _ (proj1 (so_inv _ _ _ _ Hs1))) as [cth Ec].
  eapply kwp_get_thread; [exact Ec|]. destruct (_ && _) eqn:Hre.
  - eapply mwp_mono; [by apply (reschedule_unlocked_spec J V)|]. by intros b' _ s' (? & ? & ?).
  - ksteps. split_and!; [done..|]. intros Hrd Hl. exfalso. rewrite Hrd in Hre. cbn [negb andb] in Hre.
    destruct (so_thread _ _ _ _ Hs H0) as (Hc & _). destruct (so_thread _ _ _ _ Hs1 H0) as (Hc1 & _). rewrite Hc1 in Ec.
    apply Z.eqb_neq in Hre. apply Hre. destruct (decide (c = t)) as [->|Hne].
    + rewrite E' in Ec. injection Ec as <-. rewrite E in Hl. by injection Hl.
    + rewrite Hu in Ec by done. rewrite Ec in Hl. by injection Hl.
Qed.

(** ** Locking the scheduler *)

(** The running thread changes its lock count; the choice of the next thread may be
    out of date after that. *)
Lemma put_locked_spec b s th l :
  Stable J n c b s -> n = 0 -> threads s !! c = Some th -> c <> z_idle_thread -> 0 <= l < 256 ->
  let s' := put_thread c (with_sched_locked l th) s in
  RInv None s' /\ current_ok s' /\ seg c s s' /\ running s' /\ J s'.
Proof.
  intros [[(Hi & Hc & Hu) Hn Hnb Hseg Ht] HJ] H0 E Hid Hl s'. destruct (Ht H0) as (Hcu & Hr & _).
  pose proof (ri_thread _ _ _ _ Hi E) as Hok. split_and!.
  - apply (RInv_data None s c th); try done; [by left|apply (tok_prio _ _ _ _ Hok)].
  - eapply current_ok_put; [done| |done]. done.
  - by apply (seg_self c s th).
  - refine (running_put s s' c th _ E eq_refl eq_refl _ Hr). done.
  - eapply (obj_stable s); [|done..]. by apply (wframe_self s c th).
Qed.

Lemma locked_not_preemptible th l : l <> 0 -> 0 <= l < 256 -> thread_is_preemptible (with_sched_locked l th) = false.
Proof.
  intros Hl Hr. unfold thread_is_preemptible, preempt, _PREEMPT_THRESHOLD. cbn [sched_locked prio with_sched_locked].
  apply Z.leb_gt. pose proof (Z.mod_pos_bound (prio th) 256). lia.
Qed.

Lemma k_sched_lock_spec b s th :
  n = 0 -> Stable J n c b s -> threads s !! c = Some th -> c <> z_idle_thread -> sched_locked th <> 1 ->
  kwp k_sched_lock s (fun _ s' => Stable J n c b s' /\
    exists th', threads s' !! c = Some th' /\ sched_locked th' = u8 (sched_locked th - 1) /\
      thread_is_preemptible th' = false).
Proof.
  intros H0 Hs E Hid Hl. unfold k_sched_lock. apply kwp_spinlock. unfold z_sched_lock, arch_is_in_isr. ksteps.
  set (s1 := set_irq_locked true s). assert (Hs1 : Stable J n c b s1) by (by apply (Stable_irq J)).
  apply kwp_assert; [by rewrite (so_nested _ _ _ _ Hs1), H0|]. ksteps.
  destruct (so_thread _ _ _ _ Hs1 H0) as (Hc & Hr & Hcb). rewrite Hc. assert (E1 : threads s1 !! c = Some th) by done.
  eapply kwp_get_thread; [exact E1|]. ksteps. apply kwp_assert; [by apply negb_true_iff, Z.eqb_neq|]. ksteps.
  eapply kwp_upd_thread; [exact E1|].
  pose proof (tok_locked _ _ _ _ (ri_thread _ _ _ _ (proj1 (so_inv _ _ _ _ Hs1)) E1)) as Hlr.
  assert (Hlu : 0 <= u8 (sched_locked th - 1) < 256) by (apply (wrap_u_range 8); lia).
  assert (Hnz : u8 (sched_locked th - 1) <> 0).
  { destruct (decide (sched_locked th = 0)) as [-> |]; [done|]. rewrite wrap_u_small by lia. lia. }
  destruct (put_locked_spec b s1 th (u8 (sched_locked th - 1)) Hs1 H0 E1 Hid Hlu) as (Hi & Hu & Hseg & Hr' & HJ).
  pose proof (locked_not_preemptible th _ Hnz Hlu) as Hnp. set (th' := with_sched_locked _ th) in *.
  split.
  - apply (Stable_irq J). destruct Hs1 as [[(Hi1 & Hc1 & Hu1) Hn Hnb Hsg Ht] _]. split; [split; try done|done].
    + split; [done|split; [|done]]. destruct Hc1 as [Hc1|(Hc1 & Hin & _)]; [by left|right]. split; [done|split; [done|]].
      cbn. change (current s) with (current s1). rewrite Hc, lookup_insert_eq. cbn. by rewrite Hnp.
    + eapply seg_trans; [exact Hsg|]. rewrite (thread_mode _ _ H0). exact Hseg.
  - exists th'. split; [apply lookup_insert_eq|done].
Qed.

Lemma k_sched_unlock_spec b s th V `{!Effect V} :
  n = 0 -> Stable J n c b s -> threads s !! c = Some th -> c <> z_idle_thread -> sched_locked th <> 0 ->
  (forall s', threads s' = <[c := with_sched_locked (u8 (sched_locked th + 1)) th]> (threads s) -> objs s' = objs s ->
     mem s' = mem s -> effect V b s') ->
  mwp (Guar J V) (Rely J c) b k_sched_unlock s (fun b' _ s' => Stable J n c b' s' /\ effect V b' s').
Proof.
  intros H0 Hs E Hid Hl HV. unfold k_sched_unlock. kstep. apply mwp_lift, kwp_spinlock. ksteps.
  set (s1 := set_irq_locked true s). assert (Hs1 : Stable J n c b s1) by (by apply (Stable_irq J)).
  destruct (so_thread _ _ _ _ Hs1 H0) as (Hc & Hr & Hcb). rewrite Hc. assert (E1 : threads s1 !! c = Some th) by done.
  eapply kwp_get_thread; [exact E1|]. ksteps. apply kwp_assert; [by apply negb_true_iff, Z.eqb_neq|]. ksteps.
  apply kwp_assert; [by rewrite (so_nested _ _ _ _ Hs1), H0|]. ksteps. eapply kwp_upd_thread; [exact E1|].
  assert (Hlu : 0 <= u8 (sched_locked th + 1) < 256) by (apply (wrap_u_range 8); lia).
  destruct (put_locked_spec b s1 th (u8 (sched_locked th + 1)) Hs1 H0 E1 Hid Hlu) as (Hi & Hu & Hseg & Hr' & HJ).
  set (s2 := put_thread c _ s1) in *. eapply kwp_mono; [by apply (update_cache_spec no_metairq false None)|].
  cbv beta. intros _ s3 (Hi3 & Hc3 & Hf3).
  assert (Hs3 : Stable J n c b s3).
  { destruct Hs1 as [[_ Hn Hnb Hsg Ht] _]. split; [split; try done|].
    - split; [done|split; [done|by eapply current_ok_frame]].
    - by rewrite (cf_nested _ _ Hf3).
    - eapply seg_trans; [exact Hsg|]. rewrite (thread_mode _ _ H0). eapply seg_trans; [exact Hseg|].
      apply seg_ext; [apply Hf3..|]. intros u. by rewrite (cf_active _ _ _ Hf3).
    - intros _. split_and!; [by rewrite (cf_current _ _ Hf3)| |done]. unfold running.
      by rewrite (cf_current _ _ Hf3), (cf_threads _ _ Hf3).
    - eapply (obj_stable s2); [|apply Hf3..|done]. apply wframe_ext; apply Hf3. }
  eapply mwp_mono; [apply (reschedule_unlocked_spec J V); [by apply (Stable_irq J)|]|by intros ? ? ? (? & ? & _)].
  apply HV; cbn; [by rewrite (cf_threads _ _ Hf3)|by rewrite (cf_objs _ _ Hf3)|by rewrite (cf_mem _ _ Hf3)].
Qed.

(** ** Yielding *)

(** A switch that may find no better thread to run. *)
Lemma swap_stable_spec V `{!Effect V} b s key lock isp :
  n = 0 -> Stable J n c b s -> effect V b s ->
  mwp (Guar J V) (Rely J c) b (do_swap key lock isp) s (fun b' _ s' => Stable J n c b' s' /\ effect V b' s').
Proof.
  intros H0 Hs HV. destruct (so_thread _ _ _ _ Hs H0) as (Hc & Hr & Hcb).
  destruct (ri_current _ _ (proj1 (so_inv _ _ _ _ Hs))) as [th E].
  destruct (decide (cache s = current s)) as [Hca|Hca].
  - unfold do_swap, z_swap_next_thread, k_spin_lock, arch_irq_lock. ksteps. eapply kwp_upd_thread; [exact E|].
    rewrite Hc in E, Hca |- *. assert (Hs1 : Stable J n c b (put_thread c (with_swap_retval (- EAGAIN) th) s))
      by (by apply (Stable_put_self J n c b s th)).
    assert (HV1 : forall i, effect V b (set_irq_locked i (put_thread c (with_swap_retval (- EAGAIN) th) s))).
    { intros i Hfi. eapply effect_view; [|by apply HV]. rewrite Hcb. split; try done.
      - intros u. by eapply (prio_of_insert s _ c th).
      - intros u Hu. cbn. by rewrite lookup_insert_ne.
      - cbn. by rewrite lookup_insert_eq, E. }
    ksteps. apply kwp_when; intros _; ksteps; rewrite decide_True by done; ksteps;
      (eapply kwp_get_thread; [change (current s) with (current (put_thread c (with_swap_retval (- EAGAIN) th) s)); cbn;
         rewrite Hc; apply lookup_insert_eq|]);
      ksteps; (split; [by repeat apply (Stable_irq J)|apply HV1]).
  - eapply mwp_mono; [rewrite <- Hc; apply (do_swap_spec J V b s th); try done|].
    + split; apply Hs.
    + apply Hs.
    + rewrite (so_nested _ _ _ _ Hs). done.
    + rewrite (so_began _ _ _ _ Hs). done.
    + by rewrite Hc.
    + rewrite Hc, <- (thread_mode n c H0). apply Hs.
    + cbv beta. intros b' r s' (s0 & th' & _ & _ & _ & [[HR _] _] & Hf & -> & _ & _). rewrite Hc in HR.
      destruct b' as [f b']; cbn in *. subst f. split; [by eapply (Rely_Stable J n c)|done].
Qed.

(** The running thread goes behind the others of its priority; nothing else changes. *)
Definition yield_effect (s s' : kstate) : Prop :=
  runq s' = z_priq_dumb_add (prio_of s) (current s) (z_priq_dumb_remove (current s) (runq s)) /\
  objs s' = objs s /\ mem s' = mem s /\ (forall w, waitq s' w = waitq s w) /\
  (forall u, u <> current s -> threads s' !! u = threads s !! u).

#[export] Instance yield_effect_ok : Effect yield_effect.
Proof.
  constructor. intros s s1 s2 Hv (Hr & Ho & Hm & Hw & Ht). split_and!.
  - by rewrite (sv_runq _ _ _ Hv).
  - by rewrite (sv_objs _ _ _ Hv).
  - by rewrite (sv_mem _ _ _ Hv).
  - intros w. unfold waitq. rewrite (sv_waitqs _ _ _ Hv). apply Hw.
  - intros u Hu. rewrite (sv_threads _ _ _ Hv u Hu). auto.
Qed.

Lemma requeue_spec s t th :
  SInv s -> threads s !! t = Some th -> t ∈ runq s ->
  kwp (dequeue_thread t;; queue_thread t) s (fun _ s2 => current s2 = current s /\ kwp (update_cache true) s2 (fun _ s' =>
    sched_step s s' /\ waitqs s' = waitqs s /\ threads s' = threads s /\
    runq s' = z_priq_dumb_add (prio_of s) t (z_priq_dumb_remove t (runq s)) /\
    same_clock (tq s) (tq s') /\ thread_deadlines (tq s') = thread_deadlines (tq s))).
Proof.
  intros (Hi & Hc & Hu) E Hin. pose proof (ri_thread _ _ _ _ Hi E) as Hok.
  destruct (tok_runs _ _ _ _ Hok Hin) as (Hb & Ha & Hid).
  destruct (dequeue_thread_spec None s t th) as [Hi1 Hk1]; [done|by left|done..|]. kstep. apply Hk1.
  set (th1 := clear_state_bits _THREAD_QUEUED th) in *. set (s1 := dequeue_st t th s) in *.
  assert (Hb1 : blocked th1 = false) by (unfold th1; by bits_simpl).
  destruct (queue_thread_spec (Some t) s1 t th1) as [Hi2 Hk2]; [done|by right|apply lookup_insert_eq| |done..|].
  { cbn. unfold z_priq_dumb_remove. rewrite elem_of_remove_elem. tauto. }
  apply Hk2. split; [done|]. set (s2 := queue_st t th1 s1) in *.
  assert (Et2 : threads s2 = threads s).
  { change (threads s2) with (<[t := set_state_bits _THREAD_QUEUED th1]> (<[t := th1]> (threads s))).
    rewrite insert_insert_eq. apply insert_id. rewrite E. f_equal. symmetry. apply requeued.
    rewrite (tok_queued _ _ _ _ Hok). by apply bool_decide_eq_true. }
  eapply kwp_mono; [apply (update_cache_spec no_metairq true None); [done|done]|]. cbv beta.
  intros _ s3 (Hi3 & Hc3 & Hf3).
  assert (Hcur : current_ok s2).
  { destruct Hu as [Hau Hu]. split; [done|]. rewrite Et2. change (current s2) with (current s).
    destruct (threads s !! current s); [|done]. intros Hbc. destruct (Hu Hbc) as [|Hq]; [by left|right].
    apply elem_of_dumb_add. destruct (decide (current s = t)) as [->|]; [by left|right].
    cbn. unfold z_priq_dumb_remove. by rewrite elem_of_remove_elem. }
  split_and!.
  - split; [split; [done|split; [done|by eapply current_ok_frame]]| | |].
    + eapply sframe_trans; [|by apply sframe_cache]. eapply (sframe_put _ s s2 t th th); try done;
        [by rewrite Et2, insert_id|apply thread_frame_refl|by right].
    + intros Hr. unfold running. by rewrite (cf_current _ _ Hf3), (cf_threads _ _ Hf3), Et2.
    + by rewrite (cf_irq _ _ Hf3).
  - by rewrite (cf_waitqs _ _ Hf3).
  - by rewrite (cf_threads _ _ Hf3).
  - rewrite (cf_runq _ _ Hf3). change (runq s2) with (z_priq_dumb_add (prio_of s2) t (z_priq_dumb_remove t (runq s))).
    apply dumb_add_ext. intros u _. unfold prio_of. by rewrite Et2.
  - apply (cf_clock _ _ Hf3).
  - apply (cf_deadlines _ _ Hf3).
Qed.

Lemma k_yield_spec b s :
  n = 0 -> is_first b = true -> began b = s -> Stable J n c b s -> c <> z_idle_thread ->
  mwp (Guar J yield_effect) (Rely J c) b z_impl_k_yield s (fun b' _ s' => Stable J n c b' s' /\ effect yield_effect b' s').
Proof.
  intros H0 Hf Hb Hs Hid. destruct (so_thread _ _ _ _ Hs H0) as (Hc & Hr & _).
  destruct (ri_current _ _ (proj1 (so_inv _ _ _ _ Hs))) as [th E].
  destruct (running_facts _ _ (so_inv _ _ _ _ Hs) Hr E) as (Hbl & _).
  assert (Hin : current s ∈ runq s).
  { destruct (so_inv _ _ _ _ Hs) as (_ & _ & _ & Hu). rewrite E in Hu. destruct (Hu Hbl); [congruence|done]. }
  unfold z_impl_k_yield, k_spin_lock, arch_irq_lock, arch_is_in_isr. ksteps.
  apply kwp_assert; [by rewrite (so_nested _ _ _ _ Hs), H0|]. ksteps.
  set (s1 := set_irq_locked true s). assert (Hs1 : Stable J n c b s1) by (by apply (Stable_irq J)).
  change (current s1) with (current s).
  pose proof (requeue_spec s1 (current s) th (so_inv _ _ _ _ Hs1) E Hin) as Hq.
  eapply kwp_mono; [exact (kwp_unbind _ _ _ _ Hq)|]. cbv beta. intros _ s2 Hq2. ksteps.
  eapply kwp_mono; [exact Hq2|]. cbv beta. intros _ s3 [_ Hq3]. ksteps.
  eapply kwp_mono; [exact Hq3|]. cbv beta. intros _ s4 (Hst & Ew & Et & Er & _). kstep.
  eapply mwp_mono; [apply (swap_stable_spec yield_effect b s4); [done|by eapply (Stable_step J)|]|].
  - intros _. rewrite Hb. split_and!; [done|apply (sf_objs _ _ _ (ss_frame _ _ Hst))|
      apply (sf_mem _ _ _ (ss_frame _ _ Hst))|by intros w; unfold waitq; rewrite Ew|by rewrite Et].
  - cbv beta. intros b' _ s' Hs'. by ksteps.
Qed.

(** ** Giving up the CPU for good *)

(** The caller took itself out of the ready queue, from [s] to [s1]. *)
Lemma off_swap_spec V `{!Effect V} b s s1 key lock isp :
  n = 0 -> Stable J n c b s -> c <> z_idle_thread -> QInv s1 -> (c ∉ runq s1) -> seg c s s1 -> J s1 ->
  nested s1 = nested s -> current s1 = current s -> effect V b s1 ->
  mwp (Guar J V) (Rely J c) b (do_swap key lock isp) s1 (fun b' _ s' =>
    Stable J n c b' s' /\ is_first b' = false /\ dead s1 c = false).
Proof.
  intros H0 Hs Hid HQ Hout Hseg HJ En Ec HV. destruct (so_thread _ _ _ _ Hs H0) as (Hc & Hr & Hcb).
  destruct (ri_current _ _ (proj1 HQ)) as [th E].
  eapply mwp_mono; [assert (Hc1 : current s1 = c) by congruence; rewrite <- Hc1; apply (do_swap_spec J V b s1 th); try done|].
  - by rewrite En, (so_nested _ _ _ _ Hs).
  - by rewrite (so_began _ _ _ _ Hs).
  - congruence.
  - rewrite Hc1. eapply seg_trans; [|exact Hseg]. rewrite <- (thread_mode n c H0). apply Hs.
  - destruct HQ as [_ [Hca|(_ & Hin & _)]]; [|by rewrite Hc1 in Hin]. rewrite Hca, Hc1.
    destruct (runq s1) as [|t q] eqn:Eq; cbn; [done|]. intros ->. apply Hout. left.
  - cbv beta. intros b' r s' (s0 & th' & E0 & _ & _ & [[HR _] _] & Hf & -> & E' & ->). destruct b' as [f b']; cbn in *. subst f.
    rewrite Ec, Hc in *. split; [by eapply (Rely_Stable J n c)|]. split; [done|].
    destruct HR as (Hs' & Hr' & _ & _ & Hc' & [_ Hd _ _ _]). destruct (dead s1 c) eqn:Hdead; [|done].
    assert (Hd0 : dead s0 c = true) by (unfold dead in *; rewrite E0; by rewrite E in Hdead).
    apply Hd in Hd0. unfold dead in Hd0. rewrite E' in Hd0. unfold running in Hr'. rewrite Hc', E' in Hr'.
    change (Some (blocked th') = Some false) in Hr'. change (st 3 th' = true) in Hd0. injection Hr' as Hr'.
    unfold blocked in Hr'. by rewrite Hd0, orb_true_r in Hr'.
Qed.

(** ** Sleeping *)

(** The caller waits, suspended and off all queues, for its deadline. *)
Definition sleep_effect (ticks : Z) (s s' : kstate) : Prop :=
  thread_deadlines (tq s') ≡ₚ
    (TN_thread (current s), fn_z_thread_timeout, timeout_dticks ticks (tq s)) :: thread_deadlines (tq s) /\
  (current s ∉ runq s') /\ objs s' = objs s /\ mem s' = mem s /\ (forall w, waitq s' w = waitq s w) /\
  (forall u, u <> current s -> threads s' !! u = threads s !! u) /\
  exists th', threads s' !! current s = Some th' /\ st 4 th' = true.

#[export] Instance sleep_effect_ok ticks : Effect (sleep_effect ticks).
Proof.
  constructor. intros s s1 s2 Hv (Hd & Hr & Ho & Hm & Hw & Ht & th' & E' & H4). split_and!.
  - by rewrite (sv_deadlines _ _ _ Hv).
  - by rewrite (sv_runq _ _ _ Hv).
  - by rewrite (sv_objs _ _ _ Hv).
  - by rewrite (sv_mem _ _ _ Hv).
  - intros w. unfold waitq. rewrite (sv_waitqs _ _ _ Hv). apply Hw.
  - intros u Hu. rewrite (sv_threads _ _ _ Hv u Hu). auto.
  - pose proof (sv_self _ _ _ Hv) as Hself. rewrite E' in Hself. destruct (threads s2 !! current s) as [th2|]; [|done].
    apply (inj Some) in Hself. exists th2. split; [done|]. change (st 4 (but_retval th2) = true). by rewrite Hself.
Qed.

Lemma insert_deadline_perm x (l : list deadline) : insert_deadline x l ≡ₚ x :: l.
Proof.
  induction l as [|y l IH]; cbn; [done|]. destruct (_ <? _); [done|]. rewrite IH. constructor.
Qed.

Lemma timed_deadlines t timeout s s' :
  timed_st t timeout s s' ->
  thread_deadlines (tq s') ≡ₚ (TN_thread t, fn_z_thread_timeout, timeout_dticks timeout (tq s)) :: thread_deadlines (tq s).
Proof.
  intros (q & -> & _ & Hd). cbn. unfold thread_deadlines. rewrite Hd, insert_deadline_perm, filter_cons_True; done.
Qed.

Lemma dticks_clock timeout q q' : same_clock q q' -> timeout_dticks timeout q' = timeout_dticks timeout q.
Proof. intros (E1 & E2 & E3). unfold timeout_dticks, elapsed. by rewrite E1, E2, E3. Qed.

(** The running thread changes itself and its timeout. *)
Lemma seg_self_tq x s s' th th' :
  threads s !! x = Some th -> threads s' = <[x := th']> (threads s) -> objs s' = objs s ->
  (forall u, u <> x -> active u s' = active u s) -> (st 3 th = true -> st 3 th' = true) -> seg x s s'.
Proof.
  intros E Et Eo Ha Hd. split; unfold owns; rewrite ?Eo.
  - intros u Hu thu Eu. exists thu. rewrite Et, lookup_insert_ne, Ha by done. eauto 10.
  - intros u. unfold dead. rewrite Et. destruct (decide (u = x)) as [->|]; [|by rewrite lookup_insert_ne].
    by rewrite lookup_insert_eq, E.
  - intros a o Eo'. exists o. split; [done|apply same_kind_refl].
  - done.
  - intros a o u _ Ho _. by left.
Qed.

(** The steps of [z_tick_sleep] up to the switch. *)
Lemma sleep_off_spec s th ticks :
  SInv s -> running s -> threads s !! current s = Some th -> current s <> z_idle_thread -> valid_timeout ticks ->
  wake_fine th = true ->
  kwp (unready_thread (current s);; z_add_thread_timeout (current s) ticks;; z_mark_thread_as_suspended (current s)) s
    (fun _ s' => QInv s' /\ sleep_effect ticks s s' /\ seg (current s) s s' /\ wframe s s' /\
       nested s' = nested s /\ current s' = current s /\ irq_locked s' = irq_locked s).
Proof.
  intros Hs Hr E Hid Hv Hwk. destruct (running_facts _ _ Hs Hr E) as (Hbl & Hpn & Hdu & Ha).
  destruct Hs as (Hi & Hc & Hu). kstep. eapply kwp_mono; [by apply (unready_current_spec no_metairq s th)|]. cbv beta.
  intros _ s1 (Hi1 & Hc1 & Hr1 & Hf1 & Ei1 & Ew1 & Ed1 & Hk1 & Ho1 & th1 & E1 & P1 & Po1 & D1 & S1 & K1).
  assert (Hcu1 : current s1 = current s) by apply Hf1.
  assert (Ha1 : active (current s) s1 = false) by (unfold active in *; by rewrite linked_deadlines, Ed1, <- linked_deadlines).
  kstep. eapply kwp_mono; [by apply (add_timeout_spec (Some (current s)) s1 (current s) th1); [|right|..]|].
  cbv beta. intros _ s2 [Hi2 Ht2]. pose proof (timed_deadlines _ _ _ _ Ht2) as Hd2. destruct Ht2 as (q & -> & Hsc & Hdl).
  set (s2 := set_tq q s1) in *. assert (E2 : threads s2 !! current s = Some th1) by done.
  set (th3 := set_state_bits _THREAD_SUSPENDED th1). set (s3 := put_thread (current s) th3 s2).
  eapply kwp_upd_thread; [exact E2|]. fold th3 s3.
  assert (Hi3 : RInv None s3).
  { apply (RInv_settle (current s)); [|intros th0 E0 Hb0; exfalso].
    - apply (RInv_state None s2 (current s) th1); try done; [by left|unfold th3; by bits_simpl..].
    - unfold s3 in E0. cbn in E0. rewrite lookup_insert_eq in E0. injection E0 as <-. revert Hb0. unfold th3. by bits_simpl. }
  split_and!.
  - split; [done|]. destruct Hc1 as [Hc1|(_ & Hin & _)]; [by left|]. by rewrite Hcu1 in Hin.
  - split_and!; [|done|apply Hf1..| | |].
    + change (thread_deadlines (tq s3)) with (thread_deadlines (tq s2)). rewrite Hd2, Ed1. by rewrite (dticks_clock _ (tq s)).
    + intros w. change (waitq s3 w) with (waitq s1 w). unfold waitq. by rewrite Ew1.
    + intros u Hne. cbn. rewrite lookup_insert_ne by done. by apply Ho1.
    + exists th3. split; [apply lookup_insert_eq|]. unfold th3. by bits_simpl.
  - eapply seg_trans; [by apply sframe_seg|]. eapply (seg_self_tq _ s1 s3 th1 th3); try done.
    + intros u Hne. change (active u s3) with (active u (set_tq q s1)). by eapply active_insert_other.
    + unfold th3. by bits_simpl.
  - eapply wframe_trans; [by eapply sframe_wframe|]. eapply (wframe_put s1 s3 (current s) th1 th3); try done.
    + intros w Hin. destruct (ri_waitq_thread None s3 w (current s) Hi3 Hin) as (th0 & E0 & Hp0 & _).
      cbn in E0. rewrite lookup_insert_eq in E0. injection E0 as <-. change (pended_on th1 = Some w) in Hp0. congruence.
    + unfold wake_fine, th3. by bits_simpl.
  - apply Hf1.
  - done.
  - done.
Qed.

Definition tick_sleep_effect (ticks : Z) : kstate -> kstate -> Prop :=
  if ticks =? 0 then yield_effect else sleep_effect ticks.

#[export] Instance tick_sleep_effect_ok ticks : Effect (tick_sleep_effect ticks).
Proof. unfold tick_sleep_effect. case_match; apply _. Qed.

Lemma Stable_pending b s v : Stable J n c b s -> Stable J n c b (set_pending_current v s).
Proof.
  intros [[(Hi & Hc & Hu) Hn Hnb Hseg Ht] HJ]. split; [split; try done|].
  - split; [by eapply RInv_ext; [..|exact Hi]|done].
  - eapply seg_trans; [exact Hseg|]. by apply seg_ext.
  - eapply (obj_stable s); [by apply wframe_ext|done..].
Qed.

(** The tick at which a sleep is to end. *)
Definition wakeup_ticks (ticks : Z) (q : timeout_q) : Z :=
  if Z_TICK_ABS ticks <=? 0 then u32 (ticks + sys_clock_tick_get_32 q) else u32 (Z_TICK_ABS ticks).

(** What is left of a sleep until [expected]. *)
Definition ticks_left (expected : Z) (q : timeout_q) : Z :=
  if expected - sys_clock_tick_get_32 q >? 0 then s32 (expected - sys_clock_tick_get_32 q) else 0.

(** [z_tick_sleep] from the point where the caller leaves the ready queue. *)
Lemma sleep_swap_spec V `{!Effect V} b s ticks key expected :
  n = 0 -> Stable J n c b s -> c <> z_idle_thread -> valid_timeout ticks ->
  (forall s', sleep_effect ticks s s' -> effect V b s') ->
  mwp (Guar J V) (Rely J c) b
    (lift (unready_thread c);; lift (z_add_thread_timeout c ticks);; lift (z_mark_thread_as_suspended c);;
     _ ← z_swap Lock_sched key;
     curr ← lift (kget current);
     th ← lift (get_thread curr);
     lift (kassert (negb (z_is_thread_state_set th _THREAD_SUSPENDED)));;
     now ← lift (kget (fun s => sys_clock_tick_get_32 (tq s)));
     let ticks := expected - now in
     mret (if ticks >? 0 then s32 ticks else 0)) s
    (fun b' r s' => Stable J n c b' s' /\ effect V b' s' /\ is_first b' = false /\
       r = ticks_left expected (tq s')).
Proof.
  intros H0 Hs Hid Hv HV. destruct (so_thread _ _ _ _ Hs H0) as (Hc & Hr & _). assert (Hid' : current s <> z_idle_thread) by (by rewrite Hc).
  destruct (ri_current _ _ (proj1 (so_inv _ _ _ _ Hs))) as [th E].
  pose proof (obj_wake _ (so_obj _ _ _ _ _ Hs) _ _ E) as Hwk.
  pose proof (sleep_off_spec s th ticks (so_inv _ _ _ _ Hs) Hr E Hid' Hv Hwk) as Hq. rewrite Hc in Hq. ksteps.
  eapply kwp_mono; [exact (kwp_unbind _ _ _ _ Hq)|]. cbv beta. intros _ s1 Hq1. ksteps.
  eapply kwp_mono; [exact (kwp_unbind _ _ _ _ Hq1)|]. cbv beta. intros _ s2 Hq2. ksteps.
  eapply kwp_mono; [exact Hq2|]. cbv beta. intros _ s3 (HQ & He & Hseg & Hwf & En & Ec & Ei). kstep.
  eapply mwp_mono; [apply (off_swap_spec V b s s3); try done; [rewrite <- Hc; apply He| |congruence|by apply HV]|].
  { eapply (obj_stable s); [done|apply He..|apply Hs]. }
  cbv beta. intros b' _ s' (Hs' & Hf' & _). ksteps. destruct (so_thread _ _ _ _ Hs' H0) as (Hc' & Hr' & _).
  destruct (ri_current _ _ (proj1 (so_inv _ _ _ _ Hs'))) as [th' E'].
  eapply kwp_get_thread; [exact E'|]. ksteps. destruct (running_facts _ _ (so_inv _ _ _ _ Hs') Hr' E') as (Hbl & _).
  apply kwp_assert.
  { change (negb (z_is_thread_suspended th') = true). rewrite is_suspended_st. unfold blocked in Hbl. rewrite !orb_false_iff in Hbl.
    by destruct Hbl as [_ ->]. }
  ksteps. split_and!; [done| |done|done]. intros Hf1. congruence.
Qed.

Lemma z_tick_sleep_spec b s ticks :
  n = 0 -> is_first b = true -> began b = s -> Stable J n c b s -> c <> z_idle_thread -> valid_timeout ticks ->
  let V := tick_sleep_effect ticks in
  mwp (Guar J V) (Rely J c) b (z_tick_sleep ticks) s (fun b' r s' => Stable J n c b' s' /\ effect V b' s' /\
    if ticks =? 0 then r = 0 else is_first b' = false /\ r = ticks_left (wakeup_ticks ticks (tq s)) (tq s')).
Proof.
  intros H0 Hf Hb Hs Hid Hv V. unfold z_tick_sleep, arch_is_in_isr. ksteps.
  apply kwp_assert; [by rewrite (so_nested _ _ _ _ Hs), H0|]. unfold V, tick_sleep_effect.
  destruct (ticks =? 0) eqn:Ht0.
  { ksteps. eapply mwp_mono; [by apply k_yield_spec|]. cbv beta. intros b' _ s' [? ?]. by ksteps. }
  unfold k_spin_lock, arch_irq_lock. ksteps. destruct (so_thread _ _ _ _ Hs H0) as (Hc & _).
  change (current (set_irq_locked true s)) with (current s). rewrite Hc.
  apply kwp_when; intros _; [kstep|];
    (eapply mwp_mono; [apply (sleep_swap_spec (sleep_effect ticks)); [done|try apply Stable_pending; by apply (Stable_irq J)|done..|];
      intros s' He _; rewrite Hb; exact He|done]).
Qed.
End ThreadApi.
