(* ===== verification/Halt.v ===== *)
(** * Halting threads: suspend, abort and join (kernel/sched.c)

    [halt_thread] takes a thread out of the ready queue and, to abort it, out of its
    wait queue and off the clock, and wakes the threads that join it. *)

From S2P Require Import Prelude TimeUnits Timeout PriorityQ KState KLogic Sched SchedInv SchedOps Switch ThreadOps ThreadApi.

Local Open Scope Z_scope.

Section Halt.
Context `{KConfig}.
Hypothesis no_metairq : CONFIG_NUM_METAIRQ_PRIORITIES = 0.
Implicit Types (b : stretch) (s : kstate) (t u c : tid) (th : k_thread) (w : wqid).

(** ** Off the ready queue *)

Definition halt_bits (bits : Z) : Prop := bits = _THREAD_DEAD \/ bits = _THREAD_SUSPENDED.

Definition off_thread (bits : Z) (th : k_thread) : k_thread :=
  if st 7 th then clear_state_bits _THREAD_QUEUED (set_state_bits bits th) else set_state_bits bits th.
Definition off_st (bits : Z) (t : tid) (th : k_thread) (s : kstate) : kstate :=
  put_thread t (off_thread bits th) (set_runq (z_priq_dumb_remove t (runq s)) s).

Lemma off_bits bits th m :
  halt_bits bits -> 0 <= m ->
  st m (off_thread bits th) =
    if m =? 7 then false else st m th || (if decide (bits = _THREAD_DEAD) then m =? 3 else m =? 4).
Proof.
  intros Hb Hm. unfold off_thread.
  assert (Hx : st m (set_state_bits bits th) = st m th || (if decide (bits = _THREAD_DEAD) then m =? 3 else m =? 4)).
  { destruct Hb as [-> | ->]; [rewrite decide_True by done|rewrite decide_False by done]; by bits_simpl. }
  destruct (st 7 th) eqn:H7.
  - unfold _THREAD_QUEUED. rewrite st_clear, Hx by lia. destruct (m =? 7); [apply andb_false_r|apply andb_true_r].
  - rewrite Hx. destruct (Z.eqb_spec m 7) as [-> |]; [|done]. rewrite H7. by case_decide.
Qed.

Lemma off_blocked bits th : halt_bits bits -> blocked (off_thread bits th) = true.
Proof.
  intros Hb. unfold blocked. rewrite !off_bits by done. cbn. destruct Hb as [-> | ->].
  - by rewrite decide_True, !orb_true_r.
  - by rewrite decide_False, !orb_true_r.
Qed.

Lemma off_fields bits th :
  pended_on (off_thread bits th) = pended_on th /\ prio (off_thread bits th) = prio th /\
  sched_locked (off_thread bits th) = sched_locked th /\ waiter_data (off_thread bits th) = waiter_data th /\
  swap_retval (off_thread bits th) = swap_retval th /\ no_wake_on_timeout (off_thread bits th) = no_wake_on_timeout th.
Proof. unfold off_thread. by destruct (st 7 th). Qed.

Lemma RInv_off x bits s t th :
  RInv x s -> (x = None \/ x = Some t) -> threads s !! t = Some th -> ordinary t -> halt_bits bits ->
  RInv None (off_st bits t th s).
Proof.
  intros Hi Hx E [Hid Hdu] Hb. pose proof (ri_thread _ _ _ _ Hi E) as Hok. pose proof (off_fields bits th) as (Ep & Epr & El & _).
  assert (Hp : forall u, prio_of (off_st bits t th s) u = prio_of s u) by (by eapply prio_of_insert).
  apply (RInv_update x None s (off_st bits t th s) t (off_thread bits th)); [done|eauto| | |naive_solver|done|done].
  - eapply update_ok_queues; try done.
    + apply NoDup_remove_elem, (ri_nodup x s Hi).
    + eapply prio_sorted_prio; [exact Hp|]. apply dumb_remove_sorted, (ri_sorted x s Hi).
    + intros u Hne. cbn. unfold z_priq_dumb_remove. rewrite elem_of_remove_elem. tauto.
  - assert (Hout : t ∉ runq (off_st bits t th s))
      by (cbn; unfold z_priq_dumb_remove; rewrite elem_of_remove_elem; tauto).
    destruct Hok. split; try done.
    + by rewrite off_bits, bool_decide_false by done.
    + by rewrite off_blocked.
    + by rewrite Ep.
    + rewrite off_bits, Ep by done. cbn [Z.eqb Pos.eqb].
      assert (Hz : (if decide (bits = _THREAD_DEAD) then false else false) = false) by (by destruct (decide (bits = _THREAD_DEAD))).
      by rewrite Hz, orb_false_r.
    + by rewrite Epr.
    + by rewrite El.
Qed.

(** The first steps of [halt_thread]. *)
Lemma mark_off_spec {A} x bits s t th (f : k_thread -> K A) Q :
  RInv x s -> (x = None \/ x = Some t) -> threads s !! t = Some th -> ordinary t -> halt_bits bits ->
  kwp (f (set_state_bits bits th)) (off_st bits t th s) Q ->
  kwp (upd_thread t (set_state_bits bits);;
       th ← get_thread t; kwhen (z_is_thread_queued th) (dequeue_thread t);; f th) s Q.
Proof.
  intros Hi Hx E [Hid Hdu] Hb HQ. pose proof (ri_thread _ _ _ _ Hi E) as Hok. kstep. eapply kwp_upd_thread; [done|].
  ksteps. eapply kwp_get_thread; [apply lookup_insert_eq|]. ksteps. rewrite is_queued_st.
  replace (st 7 (set_state_bits bits th)) with (st 7 th) by (destruct Hb as [-> | ->]; by bits_simpl).
  pose proof (tok_queued _ _ _ _ Hok) as Hq. unfold off_st, off_thread in HQ. destruct (st 7 th); symmetry in Hq.
  - apply bool_decide_eq_true in Hq. unfold kwhen, dequeue_thread. kstep. eapply kwp_upd_thread; [apply lookup_insert_eq|].
    unfold should_queue_thread, kwhen, runq_remove, z_is_idle_thread_object. ksteps.
    apply kwp_assert; [by rewrite bool_decide_false|]. ksteps. apply kwp_assert; [by rewrite bool_decide_true|]. ksteps.
    cbn in HQ |- *. by rewrite insert_insert_eq.
  - apply bool_decide_eq_false in Hq. unfold kwhen. ksteps.
    replace (z_priq_dumb_remove t (runq s)) with (runq s) in HQ by (symmetry; by apply remove_elem_notin).
    by destruct s.
Qed.

(** ** Off every queue *)

Definition dead_thread (th : k_thread) : k_thread :=
  let th := off_thread _THREAD_DEAD th in if decide (pended_on th = None) then th else unpended th.

(** The state in which the thread is dead and nothing refers to it. *)
Definition gone_st (t : tid) (th : k_thread) (s : kstate) : kstate :=
  let s1 := off_st _THREAD_DEAD t th s in
  abort_st t match pended_on th with
             | Some w => unpend_st t (off_thread _THREAD_DEAD th) w s1
             | None => s1
             end.

Lemma sframe_dead_weaken t s s' :
  sframe_but (Some t) s s' -> (forall th', threads s' !! t = Some th' -> st 3 th' = true) -> sframe s s'.
Proof.
  intros Hf Hd. destruct Hf. split; try done. intros u th th' E E' _ Hp Hn.
  destruct (decide (u = t)) as [->|]; [right; auto|]. apply (sf_unpend u th th'); congruence.
Qed.

Lemma dead_thread_fields th :
  pended_on (dead_thread th) = None /\ (forall m, 0 <= m -> m <> 1 -> m <> 7 -> st m (dead_thread th) = st m th || (m =? 3)) /\
  blocked (dead_thread th) = true /\ st 7 (dead_thread th) = false /\ prio (dead_thread th) = prio th /\
  thread_frame th (dead_thread th).
Proof.
  pose proof (off_fields _THREAD_DEAD th) as (Ep & Epr & El & Ed & Er & Enw).
  assert (Hb : forall m, 0 <= m -> m <> 1 -> st m (dead_thread th) = if m =? 7 then false else st m th || (m =? 3)).
  { intros m Hm H1. unfold dead_thread. cbv zeta.
    assert (Hbits := off_bits _THREAD_DEAD th m (or_introl eq_refl) Hm). rewrite decide_True in Hbits by done.
    case_decide; [by rewrite Hbits|]. unfold unpended. change (st m (with_pended_on None ?x)) with (st m x).
    unfold _THREAD_PENDING. rewrite st_clear, Hbits by lia. by rewrite (proj2 (Z.eqb_neq m 1)), andb_true_r. }
  assert (Hp : pended_on (dead_thread th) = None) by (unfold dead_thread; by case_decide).
  assert (H3 : st 3 (dead_thread th) = true) by (rewrite Hb by done; apply orb_true_r).
  split_and!; [done| |unfold blocked; by rewrite H3, orb_true_r|by rewrite Hb| |].
  - intros m Hm H1 H7. rewrite Hb by done. by rewrite (proj2 (Z.eqb_neq m 7)).
  - unfold dead_thread. case_decide; done.
  - split_and!; [unfold dead_thread; by case_decide|unfold dead_thread; by case_decide|by right|done|].
    unfold wake_fine. rewrite Hp, !Hb by done. cbn [Z.eqb Pos.eqb]. rewrite (bool_decide_false (@None wqid <> None)) by (intros Hx; by apply Hx).
    replace (no_wake_on_timeout (dead_thread th)) with (no_wake_on_timeout th) by (unfold dead_thread; by case_decide).
    rewrite orb_false_r, andb_false_r, andb_true_r. intros Hw. apply andb_true_iff in Hw as [-> _]. done.
Qed.

(** Leaving the wait queue. *)
Lemma gone_unpend x s t th :
  RInv x s -> (x = None \/ x = Some t) -> threads s !! t = Some th -> ordinary t ->
  let s1 := off_st _THREAD_DEAD t th s in
  let s2 := match pended_on th with Some w => unpend_st t (off_thread _THREAD_DEAD th) w s1 | None => s1 end in
  RInv (Some t) s2 /\ threads s2 = <[t := dead_thread th]> (threads s) /\
  (forall w, waitq s2 w = remove_elem t (waitq s w)) /\
  (forall Q : unit -> kstate -> Prop, Q tt s2 ->
     kwp (match pended_on th with Some _ => unpend_thread_no_timeout t | None => mret tt end) s1 Q).
Proof.
  intros Hi Hx E Ho s1 s2. assert (Hb : halt_bits _THREAD_DEAD) by by left.
  pose proof (RInv_off x _ s t th Hi Hx E Ho Hb) as Hi1. pose proof (off_fields _THREAD_DEAD th) as (Ep & _).
  assert (E1 : threads s1 !! t = Some (off_thread _THREAD_DEAD th)) by apply lookup_insert_eq.
  assert (Hnot : forall w, pended_on th <> Some w -> remove_elem t (waitq s w) = waitq s w).
  { intros w Hw. apply remove_elem_notin. intros Hin. destruct (ri_waitq_thread _ _ _ _ Hi Hin) as (th0 & E0 & Hp0 & _). congruence. }
  unfold s2, dead_thread. cbv zeta. rewrite Ep. destruct (pended_on th) as [w|] eqn:Epo.
  - rewrite decide_False by done. destruct (unpend_thread_spec None s1 t _ w Hi1 (or_introl eq_refl) E1 Ep) as (_ & _ & Hi2 & Hk).
    split_and!; [done| | |intros Q HQ; by apply Hk].
    + cbn. by rewrite insert_insert_eq.
    + intros w'. rewrite unpend_st_waitq. case_decide as Hw; [by subst|]. rewrite Hnot by congruence. done.
  - rewrite decide_True by done. split_and!; [by apply RInv_weaken|done| |done]. intros w. by rewrite Hnot.
Qed.

Lemma gone_spec x s t th :
  RInv x s -> (x = None \/ x = Some t) -> threads s !! t = Some th -> ordinary t -> current_ok_but t s ->
  RInv None (gone_st t th s) /\ threads (gone_st t th s) = <[t := dead_thread th]> (threads s) /\
  current_ok (gone_st t th s) /\ sframe s (gone_st t th s) /\ active t (gone_st t th s) = false /\ (t ∉ runq (gone_st t th s)) /\
  (forall w, waitq (gone_st t th s) w = remove_elem t (waitq s w)) /\
  forall A (Q : A -> kstate -> Prop) (m : K A), kwp m (gone_st t th s) Q ->
    kwp (match pended_on th with Some _ => unpend_thread_no_timeout t | None => mret tt end;;
         _ ← z_abort_thread_timeout t; m) (off_st _THREAD_DEAD t th s) Q.
Proof.
  intros Hi Hx E Ho Hu. destruct (gone_unpend x s t th Hi Hx E Ho) as (Hi2 & Et2 & Ew2 & Hk2).
  set (s1 := off_st _THREAD_DEAD t th s) in *. unfold gone_st. cbv zeta. fold s1.
  set (s2 := match pended_on th with Some w => unpend_st t (off_thread _THREAD_DEAD th) w s1 | None => s1 end) in *.
  destruct (dead_thread_fields th) as (Hp & Hbits & Hbl & H7 & Hpr & Hfr).
  assert (E2 : threads s2 !! t = Some (dead_thread th)) by (by rewrite Et2, lookup_insert_eq).
  destruct (abort_timeout_spec (Some t) s2 t (dead_thread th)) as (Hi3 & _ & Hk3); [done|by right|done|].
  assert (Hrest : objs s2 = objs s /\ mem s2 = mem s /\ nested s2 = nested s /\ current s2 = current s /\ tq s2 = tq s /\
    runq s2 = z_priq_dumb_remove t (runq s)) by (unfold s2; by destruct (pended_on th)).
  destruct Hrest as (Eo & Em & En & Ec & Eq & Er).
  assert (Ha : forall u, active u (abort_st t s2) = if decide (u = t) then false else active u s).
  { intros u. rewrite (abort_st_active (Some t) s2 t u Hi2). unfold active. by rewrite Eq. }
  split_and!.
  - apply (RInv_settle t); [done|]. intros th0 E0 Hb0. cbn in E0. congruence.
  - exact Et2.
  - destruct Hu as [Hau Hu]. split; [change (current (abort_st t s2)) with (current s2); rewrite Ha, Ec; by case_decide|].
    cbn. rewrite Et2, Ec. destruct (decide (current s = t)) as [->|Hne]; [rewrite lookup_insert_eq; congruence|].
    rewrite lookup_insert_ne by done. destruct (Hu Hne) as [_ Hu']. destruct (threads s !! current s); [|done].
    intros Hb0. destruct (Hu' Hb0); [by left|right]. rewrite Er. unfold z_priq_dumb_remove. by rewrite elem_of_remove_elem.
  - apply (sframe_dead_weaken t).
    + eapply sframe_trans; [|by eapply abort_st_frame]. eapply (sframe_put _ s s2 t th); try done; [|by left].
      intros w. rewrite Ew2. apply remove_elem_sublist.
    + intros th' E'. cbn in E'. assert (th' = dead_thread th) as -> by congruence. rewrite Hbits by done. apply orb_true_r.
  - rewrite Ha. by rewrite decide_True.
  - cbn. rewrite Er. unfold z_priq_dumb_remove. rewrite elem_of_remove_elem. tauto.
  - exact Ew2.
  - intros A Q m Hm. kstep. apply Hk2. kstep. apply Hk3. exact Hm.
Qed.

(** ** Waking the threads that join *)

Record joined (t : tid) (x : tid) (s s' : kstate) : Prop := {
  jn_inv : RInv None s' /\ current_ok s';
  jn_seg : seg x s s';
  jn_frame : wframe s s';
  jn_running : running s -> running s';
  jn_objs : objs s' = objs s;
  jn_mem : mem s' = mem s;
  jn_current : current s' = current s;
  jn_irq : irq_locked s' = irq_locked s;
  jn_empty : waitq s' (WQ_join t) = [];
  jn_waitq : forall w, w <> WQ_join t -> waitq s' w = waitq s w;
  jn_active : forall u, active u s' = true -> active u s = true;
  jn_threads : forall u, u ∉ waitq s (WQ_join t) -> threads s' !! u = threads s !! u;
  jn_woken : forall u, u ∈ waitq s (WQ_join t) ->
    exists th, threads s' !! u = Some th /\ pended_on th = None /\ swap_retval th = 0
}.

(** One round of the loop. *)
Lemma join_wake_one t x s u q th :
  RInv None s -> current_ok s -> waitq s (WQ_join t) = u :: q -> dead s t = true -> threads s !! u = Some th ->
  pended_on th = Some (WQ_join t) -> u <> x ->
  kwp (unpend_thread_no_timeout u;; _ ← z_abort_thread_timeout u; arch_thread_return_value_set u 0;; ready_thread u) s
    (fun _ s' => (RInv None s' /\ current_ok s') /\ seg x s s' /\ (running s -> running s') /\ woken u (WQ_join t) s s' /\
       waitq s' (WQ_join t) = q /\ dead s' t = true /\
       exists th3, threads s' !! u = Some th3 /\ pended_on th3 = None /\ swap_retval th3 = 0).
Proof.
  intros Hi Hu Ew Hd E Ep Hne.
  destruct (unpend_thread_spec None s u th (WQ_join t)) as (_ & _ & Hi1 & Hk1); [done|by left|done..|]. kstep. apply Hk1.
  destruct (abort_timeout_spec (Some u) (unpend_st u th (WQ_join t) s) u (unpended th)) as (_ & _ & Hk2);
    [done|by right|apply lookup_insert_eq|]. kstep. apply Hk2. unfold arch_thread_return_value_set. kstep.
  eapply kwp_upd_thread; [apply lookup_insert_eq|].
  eapply kwp_mono; [by apply (wake_core no_metairq x s u th (WQ_join t) (with_swap_retval 0 (unpended th)))|].
  cbv beta. intros _ s' ((Hi' & Hu' & _) & Hseg & Hr & Hw & th3 & E3 & Hrv & _ & Hp3). split_and!; try done.
  - rewrite (wk_waitq _ _ _ _ Hw), decide_True, Ew by done. pose proof (ri_waitq_nodup _ _ (WQ_join t) Hi) as Hnd.
    rewrite Ew in Hnd. apply NoDup_cons in Hnd as [Hnd _]. by apply remove_elem_head.
  - by apply (sg_dead _ _ _ Hseg).
  - eauto.
Qed.

Lemma unpend_all_spec t x l : forall s,
  RInv None s -> current_ok s -> waitq s (WQ_join t) = l -> dead s t = true ->
  (threads s !! x ≫= pended_on) = None ->
  kwp (unpend_all_loop (length l) (WQ_join t)) s (fun _ s' => joined t x s s').
Proof.
  induction l as [|u q IH]; intros s Hi Hu Ew Hd Hx; cbn [length unpend_all_loop]; unfold z_waitq_head; ksteps; rewrite Ew; cbn [head].
  - ksteps. split; try done; try apply seg_refl; try apply wframe_refl. intros u. by rewrite Ew, elem_of_nil.
  - destruct (ri_waitq_thread _ _ (WQ_join t) u Hi) as (th & E & Ep & _); [rewrite Ew; left|].
    assert (Hne : u <> x) by (intros ->; rewrite E in Hx; cbn in Hx; congruence).
    pose proof (join_wake_one t x s u q th Hi Hu Ew Hd E Ep Hne) as Hone.
    kstep. eapply kwp_mono; [exact (kwp_unbind _ _ _ _ Hone)|]. cbv beta. intros _ s1 H1. ksteps.
    eapply kwp_mono; [exact (kwp_unbind _ _ _ _ H1)|]. cbv beta. intros r s2 H2. ksteps.
    eapply kwp_mono; [exact (kwp_unbind _ _ _ _ H2)|]. cbv beta. intros _ s3 H3. ksteps.
    eapply kwp_mono; [exact H3|]. cbv beta.
    intros _ s4 ((Hi4 & Hu4) & Hseg & Hr & Hw & Eq & Hd4 & th4 & E4 & Hp4 & Hrv4).
    assert (Hnd : u ∉ q).
    { pose proof (ri_waitq_nodup _ _ (WQ_join t) Hi) as Hnd. rewrite Ew in Hnd. by apply NoDup_cons in Hnd as [? _]. }
    eapply kwp_mono; [apply (IH s4 Hi4 Hu4 Eq Hd4); by rewrite (wk_other _ _ _ _ Hw)|]. cbv beta.
    intros _ s' Hj. destruct Hw, Hj. split; try congruence; auto.
    + by eapply seg_trans.
    + by eapply wframe_trans.
    + intros w Hnw. rewrite jn_waitq0, wk_waitq by done. by rewrite decide_False.
    + intros v. rewrite Ew, not_elem_of_cons. intros [Hv Hin]. rewrite jn_threads0 by (by rewrite Eq). auto.
    + intros v. rewrite Ew, elem_of_cons. intros [->|Hv]; [|apply jn_woken0; by rewrite Eq].
      exists th4. by rewrite jn_threads0 by (by rewrite Eq).
Qed.

(** ** The end of [halt_thread] *)

Definition halted (th : k_thread) : k_thread := clear_state_bits (Z.lor _THREAD_ABORTING _THREAD_SUSPENDING) th.

Lemma halted_frame th : thread_frame th (halted th).
Proof.
  split_and!; [done|done|by left|unfold halted; rewrite st_clear_halting by lia; cbn; by rewrite andb_true_r|].
  unfold wake_fine, halted. rewrite !st_clear_halting by lia. cbn. rewrite !andb_true_r, andb_false_r, andb_true_r.
  rewrite !andb_true_iff. tauto.
Qed.

Lemma halted_bits th m : 0 <= m -> m <> 5 -> m <> 6 -> st m (halted th) = st m th.
Proof.
  intros Hm H5 H6. unfold halted. rewrite st_clear_halting by done.
  by rewrite (proj2 (Z.eqb_neq m 5)), (proj2 (Z.eqb_neq m 6)), andb_true_r.
Qed.

(** [clear_halting] on a thread that is off the ready queue. *)
Lemma clear_halting_spec s t th :
  SInv s -> threads s !! t = Some th -> ordinary t -> blocked th = true ->
  SInv (put_thread t (halted th) s) /\ sframe s (put_thread t (halted th) s).
Proof.
  intros (Hi & Hc & Hu) E [Hid Hdu] Hb.
  assert (Hbl : blocked (halted th) = blocked th) by (unfold blocked; by rewrite !halted_bits).
  split; [split; [|split]|].
  - apply (RInv_settle t); [|intros th0 E0 Hb0; exfalso].
    + apply (RInv_state None s t th); try done; [by left|by rewrite halted_bits..|].
      intros Hin. destruct (tok_runs _ _ _ _ (ri_thread _ _ _ _ Hi E) Hin). congruence.
    + cbn in E0. rewrite lookup_insert_eq in E0. congruence.
  - by eapply cache_ok_put.
  - by eapply current_ok_put.
  - eapply sframe_put; try done; [apply halted_frame|by right].
Qed.

(** *** Suspending *)

Record halt_step (s s' : kstate) : Prop := {
  hs_inv : SInv s';
  hs_frame : sframe s s';
  hs_irq : irq_locked s' = irq_locked s
}.

Lemma halt_suspend_spec x s t th :
  RInv x s -> (x = None \/ x = Some t) -> current_ok_but t s -> threads s !! t = Some th -> ordinary t -> st 4 th = false ->
  kwp (halt_thread t _THREAD_SUSPENDED) s (fun _ s' =>
    halt_step s s' /\ waitqs s' = waitqs s /\ runq s' = z_priq_dumb_remove t (runq s) /\
    thread_deadlines (tq s') = thread_deadlines (tq s) /\
    threads s' = <[t := halted (off_thread _THREAD_SUSPENDED th)]> (threads s)).
Proof.
  intros Hi Hx Hu E Ho H4. unfold halt_thread. kstep. eapply kwp_get_thread; [exact E|].
  rewrite land_suspended_st, H4. cbn [negb kwhen]. assert (Hb : halt_bits _THREAD_SUSPENDED) by by right.
  apply (mark_off_spec x _ s t th); try done. change (_THREAD_SUSPENDED =? _THREAD_DEAD) with false. cbv iota. ksteps.
  pose proof (RInv_off x _ s t th Hi Hx E Ho Hb) as Hi1. set (s1 := off_st _THREAD_SUSPENDED t th s) in *.
  set (th1 := off_thread _THREAD_SUSPENDED th) in *. pose proof (off_fields _THREAD_SUSPENDED th) as (Ep & Epr & El & Ed & Er & Enw).
  assert (Hcur : current_ok s1).
  { destruct Hu as [Ha Hu]. split; [done|]. cbn. destruct (decide (current s = t)) as [->|Hne].
    - rewrite lookup_insert_eq, off_blocked by done. done.
    - rewrite lookup_insert_ne by done. destruct (Hu Hne) as [_ Hu']. destruct (threads s !! current s); [|done].
      intros Hb0. destruct (Hu' Hb0); [by left|right]. unfold z_priq_dumb_remove. by rewrite elem_of_remove_elem. }
  eapply kwp_mono; [apply (update_cache_spec no_metairq true None); [exact Hi1|done]|]. cbv beta. intros _ s2 (Hi2 & Hc2 & Hf2).
  change (_THREAD_SUSPENDED =? _THREAD_SUSPENDED) with true. cbv iota. unfold clear_halting.
  assert (E2 : threads s2 !! t = Some th1) by (rewrite (cf_threads _ _ Hf2); apply lookup_insert_eq).
  eapply kwp_upd_thread; [exact E2|]. fold (halted th1).
  destruct (clear_halting_spec s2 t th1) as [Hs3 Hf3]; [split; [done|split; [done|by eapply current_ok_frame]]|done|done|by apply off_blocked|].
  split_and!; [split; [done| |by apply Hf2]|apply Hf2|exact (cf_runq _ _ Hf2)|apply Hf2|].
  - eapply sframe_trans; [|exact Hf3]. eapply sframe_trans; [|by apply sframe_cache].
    eapply (sframe_put _ s s1 t th th1); try done; [|by right]. split_and!; try done; [by left| |].
    + unfold th1. rewrite off_bits by done. cbn. by intros ->.
    + unfold wake_fine, th1. rewrite Enw, Ep, !off_bits by done. cbn. rewrite decide_False by done. by rewrite !orb_false_r.
  - cbn. rewrite (cf_threads _ _ Hf2). cbn. by rewrite insert_insert_eq.
Qed.

(** *** Aborting *)

(** The stand-in for the current thread. *)
Lemma dummy_init_spec s :
  RInv None s -> cache s = default z_idle_thread (head (runq s)) ->
  kwp (z_dummy_thread_init thread_dummy) s (fun _ s' =>
    SInv s' /\ seg thread_dummy s s' /\ wframe s s' /\ objs s' = objs s /\ mem s' = mem s /\ runq s' = runq s /\
    irq_locked s' = irq_locked s /\ waitqs s' = waitqs s /\ tq s' = tq s /\
    forall u, u <> thread_dummy -> threads s' !! u = threads s !! u).
Proof.
  intros Hi Hc. destruct (ri_dummy _ _ Hi) as (dth & E & Hst & Hp). pose proof (ri_thread _ _ _ _ Hi E) as Hok.
  unfold z_dummy_thread_init. kstep. eapply kwp_upd_thread; [exact E|]. ksteps.
  eapply kwp_upd_thread; [apply lookup_insert_eq|]. ksteps. cbn [threads set_threads]. rewrite insert_insert_eq.
  set (dth' := with_user_options K_ESSENTIAL (with_thread_state _THREAD_DUMMY dth)).
  set (s1 := put_thread thread_dummy dth' s).
  match goal with |- context [set_current _ ?x] => change x with s1 end.
  assert (Hi1 : RInv None s1).
  { apply (RInv_data None s thread_dummy dth); try done; [by left|apply (tok_prio _ _ _ _ Hok)|apply (tok_locked _ _ _ _ Hok)|].
    intros Heq. destruct (ri_idle _ _ Hi) as (ith & Ei & Hst' & _). rewrite <- Heq in Ei.
    assert (ith = dth) as -> by congruence. by rewrite Hst in Hst'. }
  assert (E1 : threads s1 !! thread_dummy = Some dth') by apply lookup_insert_eq.
  split_and!; try done.
  - split; [apply RInv_current; eauto|split; [by left|]]. split; [apply (ri_dummy_timeout _ _ Hi1)|]. cbn [current set_current threads]. rewrite E1. done.
  - eapply seg_trans; [apply (seg_self thread_dummy s dth dth'); [done|]|by apply seg_ext].
    unfold st. by rewrite Hst.
  - eapply wframe_trans; [apply (wframe_self s thread_dummy dth dth'); try done|by apply wframe_ext].
    unfold wake_fine, st. rewrite Hst, Hp. done.
  - intros u Hne. cbn. by rewrite lookup_insert_ne.
Qed.
(** What aborting [t] does. *)
Record aborted (t : tid) (x : tid) (s s' : kstate) : Prop := {
  ab_inv : SInv s';
  ab_seg : seg x s s';
  ab_frame : wframe s s';
  ab_objs : objs s' = objs s;
  ab_mem : mem s' = mem s;
  ab_irq : irq_locked s' = irq_locked s;
  ab_current : nested s = 0 -> current s' = current s;
  ab_running : nested s = 0 -> t <> current s -> running s -> running s';
  ab_dead : exists th', threads s' !! t = Some th' /\ st 3 th' = true /\ pended_on th' = None;
  ab_timeout : active t s' = false;
  ab_runq : t ∉ runq s';
  ab_join : waitq s' (WQ_join t) = [];
  ab_waitq : forall w, w <> WQ_join t -> waitq s' w = remove_elem t (waitq s w);
  ab_woken : forall u, u ∈ waitq s (WQ_join t) -> u <> t ->
    exists th, threads s' !! u = Some th /\ pended_on th = None /\ swap_retval th = 0
}.

(** The last step, in a state [s2] that differs from the one after the joining threads
    were woken, [s1], in the current thread. *)
Lemma halt_dead_clear t x s s1 s2 th :
  joined t x s s1 -> SInv s2 -> seg x s1 s2 -> wframe s1 s2 -> objs s2 = objs s1 -> mem s2 = mem s1 ->
  runq s2 = runq s1 -> irq_locked s2 = irq_locked s1 -> waitqs s2 = waitqs s1 ->
  (forall u, active u s2 = active u s1) -> (forall u, u <> thread_dummy -> threads s2 !! u = threads s1 !! u) ->
  (nested s = 0 -> current s2 = current s1 /\ threads s2 = threads s1) ->
  threads s1 !! t = Some th -> st 3 th = true -> pended_on th = None -> ordinary t -> (t ∉ runq s1) -> active t s1 = false ->
  (forall u, u ∈ waitq s (WQ_join t) -> u <> thread_dummy) -> (t ∉ waitq s (WQ_join t)) ->
  (forall w, waitq s w = remove_elem t (waitq s w)) ->
  kwp (clear_halting t) s2 (fun _ s' => aborted t x s s').
Proof.
  intros Hj Hs2 Hseg Hwf Eo Em Er Ei Ew Ha Et Hth E H3 Hp Ho Hout Hact Hnd Hntj Hrem.
  assert (Hb : blocked th = true) by (unfold blocked; by rewrite H3, orb_true_r).
  assert (E2 : threads s2 !! t = Some th) by (rewrite Et; [done|apply Ho]).
  destruct (clear_halting_spec s2 t th Hs2 E2 Ho Hb) as [Hs3 Hf3]. unfold clear_halting.
  eapply kwp_upd_thread; [exact E2|]. fold (halted th). destruct Hj. split; try done.
  - eapply seg_trans; [exact jn_seg0|]. eapply seg_trans; [exact Hseg|by apply sframe_seg].
  - eapply wframe_trans; [exact jn_frame0|]. eapply wframe_trans; [exact Hwf|by eapply sframe_wframe].
  - cbn. congruence.
  - cbn. congruence.
  - cbn. congruence.
  - intros Hn. cbn. destruct (Hth Hn). congruence.
  - intros Hn Hne Hr. destruct (Hth Hn) as [Ec Ett]. apply jn_running0 in Hr. revert Hr. unfold running. cbn. rewrite Ec, Ett.
    rewrite lookup_insert_ne; [done|congruence].
  - exists (halted th). split; [apply lookup_insert_eq|]. split; [by rewrite halted_bits|done].
  - change (active t s2 = false). by rewrite Ha.
  - cbn. by rewrite Er.
  - change (waitq s2 (WQ_join t) = []). unfold waitq. rewrite Ew. exact jn_empty0.
  - intros w Hw. change (waitq s2 w = remove_elem t (waitq s w)). rewrite <- Hrem, <- (jn_waitq0 w Hw). unfold waitq. by rewrite Ew.
  - intros u Hu Hne. destruct (jn_woken0 u Hu) as (thu & Eu & HH). exists thu. cbn. rewrite lookup_insert_ne, Et by auto. done.
Qed.

(** From the point where [t] is off all queues. *)
Lemma halt_dead_end t x s th :
  RInv None s -> current_ok s -> threads s !! t = Some th -> st 3 th = true -> pended_on th = None -> ordinary t ->
  (threads s !! x ≫= pended_on) = None -> (t ∉ runq s) -> active t s = false -> (nested s <> 0 -> x = thread_dummy) ->
  kwp (unpend_all (WQ_join t);; curr ← kget current; isr ← arch_is_in_isr; mret (bool_decide (t = curr) && (isr : bool))) s
    (fun dummify s' => kwp (update_cache true;; kwhen dummify (z_dummy_thread_init thread_dummy);; clear_halting t) s'
       (fun _ s' => aborted t x s s')).
Proof.
  intros Hi Hu E H3 Hp Ho Hx Hout Ha Hisr. unfold arch_is_in_isr, unpend_all. ksteps.
  assert (Hd : dead s t = true) by (unfold dead; by rewrite E).
  assert (Hbl : blocked th = true) by (unfold blocked; by rewrite H3, orb_true_r).
  assert (Hnot : forall w, t ∉ waitq s w).
  { intros w Hin. destruct (ri_waitq_thread _ _ _ _ Hi Hin) as (th0 & E0 & Hp0 & _). congruence. }
  assert (Hnd : forall u, u ∈ waitq s (WQ_join t) -> u <> thread_dummy).
  { intros u Hin. destruct (ri_waitq_thread _ _ _ _ Hi Hin) as (th0 & E0 & Hp0 & _). eapply not_dummy; [done..|right; congruence]. }
  eapply kwp_mono; [by apply (unpend_all_spec t x (waitq s (WQ_join t)) s)|]. cbv beta. intros _ s1 Hj. ksteps.
  destruct (jn_inv _ _ _ _ Hj) as [Hi1 Hu1].
  assert (E1 : threads s1 !! t = Some th) by (by rewrite (jn_threads _ _ _ _ Hj)).
  assert (Hout1 : t ∉ runq s1).
  { intros Hin. destruct (tok_runs _ _ _ _ (ri_thread _ _ _ _ Hi1 E1) Hin). congruence. }
  assert (Ha1 : active t s1 = false).
  { destruct (active t s1) eqn:Ea; [|done]. apply (jn_active _ _ _ _ Hj) in Ea. congruence. }
  eapply kwp_mono; [apply (update_cache_spec no_metairq true None); [exact Hi1|done]|]. cbv beta. intros _ s2 (Hi2 & Hc2 & Hf2).
  assert (Hend : forall s3, SInv s3 -> seg x s2 s3 -> wframe s2 s3 -> objs s3 = objs s2 -> mem s3 = mem s2 -> runq s3 = runq s2 ->
    irq_locked s3 = irq_locked s2 -> waitqs s3 = waitqs s2 -> tq s3 = tq s2 ->
    (forall u, u <> thread_dummy -> threads s3 !! u = threads s2 !! u) ->
    (nested s = 0 -> current s3 = current s2 /\ threads s3 = threads s2) ->
    kwp (clear_halting t) s3 (fun _ s' => aborted t x s s')).
  { intros s3 Hs3 Hseg3 Hwf3 Eo Em Er Ei Ew Eq Et Hc3. destruct Hf2. apply (halt_dead_clear t x s s1 s3 th); try done; try congruence.
    - eapply seg_trans; [|exact Hseg3]. apply seg_ext; [done..|]. intros u. unfold active.
      by rewrite linked_deadlines, cf_deadlines, <- linked_deadlines.
    - eapply wframe_trans; [|exact Hwf3]. by apply wframe_ext.
    - intros u. unfold active. by rewrite Eq, linked_deadlines, cf_deadlines, <- linked_deadlines.
    - intros u Hne. rewrite Et by done. by rewrite cf_threads.
    - intros Hn. destruct (Hc3 Hn). split; congruence.
    - intros w. by rewrite remove_elem_notin. }
  ksteps. apply kwp_when; intros Hdm.
  - apply andb_true_iff in Hdm as [Ht%bool_decide_eq_true Hn%negb_true_iff%Z.eqb_neq].
    rewrite (wf_nested _ _ (jn_frame _ _ _ _ Hj)) in Hn. pose proof (Hisr Hn) as ->.
    eapply kwp_mono; [apply (dummy_init_spec s2 Hi2)|].
    { destruct Hc2 as [Hc2|(_ & Hin & _)]; [done|]. by rewrite (cf_current _ _ Hf2), (cf_runq _ _ Hf2), <- Ht in Hin. }
    cbv beta. intros _ s3 (H1 & H2 & H4 & H5 & H6 & H7 & H8 & H9 & H10 & H11). by apply Hend.
  - apply Hend; try done; try apply seg_refl; try apply wframe_refl.
    split; [done|split; [done|by eapply current_ok_frame]].
Qed.
Lemma aborted_gone t x s s1 s' th' :
  threads s1 = <[t := th']> (threads s) -> sframe s s1 -> (forall w, waitq s1 w = remove_elem t (waitq s w)) ->
  irq_locked s1 = irq_locked s -> aborted t x s1 s' -> aborted t x s s'.
Proof.
  intros Et Hf Ew Ei Hab. destruct Hab. split; try done; try (rewrite <- (sf_nested _ _ _ Hf)).
  - eapply seg_trans; [by apply sframe_seg|done].
  - eapply wframe_trans; [by eapply sframe_wframe|done].
  - by rewrite ab_objs0, (sf_objs _ _ _ Hf).
  - by rewrite ab_mem0, (sf_mem _ _ _ Hf).
  - congruence.
  - intros Hn. rewrite ab_current0 by done. apply Hf.
  - intros Hn Hne Hr. apply ab_running0; [done|by rewrite (sf_current _ _ _ Hf)|]. revert Hr. unfold running.
    rewrite (sf_current _ _ _ Hf), Et. rewrite lookup_insert_ne; congruence.
  - intros w Hw. rewrite ab_waitq0, Ew by done. apply remove_elem_notin. rewrite elem_of_remove_elem. tauto.
  - intros u Hu Hne. apply ab_woken0; [|done]. rewrite Ew. by apply elem_of_remove_elem.
Qed.

Lemma halt_dead_spec t x s th :
  SInv s -> threads s !! t = Some th -> st 3 th = false -> ordinary t ->
  (threads s !! x ≫= pended_on) = None -> (nested s <> 0 -> x = thread_dummy) ->
  kwp (halt_thread t _THREAD_DEAD) s (fun _ s' => aborted t x s s').
Proof.
  intros (Hi & Hc & Hu) E H3 Ho Hx Hisr. unfold halt_thread. kstep. eapply kwp_get_thread; [exact E|].
  rewrite land_dead_st, H3. cbn [negb kwhen]. apply (mark_off_spec None _ s t th); [done|by left|done|done|by left|].
  change (_THREAD_DEAD =? _THREAD_DEAD) with true. change (_THREAD_DEAD =? _THREAD_SUSPENDED) with false. cbv iota.
  change (pended_on (set_state_bits _THREAD_DEAD th)) with (pended_on th).
  destruct (gone_spec None s t th Hi (or_introl eq_refl) E Ho (current_ok_weaken t s Hu)) as (Hi1 & Et & Hu1 & Hf1 & Ha1 & Hr1 & Ew1 & Hk1).
  destruct (dead_thread_fields th) as (Hp & Hbits & _).
  set (s1 := gone_st t th s) in *. assert (E1 : threads s1 !! t = Some (dead_thread th)) by (by rewrite Et, lookup_insert_eq).
  assert (Hx1 : (threads s1 !! x ≫= pended_on) = None).
  { rewrite Et. destruct (decide (x = t)) as [->|]; [by rewrite lookup_insert_eq|by rewrite lookup_insert_ne]. }
  kstep. apply (Hk1 bool). eapply kwp_mono; [apply (halt_dead_end t x s1 (dead_thread th)); try done|].
  - rewrite Hbits by done. apply orb_true_r.
  - by rewrite (sf_nested _ _ _ Hf1).
  - cbv beta. intros dummify s2 Hend. eapply kwp_mono; [exact Hend|]. cbv beta. intros _ s' Hab.
    apply (aborted_gone t x s s1 s' (dead_thread th)); try done. unfold s1, gone_st. by destruct (pended_on th).
Qed.
Section Calls.
Context (J : kstate -> Prop) `{!ObjInv J}.
Context (n : Z) (c : tid).

(** The steps up to the switch, in which the current thread may be replaced by the
    dummy thread in an interrupt handler. *)
Record halt_run (s s' : kstate) : Prop := {
  hr_inv : SInv s';
  hr_seg : seg (exempt n c) s s';
  hr_frame : wframe s s';
  hr_objs : objs s' = objs s;
  hr_mem : mem s' = mem s;
  hr_current : n = 0 -> current s' = current s
}.

Lemma halt_step_run s s' : halt_step s s' -> halt_run s s'.
Proof. intros [Hs Hf _]. split; [done|by apply sframe_seg|by eapply sframe_wframe|apply Hf..|intros _; apply Hf]. Qed.

(** A call that took its thread [t] off the ready queue ends by giving up the CPU when
    [t] is the caller. *)
Lemma halt_end_spec V `{!Effect V} b s s1 t key terminate :
  Stable J n c b s -> halt_run s s1 -> ordinary t -> (t ∉ runq s1) ->
  (n = 0 -> t <> current s -> running s -> running s1) ->
  (n = 0 -> t = current s -> terminate = true -> dead s1 t = true) -> (forall i, effect V b (set_irq_locked i s1)) ->
  mwp (Guar J V) (Rely J c) b
    (curr ← lift (kget current); isr ← lift arch_is_in_isr;
     if bool_decide (t = curr) && negb (isr : bool)
     then (_ ← z_swap Lock_sched key; lift (kassert (negb terminate)))
     else lift (k_spin_unlock key)) s1
    (fun b' _ s' => Stable J n c b' s' /\ effect V b' s' /\ (n = 0 -> t = c -> terminate = false /\ is_first b' = false) /\
       (dead s1 t = true -> dead s' t = true)).
Proof.
  intros Hs [Hs1 Hseg1 Hf Eo Em Ec] [Hid Hdu] Hout Hr1 Hdead HV. unfold arch_is_in_isr, k_spin_unlock, arch_irq_unlock. ksteps.
  rewrite (wf_nested _ _ Hf), (so_nested _ _ _ _ Hs), negb_involutive.
  assert (HJ : J s1) by (eapply (obj_stable s); [done..|apply Hs]).
  destruct (bool_decide (t = current s1) && (n =? 0)) eqn:Hcase.
  - apply andb_true_iff in Hcase as [Ht%bool_decide_eq_true H0%Z.eqb_eq]. destruct (so_thread _ _ _ _ Hs H0) as (Hc & Hr & _).
    rewrite (Ec H0), Hc in Ht. subst t. kstep. rewrite (thread_mode n c H0) in Hseg1.
    eapply mwp_mono; [apply (off_swap_spec J n c V b s s1); try done; [by split; apply Hs1|apply Hf|by apply Ec|]|].
    { specialize (HV (irq_locked s1)). by replace (set_irq_locked (irq_locked s1) s1) with s1 in HV by (by destruct s1). }
    cbv beta. intros b' _ s' (Hs' & Hf' & Hnd). kstep.
    assert (Hterm : terminate = false) by (destruct terminate; [rewrite Hdead in Hnd by (done || congruence)|]; done).
    apply kwp_assert; [by rewrite Hterm|]. split_and!; [done|by intros Hf1; congruence|done|congruence].
  - ksteps. split_and!; [|apply HV| |done].
    + apply (Stable_irq J). destruct Hs as [[Hs Hn Hnb Hseg Ht] _]. split; [split; try done|done].
      * by rewrite (wf_nested _ _ Hf).
      * by eapply seg_trans.
      * intros H0. destruct (Ht H0) as (Hc & Hr & Hcb). split_and!; [by rewrite (Ec H0)| |done].
        apply Hr1; [done| |done]. intros ->. by rewrite (Ec H0), bool_decide_true, H0 in Hcase by done.
    + intros H0 ->. destruct (so_thread _ _ _ _ Hs H0) as (Hc & _). by rewrite (Ec H0), bool_decide_true, H0 in Hcase by done.
Qed.

(** Suspended, with its timeout gone, and off the ready queue; it waits for what it waited for. *)
Definition suspend_effect (t : tid) (s s' : kstate) (th th' : k_thread) : Prop :=
  active t s' = false /\ st 4 th' = true /\ st 7 th' = false /\ pended_on th' = pended_on th /\ prio th' = prio th /\
  th' = (if st 4 th then th else halted (off_thread _THREAD_SUSPENDED th)) /\
  runq s' = z_priq_dumb_remove t (runq s) /\ forall w, waitq s' w = waitq s w.

#[export] Instance suspend_effect_ok t : ThreadRel (suspend_effect t).
Proof.
  constructor. intros s s1 s2 th th' Hv. unfold suspend_effect, waitq.
  by rewrite (sv_active _ _ _ _ Hv), (sv_runq _ _ _ Hv), (sv_waitqs _ _ _ Hv).
Qed.

Lemma k_thread_suspend_spec b s t th :
  is_first b = true -> began b = s -> Stable J n c b s -> threads s !! t = Some th -> ordinary t ->
  let V := thread_effect (suspend_effect t) t in
  mwp (Guar J V) (Rely J c) b (z_impl_k_thread_suspend t) s (fun b' _ s' =>
    Stable J n c b' s' /\ effect V b' s' /\ (n = 0 -> t = c -> is_first b' = false)).
Proof.
  intros Hf Hb Hs E Ho V. pose proof (so_inv _ _ _ _ Hs) as Hsi.
  unfold z_impl_k_thread_suspend, z_thread_halt, k_spin_lock, arch_irq_lock. ksteps.
  destruct (abort_timeout_spec None s t th) as (Hi1 & _ & Hk); [apply Hsi|by left|done|]. apply Hk. ksteps.
  eapply kwp_get_thread; [exact E|]. rewrite land_suspended_st, negb_involutive.
  destruct (abort_floating s t th Hsi E (proj1 Ho)) as (Hfl & Hfr & Hna).
  destruct (st 4 th) eqn:H4.
  - unfold k_spin_unlock, arch_irq_unlock. ksteps.
    assert (Hbl : blocked th = true) by (unfold blocked; by rewrite H4, orb_true_r). split_and!.
    + do 2 apply (Stable_irq J). split; [by eapply (Steady_abort n c b s t th); [apply Hs|..]|].
      eapply (obj_stable s); [by eapply sframe_wframe|done..|apply Hs].
    + intros _. rewrite Hb. pose proof (ri_thread _ _ _ _ (proj1 Hsi) E) as Hok.
      assert (Hin : t ∉ runq s) by (intros Hin; destruct (tok_runs _ _ _ _ Hok Hin); congruence).
      eapply (thread_effect_none _ t th s); try done. split_and!; try done.
      * rewrite (tok_queued _ _ _ _ Hok). by apply bool_decide_eq_false.
      * by rewrite H4.
      * symmetry. by apply remove_elem_notin.
    + intros H0 ->. destruct (so_thread _ _ _ _ Hs H0) as (Hc & Hr & _). unfold running in Hr. rewrite Hc, E in Hr.
      injection Hr as Hr. congruence.
  - ksteps. apply (floating_irq true) in Hfl. set (s1 := set_irq_locked true (abort_st t s)) in *.
    destruct Hfl as (Hi & Hca & Hcu & Hid).
    eapply kwp_mono; [by apply (halt_suspend_spec (Some t) s1 t th); [|right|..]|]. cbv beta.
    intros _ s2 (Hst & Ew & Er & Ed & Et).
    assert (Hout : t ∉ runq s2) by (rewrite Er; unfold z_priq_dumb_remove; rewrite elem_of_remove_elem; tauto).
    assert (Hst0 : halt_step (set_irq_locked true s) s2).
    { destruct Hst as [H1 H2 H3]. split; [done| |done]. eapply sframe_trans; [|exact H2]. by destruct Hfr; split. }
    pose proof (off_fields _THREAD_SUSPENDED th) as (Ep & Epr & _).
    eapply mwp_mono; [apply (halt_end_spec V b (set_irq_locked true s) s2 t); try done|].
    + by apply (Stable_irq J).
    + by apply halt_step_run.
    + intros _ Hne. unfold running. rewrite (sf_current _ _ _ (hs_frame _ _ Hst0)), Et. by rewrite lookup_insert_ne.
    + intros i _. rewrite Hb. pose proof (hs_frame _ _ Hst0) as Hf0. eapply (thread_effect_intro _ s _ t th);
        [apply (sf_objs _ _ _ Hf0)|apply (sf_mem _ _ _ Hf0)| |exact E|cbn; by rewrite Et, lookup_insert_eq|].
      * intros u Hne. cbn. by rewrite Et, lookup_insert_ne.
      * split_and!; try done; [|rewrite halted_bits, off_bits by (done || by right); rewrite decide_False by done; apply orb_true_r|
          by rewrite halted_bits, off_bits by (done || by right)|by rewrite H4|intros w; unfold waitq; cbn; by rewrite Ew].
        unfold active. cbn. rewrite linked_deadlines, Ed, <- linked_deadlines. exact Hna.
    + cbv beta. intros b' _ s' (? & ? & Hself & _). split_and!; [done..|]. intros. by apply Hself.
Qed.

(** The thread is dead and off every queue, and the threads that joined it are woken
    with 0. *)
Definition abort_effect (t : tid) (s s' : kstate) : Prop :=
  objs s' = objs s /\ mem s' = mem s /\ active t s' = false /\ (t ∉ runq s') /\
  (t <> current s -> exists th', threads s' !! t = Some th' /\ st 3 th' = true /\ pended_on th' = None) /\
  waitq s' (WQ_join t) = [] /\ (forall w, w <> WQ_join t -> waitq s' w = remove_elem t (waitq s w)) /\
  Forall (fun u => u <> t -> woken_with u 0 s s') (waitq s (WQ_join t)).

#[export] Instance abort_effect_ok t : Effect (abort_effect t).
Proof.
  constructor. intros s s1 s2 Hv (Ho & Hm & Ha & Hr & Hd & Hj & Hw & Hwk).
  assert (Ewq : forall w, waitq s2 w = waitq s1 w) by (intros w; unfold waitq; by rewrite (sv_waitqs _ _ _ Hv)). split_and!.
  - by rewrite (sv_objs _ _ _ Hv).
  - by rewrite (sv_mem _ _ _ Hv).
  - by rewrite (sv_active _ _ _ _ Hv).
  - by rewrite (sv_runq _ _ _ Hv).
  - intros Hc. rewrite (sv_threads _ _ _ Hv t Hc). auto.
  - by rewrite Ewq.
  - intros w Hne. rewrite Ewq. auto.
  - eapply Forall_impl; [exact Hwk|]. intros u Hu Hne Hc. rewrite (sv_threads _ _ _ Hv u Hc). by apply Hu.
Qed.

Lemma k_thread_abort_spec b s t th :
  is_first b = true -> began b = s -> Stable J n c b s -> threads s !! t = Some th -> ordinary t ->
  z_is_thread_essential th = false -> st 3 th = false ->
  let V := abort_effect t in
  mwp (Guar J V) (Rely J c) b (z_impl_k_thread_abort t) s (fun b' _ s' =>
    Stable J n c b' s' /\ effect V b' s' /\ dead s' t = true /\ ~ (n = 0 /\ t = c)).
Proof.
  intros Hf Hb Hs E Ho Hes H3 V. unfold z_impl_k_thread_abort, z_thread_abort, z_thread_halt, k_spin_lock, arch_irq_lock. ksteps.
  set (s1 := set_irq_locked true s). assert (Hs1 : Stable J n c b s1) by (by apply (Stable_irq J)).
  assert (E1 : threads s1 !! t = Some th) by done. eapply kwp_get_thread; [exact E1|].
  rewrite Hes, land_dead_st, H3. cbn [negb]. cbv iota. ksteps.
  assert (Hx : (threads s1 !! exempt n c ≫= pended_on) = None).
  { destruct (threads s1 !! exempt n c) as [xth|] eqn:Ex; [|done]. cbn. destruct (pended_on xth) eqn:Ep; [|done].
    exfalso. by eapply (waiter_not_exempt n c b s1 (exempt n c)); [apply Hs1|..]. }
  eapply kwp_mono; [apply (halt_dead_spec t (exempt n c) s1 th); try done; [apply Hs1|]|].
  { rewrite (so_nested _ _ _ _ Hs1). apply isr_mode. }
  cbv beta. intros _ s2 Hab. pose proof (ab_dead _ _ _ _ Hab) as (th2 & E2 & Hd2 & Hp2).
  assert (Hdead : dead s2 t = true) by (unfold dead; by rewrite E2).
  eapply mwp_mono; [apply (halt_end_spec V b s1 s2 t (irq_locked s) true); try done|].
  - destruct Hab. split; try done. intros H0. apply ab_current0. by rewrite (so_nested _ _ _ _ Hs1).
  - apply Hab.
  - intros H0. apply (ab_running _ _ _ _ Hab). by rewrite (so_nested _ _ _ _ Hs1).
  - intros i _. rewrite Hb. destruct Hab. split_and!; try done. apply Forall_forall. intros u Hu Hne _. auto.
  - cbv beta. intros b' _ s' (Hs' & HV' & Hterm & Hd'). ksteps. specialize (Hd' Hdead).
    unfold dead in Hd'. destruct (threads s' !! t) as [th'|] eqn:E'; [|done]. eapply kwp_get_thread; [exact E'|]. ksteps.
    apply kwp_assert; [by rewrite land_dead_st, negb_involutive|]. split_and!; [done|done|unfold dead; by rewrite E'|].
    intros [H0 Ht]. by destruct (Hterm H0 Ht).
Qed.

(** ** Joining *)

(** Whether the caller has to wait, and what it gets if not. *)
Definition join_now (t : tid) (timeout : k_timeout_t) (s : kstate) : option Z :=
  if dead s t then Some 0
  else if K_TIMEOUT_EQ timeout K_NO_WAIT then Some (- EBUSY)
  else if bool_decide (t = current s) || bool_decide ((threads s !! t ≫= pended_on) = Some (WQ_join (current s)))
  then Some (- EDEADLK) else None.

Definition join_effect (t : tid) (timeout : k_timeout_t) (s s' : kstate) : Prop :=
  objs s' = objs s /\ mem s' = mem s /\
  forall w, waitq s' w = if bool_decide (join_now t timeout s = None) && bool_decide (w = WQ_join t)
                         then z_priq_dumb_add (prio_of s) (current s) (waitq s w) else waitq s w.

#[export] Instance join_effect_ok t timeout : Effect (join_effect t timeout).
Proof.
  constructor. intros s s1 s2 Hv (Ho & Hm & Hw). split_and!.
  - by rewrite (sv_objs _ _ _ Hv).
  - by rewrite (sv_mem _ _ _ Hv).
  - intros w. rewrite <- Hw. unfold waitq. by rewrite (sv_waitqs _ _ _ Hv).
Qed.

Lemma join_wait_spec V `{!Effect V} b s t key timeout :
  n = 0 -> Stable J n c b s -> c <> z_idle_thread -> api_timeout timeout ->
  (forall s', pframe c (WQ_join t) s s' -> effect V b s') ->
  mwp (Guar J V) (Rely J c) b
    (lift (add_to_waitq_locked c (Some (WQ_join t)));; lift (add_thread_timeout c timeout);; z_swap Lock_sched key) s
    (fun b' r s' => Stable J n c b' s' /\ is_first b' = false /\
       (r = - EAGAIN /\ timeout <> K_FOREVER \/ r = 0 /\ dead s' t = true) /\
       exists th, resumed c b' th /\ r = swap_retval th).
Proof.
  intros H0 Hs Hid Ht HV. destruct (so_thread _ _ _ _ Hs H0) as (Hc & Hr & _).
  destruct (ri_current _ _ (proj1 (so_inv _ _ _ _ Hs))) as [th E].
  destruct (running_facts _ _ (so_inv _ _ _ _ Hs) Hr E) as (Hbl & Hpn & Hdu & Ha).
  assert (Hde : st 3 th = false) by (unfold blocked in Hbl; rewrite !orb_false_iff in Hbl; tauto).
  assert (Hpl : kwp (pend_locked c (Some (WQ_join t)) timeout) s (fun _ s1 => QInv s1 /\ pframe c (WQ_join t) s s1 /\
    (c ∉ runq s1) /\ (active c s1 = true -> timeout <> K_FOREVER))).
  { rewrite <- Hc in Hid |- *. apply (pend_locked_spec no_metairq s th); try done. apply Hs. }
  ksteps. eapply kwp_mono; [exact (kwp_unbind _ _ _ _ Hpl)|]. cbv beta. intros _ s1 H1. ksteps.
  eapply kwp_mono; [exact H1|]. cbv beta. intros _ s2 (HQ & Hp & Hout & Hact).
  eapply mwp_mono; [apply (pended_swap_spec J V n c b s s2 (WQ_join t) key (Some Lock_sched) true timeout); try done|].
  - eapply obj_join; [apply Hs|exact Hp].
  - by apply HV.
  - cbv beta. intros b' r s' (Hs' & Hf' & Hres & _ & (th' & Hth & _ & <-) & _). split_and!; [done|done| |by exists th'].
    destruct Hres as [?|Hg]; [by left|by right].
Qed.

Lemma k_thread_join_spec b s t th timeout :
  is_first b = true -> began b = s -> Stable J n c b s -> threads s !! t = Some th ->
  n = 0 /\ c <> z_idle_thread /\ api_timeout timeout \/ timeout = K_NO_WAIT ->
  let V := join_effect t timeout in
  mwp (Guar J V) (Rely J c) b (z_impl_k_thread_join t timeout) s (fun b' r s' =>
    Stable J n c b' s' /\ effect V b' s' /\ (r = 0 -> dead s' t = true) /\
    if is_first b' then join_now t timeout s = Some r
    else (r = 0 \/ r = - EAGAIN /\ timeout <> K_FOREVER) /\ exists th, resumed c b' th /\ r = swap_retval th).
Proof.
  intros Hf Hb Hs E Hpre V. unfold z_impl_k_thread_join, k_spin_lock, k_spin_unlock, arch_irq_lock, arch_irq_unlock, arch_is_in_isr. ksteps.
  set (s1 := set_irq_locked true s). assert (Hs1 : Stable J n c b s1) by (by apply (Stable_irq J)).
  assert (E1 : threads s1 !! t = Some th) by done. eapply kwp_get_thread; [exact E1|]. ksteps.
  rewrite land_dead_st, negb_involutive. change (current s1) with (current s).
  assert (Hnow : forall r key, join_now t timeout s = Some r -> (r = 0 -> dead s t = true) ->
    let s' := set_irq_locked key s1 in
    Stable J n c b s' /\ effect V b s' /\ (r = 0 -> dead s' t = true) /\
    if is_first b then join_now t timeout s = Some r
    else (r = 0 \/ r = - EAGAIN /\ timeout <> K_FOREVER) /\ exists th, resumed c b th /\ r = swap_retval th).
  { intros r key Hj Hr0 s'. split_and!; [by apply (Stable_irq J)| |exact Hr0|by rewrite Hf]. intros _. rewrite Hb. split_and!; try done.
    intros w. by rewrite Hj, bool_decide_false. }
  assert (Hd : dead s t = st 3 th) by (unfold dead; by rewrite E).
  assert (Hj : join_now t timeout s = if st 3 th then Some 0 else if K_TIMEOUT_EQ timeout K_NO_WAIT then Some (- EBUSY)
    else if bool_decide (t = current s) || bool_decide (pended_on th = Some (WQ_join (current s))) then Some (- EDEADLK) else None)
    by (unfold join_now; by rewrite Hd, E).
  destruct (st 3 th) eqn:H3; [ksteps; by apply Hnow|].
  destruct (K_TIMEOUT_EQ timeout K_NO_WAIT) eqn:Hto; [ksteps; by apply Hnow|].
  destruct Hpre as [(H0 & Hid & Hapi)| ->]; [|done].
  destruct (bool_decide (t = current s) || bool_decide (pended_on th = Some (WQ_join (current s)))) eqn:Hdl; [ksteps; by apply Hnow|].
  ksteps. apply kwp_assert; [by rewrite (so_nested _ _ _ _ Hs1), H0|].
  destruct (so_thread _ _ _ _ Hs H0) as (Hc & _). rewrite Hc.
  eapply mwp_mono; [apply (join_wait_spec V b s1 t); try done|].
  - intros s' Hp _. rewrite Hb. split_and!; [apply (pf_objs _ _ _ _ Hp)|apply (pf_mem _ _ _ _ Hp)|].
    intros w. rewrite (pf_waitq _ _ _ _ Hp). rewrite Hj, Hc. destruct (decide (w = WQ_join t)) as [Hw|Hw]; [by rewrite (bool_decide_true _ Hw), Hw|by rewrite (bool_decide_false _ Hw)].
  - cbv beta. intros b' r s' (Hs' & Hf' & Hres & Hth). split_and!; [done|by intros Hf1; congruence| |].
    + intros ->. destruct Hres as [[Hr0 _]|[_ ?]]; [by vm_compute in Hr0|done].
    + rewrite Hf'. split; [|done]. destruct Hres as [?|[? _]]; auto.
Qed.
End Calls.
End Halt.
