(* ===== verification/Create.v ===== *)
(** * Creating threads (kernel/thread.c)

    A thread is created in memory nothing else uses: no thread has its address.  It is
    entered into the kernel off all queues, then started, at once or after a delay. *)

From S2P Require Import Prelude TimeUnits Timeout PriorityQ KState KLogic Sched SchedInv SchedOps Switch ThreadOps ThreadApi.

Local Open Scope Z_scope.

Section Create.
Context `{KConfig}.
Hypothesis no_metairq : CONFIG_NUM_METAIRQ_PRIORITIES = 0.
Implicit Types (b : stretch) (s : kstate) (t u c : tid) (th : k_thread) (w : wqid).

(** ** Initialisation *)

Definition new_thread_of (base : k_thread) (prio options : Z) : k_thread :=
  with_no_wake_on_timeout false (with_sched_locked 0 (with_prio (s8 prio) (with_thread_state _THREAD_PRESTART
    (with_user_options (u8 options) (with_pended_on None base))))).

Definition created_st (t : tid) (th : k_thread) (s : kstate) : kstate :=
  put_thread t th (set_waitqs (<[WQ_join t := []]> (waitqs s)) s).

Lemma fresh_facts x s t :
  RInv x s -> threads s !! t = None ->
  ordinary t /\ (t ∉ runq s) /\ active t s = false /\ (forall w, t ∉ waitq s w) /\ t <> current s.
Proof.
  intros Hi E. split_and!.
  - split; intros ->; [destruct (ri_idle _ _ Hi) as (th & E' & _)|destruct (ri_dummy _ _ Hi) as (th & E' & _)]; congruence.
  - intros Hin. destruct (ri_runq_thread _ _ _ Hi Hin) as (th & E' & _). congruence.
  - destruct (active t s) eqn:Ha; [|done]. exfalso. unfold active in Ha. rewrite is_linked_true in Ha.
    rewrite <- (nodes_deadlines 0), list_elem_of_fmap in Ha. destruct Ha as (d & Hd & Hin).
    pose proof (ri_tq_dom _ _ Hi) as Hdom. rewrite Forall_forall in Hdom. specialize (Hdom d Hin). unfold deadline_ok in Hdom.
    destruct d as [[nd f] v]. cbn in Hd, Hdom. subst nd. destruct f; [|done]. rewrite E in Hdom. by destruct Hdom.
  - intros w Hin. destruct (ri_waitq_thread _ _ _ _ Hi Hin) as (th & E' & _). congruence.
  - intros ->. destruct (ri_current _ _ Hi) as [th E']. congruence.
Qed.

Lemma waitq_created s t th w : (forall w, t ∉ waitq s w) -> waitq s (WQ_join t) = [] -> waitq (created_st t th s) w = waitq s w.
Proof.
  intros _ Hj. unfold waitq, created_st. cbn. destruct (decide (w = WQ_join t)) as [->|].
  - rewrite lookup_insert_eq. cbn. symmetry. exact Hj.
  - by rewrite lookup_insert_ne.
Qed.

Lemma RInv_created s t th :
  RInv None s -> threads s !! t = None -> waitq s (WQ_join t) = [] -> blocked th = true -> st 7 th = false -> st 1 th = false ->
  pended_on th = None -> -128 <= prio th < 128 -> 0 <= sched_locked th < 256 -> RInv None (created_st t th s).
Proof.
  intros Hi E Hj Hb H7 H1 Hp Hpr Hl. destruct (fresh_facts None s t Hi E) as ((Hid & Hdu) & Hout & Ha & Hnot & Hcur).
  assert (Hw : forall w, waitq (created_st t th s) w = waitq s w) by (intros w; by apply waitq_created).
  assert (Ht : forall u, u <> t -> threads (created_st t th s) !! u = threads s !! u) by (intros u Hu; cbn; by rewrite lookup_insert_ne).
  assert (Hdom : forall u, is_Some (threads s !! u) -> is_Some (threads (created_st t th s) !! u)).
  { intros u Hu. rewrite Ht; [done|]. intros ->. rewrite E in Hu. by destruct Hu. }
  assert (Hpo : forall u, u ∈ runq s -> prio_of (created_st t th s) u = prio_of s u).
  { intros u Hu. unfold prio_of. rewrite Ht; [done|]. congruence. }
  destruct Hi. split; try done.
  - eapply prio_sorted_ext; [exact Hpo|exact ri_sorted].
  - cbn. eapply Forall_impl; [exact ri_dom|auto].
  - intros u thu Eu. destruct (decide (u = t)) as [->|Hne].
    + cbn in Eu. rewrite lookup_insert_eq in Eu. injection Eu as <-. split; try done; try congruence.
      * by rewrite H7, bool_decide_false.
      * rewrite H1, Hp. by rewrite bool_decide_false by (intros Hx; by apply Hx).
    + rewrite Ht in Eu by done. eapply (thread_ok_frame None None s); [by apply ri_threads|done|done| |done]. intros w. by rewrite Hw.
  - intros w l El. assert (Hwl : l = [] \/ waitqs s !! w = Some l).
    { cbn in El. destruct (decide (w = WQ_join t)) as [->|]; [rewrite lookup_insert_eq in El; left; congruence|].
      rewrite lookup_insert_ne in El by done. by right. }
    destruct Hwl as [->|Hwl]; [by split; constructor|]. destruct (ri_waitqs w l Hwl) as [Hn Hf]. split; [done|].
    rewrite Forall_forall in Hf |- *. intros u Hu. rewrite Ht; [by apply Hf|]. intros ->. apply (Hnot w). unfold waitq. by rewrite Hwl.
  - eapply Forall_impl; [exact ri_tq_dom|]. intros d. by apply deadline_ok_mono.
  - by rewrite Ht by congruence.
  - cbn [current created_st set_threads set_waitqs]. by rewrite Ht by congruence.
  - by rewrite Ht by congruence.
Qed.

Lemma seg_new x s s' t th :
  threads s !! t = None -> threads s' = <[t := th]> (threads s) -> objs s' = objs s ->
  (forall u, u <> t -> active u s' = true -> active u s = true) -> seg x s s'.
Proof.
  intros E Et Eo Ha. assert (Ht : forall u, is_Some (threads s !! u) -> u <> t) by (intros u Hu ->; rewrite E in Hu; by destruct Hu).
  split; unfold owns; rewrite ?Eo.
  - intros u _ thu Eu. pose proof (Ht u (mk_is_Some _ _ Eu)). exists thu. rewrite Et, lookup_insert_ne by done. eauto 10.
  - intros u. unfold dead. rewrite Et. destruct (decide (u = t)) as [->|]; [by rewrite E|by rewrite lookup_insert_ne].
  - intros a o Eo'. exists o. split; [done|apply same_kind_refl].
  - done.
  - intros a o u _ Ho _. by left.
Qed.

Lemma wframe_created s t th :
  threads s !! t = None -> (forall w, t ∉ waitq s w) -> waitq s (WQ_join t) = [] -> wake_fine th = true ->
  wframe s (created_st t th s).
Proof.
  intros E Hnot Hj Hw. split; try done.
  - intros u Hu. cbn. rewrite lookup_insert_ne; [done|]. intros ->. rewrite E in Hu. by destruct Hu.
  - intros w. by rewrite waitq_created.
  - intros w u. rewrite waitq_created by done. intros Hu. cbn. rewrite lookup_insert_ne; [done|]. intros ->. by apply (Hnot w).
  - intros Hok u thu. cbn. destruct (decide (u = t)) as [->|].
    + rewrite lookup_insert_eq. by intros [= <-].
    + rewrite lookup_insert_ne by done. apply Hok.
Qed.

Lemma setup_spec s t base p options (Q : unit -> kstate -> Prop) :
  active t s = false -> Z_VALID_PRIO p = true -> Q tt (created_st t (new_thread_of base p options) s) ->
  kwp (z_setup_new_thread base t p options) s Q.
Proof.
  intros Ha Hp HQ. unfold z_setup_new_thread, z_waitq_init, z_init_thread_base. ksteps. apply kwp_assert; [done|]. ksteps.
  rewrite timeout_active_active. apply kwp_assert; [by change (negb (active t s) = true); rewrite Ha|]. ksteps. eapply kwp_upd_thread; [apply lookup_insert_eq|].
  cbn [threads set_threads set_waitqs]. rewrite insert_insert_eq. exact HQ.
Qed.

Lemma new_thread_bits base p options :
  let th := new_thread_of base p options in
  blocked th = true /\ st 7 th = false /\ st 1 th = false /\ wake_fine th = true /\ -128 <= prio th < 128.
Proof. split_and!; try done; by apply (wrap_s_range 8 p). Qed.

Section Calls.
Context (J : kstate -> Prop) `{!ObjInv J}.
Context (n : Z) (c : tid).

(** A new thread is there: not started, waiting for its delay, or released. *)
Definition create_effect (t : tid) (base : k_thread) (p options : Z) (delay : k_timeout_t) (s s' : kstate) : Prop :=
  let th := new_thread_of base p options in
  objs s' = objs s /\ mem s' = mem s /\
  (forall u, u <> t -> u <> current s -> threads s' !! u = threads s !! u) /\
  exists th', threads s' !! t = Some th' /\
    if K_TIMEOUT_EQ delay K_NO_WAIT then active t s' = false /\ released _THREAD_PRESTART t s s' th th'
    else th' = th /\ active t s' = negb (K_TIMEOUT_EQ delay K_FOREVER).

#[export] Instance create_effect_ok t base p options delay : Effect (fun s s' => t <> current s -> create_effect t base p options delay s s').
Proof.
  constructor. intros s s1 s2 Hv Hc Hne. destruct (Hc Hne) as (Ho & Hm & Hu & th' & E' & Hd). split_and!.
  - by rewrite (sv_objs _ _ _ Hv).
  - by rewrite (sv_mem _ _ _ Hv).
  - intros u Hu1 Hu2. rewrite (sv_threads _ _ _ Hv u Hu2). auto.
  - exists th'. rewrite (sv_threads _ _ _ Hv t Hne). split; [done|]. unfold released in *. by rewrite (sv_active _ _ _ _ Hv).
Qed.

Lemma active_insert t f d s q :
  deadlines q = insert_deadline (TN_thread t, f, d) (deadlines (tq s)) -> active t (set_tq q s) = true.
Proof.
  intros Hd. unfold active. cbn [tq set_tq]. apply is_linked_true. rewrite <- (nodes_deadlines 0). fold (deadlines q).
  rewrite Hd, list_elem_of_fmap. exists (TN_thread t, f, d). split; [done|]. apply elem_of_insert_deadline. by left.
Qed.

(** The new thread [t] is in the kernel, with or without a timeout. *)
Lemma created_stable b s s2 t th :
  Stable J n c b s -> threads s !! t = None -> waitq s (WQ_join t) = [] -> wake_fine th = true -> t <> current s ->
  RInv None s2 -> s2 = set_tq (tq s2) (created_st t th s) -> (forall u, u <> t -> active u s2 = active u s) ->
  Stable J n c b s2.
Proof.
  intros [[(Hi & Hc & Hu) Hn Hnb Hseg Ht] HJ] E Hj Hw Hcur Hi2 Es2 Ha.
  destruct (fresh_facts None s t Hi E) as (_ & _ & _ & Hnot & _).
  assert (Et : threads s2 = <[t := th]> (threads s)) by (by rewrite Es2).
  assert (Ec : threads s2 !! current s2 = threads s !! current s) by (rewrite Et, Es2; cbn; by rewrite lookup_insert_ne).
  split; [split|].
  - split; [done|split].
    + destruct Hc as [Hc|(Hc & Hin & Hp)]; [left; by rewrite Es2|right]. rewrite Ec. by rewrite Es2.
    + destruct Hu as [Hau Hu]. split; [rewrite Ha; rewrite Es2; done|]. rewrite Ec. by rewrite Es2.
  - by rewrite Es2.
  - done.
  - eapply seg_trans; [exact Hseg|]. eapply seg_new; [done|exact Et|by rewrite Es2|]. intros u Hne. by rewrite Ha.
  - intros H0. destruct (Ht H0) as (Hcc & Hr & Hb). split_and!; [by rewrite Es2| |done]. unfold running. by rewrite Ec.
  - eapply (obj_stable s); [|by rewrite Es2|by rewrite Es2|done]. rewrite Es2. eapply wframe_trans; [by apply wframe_created|].
    by apply wframe_ext.
Qed.

Lemma k_thread_create_spec b s t base p options delay :
  n = 0 -> is_first b = true -> began b = s -> Stable J n c b s -> threads s !! t = None -> waitq s (WQ_join t) = [] ->
  Z_VALID_PRIO p = true -> api_timeout delay ->
  let V s s' := t <> current s -> create_effect t base p options delay s s' in
  mwp (Guar J V) (Rely J c) b (z_impl_k_thread_create base t p options delay) s (fun b' r s' =>
    Stable J n c b' s' /\ effect V b' s' /\ r = t).
Proof.
  intros H0 Hf Hb Hs E Hj Hp Hd V. destruct (fresh_facts None s t (proj1 (so_inv _ _ _ _ Hs)) E) as (Ho & Hout & Ha & Hnot & Hcur).
  unfold z_impl_k_thread_create, arch_is_in_isr. ksteps. apply kwp_assert; [by rewrite (so_nested _ _ _ _ Hs), H0|]. ksteps.
  apply setup_spec; [done..|]. destruct (new_thread_bits base p options) as (Hbl & H7 & H1 & Hw & Hpr).
  set (th := new_thread_of base p options) in *. set (s1 := created_st t th s).
  assert (E1 : threads s1 !! t = Some th) by apply lookup_insert_eq.
  assert (Hi1 : RInv None s1) by (by apply RInv_created; [apply Hs|..]).
  assert (Hs1 : Stable J n c b s1) by (apply (created_stable b s s1 t th); try done; by destruct s).
  assert (HV : forall s2, objs s2 = objs s -> mem s2 = mem s ->
    (forall u, u <> t -> u <> current s -> threads s2 !! u = threads s !! u) ->
    (exists th', threads s2 !! t = Some th' /\
       if K_TIMEOUT_EQ delay K_NO_WAIT then active t s2 = false /\ released _THREAD_PRESTART t s s2 th th'
       else th' = th /\ active t s2 = negb (K_TIMEOUT_EQ delay K_FOREVER)) -> effect V b s2)
    by (intros s2 H2 H3 H4 H5 _ _; rewrite Hb; by split).
  assert (Hoth : forall u, u <> t -> threads s1 !! u = threads s !! u) by (intros u Hu; cbn; by rewrite lookup_insert_ne).
  destruct (K_TIMEOUT_EQ delay K_FOREVER) eqn:Hfv; cbn [negb].
  { ksteps. split_and!; [done| |done]. apply HV; [done..|by intros; apply Hoth|]. exists th. split; [done|].
    unfold K_TIMEOUT_EQ in *. apply Z.eqb_eq in Hfv as ->. by cbn. }
  unfold thread_schedule_new. destruct (K_TIMEOUT_EQ delay K_NO_WAIT) eqn:Hnw.
  - unfold z_impl_k_thread_start, z_sched_start, k_spin_lock, arch_irq_lock. ksteps. eapply kwp_get_thread; [exact E1|].
    change (z_has_thread_started th) with false. cbv iota. unfold z_mark_thread_as_started.
    eapply mwp_mono; [apply (release_call_spec no_metairq J n c V b (set_irq_locked true s1) t th); try done; [by apply (Stable_irq J)|by left|]|].
    + intros s' Ha' (H2 & H3 & H4 & _ & H5). apply HV; try done.
      * intros u Hu1 Hu2. rewrite H4 by done. by apply Hoth.
      * destruct (H5 th E1) as (th' & th1 & Hr' & E' & [->|[Ht _]]); [|by destruct Hcur].
        exists th'. split; [done|]. split; [by rewrite Ha'|exact Hr'].
    + cbv beta. intros b' _ s' (? & ? & _). by ksteps.
  - ksteps. assert (Hdl : valid_timeout delay) by (destruct Hd as [-> |]; [by vm_compute in Hfv|done]).
    eapply kwp_mono; [apply (add_timeout_spec None s1 t th); try done; [by left|apply Ho..]|]. cbv beta.
    intros _ s2 [Hi2 (q & -> & _ & Hdd)]. ksteps. split_and!; [| |done].
    + apply (created_stable b s _ t th); try done. intros u Hu. by eapply (active_insert_other u t _ _ s1).
    + apply HV; [done..|by intros; apply Hoth|]. exists th. split; [done|]. split; [done|]. by eapply (active_insert t _ _ s1).
Qed.
End Calls.
End Create.
