(* ===== verification/Clock.v ===== *)
(** * The clock interrupt (kernel/timeout.c, kernel/timeslicing.c)

    The kernel as the client of the announce loop: an expired timeout wakes its
    thread or marks the end of the time slice, and [sys_clock_announce] ends with
    every expired thread ready and every other deadline moved. *)

From S2P Require Import Prelude TimeUnits Timeout PriorityQ KState KLogic Sched SchedInv SchedOps Switch ThreadOps.
From S2P Require Import ThreadApi.

Local Open Scope Z_scope.

(** ** The ticks left to announce *)

Section Weight.
Implicit Types (d : deadline) (ds : list deadline) (r : Z).

Definition weights r ds : Z := foldr (fun d acc => Z.max 0 (r - d.2 + 1) + acc) 0 ds.

Lemma weights_cons r d ds : weights r (d :: ds) = Z.max 0 (r - d.2 + 1) + weights r ds.
Proof. done. Qed.

Lemma weight_deadlines b r l : weight_from (r - b) l = weights r (deadlines_from b l).
Proof.
  revert b. induction l as [|t l IH]; intros b; [done|].
  cbn [weight_from deadlines_from]. rewrite weights_cons, <- IH. cbn [snd]. f_equal; f_equal; lia.
Qed.

Lemma weights_nonneg r ds : 0 <= weights r ds.
Proof. induction ds; [done|]. rewrite weights_cons. lia. Qed.

Lemma weights_split P `{!forall d, Decision (P d)} r ds :
  weights r ds = weights r (filter P ds) + weights r (filter (fun d => ~ P d) ds).
Proof.
  induction ds as [|d ds IH]; [done|]. rewrite !filter_cons, weights_cons.
  destruct (decide (P d)) as [Hp|Hp].
  - rewrite (decide_False (P := ~ P d)), weights_cons by tauto. lia.
  - rewrite (decide_True (P := ~ P d)), weights_cons by done. lia.
Qed.

Lemma weights_elem r d ds : d ∈ ds -> Z.max 0 (r - d.2 + 1) <= weights r ds.
Proof.
  induction 1 as [d ds|d d' ds Hd IH]; rewrite weights_cons;
    [pose proof (weights_nonneg r ds)|]; lia.
Qed.

Lemma single_slice q : wf_timeouts q ->
  forall d ds, filter (fun d => ~ d.1.1 <> TN_slice) (deadlines q) = d :: ds -> ds = [].
Proof.
  intros [Hnd _]. rewrite <- (nodes_deadlines 0) in Hnd. fold (deadlines q) in Hnd. revert Hnd.
  generalize (deadlines q). intros l Hnd d ds E. destruct ds as [|d' ds]; [done|exfalso].
  assert (Hs : (fun x : deadline => x.1.1) <$> (d :: d' :: ds) `sublist_of` (fun x : deadline => x.1.1) <$> l).
  { rewrite <- E. apply fmap_sublist, sublist_filter. }
  apply (sublist_NoDup _ _ Hnd) in Hs. cbn in Hs. apply NoDup_cons in Hs as [Hn _]. apply Hn.
  assert (Hin : forall x, x ∈ d :: d' :: ds -> x.1.1 = TN_slice).
  { intros x. rewrite <- E. intros [Hx _]%list_elem_of_filter. by destruct (decide (x.1.1 = TN_slice)). }
  rewrite !Hin by set_solver. left.
Qed.

(** A new time slice adds fewer ticks than an expiry takes away. *)
Lemma weights_slice r q q' :
  wf_timeouts q' -> 0 <= r -> thread_deadlines q' = thread_deadlines q -> slice_step q q' ->
  weights r (deadlines q') <= weights r (deadlines q) + r.
Proof.
  intros Hwf Hr Ht Hs. rewrite (weights_split (fun d => d.1.1 <> TN_slice) r (deadlines q)),
    (weights_split (fun d => d.1.1 <> TN_slice) r (deadlines q')).
  unfold thread_deadlines in Ht. rewrite Ht.
  pose proof (weights_nonneg r (filter (fun d => ~ d.1.1 <> TN_slice) (deadlines q))) as Hn.
  destruct (filter (fun d => ~ d.1.1 <> TN_slice) (deadlines q')) as [|d ds] eqn:E; [cbn; lia|].
  rewrite (single_slice q' Hwf d ds E) in *. cbn.
  assert (Hd : d ∈ filter (fun d => ~ d.1.1 <> TN_slice) (deadlines q')) by (rewrite E; left).
  apply list_elem_of_filter in Hd as [Hd1 Hd2].
  destruct (Hs d Hd2) as [Hin|]; [by destruct (decide (d.1.1 = TN_slice))| |lia].
  assert (Hin' : d ∈ filter (fun d => ~ d.1.1 <> TN_slice) (deadlines q)) by (by apply list_elem_of_filter).
  pose proof (weights_elem r d _ Hin'). lia.
Qed.
End Weight.

Section Expiry.
Context `{KConfig}.
Implicit Types (s : kstate) (t : timeout) (l : list timeout) (q : timeout_q) (u v : tid) (th : k_thread).

Lemma sframe_same x s s' :
  threads s' = threads s -> objs s' = objs s -> mem s' = mem s -> nested s' = nested s -> current s' = current s ->
  waitqs s' = waitqs s -> (forall u, active u s' = true -> active u s = true) -> sframe_but x s s'.
Proof.
  intros Et Eo Em En Ec Ew Ha. split; try done.
  - intros w. unfold waitq. by rewrite Ew.
  - by rewrite Et.
  - rewrite Et. intros u th E. exists th. split; [done|apply thread_frame_refl].
  - intros u th th' E E' _ Hp Hn. rewrite Et in E'. congruence.
Qed.

Definition later (d : Z) (x : deadline) : deadline := (x.1, x.2 - d).

Lemma expire_deadlines t l q :
  timeout_list q = t :: l -> wf_timeouts q ->
  deadlines (announce_expire t q) = deadlines_from 0 l /\ wf_timeouts (announce_expire t q) /\
  exists rest, deadlines q = (node t, fn t, dticks t) :: rest /\ deadlines_from 0 l = later (dticks t) <$> rest.
Proof.
  intros El Hwf. pose proof (announce_expire_list t l q El Hwf) as El'.
  unfold deadlines, wf_timeouts in *. rewrite El'. rewrite El in *. split_and!; [done|by eapply wf_list_tail|].
  exists (deadlines_from (dticks t) l). split; [done|]. rewrite <- (Z.add_0_l (dticks t)) at 2.
  rewrite deadlines_from_shift, <- list_fmap_compose, <- (list_fmap_id (deadlines_from 0 l)) at 1.
  apply list_fmap_ext. intros i [x d] _. unfold later. cbn. f_equal. lia.
Qed.

Lemma expire_nodes t l q u :
  timeout_list q = t :: l -> wf_timeouts q -> node t <> TN_thread u ->
  is_linked (TN_thread u) (announce_expire t q) = is_linked (TN_thread u) q.
Proof.
  intros El Hwf Hne. unfold is_linked. rewrite (announce_expire_list t l q El Hwf), El.
  apply bool_decide_ext. rewrite fmap_cons, elem_of_cons. naive_solver.
Qed.

Lemma expire_gone t l q :
  timeout_list q = t :: l -> wf_timeouts q -> is_linked (node t) (announce_expire t q) = false.
Proof.
  intros El Hwf. unfold is_linked. rewrite (announce_expire_list t l q El Hwf). apply bool_decide_eq_false.
  destruct Hwf as [Hnd _]. rewrite El in Hnd. by apply NoDup_cons in Hnd as [Hn _].
Qed.

Lemma expire_dom t l s :
  RInv None s -> timeout_list (tq s) = t :: l ->
  Forall (deadline_ok s) (deadlines (announce_expire t (tq s))) /\ deadline_ok s (node t, fn t, dticks t).
Proof.
  intros Hi El. destruct (expire_deadlines t l (tq s) El (ri_tq_wf _ _ Hi)) as (Hd & _ & rest & Hr & Hl).
  pose proof (ri_tq_dom _ _ Hi) as Hf. rewrite Hr in Hf. apply Forall_cons in Hf as [Ht Hf]. split; [|done].
  rewrite Hd, Hl. apply Forall_fmap. eapply Forall_impl; [exact Hf|]. by intros [].
Qed.

(** The queue's head left: the thread is between queues. *)
Lemma expire_floating s t l u :
  SInv s -> timeout_list (tq s) = t :: l -> node t = TN_thread u ->
  floating u (set_tq (announce_expire t (tq s)) s) /\ u <> thread_dummy /\ u <> current s /\
  active u s = true /\ is_Some (threads s !! u).
Proof.
  intros (Hi & Hc & Hu) El En. pose proof (ri_tq_wf _ _ Hi) as Hwf.
  destruct (expire_deadlines t l (tq s) El Hwf) as (_ & Hwf' & _).
  destruct (expire_dom t l s Hi El) as [Hd Hdt]. unfold deadline_ok in Hdt. cbn [fst] in Hdt. rewrite En in Hdt.
  assert (Hex : is_Some (threads s !! u)) by (by destruct (fn t)). destruct Hex as [th E].
  assert (Ha : active u s = true).
  { unfold active, is_linked. apply bool_decide_eq_true. rewrite El, fmap_cons, En. left. }
  assert (Hne : u <> current s) by (intros ->; destruct Hu as [Hau _]; congruence).
  assert (Hid : u <> z_idle_thread) by (intros ->; pose proof (ri_idle_timeout _ _ Hi); congruence).
  assert (Hdu : u <> thread_dummy) by (intros ->; pose proof (ri_dummy_timeout _ _ Hi); congruence).
  assert (Hrq : u ∉ runq s).
  { intros Hin. destruct (tok_runs _ _ _ _ (ri_thread _ _ _ _ Hi E) Hin) as (_ & Hna & _). congruence. }
  assert (Hoth : forall v, v <> u -> active v (set_tq (announce_expire t (tq s)) s) = active v s).
  { intros v Hv. unfold active. apply (expire_nodes t l); [done..|]. congruence. }
  split; [split; [|split; [done|split; [|done]]]|by eauto 10].
  - apply (RInv_update None (Some u) s _ u th); [done|eauto| | |naive_solver|done|done].
    + apply (update_ok_tq None s u th); try done. exact (ri_clock _ _ Hi).
    + destruct (ri_thread _ _ _ _ Hi E). split; done.
  - destruct Hu as [Hau Hu]. split; [by rewrite Hoth|]. intros Hcu. split; [by rewrite Hoth|done].
Qed.

Lemma expire_slice s t l :
  SInv s -> timeout_list (tq s) = t :: l -> node t = TN_slice -> SInv (set_tq (announce_expire t (tq s)) s).
Proof.
  intros (Hi & Hc & Hu) El En. pose proof (ri_tq_wf _ _ Hi) as Hwf.
  destruct (expire_deadlines t l (tq s) El Hwf) as (_ & Hwf' & _).
  destruct (expire_dom t l s Hi El) as [Hd _].
  assert (Hoth : forall v, is_linked (TN_thread v) (announce_expire t (tq s)) = active v s).
  { intros v. apply (expire_nodes t l); [done..|]. by rewrite En. }
  split; [|split; [done|]].
  - eapply RInv_tq; try done. exact (ri_clock _ _ Hi).
  - destruct Hu as [Hau Hu]. split; [|done]. unfold active. cbn. by rewrite Hoth.
Qed.

(** ** The callbacks *)

(** What the timeout of a thread leaves of it: a dead one stays dead, any other is free
    of what its timeout can free it from, with the return value it had. *)
Definition timed_out (th th' : k_thread) : Prop :=
  prio th' = prio th /\ swap_retval th' = swap_retval th /\
  if st 3 th then th' = th else pended_on th' = None /\ blocked th' = st 0 th.

(** What running the callback of a timeout does, the thread [x]'s if any. *)
Record fired (x : option tid) (s s' : kstate) : Prop := {
  fd_inv : SInv s';
  fd_frame : sframe_but x s s';
  fd_others : forall v, x <> Some v -> threads s' !! v = threads s !! v;
  fd_runq : forall v, v ∈ runq s -> v ∈ runq s';
  fd_clock : same_clock (tq s) (tq s');
  fd_deadlines : thread_deadlines (tq s') = thread_deadlines (tq s);
  fd_slice : slice_step (tq s) (tq s');
  fd_irq : irq_locked s' = irq_locked s;
  fd_thread : forall u th, x = Some u -> threads s !! u = Some th ->
    exists th', threads s' !! u = Some th' /\ timed_out th th' /\
      (blocked th' = false -> u ∈ runq s')
}.

Lemma woken_thread_st m th :
  0 <= m -> st m (woken_thread true th) = st m th && negb ((m =? 2) || (m =? 4)) &&
    (negb (m =? 1) || bool_decide (pended_on th = None)).
Proof.
  intros Hm. unfold woken_thread. cbn [pended_on with_no_wake_on_timeout].
  destruct (decide (pended_on th = None)) as [Hp|Hp].
  - rewrite (bool_decide_true (pended_on th = None)), orb_true_r, andb_true_r by done. bits_simpl.
    change (st m (with_no_wake_on_timeout false th)) with (st m th). by rewrite negb_orb, andb_assoc.
  - rewrite (bool_decide_false (pended_on th = None)), orb_false_r by done. bits_simpl.
    change (st m (unpended (with_no_wake_on_timeout false th))) with (st m (clear_state_bits _THREAD_PENDING th)).
    bits_simpl. destruct (st m th), (m =? 1), (m =? 2), (m =? 4); done.
Qed.

Lemma woken_thread_pended th : pended_on (woken_thread true th) = None.
Proof. unfold woken_thread. by case_decide. Qed.

Lemma woken_thread_blocked th :
  st 1 th = bool_decide (pended_on th <> None) -> st 3 th = false -> blocked (woken_thread true th) = st 0 th.
Proof.
  intros H1 H3. unfold blocked. rewrite !woken_thread_st, H1, H3 by lia. cbn [Z.eqb Pos.eqb orb negb].
  destruct (decide (pended_on th = None)) as [Hp|Hp].
  - rewrite (bool_decide_false (pended_on th <> None)) by tauto. by destruct (st 0 th), (st 2 th), (st 4 th).
  - rewrite (bool_decide_false (pended_on th = None)) by done.
    by destruct (st 0 th), (st 2 th), (st 4 th), (bool_decide _).
Qed.

Lemma woken_thread_frame th : thread_frame th (woken_thread true th).
Proof.
  assert (Hst : forall m, 0 <= m -> (m =? 2) || (m =? 4) || (m =? 1) = false -> st m (woken_thread true th) = st m th).
  { intros m Hm. rewrite woken_thread_st by done.
    by destruct (m =? 2), (m =? 4), (m =? 1); cbn; rewrite ?andb_true_r. }
  assert (Hd : waiter_data (woken_thread true th) = waiter_data th /\ swap_retval (woken_thread true th) = swap_retval th)
    by (unfold woken_thread; by case_decide). destruct Hd as [Hd Hr]. split_and!; [done|done|right; apply woken_thread_pended| |].
  - by rewrite Hst.
  - unfold wake_fine. rewrite !Hst, woken_thread_pended by done. 
    rewrite (bool_decide_false (@None wqid <> None)) by tauto.
    replace (no_wake_on_timeout (woken_thread true th)) with false by (unfold woken_thread; by case_decide).
    rewrite !andb_true_iff. cbn. rewrite andb_false_r. tauto.
Qed.

Lemma woken_st_waitq s u th w : waitq (woken_st true u th s) w `sublist_of` waitq s w.
Proof.
  unfold woken_st. destruct (pended_on th) as [w'|]; [|done].
  change (waitq (set_waitqs (<[w' := z_priq_dumb_remove u (waitq s w')]> (waitqs s)) s) w `sublist_of` waitq s w).
  rewrite waitq_insert. case_decide; [subst; apply remove_elem_sublist|done].
Qed.

Lemma dead_settle u s th :
  floating u s -> threads s !! u = Some th -> blocked th = true -> current s <> u -> SInv s.
Proof.
  intros (Hi & Hc & Hu & _) E Hb Hne. split; [|split; [done|by apply Hu]].
  eapply RInv_settle; [done|]. intros th' E'. congruence.
Qed.

Lemma readied_clock u th s s' :
  readied u th s s' -> (forall v, v ∈ runq s -> v ∈ runq s') /\ same_clock (tq s) (tq s') /\
  thread_deadlines (tq s') = thread_deadlines (tq s) /\ slice_step (tq s) (tq s').
Proof.
  unfold readied. destruct (_ || _ || _); [intros ->; by split_and!|]. intros [].
  split_and!; [|apply cf_clock..|done|done]. intros v Hv. rewrite cf_runq. apply elem_of_dumb_add. by right.
Qed.

Lemma timed_out_woken th th' :
  st 1 th = bool_decide (pended_on th <> None) -> st 3 th = false ->
  th' = woken_thread true th \/ th' = set_state_bits _THREAD_QUEUED (woken_thread true th) -> timed_out th th'.
Proof.
  intros H1 H3 Hth. unfold timed_out. rewrite H3. pose proof (woken_thread_blocked th H1 H3) as Hb.
  pose proof (woken_thread_pended th) as Hp. destruct (woken_thread_frame th) as (_ & Hr & _).
  assert (Hpr : prio (woken_thread true th) = prio th) by (unfold woken_thread; by case_decide).
  destruct Hth as [-> | ->]; [by split_and!|]. split_and!; try done. by bits_simpl.
Qed.

Lemma wake_fired u s s' th :
  floating u (woken_st true u th s) -> threads s !! u = Some th -> active u s = false ->
  st 1 th = bool_decide (pended_on th <> None) -> st 3 th = false -> u <> z_idle_thread -> SInv s' ->
  readied u (woken_thread true th) (woken_st true u th s) s' -> fired (Some u) s s'.
Proof.
  intros Hf E Ha H1 H3 Hid Hs Hr.
  assert (Et : threads (woken_st true u th s) = <[u := woken_thread true th]> (threads s))
    by (unfold woken_st; by destruct (pended_on th)).
  assert (Ef : forall A (f : kstate -> A), (forall a b s, f (set_threads a (set_waitqs b s)) = f s) ->
    (forall a s, f (set_threads a s) = f s) -> f (woken_st true u th s) = f s).
  { intros A f Hf1 Hf2. unfold woken_st. destruct (pended_on th); [by rewrite Hf1|by rewrite Hf2]. }
  assert (E1 : threads (woken_st true u th s) !! u = Some (woken_thread true th)) by (rewrite Et; apply lookup_insert_eq).
  destruct (readied_clock _ _ _ _ Hr) as (Hrq & Hcl & Hd & Hsl). destruct (readied_threads _ _ _ _ E1 Hr) as [Hoth Hth].
  assert (Hfr : sframe_but (Some u) s (woken_st true u th s)).
  { eapply (sframe_put _ s _ u th); first [exact Et|done|by apply Ef|idtac].
    - intros w. apply woken_st_waitq.
    - apply woken_thread_frame.
    - by left. }
  split; try done.
  - eapply sframe_trans; [exact Hfr|]. by eapply readied_frame.
  - intros v Hv. rewrite Hoth by congruence. rewrite Et, lookup_insert_ne by congruence. done.
  - intros v Hv. apply Hrq. by rewrite (Ef _ runq).
  - by rewrite (Ef _ tq) in Hcl.
  - by rewrite (Ef _ tq) in Hd.
  - by rewrite (Ef _ tq) in Hsl.
  - rewrite (readied_irq_locked _ _ _ _ Hr). by apply Ef.
  - intros ? ? [= <-] ?. simplify_eq. assert (Hex : exists th', threads s' !! u = Some th' /\ timed_out th th')
      by (destruct Hth; eexists; (split; [done|]); apply timed_out_woken; auto).
    destruct Hex as (th' & E' & Hto). exists th'. split_and!; [done..|]. intros Hb. destruct Hs as (Hi & _).
    apply (tok_ready _ _ _ _ (ri_thread _ _ _ _ Hi E')); try done.
    destruct (active u s') eqn:Ha'; [|done]. rewrite <- Ha. symmetry. apply (sf_active _ _ _ Hfr).
    by apply (sf_active _ _ _ (readied_frame None _ _ _ _ E1 Hr)).
Qed.

Lemma fired_dead u s th :
  SInv s -> threads s !! u = Some th -> st 3 th = true -> fired (Some u) s s.
Proof.
  intros Hs E H3. split; try done; [apply sframe_refl|]. intros ? ? [= <-] ?. simplify_eq.
  exists th. unfold timed_out. rewrite H3. split_and!; try done. unfold blocked. by rewrite H3, !orb_true_r.
Qed.

Hypothesis no_metairq : CONFIG_NUM_METAIRQ_PRIORITIES = 0.

Lemma thread_timeout_spec u s th :
  floating u s -> u <> thread_dummy -> current s <> u -> threads s !! u = Some th -> wake_fine th = true ->
  active u s = false -> kwp (z_thread_timeout u) s (fun _ s' => fired (Some u) s s').
Proof.
  intros Hf Hdu Hcu E Hw Ha. unfold wake_fine in Hw. rewrite !andb_true_iff, !negb_true_iff in Hw.
  destruct Hw as [[Hnw H5] _]. destruct (st 3 th) eqn:H3.
  - assert (Hs : SInv s) by (eapply dead_settle; [done..| |done]; unfold blocked; by rewrite H3, !orb_true_r).
    unfold z_thread_timeout, z_sched_wake_thread. apply kwp_spinlock. kstep. eapply kwp_get_thread; [exact E|].
    rewrite is_killed_st, H3, Hnw. ksteps. eapply kwp_upd_thread; [exact E|]. cbn [andb orb negb kwhen]. ksteps.
    match goal with |- fired _ _ ?s' => assert (Es : s' = s); [|rewrite Es; by eapply fired_dead] end.
    assert (Eth : with_no_wake_on_timeout false th = th) by (destruct th; cbn in *; by subst).
    rewrite Eth. destruct s; unfold set_irq_locked, set_threads; cbn in *. by rewrite insert_id.
  - pose proof Hf as (Hi & _ & _ & Hid).
    eapply kwp_mono; [apply (sched_wake_spec no_metairq s u th true Hf E Hdu); [by rewrite Hnw|by rewrite H3, H5]|].
    cbv beta. intros _ s' (Hf' & Hs' & Hr). apply (wake_fired u s s' th); try done.
    apply (tok_pending _ _ _ _ (ri_thread _ _ _ _ Hi E)).
Qed.

Lemma slice_timeout_spec s : SInv s -> kwp slice_timeout s (fun _ s' => fired None s s').
Proof.
  intros (Hi & Hc & Hu). unfold slice_timeout. ksteps. split; try done.
  - split; [by eapply RInv_ext; [..|exact Hi]|done].
  - by apply sframe_same.
Qed.

Definition node_thread (n : timeout_node) : option tid := match n with TN_thread u => Some u | TN_slice => None end.

(** One expiry. *)
Lemma expire_fired s t l :
  SInv s -> wake_ok s -> timeout_list (tq s) = t :: l ->
  exists s', run_timeout_fn (fn t) (node t) (set_tq (announce_expire t (tq s)) s) = Some s' /\
    fired (node_thread (node t)) (set_tq (announce_expire t (tq s)) s) s' /\ sframe s s' /\
    (running s -> running s').
Proof.
  intros Hs Hw El. destruct (expire_dom t l s (proj1 Hs) El) as [_ Hdt]. unfold deadline_ok in Hdt. cbn [fst] in Hdt.
  destruct (node t) as [u|] eqn:En, (fn t) eqn:Efn; try done; cbn [run_timeout_fn node_thread].
  - destruct (expire_floating s t l u Hs El En) as (Hf & Hdu & Hcu & Ha & th & E).
    pose proof (expire_gone t l (tq s) El (ri_tq_wf _ _ (proj1 Hs))) as Hg. rewrite En in Hg.
    set (s1 := set_tq (announce_expire t (tq s)) s) in *.
    pose proof (thread_timeout_spec u s1 th Hf Hdu (not_eq_sym Hcu) E (Hw u th E) Hg) as Hk. unfold kwp in Hk.
    destruct (z_thread_timeout u s1) as [[[] s']|]; [|done]. exists s'. split_and!; [done|done| |].
    + destruct (fd_frame _ _ _ Hk). split; try done.
      * intros v Hv. apply sf_active in Hv. destruct (decide (v = u)) as [->|Hne]; [congruence|].
        unfold active in *. rewrite <- Hv. symmetry. apply (expire_nodes t l); [done|apply Hs|congruence].
      * intros v thv thv' Ev Ev' _ Hp Hn. destruct (decide (v = u)) as [->|Hne]; [by left|].
        rewrite (fd_others _ _ _ Hk v) in Ev' by congruence. cbn in Ev'. congruence.
    + unfold running. rewrite (sf_current _ _ _ (fd_frame _ _ _ Hk)). cbn.
      rewrite (fd_others _ _ _ Hk) by congruence. done.
  - pose proof (expire_slice s t l Hs El En) as Hs1. set (s1 := set_tq (announce_expire t (tq s)) s) in *.
    exists (set_slice_expired true s1). pose proof (slice_timeout_spec s1 Hs1) as Hk.
    split_and!; [done|exact Hk| |done]. apply sframe_same; try done.
    intros v. unfold active. cbn. rewrite (expire_nodes t l); [done..|apply Hs|congruence].
Qed.

(** ** The announcement *)

Lemma linked_from_deadlines n q : is_linked n q = bool_decide (n ∈ (fun x => x.1) <$> (fst <$> deadlines q)).
Proof. unfold is_linked. by rewrite <- list_fmap_compose, <- (nodes_deadlines 0). Qed.

(** Moving deadlines is invisible to the scheduler. *)
Lemma clock_step s q :
  SInv s -> wf_timeouts q -> hw_elapsed q = hw_elapsed (tq s) -> fst <$> deadlines q = fst <$> deadlines (tq s) ->
  sched_step s (set_tq q s).
Proof.
  intros (Hi & Hc & Hu) Hwf He Hd.
  assert (Ha : forall u, is_linked (TN_thread u) q = active u s).
  { intros u. unfold active. by rewrite !linked_from_deadlines, Hd. }
  split; try done.
  - split; [|split; [done|]].
    + eapply RInv_tq; try done.
      * unfold valid_elapsed. rewrite He. apply (ri_clock _ _ Hi).
      * pose proof (ri_tq_dom _ _ Hi) as Hok. apply Forall_forall. intros x Hx. rewrite Forall_forall in Hok.
        assert (Hx' : x.1 ∈ fst <$> deadlines (tq s)) by (rewrite <- Hd; by apply list_elem_of_fmap_2).
        apply list_elem_of_fmap in Hx' as (y & Ey & Hy). specialize (Hok y Hy). unfold deadline_ok in *. by rewrite Ey.
    + destruct Hu as [Hau Hu]. split; [|done]. unfold active. cbn. by rewrite Ha.
  - apply sframe_same; try done. intros u. unfold active at 1. cbn. by rewrite Ha.
Qed.

Lemma thread_deadlines_later d (ds : list deadline) :
  filter (fun x : deadline => x.1.1 <> TN_slice) (later d <$> ds) =
  later d <$> filter (fun x : deadline => x.1.1 <> TN_slice) ds.
Proof.
  induction ds as [|x ds IH]; [done|]. rewrite fmap_cons, !filter_cons. cbn [later fst].
  case_decide; rewrite IH; done.
Qed.

Lemma later_later d e (ds : list deadline) : later d <$> (later e <$> ds) = later (e + d) <$> ds.
Proof. rewrite <- list_fmap_compose. apply list_fmap_ext. intros i x _. unfold later. cbn. f_equal. lia. Qed.

Abbreviation nodes ds := ((fun x : deadline => x.1.1) <$> ds).

(** After the first [e] of the announced ticks: the threads of [done] have timed out,
    the deadlines of [rest] are ahead. *)
Record announced (done rest : list deadline) (s0 : kstate) (e : Z) (s : kstate) : Prop := {
  an_split : thread_deadlines (tq s0) = done ++ rest;
  an_due : Forall (fun x : deadline => x.2 <= e) done;
  an_rest : thread_deadlines (tq s) = later e <$> rest;
  an_tick : u64 (curr_tick (tq s)) = u64 (curr_tick (tq s0) + e);
  an_frame : objs s = objs s0 /\ mem s = mem s0 /\ irq_locked s = irq_locked s0;
  an_others : forall u, TN_thread u ∉ nodes done -> threads s !! u = threads s0 !! u;
  an_timed : forall u th, TN_thread u ∈ nodes done -> threads s0 !! u = Some th ->
    exists th', threads s !! u = Some th' /\ timed_out th th' /\ (blocked th' = false -> u ∈ runq s)
}.

Lemma announced_none s0 s :
  thread_deadlines (tq s) = thread_deadlines (tq s0) -> curr_tick (tq s) = curr_tick (tq s0) ->
  threads s = threads s0 -> objs s = objs s0 -> mem s = mem s0 -> irq_locked s = irq_locked s0 ->
  announced [] (thread_deadlines (tq s0)) s0 0 s.
Proof.
  intros Hd Ht Hth Ho Hm Hi. split; try done.
  - rewrite Hd, <- (list_fmap_id (thread_deadlines (tq s0))) at 1. apply list_fmap_ext.
    intros i [x d] _. unfold later. cbn. f_equal. lia.
  - by rewrite Ht, Z.add_0_r.
  - by rewrite Hth.
  - by intros u th ?%not_elem_of_nil.
Qed.

Lemma thread_nodes_nodup q : wf_timeouts q -> NoDup (nodes (thread_deadlines q)).
Proof.
  intros [Hnd _]. rewrite <- (nodes_deadlines 0) in Hnd. fold (deadlines q) in Hnd.
  eapply sublist_NoDup; [exact Hnd|]. apply fmap_sublist, sublist_filter.
Qed.

Lemma expire_tick e q q0 t :
  u64 (curr_tick q) = u64 (curr_tick q0 + e) -> 0 <= dticks t <= INT_MAX ->
  u64 (curr_tick (announce_expire t q)) = u64 (curr_tick q0 + (e + dticks t)).
Proof.
  intros Ht Hd. unfold announce_expire. cbn [curr_tick with_curr_tick with_list]. rewrite s32_id by done.
  unfold wrap_u in *. rewrite Zmod_mod, <- Zplus_mod_idemp_l, Ht, Zplus_mod_idemp_l. f_equal. lia.
Qed.

Lemma thread_deadlines_cons x ds :
  filter (fun x : deadline => x.1.1 <> TN_slice) (x :: ds) =
  (if decide (x.1.1 = TN_slice) then [] else [x]) ++ filter (fun x : deadline => x.1.1 <> TN_slice) ds.
Proof. rewrite filter_cons. by destruct (decide (x.1.1 = TN_slice)), (decide (x.1.1 <> TN_slice)). Qed.

(** The split of the original deadlines after one more expiry. *)
Lemma expire_split dn rest s0 e s t l :
  announced dn rest s0 e s -> wf_timeouts (tq s) -> timeout_list (tq s) = t :: l -> 0 <= dticks t ->
  let x := (node t, fn t, e + dticks t) in
  exists rest', rest = (if decide (node t = TN_slice) then [] else [x]) ++ rest' /\
    thread_deadlines (announce_expire t (tq s)) = later (e + dticks t) <$> rest'.
Proof.
  intros Ha Hwf El Hd x. destruct (expire_deadlines t l (tq s) El Hwf) as (Hde & _ & ds & Hq & Hl).
  pose proof (an_rest _ _ _ _ _ Ha) as Hr. unfold thread_deadlines in *. rewrite Hq, thread_deadlines_cons in Hr.
  cbn [fst] in Hr. rewrite Hde, Hl, thread_deadlines_later.
  destruct (decide (node t = TN_slice)) as [Hn|Hn].
  - cbn [app] in *. exists rest. split; [done|]. by rewrite Hr, later_later.
  - destruct rest as [|y rest']; [done|]. rewrite fmap_cons in Hr. apply (inj2 cons) in Hr as [Hy Hr]. exists rest'. split.
    + cbn. f_equal. unfold x. destruct y as [[n0 f0] d0]. cbn in *. injection Hy as <- <- ->. f_equal. lia.
    + by rewrite Hr, later_later.
Qed.

(** The thread deadlines that the expiry of [t] meets. *)
Definition met (e : Z) (t : timeout) : list deadline :=
  if decide (node t = TN_slice) then [] else [(node t, fn t, e + dticks t)].

Lemma announced_step dn rest s0 e s t l s' :
  wf_timeouts (tq s0) -> wf_timeouts (tq s) -> announced dn rest s0 e s -> timeout_list (tq s) = t :: l ->
  0 <= dticks t <= INT_MAX ->
  fired (node_thread (node t)) (set_tq (announce_expire t (tq s)) s) s' ->
  exists rest', announced (dn ++ met e t) rest' s0 (e + dticks t) s'.
Proof.
  intros Hwf0 Hwf Ha El Hd Hf. set (s1 := set_tq (announce_expire t (tq s)) s) in *.
  destruct (expire_split dn rest s0 e s t l Ha Hwf El) as (rest' & Er & Er'); [lia|].
  unfold met. set (x := (node t, fn t, e + dticks t)) in *.
  set (now := if decide (node t = TN_slice) then [] else [x]) in *. exists rest'.
  assert (Hnd : NoDup (nodes (dn ++ now))).
  { pose proof (thread_nodes_nodup _ Hwf0) as Hnd. rewrite (an_split _ _ _ _ _ Ha), Er, app_assoc, fmap_app in Hnd.
    by apply NoDup_app in Hnd as (? & _). }
  assert (Hnow : forall u, TN_thread u ∈ nodes now <-> node_thread (node t) = Some u).
  { intros u. unfold now. destruct (node t); cbn; rewrite ?list_elem_of_singleton.
    - rewrite decide_False by done. cbn. rewrite list_elem_of_singleton. naive_solver.
    - split; [by intros ?%not_elem_of_nil|done]. }
  rewrite fmap_app in Hnd. apply NoDup_app in Hnd as (_ & Hnd & _).
  destruct (fd_frame _ _ _ Hf), (an_frame _ _ _ _ _ Ha) as (Ho & Hm & Hirq). split.
  - by rewrite (an_split _ _ _ _ _ Ha), Er, app_assoc.
  - apply Forall_app. split; [eapply Forall_impl; [apply Ha|cbn; lia]|].
    unfold now. case_decide; constructor; cbn; [lia|constructor].
  - rewrite (fd_deadlines _ _ _ Hf). exact Er'.
  - destruct (fd_clock _ _ _ Hf) as [-> _]. apply expire_tick; [apply Ha|done].
  - rewrite sf_objs, sf_mem, (fd_irq _ _ _ Hf). done.
  - intros u Hu. rewrite fmap_app, elem_of_app, Hnow in Hu. rewrite (fd_others _ _ _ Hf) by tauto.
    apply (an_others _ _ _ _ _ Ha). tauto.
  - intros u th Hu E. rewrite fmap_app, elem_of_app in Hu. destruct Hu as [Hu|Hu].
    + destruct (an_timed _ _ _ _ _ Ha u th Hu E) as (th' & E' & Hto & Hq). exists th'.
      rewrite (fd_others _ _ _ Hf) by (rewrite <- Hnow; by apply Hnd). split_and!; [done..|].
      intros Hb. by apply (fd_runq _ _ _ Hf), Hq.
    + apply (fd_thread _ _ _ Hf); [by apply Hnow|]. rewrite <- E. apply (an_others _ _ _ _ _ Ha).
      intros Hin. by destruct (Hnd _ Hin).
Qed.

(** ** A record of the callbacks

    The callbacks as they are, with each call and the tick of the clock written down. *)
Abbreviation recorded := (kstate * list (timeout_node * Z))%type.
Definition recorded_tq (x : recorded) : timeout_q := tq x.1.
Definition set_recorded_tq (q : timeout_q) (x : recorded) : recorded := (set_tq q x.1, x.2).
Definition recording (f : timeout_fn) (n : timeout_node) (x : recorded) : option recorded :=
  s ← run_timeout_fn f n x.1; Some (s, x.2 ++ [(n, curr_tick (tq x.1))]).
Definition announce_recorded (ticks : Z) (s : kstate) : option recorded :=
  announce recorded_tq set_recorded_tq recording ticks (s, []).

(** The calls for threads. *)
Definition thread_entries (lg : list (timeout_node * Z)) : list (timeout_node * Z) :=
  filter (fun x => x.1 <> TN_slice) lg.
Definition log_entry (now : Z) (x : deadline) : timeout_node * Z := (x.1.1, u64 (now + x.2)).

Lemma recording_loop fuel s lg :
  fst <$> announce_loop recorded_tq set_recorded_tq recording fuel (s, lg) = announce_loop tq set_tq run_timeout_fn fuel s.
Proof.
  revert s lg. induction fuel as [|fuel IH]; intros s lg; cbn [announce_loop]; change (recorded_tq (s, lg)) with (tq s);
    (destruct (first (tq s)) as [t|]; [|done]); (destruct (dticks t <=? announce_remaining (tq s)); [|done]); [done|].
  unfold recording, set_recorded_tq. cbn [fst snd].
  destruct (run_timeout_fn (fn t) (node t) (set_tq (announce_expire t (tq s)) s)) as [s'|]; [|done]. cbn [mbind option_bind]. apply IH.
Qed.

Section Announce.
Context (J : kstate -> Prop) `{!ObjInv J} (n : Z) (c : tid) (b : stretch) (s0 : kstate) (ticks : Z).
Hypothesis ticks_ok : 0 <= ticks <= INT_MAX.
Hypothesis start_wf : wf_timeouts (tq s0).

(** What the announce loop keeps true, when the deadlines [dn] have been met. *)
Definition announcing (dn : list deadline) (s : kstate) : Prop :=
  Stable J n c b s /\ 0 <= announce_remaining (tq s) <= ticks /\
  exists rest, announced dn rest s0 (ticks - announce_remaining (tq s)) s.

Lemma announced_remaining dn rest e s r :
  announced dn rest s0 e s -> announced dn rest s0 e (set_tq (with_announce_remaining r (tq s)) s).
Proof. intros []. by split. Qed.

Lemma expiry_weight t l r q q' :
  timeout_list q = t :: l -> wf_timeouts q -> wf_timeouts q' -> dticks t <= r ->
  thread_deadlines q' = thread_deadlines (announce_expire t q) -> slice_step (announce_expire t q) q' ->
  weight_from (r - dticks t) (timeout_list q') < weight_from r (timeout_list q).
Proof.
  intros El Hwf Hwf' Hr Hd Hs. rewrite El. cbn [weight_from].
  pose proof (weights_slice (r - dticks t) (announce_expire t q) q' Hwf' ltac:(lia) Hd Hs) as Hw.
  destruct (expire_deadlines t l q El Hwf) as (Hde & _). rewrite Hde in Hw. unfold deadlines in Hw.
  rewrite <- !weight_deadlines, Z.sub_0_r in Hw. lia.
Qed.

(** One round of the loop. *)
Lemma announcing_step dn s t :
  announcing dn s -> first (tq s) = Some t -> dticks t <= announce_remaining (tq s) ->
  exists s', run_timeout_fn (fn t) (node t) (set_tq (announce_expire t (tq s)) s) = Some s' /\
    curr_tick (announce_expire t (tq s)) = u64 (curr_tick (tq s0) + (ticks - announce_remaining (tq s) + dticks t)) /\
    let s'' := set_tq (with_announce_remaining (s32 (announce_remaining (tq s') - s32 (dticks t))) (tq s')) s' in
    announcing (dn ++ met (ticks - announce_remaining (tq s)) t) s'' /\
    announce_weight (tq s'') < announce_weight (tq s).
Proof using All.
  intros (Hs & Hr & rest & Ha) Ef Hle.
  pose proof (so_inv _ _ _ _ Hs) as Hi. pose proof (ri_tq_wf _ _ (proj1 Hi)) as Hwf.
  unfold first in Ef. destruct (timeout_list (tq s)) as [|t' l] eqn:El; [done|]. injection Ef as ->.
  assert (Hb : 0 <= dticks t).
  { unfold wf_timeouts in Hwf. rewrite El in Hwf. apply wf_list_bounds, Forall_cons in Hwf as [Hb _]. lia. }
  destruct (expire_fired s t l Hi (obj_wake _ (so_obj _ _ _ _ _ Hs)) El) as (s' & Hrun & Hf & Hfr & Hru).
  exists s'. split; [done|]. split.
  { pose proof (an_tick _ _ _ _ _ Ha) as Htk. unfold announce_expire. cbn. rewrite s32_id by lia. unfold wrap_u in *.
    rewrite <- Zplus_mod_idemp_l, Htk, Zplus_mod_idemp_l. f_equal. lia. }
  cbv zeta. rewrite (s32_id (dticks t)) by lia.
  destruct (fd_clock _ _ _ Hf) as (_ & Hrem & _).
  change (announce_remaining (tq (set_tq _ s))) with (announce_remaining (tq s)) in Hrem.
  rewrite Hrem, s32_id by lia. set (r' := announce_remaining (tq s) - dticks t).
  set (s'' := set_tq (with_announce_remaining r' (tq s')) s').
  pose proof (fd_inv _ _ _ Hf) as Hi'. pose proof (ri_tq_wf _ _ (proj1 Hi')) as Hwf'.
  assert (Hst : sched_step s s') by (split; [done|done|done|apply (fd_irq _ _ _ Hf)]).
  split; [split; [|split]|].
  - eapply (Stable_step J); [done|]. eapply sched_step_trans; [exact Hst|]. by apply clock_step.
  - unfold s'', r'. cbn. lia.
  - destruct (announced_step dn rest s0 _ s t l s' start_wf Hwf Ha El) as (rest' & Ha'); [lia|done|].
    exists rest'. apply announced_remaining. unfold s'', r'. cbn.
    by replace (ticks - (_ - _)) with (ticks - announce_remaining (tq s) + dticks t) by lia.
  - unfold announce_weight. cbn. apply (expiry_weight t l); try done; [apply (fd_deadlines _ _ _ Hf)|apply (fd_slice _ _ _ Hf)].
Qed.

(** The announcement with a record of the callbacks that run and of the tick each runs at;
    the kernel does not read it. *)
#[local] Instance recording_client : AnnounceClient recorded_tq set_recorded_tq recording (fun x =>
  exists dn, announcing dn x.1 /\ thread_entries x.2 = log_entry (curr_tick (tq s0)) <$> dn).
Proof using All.
  split. intros [s lg] t (dn & Ha & Hlg) Ef Hle. cbn [fst snd] in *.
  destruct (announcing_step dn s t Ha Ef Hle) as (s' & Hrun & Htk & Ha' & Hw).
  exists (s', lg ++ [(node t, curr_tick (announce_expire t (tq s)))]). split.
  { unfold recording, recorded_tq, set_recorded_tq. cbn [fst snd]. by rewrite Hrun. }
  cbn zeta. split; [|exact Hw]. exists (dn ++ met (ticks - announce_remaining (tq s)) t). split; [exact Ha'|]. unfold set_recorded_tq. cbn [snd].
  unfold thread_entries. rewrite filter_app, fmap_app. f_equal; [exact Hlg|]. rewrite filter_cons, Htk. unfold met.
  destruct (decide (node t = TN_slice)); [by rewrite decide_False by naive_solver|by rewrite decide_True].
Qed.
End Announce.

(** What announcing [ticks] does: every thread deadline that is due is gone and its
    thread has timed out; the others come closer; nothing else changes. *)
Record clock_effect (ticks : Z) (s s' : kstate) : Prop := {
  ce_tick : curr_tick (tq s') = u64 (curr_tick (tq s) + ticks);
  ce_remaining : announce_remaining (tq s') = 0;
  ce_deadlines : thread_deadlines (tq s') = surviving ticks (thread_deadlines (tq s));
  ce_frame : objs s' = objs s /\ mem s' = mem s /\ irq_locked s' = irq_locked s;
  ce_others : forall u, TN_thread u ∉ nodes (expired ticks (thread_deadlines (tq s))) -> threads s' !! u = threads s !! u;
  ce_timed : forall u th, TN_thread u ∈ nodes (expired ticks (thread_deadlines (tq s))) -> threads s !! u = Some th ->
    exists th', threads s' !! u = Some th' /\ timed_out th th' /\ (blocked th' = false -> u ∈ runq s')
}.

Lemma surviving_later r (ds : list deadline) :
  Forall (fun x : deadline => r < x.2) ds -> surviving r ds = later r <$> ds.
Proof.
  induction 1 as [|x ds Hx Hds IH]; [done|]. unfold surviving in *. cbn in Hx.
  by rewrite filter_cons, decide_True, fmap_cons, fmap_cons, IH by done.
Qed.

Lemma expired_due r (ds : list deadline) : Forall (fun x : deadline => x.2 <= r) ds -> expired r ds = ds.
Proof.
  induction 1 as [|x ds Hx Hds IH]; [done|]. unfold expired in *. cbn in Hx.
  by rewrite filter_cons, decide_True, IH by done.
Qed.

Lemma surviving_due r (ds : list deadline) : Forall (fun x : deadline => x.2 <= r) ds -> surviving r ds = [].
Proof.
  induction 1 as [|x ds Hx Hds IH]; [done|]. unfold surviving in *. cbn in Hx.
  by rewrite filter_cons, decide_False by lia.
Qed.

Lemma first_ahead q :
  wf_timeouts q -> (forall t, first q = Some t -> announce_remaining q < dticks t) ->
  Forall (fun x : deadline => announce_remaining q < x.2) (deadlines q).
Proof.
  intros Hwf Hf. unfold first, deadlines, wf_timeouts in *. destruct (timeout_list q) as [|t l]; [constructor|].
  specialize (Hf t eq_refl). cbn. constructor; [cbn; lia|].
  eapply Forall_impl; [apply deadlines_from_ge; eapply wf_list_tail, Hwf|]. cbn. lia.
Qed.

(** The end of the loop. *)
Lemma announced_finish dn rest s0 ticks s :
  let r := announce_remaining (tq s) in
  announced dn rest s0 (ticks - r) s -> wf_timeouts (tq s) -> 0 <= r ->
  (forall t, first (tq s) = Some t -> r < dticks t) ->
  clock_effect ticks s0 (set_tq (announce_finish (tq s)) s) /\ expired ticks (thread_deadlines (tq s0)) = dn.
Proof.
  intros r Ha Hwf Hr Hf. destruct (announce_finish_ok (tq s) Hwf Hr Hf) as (_ & Hwf' & Hd & Ht & Hz).
  pose proof (first_ahead _ Hwf Hf) as Hah. fold r in Hah, Hd, Ht.
  assert (Hdue : Forall (fun x : deadline => x.2 <= ticks) dn) by (eapply Forall_impl; [apply Ha|]; cbn; lia).
  assert (Hrest : Forall (fun x : deadline => ticks < x.2) rest).
  { assert (Hah' : Forall (fun x : deadline => r < x.2) (later (ticks - r) <$> rest)).
    { rewrite <- (an_rest _ _ _ _ _ Ha). unfold thread_deadlines. 
      rewrite Forall_forall in *. intros x [_ Hx]%list_elem_of_filter. by apply Hah. }
    rewrite Forall_fmap in Hah'. eapply Forall_impl; [exact Hah'|]. cbn. lia. }
  assert (Hex : expired ticks (thread_deadlines (tq s0)) = dn).
  { rewrite (an_split _ _ _ _ _ Ha). unfold expired. rewrite filter_app. fold (expired ticks dn) (expired ticks rest).
    rewrite expired_due, (expired_none ticks rest), app_nil_r by done. done. }
  split; [|done]. split; rewrite ?Hex; try apply Ha; try done.
  - cbn [tq set_tq]. rewrite Ht. pose proof (an_tick _ _ _ _ _ Ha) as Hu. unfold wrap_u in *.
    rewrite <- Zplus_mod_idemp_l, Hu, Zplus_mod_idemp_l. f_equal. lia.
  - cbn [tq set_tq]. unfold thread_deadlines at 1. rewrite Hd, (surviving_later r) by done.
    rewrite thread_deadlines_later. change (filter _ (deadlines (tq s))) with (thread_deadlines (tq s)).
    rewrite (an_rest _ _ _ _ _ Ha), later_later, (an_split _ _ _ _ _ Ha). unfold surviving at 1.
    rewrite filter_app, fmap_app. fold (surviving ticks dn) (surviving ticks rest).
    rewrite surviving_due, surviving_later by done. cbn. by replace (ticks - r + r) with ticks by lia.
Qed.

(** ** Time slices *)

(** Only the order of the ready queue and the time slice change. *)
Record sliced (s s' : kstate) : Prop := {
  sl_step : sched_step s s';
  sl_threads : threads s' = threads s;
  sl_runq : forall u, u ∈ runq s -> u ∈ runq s';
  sl_clock : same_clock (tq s) (tq s');
  sl_deadlines : thread_deadlines (tq s') = thread_deadlines (tq s)
}.

Lemma sliced_trans s1 s2 s3 : sliced s1 s2 -> sliced s2 s3 -> sliced s1 s3.
Proof.
  intros [] []. split; [by eapply sched_step_trans|congruence|auto|by eapply same_clock_trans|congruence].
Qed.

Lemma sliced_refl s : SInv s -> sliced s s.
Proof. intros Hs. split; try done. by apply sched_step_refl. Qed.

Lemma sliced_field s s' :
  SInv s -> SInv s' -> cache_frame s s' -> sliced s s'.
Proof.
  intros Hs Hs' Hf. split; try apply Hf; [split; [done|by apply sframe_cache| |apply Hf]|].
  - unfold running. by rewrite (cf_threads _ _ Hf), (cf_current _ _ Hf).
  - by rewrite (cf_runq _ _ Hf).
Qed.

Lemma reset_slice_sliced s : SInv s -> kwp (z_reset_time_slice (current s)) s (fun _ s' =>
  sliced s s' /\ runq s' = runq s).
Proof.
  intros Hs. pose proof Hs as (Hi & Hc & Hu).
  eapply kwp_mono; [apply (reset_time_slice_spec None s); [done|apply (ri_current _ _ Hi)]|].
  cbv beta. intros _ s' (Hi' & Hf & Hca). split; [|apply Hf]. apply sliced_field; try done. split; [done|split; [|by eapply current_ok_frame]].
  unfold cache_ok in *. by rewrite Hca, (cf_runq _ _ Hf), (cf_current _ _ Hf), (cf_threads _ _ Hf).
Qed.

Lemma end_of_prio_sliced s th :
  SInv s -> threads s !! current s = Some th -> blocked th = false -> current s <> z_idle_thread ->
  kwp (move_thread_to_end_of_prio_q (current s)) s (fun _ s' => sliced s s' /\
    runq s' = z_priq_dumb_add (prio_of s) (current s) (z_priq_dumb_remove (current s) (runq s))).
Proof.
  intros Hs E Hb Hid. pose proof Hs as (Hi & Hc & Hau & Hu). rewrite E in Hu.
  assert (Hin : current s ∈ runq s) by (by destruct (Hu Hb)).
  unfold move_thread_to_end_of_prio_q. kstep. eapply kwp_get_thread; [exact E|].
  assert (H7 : z_is_thread_queued th = true).
  { rewrite is_queued_st, (tok_queued _ _ _ _ (ri_thread _ _ _ _ Hi E)). by apply bool_decide_eq_true. }
  rewrite H7. cbn [kwhen]. pose proof (requeue_spec no_metairq s (current s) th Hs E Hin) as Hq.
  kstep. eapply kwp_mono; [exact (kwp_unbind _ _ _ _ Hq)|]. cbv beta. intros _ s2 Hq2. kstep.
  eapply kwp_mono; [exact Hq2|]. cbv beta. intros _ s3 [Ec Hq3]. ksteps. rewrite bool_decide_true by done.
  eapply kwp_mono; [exact Hq3|]. cbv beta. intros _ s4 (Hst & _ & Et & Er & Hcl & Hd). split; [|done]. split; try done.
  intros u Hu'. rewrite Er. apply elem_of_dumb_add. destruct (decide (u = current s)); [by left|right].
  unfold z_priq_dumb_remove. by rewrite elem_of_remove_elem.
Qed.

Lemma sliced_lock s s' : sliced (set_irq_locked true s) s' -> sliced s (set_irq_locked (irq_locked s) s').
Proof. intros []. split; try done. by apply sched_step_lock. Qed.

(** At the end of its slice the running thread goes behind the others of its priority. *)
Definition rotated (s s' : kstate) : Prop :=
  runq s' = runq s \/
  (slice_expired s = true /\ runq s' = z_priq_dumb_add (prio_of s) (current s) (z_priq_dumb_remove (current s) (runq s))).

Lemma rotate_spec s th :
  SInv s -> threads s !! current s = Some th -> blocked th = false -> current s <> z_idle_thread ->
  slice_expired s = true ->
  kwp (th ← get_thread (current s);
       kwhen (negb (z_is_thread_prevented_from_running th)) (move_thread_to_end_of_prio_q (current s));;
       z_reset_time_slice (current s)) s (fun _ s' => sliced s s' /\ rotated s s').
Proof.
  intros Hs E Hb Hid He. kstep. eapply kwp_get_thread; [exact E|]. rewrite prevented_blocked, Hb. cbn [negb kwhen].
  kstep. eapply kwp_mono; [by apply (end_of_prio_sliced s th)|]. cbv beta. intros _ s2 [Hsl Hr].
  pose proof (sf_current _ _ _ (ss_frame _ _ (sl_step _ _ Hsl))) as Ec. rewrite <- Ec.
  eapply kwp_mono; [exact (reset_slice_sliced s2 (ss_inv _ _ (sl_step _ _ Hsl)))|].
  cbv beta. intros _ s3 [Hsl3 Hr3]. split; [by eapply sliced_trans|]. right. split; [done|]. by rewrite Hr3, Hr.
Qed.

Lemma time_slice_spec s : SInv s -> kwp z_time_slice s (fun _ s' => sliced s s' /\ rotated s s').
Proof.
  intros Hs. set (s1 := set_irq_locked true s). assert (Hs1 : SInv s1) by (by apply SInv_irq).
  unfold z_time_slice, k_spin_lock, k_spin_unlock, arch_irq_lock, arch_irq_unlock. ksteps. fold s1.
  assert (Hend : forall s', sliced s1 s' /\ rotated s1 s' ->
    sliced s (set_irq_locked (irq_locked s) s') /\ rotated s (set_irq_locked (irq_locked s) s')).
  { intros s' [Hsl Hr]. split; [by apply sliced_lock|exact Hr]. }
  change (current s1) with (current s). destruct (_ && _).
  { kstep. eapply kwp_mono; [exact (reset_slice_sliced s1 Hs1)|]. cbv beta. intros _ s2 [Hs2 Hr2]. ksteps. apply Hend.
    split; [done|by left]. }
  kstep. set (s2 := if CONFIG_SWAP_NONATOMIC then set_pending_current None s1 else s1).
  assert (Hs2 : SInv s2).
  { unfold s2. destruct CONFIG_SWAP_NONATOMIC; [|done]. destruct Hs1 as (Hi & Hc & Hu).
    split; [by eapply RInv_ext; [..|exact Hi]|done]. }
  eapply kwp_mono with (P := fun _ s' => s' = s2).
  { unfold s2. apply kwp_when; intros ->; [by ksteps|done]. }
  cbv beta. intros _ ? ->. kstep. kstep. destruct (ri_current _ _ (proj1 Hs2)) as [th E].
  assert (Hsl : sliced s1 s2 /\ current s2 = current s /\ runq s2 = runq s1 /\ slice_expired s2 = slice_expired s).
  { unfold s2. destruct CONFIG_SWAP_NONATOMIC; [|by split_and!; [apply sliced_refl|..]].
    split_and!; try done. split; try done. split; try done. by apply sframe_same. }
  destruct Hsl as (Hsl & Ec & Er & Ee). kstep. rewrite <- Ec.
  unfold thread_is_sliceable, slice_time. kstep. eapply kwp_get_thread; [exact E|]. ksteps.
  rewrite prevented_blocked. eapply kwp_mono with (P := fun _ s' => sliced s1 s' /\ rotated s1 s');
    [|cbv beta; intros _ s3 Hs3; ksteps; by apply Hend].
  apply kwp_when; [|intros _; split; [done|by left]]. rewrite !andb_true_iff, !negb_true_iff.
  intros (He & (_ & Hb) & Hid). eapply kwp_mono; [apply (rotate_spec s2 th); try done; by apply bool_decide_eq_false in Hid|].
  cbv beta. intros _ s3 [Hsl3 Hr3]. split; [by eapply sliced_trans|]. unfold rotated in *.
  assert (Ep : prio_of s2 = prio_of s1) by (unfold prio_of; by rewrite (sl_threads _ _ Hsl)).
  rewrite Er, Ee, Ec, Ep in Hr3. exact Hr3.
Qed.

Lemma announce_spec J `{!ObjInv J} n c b s ticks :
  Stable J n c b s -> 0 <= ticks <= INT_MAX ->
  exists s' lg, announce_recorded ticks s = Some (s', lg) /\ announce tq set_tq run_timeout_fn ticks s = Some s' /\
    Stable J n c b s' /\ clock_effect ticks s s' /\
    thread_entries lg = log_entry (curr_tick (tq s)) <$> expired ticks (thread_deadlines (tq s)).
Proof using no_metairq.
  intros Hs Ht. pose proof (so_inv _ _ _ _ Hs) as Hi. pose proof (ri_tq_wf _ _ (proj1 Hi)) as Hwf.
  set (s1 := set_tq (with_announce_remaining ticks (tq s)) s).
  assert (Hs1 : Stable J n c b s1) by (eapply (Stable_step J); [done|by apply clock_step]).
  pose proof (recording_client J n c b s ticks Ht Hwf) as Hclient.
  destruct (announce_loop_total (announce_fuel ticks (tq s1)) (s1, [])) as ([s2 lg] & Hl & (dn & (Hs2 & Hr2 & rest & Ha) & Hlg) & Hf).
  - exists []. split; [|done]. split_and!; [done|cbn; lia|cbn; lia|]. exists (thread_deadlines (tq s)). cbn. rewrite Z.sub_diag.
    by apply announced_none.
  - change (recorded_tq (s1, [])) with (tq s1). unfold announce_fuel, announce_weight. cbn [s1 tq set_tq timeout_list announce_remaining with_announce_remaining].
    rewrite Nat2Z.inj_mul, Nat2Z.inj_succ, Z2Nat.id by lia. apply weight_from_bound; [apply Hwf|lia..].
  - unfold recorded_tq in Hf. cbn [fst snd] in *. exists (set_tq (announce_finish (tq s2)) s2), lg. pose proof (so_inv _ _ _ _ Hs2) as Hi2.
    pose proof (ri_tq_wf _ _ (proj1 Hi2)) as Hwf2.
    destruct (announce_finish_ok (tq s2) Hwf2 ltac:(lia) Hf) as (_ & Hwf' & Hd & _).
    assert (Hl0 : announce_loop tq set_tq run_timeout_fn (announce_fuel ticks (tq s1)) s1 = Some s2)
      by (rewrite <- (recording_loop _ _ []); exact (f_equal (fmap fst) Hl)).
    destruct (announced_finish dn rest s ticks s2 Ha Hwf2 ltac:(lia) Hf) as [Hce Hex].
    split_and!; [|unfold announce; fold s1; by rewrite Hl0| |done|by rewrite Hex].
    + unfold announce_recorded, announce, recorded_tq, set_recorded_tq in *. cbn [fst snd] in *. fold s1. by rewrite Hl.
    + eapply (Stable_step J); [done|]. apply clock_step; try done.
      rewrite Hd, surviving_later, <- list_fmap_compose by (by apply first_ahead). by apply list_fmap_ext.
Qed.

Lemma sys_clock_announce_spec J `{!ObjInv J} n c b s ticks :
  Stable J n c b s -> 0 <= ticks <= INT_MAX ->
  kwp (sys_clock_announce ticks) s (fun _ s' => Stable J n c b s' /\ clock_effect ticks s s').
Proof using no_metairq.
  intros Hs Ht. destruct (announce_spec J n c b s ticks Hs Ht) as (s1 & lg & _ & Ea & Hs1 & He & _).
  unfold sys_clock_announce. apply kwp_bind. unfold kwp at 1. rewrite Ea. cbn. apply kwp_when; [|done]. intros _.
  eapply kwp_mono; [apply (time_slice_spec s1), (so_inv _ _ _ _ Hs1)|]. cbv beta. intros _ s2 [Hsl _].
  split; [by eapply (Stable_step J); [|apply Hsl]|]. destruct He as [H1 H2 H3 H4 H5 H6].
  destruct Hsl as [[_ Hfr _ Hirq] Et Hrq (Hc1 & Hc2 & _) Hd].
  split; try congruence; try rewrite ?Et, ?Hd, ?Hc1, ?Hc2; try done.
  - by rewrite Hirq, (sf_objs _ _ _ Hfr), (sf_mem _ _ _ Hfr).
  - intros u th Hu E. destruct (H6 u th Hu E) as (th' & E' & Hto & Hq). exists th'. split_and!; auto.
Qed.
End Expiry.
