(* ===== verification/Sem.v ===== *)
(** * Semaphores (kernel/sem.c)

    [CONFIG_POLL] is off, so [handle_poll_events] reports that there was nothing to
    do. *)

From S2P Require Import Prelude Timeout PriorityQ KState KLogic Sched SchedInv SchedOps Switch.

Local Open Scope Z_scope.

Section Sem.
Context `{KConfig}.

Definition z_impl_k_sem_init (sem : addr) (initial_count limit : Z) : K Z :=
  if (limit =? 0) || (initial_count >? limit) then mret (- EINVAL)
  else
    put_obj sem (O_sem (mkSem initial_count limit));;
    z_waitq_init (WQ_obj sem);;
    mret 0.

Definition sem_handle_poll_events (sem : addr) : K bool := mret false.

Definition z_impl_k_sem_give (sem : addr) : M unit :=
  key ← lift k_spin_lock;
  thread ← lift (z_unpend_first_thread (WQ_obj sem));
  resched ← (match thread with
    | Some t =>
        lift (arch_thread_return_value_set t 0);;
        lift (z_ready_thread t);;
        mret true
    | None =>
        o ← lift (get_sem sem);
        lift (put_obj sem (O_sem (mkSem
          (u32 (sem_count o + (if negb (sem_count o =? sem_limit o) then 1 else 0))) (sem_limit o))));;
        lift (sem_handle_poll_events sem)
    end : M bool);
  if (resched : bool) then z_reschedule Lock_other key else lift (k_spin_unlock key).

Definition z_impl_k_sem_take (sem : addr) (timeout : k_timeout_t) : M Z :=
  isr ← lift arch_is_in_isr;
  lift (kassert (negb isr || K_TIMEOUT_EQ timeout K_NO_WAIT));;
  key ← lift k_spin_lock;
  o ← lift (get_sem sem);
  if sem_count o >? 0 then
    lift (put_obj sem (O_sem (mkSem (sem_count o - 1) (sem_limit o))));;
    lift (k_spin_unlock key);;
    mret 0
  else if K_TIMEOUT_EQ timeout K_NO_WAIT then (lift (k_spin_unlock key);; mret (- EBUSY))
  else z_pend_curr Lock_other key (Some (WQ_obj sem)) timeout.

(** The [while] loop of [z_impl_k_sem_reset]. *)
Fixpoint sem_reset_loop (fuel : nat) (sem : addr) : K unit :=
  thread ← z_unpend_first_thread (WQ_obj sem);
  match thread with
  | None => mret tt
  | Some t =>
      match fuel with
      | O => kfail
      | S fuel =>
          arch_thread_return_value_set t (- EAGAIN);;
          z_ready_thread t;;
          sem_reset_loop fuel sem
      end
  end.

Definition z_impl_k_sem_reset (sem : addr) : M unit :=
  key ← lift k_spin_lock;
  l ← lift (kget (fun s => waitq s (WQ_obj sem)));
  lift (sem_reset_loop (length l) sem);;
  o ← lift (get_sem sem);
  lift (put_obj sem (O_sem (mkSem 0 (sem_limit o))));;
  _ ← lift (sem_handle_poll_events sem);
  z_reschedule Lock_other key.

Definition z_impl_k_sem_count_get (sem : addr) : K Z := o ← get_sem sem; mret (sem_count o).
End Sem.

(** ** Specification

    A semaphore is a count, a limit and a queue of waiters.  *)
Record sem_abs := mkSemAbs { abs_count : Z; abs_limit : Z; abs_waiters : list tid }.

Definition sem_view (sem : addr) (s : kstate) : option sem_abs :=
  match objs s !! sem with
  | Some (O_sem o) => Some (mkSemAbs (sem_count o) (sem_limit o) (waitq s (WQ_obj sem)))
  | _ => None
  end.

(** A give hands the unit to the first waiter, or counts it up to the limit. *)
Definition abs_give (v : sem_abs) : sem_abs :=
  match abs_waiters v with
  | [] => mkSemAbs (Z.min (abs_count v + 1) (abs_limit v)) (abs_limit v) []
  | _ :: q => mkSemAbs (abs_count v) (abs_limit v) q
  end.

(** A take of [t] uses a unit, or queues [t] behind the waiters it does not outrank. *)
Definition abs_take (prio : tid -> Z) (t : tid) (timeout : k_timeout_t) (v : sem_abs) : sem_abs :=
  if abs_count v >? 0 then mkSemAbs (abs_count v - 1) (abs_limit v) (abs_waiters v)
  else if K_TIMEOUT_EQ timeout K_NO_WAIT then v
  else mkSemAbs (abs_count v) (abs_limit v) (z_priq_dumb_add prio t (abs_waiters v)).

Definition abs_reset (v : sem_abs) : sem_abs := mkSemAbs 0 (abs_limit v) [].

Definition sem_ok (s : kstate) (sem : addr) (o : k_sem) : Prop :=
  0 <= sem_count o <= sem_limit o /\ 1 <= sem_limit o < 2 ^ 32 /\
  (waitq s (WQ_obj sem) <> [] -> sem_count o = 0).

#[export] Instance sem_view_ok sem : View (sem_view sem) sem.
Proof. constructor. intros s s' Eo Ew _. unfold sem_view. by rewrite Eo, Ew. Qed.

Section SemSpec.
Context `{KConfig}.
Hypothesis no_metairq : CONFIG_NUM_METAIRQ_PRIORITIES = 0.
Context (J : kstate -> Prop) `{!ObjInv J, !Holds J O_sem sem_ok}.
Context (n : Z) (c : tid) (sem : addr).
Implicit Types (b : stretch) (s : kstate).

(** The count changes. *)
Lemma Stable_put_sem b s o o' :
  Stable J n c b s -> objs s !! sem = Some (O_sem o) -> sem_ok s sem o' ->
  Stable J n c b (set_objs (<[sem := O_sem o']> (objs s)) s).
Proof.
  intros Hs E Hok. eapply Stable_put_obj; [done|exact E|done|].
  eapply holds_put; [apply Hs|exact E|by apply wframe_ext|done..].
Qed.

Lemma give_counts s o :
  sem_ok s sem o -> u32 (sem_count o + (if negb (sem_count o =? sem_limit o) then 1 else 0)) =
    Z.min (sem_count o + 1) (sem_limit o).
Proof.
  intros (Hc & Hl & _). destruct (Z.eqb_spec (sem_count o) (sem_limit o)); cbn [negb];
    rewrite wrap_u_small; lia.
Qed.

Lemma sem_view_some s o :
  objs s !! sem = Some (O_sem o) ->
  sem_view sem s = Some (mkSemAbs (sem_count o) (sem_limit o) (waitq s (WQ_obj sem))).
Proof. unfold sem_view. by intros ->. Qed.

(** From any state of the system that satisfies the scheduler and object invariants,
    k_sem_give hands the unit to the waiter that comes first by priority and waiting time, or
    else counts it up to the limit; it touches no other object, never fails, and leaves the
    invariants in force wherever it switches threads. *)
Lemma k_sem_give_spec b s o :
  is_first b = true -> began b = s ->
  Stable J n c b s -> objs s !! sem = Some (O_sem o) ->
  let V := obj_effect (sem_view sem) sem (fun _ => abs_give) (fun s => take 1 (waitq s (WQ_obj sem))) 0 in
  mwp (Guar J V) (Rely J c) b (z_impl_k_sem_give sem) s (fun b' _ s' => Stable J n c b' s' /\ effect V b' s').
Proof.
  intros Hf Hb Hs E V. unfold z_impl_k_sem_give. ksteps.
  set (s1 := set_irq_locked true s). assert (Hs1 : Stable J n c b s1) by (by apply (Stable_irq J)).
  assert (E1 : objs s1 !! sem = Some (O_sem o)) by done.
  apply unpend_first_spec; [apply Hs1| |].
  - intros Ew. ksteps. eapply kwp_get_sem; [exact E1|].
    pose proof (holds_get s1 sem o (so_obj _ _ _ _ _ Hs1) E1) as Hok.
    rewrite (give_counts s1 o Hok). ksteps. split.
    + apply (Stable_irq J). apply (Stable_put_sem b s1 o); [done..|]. destruct Hok as (Hc & Hl & Hw).
      split_and!; cbn; [lia..|]. rewrite Ew. done.
    + intros _. rewrite Hb. change (waitq s (WQ_obj sem) = []) in Ew. split; [|split].
      * erewrite sem_view_some by apply lookup_insert_eq. rewrite (sem_view_some s o E). cbn.
        unfold abs_give. cbn. by rewrite Ew; change (waitq _ (WQ_obj sem)) with (waitq s (WQ_obj sem)); rewrite Ew.
      * split; [|done]. intros a' Ha. cbn. by rewrite lookup_insert_ne.
      * rewrite Ew. constructor.
  - intros t q th Ew Et Ep. ksteps. eapply kwp_upd_thread; [apply lookup_insert_eq|]. ksteps.
    eapply kwp_mono; [apply (wake_spec no_metairq J n c b s1 t th (WQ_obj sem) (with_swap_retval 0 (unpended th)))|];
      try done.
    { cbn [granted swap_retval with_swap_retval]. rewrite E1. by left. }
    cbv beta. intros _ s2 (Hs2 & Hw & th3 & E3 & Hr3 & _ & Hp3). ksteps.
    eapply mwp_mono; [apply (reschedule_spec J V); [done|]|by intros ? ? ? (? & ? & _)].
    intros _. rewrite Hb. split; [|split].
    + rewrite (sem_view_some s o E). erewrite (sem_view_some s2 o) by (rewrite (wk_objs _ _ _ _ Hw); exact E). cbn.
      unfold abs_give. cbn. change (waitq s (WQ_obj sem) = t :: q) in Ew. rewrite Ew.
      f_equal. f_equal. eapply (woken_head t q (WQ_obj sem) s1); [apply Hs1|done|done].
    + exact (woken_only _ _ _ _ Hw).
    + change (waitq s (WQ_obj sem) = t :: q) in Ew. rewrite Ew. constructor; [|constructor].
      intros _. exists th3. done.
Qed.

(** k_sem_take takes a unit when there is one, returns -EBUSY with no time to wait, and
    otherwise queues the caller by priority; it comes back with the value that a give (0) or a
    reset (-EAGAIN) left, or with the -EAGAIN that stands when its time ran out. *)
Lemma k_sem_take_spec b s o timeout :
  is_first b = true -> began b = s ->
  Stable J n c b s -> objs s !! sem = Some (O_sem o) ->
  n = 0 /\ c <> z_idle_thread /\ api_timeout timeout \/ timeout = K_NO_WAIT ->
  let V := obj_effect (sem_view sem) sem (fun s => abs_take (prio_of s) c timeout) (fun _ => []) 0 in
  mwp (Guar J V) (Rely J c) b (z_impl_k_sem_take sem timeout) s (fun b' r s' =>
    Stable J n c b' s' /\ effect V b' s' /\
    if is_first b' then r = (if sem_count o >? 0 then 0 else - EBUSY)
    else exists th, resumed c b' th /\ r = swap_retval th /\ (r = 0 \/ r = - EAGAIN)).
Proof.
  intros Hf Hb Hs E Hpre V. unfold z_impl_k_sem_take. ksteps.
  apply kwp_assert.
  { rewrite (so_nested _ _ _ _ Hs). destruct Hpre as [(-> & _)| ->]; [done|]. apply orb_true_r. }
  ksteps. set (s1 := set_irq_locked true s). assert (Hs1 : Stable J n c b s1) by (by apply (Stable_irq J)).
  assert (E1 : objs s1 !! sem = Some (O_sem o)) by done. eapply kwp_get_sem; [exact E1|].
  pose proof (holds_get s1 sem o (so_obj _ _ _ _ _ Hs1) E1) as Hok.
  assert (Hv : sem_view sem s = Some (mkSemAbs (sem_count o) (sem_limit o) (waitq s (WQ_obj sem)))) by (by apply sem_view_some).
  destruct (sem_count o >? 0) eqn:Hc; [|destruct (K_TIMEOUT_EQ timeout K_NO_WAIT) eqn:Ht].
  - ksteps. rewrite Hf. split_and!; [| |done].
    + apply (Stable_irq J), (Stable_put_sem b s1 o); [done..|]. destruct Hok as (Hc' & Hl & Hw).
      bool_to_prop. split_and!; cbn; [lia..|]. intros Hne. apply Hw in Hne. lia.
    + intros _. rewrite Hb. split_and!; [| |constructor].
      * erewrite sem_view_some by apply lookup_insert_eq. rewrite Hv. cbn. unfold abs_take. cbn. by rewrite Hc.
      * split; [|done]. intros a' Ha. cbn. by rewrite lookup_insert_ne.
  - ksteps. rewrite Hf. split_and!; [by do 2 apply (Stable_irq J)| |done].
    intros _. rewrite Hb. split_and!; [|done|constructor].
    transitivity (sem_view sem s); [done|]. rewrite Hv. cbn. unfold abs_take. cbn. by rewrite Hc, Ht.
  - destruct Hpre as [(H0 & Hid & Hto)|Hto]; [|by rewrite Hto in Ht].
    eapply mwp_mono; [apply (pend_curr_spec no_metairq J V n c b s1 (WQ_obj sem)); try done|].
    + intros s2 Hp. split.
      * eapply holds_pend; [apply Hs1|exact E1|exact Hp|]. destruct Hok as (Hc' & Hl & Hw). bool_to_prop.
        split_and!; [lia..|]. intros _. lia.
      * intros _. rewrite Hb. split_and!; [| |constructor].
        -- erewrite (sem_view_some s2) by (rewrite (pf_objs _ _ _ _ Hp); exact E). rewrite Hv. cbn.
           unfold abs_take. cbn. rewrite Hc, Ht. rewrite (pf_waitq _ _ _ _ Hp), decide_True by done. done.
        -- exact (pframe_only _ _ _ _ Hp).
    + cbv beta. intros b' r s' (Hs' & Hf' & Hr & _ & (th & Hth & _ & Hrv) & [Hk _]). rewrite Hf'. split_and!; [done| |].
      * intros Hf2. congruence.
      * exists th. split_and!; [done|done|]. destruct Hr as [[-> _]|Hg]; [by right|]. destruct (Hk sem _ E1) as (o' & E' & Ek). cbn in Hg.
        rewrite E' in Hg. by destruct o'.
Qed.

Lemma sem_reset_loop_body fuel (acc : unit) :
  sem_reset_loop fuel sem = wake_all_body sem (- EAGAIN) (fun _ => tt) (fun f _ => sem_reset_loop f sem) fuel acc.
Proof. destruct fuel, acc; reflexivity. Qed.

(** k_sem_reset sets the count to zero and wakes every waiter with -EAGAIN. *)
Lemma k_sem_reset_spec b s o :
  is_first b = true -> began b = s ->
  Stable J n c b s -> objs s !! sem = Some (O_sem o) ->
  let V := obj_effect (sem_view sem) sem (fun _ => abs_reset) (fun s => waitq s (WQ_obj sem)) (- EAGAIN) in
  mwp (Guar J V) (Rely J c) b (z_impl_k_sem_reset sem) s (fun b' _ s' => Stable J n c b' s' /\ effect V b' s').
Proof.
  intros Hf Hb Hs E V. unfold z_impl_k_sem_reset. ksteps.
  set (s1 := set_irq_locked true s). assert (Hs1 : Stable J n c b s1) by (by apply (Stable_irq J)).
  eapply kwp_mono.
  { apply (wake_all_spec no_metairq J n c sem (- EAGAIN) _ _ b sem_reset_loop_body _ s1 tt Hs1 eq_refl).
    intros t. cbn. rewrite E. by right. }
  cbv beta. intros _ s2 (_ & Hs2 & Hw). assert (E2 : objs s2 !! sem = Some (O_sem o)) by (by rewrite (wa_objs _ _ _ _ Hw)).
  ksteps. eapply kwp_get_sem; [exact E2|]. ksteps. unfold sem_handle_poll_events. ksteps.
  pose proof (holds_get s2 sem o (so_obj _ _ _ _ _ Hs2) E2) as (Hc & Hl & _).
  eapply mwp_mono; [apply (reschedule_spec J V)|by intros ? ? ? (? & ? & _)].
  - eapply (Stable_put_sem b s2 o); [done..|]. split_and!; cbn; [lia..|done].
  - intros _. rewrite Hb. split_and!.
    + erewrite sem_view_some by apply lookup_insert_eq. rewrite (sem_view_some s o E). cbn.
      unfold abs_reset. cbn. do 2 f_equal. exact (wa_empty _ _ _ _ Hw).
    + split; [|exact (wa_waitq _ _ _ _ Hw)].
      intros a' Ha. cbn. rewrite lookup_insert_ne by done. by rewrite (wa_objs _ _ _ _ Hw).
    + apply Forall_forall. intros t Ht _. exact (wa_woken _ _ _ _ Hw t Ht).
Qed.
End SemSpec.
