(* ===== verification/Mutex.v ===== *)
(** * Mutexes (kernel/mutex.c)

    Reentrant locks with priority inheritance.  The theorems relate every call to a
    mutex with an owner, a depth and a queue of waiters. *)

From S2P Require Import Prelude Timeout PriorityQ KState KLogic Sched SchedInv SchedOps Switch ThreadOps.

Local Open Scope Z_scope.

Section Mutex.
Context `{KConfig}.

(** [owner_orig_prio] keeps what the memory held before. *)
Definition z_impl_k_mutex_init (mutex : addr) (owner_orig_prio : Z) : K Z :=
  put_obj mutex (O_mutex (mkMutex None 0 owner_orig_prio));;
  z_waitq_init (WQ_obj mutex);;
  mret 0.

Definition new_prio_for_inheritance (target limit : Z) : Z :=
  let new_prio := if z_is_prio_higher target limit then target else limit in
  z_get_new_prio_with_ceiling new_prio.

(** Dereferencing [mutex->owner]. *)
Definition mutex_owner (mutex : addr) : K tid :=
  o ← get_mutex mutex;
  match owner o with
  | Some t => mret t
  | None => kfail
  end.

Definition adjust_owner_prio (mutex : addr) (new_prio : Z) : K bool :=
  t ← mutex_owner mutex;
  th ← get_thread t;
  if negb (prio th =? new_prio) then z_thread_prio_set t new_prio else mret false.

(** The end of [z_impl_k_mutex_lock], when the wait was not successful. *)
Definition mutex_lock_timed_out (mutex : addr) (resched : bool) : M Z :=
  key ← lift k_spin_lock;
  o ← lift (get_mutex mutex);
  resched ← lift (match owner o with
    | Some _ =>
        waiter ← z_waitq_head (WQ_obj mutex);
        new_prio ← (match waiter with
          | Some w => wth ← get_thread w;
                      mret (new_prio_for_inheritance (prio wth) (owner_orig_prio o))
          | None => mret (owner_orig_prio o)
          end : K Z);
        r ← adjust_owner_prio mutex new_prio;
        mret ((r : bool) || resched)
    | None => mret resched
    end : K bool);
  (if (resched : bool) then z_reschedule Lock_other key else lift (k_spin_unlock key));;
  mret (- EAGAIN).

Definition z_impl_k_mutex_lock (mutex : addr) (timeout : k_timeout_t) : M Z :=
  isr ← lift arch_is_in_isr;
  lift (kassert (negb isr));;
  key ← lift k_spin_lock;
  o ← lift (get_mutex mutex);
  curr ← lift (kget current);
  curr_th ← lift (get_thread curr);
  if (lock_count o =? 0) || bool_decide (owner o = Some curr) then
    let owner_orig_prio := if lock_count o =? 0 then prio curr_th else owner_orig_prio o in
    lift (put_obj mutex (O_mutex (mkMutex (Some curr) (u32 (lock_count o + 1)) owner_orig_prio)));;
    lift (k_spin_unlock key);;
    mret 0
  else if K_TIMEOUT_EQ timeout K_NO_WAIT then (lift (k_spin_unlock key);; mret (- EBUSY))
  else
    own ← lift (mutex_owner mutex);
    own_th ← lift (get_thread own);
    let new_prio := new_prio_for_inheritance (prio curr_th) (prio own_th) in
    resched ← lift (if z_is_prio_higher new_prio (prio own_th)
                    then adjust_owner_prio mutex new_prio else mret false);
    got_mutex ← z_pend_curr Lock_other key (Some (WQ_obj mutex)) timeout;
    if got_mutex =? 0 then mret 0 else mutex_lock_timed_out mutex resched.

Definition z_impl_k_mutex_unlock (mutex : addr) : M Z :=
  isr ← lift arch_is_in_isr;
  lift (kassert (negb isr));;
  o ← lift (get_mutex mutex);
  curr ← lift (kget current);
  if bool_decide (owner o = None) then mret (- EINVAL)
  else if bool_decide (owner o <> Some curr) then mret (- EPERM)
  else
    lift (kassert (lock_count o >? 0));;
    if lock_count o >? 1 then
      lift (put_obj mutex (O_mutex (mkMutex (owner o) (lock_count o - 1) (owner_orig_prio o))));;
      mret 0
    else
      key ← lift k_spin_lock;
      _ ← lift (adjust_owner_prio mutex (owner_orig_prio o));
      new_owner ← lift (z_unpend_first_thread (WQ_obj mutex));
      lift (put_obj mutex (O_mutex (mkMutex new_owner (lock_count o) (owner_orig_prio o))));;
      match new_owner with
      | Some t =>
          th ← lift (get_thread t);
          lift (put_obj mutex (O_mutex (mkMutex new_owner (lock_count o) (prio th))));;
          lift (arch_thread_return_value_set t 0);;
          lift (z_ready_thread t);;
          z_reschedule Lock_other key;;
          mret 0
      | None =>
          lift (put_obj mutex (O_mutex (mkMutex new_owner 0 (owner_orig_prio o))));;
          lift (k_spin_unlock key);;
          mret 0
      end.

End Mutex.

(** ** Specification

    A mutex has an owner, with the depth to which it locked it, and a queue of
    waiters. *)
Record mutex_abs := mkMutexAbs { abs_owner : option (tid * Z); abs_mwaiters : list tid }.

Definition mutex_view (mutex : addr) (s : kstate) : option mutex_abs :=
  match objs s !! mutex with
  | Some (O_mutex o) =>
      Some (mkMutexAbs ((fun t => (t, lock_count o)) <$> owner o) (waitq s (WQ_obj mutex)))
  | _ => None
  end.

#[export] Instance mutex_view_ok mutex : View (mutex_view mutex) mutex.
Proof. constructor. intros s s' Eo Ew _. unfold mutex_view. by rewrite Eo, Ew. Qed.

(** The caller [c] takes a free mutex, goes deeper into its own, or waits. *)
Definition abs_lock (prio : tid -> Z) (c : tid) (timeout : k_timeout_t) (v : mutex_abs) : mutex_abs :=
  match abs_owner v with
  | None => mkMutexAbs (Some (c, 1)) (abs_mwaiters v)
  | Some (t, d) =>
      if decide (t = c) then mkMutexAbs (Some (c, d + 1)) (abs_mwaiters v)
      else if K_TIMEOUT_EQ timeout K_NO_WAIT then v
      else mkMutexAbs (abs_owner v) (z_priq_dumb_add prio c (abs_mwaiters v))
  end.

(** Only the owner unlocks; leaving the last level hands the mutex to the first
    waiter. *)
Definition abs_unlock (c : tid) (v : mutex_abs) : mutex_abs :=
  match abs_owner v with
  | Some (t, d) =>
      if decide (t = c) then
        if d >? 1 then mkMutexAbs (Some (t, d - 1)) (abs_mwaiters v)
        else match abs_mwaiters v with
             | [] => mkMutexAbs None []
             | u :: q => mkMutexAbs (Some (u, 1)) q
             end
      else v
  | None => v
  end.

(** The waiter an unlock by [c] wakes. *)
Definition unlock_wakes (c : tid) (mutex : addr) (s : kstate) : list tid :=
  match mutex_view mutex s with
  | Some (mkMutexAbs (Some (t, d)) l) => if decide (t = c) then if d >? 1 then [] else take 1 l else []
  | _ => []
  end.

Section MutexSpec.
Context `{KConfig}.
Hypothesis no_metairq : CONFIG_NUM_METAIRQ_PRIORITIES = 0.
Hypothesis ceiling_ok : -128 <= CONFIG_PRIORITY_CEILING < 128.

Definition mutex_ok (s : kstate) (mutex : addr) (o : k_mutex) : Prop :=
  0 <= lock_count o < 2 ^ 32 /\ (owner o = None <-> lock_count o = 0) /\
  -128 <= owner_orig_prio o < 128 /\ (waitq s (WQ_obj mutex) <> [] -> owner o <> None) /\
  (forall t, owner o = Some t -> t <> z_idle_thread /\ is_Some (threads s !! t) /\ (t ∉ waitq s (WQ_obj mutex))).

(** Priority inheritance: while [c] waits, the owner runs at least at the priority of
    [c], up to the ceiling. *)
Definition inherits (c : tid) (mutex : addr) (timeout : k_timeout_t) (s s' : kstate) : Prop :=
  forall t d l, mutex_view mutex s = Some (mkMutexAbs (Some (t, d)) l) -> t <> c ->
    K_TIMEOUT_EQ timeout K_NO_WAIT = false ->
    prio_of s' t = Z.min (prio_of s t) (z_get_new_prio_with_ceiling (Z.min (prio_of s c) (prio_of s t))).

#[export] Instance inherits_ok c mutex timeout : Effect (inherits c mutex timeout).
Proof.
  constructor. intros s s1 s2 Hv Hi t d l E Ht Hto. rewrite (sv_prio _ _ _ Hv). by apply (Hi t d l).
Qed.

(** The last unlock gives the caller its own priority back. *)
Definition prio_restored (c : tid) (mutex : addr) (s s' : kstate) : Prop :=
  forall o, objs s !! mutex = Some (O_mutex o) -> owner o = Some c -> lock_count o = 1 ->
    prio_of s' c = owner_orig_prio o.

#[export] Instance prio_restored_ok c mutex : Effect (prio_restored c mutex).
Proof. constructor. intros s s1 s2 Hv Hp o E Ho Hl. rewrite (sv_prio _ _ _ Hv). auto. Qed.

Context (J : kstate -> Prop) `{!ObjInv J, !Holds J O_mutex mutex_ok}.
Context (c : tid) (mutex : addr).
Implicit Types (b : stretch) (s : kstate).

Lemma mutex_view_some s o :
  objs s !! mutex = Some (O_mutex o) ->
  mutex_view mutex s = Some (mkMutexAbs ((fun t => (t, lock_count o)) <$> owner o) (waitq s (WQ_obj mutex))).
Proof. unfold mutex_view. by intros ->. Qed.

Lemma adjust_owner_prio_spec s o t p :
  SInv s -> objs s !! mutex = Some (O_mutex o) -> owner o = Some t -> mutex_ok s mutex o -> -128 <= p < 128 ->
  kwp (adjust_owner_prio mutex p) s (fun _ s' => reprio p t s s').
Proof.
  intros Hs E Ho Hok Hp. destruct Hok as (_ & _ & _ & _ & Hown). destruct (Hown t Ho) as (Hid & [th Et] & _).
  unfold adjust_owner_prio, mutex_owner. ksteps. eapply kwp_get_mutex; [done|]. rewrite Ho. ksteps.
  eapply kwp_get_thread; [done|]. destruct (Z.eqb_spec (prio th) p) as [Heq|Hne]; cbn [negb].
  - kstep. split_and!; [by apply sched_step_refl|done..|]. intros th0 E0. exists th0.
    assert (th0 = th) as -> by congruence. split; [done|]. rewrite wrap_s_small; lia.
  - eapply kwp_mono; [by eapply prio_set_spec|]. intros r s' [Hr _]. by apply requeued_reprio.
Qed.

Lemma new_prio_range p q : -128 <= p < 128 -> -128 <= q < 128 -> -128 <= new_prio_for_inheritance p q < 128.
Proof.
  intros. unfold new_prio_for_inheritance, z_is_prio_higher, z_get_new_prio_with_ceiling, z_is_under_prio_ceiling.
  destruct (p <? q); destruct (_ >=? _); lia.
Qed.

(** The state of the mutex changes, by its owner or while it has none. *)
Lemma Stable_put_mutex b s o o' :
  Stable J 0 c b s -> objs s !! mutex = Some (O_mutex o) -> (forall t, owner o = Some t -> t = c) ->
  (forall t, owner o' = Some t -> t = c) -> mutex_ok s mutex o' -> Stable J 0 c b (set_objs (<[mutex := O_mutex o']> (objs s)) s).
Proof.
  intros Hs E Ho Ho' Hok. eapply Stable_put_obj; [done|exact E| |].
  - split; [done|]. split; intros u Hu Hne; [by apply Ho in Hu|by apply Ho' in Hu].
  - eapply holds_put; [apply Hs|exact E|by apply wframe_ext|done..].
Qed.

Lemma mutex_tail_spec V `{!Effect V} b s o r :
  Stable J 0 c b s -> is_first b = false -> objs s !! mutex = Some (O_mutex o) ->
  mwp (Guar J V) (Rely J c) b (mutex_lock_timed_out mutex r) s (fun b' r s' =>
    Stable J 0 c b' s' /\ is_first b' = false /\ r = - EAGAIN).
Proof.
  intros Hs Hf E. unfold mutex_lock_timed_out. do 3 kstep. set (s1 := set_irq_locked true s).
  assert (Hs1 : Stable J 0 c b s1) by (by apply (Stable_irq J)). do 2 kstep.
  eapply kwp_get_mutex; [exact E|].
  pose proof (holds_get s1 mutex o (so_obj _ _ _ _ _ Hs1) E) as Hok.
  assert (Hend : forall b0 s2 (r' : bool), Stable J 0 c b0 s2 -> is_first b0 = false ->
    mwp (Guar J V) (Rely J c) b0
      ((if r' then z_reschedule Lock_other (irq_locked s) else lift (k_spin_unlock (irq_locked s)));; mret (- EAGAIN)) s2
      (fun b' r s' => Stable J 0 c b' s' /\ is_first b' = false /\ r = - EAGAIN)).
  { intros b0 s2 r' Hs2 Hf2. kstep. destruct r'.
    - eapply mwp_mono; [apply (reschedule_spec J V 0 c); [done|by intros Hf'; rewrite Hf' in Hf2]|].
      cbv beta. intros b' _ s' (Hs' & _ & _ & Hf' & _). kstep. split_and!; [done|by destruct Hf' as [->|]|done].
    - ksteps. split_and!; [by apply (Stable_irq J)|done..]. }
  destruct (owner o) as [t|] eqn:Ho; do 2 kstep; [|kstep; by apply Hend].
  unfold z_waitq_head. kstep.
  assert (Hadj : forall p, -128 <= p < 128 -> kwp (r0 ← adjust_owner_prio mutex p; mret (r0 || r)) s1
    (fun r' s2 => mwp (Guar J V) (Rely J c) b
      ((if r' : bool then z_reschedule Lock_other (irq_locked s) else lift (k_spin_unlock (irq_locked s)));; mret (- EAGAIN)) s2
      (fun b' r s' => Stable J 0 c b' s' /\ is_first b' = false /\ r = - EAGAIN))).
  { intros p Hp. kstep. eapply kwp_mono; [by eapply (adjust_owner_prio_spec s1 o t p); [apply Hs1|..]|].
    cbv beta. intros r' s2 [Hstep _]. kstep. apply Hend; [|done]. by eapply (Stable_step J). }
  kstep. pose proof Hok as (_ & _ & Hpr & _). destruct (head (waitq s1 (WQ_obj mutex))) as [w|] eqn:Ew.
  - destruct (waitq s1 (WQ_obj mutex)) as [|w' q] eqn:Eq; [done|]. injection Ew as ->.
    destruct (ri_waitq_thread None s1 (WQ_obj mutex) w) as (wth & Ewt & _); [apply Hs1|rewrite Eq; left|].
    do 2 kstep. eapply kwp_get_thread; [exact Ewt|]. kstep. apply Hadj, new_prio_range; [|done].
    apply (tok_prio _ _ _ _ (ri_thread _ _ _ _ (proj1 (so_inv _ _ _ _ Hs1)) Ewt)).
  - do 2 kstep. by apply Hadj.
Qed.

Lemma lock_free_ok b s o th :
  Stable J 0 c b s -> c <> z_idle_thread -> threads s !! c = Some th -> mutex_ok s mutex o ->
  (forall t, owner o = Some t -> t = c) -> (owner o = Some c -> lock_count o < 2 ^ 32 - 1) ->
  mutex_ok s mutex (mkMutex (Some c) (u32 (lock_count o + 1))
    (if lock_count o =? 0 then prio th else owner_orig_prio o)).
Proof.
  intros Hs Hid E (Hl & Ho & Hp & Hw & Hown) Hfree Hmax.
  assert (Hlt : lock_count o < 2 ^ 32 - 1).
  { destruct (owner o) as [t|] eqn:Eo; [apply Hmax; by rewrite (Hfree t)|]. rewrite (proj1 Ho eq_refl). lia. }
  rewrite wrap_u_small by lia.
  pose proof (tok_prio _ _ _ _ (ri_thread _ _ _ _ (proj1 (so_inv _ _ _ _ Hs)) E)).
  split_and!; cbn; [lia|lia|split; [done|lia]|destruct (_ =? _); lia|destruct (_ =? _); lia|done|].
  intros t [= <-]. split_and!; [done|eauto|exact (caller_not_waiting 0 c b s _ Hs eq_refl)].
Qed.

(** Raising the owner to the priority of the caller. *)
Lemma inherit_spec b s o t th oth :
  Stable J 0 c b s -> objs s !! mutex = Some (O_mutex o) -> owner o = Some t ->
  threads s !! c = Some th -> threads s !! t = Some oth ->
  let new_prio := new_prio_for_inheritance (prio th) (prio oth) in
  kwp (if z_is_prio_higher new_prio (prio oth) then adjust_owner_prio mutex new_prio else mret false) s
    (fun _ s' => Stable J 0 c b s' /\ wframe s s' /\ objs s' = objs s /\ waitqs s' = waitqs s /\
       (forall u, u <> t -> threads s' !! u = threads s !! u) /\
       prio_of s' t = Z.min (prio_of s t) (z_get_new_prio_with_ceiling (Z.min (prio_of s c) (prio_of s t)))).
Proof.
  intros Hs E Ho Ec Et new_prio. pose proof (holds_get s mutex o (so_obj _ _ _ _ _ Hs) E) as Hok.
  pose proof (so_inv _ _ _ _ Hs) as (Hi & _).
  assert (Hpc : -128 <= prio th < 128) by (apply (tok_prio _ _ _ _ (ri_thread _ _ c th Hi Ec))).
  assert (Hpt : -128 <= prio oth < 128) by (apply (tok_prio _ _ _ _ (ri_thread _ _ t oth Hi Et))).
  pose proof (new_prio_range _ _ Hpc Hpt : -128 <= new_prio < 128) as Hnp.
  assert (Hmin : z_get_new_prio_with_ceiling (Z.min (prio_of s c) (prio_of s t)) = new_prio).
  { unfold prio_of. rewrite Ec, Et. unfold new_prio, new_prio_for_inheritance, z_is_prio_higher. cbn. f_equal.
    destruct (Z.ltb_spec (prio th) (prio oth)); lia. }
  assert (Hot : prio_of s t = prio oth) by (unfold prio_of; by rewrite Et). rewrite Hmin, Hot.
  unfold z_is_prio_higher. destruct (Z.ltb_spec new_prio (prio oth)).
  - eapply kwp_mono; [apply (adjust_owner_prio_spec s o t new_prio); [apply Hs|done..]|]. cbv beta.
    intros _ s2 (Hst & Hw & Hother & Hth). pose proof (ss_frame _ _ Hst) as Hfr.
    split_and!; [by eapply (Stable_step J)|by eapply sframe_wframe|apply Hfr|done..|].
    destruct (Hth oth Et) as (th' & E' & Hp). unfold prio_of. rewrite E'. cbn [from_option].
    rewrite Hp, wrap_s_small; lia.
  - kstep. split_and!; [done|apply wframe_refl|done..|]. rewrite Hot. lia.
Qed.

Definition lock_effect (timeout : k_timeout_t) (s s' : kstate) : Prop :=
  obj_effect (mutex_view mutex) mutex (fun s => abs_lock (prio_of s) c timeout) (fun _ => []) 0 s s' /\
  inherits c mutex timeout s s'.

Lemma lock_wait_effect s s2 s3 o t timeout :
  objs s !! mutex = Some (O_mutex o) -> owner o = Some t -> t <> c -> mutex_ok s mutex o ->
  K_TIMEOUT_EQ timeout K_NO_WAIT = false -> objs s2 = objs s -> waitqs s2 = waitqs s ->
  (forall u, u <> t -> threads s2 !! u = threads s !! u) ->
  prio_of s2 t = Z.min (prio_of s t) (z_get_new_prio_with_ceiling (Z.min (prio_of s c) (prio_of s t))) ->
  pframe c (WQ_obj mutex) s2 s3 -> lock_effect timeout s s3.
Proof.
  intros E Ho Htc Hok Hnw Eo Ew Hother Hp Hpf.
  assert (Hwq : forall w, waitq s2 w = waitq s w) by (intros w; unfold waitq; by rewrite Ew).
  assert (Hv : mutex_view mutex s = Some (mkMutexAbs (Some (t, lock_count o)) (waitq s (WQ_obj mutex))))
    by (by rewrite (mutex_view_some s o E), Ho).
  split; [split_and!; [| |constructor]|].
  - erewrite (mutex_view_some s3 o) by (rewrite (pf_objs _ _ _ _ Hpf), Eo; exact E). rewrite Hv. cbn.
    unfold abs_lock. cbn. rewrite decide_False, Hnw, Ho by done. cbn.
    rewrite (pf_waitq _ _ _ _ Hpf), decide_True, Hwq by done. do 2 f_equal. apply dumb_add_ext.
    intros u Hu. unfold prio_of. rewrite Hother; [done|]. intros ->. apply elem_of_cons in Hu as [|Hu]; [done|].
    destruct Hok as (_ & _ & _ & _ & Hown). by destruct (Hown t Ho) as (_ & _ & []).
  - destruct (pframe_only _ _ _ _ Hpf) as [Ho' Hw']. split; [intros a Ha; rewrite Ho' by done; by rewrite Eo|].
    intros w Hw. rewrite Hw' by done. apply Hwq.
  - intros t' d l Hv' Ht' _. rewrite Hv in Hv'. injection Hv' as <- _ _. unfold prio_of at 1.
    rewrite (pf_other _ _ _ _ Hpf) by done. exact Hp.
Qed.

Lemma pend_mutex_ok s s' o t :
  mutex_ok s mutex o -> owner o = Some t -> t <> c -> pframe c (WQ_obj mutex) s s' -> mutex_ok s' mutex o.
Proof.
  intros (Hl & Hn & Hp & Hw & Hown) Ho Htc Hpf. refine (conj Hl (conj Hn (conj Hp (conj _ _)))); [congruence|].
  intros u Hu. destruct (Hown u Hu) as (Hid & Hs & Hq). split_and!; [done| |].
  - rewrite (pf_other _ _ _ _ Hpf); [done|congruence].
  - rewrite (pf_waitq _ _ _ _ Hpf), decide_True, elem_of_dumb_add by done. intros [|]; [congruence|done].
Qed.

(** What a call of [k_mutex_lock] comes back with: the mutex, or a reason why not. *)
Definition lock_result (timeout : k_timeout_t) (b' : stretch) (r : Z) (s' : kstate) : Prop :=
  (r = 0 \/ r = - EBUSY /\ timeout = K_NO_WAIT \/ r = - EAGAIN /\ is_first b' = false /\ timeout <> K_FOREVER) /\
  (r = 0 -> exists o', objs s' !! mutex = Some (O_mutex o') /\ owner o' = Some c).

(** The owner inherits, then the caller waits. *)
Lemma lock_wait_spec V `{!Effect V} b s o t th oth timeout key :
  (forall s', lock_effect timeout s s' -> effect V b s') -> Stable J 0 c b s -> objs s !! mutex = Some (O_mutex o) ->
  owner o = Some t -> t <> c -> threads s !! c = Some th -> threads s !! t = Some oth ->
  c <> z_idle_thread -> api_timeout timeout -> K_TIMEOUT_EQ timeout K_NO_WAIT = false ->
  let new_prio := new_prio_for_inheritance (prio th) (prio oth) in
  mwp (Guar J V) (Rely J c) b
    (resched ← lift (if z_is_prio_higher new_prio (prio oth) then adjust_owner_prio mutex new_prio else mret false);
     got_mutex ← z_pend_curr Lock_other key (Some (WQ_obj mutex)) timeout;
     if got_mutex =? 0 then mret 0 else mutex_lock_timed_out mutex resched) s
    (fun b' r s' => Stable J 0 c b' s' /\ is_first b' = false /\ lock_result timeout b' r s').
Proof.
  intros Hb Hs E Ho Htc Ec Et Hid Hto Hnw new_prio. do 2 kstep.
  eapply kwp_mono; [by eapply (inherit_spec b s o t th oth)|]. cbv beta.
  intros r s2 (Hs2 & Hw2 & Eo2 & Ew2 & Hother2 & Hp2). kstep.
  assert (E2 : objs s2 !! mutex = Some (O_mutex o)) by (by rewrite Eo2).
  pose proof (holds_get s mutex o (so_obj _ _ _ _ _ Hs) E) as Hok.
  eapply mwp_mono; [apply (pend_curr_spec no_metairq J V 0 c b s2 (WQ_obj mutex)); try done|].
  - intros s3 Hp. split.
    + eapply holds_pend; [apply Hs2|exact E2|exact Hp|]. eapply pend_mutex_ok; [|done..].
      by apply (holds_get s2 mutex o (so_obj _ _ _ _ _ Hs2)).
    + apply Hb. by eapply lock_wait_effect.
  - cbv beta. intros b' g s3 (Hs3 & Hf3 & Hg & _ & _ & [Hk _]). destruct (Hk mutex _ E2) as (o3 & E3 & Ek).
    destruct o3 as [|o3| | | | |]; try done. destruct (Z.eqb_spec g 0) as [->|Hne].
    + kstep. split_and!; [done|done|]. split; [by left|]. intros _.
      exists o3. split; [done|]. destruct Hg as [[Hg _]|Hg]; [done|]. cbn in Hg. rewrite E3 in Hg. apply Hg.
    + eapply mwp_mono; [by eapply (mutex_tail_spec V)|]. cbv beta.
      intros b4 r4 s4 (Hs4 & Hf4 & ->). split_and!; [done|done|].
      split; [|done]. right. right. split_and!; [done..|]. destruct Hg as [[_ Hg]|Hg]; [done|].
      cbn in Hg. rewrite E3 in Hg. by destruct Hg.
Qed.

Lemma lock_spec V `{!Effect V} b s o timeout :
  Stable J 0 c b s -> objs s !! mutex = Some (O_mutex o) ->
  c <> z_idle_thread -> api_timeout timeout -> (owner o = Some c -> lock_count o < 2 ^ 32 - 1) ->
  (forall s', lock_effect timeout s s' -> effect V b s') ->
  mwp (Guar J V) (Rely J c) b (z_impl_k_mutex_lock mutex timeout) s (fun b' r s' =>
    Stable J 0 c b' s' /\ lock_result timeout b' r s' /\
    (b' = b /\ lock_effect timeout s s' \/ is_first b' = false)).
Proof.
  intros Hs E Hid Hto Hmax HV. unfold z_impl_k_mutex_lock. ksteps.
  apply kwp_assert; [by rewrite (so_nested _ _ _ _ Hs)|]. ksteps. set (s1 := set_irq_locked true s).
  assert (Hs1 : Stable J 0 c b s1) by (by apply (Stable_irq J)). eapply kwp_get_mutex; [exact E|].
  pose proof (holds_get s1 mutex o (so_obj _ _ _ _ _ Hs1) E) as Hok.
  destruct (so_thread _ _ _ _ Hs1 eq_refl) as (Hc & _). pose proof (so_inv _ _ _ _ Hs1) as (Hi1 & _).
  destruct (ri_current _ _ Hi1) as [th Ec]. rewrite Hc in Ec. ksteps. rewrite Hc. eapply kwp_get_thread; [exact Ec|].
  pose proof Hok as (Hl & Hn & _ & _ & Hown).
  destruct ((lock_count o =? 0) || bool_decide (owner o = Some c)) eqn:Hfree;
    [|destruct (K_TIMEOUT_EQ timeout K_NO_WAIT) eqn:Hnw].
  - ksteps. assert (Hoc : forall t, owner o = Some t -> t = c).
    { intros t Ht. apply orb_true_iff in Hfree as [Hz%Z.eqb_eq|Hd%bool_decide_eq_true]; [|congruence].
      apply Hn in Hz. congruence. }
    split_and!; [|split; [by left|]|left; split; [done|split]].
    + by apply (Stable_irq J), (Stable_put_mutex b s1 o); [..|by intros t [= <-]|apply (lock_free_ok b s1 o th)].
    + intros _. cbn. rewrite lookup_insert_eq. by eexists.
    + split_and!; [| |constructor].
      * erewrite mutex_view_some by apply lookup_insert_eq. rewrite (mutex_view_some s o E). cbn. unfold abs_lock. cbn.
        destruct (owner o) as [t|] eqn:Ho; cbn.
        -- assert (t = c) as -> by auto. rewrite decide_True by done. specialize (Hmax eq_refl).
           rewrite wrap_u_small by lia. done.
        -- by rewrite (proj1 Hn eq_refl).
      * split; [|done]. intros a Ha. cbn. by rewrite lookup_insert_ne.
    + intros t d l Hv Ht _. rewrite (mutex_view_some s o E) in Hv. destruct (owner o) as [t'|] eqn:Ho; [|done].
      injection Hv as -> _ _. by destruct Ht; apply Hoc.
  - ksteps. apply orb_false_iff in Hfree as [Hz%Z.eqb_neq Hd%bool_decide_eq_false].
    split_and!; [by do 2 apply (Stable_irq J)|split; [right; left; split; [done|by apply Z.eqb_eq]|done]|].
    left. split; [done|]. split.
    + split_and!; [|done|constructor]. transitivity (mutex_view mutex s); [done|].
      rewrite (mutex_view_some s o E). cbn. unfold abs_lock. cbn. destruct (owner o) as [t|] eqn:Ho; cbn.
      * by rewrite decide_False, Hnw by congruence.
      * by destruct Hz; apply Hn.
    + intros t d l Hv Ht Hnw'. congruence.
  - apply orb_false_iff in Hfree as [Hz%Z.eqb_neq Hd%bool_decide_eq_false].
    destruct (owner o) as [t|] eqn:Ho; [|by destruct Hz; apply Hn].
    destruct (Hown t eq_refl) as (_ & [oth Eo] & _). unfold mutex_owner. ksteps.
    eapply kwp_get_mutex; [exact E|]. rewrite Ho. ksteps. eapply kwp_get_thread; [exact Eo|].
    eapply mwp_mono; [eapply (lock_wait_spec V b s1 o t th oth); try done; congruence|].
    cbv beta. intros b' r s' (Hs' & Hf' & Hr'). auto.
Qed.

(** k_mutex_lock takes a free mutex, counts a recursive lock, and otherwise waits while
    the owner inherits the caller's priority up to the ceiling; a result of 0 means that the
    caller owns the mutex, -EBUSY that it would not wait, -EAGAIN that its time ran out. *)
Lemma k_mutex_lock_spec b s o timeout :
  is_first b = true -> began b = s ->
  Stable J 0 c b s -> objs s !! mutex = Some (O_mutex o) ->
  c <> z_idle_thread -> api_timeout timeout -> (owner o = Some c -> lock_count o < 2 ^ 32 - 1) ->
  mwp (Guar J (lock_effect timeout)) (Rely J c) b (z_impl_k_mutex_lock mutex timeout) s (fun b' r s' =>
    Stable J 0 c b' s' /\ effect (lock_effect timeout) b' s' /\ lock_result timeout b' r s').
Proof.
  intros Hf Hb Hs E Hid Hto Hmax. eapply mwp_mono; [eapply (lock_spec (lock_effect timeout)); try done|].
  - intros s' He _. by rewrite Hb.
  - cbv beta. intros b' r s' (Hs' & Hr & [[-> He]|Hf']); split_and!; try done; [intros _; by rewrite Hb|].
    intros Hf2. congruence.
Qed.

Definition unlock_effect (s s' : kstate) : Prop :=
  obj_effect (mutex_view mutex) mutex (fun _ => abs_unlock c) (unlock_wakes c mutex) 0 s s' /\
  prio_restored c mutex s s'.

(** The last level: [s] is the state with the caller's priority restored. *)
Lemma unlock_free_spec b s o :
  Stable J 0 c b s -> objs s !! mutex = Some (O_mutex o) -> owner o = Some c -> waitq s (WQ_obj mutex) = [] ->
  Stable J 0 c b (set_objs (<[mutex := O_mutex (mkMutex None 0 (owner_orig_prio o))]> (objs s)) s).
Proof.
  intros Hs E Ho Ew. apply (Stable_put_mutex b s o); [done..|congruence|done|].
  destruct (holds_get s mutex o (so_obj _ _ _ _ _ Hs) E) as (_ & _ & Hp & _).
  split_and!; cbn; [lia..|done|lia|lia|by rewrite Ew|done].
Qed.

Lemma unlock_handover_spec b s o t q th :
  Stable J 0 c b s -> objs s !! mutex = Some (O_mutex o) -> owner o = Some c -> lock_count o = 1 ->
  waitq s (WQ_obj mutex) = t :: q -> threads s !! t = Some th -> pended_on th = Some (WQ_obj mutex) ->
  let o' := mkMutex (Some t) 1 (prio th) in
  let s1 := set_objs (<[mutex := O_mutex o']> (objs s)) s in
  kwp (z_ready_thread t) (put_thread t (with_swap_retval 0 (unpended th)) (unpended_st t th (WQ_obj mutex) s1))
    (fun _ s' => Stable J 0 c b s' /\ woken t (WQ_obj mutex) s1 s' /\
       exists th3, threads s' !! t = Some th3 /\ swap_retval th3 = 0 /\ pended_on th3 = None).
Proof.
  intros Hs E Ho Hl Ew Et Ep o' s1. pose proof (so_inv _ _ _ _ Hs) as (Hi & _).
  assert (Hs1 : Steady 0 c b s1).
  { eapply Steady_put_obj; [apply Hs|exact E|]. split; [done|].
    split; intros u Hu Hne; change (u <> c) in Hne; [congruence|right]. injection Hu as <-. by exists th. }
  eapply kwp_mono; [eapply (wake_steady_spec no_metairq 0 c b s1 t th (WQ_obj mutex)); try done|].
  { cbn. by rewrite lookup_insert_eq. }
  cbv beta. intros _ s' (Hs' & Hw & th3 & E3 & Hr3 & _ & Hp3). split_and!; [|done|by exists th3]. split; [done|].
  eapply (holds_put s s' mutex o o'); [apply Hs|exact E|..].
  - eapply wframe_trans; [|apply Hw]. by apply wframe_ext.
  - apply Hw.
  - apply Hw.
  - pose proof (tok_prio _ _ _ _ (ri_thread _ _ _ _ Hi Et)). split_and!; cbn; [lia..|done|lia|lia|done|].
    intros u [= <-]. destruct (unpend_thread_spec None s t th (WQ_obj mutex)) as (Hid & _); [done|by left|done..|].
    split_and!; [done|eauto|]. rewrite (wk_waitq _ _ _ _ Hw), decide_True, elem_of_remove_elem by done. tauto.
Qed.

Lemma unlock_last_effect s s' (o : k_mutex) l :
  objs s !! mutex = Some (O_mutex o) -> owner o = Some c -> lock_count o = 1 -> waitq s (WQ_obj mutex) = l ->
  mutex_view mutex s' = Some (match l with [] => mkMutexAbs None [] | u :: q => mkMutexAbs (Some (u, 1)) q end) ->
  only_object mutex s s' -> Forall (fun t => woken_with t 0 s s') (take 1 l) ->
  prio_of s' c = owner_orig_prio o -> unlock_effect s s'.
Proof.
  intros E Ho Hl Ew Hv' Hoo Hwk Hp. pose proof (mutex_view_some s o E) as Hv. rewrite Ho, Hl, Ew in Hv.
  split; [split_and!; [|done|]|].
  - rewrite Hv', Hv. cbn. unfold abs_unlock. cbn. by rewrite decide_True.
  - unfold unlock_wakes. rewrite Hv. cbn. by rewrite decide_True.
  - intros o' Eo _ _. by assert (o' = o) as -> by congruence.
Qed.

(** Where an unlock from [s] ends: in the same stretch, or after a switch that is only
    possible with interrupts enabled. *)
Definition unlock_end (b : stretch) (s : kstate) (b' : stretch) (s' : kstate) : Prop :=
  Stable J 0 c b' s' /\ irq_locked s' = irq_locked s /\
  (b' = b /\ unlock_effect s s' \/ is_first b' = false /\ irq_locked s = false).

Lemma unlock_last_spec V `{!Effect V} b s o :
  Stable J 0 c b s -> objs s !! mutex = Some (O_mutex o) -> owner o = Some c -> lock_count o = 1 ->
  (irq_locked s = false -> forall s', unlock_effect s s' -> effect V b s') ->
  kwp (adjust_owner_prio mutex (owner_orig_prio o)) (set_irq_locked true s) (fun _ s' =>
    mwp (Guar J V) (Rely J c) b
      (new_owner ← lift (z_unpend_first_thread (WQ_obj mutex));
       lift (put_obj mutex (O_mutex (mkMutex new_owner (lock_count o) (owner_orig_prio o))));;
       match new_owner with
       | Some t =>
           th ← lift (get_thread t);
           lift (put_obj mutex (O_mutex (mkMutex new_owner (lock_count o) (prio th))));;
           lift (arch_thread_return_value_set t 0);;
           lift (z_ready_thread t);;
           z_reschedule Lock_other (irq_locked s);;
           mret 0
       | None =>
           lift (put_obj mutex (O_mutex (mkMutex new_owner 0 (owner_orig_prio o))));;
           lift (k_spin_unlock (irq_locked s));;
           mret 0
       end) s' (fun b' r s' => unlock_end b s b' s' /\ r = 0)).
Proof.
  intros Hs E Ho Hl HV. set (s1 := set_irq_locked true s).
  assert (Hs1 : Stable J 0 c b s1) by (by apply (Stable_irq J)).
  pose proof (holds_get s1 mutex o (so_obj _ _ _ _ _ Hs1) E) as Hok. pose proof Hok as (_ & _ & Hp & _ & Hown).
  eapply kwp_mono; [by apply (adjust_owner_prio_spec s1 o c); [apply Hs1|..]|]. cbv beta.
  intros _ s2 (Hst & Hw & Hother & Hth). assert (Hs2 : Stable J 0 c b s2) by (by eapply (Stable_step J)).
  assert (Eo2 : objs s2 = objs s) by apply (ss_frame _ _ Hst).
  assert (E2 : objs s2 !! mutex = Some (O_mutex o)) by (by rewrite Eo2).
  assert (Hwq2 : forall w, waitq s2 w = waitq s w) by (intros w; unfold waitq; by rewrite Hw).
  assert (Hp2 : prio_of s2 c = owner_orig_prio o).
  { destruct (Hown c Ho) as (_ & [th Et] & _). destruct (Hth th Et) as (th' & E' & Hpr). unfold prio_of.
    rewrite E'. cbn [from_option]. rewrite Hpr, wrap_s_small; lia. }
  ksteps. apply unpend_first_spec; [apply Hs2| |].
  - intros Ew. ksteps. cbn [objs set_objs]. rewrite insert_insert_eq.
    split; [|done]. split_and!; [by apply (Stable_irq J), (unlock_free_spec b s2 o)|done|].
    left. split; [done|]. rewrite Hwq2 in Ew. apply (unlock_last_effect s _ o []); try done.
    + erewrite mutex_view_some by apply lookup_insert_eq. cbn. do 2 f_equal. rewrite <- Ew. apply Hwq2.
    + split; [intros a Ha; cbn; rewrite lookup_insert_ne by done; by rewrite Eo2|]. intros w _. apply Hwq2.
  - intros t q th Ew Et Ep. ksteps. eapply kwp_get_thread; [apply lookup_insert_eq|]. ksteps.
    eapply kwp_upd_thread; [apply lookup_insert_eq|]. cbn [objs set_objs unpended_st]. ksteps.
    rewrite Hl, insert_insert_eq.
    eapply kwp_mono; [by apply (unlock_handover_spec b s2 o t q th)|]. cbv beta.
    intros _ s3 (Hs3 & Hwk & th3 & E3 & Hr3 & Hp3). ksteps.
    assert (Heff : unlock_effect s s3).
    { apply (unlock_last_effect s s3 o (t :: q)); try done; [by rewrite <- Hwq2|..].
      * erewrite mutex_view_some by (rewrite (wk_objs _ _ _ _ Hwk); apply lookup_insert_eq). cbn. do 2 f_equal.
        eapply woken_head in Hwk; [exact Hwk|apply SInv_objs, Hs2|exact Ew].
      * split; [|].
        -- intros a Ha. rewrite (wk_objs _ _ _ _ Hwk). cbn. rewrite lookup_insert_ne by done. by rewrite Eo2.
        -- intros w Hne. rewrite (wk_waitq _ _ _ _ Hwk), decide_False by done. apply Hwq2.
      * constructor; [|constructor]. intros _. by exists th3.
      * rewrite <- Hp2. unfold prio_of. rewrite (wk_other _ _ _ _ Hwk); [done|]. intros ->.
        destruct (waiter_not_exempt 0 t b s2 t th _ Hs2 Et Ep). done. }
    eapply mwp_mono; [apply (reschedule_key_spec J V 0 c); [done|auto]|]. cbv beta.
    intros b' _ s' (Hs' & Hi' & Hb' & _). kstep. split; [|done]. split_and!; [done..|].
    destruct Hb' as [[-> ->]|[Hf' Hk]]; [left|by right]. split; [done|]. by eapply effect_view.
Qed.

Definition unlock_retval (o : k_mutex) : Z :=
  match owner o with None => - EINVAL | Some t => if decide (t = c) then 0 else - EPERM end.

Lemma unlock_spec V `{!Effect V} b s o :
  Stable J 0 c b s -> objs s !! mutex = Some (O_mutex o) ->
  (irq_locked s = false -> forall s', unlock_effect s s' -> effect V b s') ->
  mwp (Guar J V) (Rely J c) b (z_impl_k_mutex_unlock mutex) s (fun b' r s' =>
    unlock_end b s b' s' /\ r = unlock_retval o).
Proof.
  intros Hs E HV. unfold unlock_retval, unlock_end, unlock_effect. unfold z_impl_k_mutex_unlock. ksteps.
  apply kwp_assert; [by rewrite (so_nested _ _ _ _ Hs)|]. ksteps. eapply kwp_get_mutex; [exact E|].
  pose proof (holds_get s mutex o (so_obj _ _ _ _ _ Hs) E) as Hok. pose proof Hok as (Hl & Hn & Hp & _ & Hown).
  destruct (so_thread _ _ _ _ Hs eq_refl) as (Hc & _). ksteps. rewrite Hc.
  pose proof (mutex_view_some s o E) as Hv.
  destruct (owner o) as [t|] eqn:Ho; cycle 1.
  { rewrite bool_decide_true by done. kstep. split; [|done]. split_and!; [done..|]. left. split; [done|]. split; [|intros ???; congruence].
    split_and!; [by rewrite Hv|done|]. unfold unlock_wakes. by rewrite Hv; constructor. }
  rewrite (bool_decide_false (Some t = None)) by done. destruct (decide (t = c)) as [->|Hne]; cycle 1.
  { rewrite bool_decide_true by congruence. kstep. split; [|done]. split_and!; [done..|]. left. split; [done|].
    split; [|intros ???; congruence]. split_and!; [|done|].
    - rewrite Hv. cbn. unfold abs_unlock. cbn. by rewrite decide_False.
    - unfold unlock_wakes. rewrite Hv. cbn. rewrite decide_False by done. constructor. }
  rewrite bool_decide_false by (by intros []). assert (Hl1 : 1 <= lock_count o).
  { assert (lock_count o <> 0) by (intros Hz; by apply Hn in Hz). lia. }
  ksteps. apply kwp_assert; [apply Z.gtb_lt; lia|]. destruct (Z.gtb_spec (lock_count o) 1) as [Hgt|Hle].
  - ksteps. split; [|done]. split_and!; [|done|].
    + apply (Stable_put_mutex b s o); [done..|congruence|cbn; congruence|]. destruct Hok as (_ & _ & _ & Hw & _).
      split_and!; cbn; [lia..|split; [done|lia]|lia|lia|done|exact Hown].
    + left. split; [done|]. split; [split_and!|].
      * erewrite mutex_view_some by apply lookup_insert_eq. rewrite Hv. cbn. unfold abs_unlock. cbn.
        rewrite decide_True by done. by destruct (Z.gtb_spec (lock_count o) 1); [|lia].
      * split; [|done]. intros a Ha. cbn. by rewrite lookup_insert_ne.
      * unfold unlock_wakes. rewrite Hv. cbn. rewrite decide_True by done.
        destruct (Z.gtb_spec (lock_count o) 1); [constructor|lia].
      * intros o' Eo' _ Hl'. assert (o' = o) as -> by congruence. lia.
  - assert (Hone : lock_count o = 1) by lia. ksteps. by apply (unlock_last_spec V b s o).
Qed.

(** k_mutex_unlock refuses a mutex that is not locked or not the caller's, counts down
    a recursive lock, and on the last unlock restores the caller's priority and hands the mutex
    to its first waiter. *)
Lemma k_mutex_unlock_spec b s o :
  is_first b = true -> began b = s ->
  Stable J 0 c b s -> objs s !! mutex = Some (O_mutex o) ->
  mwp (Guar J unlock_effect) (Rely J c) b (z_impl_k_mutex_unlock mutex) s (fun b' r s' =>
    Stable J 0 c b' s' /\ effect unlock_effect b' s' /\ r = unlock_retval o).
Proof.
  intros Hf Hb Hs E. eapply mwp_mono; [eapply (unlock_spec unlock_effect); try done|].
  - intros _ s' He _. by rewrite Hb.
  - cbv beta. intros b' r s' ((Hs' & _ & [[-> He]|[Hf' _]]) & ->); split_and!; try done; [intros _; by rewrite Hb|].
    intros Hf2. congruence.
Qed.
End MutexSpec.
