(* ===== verification/Condvar.v ===== *)
(** * Condition variables (kernel/condvar.c)

    The theorems show that [k_condvar_wait] releases the mutex and starts to wait
    without a gap in which a signal could be lost, and comes back owning the mutex. *)

From S2P Require Import Prelude Timeout PriorityQ KState KLogic Sched SchedInv SchedOps Switch ThreadOps Mutex.

Local Open Scope Z_scope.

Section Condvar.
Context `{KConfig}.

Definition z_impl_k_condvar_init (condvar : addr) : K Z :=
  put_obj condvar O_condvar;;
  z_waitq_init (WQ_obj condvar);;
  mret 0.

Definition z_impl_k_condvar_signal (condvar : addr) : M Z :=
  key ← lift k_spin_lock;
  lift (get_condvar condvar);;
  thread ← lift (z_unpend_first_thread (WQ_obj condvar));
  (match thread with
   | Some t =>
       lift (arch_thread_return_value_set t 0);;
       lift (z_ready_thread t);;
       z_reschedule Lock_other key
   | None => lift (k_spin_unlock key)
   end);;
  mret 0.

(** The [for] loop of [z_impl_k_condvar_broadcast]. *)
Fixpoint condvar_broadcast_loop (fuel : nat) (condvar : addr) (woken : Z) : K Z :=
  pending_thread ← z_unpend_first_thread (WQ_obj condvar);
  match pending_thread with
  | None => mret woken
  | Some t =>
      match fuel with
      | O => kfail
      | S fuel =>
          arch_thread_return_value_set t 0;;
          z_ready_thread t;;
          condvar_broadcast_loop fuel condvar (woken + 1)
      end
  end.

Definition z_impl_k_condvar_broadcast (condvar : addr) : M Z :=
  key ← lift k_spin_lock;
  lift (get_condvar condvar);;
  l ← lift (kget (fun s => waitq s (WQ_obj condvar)));
  woken ← lift (condvar_broadcast_loop (length l) condvar 0);
  z_reschedule Lock_other key;;
  mret woken.

Definition z_impl_k_condvar_wait (condvar mutex : addr) (timeout : k_timeout_t) : M Z :=
  key ← lift k_spin_lock;
  lift (get_condvar condvar);;
  _ ← z_impl_k_mutex_unlock mutex;
  ret ← z_pend_curr Lock_other key (Some (WQ_obj condvar)) timeout;
  _ ← z_impl_k_mutex_lock mutex K_FOREVER;
  mret ret.
End Condvar.

(** ** Specification

    A condition variable is its queue of waiters. *)
Definition condvar_view (condvar : addr) (s : kstate) : option (list tid) :=
  match objs s !! condvar with
  | Some O_condvar => Some (waitq s (WQ_obj condvar))
  | _ => None
  end.

#[export] Instance condvar_view_ok condvar : View (condvar_view condvar) condvar.
Proof. constructor. intros s s' Eo Ew _. unfold condvar_view. by rewrite Eo, Ew. Qed.

Definition mk_condvar (_ : unit) : kobj := O_condvar.
Definition condvar_ok (s : kstate) (condvar : addr) (_ : unit) : Prop := True.

Section CondvarSpec.
Context `{KConfig}.
Hypothesis no_metairq : CONFIG_NUM_METAIRQ_PRIORITIES = 0.
Hypothesis ceiling_ok : -128 <= CONFIG_PRIORITY_CEILING < 128.
Context (J : kstate -> Prop) `{!ObjInv J, !Holds J O_mutex mutex_ok, !Holds J mk_condvar condvar_ok}.
Context (n : Z) (c : tid) (condvar : addr).
Implicit Types (b : stretch) (s : kstate).

Lemma condvar_view_some s :
  objs s !! condvar = Some O_condvar -> condvar_view condvar s = Some (waitq s (WQ_obj condvar)).
Proof. unfold condvar_view. by intros ->. Qed.

(** k_condvar_signal wakes the first waiter of the condition variable, if any, and
    nothing else. *)
Lemma k_condvar_signal_spec b s :
  is_first b = true -> began b = s ->
  Stable J n c b s -> objs s !! condvar = Some O_condvar ->
  let V := obj_effect (condvar_view condvar) condvar (fun _ => tail) (fun s => take 1 (waitq s (WQ_obj condvar))) 0 in
  mwp (Guar J V) (Rely J c) b (z_impl_k_condvar_signal condvar) s (fun b' r s' =>
    Stable J n c b' s' /\ effect V b' s' /\ r = 0).
Proof.
  intros Hf Hb Hs E V. unfold z_impl_k_condvar_signal. ksteps. apply kwp_get_condvar; [exact E|]. ksteps.
  set (s1 := set_irq_locked true s). assert (Hs1 : Stable J n c b s1) by (by apply (Stable_irq J)).
  apply unpend_first_spec; [apply Hs1| |].
  - intros Ew. ksteps. split_and!; [by do 2 apply (Stable_irq J)| |done]. intros _. rewrite Hb.
    change (waitq s (WQ_obj condvar) = []) in Ew. split_and!; [|done|by rewrite Ew; constructor].
    transitivity (condvar_view condvar s); [done|]. rewrite (condvar_view_some s E), Ew. done.
  - intros t q th Ew Et Ep. ksteps. eapply kwp_upd_thread; [apply lookup_insert_eq|]. ksteps.
    eapply kwp_mono; [apply (wake_spec no_metairq J n c b s1 t th (WQ_obj condvar) (with_swap_retval 0 (unpended th)))|];
      try done.
    { cbn. by rewrite E. }
    cbv beta. intros _ s2 (Hs2 & Hw & th3 & E3 & Hr3 & _ & Hp3).
    eapply mwp_mono; [apply (reschedule_spec J V); [done|]|].
    + intros _. rewrite Hb. change (waitq s (WQ_obj condvar) = t :: q) in Ew. split_and!.
      * rewrite (condvar_view_some s E). erewrite condvar_view_some by (rewrite (wk_objs _ _ _ _ Hw); exact E).
        cbn. rewrite Ew. f_equal. by eapply (woken_head t q (WQ_obj condvar) s1); [apply Hs1|..].
      * exact (woken_only _ _ _ _ Hw).
      * rewrite Ew. constructor; [|constructor]. intros _. by exists th3.
    + cbv beta. intros b' _ s' (Hs' & He' & _). by kstep.
Qed.

Lemma broadcast_loop_body fuel acc :
  condvar_broadcast_loop fuel condvar acc
  = wake_all_body condvar 0 (fun w => w + 1) (fun f w => condvar_broadcast_loop f condvar w) fuel acc.
Proof. by destruct fuel. Qed.

Lemma iter_count k z : Nat.iter k (fun w => w + 1) z = z + Z.of_nat k.
Proof. induction k as [|k IH]; [cbn; lia|]. rewrite Nat.iter_succ, IH. lia. Qed.

(** k_condvar_broadcast wakes every waiter, terminates, and returns how many there
    were. *)
Lemma k_condvar_broadcast_spec b s :
  is_first b = true -> began b = s ->
  Stable J n c b s -> objs s !! condvar = Some O_condvar ->
  let V := obj_effect (condvar_view condvar) condvar (fun _ _ => []) (fun s => waitq s (WQ_obj condvar)) 0 in
  mwp (Guar J V) (Rely J c) b (z_impl_k_condvar_broadcast condvar) s (fun b' r s' =>
    Stable J n c b' s' /\ effect V b' s' /\ r = Z.of_nat (length (waitq s (WQ_obj condvar)))).
Proof.
  intros Hf Hb Hs E V. unfold z_impl_k_condvar_broadcast. ksteps. apply kwp_get_condvar; [exact E|]. ksteps.
  set (s1 := set_irq_locked true s). assert (Hs1 : Stable J n c b s1) by (by apply (Stable_irq J)).
  eapply kwp_mono.
  { apply (wake_all_spec no_metairq J n c condvar 0 _ _ b broadcast_loop_body _ s1 0 Hs1 eq_refl).
    intros t. cbn. by rewrite E. }
  cbv beta. intros r s2 (-> & Hs2 & Hw). rewrite iter_count. kstep.
  eapply mwp_mono; [apply (reschedule_spec J V); [done|]|].
  - intros _. rewrite Hb. split_and!.
    + rewrite (condvar_view_some s E). erewrite condvar_view_some by (rewrite (wa_objs _ _ _ _ Hw); exact E).
      by rewrite (wa_empty _ _ _ _ Hw).
    + split; [intros a _; by rewrite (wa_objs _ _ _ _ Hw)|exact (wa_waitq _ _ _ _ Hw)].
    + apply Forall_forall. intros t Ht _. exact (wa_woken _ _ _ _ Hw t Ht).
  - cbv beta. intros b' _ s' (Hs' & He' & _). kstep. done.
Qed.

(** Waiting releases [mutex] and queues the caller in one step. *)
Definition wait_effect (mutex : addr) (s s' : kstate) : Prop :=
  mutex_view mutex s' = abs_unlock c <$> mutex_view mutex s /\
  condvar_view condvar s' = z_priq_dumb_add (prio_of s') c <$> condvar_view condvar s /\
  (forall a, a <> mutex -> a <> condvar -> objs s' !! a = objs s !! a) /\
  (forall w, w <> WQ_obj mutex -> w <> WQ_obj condvar -> waitq s' w = waitq s w) /\
  Forall (fun t => woken_with t 0 s s') (unlock_wakes c mutex s).

#[export] Instance wait_effect_ok mutex : Effect (wait_effect mutex).
Proof.
  constructor. intros s s1 s2 [Eo Em Ew Er Hp Et _ _] (Hm & Hc & Ho & Hw & Hwk).
  assert (Ewq : forall w, waitq s2 w = waitq s1 w) by (intros w; unfold waitq; by rewrite Ew). split_and!.
  - rewrite <- Hm. apply (view_ext (a := mutex)); [by rewrite Eo|apply Ewq|done].
  - transitivity (condvar_view condvar s1); [apply (view_ext (a := condvar)); [by rewrite Eo|apply Ewq|done]|].
    rewrite Hc. destruct (condvar_view condvar s); [|done]. cbn. f_equal. apply dumb_add_ext. by intros u _.
  - intros a H1 H2. rewrite Eo. auto.
  - intros w H1 H2. rewrite Ewq. auto.
  - eapply Forall_impl; [exact Hwk|]. intros t Ht Hne. rewrite (Et t Hne). auto.
Qed.

Lemma unlocked_depth mutex s s' o o' :
  mutex_view mutex s' = abs_unlock c <$> mutex_view mutex s -> objs s !! mutex = Some (O_mutex o) ->
  mutex_ok s mutex o -> owns c mutex o' s' -> lock_count o' < 2 ^ 32 - 1.
Proof.
  intros Hv E (Hl & _ & _ & _ & Hown) [E' Ho'].
  rewrite (mutex_view_some _ s o E), (mutex_view_some _ s' o' E'), Ho' in Hv. cbn in Hv. unfold abs_unlock in Hv. cbn in Hv.
  destruct (owner o) as [t|] eqn:Ho; cbn in Hv; [|done]. destruct (decide (t = c)) as [->|Hne].
  - destruct (lock_count o >? 1).
    + injection Hv as Hv _. lia.
    + destruct (waitq s (WQ_obj mutex)); [done|]. injection Hv as _ Hv _. lia.
  - injection Hv. congruence.
Qed.

(** k_condvar_wait releases the mutex and queues the caller before any other thread can
    run, and returns with the mutex owned by the caller again.  The result is the value it was
    woken with from the queue of the condition variable, whatever happens while it waits for
    the mutex after that. *)
Lemma k_condvar_wait_if_spec X b s mutex o timeout :
  n = 0 -> is_first b = true -> began b = s ->
  Stable J n c b s -> objs s !! condvar = Some O_condvar -> objs s !! mutex = Some (O_mutex o) ->
  c <> z_idle_thread -> api_timeout timeout ->
  mwp (Guar J (wait_effect mutex)) (Rely_if J X c) b (z_impl_k_condvar_wait condvar mutex timeout) s (fun b' r s' =>
    (Stable J n c b' s' /\ is_first b' = false /\ (r = 0 \/ r = - EAGAIN /\ timeout <> K_FOREVER) /\
    exists o', owns c mutex o' s') /\
    exists s1 s2, c ∈ waitq s1 (WQ_obj condvar) /\ X s1 s2 /\ swap_retval <$> threads s2 !! c = Some r).
Proof.
  intros -> Hf Hb Hs Ec Em Hid Hto. assert (Hne : condvar <> mutex) by congruence.
  unfold z_impl_k_condvar_wait. ksteps. apply kwp_get_condvar; [exact Ec|]. kstep.
  set (s1 := set_irq_locked true s). assert (Hs1 : Stable J 0 c b s1) by (by apply (Stable_irq J)).
  assert (Hif : forall s1 s2, Rely_if J X c s1 s2 -> Rely J c s1 s2) by (by intros ?? [? _]).
  eapply mwp_mono; [by eapply mwp_rely; [apply (unlock_spec no_metairq ceiling_ok J c mutex (wait_effect mutex) b s1 o)|]|]. cbv beta.
  intros b' _ s2 ((Hs2 & Hi2 & [[-> [(Hv2 & [Ho2 Hw2] & Hwk2) _]]|[_ Hcontra]]) & _); [|done].
  assert (Ec2 : objs s2 !! condvar = Some O_condvar) by (by rewrite Ho2). kstep.
  destruct (so_thread _ _ _ _ Hs eq_refl) as (Hcur & _).
  assert (Hx2 : is_Some (threads s2 !! c)).
  { destruct (so_thread _ _ _ _ Hs2 eq_refl) as (Hcur2 & _). rewrite <- Hcur2. apply Hs2. }
  assert (Hwc : waitq s2 (WQ_obj condvar) = waitq s (WQ_obj condvar)) by (rewrite Hw2; [done|congruence]).
  eapply mwp_mono; [apply (pend_curr_if_spec no_metairq J (wait_effect mutex) 0 c X b s2 (WQ_obj condvar)); try done|].
  - intros s3 Hp. split; [by eapply (holds_pend (inj := mk_condvar) s2 s3 c condvar tt); [apply Hs2|..]|].
    intros _. rewrite Hb. destruct (pframe_only _ _ _ _ Hp) as [Ho3 Hw3]. split_and!.
    + transitivity (mutex_view mutex s2); [|exact Hv2]. unfold mutex_view. rewrite Ho3, Hw3 by congruence. done.
    + erewrite condvar_view_some by (rewrite (pf_objs _ _ _ _ Hp); exact Ec2). rewrite (condvar_view_some s Ec). cbn.
      rewrite (pf_waitq _ _ _ _ Hp), decide_True, Hwc by done. f_equal. apply dumb_add_ext. intros u _.
      symmetry. by eapply pframe_prio.
    + intros a Ha1 Ha2. rewrite Ho3 by done. by rewrite Ho2.
    + intros w Ha1 Ha2. rewrite Hw3 by done. by rewrite Hw2.
    + eapply Forall_impl; [exact Hwk2|]. intros t Ht Hne'. destruct (Ht Hne') as (th' & Et & Hth).
      exists th'. rewrite (pf_other _ _ _ _ Hp); [done|]. by rewrite <- Hcur.
  - cbv beta. intros b3 r s3 ((Hs3 & Hf3 & Hr & _ & _ & Hk & Hown & Howned) & s0 & Hin0 & HX0 & Hrv0). kstep.
    assert (exists o2, objs s2 !! mutex = Some (O_mutex o2)) as [o2 Em2].
    { rewrite (mutex_view_some _ s1 o Em) in Hv2. unfold mutex_view in Hv2. cbn in Hv2.
      destruct (objs s2 !! mutex) as [[]|]; try done. eauto. }
    destruct (Hk mutex _ Em2) as ([|o3| | | | |] & Em3 & Ek3); try done.
    eapply mwp_mono; [eapply mwp_rely; [apply (lock_spec no_metairq ceiling_ok J c mutex (wait_effect mutex) b3 s3 o3 K_FOREVER); try done|done]|].
    + by left.
    + intros Ho3. destruct (Howned mutex o3) as [Hown3|Heq]; [done| |congruence].
      eapply unlocked_depth; [exact Hv2|exact Em|by apply (holds_get s1 mutex o (so_obj _ _ _ _ _ Hs1))|exact Hown3].
    + intros s' _ Hf'. congruence.
    + cbv beta. intros b4 r4 s4 (Hs4 & [Hres Hown4] & Hb4). kstep. split; [|by exists s0, (began b3)].
      split_and!; [done|by destruct Hb4 as [[-> _]|]|..].
      * destruct Hr as [[-> Ht]|Hg]; [by right|left]. cbn in Hg. destruct (Hk condvar _ Ec2) as (oc & Ec3 & Ekc).
        rewrite Ec3 in Hg. by destruct oc.
      * apply Hown4. by destruct Hres as [|[[_ ?]|(_ & _ & ?)]].
Qed.

Lemma k_condvar_wait_spec b s mutex o timeout :
  n = 0 -> is_first b = true -> began b = s ->
  Stable J n c b s -> objs s !! condvar = Some O_condvar -> objs s !! mutex = Some (O_mutex o) ->
  c <> z_idle_thread -> api_timeout timeout ->
  mwp (Guar J (wait_effect mutex)) (Rely J c) b (z_impl_k_condvar_wait condvar mutex timeout) s (fun b' r s' =>
    Stable J n c b' s' /\ is_first b' = false /\ (r = 0 \/ r = - EAGAIN /\ timeout <> K_FOREVER) /\
    exists o', owns c mutex o' s').
Proof.
  intros. eapply mwp_mono; [eapply mwp_rely; [by eapply (k_condvar_wait_if_spec (fun _ _ => True))|apply Rely_any]|].
  by intros b' r s' [? _].
Qed.
End CondvarSpec.
