(* ===== verification/Stack.v ===== *)
(** * Kernel stacks (kernel/stack.c)

    A LIFO of [stack_data_t] words in a caller-supplied buffer.  Pointers are
    addresses; the buffer's words are cells of the memory, [sizeof(stack_data_t)]
    apart. *)

From S2P Require Import Prelude Timeout PriorityQ KState KLogic Sched SchedInv SchedOps Switch.

Local Open Scope Z_scope.

Definition sizeof_stack_data_t : Z := 4.
Definition K_STACK_FLAG_ALLOC : Z := 1.

Section Stack.
Context `{KConfig}.

(** [flags] is not written: it keeps what the memory held before. *)
Definition k_stack_init (stack : addr) (buffer num_entries flags : Z) : K unit :=
  z_waitq_init (WQ_obj stack);;
  put_obj stack (O_stack (mkStack buffer buffer (buffer + num_entries * sizeof_stack_data_t) flags)).

Definition z_impl_k_stack_push (stack : addr) (data : Z) : M Z :=
  key ← lift k_spin_lock;
  o ← lift (get_stack stack);
  if stk_next o =? stk_top o then (lift (k_spin_unlock key);; mret (- ENOMEM))
  else
    first_pending_thread ← lift (z_unpend_first_thread (WQ_obj stack));
    match first_pending_thread with
    | Some t =>
        lift (z_thread_return_value_set_with_data t 0 data);;
        lift (z_ready_thread t);;
        z_reschedule Lock_other key;;
        mret 0
    | None =>
        lift (mem_store (stk_next o) data);;
        lift (put_obj stack (O_stack (mkStack (stk_base o) (stk_next o + sizeof_stack_data_t)
                                              (stk_top o) (stk_flags o))));;
        lift (k_spin_unlock key);;
        mret 0
    end.

(** The result is the return value and, when it was written, [*data]. *)
Definition z_impl_k_stack_pop (stack : addr) (timeout : k_timeout_t) : M (Z * option Z) :=
  key ← lift k_spin_lock;
  o ← lift (get_stack stack);
  if stk_next o >? stk_base o then
    let next := stk_next o - sizeof_stack_data_t in
    lift (put_obj stack (O_stack (mkStack (stk_base o) next (stk_top o) (stk_flags o))));;
    data ← lift (mem_load next);
    lift (k_spin_unlock key);;
    mret (0, Some data)
  else if K_TIMEOUT_EQ timeout K_NO_WAIT then (lift (k_spin_unlock key);; mret (- EBUSY, None))
  else
    result ← z_pend_curr Lock_other key (Some (WQ_obj stack)) timeout;
    if result =? - EAGAIN then mret (- EAGAIN, None)
    else
      curr ← lift (kget current);
      th ← lift (get_thread curr);
      mret (0, Some (swap_data th)).
End Stack.

(** ** Specification

    A stack is a bounded list of words, the top first, and a queue of waiters. *)
Record stack_abs := mkStackAbs { abs_words : list Z; abs_free : Z; abs_swaiters : list tid }.

Fixpoint words (m : gmap Z Z) (base : Z) (k : nat) : list Z :=
  match k with
  | O => []
  | S k => default 0 (m !! (base + sizeof_stack_data_t * Z.of_nat k)) :: words m base k
  end.

Definition depth (o : k_stack) : nat := Z.to_nat ((stk_next o - stk_base o) / sizeof_stack_data_t).

Definition stack_view (stack : addr) (s : kstate) : option stack_abs :=
  match objs s !! stack with
  | Some (O_stack o) =>
      Some (mkStackAbs (words (mem s) (stk_base o) (depth o))
              ((stk_top o - stk_next o) / sizeof_stack_data_t) (waitq s (WQ_obj stack)))
  | _ => None
  end.

#[export] Instance stack_view_ok stack : View (stack_view stack) stack.
Proof. constructor. intros s s' Eo Ew Em. unfold stack_view. by rewrite Eo, Ew, Em. Qed.

Definition abs_push (d : Z) (v : stack_abs) : stack_abs :=
  if abs_free v =? 0 then v
  else match abs_swaiters v with
       | [] => mkStackAbs (d :: abs_words v) (abs_free v - 1) []
       | _ :: q => mkStackAbs (abs_words v) (abs_free v) q
       end.

Definition abs_pop (prio : tid -> Z) (c : tid) (timeout : k_timeout_t) (v : stack_abs) : stack_abs :=
  match abs_words v with
  | _ :: l => mkStackAbs l (abs_free v + 1) (abs_swaiters v)
  | [] => if K_TIMEOUT_EQ timeout K_NO_WAIT then v
          else mkStackAbs [] (abs_free v) (z_priq_dumb_add prio c (abs_swaiters v))
  end.

(** The waiter a push wakes. *)
Definition push_wakes (stack : addr) (s : kstate) : list tid :=
  match stack_view stack s with
  | Some v => if abs_free v =? 0 then [] else take 1 (abs_swaiters v)
  | None => []
  end.

Section StackSpec.
Context `{KConfig}.
Hypothesis no_metairq : CONFIG_NUM_METAIRQ_PRIORITIES = 0.
Context (J : kstate -> Prop) (W : kstate -> Z -> Prop).

Definition stack_ok (s : kstate) (stack : addr) (o : k_stack) : Prop :=
  exists k m, (k <= m)%nat /\ stk_next o = stk_base o + sizeof_stack_data_t * Z.of_nat k /\
    stk_top o = stk_base o + sizeof_stack_data_t * Z.of_nat m /\
    (forall i, (i < m)%nat -> let p := stk_base o + sizeof_stack_data_t * Z.of_nat i in
       is_Some (mem s !! p) /\ W s p) /\
    (waitq s (WQ_obj stack) <> [] -> k = O).

Context `{!ObjInv J, !MemInv J W, !Holds J O_stack stack_ok}.
Context (n : Z) (c : tid) (stack : addr).
Implicit Types (b : stretch) (s : kstate).

Lemma stack_view_some s o k m :
  objs s !! stack = Some (O_stack o) -> stk_next o = stk_base o + sizeof_stack_data_t * Z.of_nat k ->
  stk_top o = stk_base o + sizeof_stack_data_t * Z.of_nat m ->
  stack_view stack s = Some (mkStackAbs (words (mem s) (stk_base o) k) (Z.of_nat m - Z.of_nat k)
    (waitq s (WQ_obj stack))).
Proof.
  intros E Hn Ht. unfold stack_view. rewrite E. unfold depth, sizeof_stack_data_t in *. do 2 f_equal.
  - f_equal. rewrite Hn. replace (_ - stk_base o) with (Z.of_nat k * 4) by lia. rewrite Z.div_mul by lia. lia.
  - rewrite Hn, Ht. replace (_ - _) with ((Z.of_nat m - Z.of_nat k) * 4) by lia. by rewrite Z.div_mul.
Qed.

Lemma words_insert m base k i v :
  (k <= i)%nat -> words (<[base + sizeof_stack_data_t * Z.of_nat i := v]> m) base k = words m base k.
Proof.
  induction k as [|k IH]; intros Hi; cbn; [done|]. rewrite lookup_insert_ne by (unfold sizeof_stack_data_t; lia).
  by rewrite IH by lia.
Qed.

(** The stack's words. *)
Definition stack_mem (s : kstate) (p : Z) : Prop :=
  exists o, objs s !! stack = Some (O_stack o) /\ stk_base o <= p < stk_top o.

Lemma Stable_put_stack b s o o' :
  Stable J n c b s -> objs s !! stack = Some (O_stack o) -> stack_ok s stack o' ->
  Stable J n c b (set_objs (<[stack := O_stack o']> (objs s)) s).
Proof.
  intros Hs E (k & m & Hkm & Hn & Ht & Hm & Hw). eapply Stable_put_obj; [done|exact E|done|].
  eapply holds_put; [apply Hs|exact E|by apply wframe_ext|done..|]. exists k, m. split_and!; try done.
  intros i Hi. destruct (Hm i Hi) as [H1 H2]. split; [exact H1|].
  apply (writable_stable s); [apply Hs| |done|exact H2].
  intros a o0. cbn. destruct (decide (a = stack)) as [->|]; [|by rewrite lookup_insert_ne].
  rewrite lookup_insert_eq, E. done.
Qed.

(** A push with nobody waiting. *)
Lemma push_store_spec b s o d :
  Stable J n c b s -> objs s !! stack = Some (O_stack o) -> waitq s (WQ_obj stack) = [] -> stk_next o <> stk_top o ->
  let s2 := set_objs (<[stack := O_stack (mkStack (stk_base o) (stk_next o + sizeof_stack_data_t) (stk_top o) (stk_flags o))]>
              (objs s)) (set_mem (<[stk_next o := d]> (mem s)) s) in
  is_Some (mem s !! stk_next o) /\ Stable J n c b s2 /\ stack_view stack s2 = abs_push d <$> stack_view stack s /\
  stk_base o <= stk_next o < stk_top o.
Proof.
  intros Hs E Ew Hne s2. pose proof (holds_get s stack o (so_obj _ _ _ _ _ Hs) E) as (k & m & Hkm & Hn & Ht & Hm & _).
  assert (k < m)%nat as Hlt by (destruct (decide (k = m)); [congruence|lia]).
  destruct (Hm k Hlt) as [Hmem HW]. rewrite <- Hn in Hmem, HW.
  assert (Hd : forall p, is_Some (<[stk_next o := d]> (mem s) !! p) <-> is_Some (mem s !! p)).
  { intros p. destruct (decide (p = stk_next o)) as [->|]; [|by rewrite lookup_insert_ne].
    rewrite lookup_insert_eq. split; eauto. }
  assert (Hw : forall p, <[stk_next o := d]> (mem s) !! p <> mem s !! p -> W s p).
  { intros p. destruct (decide (p = stk_next o)) as [->|]; [done|by rewrite lookup_insert_ne]. }
  split_and!; [done| | |rewrite Hn; unfold sizeof_stack_data_t; lia|rewrite Hn, Ht; unfold sizeof_stack_data_t; lia].
  - apply (Stable_put_stack b (set_mem _ s) o); [by apply (Stable_mem J n c W)|done|].
    exists (S k), m. cbn. split_and!; [lia|rewrite Hn; lia|done| |by intros Hx; destruct (Hx Ew)].
    intros i Hi. destruct (Hm i Hi) as [H1 H2]. split; [by apply Hd|]. by apply (writable_stable s); [apply Hs|..].
  - rewrite (stack_view_some s o k m) by done.
    rewrite (stack_view_some s2 (mkStack (stk_base o) (stk_next o + sizeof_stack_data_t) (stk_top o) (stk_flags o)) (S k) m);
      [|apply lookup_insert_eq|cbn; lia|done].
    cbn. unfold abs_push. cbn. rewrite (proj2 (Z.eqb_neq _ _)) by lia.
    change (waitq s2 (WQ_obj stack)) with (waitq s (WQ_obj stack)). rewrite Ew. do 2 f_equal; [|lia].
    rewrite Hn, lookup_insert_eq, words_insert; [done|lia].
Qed.

Lemma stack_full s o k m :
  stk_next o = stk_base o + sizeof_stack_data_t * Z.of_nat k ->
  stk_top o = stk_base o + sizeof_stack_data_t * Z.of_nat m ->
  (stk_next o =? stk_top o) = (Z.of_nat m - Z.of_nat k =? 0).
Proof. unfold sizeof_stack_data_t. intros -> ->. destruct (Z.eqb_spec (Z.of_nat m - Z.of_nat k) 0); lia. Qed.

Definition push_effect (d : Z) (s s' : kstate) : Prop :=
  obj_effect (stack_view stack) stack (fun _ => abs_push d) (push_wakes stack) 0 s s' /\
  given d (push_wakes stack) s s' /\ only_memory (stack_mem s) s s'.

#[export] Instance push_effect_ok d : Effect (push_effect d).
Proof. apply effect_and; [apply obj_effect_ok, _|apply effect_and; apply _]. Qed.

(** k_stack_push stores the word on the stack of its capacity or hands it to the first
    waiter, returns -ENOMEM when the stack is full, and writes no other memory. *)
Lemma k_stack_push_spec b s o d :
  is_first b = true -> began b = s ->
  Stable J n c b s -> objs s !! stack = Some (O_stack o) ->
  let V := push_effect d in
  mwp (Guar J V) (Rely J c) b (z_impl_k_stack_push stack d) s (fun b' r s' =>
    Stable J n c b' s' /\ effect V b' s' /\ r = if stk_next o =? stk_top o then - ENOMEM else 0).
Proof.
  intros Hf Hb Hs E V. unfold z_impl_k_stack_push. ksteps.
  set (s1 := set_irq_locked true s). assert (Hs1 : Stable J n c b s1) by (by apply (Stable_irq J)).
  assert (E1 : objs s1 !! stack = Some (O_stack o)) by done. eapply kwp_get_stack; [exact E1|].
  pose proof (holds_get s1 stack o (so_obj _ _ _ _ _ Hs1) E1) as (k & m & Hkm & Hn & Ht & _ & Hw).
  assert (Hv : stack_view stack s = Some _) by (by apply (stack_view_some s o k m)).
  assert (Hpw : push_wakes stack s = if stk_next o =? stk_top o then [] else take 1 (waitq s (WQ_obj stack))).
  { unfold push_wakes. rewrite Hv. cbn. by rewrite (stack_full s o k m). }
  destruct (stk_next o =? stk_top o) eqn:Hfull.
  - ksteps. split_and!; [by do 2 apply (Stable_irq J)| |done]. intros _. rewrite Hb. split_and!; [| |done].
    + split_and!; [|done|by rewrite Hpw]. transitivity (stack_view stack s); [done|]. rewrite Hv. cbn.
      unfold abs_push. cbn. by rewrite <- (stack_full s o k m), Hfull.
    + unfold given. rewrite Hpw. constructor.
  - ksteps. apply unpend_first_spec; [apply Hs1| |].
    + intros Ew. ksteps. destruct (push_store_spec b s1 o d) as (Hmem & Hs2 & Hv2 & Hrng); [done..|by apply Z.eqb_neq|].
      apply kwp_store; [done|]. ksteps. change (waitq s (WQ_obj stack) = []) in Ew. rewrite Ew in Hpw.
      split_and!; [by apply (Stable_irq J)| |done]. intros _. rewrite Hb. split_and!.
      * split_and!; [|split; [|done]|by rewrite Hpw].
        -- exact Hv2.
        -- intros a' Ha. cbn. by rewrite lookup_insert_ne.
      * unfold given. rewrite Hpw. constructor.
      * intros p Hp. cbn. rewrite lookup_insert_ne; [done|]. intros <-. apply Hp. by exists o.
    + intros t q th Ew Et Ep. ksteps. unfold z_thread_return_value_set_with_data, arch_thread_return_value_set. ksteps.
      eapply kwp_upd_thread; [apply lookup_insert_eq|]. ksteps. eapply kwp_upd_thread; [apply lookup_insert_eq|]. ksteps.
      cbn [threads set_threads]. rewrite insert_insert_eq.
      eapply kwp_mono; [apply (wake_spec no_metairq J n c b s1 t th (WQ_obj stack)
        (with_swap_data d (with_swap_retval 0 (unpended th)))); try done|].
      { cbn [granted swap_retval with_swap_retval with_swap_data]. by rewrite E1. }
      cbv beta. intros _ s2 (Hs2 & Hwk & th3 & E3 & Hr3 & Hd3 & Hp3). ksteps.
      change (waitq s (WQ_obj stack) = t :: q) in Ew. rewrite Ew in Hpw. cbn in Hpw.
      eapply mwp_mono; [apply (reschedule_spec J V); [done|]|].
      * intros _. rewrite Hb. split_and!.
        -- split_and!; [|exact (woken_only _ _ _ _ Hwk)|].
           ++ rewrite (stack_view_some s2 o k m); [|rewrite (wk_objs _ _ _ _ Hwk); done|done..].
              rewrite Hv, (wk_mem _ _ _ _ Hwk). cbn. unfold abs_push. cbn.
              rewrite <- (stack_full s o k m), Hfull, Ew by done. do 2 f_equal.
              eapply (woken_head t q (WQ_obj stack) s1); [apply Hs1|done|done].
           ++ rewrite Hpw. constructor; [|constructor]. intros _. exists th3. done.
        -- unfold given. rewrite Hpw. constructor; [|constructor]. intros _. rewrite E3. cbn. by rewrite Hd3.
        -- intros p _. by rewrite (wk_mem _ _ _ _ Hwk).
      * cbv beta. intros b' _ s' (Hs' & HV' & _). ksteps. done.
Qed.

(** A pop from a stack that is not empty. *)
Lemma pop_load_spec b s o :
  Stable J n c b s -> objs s !! stack = Some (O_stack o) -> (stk_next o >? stk_base o) = true ->
  let next := stk_next o - sizeof_stack_data_t in
  let s2 := set_objs (<[stack := O_stack (mkStack (stk_base o) next (stk_top o) (stk_flags o))]> (objs s)) s in
  exists d l q f, mem s !! next = Some d /\ stack_view stack s = Some (mkStackAbs (d :: l) f q) /\
    Stable J n c b s2 /\ stack_view stack s2 = Some (mkStackAbs l (f + 1) q).
Proof.
  intros Hs E Hgt next s2. pose proof (holds_get s stack o (so_obj _ _ _ _ _ Hs) E) as (k & m & Hkm & Hn & Ht & Hm & Hw).
  destruct k as [|k]; [rewrite Hn in Hgt; unfold sizeof_stack_data_t in Hgt; apply Z.gtb_lt in Hgt; lia|].
  assert (Hnext : next = stk_base o + sizeof_stack_data_t * Z.of_nat k) by (unfold next; lia).
  destruct (Hm k) as [[d Hd] _]; [lia|]. rewrite <- Hnext in Hd.
  exists d, (words (mem s) (stk_base o) k), (waitq s (WQ_obj stack)), (Z.of_nat m - Z.of_nat (S k)). split_and!.
  - done.
  - rewrite (stack_view_some s o (S k) m) by done. cbn [words]. by rewrite <- Hnext, Hd.
  - apply (Stable_put_stack b s o); [done..|]. exists k, m. split_and!; [lia|done..|].
    intros Hne. apply Hw in Hne. lia.
  - rewrite (stack_view_some s2 (mkStack (stk_base o) next (stk_top o) (stk_flags o)) k m);
      [|apply lookup_insert_eq|done..]. cbn. do 2 f_equal. lia.
Qed.

(** k_stack_pop returns the word pushed last, or -EBUSY, or waits and returns the word
    a later push hands over. *)
Lemma k_stack_pop_spec b s o timeout :
  is_first b = true -> began b = s ->
  Stable J n c b s -> objs s !! stack = Some (O_stack o) ->
  n = 0 /\ c <> z_idle_thread /\ api_timeout timeout \/ timeout = K_NO_WAIT ->
  let V s s' := obj_effect (stack_view stack) stack (fun s => abs_pop (prio_of s) c timeout) (fun _ => []) 0 s s' /\
                only_memory (fun _ => False) s s' in
  mwp (Guar J V) (Rely J c) b (z_impl_k_stack_pop stack timeout) s (fun b' r s' =>
    Stable J n c b' s' /\ effect V b' s' /\
    if is_first b' then r = match abs_words <$> stack_view stack s with
                            | Some (d :: _) => (0, Some d)
                            | _ => (- EBUSY, None)
                            end
    else exists th, resumed c b' th /\
      (swap_retval th = 0 /\ r = (0, Some (swap_data th)) \/
       swap_retval th = - EAGAIN /\ timeout <> K_FOREVER /\ r = (- EAGAIN, None))).
Proof.
  intros Hf Hb Hs E Hpre V. unfold z_impl_k_stack_pop. ksteps.
  set (s1 := set_irq_locked true s). assert (Hs1 : Stable J n c b s1) by (by apply (Stable_irq J)).
  assert (E1 : objs s1 !! stack = Some (O_stack o)) by done. eapply kwp_get_stack; [exact E1|].
  destruct (stk_next o >? stk_base o) eqn:Hgt.
  { destruct (pop_load_spec b s1 o) as (d & l & q & f & Hd & Hv & Hs2 & Hv2); [done..|].
    change (stack_view stack s1) with (stack_view stack s) in Hv. ksteps. eapply kwp_load; [exact Hd|]. ksteps. rewrite Hf, Hv.
    split_and!; [by apply (Stable_irq J)| |done]. intros _. rewrite Hb. split; [|done]. split_and!; [| |constructor].
    - rewrite Hv. exact Hv2.
    - split; [|done]. intros a' Ha. cbn. by rewrite lookup_insert_ne. }
  pose proof (holds_get s1 stack o (so_obj _ _ _ _ _ Hs1) E1) as (k & m & Hkm & Hn & Ht & Hm & Hw).
  assert (k = O) as -> by (destruct k; [done|]; rewrite Hn in Hgt; unfold sizeof_stack_data_t in Hgt; rewrite Z.gtb_ltb, Z.ltb_ge in Hgt; lia).
  assert (Hv : stack_view stack s = Some _) by (by apply (stack_view_some s o O m)). rewrite Hv. cbn [words] in Hv.
  destruct (K_TIMEOUT_EQ timeout K_NO_WAIT) eqn:Hto.
  - ksteps. rewrite Hf. split_and!; [by do 2 apply (Stable_irq J)| |done]. intros _. rewrite Hb. split; [|done].
    split_and!; [|done|constructor]. transitivity (stack_view stack s); [done|]. rewrite Hv. cbn. unfold abs_pop. cbn. by rewrite Hto.
  - destruct Hpre as [(H0 & Hid & Hapi)|Hno]; [|by rewrite Hno in Hto]. kstep.
    eapply mwp_mono; [apply (pend_curr_spec no_metairq J V n c b s1 (WQ_obj stack)); try done|].
    + intros s2 Hp. split.
      * eapply holds_pend; [apply Hs1|exact E1|exact Hp|]. exists O, m. split_and!; try done.
        intros i Hi. destruct (Hm i Hi) as [H1 H2]. rewrite (pf_mem _ _ _ _ Hp). split; [done|].
        apply (writable_stable s1); [apply Hs1|by rewrite (pf_objs _ _ _ _ Hp)|by rewrite (pf_mem _ _ _ _ Hp)|done].
      * intros _. rewrite Hb. split; [|intros p _; by rewrite (pf_mem _ _ _ _ Hp)]. split_and!; [| |constructor].
        -- rewrite (stack_view_some s2 o O m); [|by rewrite (pf_objs _ _ _ _ Hp)|done..]. rewrite Hv. cbn.
           unfold abs_pop. cbn. rewrite Hto. do 2 f_equal. rewrite (pf_waitq _ _ _ _ Hp), decide_True by done. done.
        -- exact (pframe_only _ _ _ _ Hp).
    + cbv beta. intros b' r s' (Hs' & Hf' & Hr & _ & (th & Hth & Et & Hrv) & [Hk _]).
      assert (Hr' : r = 0 \/ r = - EAGAIN /\ timeout <> K_FOREVER).
      { destruct Hr as [Hr|Hg]; [by right|left]. destruct (Hk stack _ E1) as (o' & E' & Ek). cbn in Hg. rewrite E' in Hg. by destruct o'. }
      destruct (Z.eqb_spec r (- EAGAIN)) as [Hre|Hre].
      * ksteps. rewrite Hf'. split_and!; [done|by intros Hf2; congruence|]. exists th. split; [done|]. right.
        rewrite Hrv. destruct Hr' as [->|[_ ?]]; [done|]. by rewrite Hre.
      * ksteps. destruct (so_thread _ _ _ _ Hs' H0) as (Hc' & _). rewrite Hc'.
        eapply kwp_get_thread; [rewrite Et; exact Hth|]. ksteps. rewrite Hf'.
        split_and!; [done|by intros Hf2; congruence|]. exists th. split; [done|]. left. rewrite Hrv. by destruct Hr' as [->|[? _]].
Qed.
End StackSpec.
