(* ===== verification/Msgq.v ===== *)
(** * Message queues (kernel/msg_q.c)

    A ring buffer of fixed-size messages, copied in and out of the callers'
    buffers.  Pointers are addresses of byte cells. *)

From S2P Require Import Prelude Timeout PriorityQ KState KLogic MemOps Sched SchedInv SchedOps Switch.

Local Open Scope Z_scope.

Definition with_read_ptr (p : Z) (q : k_msgq) : k_msgq :=
  mkMsgq (msg_size q) (max_msgs q) (buffer_start q) (buffer_end q) p (write_ptr q) (used_msgs q) (msgq_flags q).
Definition with_write_ptr (p : Z) (q : k_msgq) : k_msgq :=
  mkMsgq (msg_size q) (max_msgs q) (buffer_start q) (buffer_end q) (read_ptr q) p (used_msgs q) (msgq_flags q).
Definition with_used_msgs (n : Z) (q : k_msgq) : k_msgq :=
  mkMsgq (msg_size q) (max_msgs q) (buffer_start q) (buffer_end q) (read_ptr q) (write_ptr q) n (msgq_flags q).

Section Msgq.
Context `{KConfig}.

Definition k_msgq_init (msgq : addr) (buffer msg_size max_msgs : Z) : K unit :=
  put_obj msgq (O_msgq (mkMsgq msg_size max_msgs buffer (buffer + u32 (max_msgs * msg_size))
                               buffer buffer 0 0));;
  z_waitq_init (WQ_obj msgq).

(** Step of a pointer by one message, wrapping at the end of the buffer. *)
Definition ring_next (q : k_msgq) (p : Z) : Z :=
  let p := p + msg_size q in
  if p =? buffer_end q then buffer_start q else p.

(** The bytes of a new message go in at the write pointer. *)
Definition msgq_store (msgq : addr) (data : Z) : K unit :=
  q ← get_msgq msgq;
  kassert ((write_ptr q >=? buffer_start q) && (write_ptr q <? buffer_end q));;
  memcpy (write_ptr q) data (msg_size q);;
  put_obj msgq (O_msgq (with_used_msgs (u32 (used_msgs q + 1)) (with_write_ptr (ring_next q (write_ptr q)) q))).

Definition z_impl_k_msgq_put (msgq : addr) (data : Z) (timeout : k_timeout_t) : M Z :=
  isr ← lift arch_is_in_isr;
  lift (kassert (negb isr || K_TIMEOUT_EQ timeout K_NO_WAIT));;
  key ← lift k_spin_lock;
  q ← lift (get_msgq msgq);
  if used_msgs q <? max_msgs q then
    pending_thread ← lift (z_unpend_first_thread (WQ_obj msgq));
    match pending_thread with
    | Some t =>
        th ← lift (get_thread t);
        lift (memcpy (swap_data th) data (msg_size q));;
        lift (arch_thread_return_value_set t 0);;
        lift (z_ready_thread t);;
        z_reschedule Lock_other key;;
        mret 0
    | None =>
        lift (msgq_store msgq data);;
        lift (k_spin_unlock key);;
        mret 0
    end
  else if K_TIMEOUT_EQ timeout K_NO_WAIT then (lift (k_spin_unlock key);; mret (- ENOMSG))
  else
    curr ← lift (kget current);
    lift (upd_thread curr (with_swap_data data));;
    z_pend_curr Lock_other key (Some (WQ_obj msgq)) timeout.

Definition z_impl_k_msgq_get (msgq : addr) (data : Z) (timeout : k_timeout_t) : M Z :=
  isr ← lift arch_is_in_isr;
  lift (kassert (negb isr || K_TIMEOUT_EQ timeout K_NO_WAIT));;
  key ← lift k_spin_lock;
  q ← lift (get_msgq msgq);
  if used_msgs q >? 0 then
    lift (memcpy data (read_ptr q) (msg_size q));;
    lift (put_obj msgq (O_msgq (with_used_msgs (u32 (used_msgs q - 1))
                                  (with_read_ptr (ring_next q (read_ptr q)) q))));;
    pending_thread ← lift (z_unpend_first_thread (WQ_obj msgq));
    match pending_thread with
    | Some t =>
        th ← lift (get_thread t);
        lift (msgq_store msgq (swap_data th));;
        lift (arch_thread_return_value_set t 0);;
        lift (z_ready_thread t);;
        z_reschedule Lock_other key;;
        mret 0
    | None => lift (k_spin_unlock key);; mret 0
    end
  else if K_TIMEOUT_EQ timeout K_NO_WAIT then (lift (k_spin_unlock key);; mret (- ENOMSG))
  else
    curr ← lift (kget current);
    lift (upd_thread curr (with_swap_data data));;
    z_pend_curr Lock_other key (Some (WQ_obj msgq)) timeout.

Definition z_impl_k_msgq_peek (msgq : addr) (data : Z) : K Z :=
  key ← k_spin_lock;
  q ← get_msgq msgq;
  result ← (if used_msgs q >? 0 then memcpy data (read_ptr q) (msg_size q);; mret 0
            else mret (- ENOMSG) : K Z);
  k_spin_unlock key;;
  mret result.

Definition z_impl_k_msgq_peek_at (msgq : addr) (data idx : Z) : K Z :=
  key ← k_spin_lock;
  q ← get_msgq msgq;
  result ← (if used_msgs q >? idx then
     let bytes_to_end := u32 (buffer_end q - read_ptr q) in
     let byte_offset := u32 (idx * msg_size q) in
     (if bytes_to_end <=? byte_offset
      then memcpy data (buffer_start q + u32 (byte_offset - bytes_to_end)) (msg_size q)
      else memcpy data (read_ptr q + byte_offset) (msg_size q));;
     mret 0
   else mret (- ENOMSG) : K Z);
  k_spin_unlock key;;
  mret result.

(** The [for] loop of [z_impl_k_msgq_purge]. *)
Fixpoint msgq_purge_loop (fuel : nat) (msgq : addr) : K unit :=
  pending_thread ← z_unpend_first_thread (WQ_obj msgq);
  match pending_thread with
  | None => mret tt
  | Some t =>
      match fuel with
      | O => kfail
      | S fuel =>
          arch_thread_return_value_set t (- ENOMSG);;
          z_ready_thread t;;
          msgq_purge_loop fuel msgq
      end
  end.

Definition z_impl_k_msgq_purge (msgq : addr) : M unit :=
  key ← lift k_spin_lock;
  l ← lift (kget (fun s => waitq s (WQ_obj msgq)));
  lift (msgq_purge_loop (length l) msgq);;
  q ← lift (get_msgq msgq);
  lift (put_obj msgq (O_msgq (with_read_ptr (write_ptr q) (with_used_msgs 0 q))));;
  z_reschedule Lock_other key.

(** [struct k_msgq_attrs] as a triple. *)
Definition z_impl_k_msgq_get_attrs (msgq : addr) : K (Z * Z * Z) :=
  q ← get_msgq msgq; mret (msg_size q, max_msgs q, used_msgs q).
Definition z_impl_k_msgq_num_free_get (msgq : addr) : K Z :=
  q ← get_msgq msgq; mret (u32 (max_msgs q - used_msgs q)).
Definition z_impl_k_msgq_num_used_get (msgq : addr) : K Z := q ← get_msgq msgq; mret (used_msgs q).
End Msgq.

(** ** The ring

    Message [i] of the history of a queue lives in slot [i mod max]; the queue holds
    the messages [r], ..., [r + used - 1]. *)
Section Ring.
Context (start size max : Z).
Hypothesis size_pos : 0 < size.
Hypothesis max_pos : 0 < max.
Implicit Types (m : gmap Z Z) (i j p : Z).

Definition slot (i : Z) : Z := start + (i mod max) * size.

Definition ring_msgs (m : gmap Z Z) (r used : Z) : list (list Z) :=
  (fun i => bytes m (slot i) size) <$> seqZ r used.

Lemma slot_mod i : slot (i mod max) = slot i.
Proof. unfold slot. by rewrite Z.mod_mod by lia. Qed.

Lemma slot_index i p : within (slot i) size p -> (p - start) / size = i mod max.
Proof.
  unfold within, slot. intros Hp. symmetry. apply (Z.div_unique_pos _ _ _ (p - start - (i mod max) * size)); lia.
Qed.

Lemma slot_in i p : within (slot i) size p -> within start (max * size) p.
Proof. unfold within, slot. pose proof (Z.mod_pos_bound i max max_pos). nia. Qed.

Lemma slot_disjoint i j p : i mod max <> j mod max -> within (slot i) size p -> ~ within (slot j) size p.
Proof. intros Hne Hi%slot_index Hj%slot_index. congruence. Qed.

Lemma slot_next i : (if slot i + size =? start + max * size then start else slot i + size) = slot (i + 1).
Proof.
  unfold slot. pose proof (Z.mod_pos_bound i max max_pos). rewrite <- Z.add_mod_idemp_l by lia.
  destruct (Z.eqb_spec (start + i mod max * size + size) (start + max * size)) as [Heq|Hne].
  - replace (i mod max + 1) with max by nia. rewrite Z.mod_same by lia. lia.
  - rewrite (Z.mod_small (i mod max + 1)) by nia. lia.
Qed.

Lemma slot_new r used i : r <= i < r + used -> used < max -> i mod max <> (r + used) mod max.
Proof.
  intros Hi Hu Heq. pose proof (Z.div_mod i max). pose proof (Z.div_mod (r + used) max).
  assert (r + used - i = max * ((r + used) / max - i / max)) as Hd by lia.
  destruct (Z_le_gt_dec ((r + used) / max - i / max) 0); nia.
Qed.

Lemma ring_msgs_mod m r used : ring_msgs m (r mod max) used = ring_msgs m r used.
Proof.
  unfold ring_msgs. apply list_eq. intros k. rewrite !list_lookup_fmap.
  destruct (decide (Z.of_nat k < used)) as [Hk|Hk]; [|by rewrite !lookup_seqZ_ge by lia].
  rewrite !lookup_seqZ_lt by lia. cbn. do 2 f_equal. unfold slot. by rewrite Z.add_mod_idemp_l by lia.
Qed.

Lemma ring_msgs_outside m p l r used :
  (forall x, within p (Z.of_nat (length l)) x -> ~ within start (max * size) x) ->
  ring_msgs (mem_write m p l) r used = ring_msgs m r used.
Proof.
  intros Hout. unfold ring_msgs. apply list_fmap_ext. intros k i _. apply bytes_ext. intros x Hx.
  apply mem_write_outside. intros Hw. eapply Hout; [exact Hw|by eapply slot_in].
Qed.

Lemma ring_msgs_push m r used l :
  0 <= used < max -> length l = Z.to_nat size -> mapped m (slot (r + used)) size ->
  ring_msgs (mem_write m (slot (r + used)) l) r (used + 1) = ring_msgs m r used ++ [l].
Proof.
  intros Hu Hl Hm. unfold ring_msgs. rewrite seqZ_app by lia. rewrite fmap_app. f_equal.
  - apply list_fmap_ext. intros k i [-> Hk]%lookup_seqZ. apply bytes_ext. intros x Hx.
    apply mem_write_outside. rewrite Hl, Z2Nat.id by lia. eapply slot_disjoint; [|exact Hx].
    apply slot_new; lia.
  - rewrite seqZ_cons by lia. cbn. rewrite bytes_write; [done|lia|done..].
Qed.

Lemma ring_msgs_pop m r used :
  0 < used -> ring_msgs m r used = bytes m (slot r) size :: ring_msgs m (r + 1) (used - 1).
Proof.
  intros Hu. unfold ring_msgs. rewrite seqZ_cons by lia. cbn.
  by replace (Z.succ r) with (r + 1) by lia; replace (Z.pred used) with (used - 1) by lia.
Qed.

Lemma ring_msgs_length m r used : length (ring_msgs m r used) = Z.to_nat used.
Proof. unfold ring_msgs. by rewrite length_fmap, length_seqZ. Qed.
End Ring.

(** ** Specification

    A queue is a bounded FIFO of messages and a queue of waiters: readers when it is
    empty, writers when it is full. *)
Record msgq_abs := mkMsgqAbs {
  abs_msgs : list (list Z); abs_max : Z; abs_msg_size : Z; abs_qwaiters : list tid
}.

Definition msgq_view (msgq : addr) (s : kstate) : option msgq_abs :=
  match objs s !! msgq with
  | Some (O_msgq q) =>
      let r := (read_ptr q - buffer_start q) / msg_size q in
      Some (mkMsgqAbs (ring_msgs (buffer_start q) (msg_size q) (max_msgs q) (mem s) r (used_msgs q))
              (max_msgs q) (msg_size q) (waitq s (WQ_obj msgq)))
  | _ => None
  end.

#[export] Instance msgq_view_ok msgq : View (msgq_view msgq) msgq.
Proof. constructor. intros s s' Eo Ew Em. unfold msgq_view. by rewrite Eo, Ew, Em. Qed.

Definition msgq_full (v : msgq_abs) : bool := Z.of_nat (length (abs_msgs v)) =? abs_max v.

Definition abs_wait (prio : tid -> Z) (c : tid) (timeout : k_timeout_t) (v : msgq_abs) : msgq_abs :=
  if K_TIMEOUT_EQ timeout K_NO_WAIT then v
  else mkMsgqAbs (abs_msgs v) (abs_max v) (abs_msg_size v) (z_priq_dumb_add prio c (abs_qwaiters v)).

Definition abs_put (prio : tid -> Z) (c : tid) (timeout : k_timeout_t) (msg : list Z) (v : msgq_abs) : msgq_abs :=
  if msgq_full v then abs_wait prio c timeout v
  else match abs_qwaiters v with
       | [] => mkMsgqAbs (abs_msgs v ++ [msg]) (abs_max v) (abs_msg_size v) []
       | _ :: ts => mkMsgqAbs (abs_msgs v) (abs_max v) (abs_msg_size v) ts
       end.

(** [late t] is the message of the waiting writer [t]. *)
Definition abs_get (prio : tid -> Z) (c : tid) (timeout : k_timeout_t) (late : list Z -> tid -> list Z) (v : msgq_abs)
    : msgq_abs :=
  match abs_msgs v with
  | [] => abs_wait prio c timeout v
  | msg :: msgs =>
      match abs_qwaiters v with
      | [] => mkMsgqAbs msgs (abs_max v) (abs_msg_size v) []
      | t :: ts => mkMsgqAbs (msgs ++ [late msg t]) (abs_max v) (abs_msg_size v) ts
      end
  end.

Definition abs_purge (v : msgq_abs) : msgq_abs := mkMsgqAbs [] (abs_max v) (abs_msg_size v) [].

(** What [k_msgq_peek_at] finds. *)
Definition abs_peek (idx : Z) (v : msgq_abs) : option (list Z) := abs_msgs v !! Z.to_nat idx.

(** The buffer a waiting thread passed. *)
Definition waiter_buffer (s : kstate) (t : tid) : Z := from_option swap_data 0 (threads s !! t).

(** The state of the ring: message [r] is the next to be read. *)
Record ring_ok (q : k_msgq) (r : Z) : Prop := {
  ro_size : 0 < msg_size q;
  ro_max : 0 < max_msgs q;
  ro_bytes : max_msgs q * msg_size q < 2 ^ 32;
  ro_end : buffer_end q = buffer_start q + max_msgs q * msg_size q;
  ro_used : 0 <= used_msgs q <= max_msgs q;
  ro_read : read_ptr q = slot (buffer_start q) (msg_size q) (max_msgs q) r;
  ro_write : write_ptr q = slot (buffer_start q) (msg_size q) (max_msgs q) (r + used_msgs q)
}.

Definition taken (q : k_msgq) : k_msgq :=
  with_used_msgs (u32 (used_msgs q - 1)) (with_read_ptr (ring_next q (read_ptr q)) q).
Definition stored (q : k_msgq) : k_msgq :=
  with_used_msgs (u32 (used_msgs q + 1)) (with_write_ptr (ring_next q (write_ptr q)) q).

Lemma ring_next_slot q r i : ring_ok q r ->
  ring_next q (slot (buffer_start q) (msg_size q) (max_msgs q) i) = slot (buffer_start q) (msg_size q) (max_msgs q) (i + 1).
Proof. intros []. unfold ring_next. rewrite ro_end0. by apply slot_next. Qed.

Lemma used_small q r : ring_ok q r -> used_msgs q <= max_msgs q < 2 ^ 32.
Proof. intros []. nia. Qed.

Lemma taken_ok q r : ring_ok q r -> 0 < used_msgs q -> ring_ok (taken q) (r + 1) /\ used_msgs (taken q) = used_msgs q - 1.
Proof.
  intros Hr Hu. pose proof (used_small q r Hr). pose proof Hr as [].
  assert (Eu : u32 (used_msgs q - 1) = used_msgs q - 1) by (apply wrap_u_small; lia).
  split; [|exact Eu]. unfold taken. rewrite Eu. split; cbn; try done; try lia.
  - by rewrite ro_read0, (ring_next_slot q r).
  - rewrite ro_write0. f_equal. lia.
Qed.

Lemma stored_ok q r : ring_ok q r -> used_msgs q < max_msgs q -> ring_ok (stored q) r /\ used_msgs (stored q) = used_msgs q + 1.
Proof.
  intros Hr Hu. pose proof (used_small q r Hr). pose proof Hr as [].
  assert (Eu : u32 (used_msgs q + 1) = used_msgs q + 1) by (apply wrap_u_small; lia).
  split; [|exact Eu]. unfold stored. rewrite Eu. split; cbn; try done; try lia.
  rewrite ro_write0, (ring_next_slot q r) by done. f_equal. lia.
Qed.

Lemma msgq_view_some msgq s q r :
  objs s !! msgq = Some (O_msgq q) -> ring_ok q r ->
  msgq_view msgq s = Some (mkMsgqAbs (ring_msgs (buffer_start q) (msg_size q) (max_msgs q) (mem s) r (used_msgs q))
    (max_msgs q) (msg_size q) (waitq s (WQ_obj msgq))).
Proof.
  intros E []. unfold msgq_view. rewrite E. do 2 f_equal.
  rewrite ro_read0, (slot_index (buffer_start q) (msg_size q) (max_msgs q) r) by (unfold within; lia). by apply ring_msgs_mod.
Qed.

Lemma msgq_view_waitq msgq s s' :
  objs s' = objs s -> mem s' = mem s ->
  msgq_view msgq s' = (fun v => mkMsgqAbs (abs_msgs v) (abs_max v) (abs_msg_size v) (waitq s' (WQ_obj msgq)))
    <$> msgq_view msgq s.
Proof. intros Eo Em. unfold msgq_view. rewrite Eo, Em. by destruct (objs s !! msgq) as [[]|]. Qed.

Lemma ring_full msgq s q r v :
  ring_ok q r -> objs s !! msgq = Some (O_msgq q) -> msgq_view msgq s = Some v ->
  msgq_full v = negb (used_msgs q <? max_msgs q).
Proof.
  intros Hr E. rewrite (msgq_view_some msgq s q r) by done. intros [= <-]. unfold msgq_full. cbn.
  rewrite ring_msgs_length. pose proof (ro_used _ _ Hr). destruct (Z.ltb_spec (used_msgs q) (max_msgs q)); cbn;
    [apply Z.eqb_neq|apply Z.eqb_eq]; lia.
Qed.

(** The slots lie in the buffer. *)
Lemma slot_mapped q r i m :
  ring_ok q r -> mapped m (buffer_start q) (max_msgs q * msg_size q) ->
  mapped m (slot (buffer_start q) (msg_size q) (max_msgs q) i) (msg_size q).
Proof. intros [] Hm p Hp. apply Hm. by eapply slot_in. Qed.

Lemma write_ptr_in q r : ring_ok q r -> (write_ptr q >=? buffer_start q) && (write_ptr q <? buffer_end q) = true.
Proof.
  intros []. apply andb_true_iff. rewrite Z.geb_le, Z.ltb_lt.
  assert (within (buffer_start q) (max_msgs q * msg_size q) (write_ptr q)) as Hw
    by (apply slot_in with (i := r + used_msgs q); [done..|]; rewrite ro_write0; unfold within; lia).
  unfold within in Hw. lia.
Qed.

Lemma kwp_msgq_store msgq s q r data (Q : unit -> kstate -> Prop) :
  objs s !! msgq = Some (O_msgq q) -> ring_ok q r -> mapped (mem s) (buffer_start q) (max_msgs q * msg_size q) ->
  mapped (mem s) data (msg_size q) ->
  Q tt (set_objs (<[msgq := O_msgq (stored q)]> (objs s))
          (set_mem (mem_write (mem s) (write_ptr q) (bytes (mem s) data (msg_size q))) s)) ->
  kwp (msgq_store msgq data) s Q.
Proof.
  intros E Hr Hb Hd HQ. unfold msgq_store. ksteps. eapply kwp_get_msgq; [exact E|]. ksteps.
  apply kwp_assert; [by eapply write_ptr_in|]. ksteps. apply kwp_memcpy; [done| |by ksteps].
  rewrite (ro_write _ _ Hr). by eapply slot_mapped.
Qed.

Section MsgqSpec.
Context `{KConfig}.
Hypothesis no_metairq : CONFIG_NUM_METAIRQ_PRIORITIES = 0.
Context (J : kstate -> Prop) (W : kstate -> Z -> Prop).

Definition msgq_ok (s : kstate) (msgq : addr) (q : k_msgq) : Prop :=
  (exists r, ring_ok q r) /\ region W s (buffer_start q) (max_msgs q * msg_size q) /\
  (waitq s (WQ_obj msgq) <> [] -> used_msgs q = 0 \/ used_msgs q = max_msgs q) /\
  (forall t, t ∈ waitq s (WQ_obj msgq) -> region W s (waiter_buffer s t) (msg_size q)).

Context `{!ObjInv J, !MemInv J W, !Holds J O_msgq msgq_ok}.
Context (n : Z) (c : tid) (msgq : addr).
Implicit Types (b : stretch) (s : kstate).

Lemma objs_put_slab s q q' m :
  objs s !! msgq = Some (O_msgq q) ->
  forall a o, objs (set_objs (<[msgq := O_msgq q']> (objs s)) (set_mem m s)) !! a = Some (O_slab o) <->
    objs s !! a = Some (O_slab o).
Proof.
  intros E a o. cbn. destruct (decide (a = msgq)) as [->|]; [|by rewrite lookup_insert_ne].
  by rewrite lookup_insert_eq, E.
Qed.

(** A message is copied to the queue or to a waiter, and the queue changes. *)
Lemma Stable_put_msgq b s q q' r :
  Stable J n c b s -> objs s !! msgq = Some (O_msgq q) -> ring_ok q' r ->
  buffer_start q' = buffer_start q -> max_msgs q' = max_msgs q -> msg_size q' = msg_size q ->
  (waitq s (WQ_obj msgq) <> [] -> used_msgs q' = 0 \/ used_msgs q' = max_msgs q') ->
  Stable J n c b (set_objs (<[msgq := O_msgq q']> (objs s)) s).
Proof.
  intros Hs E Hr Es Em Ez Hw. pose proof (holds_get s msgq q (so_obj _ _ _ _ _ Hs) E) as (_ & Hb & _ & Hwb).
  eapply Stable_put_obj; [done|exact E|done|].
  assert (Hreg : forall p k, region W s p k -> region W (set_objs (<[msgq := O_msgq q']> (objs s)) s) p k).
  { intros p k. eapply (region_stable J W); [apply Hs| |done|done].
    pose proof (objs_put_slab s q q' (mem s) E) as Hsl. exact Hsl. }
  eapply holds_put; [apply Hs|exact E|by apply wframe_ext|done..|]. split_and!; [by exists r| |done|].
  - rewrite Es, Em, Ez. by apply Hreg.
  - intros t Ht. rewrite Ez. by apply Hreg, Hwb.
Qed.

Lemma Stable_store b s q p l :
  Stable J n c b s -> objs s !! msgq = Some (O_msgq q) -> region W s p (msg_size q) -> length l = Z.to_nat (msg_size q) ->
  Stable J n c b (set_mem (mem_write (mem s) p l) s).
Proof.
  intros Hs E Hr Hl. apply (Stable_write J n c W); [done|].
  destruct (holds_get s msgq q (so_obj _ _ _ _ _ Hs) E) as ((r & Hro) & _). pose proof (ro_size _ _ Hro).
  by replace (Z.of_nat (length l)) with (msg_size q) by lia.
Qed.

Definition put_wakes (s : kstate) : list tid :=
  match msgq_view msgq s with
  | Some v => if msgq_full v then [] else take 1 (abs_qwaiters v)
  | None => []
  end.

(** A put writes to the ring or to the buffer of the reader it wakes. *)
Definition put_mem (s : kstate) (p : Z) : Prop :=
  exists q, objs s !! msgq = Some (O_msgq q) /\
    (within (buffer_start q) (max_msgs q * msg_size q) p \/
     exists t, t ∈ put_wakes s /\ within (waiter_buffer s t) (msg_size q) p).

Definition delivered (msg : kstate -> msgq_abs -> list Z) (s s' : kstate) : Prop :=
  Forall (fun t => forall v, msgq_view msgq s = Some v ->
    bytes (mem s') (waiter_buffer s t) (abs_msg_size v) = msg s v) (put_wakes s).

#[export] Instance delivered_ok msg : Effect (delivered msg).
Proof.
  constructor. intros s s1 s2 Hv Hd. eapply Forall_impl; [exact Hd|]. intros t Ht v Ev. rewrite (sv_mem _ _ _ Hv). auto.
Qed.

Definition put_effect (data : Z) (timeout : k_timeout_t) (s s' : kstate) : Prop :=
  let msg s v := bytes (mem s) data (abs_msg_size v) in
  obj_effect (msgq_view msgq) msgq (fun s v => abs_put (prio_of s) c timeout (msg s v) v) put_wakes 0 s s' /\
  delivered msg s s' /\ only_memory (put_mem s) s s'.

#[export] Instance put_effect_ok data timeout : Effect (put_effect data timeout).
Proof. apply effect_and; [apply obj_effect_ok, _|apply effect_and; apply _]. Qed.

(** The states in which a caller of [put] or [get] starts to wait. *)
Lemma msgq_pend_ok s s2 q th data :
  J s -> objs s !! msgq = Some (O_msgq q) -> threads s !! c = Some th -> swap_data th = data ->
  used_msgs q = 0 \/ used_msgs q = max_msgs q -> region W s data (msg_size q) ->
  pframe c (WQ_obj msgq) s s2 -> J s2.
Proof.
  intros HJ E Et Hd Hu Hreg Hp. destruct (holds_get s msgq q HJ E) as (Hr & Hb & _ & Hwb).
  assert (Hregs : forall p k, region W s p k -> region W s2 p k).
  { intros p k. eapply (region_stable J W); [done|by rewrite (pf_objs _ _ _ _ Hp)|by rewrite (pf_mem _ _ _ _ Hp)..]. }
  eapply holds_pend; [exact HJ|exact E|exact Hp|]. split_and!; [done|by apply Hregs|done|].
  intros t. rewrite (pf_waitq _ _ _ _ Hp), decide_True, elem_of_dumb_add by done. unfold waiter_buffer.
  destruct (decide (t = c)) as [->|Hne].
  - intros _. destruct (pf_self _ _ _ _ Hp th Et) as (th' & -> & Hwd & _). cbn.
    injection Hwd as -> _ _. rewrite Hd. by apply Hregs.
  - intros [->|Ht]; [done|]. rewrite (pf_other _ _ _ _ Hp) by done. by apply Hregs, Hwb.
Qed.

Lemma region_irq s i p k : J s -> region W s p k -> region W (set_irq_locked i s) p k.
Proof. intros HJ. by apply (region_stable J W). Qed.

(** The caller waits. *)
Lemma msgq_wait_spec V `{!Effect V} b s q key data timeout :
  Stable J n c b s -> objs s !! msgq = Some (O_msgq q) -> n = 0 -> c <> z_idle_thread -> api_timeout timeout ->
  used_msgs q = 0 \/ used_msgs q = max_msgs q -> region W s data (msg_size q) ->
  (forall th s2, threads s !! c = Some th -> pframe c (WQ_obj msgq) (put_thread c (with_swap_data data th) s) s2 -> effect V b s2) ->
  mwp (Guar J V) (Rely J c) b
    (curr ← lift (kget current);
     lift (upd_thread curr (with_swap_data data));;
     z_pend_curr Lock_other key (Some (WQ_obj msgq)) timeout) s
    (fun b' r s' => Stable J n c b' s' /\ is_first b' = false /\
       (r = - EAGAIN /\ timeout <> K_FOREVER \/ r = 0 \/ r = - ENOMSG) /\ exists th, resumed c b' th /\ r = swap_retval th).
Proof.
  intros Hs E H0 Hid Hto Hu Hreg HV. ksteps. destruct (so_thread _ _ _ _ Hs H0) as (Hc & _ & _). rewrite Hc.
  destruct (ri_current _ _ (proj1 (so_inv _ _ _ _ Hs))) as [th Et]. rewrite Hc in Et.
  eapply kwp_upd_thread; [exact Et|]. ksteps. set (s1 := put_thread c (with_swap_data data th) s).
  assert (Hs1 : Stable J n c b s1) by (by apply (Stable_put_self J n c b s th)).
  eapply mwp_mono; [apply (pend_curr_spec no_metairq J V n c b s1 (WQ_obj msgq)); try done|].
  - intros s2 Hp. split; [|by eapply HV].
    eapply (msgq_pend_ok s1 s2 q); [apply Hs1|done|apply lookup_insert_eq|done|done| |exact Hp].
    eapply (region_stable J W s); [apply Hs|done..].
  - cbv beta. intros b' r s' (Hs' & Hf' & Hr & _ & (th' & Hth & _ & Hrv) & [Hk _]). split_and!; [done..| |by exists th'].
    destruct Hr as [Hr|Hg]; [by left|right]. destruct (Hk msgq _ E) as (o' & E' & Ek). cbn in Hg.
    rewrite E' in Hg. by destruct o'.
Qed.

Lemma wait_view s s2 q r th data :
  objs s !! msgq = Some (O_msgq q) -> ring_ok q r -> threads s !! c = Some th ->
  pframe c (WQ_obj msgq) (put_thread c (with_swap_data data th) s) s2 ->
  msgq_view msgq s2 = (fun v => mkMsgqAbs (abs_msgs v) (abs_max v) (abs_msg_size v)
    (z_priq_dumb_add (prio_of s) c (abs_qwaiters v))) <$> msgq_view msgq s /\
  only_object msgq s s2 /\ mem s2 = mem s.
Proof.
  intros E Hr Et Hp. split_and!; [|exact (pframe_only _ _ _ _ Hp)|exact (pf_mem _ _ _ _ Hp)].
  rewrite (msgq_view_some msgq s q r) by done.
  rewrite (msgq_view_some msgq s2 q r); [|by rewrite (pf_objs _ _ _ _ Hp)|done]. cbn.
  rewrite (pf_mem _ _ _ _ Hp), (pf_waitq _ _ _ _ Hp), decide_True by done. do 2 f_equal.
  apply dumb_add_ext. intros u _. by eapply (prio_of_insert s).
Qed.

(** A message goes to the end of the ring. *)
Lemma put_store_spec b s q r data :
  Stable J n c b s -> objs s !! msgq = Some (O_msgq q) -> ring_ok q r -> waitq s (WQ_obj msgq) = [] ->
  used_msgs q < max_msgs q -> region W s data (msg_size q) ->
  let l := bytes (mem s) data (msg_size q) in
  let s2 := set_objs (<[msgq := O_msgq (stored q)]> (objs s)) (set_mem (mem_write (mem s) (write_ptr q) l) s) in
  Stable J n c b s2 /\
  msgq_view msgq s2 = (fun v => mkMsgqAbs (abs_msgs v ++ [l]) (abs_max v) (abs_msg_size v) []) <$> msgq_view msgq s /\
  only_memory (within (buffer_start q) (max_msgs q * msg_size q)) s s2.
Proof.
  intros Hs E Hr Ew Hlt [Hd _] l s2. pose proof (holds_get s msgq q (so_obj _ _ _ _ _ Hs) E) as (_ & [Hbm HbW] & _).
  destruct (stored_ok q r Hr Hlt) as [Hr2 Hu2]. pose proof (bytes_length _ _ _ Hd) as Hl. pose proof Hr as [].
  assert (Hslot : forall p, within (write_ptr q) (msg_size q) p -> within (buffer_start q) (max_msgs q * msg_size q) p).
  { rewrite ro_write0. intros p. by apply slot_in. }
  split_and!.
  - apply (Stable_put_msgq b (set_mem (mem_write (mem s) (write_ptr q) l) s) q (stored q) r); [|done..|by intros Hx; destruct (Hx Ew)].
    apply (Stable_store b s q); [done..| |done]. split; intros p Hp; [apply Hbm|apply HbW]; auto.
  - rewrite (msgq_view_some msgq s q r) by done. rewrite (msgq_view_some msgq s2 (stored q) r); [|apply lookup_insert_eq|done].
    cbn [fmap option_fmap option_map abs_msgs abs_max abs_msg_size]. rewrite Hu2. f_equal. unfold s2. cbn [mem set_objs set_mem].
    f_equal; [|exact Ew]. cbn [stored buffer_start msg_size max_msgs with_used_msgs with_write_ptr].
    rewrite ro_write0. apply ring_msgs_push; [done..|lia|done|]. by eapply slot_mapped.
  - intros p Hp. unfold s2. cbn [mem set_objs set_mem]. apply mem_write_outside. intros Hw. apply Hp, Hslot.
    change (length l = Z.to_nat (msg_size q)) in Hl. by replace (msg_size q) with (Z.of_nat (length l)) by lia.
Qed.

(** A message goes to the buffer of a waiting reader. *)
Lemma put_wake_spec V `{!Effect V} b s q t ts th key data :
  Stable J n c b s -> objs s !! msgq = Some (O_msgq q) -> waitq s (WQ_obj msgq) = t :: ts ->
  threads s !! t = Some th -> pended_on th = Some (WQ_obj msgq) -> region W s data (msg_size q) ->
  (forall s2, woken t (WQ_obj msgq) (set_mem (mem_write (mem s) (swap_data th) (bytes (mem s) data (msg_size q))) s) s2 ->
     woken_with t 0 s s2 -> effect V b s2) ->
  mwp (Guar J V) (Rely J c) b
    (lift (memcpy (swap_data (unpended th)) data (msg_size q));;
     lift (arch_thread_return_value_set t 0);;
     lift (z_ready_thread t);;
     z_reschedule Lock_other key;;
     mret 0) (unpended_st t th (WQ_obj msgq) s)
    (fun b' r s' => Stable J n c b' s' /\ effect V b' s' /\ r = 0).
Proof.
  intros Hs E Ew Et Ep [Hd _] HV. pose proof (holds_get s msgq q (so_obj _ _ _ _ _ Hs) E) as (_ & _ & _ & Hwb).
  assert (Hreg : region W s (swap_data th) (msg_size q)).
  { replace (swap_data th) with (waiter_buffer s t) by (unfold waiter_buffer; by rewrite Et). apply Hwb. rewrite Ew. left. }
  ksteps. apply kwp_memcpy; [exact Hd|exact (proj1 Hreg)|]. ksteps.
  change (swap_data (unpended th)) with (swap_data th). change (mem (unpended_st _ _ _ s)) with (mem s).
  set (l := bytes _ _ _). set (s1 := set_mem (mem_write (mem s) (swap_data th) l) s).
  assert (Hs1 : Stable J n c b s1) by (apply (Stable_store b s q); [done..|by apply bytes_length]).
  eapply kwp_upd_thread; [apply lookup_insert_eq|]. ksteps.
  eapply kwp_mono; [apply (wake_spec no_metairq J n c b s1 t th (WQ_obj msgq) (with_swap_retval 0 (unpended th))); try done|].
  { cbn [granted swap_retval with_swap_retval]. change (objs s1) with (objs s). rewrite E. by left. }
  cbv beta. intros _ s2 (Hs2 & Hwk & th3 & E3 & Hr3 & _ & Hp3). ksteps.
  eapply mwp_mono; [apply (reschedule_spec J V); [done|]|].
  - apply HV; [done|]. intros _. by exists th3.
  - cbv beta. intros b' _ s' (Hs' & HV' & _). ksteps. done.
Qed.

Lemma put_woken_effect s q r t ts th s2 data timeout :
  SInv s -> objs s !! msgq = Some (O_msgq q) -> ring_ok q r -> waitq s (WQ_obj msgq) = t :: ts ->
  threads s !! t = Some th -> used_msgs q = 0 -> region W s data (msg_size q) ->
  region W s (swap_data th) (msg_size q) ->
  woken t (WQ_obj msgq) (set_mem (mem_write (mem s) (swap_data th) (bytes (mem s) data (msg_size q))) s) s2 ->
  woken_with t 0 s s2 -> put_effect data timeout s s2.
Proof.
  intros HI E Hr Ew Et Hu [Hd _] [Hb _] Hwk Hww. pose proof (msgq_view_some msgq s q r E Hr) as Hv.
  pose proof (ring_full msgq s q r _ Hr E Hv) as Hfull. pose proof Hr as [].
  rewrite (proj2 (Z.ltb_lt _ _)) in Hfull by lia. cbn in Hfull.
  assert (Hpw : put_wakes s = [t]) by (unfold put_wakes; rewrite Hv, Hfull; cbn; by rewrite Ew).
  assert (Hbuf : waiter_buffer s t = swap_data th) by (unfold waiter_buffer; by rewrite Et).
  assert (Hl : Z.of_nat (length (bytes (mem s) data (msg_size q))) = msg_size q) by (rewrite bytes_length by done; lia).
  split_and!.
  - split_and!; [|exact (woken_only _ _ _ _ Hwk)|rewrite Hpw; by constructor].
    rewrite Hv, (msgq_view_some msgq s2 q r); [|by rewrite (wk_objs _ _ _ _ Hwk)|done].
    cbn [fmap option_fmap option_map]. unfold abs_put. rewrite Hfull. cbn [abs_qwaiters abs_msgs]. rewrite Ew. cbn.
    rewrite (wk_mem _ _ _ _ Hwk), Hu. do 2 f_equal.
    refine (woken_head t ts (WQ_obj msgq) _ _ _ _ Hwk); [by apply SInv_mem|done].
  - unfold delivered. rewrite Hpw. constructor; [|constructor]. intros v. rewrite Hv. intros [= <-]. cbn.
    rewrite Hbuf, (wk_mem _ _ _ _ Hwk). apply bytes_write; [lia|by apply bytes_length|done].
  - intros p Hp. rewrite (wk_mem _ _ _ _ Hwk). apply mem_write_outside. rewrite Hl. intros Hin. apply Hp.
    exists q. split; [done|]. right. exists t. rewrite Hpw, Hbuf. split; [left|done].
Qed.

(** k_msgq_put appends the message to a first-in first-out queue of bounded length kept
    in a ring of memory, or copies it into the buffer of the first reader that waits, and writes
    no other memory. *)
Lemma k_msgq_put_spec b s q data timeout :
  is_first b = true -> began b = s ->
  Stable J n c b s -> objs s !! msgq = Some (O_msgq q) -> region W s data (msg_size q) ->
  n = 0 /\ c <> z_idle_thread /\ api_timeout timeout \/ timeout = K_NO_WAIT ->
  let V := put_effect data timeout in
  mwp (Guar J V) (Rely J c) b (z_impl_k_msgq_put msgq data timeout) s (fun b' r s' =>
    Stable J n c b' s' /\ effect V b' s' /\
    if used_msgs q <? max_msgs q then r = 0
    else if is_first b' then r = - ENOMSG
    else (r = - EAGAIN /\ timeout <> K_FOREVER \/ r = 0 \/ r = - ENOMSG) /\ exists th, resumed c b' th /\ r = swap_retval th).
Proof.
  intros Hf Hb Hs E Hreg Hpre V. unfold z_impl_k_msgq_put. ksteps. apply kwp_assert.
  { rewrite (so_nested _ _ _ _ Hs). destruct Hpre as [(-> & _)| ->]; [done|]. apply orb_true_r. }
  ksteps. set (s1 := set_irq_locked true s). assert (Hs1 : Stable J n c b s1) by (by apply (Stable_irq J)).
  assert (E1 : objs s1 !! msgq = Some (O_msgq q)) by done. eapply kwp_get_msgq; [exact E1|].
  pose proof (holds_get s1 msgq q (so_obj _ _ _ _ _ Hs1) E1) as ((r & Hr) & Hbuf & Hw & Hwb).
  assert (Hreg1 : region W s1 data (msg_size q)) by (apply region_irq; [apply Hs|done]).
  pose proof (msgq_view_some msgq s q r E Hr) as Hv. pose proof (ring_full msgq s q r _ Hr E Hv) as Hfull.
  assert (Hpw : put_wakes s = if used_msgs q <? max_msgs q then take 1 (waitq s (WQ_obj msgq)) else []).
  { unfold put_wakes. rewrite Hv, Hfull. by destruct (_ <? _). }
  destruct (used_msgs q <? max_msgs q) eqn:Hlt; cbn in Hfull.
  - ksteps. apply unpend_first_spec; [apply Hs1| |].
    + intros Ew. ksteps. eapply kwp_msgq_store; [done..|apply Hbuf|apply Hreg1|]. ksteps.
      change (waitq s (WQ_obj msgq) = []) in Ew. rewrite Ew in Hpw.
      destruct (put_store_spec b s1 q r data) as (Hs2 & Hv2 & Hm2); [done..|by apply Z.ltb_lt|done|].
      split_and!; [by apply (Stable_irq J)| |done]. intros _. rewrite Hb. split_and!.
      * split_and!; [|split; [|done]|by rewrite Hpw].
        -- etransitivity; [exact Hv2|]. change (msgq_view msgq s1) with (msgq_view msgq s).
           rewrite Hv. cbn. unfold abs_put. rewrite Hfull. cbn. by rewrite Ew.
        -- intros a' Ha. cbn. by rewrite lookup_insert_ne.
      * unfold delivered. rewrite Hpw. constructor.
      * intros p Hp. etransitivity; [apply (Hm2 p)|done]. intros Hin. apply Hp. exists q. auto.
    + intros t ts th Ew Et Ep. ksteps. eapply kwp_get_thread; [apply lookup_insert_eq|].
      change (waitq s (WQ_obj msgq) = t :: ts) in Ew. rewrite Ew in Hpw. cbn in Hpw.
      apply (put_wake_spec V b s1 q t ts th); [done..|]. intros s2 Hwk Hww _. rewrite Hb.
      assert (used_msgs q = 0) as Hu0.
      { destruct Hw as [|Hu]; [by change (waitq s1 (WQ_obj msgq)) with (waitq s (WQ_obj msgq)); rewrite Ew|done|].
        bool_to_prop. lia. }
      apply (put_woken_effect s1 q r t ts th); try done; [apply Hs1|].
      specialize (Hwb t). unfold waiter_buffer in Hwb. rewrite Et in Hwb. apply Hwb.
      change (waitq s1 (WQ_obj msgq)) with (waitq s (WQ_obj msgq)). rewrite Ew. left.
  - destruct (K_TIMEOUT_EQ timeout K_NO_WAIT) eqn:Hto.
    + ksteps. rewrite Hf. split_and!; [by do 2 apply (Stable_irq J)| |done]. intros _. rewrite Hb. split_and!; [| |done].
      * split_and!; [|done|by rewrite Hpw]. transitivity (msgq_view msgq s); [done|]. rewrite Hv. cbn.
        unfold abs_put, abs_wait. by rewrite Hfull, Hto.
      * unfold delivered. rewrite Hpw. constructor.
    + destruct Hpre as [(H0 & Hid & Hapi)|Hno]; [|by rewrite Hno in Hto].
      eapply mwp_mono; [apply (msgq_wait_spec V b s1 q); try done|].
      * right. pose proof (ro_used _ _ Hr). bool_to_prop. lia.
      * intros th s2 Et Hp _. rewrite Hb. destruct (wait_view s1 s2 q r th data E1 Hr Et Hp) as (Hv2 & Ho2 & Hm2).
        split_and!; [|unfold delivered; rewrite Hpw; constructor|intros p _; by rewrite Hm2].
        split_and!; [|done|by rewrite Hpw]. rewrite Hv2. change (msgq_view msgq s1) with (msgq_view msgq s). rewrite Hv. cbn.
        unfold abs_put, abs_wait. by rewrite Hfull, Hto.
      * cbv beta. intros b' r' s' (Hs' & Hf' & Hr'). rewrite Hf'. split; [done|]. split; [|done]. intros Hf2. congruence.
Qed.

(** *** Get *)

Definition get_wakes (s : kstate) : list tid :=
  match msgq_view msgq s with
  | Some (mkMsgqAbs (_ :: _) _ _ ts) => take 1 ts
  | _ => []
  end.

(** The message of the writer [t], which is read after the caller's buffer is filled. *)
Definition late (data : Z) (s : kstate) (v : msgq_abs) (msg : list Z) (t : tid) : list Z :=
  bytes (mem_write (mem s) data msg) (waiter_buffer s t) (abs_msg_size v).

Definition received (data : Z) (s s' : kstate) : Prop :=
  forall v msg msgs, msgq_view msgq s = Some v -> abs_msgs v = msg :: msgs -> bytes (mem s') data (abs_msg_size v) = msg.

#[export] Instance received_ok data : Effect (received data).
Proof. constructor. intros s s1 s2 Hv Hd v msg msgs. rewrite (sv_mem _ _ _ Hv). apply Hd. Qed.

Definition get_mem (data : Z) (s : kstate) (p : Z) : Prop :=
  exists q, objs s !! msgq = Some (O_msgq q) /\
    (within (buffer_start q) (max_msgs q * msg_size q) p \/ within data (msg_size q) p).

Definition get_effect (data : Z) (timeout : k_timeout_t) (s s' : kstate) : Prop :=
  obj_effect (msgq_view msgq) msgq (fun s v => abs_get (prio_of s) c timeout (late data s v) v) get_wakes 0 s s' /\
  received data s s' /\ only_memory (get_mem data s) s s'.

#[export] Instance get_effect_ok data timeout : Effect (get_effect data timeout).
Proof. apply effect_and; [apply obj_effect_ok, _|apply effect_and; apply _]. Qed.

Definition apart (q : k_msgq) (data : Z) : Prop :=
  forall p, within data (msg_size q) p -> ~ within (buffer_start q) (max_msgs q * msg_size q) p.

(** The first message is copied out. *)
Definition get_st (q : k_msgq) (data : Z) (s : kstate) : kstate :=
  set_mem (mem_write (mem s) data (bytes (mem s) (read_ptr q) (msg_size q))) s.

Lemma get_copy b s q r data :
  Stable J n c b s -> objs s !! msgq = Some (O_msgq q) -> ring_ok q r -> region W s data (msg_size q) ->
  apart q data ->
  let s2 := get_st q data s in
  Stable J n c b s2 /\ length (bytes (mem s) (read_ptr q) (msg_size q)) = Z.to_nat (msg_size q) /\
  (forall r' u, ring_msgs (buffer_start q) (msg_size q) (max_msgs q) (mem s2) r' u =
     ring_msgs (buffer_start q) (msg_size q) (max_msgs q) (mem s) r' u) /\
  bytes (mem s2) data (msg_size q) = bytes (mem s) (read_ptr q) (msg_size q) /\
  (forall p, mem s2 !! p <> mem s !! p -> within data (msg_size q) p).
Proof.
  intros Hs E Hr Hreg Hap s2. pose proof (holds_get s msgq q (so_obj _ _ _ _ _ Hs) E) as (_ & [Hbm _] & _).
  pose proof Hr as [].
  assert (Hl : length (bytes (mem s) (read_ptr q) (msg_size q)) = Z.to_nat (msg_size q)).
  { apply bytes_length. rewrite ro_read0. by eapply slot_mapped. }
  assert (Hlz : Z.of_nat (length (bytes (mem s) (read_ptr q) (msg_size q))) = msg_size q) by lia.
  split_and!; [by apply (Stable_store b s q)|done| | |].
  - intros r' u. apply ring_msgs_outside; [done..|]. rewrite Hlz. exact Hap.
  - apply bytes_write; [lia|done|apply Hreg].
  - intros p Hp%mem_write_changed. by rewrite Hlz in Hp.
Qed.

(** A get that finds no writer waiting. *)
Lemma get_take_spec b s q r data timeout :
  is_first b = true -> Stable J n c b s -> objs s !! msgq = Some (O_msgq q) -> ring_ok q r ->
  region W s data (msg_size q) -> apart q data -> 0 < used_msgs q -> waitq s (WQ_obj msgq) = [] ->
  let s2 := set_objs (<[msgq := O_msgq (taken q)]> (objs s)) (get_st q data s) in
  Stable J n c b s2 /\ get_effect data timeout s s2.
Proof.
  intros Hf Hs E Hr Hreg Hap Hu Ew s2. destruct (get_copy b s q r data) as (Hs1 & Hl & Hring & Hbs & Hch); [done..|].
  destruct (taken_ok q r Hr Hu) as [Hr2 Hu2]. pose proof Hr as [].
  pose proof (msgq_view_some msgq s q r E Hr) as Hv. rewrite ring_msgs_pop in Hv by done.
  split; [|split_and!].
  - apply (Stable_put_msgq b (get_st q data s) q (taken q) (r + 1)); [done..|]. by intros Hx; destruct (Hx Ew).
  - split_and!; [|split; [|done]|unfold get_wakes; rewrite Hv, Ew; constructor].
    + rewrite Hv, (msgq_view_some msgq s2 (taken q) (r + 1)); [|apply lookup_insert_eq|done].
      rewrite Hu2. cbn. rewrite Ew. do 2 f_equal; [apply Hring|exact Ew].
    + intros a' Ha. cbn. by rewrite lookup_insert_ne.
  - intros v msg msgs. rewrite Hv. intros [= <-] [= <- _]. cbn. rewrite <- ro_read0. exact Hbs.
  - intros p Hp. destruct (decide (mem s2 !! p = mem s !! p)) as [|Hne]; [done|]. destruct Hp. exists q. auto.
Qed.

(** The message of a waiting writer takes the place of the one that was read. *)
Definition refill_st (q : k_msgq) (data : Z) (th : k_thread) (s : kstate) : kstate :=
  let s1 := get_st q data s in
  set_objs (<[msgq := O_msgq (stored (taken q))]> (objs s))
    (set_mem (mem_write (mem s1) (write_ptr q) (bytes (mem s1) (swap_data th) (msg_size q))) s1).

Lemma refill_spec b s q r data t ts th :
  Stable J n c b s -> objs s !! msgq = Some (O_msgq q) -> ring_ok q r ->
  region W s data (msg_size q) -> apart q data -> 0 < used_msgs q -> waitq s (WQ_obj msgq) = t :: ts ->
  threads s !! t = Some th -> region W s (swap_data th) (msg_size q) ->
  let s2 := refill_st q data th s in
  Stable J n c b s2 /\
  msgq_view msgq s2 = (fun v => mkMsgqAbs (tail (abs_msgs v) ++ [bytes (mem (get_st q data s)) (swap_data th) (msg_size q)])
    (abs_max v) (abs_msg_size v) (abs_qwaiters v)) <$> msgq_view msgq s /\
  bytes (mem s2) data (msg_size q) = bytes (mem s) (read_ptr q) (msg_size q) /\
  only_memory (get_mem data s) s s2.
Proof.
  intros Hs E Hr Hreg Hap Hu Ew Et Hwr s2. destruct (get_copy b s q r data) as (Hs1 & Hl & Hring & Hbs & Hch); [done..|].
  set (s1 := get_st q data s) in *. destruct (taken_ok q r Hr Hu) as [Hr2 Hu2]. pose proof Hr as [].
  assert (Hlt : used_msgs (taken q) < max_msgs (taken q)) by (rewrite Hu2; cbn; lia).
  destruct (stored_ok (taken q) (r + 1) Hr2 Hlt) as [Hr3 Hu3]. rewrite Hu2 in Hu3.
  pose proof (holds_get s msgq q (so_obj _ _ _ _ _ Hs) E) as (_ & _ & Hw & _).
  pose proof (holds_get s1 msgq q (so_obj _ _ _ _ _ Hs1) E) as (_ & [Hbm1 HbW1] & _ & Hwb1).
  assert (Hslot : forall p, within (write_ptr q) (msg_size q) p -> within (buffer_start q) (max_msgs q * msg_size q) p).
  { rewrite ro_write0. intros p. by apply slot_in. }
  assert (Hm1 : mapped (mem s1) (swap_data th) (msg_size q)).
  { specialize (Hwb1 t). unfold waiter_buffer in Hwb1. cbn in Hwb1. rewrite Et in Hwb1. apply Hwb1.
    change (waitq s1 (WQ_obj msgq)) with (waitq s (WQ_obj msgq)). rewrite Ew. left. }
  set (l := bytes (mem s1) (swap_data th) (msg_size q)) in *. assert (Hl1 : length l = Z.to_nat (msg_size q)) by (by apply bytes_length).
  assert (Hlz : Z.of_nat (length l) = msg_size q) by lia. assert (Hm2 : mem s2 = mem_write (mem s1) (write_ptr q) l) by done.
  split_and!.
  - apply (Stable_put_msgq b (set_mem (mem_write (mem s1) (write_ptr q) l) s1) q (stored (taken q)) (r + 1)); try done.
    + apply (Stable_store b s1 q); [done..| |done]. split; intros p Hp; [apply Hbm1|apply HbW1]; auto.
    + intros _. right. rewrite Hu3. change (max_msgs (stored (taken q))) with (max_msgs q).
      destruct Hw as [Hz|Hm]; [by rewrite Ew|lia..].
  - rewrite (msgq_view_some msgq s q r), ring_msgs_pop by done. cbn [fmap option_fmap option_map abs_msgs tail].
    rewrite (msgq_view_some msgq s2 (stored (taken q)) (r + 1)); [|apply lookup_insert_eq|done]. rewrite Hu3.
    cbn [abs_max abs_msg_size abs_qwaiters]. do 2 f_equal. rewrite <- Hring.
    assert (Hws : write_ptr q = slot (buffer_start q) (msg_size q) (max_msgs q) (r + 1 + (used_msgs q - 1)))
      by (rewrite ro_write0; f_equal; lia).
    rewrite <- (ring_msgs_push (buffer_start q) (msg_size q) (max_msgs q) ro_size0 ro_max0 (mem s1)); [by rewrite <- Hws|lia|done|].
    by apply (slot_mapped q r).
  - rewrite <- Hbs. apply bytes_ext. intros p Hp. rewrite Hm2. apply mem_write_outside. rewrite Hlz. intros Hp2. by apply (Hap p Hp), Hslot.
  - intros p Hp. transitivity (mem s1 !! p).
    + rewrite Hm2. apply mem_write_outside. rewrite Hlz. intros Hp2. apply Hp. exists q. auto.
    + destruct (decide (mem s1 !! p = mem s !! p)) as [|Hne]; [done|]. destruct Hp. exists q. auto.
Qed.

Lemma get_wake_spec b s q r t ts th key data timeout :
  is_first b = true -> (forall s', get_effect data timeout s s' -> get_effect data timeout (began b) s') ->
  Stable J n c b s -> objs s !! msgq = Some (O_msgq q) -> ring_ok q r ->
  region W s data (msg_size q) -> apart q data -> 0 < used_msgs q -> waitq s (WQ_obj msgq) = t :: ts ->
  threads s !! t = Some th -> pended_on th = Some (WQ_obj msgq) ->
  let V := get_effect data timeout in
  mwp (Guar J V) (Rely J c) b
    (lift (msgq_store msgq (swap_data (unpended th)));;
     lift (arch_thread_return_value_set t 0);;
     lift (z_ready_thread t);;
     z_reschedule Lock_other key;;
     mret 0)
    (unpended_st t th (WQ_obj msgq) (set_objs (<[msgq := O_msgq (taken q)]> (objs s)) (get_st q data s)))
    (fun b' r s' => Stable J n c b' s' /\ effect V b' s' /\ r = 0).
Proof.
  intros Hf Hbegan Hs E Hr Hreg Hap Hu Ew Et Ep V.
  pose proof (holds_get s msgq q (so_obj _ _ _ _ _ Hs) E) as (_ & [Hbm _] & _ & Hwb).
  assert (Hbuf : waiter_buffer s t = swap_data th) by (unfold waiter_buffer; by rewrite Et).
  assert (Hwr : region W s (swap_data th) (msg_size q)) by (rewrite <- Hbuf; apply Hwb; rewrite Ew; left).
  destruct (refill_spec b s q r data t ts th) as (Hs2 & Hv2 & Hb2 & Hm2); [done..|].
  destruct (taken_ok q r Hr Hu) as [Hr2 Hu2]. destruct (get_copy b s q r data) as (Hs1 & _); [done..|].
  pose proof (holds_get (get_st q data s) msgq q (so_obj _ _ _ _ _ Hs1) E) as (_ & [Hbm1 _] & _ & Hwb1).
  ksteps. eapply (kwp_msgq_store msgq _ (taken q) (r + 1)); [apply lookup_insert_eq|done|exact Hbm1| |].
  { specialize (Hwb1 t). unfold waiter_buffer in Hwb1. cbn in Hwb1. rewrite Et in Hwb1. apply Hwb1.
    change (waitq (get_st q data s) (WQ_obj msgq)) with (waitq s (WQ_obj msgq)). rewrite Ew. left. }
  ksteps. eapply kwp_upd_thread; [apply lookup_insert_eq|]. ksteps.
  set (s2 := refill_st q data th s) in *.
  eapply kwp_mono.
  { cbn [objs unpended_st abort_st unpend_st set_threads set_objs set_mem get_st set_waitqs set_tq]. rewrite insert_insert_eq.
    apply (wake_spec no_metairq J n c b s2 t th (WQ_obj msgq) (with_swap_retval 0 (unpended th))); try done.
    cbn [granted swap_retval with_swap_retval]. unfold s2. cbn [objs refill_st set_objs]. rewrite lookup_insert_eq. by left. }
  cbv beta. intros _ s3 (Hs3 & Hwk & th3 & E3 & Hr3 & _ & Hp3). ksteps.
  eapply mwp_mono; [apply (reschedule_spec J V); [done|]|by cbv beta; intros b' _ s' (Hs' & HV' & _); ksteps].
  intros _. apply Hbegan. pose proof (msgq_view_some msgq s q r E Hr) as Hv. rewrite ring_msgs_pop in Hv by done.
  pose proof Hr as []. split_and!.
  - split_and!; [| |unfold get_wakes; rewrite Hv, Ew; constructor; [intros _; by exists th3|constructor]].
    + rewrite (msgq_view_waitq msgq s2), Hv2, Hv by apply Hwk. unfold abs_get, late.
      cbn [fmap option_fmap option_map abs_msgs abs_qwaiters abs_max abs_msg_size tail]. rewrite Ew, Hbuf, <- ro_read0. do 2 f_equal.
      refine (woken_head t ts (WQ_obj msgq) s2 _ (so_inv _ _ _ _ Hs2) _ Hwk). exact Ew.
    + destruct (woken_only _ _ _ _ Hwk) as [Ho Hw]. split; [|exact Hw].
      intros a' Ha. rewrite Ho by done. unfold s2. cbn [objs refill_st set_objs]. by rewrite lookup_insert_ne.
  - intros v msg msgs. rewrite Hv. intros [= <-] [= <- _]. cbn. rewrite <- ro_read0, (wk_mem _ _ _ _ Hwk). exact Hb2.
  - intros p Hp. rewrite (wk_mem _ _ _ _ Hwk). by apply Hm2.
Qed.

(** k_msgq_get copies out the oldest message and lets the first waiting writer store
    its own; with no message it returns -ENOMSG or waits. *)
Lemma k_msgq_get_spec b s q data timeout :
  is_first b = true -> began b = s ->
  Stable J n c b s -> objs s !! msgq = Some (O_msgq q) -> region W s data (msg_size q) -> apart q data ->
  n = 0 /\ c <> z_idle_thread /\ api_timeout timeout \/ timeout = K_NO_WAIT ->
  let V := get_effect data timeout in
  mwp (Guar J V) (Rely J c) b (z_impl_k_msgq_get msgq data timeout) s (fun b' r s' =>
    Stable J n c b' s' /\ effect V b' s' /\
    if used_msgs q >? 0 then r = 0
    else if is_first b' then r = - ENOMSG
    else (r = - EAGAIN /\ timeout <> K_FOREVER \/ r = 0 \/ r = - ENOMSG) /\ exists th, resumed c b' th /\ r = swap_retval th).
Proof.
  intros Hf Hb Hs E Hreg Hap Hpre V. unfold z_impl_k_msgq_get. ksteps. apply kwp_assert.
  { rewrite (so_nested _ _ _ _ Hs). destruct Hpre as [(-> & _)| ->]; [done|]. apply orb_true_r. }
  ksteps. set (s1 := set_irq_locked true s). assert (Hs1 : Stable J n c b s1) by (by apply (Stable_irq J)).
  assert (E1 : objs s1 !! msgq = Some (O_msgq q)) by done. eapply kwp_get_msgq; [exact E1|].
  pose proof (holds_get s1 msgq q (so_obj _ _ _ _ _ Hs1) E1) as ((r & Hr) & [Hbm _] & _ & _).
  assert (Hreg1 : region W s1 data (msg_size q)) by (apply region_irq; [apply Hs|done]).
  destruct (used_msgs q >? 0) eqn:Hgt; rewrite Z.gtb_ltb in Hgt; bool_to_prop.
  - ksteps. apply kwp_memcpy; [|apply Hreg1|]; [rewrite (ro_read _ _ Hr); by eapply slot_mapped|]. ksteps.
    apply unpend_first_spec; [by apply SInv_objs, SInv_mem, Hs1| |].
    + intros Ew. ksteps. destruct (get_take_spec b s1 q r data timeout) as [Hs2 HV2]; [done..|].
      split_and!; [by apply (Stable_irq J)| |done]. intros _. rewrite Hb. exact HV2.
    + intros t ts th Ew Et Ep. ksteps. eapply kwp_get_thread; [apply lookup_insert_eq|].
      by apply (get_wake_spec b s1 q r t ts th); [|rewrite Hb|..].
  - pose proof (ro_used _ _ Hr) as Hrng. assert (used_msgs q = 0) as Hu by lia.
    pose proof (msgq_view_some msgq s q r E Hr) as Hv. rewrite Hu in Hv. cbn in Hv.
    assert (Hrec : forall s', received data s s') by (intros s' v msg msgs; rewrite Hv; by intros [= <-]).
    assert (Hgw : get_wakes s = []) by (unfold get_wakes; by rewrite Hv).
    destruct (K_TIMEOUT_EQ timeout K_NO_WAIT) eqn:Hto.
    + ksteps. rewrite Hf. split_and!; [by do 2 apply (Stable_irq J)| |done]. intros _. rewrite Hb. split_and!; [|done|done].
      split_and!; [|done|by rewrite Hgw]. transitivity (msgq_view msgq s); [done|]. rewrite Hv. cbn.
      unfold abs_get, abs_wait. cbn. by rewrite Hto.
    + destruct Hpre as [(H0 & Hid & Hapi)|Hno]; [|by rewrite Hno in Hto].
      eapply mwp_mono; [apply (msgq_wait_spec V b s1 q); try done; [by left|]|].
      * intros th s2 Et Hp _. rewrite Hb. destruct (wait_view s1 s2 q r th data E1 Hr Et Hp) as (Hv2 & Ho2 & Hm2).
        split_and!; [|done|intros p _; by rewrite Hm2].
        split_and!; [|done|by rewrite Hgw]. rewrite Hv2. change (msgq_view msgq s1) with (msgq_view msgq s). rewrite Hv. cbn.
        unfold abs_get, abs_wait. cbn. by rewrite Hto.
      * cbv beta. intros b' r' s' (Hs' & Hf' & Hr'). rewrite Hf'. split; [done|]. split; [|done]. intros Hf2. congruence.
Qed.

(** *** Peek and purge *)

(** The address [k_msgq_peek_at] computes. *)
Lemma peek_slot q r idx :
  ring_ok q r -> 0 <= idx < used_msgs q ->
  let bytes_to_end := u32 (buffer_end q - read_ptr q) in
  let byte_offset := u32 (idx * msg_size q) in
  slot (buffer_start q) (msg_size q) (max_msgs q) (r + idx) =
    if bytes_to_end <=? byte_offset then buffer_start q + u32 (byte_offset - bytes_to_end)
    else read_ptr q + byte_offset.
Proof.
  intros [] Hi. rewrite ro_end0, ro_read0. unfold slot. rewrite <- (Z.add_mod_idemp_l r) by lia.
  pose proof (Z.mod_pos_bound r (max_msgs q) ro_max0) as Hb. set (k := r mod max_msgs q) in *.
  rewrite (wrap_u_small 32 (_ - _)) by nia. rewrite (wrap_u_small 32 (idx * _)) by nia. cbv zeta.
  destruct (Z.leb_spec (buffer_start q + max_msgs q * msg_size q - (buffer_start q + k * msg_size q)) (idx * msg_size q)).
  - rewrite wrap_u_small by nia.
    assert ((k + idx) mod max_msgs q = k + idx - max_msgs q) as -> by (symmetry; apply (Z.mod_unique_pos _ _ 1); nia). lia.
  - rewrite (Z.mod_small (k + idx)) by nia. lia.
Qed.

Lemma abs_peek_some s q r idx :
  objs s !! msgq = Some (O_msgq q) -> ring_ok q r -> 0 <= idx ->
  msgq_view msgq s ≫= abs_peek idx =
    if used_msgs q >? idx then Some (bytes (mem s) (slot (buffer_start q) (msg_size q) (max_msgs q) (r + idx)) (msg_size q))
    else None.
Proof.
  intros E Hr Hi. rewrite (msgq_view_some msgq s q r) by done. unfold abs_peek. cbn. unfold ring_msgs. rewrite list_lookup_fmap.
  pose proof (Z.gtb_ltb (used_msgs q) idx) as ->. destruct (Z.ltb_spec idx (used_msgs q)) as [Hlt|Hge].
  - rewrite lookup_seqZ_lt by lia. cbn. by rewrite Z2Nat.id by lia.
  - by rewrite lookup_seqZ_ge by lia.
Qed.

Definition peeked b s data (o : option (list Z)) size (r : Z) (s' : kstate) : Prop :=
  Stable J n c b s' /\ msgq_view msgq s' = msgq_view msgq s /\ only_object msgq s s' /\
  only_memory (within data size) s s' /\
  match o with Some msg => r = 0 /\ bytes (mem s') data size = msg | None => r = - ENOMSG /\ mem s' = mem s end.

Lemma peek_copy b s q r data p i key :
  Stable J n c b s -> objs s !! msgq = Some (O_msgq q) -> ring_ok q r -> region W s data (msg_size q) -> apart q data ->
  p = slot (buffer_start q) (msg_size q) (max_msgs q) i ->
  let s2 := set_mem (mem_write (mem s) data (bytes (mem s) p (msg_size q))) s in
  peeked b s data (Some (bytes (mem s) p (msg_size q))) (msg_size q) 0 (set_irq_locked key s2).
Proof.
  intros Hs E Hr Hreg Hap Hp s2. pose proof (holds_get s msgq q (so_obj _ _ _ _ _ Hs) E) as (_ & [Hbm _] & _).
  pose proof Hr as []. assert (Hl : length (bytes (mem s) p (msg_size q)) = Z.to_nat (msg_size q))
    by (apply bytes_length; rewrite Hp; by eapply slot_mapped).
  assert (Hlz : Z.of_nat (length (bytes (mem s) p (msg_size q))) = msg_size q) by lia.
  split_and!; [by apply (Stable_irq J), (Stable_store b s q)| |done|..].
  - rewrite (msgq_view_some msgq s q r), (msgq_view_some msgq (set_irq_locked key s2) q r) by done. do 2 f_equal.
    apply ring_msgs_outside; [done..|]. by rewrite Hlz.
  - intros x Hx. apply mem_write_outside. by rewrite Hlz.
  - done.
  - apply bytes_write; [lia|done|apply Hreg].
Qed.

(** k_msgq_peek_at copies out the message with the given index and changes nothing
    else, also where the ring wraps around; an index past the last message is answered with
    -ENOMSG. *)
Lemma k_msgq_peek_at_spec b s q data idx :
  Stable J n c b s -> objs s !! msgq = Some (O_msgq q) -> region W s data (msg_size q) -> apart q data ->
  0 <= idx < 2 ^ 32 ->
  kwp (z_impl_k_msgq_peek_at msgq data idx) s
    (peeked b s data (msgq_view msgq s ≫= abs_peek idx) (msg_size q)) /\
  kwp (z_impl_k_msgq_peek msgq data) s
    (peeked b s data (msgq_view msgq s ≫= abs_peek 0) (msg_size q)).
Proof.
  intros Hs E Hreg Hap Hi. set (s1 := set_irq_locked true s). assert (Hs1 : Stable J n c b s1) by (by apply (Stable_irq J)).
  assert (E1 : objs s1 !! msgq = Some (O_msgq q)) by done.
  pose proof (holds_get s1 msgq q (so_obj _ _ _ _ _ Hs1) E1) as ((r & Hr) & [Hbm _] & _ & _).
  assert (Hreg1 : region W s1 data (msg_size q)) by (apply region_irq; [apply Hs|done]).
  assert (Hnone : peeked b s data None (msg_size q) (- ENOMSG) (set_irq_locked (irq_locked s) s1))
    by (split_and!; [by apply (Stable_irq J)|done..]).
  split; [unfold z_impl_k_msgq_peek_at|unfold z_impl_k_msgq_peek]; ksteps; (eapply kwp_get_msgq; [exact E1|]);
    (erewrite abs_peek_some; [|exact E|exact Hr|lia]).
  - destruct (used_msgs q >? idx) eqn:Hgt; [|by ksteps]. rewrite Z.gtb_ltb in Hgt. bool_to_prop.
    pose proof (peek_slot q r idx Hr ltac:(lia)) as Hslot. cbv zeta in *.
    destruct (_ <=? _); ksteps; (apply kwp_memcpy; [rewrite <- Hslot; by eapply slot_mapped|apply Hreg1|]); ksteps;
      rewrite <- Hslot; by apply (peek_copy b s1 q r data _ (r + idx)).
  - destruct (used_msgs q >? 0) eqn:Hgt; [|by ksteps]. ksteps. rewrite (ro_read _ _ Hr).
    apply kwp_memcpy; [by eapply slot_mapped|apply Hreg1|]. ksteps. rewrite Z.add_0_r.
    by apply (peek_copy b s1 q r data _ r).
Qed.

Lemma msgq_purge_loop_body fuel (acc : unit) :
  msgq_purge_loop fuel msgq = wake_all_body msgq (- ENOMSG) (fun _ => tt) (fun f _ => msgq_purge_loop f msgq) fuel acc.
Proof. destruct fuel, acc; reflexivity. Qed.

(** k_msgq_purge empties the queue and wakes every waiting writer with -ENOMSG. *)
Lemma k_msgq_purge_spec b s q :
  is_first b = true -> began b = s ->
  Stable J n c b s -> objs s !! msgq = Some (O_msgq q) ->
  let V := obj_effect (msgq_view msgq) msgq (fun _ => abs_purge) (fun s => waitq s (WQ_obj msgq)) (- ENOMSG) in
  mwp (Guar J V) (Rely J c) b (z_impl_k_msgq_purge msgq) s (fun b' _ s' => Stable J n c b' s' /\ effect V b' s').
Proof.
  intros Hf Hb Hs E V. unfold z_impl_k_msgq_purge. ksteps.
  set (s1 := set_irq_locked true s). assert (Hs1 : Stable J n c b s1) by (by apply (Stable_irq J)).
  eapply kwp_mono.
  { apply (wake_all_spec no_metairq J n c msgq (- ENOMSG) _ _ b msgq_purge_loop_body _ s1 tt Hs1 eq_refl).
    intros t. cbn. rewrite E. by right. }
  cbv beta. intros _ s2 (_ & Hs2 & Hw). assert (E2 : objs s2 !! msgq = Some (O_msgq q)) by (by rewrite (wa_objs _ _ _ _ Hw)).
  ksteps. eapply kwp_get_msgq; [exact E2|]. ksteps.
  pose proof (holds_get s2 msgq q (so_obj _ _ _ _ _ Hs2) E2) as ((r & Hr) & _). pose proof Hr as [].
  set (q' := with_read_ptr (write_ptr q) (with_used_msgs 0 q)).
  assert (Hr' : ring_ok q' (r + used_msgs q)) by (split; cbn; try done; [lia|rewrite Z.add_0_r; done]).
  eapply mwp_mono; [apply (reschedule_spec J V)|by intros ? ? ? (? & ? & _)].
  - apply (Stable_put_msgq b s2 q q' (r + used_msgs q)); [done..|]. intros Hx. destruct (Hx (wa_empty _ _ _ _ Hw)).
  - intros _. rewrite Hb. split_and!.
    + rewrite (msgq_view_some msgq s q r) by done.
      erewrite msgq_view_some; [|apply lookup_insert_eq|exact Hr']. cbn. unfold abs_purge. cbn. do 2 f_equal.
      exact (wa_empty _ _ _ _ Hw).
    + split; [|exact (wa_waitq _ _ _ _ Hw)]. intros a' Ha. cbn. rewrite lookup_insert_ne by done. by rewrite (wa_objs _ _ _ _ Hw).
    + apply Forall_forall. intros t Ht _. exact (wa_woken _ _ _ _ Hw t Ht).
Qed.
End MsgqSpec.
