(* ===== verification/Events.v ===== *)
(** * Event objects (kernel/events.c) *)

From S2P Require Import Prelude Timeout PriorityQ KState KLogic Sched SchedInv SchedOps Switch ThreadOps.

Local Open Scope Z_scope.

Definition K_EVENT_WAIT_ANY : Z := 0.
Definition K_EVENT_WAIT_ALL : Z := 1.
Definition K_EVENT_WAIT_MASK : Z := 1.
Definition K_EVENT_WAIT_RESET : Z := 2.

Record event_walk_data := mkWalkData { wd_head : option tid; wd_events : Z }.

Definition are_wait_conditions_met (desired current wait_condition : Z) : bool :=
  let match_ := Z.land current desired in
  if wait_condition =? K_EVENT_WAIT_ALL then match_ =? desired
  else negb (match_ =? 0).

Section Events.
Context `{KConfig}.

Definition z_impl_k_event_init (event : addr) : K unit :=
  put_obj event (O_event (mkEvent 0));;
  z_waitq_init (WQ_obj event).

Definition event_walk_op (thread : tid) (data : event_walk_data) : K (Z * event_walk_data) :=
  th ← get_thread thread;
  let wait_condition := Z.land (event_options th) K_EVENT_WAIT_MASK in
  if are_wait_conditions_met (th_events th) (wd_events data) wait_condition then
    upd_thread thread (with_no_wake_on_timeout true);;
    upd_thread thread (with_next_event_link (wd_head data));;
    _ ← z_abort_thread_timeout thread;
    mret (0, mkWalkData (Some thread) (wd_events data))
  else mret (0, data).

(** The [do]-[while] loop of [k_event_post_internal]. *)
Fixpoint event_wake_loop (fuel : nat) (thread : option tid) (events : Z) : K unit :=
  match thread with
  | None => mret tt
  | Some t =>
      match fuel with
      | O => kfail
      | S fuel =>
          arch_thread_return_value_set t 0;;
          upd_thread t (with_th_events events);;
          th ← get_thread t;
          z_sched_wake_thread t false;;
          event_wake_loop fuel (next_event_link th) events
      end
  end.

Definition k_event_post_internal (event : addr) (events events_mask : Z) : M Z :=
  key ← lift k_spin_lock;
  o ← lift (get_event event);
  let previous_events := Z.land (ev_events o) events_mask in
  let events := Z.lor (Z.land (ev_events o) (u32 (Z.lnot events_mask))) (Z.land events events_mask) in
  lift (put_obj event (O_event (mkEvent events)));;
  l ← lift (kget (fun s => waitq s (WQ_obj event)));
  r ← lift (z_sched_waitq_walk (WQ_obj event) event_walk_op (mkWalkData None events));
  lift (event_wake_loop (length l) (wd_head r.2) events);;
  z_reschedule Lock_other key;;
  mret previous_events.

Definition z_impl_k_event_post (event : addr) (events : Z) : M Z :=
  k_event_post_internal event events events.
Definition z_impl_k_event_set (event : addr) (events : Z) : M Z :=
  k_event_post_internal event events (u32 (Z.lnot 0)).
Definition z_impl_k_event_set_masked (event : addr) (events events_mask : Z) : M Z :=
  k_event_post_internal event events events_mask.
Definition z_impl_k_event_clear (event : addr) (events : Z) : M Z :=
  k_event_post_internal event 0 events.

Definition k_event_wait_internal (event : addr) (events options : Z) (timeout : k_timeout_t) : M Z :=
  isr ← lift arch_is_in_isr;
  lift (kassert (negb isr || K_TIMEOUT_EQ timeout K_NO_WAIT));;
  if events =? 0 then mret 0
  else
    let wait_condition := Z.land options K_EVENT_WAIT_MASK in
    thread ← lift z_impl_k_sched_current_thread_query;
    key ← lift k_spin_lock;
    o ← lift (get_event event);
    lift (kwhen (negb (Z.land options K_EVENT_WAIT_RESET =? 0)) (put_obj event (O_event (mkEvent 0))));;
    o ← lift (get_event event);
    if are_wait_conditions_met events (ev_events o) wait_condition
    then (lift (k_spin_unlock key);; mret (Z.land (ev_events o) events))
    else if K_TIMEOUT_EQ timeout K_NO_WAIT then (lift (k_spin_unlock key);; mret (Z.land 0 events))
    else
      lift (upd_thread thread (with_th_events events));;
      lift (upd_thread thread (with_event_options options));;
      ret ← z_pend_curr Lock_other key (Some (WQ_obj event)) timeout;
      rv ← (if ret =? 0 then th ← lift (get_thread thread); mret (th_events th) else mret 0 : M Z);
      mret (Z.land rv events).

Definition z_impl_k_event_wait (event : addr) (events : Z) (reset : bool) (timeout : k_timeout_t) : M Z :=
  k_event_wait_internal event events (if reset then K_EVENT_WAIT_RESET else 0) timeout.
Definition z_impl_k_event_wait_all (event : addr) (events : Z) (reset : bool) (timeout : k_timeout_t)
    : M Z :=
  k_event_wait_internal event events
    (if reset then Z.lor K_EVENT_WAIT_RESET K_EVENT_WAIT_ALL else K_EVENT_WAIT_ALL) timeout.
End Events.

(** ** Specification *)

(** The condition of the waiter [t] holds of the events [ev]. *)
Definition met (ev : Z) (s : kstate) (t : tid) : bool :=
  from_option (fun th => are_wait_conditions_met (th_events th) ev (Z.land (event_options th) K_EVENT_WAIT_MASK))
    false (threads s !! t).

(** The list that [event_walk_op] builds through [next_event_link]. *)
Fixpoint linked (s : kstate) (l : list tid) : Prop :=
  match l with
  | [] => True
  | t :: l => (next_event_link <$> threads s !! t) = Some (head l) /\ linked s l
  end.

Lemma linked_ext s s' l : (forall t, t ∈ l -> threads s' !! t = threads s !! t) -> linked s l -> linked s' l.
Proof.
  induction l as [|t l IH]; cbn; [done|]. intros He [H1 H2]. split; [rewrite He by left; done|].
  apply IH; [|done]. intros u Hu. apply He. by right.
Qed.

(** What a waiter sees of an event object. *)
Record event_abs := mkEventAbs { abs_events : Z; abs_ewaiters : list tid }.

Definition event_view (event : addr) (s : kstate) : option event_abs :=
  match objs s !! event with
  | Some (O_event o) => Some (mkEventAbs (ev_events o) (waitq s (WQ_obj event)))
  | _ => None
  end.

#[export] Instance event_view_ok event : View (event_view event) event.
Proof. constructor. intros s s' Eo Ew _. unfold event_view. by rewrite Eo, Ew. Qed.

(** The events a wait starts from. *)
Definition seen_events (options : Z) (v : event_abs) : Z :=
  if Z.land options K_EVENT_WAIT_RESET =? 0 then abs_events v else 0.

Definition satisfied (events options : Z) (v : event_abs) : bool :=
  are_wait_conditions_met events (seen_events options v) (Z.land options K_EVENT_WAIT_MASK).

Definition abs_event_wait (prio : tid -> Z) (c : tid) (events options : Z) (timeout : k_timeout_t) (v : event_abs)
    : event_abs :=
  if events =? 0 then v
  else mkEventAbs (seen_events options v)
         (if satisfied events options v || K_TIMEOUT_EQ timeout K_NO_WAIT then abs_ewaiters v
          else z_priq_dumb_add prio c (abs_ewaiters v)).

(** No waiter is left waiting for events that are there. *)
Definition event_ok (s : kstate) (event : addr) (o : k_event) : Prop :=
  0 <= ev_events o < 2 ^ 32 /\
  Forall (fun t => met (ev_events o) s t = false /\ (th_events <$> threads s !! t) <> Some 0) (waitq s (WQ_obj event)).

Section EventSpec.
Context `{KConfig}.
Hypothesis no_metairq : CONFIG_NUM_METAIRQ_PRIORITIES = 0.
Context (J : kstate -> Prop) `{!ObjInv J, !Holds J O_event event_ok}.
Context (n : Z) (c : tid) (event : addr).
Implicit Types (b : stretch) (s : kstate).

(** *** The walk *)

(** Between [s] and [s'] the threads [l] were put on the list of threads to wake. *)
Record walked (l : list tid) (s s' : kstate) : Prop := {
  wl_objs : objs s' = objs s;
  wl_mem : mem s' = mem s;
  wl_current : current s' = current s;
  wl_irq : irq_locked s' = irq_locked s;
  wl_waitqs : waitqs s' = waitqs s;
  wl_other : forall u, u ∉ l -> threads s' !! u = threads s !! u;
  wl_marked : forall t th, t ∈ l -> threads s !! t = Some th ->
    exists x, threads s' !! t = Some (with_next_event_link x (with_no_wake_on_timeout true th));
  wl_active : forall u, active u s' = true -> active u s = true;
  wl_inactive : forall t, t ∈ l -> active t s' = false
}.

Lemma walked_nil s : walked [] s s.
Proof. split; try done; intros t; by intros ?%elem_of_nil || (intros th ?%elem_of_nil). Qed.

Lemma mark_spec b s t th x w :
  Steady n c b s -> threads s !! t = Some th -> pended_on th = Some w ->
  let s' := abort_st t (put_thread t (with_next_event_link x (with_no_wake_on_timeout true th)) s) in
  Steady n c b s' /\ walked [t] s s'.
Proof.
  intros Hs E Ep s'. set (th' := with_next_event_link x (with_no_wake_on_timeout true th)) in *.
  assert (Hs1 : Steady n c b (put_thread t th' s)) by (by apply (Steady_put n c b s t th)).
  pose proof (so_inv _ _ _ _ Hs1) as (Hi1 & _).
  assert (E1 : threads (put_thread t th' s) !! t = Some th') by apply lookup_insert_eq.
  assert (Hb : blocked th' = true).
  { pose proof (tok_pending _ _ _ _ (ri_thread _ _ _ _ Hi1 E1)) as H1. cbn [pended_on] in H1.
    change (pended_on th') with (pended_on th) in H1. rewrite Ep, bool_decide_true in H1 by done.
    unfold blocked. rewrite H1. by rewrite orb_true_r. }
  split; [by apply (Steady_abort n c b _ t th')|]. split; try done.
  - intros u Hu. cbn. rewrite lookup_insert_ne; [done|]. intros ->. apply Hu. left.
  - intros u thu ->%list_elem_of_singleton Eu. assert (thu = th) as -> by congruence. exists x. apply lookup_insert_eq.
  - intros u. unfold s'. rewrite (abort_st_active None) by done. by case_decide.
  - intros u ->%list_elem_of_singleton. unfold s'. rewrite (abort_st_active None) by done. by rewrite decide_True.
Qed.

Lemma walked_trans l1 l2 s1 s2 s3 :
  walked l1 s1 s2 -> walked l2 s2 s3 -> (forall t, t ∈ l1 -> t ∉ l2) -> walked (l2 ++ l1) s1 s3.
Proof.
  intros [O1 M1 C1 I1 W1 T1 K1 A1 N1] [O2 M2 C2 I2 W2 T2 K2 A2 N2] Hd. split; try congruence.
  - intros u. rewrite not_elem_of_app. intros [H2 H1]. rewrite T2, T1 by done. done.
  - intros t th Ht E. destruct (decide (t ∈ l1)) as [H1|H1].
    + rewrite T2 by auto. auto.
    + apply elem_of_app in Ht as [H2|]; [|done]. apply K2; [done|]. by rewrite T1.
  - auto.
  - intros t [H2|H1]%elem_of_app; [auto|]. destruct (active t s3) eqn:Ea; [|done]. apply A2 in Ea. rewrite N1 in Ea; done.
Qed.

Lemma walk_spec b ev w l : forall s0 s acc,
  walked acc s0 s -> Steady n c b s -> linked s acc -> NoDup (l ++ acc) ->
  (forall t, t ∈ l -> exists th, threads s0 !! t = Some th /\ pended_on th = Some w) ->
  kwp (waitq_walk_loop event_walk_op l (mkWalkData (head acc) ev)) s (fun r s' =>
    let acc' := reverse (filter (fun t => met ev s0 t = true) l) ++ acc in
    r = (0, mkWalkData (head acc') ev) /\ walked acc' s0 s' /\ Steady n c b s' /\ linked s' acc').
Proof.
  induction l as [|t l IH]; intros s0 s acc Hw Hs Hl Hnd Hp; cbn [waitq_walk_loop]; [by ksteps|].
  destruct (Hp t) as (th & E0 & Ep); [left|]. cbn [app] in Hnd. apply NoDup_cons in Hnd as [Hnt Hnd].
  rewrite not_elem_of_app in Hnt. destruct Hnt as [Htl Hta].
  assert (E : threads s !! t = Some th) by (by rewrite (wl_other _ _ _ Hw)).
  assert (Hp' : forall u, u ∈ l -> exists th, threads s0 !! u = Some th /\ pended_on th = Some w) by (intros; apply Hp; by right).
  kstep. unfold event_walk_op at 1. ksteps. eapply kwp_get_thread; [exact E|]. cbn [wd_events wd_head].
  assert (Hm : met ev s0 t = are_wait_conditions_met (th_events th) ev (Z.land (event_options th) K_EVENT_WAIT_MASK))
    by (unfold met; by rewrite E0). rewrite <- Hm. rewrite filter_cons.
  destruct (met ev s0 t) eqn:Hmet.
  - rewrite decide_True by done. destruct (mark_spec b s t th (head acc) w Hs E Ep) as [Hs1 Hw1].
    ksteps. eapply kwp_upd_thread; [exact E|]. ksteps. eapply kwp_upd_thread; [apply lookup_insert_eq|].
    cbn [threads set_threads]. rewrite insert_insert_eq. ksteps.
    set (th' := with_next_event_link (head acc) (with_no_wake_on_timeout true th)) in *.
    destruct (abort_timeout_spec None (put_thread t th' s) t th') as (_ & _ & Hk);
      [apply (Steady_put n c b s t th); done|by left|apply lookup_insert_eq|].
    apply Hk. ksteps. cbn [fst snd Z.eqb negb].
    eapply kwp_mono; [apply (IH s0 _ (t :: acc)); try done|].
    + change (t :: acc) with ([t] ++ acc). eapply walked_trans; [exact Hw|exact Hw1|].
      by intros u Hu ->%list_elem_of_singleton.
    + cbn [linked]. split; [|eapply linked_ext; [|exact Hl]]; cbn; [by rewrite lookup_insert_eq|].
      intros u Hu. rewrite lookup_insert_ne; [done|]. by intros ->.
    + apply NoDup_app in Hnd as (N1 & N2 & N3). apply NoDup_app. split_and!; [done| |by constructor].
      intros u Hu. rewrite not_elem_of_cons. split; [by intros ->|auto].
    + cbv beta. intros r s'. rewrite reverse_cons. by rewrite <- app_assoc.
  - rewrite decide_False by done. ksteps. cbn [fst snd Z.eqb negb]. by apply IH.
Qed.

(** *** The wake loop *)

(** Between [s] and [s'] the threads [l] were woken with the events [ev]. *)
Record posted (ev : Z) (l : list tid) (s s' : kstate) : Prop := {
  po_objs : objs s' = objs s;
  po_mem : mem s' = mem s;
  po_current : current s' = current s;
  po_irq : irq_locked s' = irq_locked s;
  po_waitq : waitq s' (WQ_obj event) = filter (fun t => t ∉ l) (waitq s (WQ_obj event));
  po_waitqs : forall w, w <> WQ_obj event -> waitq s' w = waitq s w;
  po_other : forall u, u ∉ l -> threads s' !! u = threads s !! u;
  po_woken : forall t, t ∈ l -> exists th, threads s' !! t = Some th /\ pended_on th = None /\
    swap_retval th = 0 /\ th_events th = ev /\ wake_fine th = true
}.

(** A thread on the list. *)
Definition to_wake (s : kstate) (t : tid) : Prop :=
  active t s = false /\ exists th, threads s !! t = Some th /\ pended_on th = Some (WQ_obj event) /\
    st 3 th = false /\ st 5 th = false.

(** The thread as it is readied. *)
Lemma woken_fields ev th :
  pended_on th = Some (WQ_obj event) -> st 3 th = false -> st 5 th = false ->
  let wt := woken_thread false (with_th_events ev (with_swap_retval 0 th)) in
  pended_on wt = None /\ swap_retval wt = 0 /\ th_events wt = ev /\ wake_fine wt = true /\ st 3 wt = false.
Proof.
  intros Ep H3 H5 wt. unfold wt, woken_thread. change (pended_on (with_no_wake_on_timeout _ _)) with (pended_on th).
  rewrite decide_False by congruence. split_and!; try done.
  - unfold wake_fine. cbn [no_wake_on_timeout clear_state_bits with_thread_state unpended with_pended_on negb andb pended_on].
    change (st 5 (clear_state_bits _THREAD_PRESTART (unpended _))) with
      (st 5 (clear_state_bits _THREAD_PRESTART (clear_state_bits _THREAD_PENDING th))).
    bits_simpl. rewrite H5. cbn [negb andb]. done.
  - change (st 3 (clear_state_bits _THREAD_PRESTART (unpended _))) with
      (st 3 (clear_state_bits _THREAD_PRESTART (clear_state_bits _THREAD_PENDING th))).
    bits_simpl. exact H3.
Qed.

Lemma wake_one_spec b s o ev t th :
  Steady n c b s -> objs s !! event = Some (O_event o) -> threads s !! t = Some th -> to_wake s t ->
  kwp (z_sched_wake_thread t false) (put_thread t (with_th_events ev (with_swap_retval 0 th)) s) (fun _ s' =>
    Steady n c b s' /\ posted ev [t] s s' /\ (forall u, active u s' = true -> active u s = true)).
Proof.
  intros Hs Eo E (Ha & th0 & E0 & Ep & H3 & H5). assert (th0 = th) as -> by congruence. clear E0.
  pose proof (waiter_not_exempt _ _ _ _ _ _ _ Hs E Ep) as Hte. destruct Hs as [(Hi & Hc & Hu) Hn Hnb Hg Ht].
  set (th2 := with_th_events ev (with_swap_retval 0 th)). set (s1 := put_thread t th2 s).
  destruct (woken_fields ev th Ep H3 H5) as (Wp & Wr & We & Wf & W3). set (wt := woken_thread false th2) in *.
  assert (Hdu : t <> thread_dummy) by (eapply not_dummy; [exact Hi|exact E|right; by rewrite Ep]).
  assert (Hid : t <> z_idle_thread) by (by destruct (unpend_thread_spec None s t th (WQ_obj event)) as [? _]; [|left|..]).
  destruct (SInv_put t s th th2) as (Hi1 & Hc1 & Hu1); [done..|].
  eapply kwp_mono; [apply (sched_wake_spec no_metairq s1 t th2 false); try done|].
  { split_and!; [by apply RInv_mono|done|by apply current_ok_weaken|done]. }
  { apply lookup_insert_eq. }
  { apply andb_false_r. }
  { change (st 3 th || st 5 th = false). by rewrite H3, H5. }
  cbv beta. intros _ s' (_ & Hs' & Hr'). set (s2 := woken_st false t th2 s1) in *. fold wt in Hr'.
  assert (Es2 : s2 = put_thread t wt (set_waitqs (<[WQ_obj event := z_priq_dumb_remove t (waitq s (WQ_obj event))]> (waitqs s)) s)).
  { unfold s2, woken_st. change (pended_on th2) with (pended_on th). rewrite Ep. fold wt. unfold s1. cbn. by rewrite insert_insert_eq. }
  clearbody s2. subst s2. set (s2 := put_thread t wt _) in *.
  assert (E2 : threads s2 !! t = Some wt) by apply lookup_insert_eq.
  pose proof (readied_frame None t wt s2 s' E2 Hr') as Hf3. destruct (readied_threads t wt s2 s' E2 Hr') as [Ho3 Hth3].
  split_and!; [split|split|]; try done.
  - by rewrite (sf_nested _ _ _ Hf3).
  - eapply seg_trans; [exact Hg|]. eapply seg_trans; [|by apply sframe_seg].
    apply (seg_wake (exempt n c) s (unpend_st t th (WQ_obj event) s) s2 t th wt (WQ_obj event)); try done.
    + by apply unpend_st_frame.
    + cbn. by rewrite insert_insert_eq.
    + unfold dead. cbn [threads unpend_st set_threads]. rewrite lookup_insert_eq. cbn [from_option].
      change (st 3 (clear_state_bits _THREAD_PENDING th) = true -> st 3 wt = true). bits_simpl. congruence.
    + cbn [granted]. change (objs s2) with (objs s). rewrite Eo. exact Wr.
  - intros H0. destruct (Ht H0) as (Hcu & Hru & Hb). split_and!; [by rewrite (sf_current _ _ _ Hf3)| |done].
    eapply readied_running; [exact E2|exact Hr'|]. refine (running_put s s2 t th wt E eq_refl eq_refl _ Hru).
    pose proof (tok_pending _ _ _ _ (ri_thread _ _ _ _ Hi E)) as H1. rewrite Ep, bool_decide_true in H1 by done.
    unfold blocked at 1. rewrite H1. by rewrite orb_true_r.
  - by rewrite (sf_objs _ _ _ Hf3).
  - by rewrite (sf_mem _ _ _ Hf3).
  - by rewrite (sf_current _ _ _ Hf3).
  - by rewrite (readied_irq_locked _ _ _ _ Hr').
  - unfold waitq at 1. rewrite (readied_waitqs _ _ _ _ Hr'). change (waitq s2 (WQ_obj event) = filter (fun u => u ∉ [t]) (waitq s (WQ_obj event))).
    etransitivity; [exact (waitq_insert s (WQ_obj event) _ _)|]. rewrite decide_True by done. apply list_filter_iff. intros u. rewrite list_elem_of_singleton. done.
  - intros w Hw. unfold waitq at 1. rewrite (readied_waitqs _ _ _ _ Hr'). change (waitq s2 w = waitq s w).
    etransitivity; [exact (waitq_insert s (WQ_obj event) _ _)|]. by rewrite decide_False.
  - intros u Hul. rewrite list_elem_of_singleton in Hul. rewrite Ho3 by done. cbn. by rewrite lookup_insert_ne.
  - intros u ->%list_elem_of_singleton. destruct Hth3 as [E3|E3]; (eexists; split; [exact E3|]); split_and!; try done.
    apply (queued_frame wt). exact Wf.
  - intros u Hau. by apply (sf_active _ _ _ Hf3) in Hau.
Qed.

Lemma posted_nil ev s : posted ev [] s s.
Proof.
  split; try done; [|by intros t ?%elem_of_nil]. symmetry. apply list_filter_all. intros t _. apply not_elem_of_nil.
Qed.

Lemma posted_trans ev t l s1 s2 s3 :
  posted ev [t] s1 s2 -> posted ev l s2 s3 -> t ∉ l -> posted ev (t :: l) s1 s3.
Proof.
  intros [O1 M1 C1 I1 Q1 W1 T1 K1] [O2 M2 C2 I2 Q2 W2 T2 K2] Hd. split; try congruence.
  - rewrite Q2, Q1, list_filter_filter. apply list_filter_iff. intros u.
    rewrite !not_elem_of_cons. pose proof (not_elem_of_nil u). tauto.
  - intros w Hw. rewrite W2, W1 by done. done.
  - intros u. rewrite not_elem_of_cons. intros [H1 H2]. rewrite T2, T1; [done|by rewrite list_elem_of_singleton|done].
  - intros u [->|Hu]%elem_of_cons; [|auto]. rewrite T2 by done. apply K1. by left.
Qed.

Lemma wake_loop_spec b o ev l : forall fuel s,
  (length l <= fuel)%nat -> Steady n c b s -> objs s !! event = Some (O_event o) -> linked s l -> NoDup l ->
  Forall (to_wake s) l ->
  kwp (event_wake_loop fuel (head l) ev) s (fun _ s' => Steady n c b s' /\ posted ev l s s').
Proof.
  induction l as [|t l IH]; intros [|fuel] s Hfu Hs Eo Hl Hnd Hw; cbn [length] in Hfu; try lia; cbn [event_wake_loop head].
  1, 2: ksteps; split; [done|apply posted_nil].
  apply NoDup_cons in Hnd as [Hnt Hnd]. inversion_clear Hw as [|? ? Ht Hw']. destruct Hl as [Hlk Hl].
  pose proof Ht as (_ & th & E & _). rewrite E in Hlk. injection Hlk as Hlk.
  unfold arch_thread_return_value_set. ksteps. eapply kwp_upd_thread; [exact E|]. ksteps.
  eapply kwp_upd_thread; [apply lookup_insert_eq|]. ksteps. eapply kwp_get_thread; [apply lookup_insert_eq|]. ksteps.
  cbn [threads set_threads]. rewrite insert_insert_eq.
  eapply kwp_mono; [by apply (wake_one_spec b s o ev t th)|]. cbv beta. intros _ s1 (Hs1 & Hp1 & Ha1).
  change (next_event_link (with_th_events ev (with_swap_retval 0 th))) with (next_event_link th). rewrite Hlk.
  assert (Hsame : forall u, u ∈ l -> threads s1 !! u = threads s !! u).
  { intros u Hu. apply (po_other _ _ _ _ Hp1). rewrite list_elem_of_singleton. by intros ->. }
  eapply kwp_mono; [apply (IH fuel s1); [lia|done| | |done|]|].
  - by rewrite (po_objs _ _ _ _ Hp1).
  - eapply linked_ext; [exact Hsame|done].
  - apply Forall_forall. intros u Hu. rewrite Forall_forall in Hw'. destruct (Hw' u Hu) as (Hau & Hthu).
    split; [|by rewrite (Hsame u Hu)]. destruct (active u s1) eqn:Eau; [|done]. apply Ha1 in Eau. congruence.
  - cbv beta. intros _ s2 [Hs2 Hp2]. split; [done|]. by eapply posted_trans.
Qed.

(** *** Posting *)

Definition new_events (old events mask : Z) : Z := Z.lor (Z.land old (u32 (Z.lnot mask))) (Z.land events mask).

Lemma new_events_range old events mask :
  0 <= old < 2 ^ 32 -> 0 <= events < 2 ^ 32 -> 0 <= new_events old events mask < 2 ^ 32.
Proof.
  intros Ho He. assert (0 <= new_events old events mask) as Hn.
  { apply Z.lor_nonneg. split; apply Z.land_nonneg; lia. }
  split; [done|]. apply Z.bounded_iff_bits_nonneg; [lia|done|]. intros i Hi. unfold new_events.
  rewrite Z.lor_spec, !Z.land_spec. 
  rewrite (proj1 (Z.bounded_iff_bits_nonneg 32 old ltac:(lia) ltac:(lia)) ltac:(lia) i Hi).
  by rewrite (proj1 (Z.bounded_iff_bits_nonneg 32 events ltac:(lia) ltac:(lia)) ltac:(lia) i Hi).
Qed.

Definition post_effect (events mask : Z) (s s' : kstate) : Prop :=
  forall o, objs s !! event = Some (O_event o) ->
  let ev := new_events (ev_events o) events mask in
  objs s' !! event = Some (O_event (mkEvent ev)) /\
  waitq s' (WQ_obj event) = filter (fun t => met ev s t = false) (waitq s (WQ_obj event)) /\
  only_object event s s' /\
  Forall (fun t => met ev s t = true -> t <> current s -> exists th', threads s' !! t = Some th' /\
    pended_on th' = None /\ swap_retval th' = 0 /\ th_events th' = ev) (waitq s (WQ_obj event)).

#[export] Instance post_effect_ok events mask : Effect (post_effect events mask).
Proof.
  constructor. intros s s1 s2 [Eo Em Ew Er _ Et _] Hp o E. destruct (Hp o E) as (Ho & Hw & [Hoo How] & Hf).
  assert (Ewq : forall w, waitq s2 w = waitq s1 w) by (intros w; unfold waitq; by rewrite Ew).
  split_and!; [by rewrite Eo|by rewrite Ewq| |].
  - split; [intros a Ha; rewrite Eo; auto|intros w Hn; rewrite Ewq; auto].
  - eapply Forall_impl; [exact Hf|]. intros t Ht Hm Hne. rewrite (Et t Hne). auto.
Qed.

Lemma walked_irq l s s' i : walked l s s' -> irq_locked s = i -> walked l s (set_irq_locked i s').
Proof. intros [] <-. by split. Qed.

(** The walk and the wake loop together. *)
Lemma post_frame ev l s1 s2 s3 s4 :
  RInv None s4 -> threads s2 = threads s1 -> waitqs s2 = waitqs s1 -> mem s2 = mem s1 -> nested s4 = nested s1 ->
  (forall t, t ∈ l -> is_Some (threads s1 !! t)) -> walked l s2 s3 -> posted ev l s3 s4 ->
  wframe s1 s4 /\ waitq s4 (WQ_obj event) = filter (fun t => t ∉ l) (waitq s1 (WQ_obj event)) /\
  (forall w, w <> WQ_obj event -> waitq s4 w = waitq s1 w) /\
  (forall u, u ∉ l -> threads s4 !! u = threads s1 !! u).
Proof.
  intros Hi4 Et Ew Em En Hdom [O3 M3 _ _ W3 T3 _ _ _] [O4 M4 _ _ Q4 W4 T4 K4].
  assert (Ewq : forall w, waitq s3 w = waitq s1 w) by (intros w; unfold waitq; by rewrite W3, Ew).
  assert (Hsub : forall w, waitq s4 w `sublist_of` waitq s1 w).
  { intros w. destruct (decide (w = WQ_obj event)) as [->|Hne]; [|by rewrite W4, Ewq].
    rewrite Q4, Ewq. apply sublist_filter. }
  assert (Hsame : forall u, u ∉ l -> threads s4 !! u = threads s1 !! u) by (intros u Hu; by rewrite T4, T3, Et).
  split_and!; [split| | |done]; try done.
  - intros p. by rewrite M4, M3, Em.
  - intros t. destruct (decide (t ∈ l)) as [Hl|Hl]; [|by rewrite Hsame].
    destruct (K4 t Hl) as (th & -> & _). eauto.
  - intros w t Ht. destruct (decide (t ∈ l)) as [Hl|Hl]; [|by rewrite Hsame]. exfalso.
    destruct (K4 t Hl) as (th & E & Hp & _). by eapply (waitq_unpended None s4).
  - intros Hok t th E. destruct (decide (t ∈ l)) as [Hl|Hl].
    + destruct (K4 t Hl) as (th' & E' & _ & _ & _ & Hf). congruence.
    + rewrite Hsame in E by done. by apply (Hok t).
  - by rewrite Q4, Ewq.
  - intros w Hw. by rewrite W4, Ewq.
Qed.

Lemma post_ok ev o s1 s4 (l : list tid) :
  0 <= ev < 2 ^ 32 -> event_ok s1 event o ->
  waitq s4 (WQ_obj event) = filter (fun t => t ∉ l) (waitq s1 (WQ_obj event)) ->
  (forall t, t ∈ l <-> t ∈ filter (fun t => met ev s1 t = true) (waitq s1 (WQ_obj event))) ->
  (forall u, u ∉ l -> threads s4 !! u = threads s1 !! u) -> event_ok s4 event (mkEvent ev).
Proof.
  intros Hev [_ Hf] Hq Hl Hsame. split; [done|]. cbn [ev_events]. rewrite Hq. apply Forall_forall.
  intros t [Hnl Ht]%list_elem_of_filter. rewrite Forall_forall in Hf. destruct (Hf t Ht) as [_ Hne].
  unfold met. rewrite (Hsame t Hnl). split; [|done]. fold (met ev s1 t).
  destruct (met ev s1 t) eqn:Em; [|done]. destruct Hnl. apply Hl, list_elem_of_filter. done.
Qed.

(** A waiter is neither marked nor dead. *)
Lemma waiter_to_wake s0 s l t :
  SInv s0 -> wake_ok s0 -> walked l s0 s -> t ∈ l -> t ∈ waitq s0 (WQ_obj event) -> to_wake s t.
Proof.
  intros (Hi & _) Hok Hw Hl Ht. destruct (ri_waitq_thread _ _ _ _ Hi Ht) as (th & E & Ep & _).
  destruct (wl_marked _ _ _ Hw t th Hl E) as [x Ex]. split; [by apply (wl_inactive _ _ _ Hw)|].
  eexists. split; [exact Ex|]. specialize (Hok t th E). unfold wake_fine in Hok. rewrite Ep in Hok.
  rewrite bool_decide_true, andb_true_r in Hok by done. bool_to_prop. done.
Qed.

(** The waiters whose condition the events meet. *)
Definition to_post (ev : Z) (s : kstate) : list tid := filter (fun t => met ev s t = true) (waitq s (WQ_obj event)).

(** What the walk and the wake loop achieve. *)
Lemma post_done b s1 s3 s4 o ev :
  Stable J n c b s1 -> objs s1 !! event = Some (O_event o) -> 0 <= ev < 2 ^ 32 ->
  let s2 := set_objs (<[event := O_event (mkEvent ev)]> (objs s1)) s1 in
  let l := reverse (to_post ev s1) in
  walked l s2 s3 -> Steady n c b s4 -> posted ev l s3 s4 ->
  Stable J n c b s4 /\ objs s4 = objs s2 /\
  waitq s4 (WQ_obj event) = filter (fun t => met ev s1 t = false) (waitq s1 (WQ_obj event)) /\
  (forall w, w <> WQ_obj event -> waitq s4 w = waitq s1 w).
Proof.
  intros Hs1 E1 Hev s2 l Hw Hs4 Hp. pose proof (so_inv _ _ _ _ Hs1) as (Hi1 & _).
  assert (Hin : forall t, t ∈ l <-> t ∈ to_post ev s1) by (intros t; unfold l; by rewrite elem_of_reverse).
  destruct (post_frame ev l s1 s2 s3 s4) as (Hwf & Hq & Hqs & Hsame); try done; [apply Hs4| | |].
  { by rewrite (so_nested _ _ _ _ Hs4), (so_nested _ _ _ _ Hs1). }
  { intros t [_ Ht]%Hin%list_elem_of_filter. destruct (ri_waitq_thread _ _ _ _ Hi1 Ht) as (th & ? & _). eauto. }
  assert (Eo : objs s4 = objs s2) by (by rewrite (po_objs _ _ _ _ Hp), (wl_objs _ _ _ Hw)).
  split_and!; [|done| |done].
  - split; [done|]. eapply (holds_put s1 s4 event o (mkEvent ev)); [apply Hs1|done..| |].
    + by rewrite (po_mem _ _ _ _ Hp), (wl_mem _ _ _ Hw).
    + eapply post_ok; [done|by apply (holds_get s1), E1; apply Hs1|exact Hq|exact Hin|exact Hsame].
  - rewrite Hq. apply filter_ext_in. intros t Ht. rewrite Hin. unfold to_post.
    rewrite list_elem_of_filter. clear -Ht. destruct (met ev s1 t); naive_solver.
Qed.

(** Posting events updates exactly the masked bits and wakes exactly the waiters whose
    condition they meet, each with the events that woke it, so that no waiter is left whose
    condition holds. *)
Lemma k_event_post_spec b s o events mask :
  is_first b = true -> began b = s ->
  Stable J n c b s -> objs s !! event = Some (O_event o) -> 0 <= events < 2 ^ 32 -> 0 <= mask < 2 ^ 32 ->
  let V := post_effect events mask in
  mwp (Guar J V) (Rely J c) b (k_event_post_internal event events mask) s (fun b' r s' =>
    Stable J n c b' s' /\ effect V b' s' /\ r = Z.land (ev_events o) mask).
Proof.
  intros Hf Hb Hs E Hev Hmask V. unfold k_event_post_internal. ksteps.
  set (s1 := set_irq_locked true s). assert (Hs1 : Stable J n c b s1) by (by apply (Stable_irq J)).
  assert (E1 : objs s1 !! event = Some (O_event o)) by done. eapply kwp_get_event; [exact E1|]. ksteps.
  fold (new_events (ev_events o) events mask). set (ev := new_events _ _ _).
  pose proof (holds_get s1 event o (so_obj _ _ _ _ _ Hs1) E1) as Hok.
  assert (Hrange : 0 <= ev < 2 ^ 32) by (apply new_events_range; [apply Hok|done]).
  set (s2 := set_objs (<[event := O_event (mkEvent ev)]> (objs s1)) s1).
  assert (Hs2 : Steady n c b s2) by (apply (Steady_put_obj n c b s1 event (O_event o)); [apply Hs1|done..]).
  pose proof (so_inv _ _ _ _ Hs2) as HI2. pose proof (ri_waitq_nodup _ _ (WQ_obj event) (proj1 HI2)) as HNW.
  set (l := to_post ev s1). apply kwp_spinlock. ksteps.
  eapply kwp_mono; [apply (walk_spec b ev (WQ_obj event) _ s2 s2 []);
    [apply walked_nil|done|done|by rewrite app_nil_r|]|].
  { intros t Ht. destruct (ri_waitq_thread _ s2 (WQ_obj event) t (proj1 HI2) Ht) as (th & ? & ? & _). eauto. }
  cbv beta zeta. rewrite app_nil_r. change (filter _ _) with l. intros r s3 (-> & Hw3 & Hs3 & Hl3). cbn [snd wd_head].
  apply (walked_irq _ _ _ true) in Hw3; [|done]. change (irq_locked s2) with true. set (s3' := set_irq_locked true s3) in *. ksteps.
  eapply kwp_mono; [apply (wake_loop_spec b (mkEvent ev) ev (reverse l)); [|by apply Steady_irq| |by apply (linked_ext s3)| |]|].
  { rewrite length_reverse. apply length_filter. }
  { rewrite (wl_objs _ _ _ Hw3). apply lookup_insert_eq. }
  { rewrite reverse_Permutation; apply NoDup_filter, HNW. }
  { apply Forall_forall. intros t Ht. apply (waiter_to_wake s2 s3' (reverse l)); try done; [exact (obj_wake s1 (so_obj _ _ _ _ _ Hs1))|].
    rewrite elem_of_reverse in Ht. unfold l, to_post in Ht. apply list_elem_of_filter in Ht as [_ Ht]. exact Ht. }
  cbv beta. intros _ s4 [Hs4 Hp4]. ksteps. destruct (post_done b s1 s3' s4 o ev) as (Hst & Eo & Hq & Hqs); [done..|].
  eapply mwp_mono; [apply (reschedule_spec J V); [done|]|by cbv beta; intros b' _ s' (? & ? & _); ksteps].
  intros _. rewrite Hb. intros o' Eo'. assert (o' = o) as -> by congruence. split_and!; [| |split|].
  - rewrite Eo. apply lookup_insert_eq.
  - exact Hq.
  - intros a Ha. rewrite Eo. cbn. by rewrite lookup_insert_ne.
  - exact Hqs.
  - apply Forall_forall. intros t Ht Hm _. destruct (po_woken _ _ _ _ Hp4 t) as (th & ? & ? & ? & ? & _); [|by exists th].
    rewrite elem_of_reverse. apply list_elem_of_filter. done.
Qed.

(** *** Waiting *)

Lemma met_none desired cond : desired <> 0 -> are_wait_conditions_met desired 0 cond = false.
Proof.
  intros Hd. unfold are_wait_conditions_met. rewrite Z.land_0_l. destruct (_ =? _); [|done].
  apply Z.eqb_neq. congruence.
Qed.

Lemma event_reset_ok s o : event_ok s event o -> event_ok s event (mkEvent 0).
Proof.
  intros [_ Hf]. split; [cbn; lia|]. eapply Forall_impl; [exact Hf|]. intros t [_ Hne]. split; [|done].
  unfold met. destruct (threads s !! t) as [th|]; cbn in *; [|done]. apply met_none. congruence.
Qed.

Lemma event_view_some s o :
  objs s !! event = Some (O_event o) -> event_view event s = Some (mkEventAbs (ev_events o) (waitq s (WQ_obj event))).
Proof. unfold event_view. by intros ->. Qed.

Lemma Stable_put_event b s o o' :
  Stable J n c b s -> objs s !! event = Some (O_event o) -> event_ok s event o' ->
  Stable J n c b (set_objs (<[event := O_event o']> (objs s)) s).
Proof.
  intros Hs E Hok. eapply Stable_put_obj; [done|exact E|done|].
  eapply holds_put; [apply Hs|exact E|by apply wframe_ext|done..].
Qed.

(** The optional reset. *)
Lemma reset_spec b s o options :
  Stable J n c b s -> objs s !! event = Some (O_event o) ->
  kwp (kwhen (negb (Z.land options K_EVENT_WAIT_RESET =? 0)) (put_obj event (O_event (mkEvent 0)))) s (fun _ s' =>
    let o' := mkEvent (seen_events options (mkEventAbs (ev_events o) (waitq s (WQ_obj event)))) in
    Stable J n c b s' /\ objs s' !! event = Some (O_event o') /\ waitqs s' = waitqs s /\ threads s' = threads s /\
    current s' = current s /\ mem s' = mem s /\ (forall a, a <> event -> objs s' !! a = objs s !! a)).
Proof.
  intros Hs E. unfold seen_events. destruct (_ =? 0); cbn [negb kwhen]; ksteps; cbn [abs_events].
  - split_and!; try done. rewrite E. by destruct o.
  - split_and!; try done; [|apply lookup_insert_eq|].
    + eapply Stable_put_event; [done..|]. apply (event_reset_ok _ o). apply (holds_get s); [apply Hs|done].
    + intros a Ha. cbn. by rewrite lookup_insert_ne.
Qed.

(** The caller starts to wait: its condition does not hold. *)
Lemma event_pend_ok s s2 o th events options :
  J s -> objs s !! event = Some (O_event o) -> threads s !! c = Some th ->
  th_events th = events -> event_options th = options -> events <> 0 ->
  are_wait_conditions_met events (ev_events o) (Z.land options K_EVENT_WAIT_MASK) = false ->
  pframe c (WQ_obj event) s s2 -> J s2.
Proof.
  intros HJ E Et He Ho Hne Hm Hp. destruct (holds_get s event o HJ E) as [Hr Hf].
  eapply holds_pend; [exact HJ|exact E|exact Hp|]. split; [done|]. apply Forall_forall. intros t.
  rewrite (pf_waitq _ _ _ _ Hp), decide_True, elem_of_dumb_add by done. unfold met.
  destruct (decide (t = c)) as [->|Htc].
  - intros _. destruct (pf_self _ _ _ _ Hp th Et) as (th' & -> & Hd & _). cbn. injection Hd as _ -> ->.
    rewrite He, Ho. split; [done|congruence].
  - intros [->|Ht]; [done|]. rewrite (pf_other _ _ _ _ Hp) by done. rewrite Forall_forall in Hf. by apply Hf.
Qed.

Definition event_wait_effect (events options : Z) (timeout : k_timeout_t) (s s' : kstate) : Prop :=
  obj_effect (event_view event) event (fun s => abs_event_wait (prio_of s) c events options timeout) (fun _ => []) 0 s s'.

#[export] Instance event_wait_effect_ok events options timeout : Effect (event_wait_effect events options timeout).
Proof. apply obj_effect_ok, _. Qed.

(** The tail of the call, once the caller has to wait. *)
Lemma event_wait_spec V `{!Effect V} b s o key events options timeout :
  Stable J n c b s -> objs s !! event = Some (O_event o) -> n = 0 -> c <> z_idle_thread -> api_timeout timeout ->
  events <> 0 -> are_wait_conditions_met events (ev_events o) (Z.land options K_EVENT_WAIT_MASK) = false ->
  (forall th s2, threads s !! c = Some th ->
     pframe c (WQ_obj event) (put_thread c (with_event_options options (with_th_events events th)) s) s2 -> effect V b s2) ->
  mwp (Guar J V) (Rely J c) b
    (lift (upd_thread c (with_th_events events));;
     lift (upd_thread c (with_event_options options));;
     ret ← z_pend_curr Lock_other key (Some (WQ_obj event)) timeout;
     rv ← (if ret =? 0 then th ← lift (get_thread c); mret (th_events th) else mret 0 : M Z);
     mret (Z.land rv events)) s
    (fun b' r s' => Stable J n c b' s' /\ is_first b' = false /\
       exists th, resumed c b' th /\
         (swap_retval th = 0 /\ r = Z.land (th_events th) events \/
          swap_retval th = - EAGAIN /\ timeout <> K_FOREVER /\ r = 0)).
Proof.
  intros Hs E H0 Hid Hto Hev Hm HV. destruct (so_thread _ _ _ _ Hs H0) as (Hc & _ & _).
  destruct (ri_current _ _ (proj1 (so_inv _ _ _ _ Hs))) as [th Et]. rewrite Hc in Et.
  ksteps. eapply kwp_upd_thread; [exact Et|]. ksteps. eapply kwp_upd_thread; [apply lookup_insert_eq|]. ksteps.
  cbn [threads set_threads]. rewrite insert_insert_eq.
  set (th1 := with_event_options options (with_th_events events th)). set (s1 := put_thread c th1 s).
  assert (Hs1 : Stable J n c b s1) by (by apply (Stable_put_self J n c b s th)).
  eapply mwp_mono; [apply (pend_curr_spec no_metairq J V n c b s1 (WQ_obj event)); try done|].
  - intros s2 Hp. split; [|by eapply HV].
    eapply (event_pend_ok s1 s2 o); [apply Hs1|done|apply lookup_insert_eq|done..|exact Hp].
  - cbv beta. intros b' r s' (Hs' & Hf' & Hr & _ & (th' & Hth & Et' & Hrv) & [Hk _]).
    destruct (Z.eqb_spec r 0) as [Hr0|Hr0]; ksteps.
    + eapply kwp_get_thread; [rewrite Et'; exact Hth|]. ksteps. split_and!; [done..|]. exists th'. split; [done|]. left. by rewrite Hrv.
    + split_and!; [done..|]. exists th'. split; [done|]. right. rewrite Z.land_0_l, Hrv.
      destruct Hr as [[? Hr]|Hg]; [done|]. destruct (Hk event _ E) as (o' & E' & Ek). cbn in Hg.
      rewrite E' in Hg. by destruct o'.
Qed.

(** Waiting for events returns at once when the condition is met, after the reset asked
    for, and otherwise waits; the result is the part of the wanted events that were posted, and
    0 when the time ran out. *)
Lemma k_event_wait_spec b s o events options timeout :
  is_first b = true -> began b = s ->
  Stable J n c b s -> objs s !! event = Some (O_event o) ->
  n = 0 /\ c <> z_idle_thread /\ api_timeout timeout \/ timeout = K_NO_WAIT ->
  let V := event_wait_effect events options timeout in
  let v := mkEventAbs (ev_events o) (waitq s (WQ_obj event)) in
  mwp (Guar J V) (Rely J c) b (k_event_wait_internal event events options timeout) s (fun b' r s' =>
    Stable J n c b' s' /\ effect V b' s' /\
    if is_first b' then r = (if satisfied events options v then Z.land (seen_events options v) events else 0)
    else exists th, resumed c b' th /\
      (swap_retval th = 0 /\ r = Z.land (th_events th) events \/
       swap_retval th = - EAGAIN /\ timeout <> K_FOREVER /\ r = 0)).
Proof.
  intros Hf Hb Hs E Hpre V v. unfold k_event_wait_internal. ksteps. apply kwp_assert.
  { rewrite (so_nested _ _ _ _ Hs). destruct Hpre as [(-> & _)| ->]; [done|]. apply orb_true_r. }
  pose proof (event_view_some s o E) as Hv. fold v in Hv.
  destruct (events =? 0) eqn:Hev.
  { ksteps. rewrite Hf. apply Z.eqb_eq in Hev. subst events. split_and!; [done| |by rewrite Z.land_0_r; destruct (satisfied _ _ _)].
    intros _. rewrite Hb. split_and!; [|done|constructor]. rewrite Hv. done. }
  ksteps. unfold z_impl_k_sched_current_thread_query. ksteps.
  set (s1 := set_irq_locked true s). assert (Hs1 : Stable J n c b s1) by (by apply (Stable_irq J)).
  assert (E1 : objs s1 !! event = Some (O_event o)) by done. eapply kwp_get_event; [exact E1|]. ksteps.
  eapply kwp_mono; [by apply (reset_spec b s1 o options)|]. cbv beta zeta. change (waitq s1 (WQ_obj event)) with (waitq s (WQ_obj event)). fold v.
  intros _ s2 (Hs2 & E2 & Ew2 & Et2 & Ec2 & Em2 & Eo2). ksteps. eapply kwp_get_event; [exact E2|]. cbn [ev_events].
  assert (Ewq : forall w, waitq s2 w = waitq s w) by (intros w; unfold waitq; by rewrite Ew2).
  fold (satisfied events options v).
  assert (HV2 : satisfied events options v || K_TIMEOUT_EQ timeout K_NO_WAIT = true -> forall i, V s (set_irq_locked i s2)).
  { intros Hnw i. split_and!; [| |constructor].
    - erewrite event_view_some by exact E2. rewrite Hv. cbn. unfold abs_event_wait. rewrite Hev, Hnw. cbn. do 2 f_equal. apply Ewq.
    - split; [exact Eo2|]. intros w _. apply Ewq. }
  destruct (satisfied events options v) eqn:Hsat; [|destruct (K_TIMEOUT_EQ timeout K_NO_WAIT) eqn:Hto].
  - ksteps. rewrite Hf. split_and!; [by apply (Stable_irq J)| |done]. intros _. rewrite Hb. by apply HV2.
  - ksteps. rewrite Hf. split_and!; [by apply (Stable_irq J)| |by rewrite Z.land_0_l]. intros _. rewrite Hb. by apply HV2.
  - destruct Hpre as [(H0 & Hid & Hapi)|Hno]; [|by rewrite Hno in Hto].
    destruct (so_thread _ _ _ _ Hs H0) as (Hc & _). change (current s1) with (current s). rewrite Hc.
    eapply mwp_mono; [apply (event_wait_spec V b s2 _ _ events options timeout Hs2 E2); try done; [by apply Z.eqb_neq|]|].
    + intros th s3 Et Hp _. rewrite Hb. split_and!; [| |constructor].
      * erewrite event_view_some by (rewrite (pf_objs _ _ _ _ Hp); exact E2). rewrite Hv. cbn. unfold abs_event_wait.
        rewrite Hev, Hsat, Hto. cbn. do 2 f_equal. rewrite (pf_waitq _ _ _ _ Hp), decide_True by done.
        change (waitq (put_thread c _ s2) (WQ_obj event)) with (waitq s2 (WQ_obj event)). rewrite Ewq.
        apply dumb_add_ext. intros u _. transitivity (prio_of s2 u); [by eapply (prio_of_insert s2)|]. unfold prio_of. by rewrite Et2.
      * destruct (pframe_only _ _ _ _ Hp) as [Ho Hw]. split; [intros a Ha; rewrite Ho by done; by apply Eo2|].
        intros w Hne. rewrite Hw by done. apply Ewq.
    + cbv beta. intros b' r s' (Hs' & Hf' & Hr). rewrite Hf'. split_and!; [done|intros Hf2; congruence|done].
Qed.
End EventSpec.
