(* ===== verification/MemSlab.v ===== *)
(** * Memory slabs (kernel/mem_slab.c)

    Fixed-size blocks in a caller-supplied buffer.  A free block holds in its first
    word the address of the next free one: the list is kept in the memory of the
    model just as the code keeps it in the blocks. *)

From S2P Require Import Prelude Timeout PriorityQ KState KLogic MemOps Sched SchedInv SchedOps Switch.

Local Open Scope Z_scope.

Definition sizeof_ptr : Z := 4.

Definition with_free_list (p : Z) (o : k_mem_slab) : k_mem_slab :=
  mkSlab (slab_buffer o) p (num_blocks o) (block_size o) (num_used o) (max_used o).
Definition with_num_used (n : Z) (o : k_mem_slab) : k_mem_slab :=
  mkSlab (slab_buffer o) (slab_free_list o) (num_blocks o) (block_size o) n (max_used o).
Definition with_max_used (n : Z) (o : k_mem_slab) : k_mem_slab :=
  mkSlab (slab_buffer o) (slab_free_list o) (num_blocks o) (block_size o) (num_used o) n.

Section MemSlab.
Context `{KConfig}.

(** The [while] loop of [create_free_list]; pointers have 32 bits. *)
Fixpoint create_free_list_loop (fuel : nat) (slab : addr) (p : Z) : K unit :=
  o ← get_slab slab;
  if p >=? slab_buffer o then
    match fuel with
    | O => kfail
    | S fuel =>
        mem_store p (slab_free_list o);;
        put_obj slab (O_slab (with_free_list p o));;
        create_free_list_loop fuel slab (u32 (p - block_size o))
    end
  else mret tt.

Definition create_free_list (slab : addr) : K Z :=
  o ← get_slab slab;
  if negb (Z.land (Z.lor (block_size o) (slab_buffer o)) (sizeof_ptr - 1) =? 0) then mret (- EINVAL)
  else
    put_obj slab (O_slab (with_free_list 0 o));;
    create_free_list_loop (Z.to_nat (num_blocks o)) slab
      (u32 (slab_buffer o + u32 (block_size o * u32 (num_blocks o - 1))));;
    mret 0.

(** [free_list] and [max_used] keep, until written, what the memory held before. *)
Definition k_mem_slab_init (slab : addr) (buffer block_size num_blocks : Z) (free_list max_used : Z)
    : K Z :=
  put_obj slab (O_slab (mkSlab buffer free_list num_blocks block_size 0
                          (if CONFIG_MEM_SLAB_TRACE_MAX_UTILIZATION then 0 else max_used)));;
  rc ← create_free_list slab;
  if rc <? 0 then mret rc
  else z_waitq_init (WQ_obj slab);; mret rc.

(** [offset] is compared as a [size_t] once it is known not to be negative. *)
Definition slab_ptr_is_good (o : k_mem_slab) (p : Z) : bool :=
  let offset := p - slab_buffer o in
  (offset >=? 0) && (offset <? u32 (block_size o * num_blocks o)) && (offset mod block_size o =? 0).

(** The result is the return value and, when it was written, [*mem]. *)
Definition k_mem_slab_alloc (slab : addr) (timeout : k_timeout_t) : M (Z * option Z) :=
  key ← lift k_spin_lock;
  o ← lift (get_slab slab);
  if negb (slab_free_list o =? 0) then
    let mem := slab_free_list o in
    next ← lift (mem_load (slab_free_list o));
    let o := with_num_used (u32 (num_used o + 1)) (with_free_list next o) in
    lift (kassert (((slab_free_list o =? 0) && (num_used o =? num_blocks o))
                   || slab_ptr_is_good o (slab_free_list o)));;
    let o := if CONFIG_MEM_SLAB_TRACE_MAX_UTILIZATION
             then with_max_used (Z.max (num_used o) (max_used o)) o else o in
    lift (put_obj slab (O_slab o));;
    lift (k_spin_unlock key);;
    mret (0, Some mem)
  else if K_TIMEOUT_EQ timeout K_NO_WAIT then (lift (k_spin_unlock key);; mret (- ENOMEM, Some 0))
  else
    result ← z_pend_curr Lock_other key (Some (WQ_obj slab)) timeout;
    if result =? 0 then
      curr ← lift (kget current);
      th ← lift (get_thread curr);
      mret (result, Some (swap_data th))
    else mret (result, None).

Definition k_mem_slab_free (slab : addr) (mem : Z) : M unit :=
  key ← lift k_spin_lock;
  o ← lift (get_slab slab);
  lift (kassert (slab_ptr_is_good o mem));;
  pending_thread ← lift (if slab_free_list o =? 0 then z_unpend_first_thread (WQ_obj slab) else mret None);
  match pending_thread with
  | Some t =>
      lift (z_thread_return_value_set_with_data t 0 mem);;
      lift (z_ready_thread t);;
      z_reschedule Lock_other key
  | None =>
      lift (mem_store mem (slab_free_list o));;
      lift (put_obj slab (O_slab (with_num_used (u32 (num_used o - 1)) (with_free_list mem o))));;
      lift (k_spin_unlock key)
  end.

(** [struct sys_memory_stats] as a triple: free, allocated and most ever allocated
    bytes. *)
Definition k_mem_slab_runtime_stats_get (slab : addr) : K (Z * Z * Z) :=
  key ← k_spin_lock;
  o ← get_slab slab;
  k_spin_unlock key;;
  mret (u32 (u32 (num_blocks o - num_used o) * block_size o), u32 (num_used o * block_size o),
        if CONFIG_MEM_SLAB_TRACE_MAX_UTILIZATION then u32 (max_used o * block_size o) else 0).

Definition k_mem_slab_runtime_stats_reset_max (slab : addr) : K Z :=
  key ← k_spin_lock;
  o ← get_slab slab;
  put_obj slab (O_slab (with_max_used (num_used o) o));;
  k_spin_unlock key;;
  mret 0.

Definition k_mem_slab_num_used_get (slab : addr) : K Z := o ← get_slab slab; mret (num_used o).
Definition k_mem_slab_max_used_get (slab : addr) : K Z :=
  o ← get_slab slab; mret (if CONFIG_MEM_SLAB_TRACE_MAX_UTILIZATION then max_used o else 0).
Definition k_mem_slab_num_free_get (slab : addr) : K Z :=
  o ← get_slab slab; mret (u32 (num_blocks o - num_used o)).
End MemSlab.

(** ** The free list

    [l] are the blocks reached from [p] through their first words. *)
Fixpoint chain (m : gmap Z Z) (p : Z) (l : list Z) : Prop :=
  match l with
  | [] => p = 0
  | b :: l => p = b /\ b <> 0 /\ exists next, m !! b = Some next /\ chain m next l
  end.

(** The blocks found by following at most [fuel] links. *)
Fixpoint walk (fuel : nat) (m : gmap Z Z) (p : Z) : list Z :=
  match fuel with
  | O => []
  | S fuel => if p =? 0 then [] else p :: walk fuel m (default 0 (m !! p))
  end.

Section Chain.
Implicit Types (m : gmap Z Z) (p : Z) (l : list Z).

Lemma chain_walk m p l fuel : chain m p l -> (length l <= fuel)%nat -> walk fuel m p = l.
Proof.
  revert p fuel. induction l as [|b l IH]; intros p fuel Hc Hl; cbn in *.
  - subst p. by destruct fuel.
  - destruct Hc as (-> & Hb & next & En & Hc). destruct fuel as [|fuel]; [lia|]. cbn.
    apply Z.eqb_neq in Hb. rewrite Hb, En. cbn. by rewrite (IH next) by (done || lia).
Qed.

Lemma chain_unique m p l l' : chain m p l -> chain m p l' -> l = l'.
Proof.
  intros H1 H2. pose proof (chain_walk m p l (length l + length l') H1 ltac:(lia)) as E1.
  pose proof (chain_walk m p l' (length l + length l') H2 ltac:(lia)) as E2. congruence.
Qed.

Lemma chain_ext m m' p l : (forall b, b ∈ l -> m' !! b = m !! b) -> chain m p l -> chain m' p l.
Proof.
  revert p. induction l as [|b l IH]; intros p He Hc; cbn in *; [done|].
  destruct Hc as (-> & Hb & next & En & Hc). split_and!; [done..|]. exists next. split.
  - rewrite He; [done|left].
  - apply IH; [|done]. intros x Hx. apply He. by right.
Qed.

Lemma chain_cons m b next l : b <> 0 -> b ∉ l -> chain m next l -> chain (<[b := next]> m) b (b :: l).
Proof.
  intros Hb Hn Hc. cbn. split_and!; [done..|]. exists next. split; [apply lookup_insert_eq|].
  eapply chain_ext; [|exact Hc]. intros x Hx. rewrite lookup_insert_ne; [done|]. by intros ->.
Qed.

Lemma chain_length m p l : chain m p l -> p = 0 <-> l = [].
Proof. destruct l; cbn; [done|]. intros (-> & Hb & _). naive_solver. Qed.
End Chain.

(** ** The invariant *)

Definition block (o : k_mem_slab) (i : Z) : Z := slab_buffer o + i * block_size o.

(** The blocks are words of memory below 4 GiB, at addresses that are not [NULL]. *)
Record layout_ok (m : gmap Z Z) (o : k_mem_slab) : Prop := {
  lo_buffer : 0 < slab_buffer o;
  lo_size : 0 < block_size o <= slab_buffer o;
  lo_blocks : 0 <= num_blocks o < 2 ^ 32;
  lo_end : slab_buffer o + block_size o * num_blocks o <= 2 ^ 32;
  lo_mapped : forall i, 0 <= i < num_blocks o -> is_Some (m !! block o i)
}.

Definition free_list_ok (m : gmap Z Z) (o : k_mem_slab) (l : list Z) : Prop :=
  chain m (slab_free_list o) l /\ NoDup l /\ Forall (fun p => slab_ptr_is_good o p = true) l /\
  num_used o + Z.of_nat (length l) = num_blocks o /\ 0 <= num_used o.

Definition slab_ok (s : kstate) (slab : addr) (o : k_mem_slab) : Prop :=
  layout_ok (mem s) o /\ exists l, free_list_ok (mem s) o l /\ (waitq s (WQ_obj slab) <> [] -> l = []).

(** The cells the kernel keeps its free lists in. *)
Definition free_cell (s : kstate) (p : Z) : Prop :=
  exists a o l, objs s !! a = Some (O_slab o) /\ chain (mem s) (slab_free_list o) l /\ p ∈ l.

Lemma good_block o p :
  0 < block_size o -> block_size o * num_blocks o < 2 ^ 32 -> 0 <= num_blocks o ->
  slab_ptr_is_good o p = true <-> exists i, 0 <= i < num_blocks o /\ p = block o i.
Proof.
  intros Hb Hn H0. unfold slab_ptr_is_good, block. rewrite wrap_u_small by nia. rewrite !andb_true_iff, Z.geb_le, Z.ltb_lt, Z.eqb_eq. split.
  - intros ([H1 H2] & H3). exists ((p - slab_buffer o) / block_size o).
    pose proof (Z.div_mod (p - slab_buffer o) (block_size o) ltac:(lia)). split; [|nia]. split.
    + by apply Z.div_pos.
    + apply Z.div_lt_upper_bound; lia.
  - intros (i & Hi & ->). replace (slab_buffer o + i * block_size o - slab_buffer o) with (i * block_size o) by lia.
    rewrite Z.mod_mul by lia. split; [split; nia|done].
Qed.

(** ** Specification

    A slab is a stack of free blocks, a count of the others, and a queue of waiters. *)
Record slab_abs := mkSlabAbs { abs_free_blocks : list Z; abs_used : Z; abs_lwaiters : list tid }.

Definition slab_view (slab : addr) (s : kstate) : option slab_abs :=
  match objs s !! slab with
  | Some (O_slab o) =>
      Some (mkSlabAbs (walk (Z.to_nat (num_blocks o)) (mem s) (slab_free_list o)) (num_used o) (waitq s (WQ_obj slab)))
  | _ => None
  end.

#[export] Instance slab_view_ok slab : View (slab_view slab) slab.
Proof. constructor. intros s s' Eo Ew Em. unfold slab_view. by rewrite Eo, Ew, Em. Qed.

Lemma slab_view_some slab s o l :
  objs s !! slab = Some (O_slab o) -> free_list_ok (mem s) o l ->
  slab_view slab s = Some (mkSlabAbs l (num_used o) (waitq s (WQ_obj slab))).
Proof.
  intros E (Hc & _ & _ & Hn & H0). unfold slab_view. rewrite E. by rewrite (chain_walk _ _ l) by (done || lia).
Qed.

Definition abs_alloc (prio : tid -> Z) (c : tid) (timeout : k_timeout_t) (v : slab_abs) : slab_abs :=
  match abs_free_blocks v with
  | _ :: l => mkSlabAbs l (abs_used v + 1) (abs_lwaiters v)
  | [] => if K_TIMEOUT_EQ timeout K_NO_WAIT then v
          else mkSlabAbs [] (abs_used v) (z_priq_dumb_add prio c (abs_lwaiters v))
  end.

(** A block that is freed goes to the first waiter, if there is one. *)
Definition abs_free (p : Z) (v : slab_abs) : slab_abs :=
  match abs_free_blocks v, abs_lwaiters v with
  | [], _ :: ts => mkSlabAbs [] (abs_used v) ts
  | l, ts => mkSlabAbs (p :: l) (abs_used v - 1) ts
  end.

Definition free_wakes (slab : addr) (s : kstate) : list tid :=
  match slab_view slab s with
  | Some (mkSlabAbs [] _ ts) => take 1 ts
  | _ => []
  end.

(** What slabs need of the invariant of all objects: [used] memory must not be freed. *)
Class SlabInv (J : kstate -> Prop) (used : kstate -> Z -> Prop) := {
  slab_get : forall s a o, J s -> objs s !! a = Some (O_slab o) -> slab_ok s a o;
  slab_put : forall s s' a o o', J s -> objs s !! a = Some (O_slab o) -> wframe s s' ->
    objs s' = <[a := O_slab o']> (objs s) -> (forall p, is_Some (mem s' !! p) <-> is_Some (mem s !! p)) ->
    (forall p, mem s' !! p <> mem s !! p -> ~ free_cell s p) -> slab_ok s' a o' ->
    (forall p, free_cell s' p -> free_cell s p \/ ~ used s p) -> J s';
  used_irq : forall s i p, used (set_irq_locked i s) p -> used s p;
  slab_pend : forall s s' t a o, J s -> objs s !! a = Some (O_slab o) -> pframe t (WQ_obj a) s s' ->
    slab_ok s' a o -> J s'
}.

Section Init.
Context `{KConfig}.
Context (slab : addr).
Implicit Types (s : kstate) (o : k_mem_slab).

(** The blocks from number [i] on. *)
Definition blocks (o : k_mem_slab) (i : Z) : list Z := block o <$> seqZ i (num_blocks o - i).

Lemma block_pos m o i : layout_ok m o -> 0 <= i -> 0 < block o i.
Proof. intros [] Hi. unfold block. nia. Qed.

Lemma blocks_cons m o i : layout_ok m o -> i < num_blocks o -> blocks o i = block o i :: blocks o (i + 1).
Proof.
  intros _ Hi. unfold blocks. rewrite seqZ_cons by lia. cbn. do 3 f_equal; lia.
Qed.

Lemma blocks_notin m o i : layout_ok m o -> block o i ∉ blocks o (i + 1).
Proof.
  intros []. unfold blocks, block. rewrite list_elem_of_fmap. intros (j & Hj & Hin). apply elem_of_seqZ in Hin. nia.
Qed.

Lemma blocks_nodup m o i : layout_ok m o -> NoDup (blocks o i).
Proof. intros []. unfold blocks. apply NoDup_fmap_2_strong; [|apply NoDup_seqZ]. unfold block. nia. Qed.

(** Building the list, from the last block down to block [k]. *)
Lemma create_loop_spec o : forall fuel k s fl,
  (Z.to_nat k <= fuel)%nat -> 0 <= k <= num_blocks o -> layout_ok (mem s) o ->
  objs s !! slab = Some (O_slab (with_free_list fl o)) -> chain (mem s) fl (blocks o k) ->
  kwp (create_free_list_loop fuel slab (block o (k - 1))) s (fun _ s' =>
    exists m fl', s' = set_objs (<[slab := O_slab (with_free_list fl' o)]> (objs s)) (set_mem m s) /\
      chain m fl' (blocks o 0) /\ (forall p, is_Some (m !! p) <-> is_Some (mem s !! p)) /\
      (forall p, m !! p <> mem s !! p -> exists i, 0 <= i < k /\ p = block o i)).
Proof.
  intros fuel. induction fuel as [|fuel IH]; intros k s fl Hf Hk Hl E Hc; cbn [create_free_list_loop]; kstep;
    (eapply kwp_get_slab; [exact E|]); cbn [slab_buffer with_free_list block_size slab_free_list].
  all: destruct (decide (k = 0)) as [->|Hk0]; [|try lia].
  1, 2: rewrite Z.geb_leb, (proj2 (Z.leb_gt _ _)) by (unfold block; destruct Hl; lia); ksteps; exists (mem s), fl; split_and!; try done;
    destruct s; cbn in *; f_equal; by rewrite insert_id.
  rewrite (proj2 (Z.geb_le _ _)) by (unfold block; destruct Hl; nia).
  assert (Hkk : k - 1 < num_blocks o) by lia. destruct (lo_mapped _ _ Hl (k - 1)) as [v Hv]; [lia|]. ksteps.
  apply kwp_store; [eauto|]. ksteps. set (p := block o (k - 1)) in *.
  assert (Hpos : 0 < p) by (apply (block_pos (mem s)); [done|lia]).
  assert (Hdom : forall q, is_Some (<[p := fl]> (mem s) !! q) <-> is_Some (mem s !! q)).
  { intros q. destruct (decide (q = p)) as [->|]; [rewrite lookup_insert_eq; split; eauto|by rewrite lookup_insert_ne]. }
  assert (Hnext : u32 (p - block_size o) = block o (k - 1 - 1)).
  { unfold p, block. destruct Hl. rewrite wrap_u_small by nia. lia. }
  rewrite Hnext. eapply kwp_mono; [apply (IH (k - 1) _ p); [lia|lia| |apply lookup_insert_eq|]|].
  - destruct Hl. split; try done. intros i Hi. apply Hdom. auto.
  - rewrite (blocks_cons (mem s)) by done. fold p. apply chain_cons; [lia|apply (blocks_notin (mem s)); done|].
    by replace (k - 1 + 1) with k by lia.
  - cbv beta. intros _ s' (m & fl' & -> & Hc' & Hd' & Hch). exists m, fl'. cbn in *. rewrite insert_insert_eq. split_and!; try done.
    + intros q. by rewrite Hd', Hdom.
    + intros q Hq. destruct (decide (q = p)) as [->|Hne]; [exists (k - 1); split; [lia|done]|].
      destruct (Hch q) as (i & Hi & ->); [by rewrite lookup_insert_ne|]. exists i. split; [lia|done].
Qed.

Lemma aligned_spec size buffer :
  0 <= size -> 0 <= buffer ->
  (Z.land (Z.lor size buffer) (sizeof_ptr - 1) =? 0) = (size mod 4 =? 0) && (buffer mod 4 =? 0).
Proof.
  intros Hs Hb. change (sizeof_ptr - 1) with (Z.ones 2). rewrite Z.land_lor_distr_l, !Z.land_ones by lia.
  change (2 ^ 2) with 4. apply eq_true_iff_eq. rewrite andb_true_iff, !Z.eqb_eq. by rewrite Z.lor_eq_0_iff.
Qed.

Lemma good_blocks m o : layout_ok m o -> Forall (fun p => slab_ptr_is_good o p = true) (blocks o 0).
Proof.
  intros []. apply Forall_forall. intros p. unfold blocks. rewrite list_elem_of_fmap. intros (j & -> & Hj%elem_of_seqZ).
  apply good_block; [lia..|]. exists j. split; [lia|done].
Qed.

Lemma full_list_ok m o o' :
  layout_ok m o -> slab_buffer o' = slab_buffer o -> block_size o' = block_size o -> num_blocks o' = num_blocks o ->
  num_used o' = 0 -> chain m (slab_free_list o') (blocks o 0) -> free_list_ok m o' (blocks o 0).
Proof.
  intros Hl Eb Es En Eu Hc. split_and!; [done|by apply (blocks_nodup m)| | |lia].
  - eapply Forall_impl; [by apply (good_blocks m)|]. intros p. unfold slab_ptr_is_good. by rewrite Eb, Es, En.
  - rewrite Eu, En. unfold blocks. rewrite length_fmap, length_seqZ. destruct Hl. lia.
Qed.

(** Initialising a slab links all of its blocks into the free list, inside its buffer
    and nowhere else, and refuses a misaligned buffer or block size with -EINVAL. *)
Theorem k_mem_slab_init_correct s buffer size n free max :
  let o := mkSlab buffer free n size 0 max in
  layout_ok (mem s) o ->
  kwp (k_mem_slab_init slab buffer size n free max) s (fun r s' =>
    if (size mod 4 =? 0) && (buffer mod 4 =? 0) then
      r = 0 /\ slab_view slab s' = Some (mkSlabAbs (blocks o 0) 0 []) /\
      (exists o', objs s' !! slab = Some (O_slab o') /\ slab_ok s' slab o' /\
         slab_buffer o' = buffer /\ block_size o' = size /\ num_blocks o' = n) /\
      threads s' = threads s /\ only_object slab s s' /\
      only_memory (fun p => exists i, 0 <= i < n /\ p = block o i) s s'
    else r = - EINVAL).
Proof.
  intros o Hl. unfold k_mem_slab_init, create_free_list. ksteps.
  set (o1 := mkSlab buffer free n size 0 (if CONFIG_MEM_SLAB_TRACE_MAX_UTILIZATION then 0 else max)).
  assert (Hl1 : layout_ok (mem s) o1) by (destruct Hl; by split). pose proof Hl as [Hb1 Hs1 Hn1 He1 _]. cbn in Hb1, Hs1, Hn1, He1.
  eapply kwp_get_slab; [apply lookup_insert_eq|]. cbn [block_size slab_buffer o1]. rewrite aligned_spec by lia.
  destruct (_ && _); cbn [negb]; [|by ksteps; rewrite (proj2 (Z.ltb_lt _ _)) by (unfold EINVAL; lia); ksteps]. ksteps.
  cbn [objs set_objs]. rewrite insert_insert_eq. fold o1.
  assert (Hp : u32 (slab_buffer o1 + u32 (block_size o1 * u32 (num_blocks o1 - 1))) = block o1 (n - 1)).
  { unfold block. cbn. destruct (decide (n = 0)) as [->|Hn0].
    - replace (u32 (0 - 1)) with (2 ^ 32 - 1) by done. unfold wrap_u. rewrite Z.add_mod_idemp_r by lia.
      replace (buffer + size * (2 ^ 32 - 1)) with (buffer - size + size * 2 ^ 32) by lia.
      rewrite Z.mod_add by lia. rewrite Z.mod_small by lia. lia.
    - rewrite (wrap_u_small 32 (n - 1)) by lia. rewrite (wrap_u_small 32 (size * (n - 1))) by nia. rewrite wrap_u_small by nia. lia. }
  match goal with |- kwp (create_free_list_loop ?f _ ?p) _ _ =>
    change f with (Z.to_nat n); replace p with (block o1 (n - 1)) by exact (eq_sym Hp) end.
  eapply kwp_mono; [apply (create_loop_spec o1 _ n _ 0); [done|cbn; lia|done|apply lookup_insert_eq|]|].
  { unfold blocks. cbn. by rewrite Z.sub_diag. }
  cbv beta. intros _ s' (m & fl & -> & Hc & Hd & Hch). cbn [objs set_objs]. rewrite insert_insert_eq. ksteps. cbn [Z.ltb Z.compare]. ksteps.
  assert (Hl2 : layout_ok m (with_free_list fl o1)) by (destruct Hl1; split; try done; intros i Hi; by apply Hd, lo_mapped0).
  assert (Hok : free_list_ok m (with_free_list fl o1) (blocks o1 0)) by (apply full_list_ok; try done; destruct Hl2; by split).
  assert (Hw : forall v, waitq (set_waitqs (<[WQ_obj slab := []]> v) (set_objs (<[slab := O_slab (with_free_list fl o1)]> (objs s)) (set_mem m s)))
    (WQ_obj slab) = []) by (intros v; unfold waitq; cbn; by rewrite lookup_insert_eq).
  split_and!; try done.
  - erewrite slab_view_some; [|apply lookup_insert_eq|exact Hok]. cbn. f_equal. by rewrite Hw.
  - exists (with_free_list fl o1). split_and!; [apply lookup_insert_eq| |done..]. split; [done|]. exists (blocks o1 0).
    split; [done|]. intros Hx. destruct (Hx (Hw _)).
  - split.
    + intros a Ha. cbn. by rewrite lookup_insert_ne.
    + intros w Hw'. unfold waitq. cbn. by rewrite lookup_insert_ne.
  - intros p Hp'. cbn. destruct (decide (m !! p = mem s !! p)) as [|Hne]; [done|]. destruct (Hp' (Hch p Hne)).
Qed.
End Init.

Section SlabSpec.
Context `{KConfig}.
Hypothesis no_metairq : CONFIG_NUM_METAIRQ_PRIORITIES = 0.
Context (J : kstate -> Prop) (used : kstate -> Z -> Prop) `{!ObjInv J, !SlabInv J used}.
Context (n : Z) (c : tid) (slab : addr).
Implicit Types (b : stretch) (s : kstate) (o : k_mem_slab).

(** The slab and the first word of a block change. *)
Lemma Stable_put_slab b s m o o' :
  Stable J n c b s -> objs s !! slab = Some (O_slab o) ->
  (forall p, is_Some (m !! p) <-> is_Some (mem s !! p)) -> (forall p, m !! p <> mem s !! p -> ~ free_cell s p) ->
  let s' := set_objs (<[slab := O_slab o']> (objs s)) (set_mem m s) in
  slab_ok s' slab o' -> (forall p, free_cell s' p -> free_cell s p \/ ~ used s p) -> Stable J n c b s'.
Proof.
  intros [[Hs Hn Hnb Hg Ht] HJ] E Hd Hm s' Hok Hf. split; [split; try done|].
  - by apply SInv_objs, SInv_mem.
  - eapply seg_trans; [exact Hg|]. eapply (seg_trans _ _ (set_mem m s)); [by apply seg_ext|].
    by apply (seg_put_obj _ (set_mem m s) slab (O_slab o)).
  - eapply (slab_put s s'); try done. split; try done. intros p. apply Hd.
Qed.

(** Taking the first free block. *)
Definition taken_slab (next : Z) (o : k_mem_slab) : k_mem_slab :=
  let o := with_num_used (u32 (num_used o + 1)) (with_free_list next o) in
  if CONFIG_MEM_SLAB_TRACE_MAX_UTILIZATION then with_max_used (Z.max (num_used o) (max_used o)) o else o.

Lemma taken_fields next o :
  slab_buffer (taken_slab next o) = slab_buffer o /\ block_size (taken_slab next o) = block_size o /\
  num_blocks (taken_slab next o) = num_blocks o /\ slab_free_list (taken_slab next o) = next /\
  num_used (taken_slab next o) = u32 (num_used o + 1).
Proof. unfold taken_slab. by destruct CONFIG_MEM_SLAB_TRACE_MAX_UTILIZATION. Qed.

Lemma layout_fields m o o' :
  slab_buffer o' = slab_buffer o -> block_size o' = block_size o -> num_blocks o' = num_blocks o ->
  layout_ok m o -> layout_ok m o'.
Proof. intros Eb Es En []. split; unfold block; rewrite ?Eb, ?Es, ?En; done. Qed.

Lemma good_fields o o' p :
  slab_buffer o' = slab_buffer o -> block_size o' = block_size o -> num_blocks o' = num_blocks o ->
  slab_ptr_is_good o' p = slab_ptr_is_good o p.
Proof. intros Eb Es En. unfold slab_ptr_is_good. by rewrite Eb, Es, En. Qed.

Lemma slab_taken_ok m o p l next :
  layout_ok m o -> free_list_ok m o (p :: l) -> m !! p = Some next ->
  free_list_ok m (taken_slab next o) l /\ num_used (taken_slab next o) = num_used o + 1 /\
  ((next =? 0) && (num_used o + 1 =? num_blocks o)) || slab_ptr_is_good o next = true.
Proof.
  intros Hl (Hc & Hnd & Hg & Hn & H0) Em. destruct (taken_fields next o) as (Eb & Es & En & Ef & Eu).
  assert (Eu' : u32 (num_used o + 1) = num_used o + 1) by (apply wrap_u_small; destruct Hl; cbn [length] in Hn; lia).
  destruct Hc as (_ & _ & next' & Em' & Hc). assert (next' = next) as -> by congruence.
  apply NoDup_cons in Hnd as [_ Hnd]. inversion_clear Hg as [|? ? _ Hg']. cbn [length] in Hn. split_and!.
  - split_and!; [by rewrite Ef|done| |rewrite Eu, Eu', En; lia|rewrite Eu, Eu'; lia].
    eapply Forall_impl; [exact Hg'|]. intros x. by rewrite (good_fields o).
  - by rewrite Eu.
  - destruct l as [|q l]; cbn in Hc.
    + subst next. cbn in *. rewrite (proj2 (Z.eqb_eq _ _)) by lia. done.
    + destruct Hc as (-> & _ & _). inversion_clear Hg' as [|? ? Hq _]. rewrite Hq. apply orb_true_r.
Qed.

Lemma objs_put_slab_free s o' m p :
  free_cell (set_objs (<[slab := O_slab o']> (objs s)) (set_mem m s)) p ->
  (exists l, chain m (slab_free_list o') l /\ p ∈ l) \/
  (exists a o l, a <> slab /\ objs s !! a = Some (O_slab o) /\ chain m (slab_free_list o) l /\ p ∈ l).
Proof.
  intros (a & o & l & Ea & Hc & Hp). cbn in Ea. destruct (decide (a = slab)) as [->|Hne].
  - rewrite lookup_insert_eq in Ea. injection Ea as ->. left. by exists l.
  - rewrite lookup_insert_ne in Ea by done. right. by exists a, o, l.
Qed.

Lemma alloc_take_spec b s o p l next :
  Stable J n c b s -> objs s !! slab = Some (O_slab o) -> free_list_ok (mem s) o (p :: l) -> mem s !! p = Some next ->
  let s2 := set_objs (<[slab := O_slab (taken_slab next o)]> (objs s)) s in
  Stable J n c b s2 /\ slab_view slab s2 = Some (mkSlabAbs l (num_used o + 1) (waitq s (WQ_obj slab))).
Proof.
  intros Hs E Hfl Em s2. destruct (slab_get s slab o (so_obj _ _ _ _ _ Hs) E) as (Hlay & l' & Hfl' & Hw).
  assert (l' = p :: l) as -> by (eapply chain_unique; [apply Hfl'|apply Hfl]).
  destruct (slab_taken_ok (mem s) o p l next Hlay Hfl Em) as (Hfl2 & Eu & _).
  destruct (taken_fields next o) as (Eb & Es & En & Ef & _). split.
  - replace s2 with (set_objs (<[slab := O_slab (taken_slab next o)]> (objs s)) (set_mem (mem s) s)) by (by destruct s).
    apply (Stable_put_slab b s (mem s) o); try done.
    + split; [by apply (layout_fields _ o)|]. exists l. split; [done|]. intros Hx. specialize (Hw Hx). done.
    + intros q [(l2 & Hc & Hq)|(a & o2 & l2 & _ & Ea & Hc & Hq)]%objs_put_slab_free; left.
      * exists slab, o, (p :: l). split_and!; [done|apply Hfl|]. right. rewrite Ef in Hc.
        assert (l2 = l) as -> by (eapply chain_unique; [exact Hc|]; rewrite <- Ef; apply Hfl2). done.
      * by exists a, o2, l2.
  - rewrite (slab_view_some slab s2 (taken_slab next o) l); [by rewrite Eu|apply lookup_insert_eq|done].
Qed.

(** k_mem_slab_alloc pops a block off the free list and counts it, or returns -ENOMEM,
    or waits for the block a later free hands over; it writes no memory. *)
Lemma k_mem_slab_alloc_spec b s o timeout :
  is_first b = true -> began b = s ->
  Stable J n c b s -> objs s !! slab = Some (O_slab o) ->
  n = 0 /\ c <> z_idle_thread /\ api_timeout timeout \/ timeout = K_NO_WAIT ->
  let V s s' := obj_effect (slab_view slab) slab (fun s => abs_alloc (prio_of s) c timeout) (fun _ => []) 0 s s' /\
                only_memory (fun _ => False) s s' in
  mwp (Guar J V) (Rely J c) b (k_mem_slab_alloc slab timeout) s (fun b' r s' =>
    Stable J n c b' s' /\ effect V b' s' /\
    if is_first b' then r = match abs_free_blocks <$> slab_view slab s with
                            | Some (p :: _) => (0, Some p)
                            | _ => (- ENOMEM, Some 0)
                            end
    else exists th, resumed c b' th /\
      (swap_retval th = 0 /\ r = (0, Some (swap_data th)) \/
       swap_retval th = - EAGAIN /\ timeout <> K_FOREVER /\ r = (- EAGAIN, None))).
Proof.
  intros Hf Hb Hs E Hpre V. unfold k_mem_slab_alloc. ksteps.
  set (s1 := set_irq_locked true s). assert (Hs1 : Stable J n c b s1) by (by apply (Stable_irq J)).
  assert (E1 : objs s1 !! slab = Some (O_slab o)) by done. eapply kwp_get_slab; [exact E1|].
  destruct (slab_get s1 slab o (so_obj _ _ _ _ _ Hs1) E1) as (Hlay & l & Hfl & Hw).
  pose proof (slab_view_some slab s o l E Hfl) as Hv. rewrite Hv. cbn [fmap option_fmap option_map abs_free_blocks].
  destruct l as [|p l].
  - pose proof Hfl as (Hz & _). cbn in Hz. rewrite Hz. cbn [Z.eqb negb].
    destruct (K_TIMEOUT_EQ timeout K_NO_WAIT) eqn:Hto.
    + ksteps. rewrite Hf. split_and!; [by do 2 apply (Stable_irq J)| |done]. intros _. rewrite Hb. split; [|done].
      split_and!; [|done|constructor]. transitivity (slab_view slab s); [done|]. rewrite Hv. cbn. unfold abs_alloc. cbn. by rewrite Hto.
    + destruct Hpre as [(H0 & Hid & Hapi)|Hno]; [|by rewrite Hno in Hto]. kstep.
      eapply mwp_mono; [apply (pend_curr_spec no_metairq J V n c b s1 (WQ_obj slab)); try done|].
      * intros s2 Hp. split.
        -- eapply slab_pend; [apply Hs1|exact E1|exact Hp|]. rewrite <- (pf_mem _ _ _ _ Hp) in Hfl, Hlay. split; [done|]. by exists [].
        -- intros _. rewrite Hb. split; [|intros p _; by rewrite (pf_mem _ _ _ _ Hp)]. split_and!; [| |constructor].
           ++ rewrite (slab_view_some slab s2 o []); [|by rewrite (pf_objs _ _ _ _ Hp)|by rewrite (pf_mem _ _ _ _ Hp)]. rewrite Hv. cbn.
              unfold abs_alloc. cbn. rewrite Hto. do 2 f_equal. rewrite (pf_waitq _ _ _ _ Hp), decide_True by done. done.
           ++ exact (pframe_only _ _ _ _ Hp).
      * cbv beta. intros b' r s' (Hs' & Hf' & Hr & _ & (th & Hth & Et & Hrv) & [Hk _]). destruct (Hk slab _ E1) as (o' & E' & Ek).
        assert (Hr' : r = 0 \/ r = - EAGAIN /\ timeout <> K_FOREVER).
        { destruct Hr as [Hr|Hg]; [by right|left]. cbn in Hg. rewrite E' in Hg. by destruct o'. }
        destruct (r =? 0) eqn:Hr0; ksteps.
        -- destruct (so_thread _ _ _ _ Hs' H0) as (Hc' & _). rewrite Hc'.
           eapply kwp_get_thread; [rewrite Et; exact Hth|]. ksteps. rewrite Hf'. split_and!; [done|by intros Hf2; congruence|].
           exists th. split; [done|]. left. apply Z.eqb_eq in Hr0. by rewrite Hrv, Hr0.
        -- rewrite Hf'. split_and!; [done|by intros Hf2; congruence|]. exists th. split; [done|]. right. apply Z.eqb_neq in Hr0.
           rewrite Hrv. destruct Hr' as [|[-> ?]]; done.
  - pose proof Hfl as (Hc & _). cbn in Hc. destruct Hc as (Hz & Hnz & next & Em & _). rewrite Hz.
    apply Z.eqb_neq in Hnz. rewrite Hnz. cbn [negb]. ksteps. eapply kwp_load; [exact Em|]. ksteps.
    destruct (slab_taken_ok (mem s1) o p l next Hlay Hfl Em) as (_ & Eu & Has).
    destruct (alloc_take_spec b s1 o p l next Hs1 E1 Hfl Em) as [Hs2 Hv2]. destruct (taken_fields next o) as (_ & _ & _ & _ & Eu').
    apply kwp_assert.
    { cbn [slab_free_list num_used num_blocks with_num_used with_free_list]. rewrite <- Eu', Eu. exact Has. }
    ksteps. rewrite Hf. split_and!; [by apply (Stable_irq J)| |done]. intros _. rewrite Hb. split; [|done]. split_and!; [| |constructor].
    + rewrite Hv. etransitivity; [exact Hv2|]. done.
    + split; [|done]. intros a' Ha. cbn. by rewrite lookup_insert_ne.
Qed.

(** *** Free *)

(** Some block is in use when a good one is not on the free list. *)
Lemma used_pos m o l p :
  layout_ok m o -> free_list_ok m o l -> slab_ptr_is_good o p = true -> p ∉ l -> 0 < num_used o.
Proof.
  intros Hlay (Hc & Hnd & Hg & Hn & H0) Hp Hnl. pose proof Hlay as [].
  assert (Hb : forall q, slab_ptr_is_good o q = true -> q ∈ blocks o 0).
  { intros q (i & Hi & ->)%good_block; [|lia..]. unfold blocks. apply list_elem_of_fmap. exists i. split; [done|].
    apply elem_of_seqZ. lia. }
  assert (Hsub : p :: l ⊆+ blocks o 0).
  { apply NoDup_submseteq; [by constructor|]. intros q [->|Hq]%elem_of_cons; [by apply Hb|].
    rewrite Forall_forall in Hg. by apply Hb, Hg. }
  apply submseteq_length in Hsub. unfold blocks in Hsub. rewrite length_fmap, length_seqZ in Hsub. cbn [length] in Hsub. lia.
Qed.

Definition freed_slab (p : Z) (o : k_mem_slab) : k_mem_slab :=
  with_num_used (u32 (num_used o - 1)) (with_free_list p o).

Lemma free_push_spec b s o l p :
  Stable J n c b s -> objs s !! slab = Some (O_slab o) -> free_list_ok (mem s) o l -> slab_ptr_is_good o p = true ->
  ~ free_cell s p -> ~ used s p -> waitq s (WQ_obj slab) = [] ->
  let s2 := set_objs (<[slab := O_slab (freed_slab p o)]> (objs s)) (set_mem (<[p := slab_free_list o]> (mem s)) s) in
  is_Some (mem s !! p) /\ Stable J n c b s2 /\ slab_view slab s2 = Some (mkSlabAbs (p :: l) (num_used o - 1) []).
Proof.
  intros Hs E Hfl Hp Hnf Hnu Ew s2. destruct (slab_get s slab o (so_obj _ _ _ _ _ Hs) E) as (Hlay & _).
  assert (Hnl : p ∉ l) by (intros Hin; apply Hnf; exists slab, o, l; split_and!; [done|apply Hfl|done]).
  pose proof (used_pos _ _ _ _ Hlay Hfl Hp Hnl) as Hpos. pose proof Hfl as (Hc & Hnd & Hg & Hn & H0). pose proof Hlay as [].
  pose proof Hp as (i & Hi & Ep)%good_block; [|lia..].
  assert (Hm : is_Some (mem s !! p)) by (rewrite Ep; by apply lo_mapped0).
  assert (Hp0 : p <> 0) by (rewrite Ep; pose proof (block_pos (mem s) o i Hlay); lia).
  assert (Eu : u32 (num_used o - 1) = num_used o - 1) by (apply wrap_u_small; lia).
  assert (Hd : forall q, is_Some (<[p := slab_free_list o]> (mem s) !! q) <-> is_Some (mem s !! q)).
  { intros q. destruct (decide (q = p)) as [->|]; [|by rewrite lookup_insert_ne]. rewrite lookup_insert_eq. split; eauto. }
  assert (Hch : forall q, <[p := slab_free_list o]> (mem s) !! q <> mem s !! q -> q = p).
  { intros q Hq. destruct (decide (q = p)); [done|]. by rewrite lookup_insert_ne in Hq. }
  assert (Hfl2 : free_list_ok (mem s2) (freed_slab p o) (p :: l)).
  { split_and!; [by apply chain_cons|by constructor|by constructor| |]; cbn [freed_slab num_used with_num_used num_blocks with_free_list length];
      rewrite Eu; lia. }
  split_and!; [done| |].
  - apply (Stable_put_slab b s _ o); [done|done|done|by intros q ->%Hch| |].
    + split; [destruct Hlay; split; try done; intros j Hj; by apply Hd, lo_mapped0|]. exists (p :: l). split; [done|].
      intros Hx. destruct (Hx Ew).
    + intros q [(l2 & Hc2 & Hq)|(a & o2 & l2 & _ & Ea & Hc2 & Hq)]%objs_put_slab_free.
      * assert (l2 = p :: l) as -> by (eapply chain_unique; [exact Hc2|apply Hfl2]).
        apply elem_of_cons in Hq as [->|Hq]; [by right|left]. by exists slab, o, l.
      * left. destruct (slab_get s a o2 (so_obj _ _ _ _ _ Hs) Ea) as (_ & l0 & (Hc0 & _) & _).
        assert (Hpl : p ∉ l0) by (intros Hin; apply Hnf; by exists a, o2, l0).
        exists a, o2, l0. split_and!; [done..|]. assert (l2 = l0) as <-; [|done]. eapply chain_unique; [exact Hc2|].
        eapply chain_ext; [|exact Hc0]. intros x Hx. rewrite lookup_insert_ne; [done|]. by intros ->.
  - rewrite (slab_view_some slab s2 (freed_slab p o) (p :: l)); [|apply lookup_insert_eq|done]. cbn. do 2 f_equal; [done|exact Ew].
Qed.

Definition free_effect (p : Z) (s s' : kstate) : Prop :=
  obj_effect (slab_view slab) slab (fun _ => abs_free p) (free_wakes slab) 0 s s' /\
  given p (free_wakes slab) s s' /\ only_memory (fun q => q = p) s s'.

#[export] Instance free_effect_ok p : Effect (free_effect p).
Proof.
  apply effect_and; [apply obj_effect_ok, _|apply effect_and; [apply _|]]. apply (only_memory_ok (fun _ q => q = p)).
Qed.

(** Handing a block to the first waiter. *)
Lemma free_wake_spec b s o t q th key p :
  is_first b = true -> (forall s', free_effect p s s' -> free_effect p (began b) s') ->
  Stable J n c b s -> objs s !! slab = Some (O_slab o) -> free_list_ok (mem s) o [] ->
  waitq s (WQ_obj slab) = t :: q -> threads s !! t = Some th -> pended_on th = Some (WQ_obj slab) ->
  let V := free_effect p in
  mwp (Guar J V) (Rely J c) b
    (lift (z_thread_return_value_set_with_data t 0 p);; lift (z_ready_thread t);; z_reschedule Lock_other key)
    (unpended_st t th (WQ_obj slab) s) (fun b' _ s' => Stable J n c b' s' /\ effect V b' s').
Proof.
  intros Hf Hbegan Hs E Hfl Ew Et Ep V. unfold z_thread_return_value_set_with_data, arch_thread_return_value_set. ksteps.
  eapply kwp_upd_thread; [apply lookup_insert_eq|]. ksteps. eapply kwp_upd_thread; [apply lookup_insert_eq|]. ksteps.
  cbn [threads set_threads]. rewrite insert_insert_eq.
  eapply kwp_mono; [apply (wake_spec no_metairq J n c b s t th (WQ_obj slab)
    (with_swap_data p (with_swap_retval 0 (unpended th)))); try done|].
  { cbn [granted swap_retval with_swap_retval with_swap_data]. by rewrite E. }
  cbv beta. intros _ s2 (Hs2 & Hwk & th3 & E3 & Hr3 & Hd3 & Hp3). ksteps.
  eapply mwp_mono; [apply (reschedule_spec J V); [done|]|by cbv beta; intros b' _ s' (? & ? & _)].
  intros _. apply Hbegan. pose proof (slab_view_some slab s o [] E Hfl) as Hv.
  assert (Hpw : free_wakes slab s = [t]) by (unfold free_wakes; rewrite Hv; by rewrite Ew). split_and!.
  - split_and!; [|exact (woken_only _ _ _ _ Hwk)|rewrite Hpw; constructor; [intros _; by exists th3|constructor]].
    rewrite (slab_view_some slab s2 o []); [|by rewrite (wk_objs _ _ _ _ Hwk)|by rewrite (wk_mem _ _ _ _ Hwk)].
    rewrite Hv. cbn. unfold abs_free. cbn. rewrite Ew. do 2 f_equal.
    eapply (woken_head t q (WQ_obj slab) s); [apply Hs|done|done].
  - unfold given. rewrite Hpw. constructor; [|constructor]. intros _. rewrite E3. cbn. by rewrite Hd3.
  - intros x _. by rewrite (wk_mem _ _ _ _ Hwk).
Qed.

(** k_mem_slab_free hands the block to the first waiter or links it in front of the
    free list, writing only the block itself, so that no block is on the free list twice or in
    use while free. *)
Lemma k_mem_slab_free_spec b s o p :
  is_first b = true -> began b = s ->
  Stable J n c b s -> objs s !! slab = Some (O_slab o) ->
  slab_ptr_is_good o p = true -> ~ free_cell s p -> ~ used s p ->
  let V := free_effect p in
  mwp (Guar J V) (Rely J c) b (k_mem_slab_free slab p) s (fun b' _ s' => Stable J n c b' s' /\ effect V b' s').
Proof.
  intros Hf Hb Hs E Hp Hnf Hnu V. unfold k_mem_slab_free. ksteps.
  set (s1 := set_irq_locked true s). assert (Hs1 : Stable J n c b s1) by (by apply (Stable_irq J)).
  assert (E1 : objs s1 !! slab = Some (O_slab o)) by done. eapply kwp_get_slab; [exact E1|]. ksteps.
  apply kwp_assert; [done|]. ksteps. destruct (slab_get s1 slab o (so_obj _ _ _ _ _ Hs1) E1) as (Hlay & l & Hfl & Hw).
  pose proof (slab_view_some slab s o l E Hfl) as Hv. pose proof (chain_length _ _ _ (proj1 Hfl)) as Hl0.
  assert (Hpush : waitq s (WQ_obj slab) = [] -> kwp (mem_store p (slab_free_list o)) s1 (fun _ s' =>
    kwp (put_obj slab (O_slab (freed_slab p o))) s' (fun _ s' => forall key,
    Stable J n c b (set_irq_locked key s') /\ effect V b (set_irq_locked key s')))).
  { intros Ew. destruct (free_push_spec b s1 o l p) as (Hm & Hs2 & Hv2); [done..|by intros Hu%used_irq|done|]. apply kwp_store; [done|]. ksteps.
    intros key. split; [by apply (Stable_irq J)|]. intros _. rewrite Hb.
    assert (Hpw : free_wakes slab s = []) by (unfold free_wakes; rewrite Hv, Ew; by destruct l). split_and!.
    - split_and!; [|split; [|done]|by rewrite Hpw].
      + etransitivity; [exact Hv2|]. rewrite Hv. cbn. unfold abs_free. cbn. rewrite Ew. by destruct l.
      + intros a' Ha. cbn. by rewrite lookup_insert_ne.
    - unfold given. rewrite Hpw. constructor.
    - intros q Hq. cbn. by rewrite lookup_insert_ne. }
  destruct (slab_free_list o =? 0) eqn:Hz.
  - apply Z.eqb_eq, Hl0 in Hz. subst l. apply unpend_first_spec; [apply Hs1| |].
    + intros Ew. ksteps. eapply kwp_mono; [by apply Hpush|]. cbv beta. intros _ s2 Hk. ksteps. unfold kwp in Hk. apply Hk.
    + intros t q th Ew Et Ep. by apply (free_wake_spec b s1 o t q th); [|rewrite Hb|..].
  - ksteps. eapply kwp_mono; [apply Hpush|]; [|cbv beta; intros _ s2 Hk; ksteps; apply Hk].
    destruct (waitq s (WQ_obj slab)) eqn:Ew; [done|]. apply Z.eqb_neq in Hz. destruct Hz. apply Hl0, Hw.
    change (waitq s1 (WQ_obj slab)) with (waitq s (WQ_obj slab)). by rewrite Ew.
Qed.
End SlabSpec.
