(* ===== verification/KInv.v ===== *)
(** * The invariant of the kernel's objects

    [OInv] puts together what each kind of object promises about itself and its
    waiters.  It discharges the interfaces the objects' own theorems are proved
    against: [ObjInv] and [MemInv] of [Switch], a [Holds] for each kind, and
    [SlabInv] for memory slabs, whose free lists live in memory that nothing else
    may write. *)

From S2P Require Import Prelude Timeout PriorityQ KState KLogic MemOps Sched SchedInv SchedOps Switch.
From S2P Require Import Sem Mutex Condvar Stack Msgq Events MemSlab.

Local Open Scope Z_scope.

(** Memory that holds no link of a free list. *)
Definition writable (s : kstate) (p : Z) : Prop := ~ free_cell s p.

(** Memory the kernel itself uses for the objects. *)
Definition obj_uses (s : kstate) (a : addr) (o : kobj) (p : Z) : Prop :=
  match o with
  | O_stack o => stk_base o <= p < stk_top o
  | O_msgq q => within (buffer_start q) (max_msgs q * msg_size q) p \/
      exists t, t ∈ waitq s (WQ_obj a) /\ within (waiter_buffer s t) (msg_size q) p
  | _ => False
  end.
Definition used (s : kstate) (p : Z) : Prop := exists a o, objs s !! a = Some o /\ obj_uses s a o p.

(** What an object sees when something else changes. *)
Record local_frame (a : addr) (s s' : kstate) : Prop := {
  lf_mem : forall p, is_Some (mem s !! p) -> is_Some (mem s' !! p);
  lf_dom : forall t, is_Some (threads s !! t) -> is_Some (threads s' !! t);
  lf_waitq : waitq s' (WQ_obj a) `sublist_of` waitq s (WQ_obj a);
  lf_data : forall t, t ∈ waitq s' (WQ_obj a) -> waiter_data <$> threads s' !! t = waiter_data <$> threads s !! t
}.

Lemma wframe_local a s s' : wframe s s' -> local_frame a s s'.
Proof. intros []. split; [done|intros t; by apply wf_dom|done|]. intros t. apply wf_data. Qed.

Lemma pframe_local w a' t s s' : pframe t w s s' -> w <> WQ_obj a' -> local_frame a' s s'.
Proof.
  intros Hp Hne. assert (Ewq : waitq s' (WQ_obj a') = waitq s (WQ_obj a')).
  { rewrite (pf_waitq _ _ _ _ Hp), decide_False; [done|congruence]. }
  assert (Hth : forall u, (is_Some (threads s !! u) -> is_Some (threads s' !! u)) /\
    (is_Some (threads s !! u) -> waiter_data <$> threads s' !! u = waiter_data <$> threads s !! u)).
  { intros u. destruct (decide (u = t)) as [->|Hu]; [|by rewrite (pf_other _ _ _ _ Hp)].
    destruct (threads s !! t) as [th|] eqn:E; [|by split; intros []]. destruct (pf_self _ _ _ _ Hp th E) as (th' & -> & Hd & _).
    cbn. rewrite Hd. split; eauto. }
  split; [by rewrite (pf_mem _ _ _ _ Hp)|intros u; by apply Hth|by rewrite Ewq|].
  intros u _. destruct (threads s !! u) as [th|] eqn:E.
  - rewrite <- E. apply Hth. by rewrite E.
  - rewrite (pf_other _ _ _ _ Hp), E; [done|]. intros ->. pose proof (pf_dom _ _ _ _ Hp) as []. congruence.
Qed.

Section KInv.
Context `{KConfig}.
Implicit Types (s : kstate) (a : addr) (o : kobj) (p : Z).

Definition obj_ok (s : kstate) (a : addr) (o : kobj) : Prop :=
  match o with
  | O_sem o => sem_ok s a o
  | O_mutex o => mutex_ok s a o
  | O_condvar => True
  | O_msgq o => msgq_ok writable s a o
  | O_stack o => stack_ok writable s a o
  | O_event o => event_ok s a o
  | O_slab o => slab_ok s a o
  end.

Definition OInv (s : kstate) : Prop :=
  wake_ok s /\ forall a o, objs s !! a = Some o -> obj_ok s a o.

(** ** Frames *)

(** The free lists are as they were. *)
Definition free_kept (s s' : kstate) : Prop := forall p, free_cell s p -> mem s' !! p = mem s !! p.

Definition same_slabs (s s' : kstate) : Prop :=
  forall a (o : k_mem_slab), objs s' !! a = Some (O_slab o) <-> objs s !! a = Some (O_slab o).

Lemma free_cell_stable s s' p :
  OInv s -> same_slabs s s' -> free_kept s s' -> free_cell s' p -> free_cell s p.
Proof.
  intros [_ HJ] Hsl Hk (a & o & l & Ea & Hc & Hp). apply Hsl in Ea. exists a, o.
  destruct (HJ a _ Ea) as (_ & l0 & (Hc0 & _) & _). exists l0. split_and!; [done..|].
  assert (l = l0) as <-; [|done]. eapply chain_unique; [exact Hc|]. eapply chain_ext; [|exact Hc0].
  intros q Hq. apply Hk. by exists a, o, l0.
Qed.

Lemma region_frame s s' p k :
  (forall q, is_Some (mem s !! q) -> is_Some (mem s' !! q)) ->
  (forall q, within p k q -> writable s q -> writable s' q) -> region writable s p k -> region writable s' p k.
Proof. intros Hm Hw [H1 H2]. split; intros q Hq; auto. Qed.

Lemma waiter_buffer_frame a s s' t :
  local_frame a s s' -> t ∈ waitq s' (WQ_obj a) -> waiter_buffer s' t = waiter_buffer s t.
Proof.
  intros Hf Ht. pose proof (lf_data _ _ _ Hf t Ht) as Hd. unfold waiter_buffer.
  destruct (threads s' !! t), (threads s !! t); try done. by injection Hd.
Qed.

Lemma met_frame a s s' t ev :
  local_frame a s s' -> t ∈ waitq s' (WQ_obj a) ->
  met ev s' t = met ev s t /\ (th_events <$> threads s' !! t) = (th_events <$> threads s !! t).
Proof.
  intros Hf Ht. pose proof (lf_data _ _ _ Hf t Ht) as Hd. unfold met.
  destruct (threads s' !! t), (threads s !! t); try done. cbn. injection Hd as _ -> ->. done.
Qed.

Lemma sublist_nonempty {A} (l1 l2 : list A) : l1 `sublist_of` l2 -> l1 <> [] -> l2 <> [].
Proof. intros Hs Hn ->. apply Hn. by apply sublist_nil_r in Hs. Qed.

(** An object that is not touched is in order as before. *)
Lemma obj_ok_frame s s' a o :
  local_frame a s s' -> free_kept s s' ->
  (forall p, obj_uses s a o p -> writable s p -> writable s' p) ->
  objs s !! a = Some o -> obj_ok s a o -> obj_ok s' a o.
Proof.
  intros Hf Hk Hw E. pose proof (lf_waitq _ _ _ Hf) as Hsub. pose proof (lf_mem _ _ _ Hf) as Hm.
  assert (Hin : forall t, t ∈ waitq s' (WQ_obj a) -> t ∈ waitq s (WQ_obj a)) by (intros t Ht; by eapply elem_of_sublist).
  pose proof (sublist_nonempty _ _ Hsub) as Hne. destruct o as [o|o| |o|o|o|o]; cbn [obj_ok].
  - intros (H1 & H2 & H3). split; [done|]. split; [done|]. auto.
  - intros (H1 & H2 & H3 & H4 & H5). split; [done|]. split; [done|]. split; [done|]. split; [auto|].
    intros t Ht. destruct (H5 t Ht) as (? & ? & Hn). split_and!; [done|by apply (lf_dom _ _ _ Hf)|auto].
  - done.
  - intros (H1 & H2 & H3 & H4). split_and!; [done| |auto|].
    + eapply region_frame; [done| |done]. intros p Hp. apply Hw. by left.
    + intros t Ht. rewrite (waiter_buffer_frame a s) by done. eapply region_frame; [done| |by apply H4, Hin].
      intros p Hp. apply Hw. right. eauto.
  - intros (k & m & Hkm & Hn & Ht & Hc & Hwq). exists k, m. split_and!; [done..| |auto].
    intros i Hi p. destruct (Hc i Hi) as [H1 H2]. split; [auto|]. apply Hw; [|done]. subst p. cbn. rewrite Ht.
    unfold sizeof_stack_data_t. lia.
  - intros [H1 H2]. split; [done|]. apply Forall_forall. intros t Ht. rewrite Forall_forall in H2.
    destruct (met_frame a s s' t (ev_events o) Hf Ht) as [-> ->]. auto.
  - intros ([] & l & (Hc & Hl) & Hwq). split; [split; auto|]. exists l. split; [|auto]. split; [|done].
    eapply chain_ext; [|exact Hc]. intros b Hb. apply Hk. by exists a, o, l.
Qed.

(** Every object is untouched or was left in order. *)
Lemma OInv_step s s' :
  OInv s -> wake_ok s' -> free_kept s s' -> (forall p, used s p -> writable s p -> writable s' p) ->
  (forall a o, objs s' !! a = Some o -> (objs s !! a = Some o /\ local_frame a s s') \/ obj_ok s' a o) -> OInv s'.
Proof.
  intros [_ HJ] Hwk Hk Hu Ho. split; [done|]. intros a o E. destruct (Ho a o E) as [[E0 Hf]|]; [|done].
  eapply obj_ok_frame; eauto. intros p Hp. apply Hu. by exists a, o.
Qed.

Lemma writable_kept s s' p : OInv s -> same_slabs s s' -> free_kept s s' -> writable s p -> writable s' p.
Proof. intros HJ Hs Hk Hw Hc. by eapply Hw, free_cell_stable. Qed.

Lemma free_kept_writable s s' :
  (forall p, mem s' !! p <> mem s !! p -> writable s p) -> free_kept s s'.
Proof.
  intros Hw p Hp. destruct (decide (mem s' !! p = mem s !! p)) as [|Hne]; [done|]. by destruct (Hw p Hne).
Qed.

Lemma free_kept_mem s s' : mem s' = mem s -> free_kept s s'.
Proof. intros Em p _. by rewrite Em. Qed.

#[export] Instance OInv_mem : MemInv OInv writable.
Proof.
  split.
  - intros s m HJ Hm Hw. pose proof (free_kept_writable s (set_mem m s) Hw) as Hk.
    eapply OInv_step; [done|apply HJ|done| |].
    + intros p _. by apply writable_kept.
    + intros a o E. left. split; [done|]. split; try done. intros p. apply Hm.
  - intros s s' p HJ Hsl Hw. apply writable_kept; [done..|]. by apply free_kept_writable.
Qed.

(** A change to one object that is not a slab. *)
Lemma OInv_put s s' a o o' :
  OInv s -> objs s !! a = Some o -> wframe s s' -> objs s' = <[a := o']> (objs s) -> mem s' = mem s ->
  (forall x, o <> O_slab x) -> (forall x, o' <> O_slab x) -> obj_ok s' a o' -> OInv s'.
Proof.
  intros HJ E Hf Eo Em Hn Hn' Hok.
  eapply OInv_step; [done|apply (wf_wake _ _ Hf), HJ|by apply free_kept_mem| |].
  - intros p _. apply writable_kept; [done| |by apply free_kept_mem]. intros a' x. rewrite Eo.
    destruct (decide (a' = a)) as [->|]; [|by rewrite lookup_insert_ne].
    rewrite lookup_insert_eq, E. split; intros [= ->]; [by destruct (Hn' x)|by destruct (Hn x)].
  - intros a' x. rewrite Eo. destruct (decide (a' = a)) as [->|].
    + rewrite lookup_insert_eq. intros [= <-]. by right.
    + rewrite lookup_insert_ne by done. intros E'. left. split; [done|by apply wframe_local].
Qed.

(** A thread starts to wait. *)
Lemma OInv_pframe s s' t w :
  OInv s -> pframe t w s s' -> (forall a o, w = WQ_obj a -> objs s !! a = Some o -> obj_ok s' a o) -> OInv s'.
Proof.
  intros HJ Hp Hok. pose proof (pf_mem _ _ _ _ Hp) as Em.
  eapply OInv_step; [done| |by apply free_kept_mem| |].
  - intros u thu Eu. destruct HJ as [Hwk _]. destruct (decide (u = t)) as [->|Hu].
    + destruct (pf_dom _ _ _ _ Hp) as [th Et]. destruct (pf_self _ _ _ _ Hp th Et) as (th' & E' & _ & _ & _ & _ & Hw).
      assert (thu = th') as -> by congruence. rewrite Hw. by apply (Hwk t).
    + apply (Hwk u). by rewrite <- (pf_other _ _ _ _ Hp).
  - intros p _. apply writable_kept; [done| |by apply free_kept_mem]. intros a' x. by rewrite (pf_objs _ _ _ _ Hp).
  - intros a' x. rewrite (pf_objs _ _ _ _ Hp). intros E'. destruct (decide (w = WQ_obj a')) as [Hw|].
    + right. by apply Hok.
    + left. split; [done|]. by eapply pframe_local.
Qed.

Lemma OInv_pend s s' t a o :
  OInv s -> objs s !! a = Some o -> pframe t (WQ_obj a) s s' -> obj_ok s' a o -> OInv s'.
Proof.
  intros HJ E Hp Hok. eapply OInv_pframe; [done..|]. intros a' o' [= <-] E'. congruence.
Qed.

#[export] Instance OInv_obj : ObjInv OInv.
Proof.
  split; [by intros s []| |by intros s s' t u HJ Hp; eapply OInv_pframe]. intros s s' Hf Eo Em HJ.
  eapply OInv_step; [done|apply (wf_wake _ _ Hf), HJ|by apply free_kept_mem| |].
  - intros p _. apply writable_kept; [done| |by apply free_kept_mem]. intros a o. by rewrite Eo.
  - intros a o E. left. rewrite <- Eo. split; [done|by apply wframe_local].
Qed.

Ltac holds_tac :=
  split; [intros s a o [_ HJ] E; by apply (HJ a _ E)
         |intros s s' a o o' HJ E Hf Eo Em Hok; by eapply OInv_put
         |intros s s' t a o HJ E Hp Hok; by eapply OInv_pend].

#[export] Instance OInv_sem : Holds OInv O_sem sem_ok.
Proof. holds_tac. Qed.
#[export] Instance OInv_mutex : Holds OInv O_mutex mutex_ok.
Proof. holds_tac. Qed.
#[export] Instance OInv_condvar : Holds OInv mk_condvar condvar_ok.
Proof. holds_tac. Qed.
#[export] Instance OInv_msgq : Holds OInv O_msgq (msgq_ok writable).
Proof. holds_tac. Qed.
#[export] Instance OInv_stack : Holds OInv O_stack (stack_ok writable).
Proof. holds_tac. Qed.
#[export] Instance OInv_event : Holds OInv O_event event_ok.
Proof. holds_tac. Qed.

#[export] Instance OInv_slab : SlabInv OInv used.
Proof.
  split.
  - intros s a o [_ HJ] E. by apply (HJ a _ E).
  - intros s s' a o o' HJ E Hf Eo Hm Hw Hok Hfree. pose proof (free_kept_writable s s' Hw) as Hk.
    eapply OInv_step; [done|apply (wf_wake _ _ Hf), HJ|done| |].
    + intros p Hp Hwp Hc. by destruct (Hfree p Hc).
    + intros a' x. rewrite Eo. destruct (decide (a' = a)) as [->|].
      * rewrite lookup_insert_eq. intros [= <-]. by right.
      * rewrite lookup_insert_ne by done. intros E'. left. split; [done|by apply wframe_local].
  - intros s i p. done.
  - intros s s' t a o HJ E Hp Hok. by eapply OInv_pend.
Qed.
End KInv.
