(* ===== verification/Api.v ===== *)
(** * The kernel's calls

    What the kernel promises to the thread or interrupt handler that calls it, for
    the invariant [OInv] of all objects together: the specifications of the
    components, with their interfaces discharged by [KInv]. *)

From S2P Require Import Prelude TimeUnits Timeout PriorityQ KState KLogic MemOps Sched SchedInv SchedOps Switch.
From S2P Require Import ThreadOps ThreadApi Halt Create Clock Sem Mutex Condvar Stack Msgq Events MemSlab KInv.

Local Open Scope Z_scope.

(** The kernel is called in the state [s]: by the running thread [c], outside
    interrupts ([n] = 0), or by an interrupt handler at nesting level [n]. *)
Record caller `{KConfig} (n : Z) (c : tid) (s : kstate) : Prop := {
  ca_sched : SInv s;
  ca_objs : OInv s;
  ca_nested : nested s = n;
  ca_thread : n = 0 -> current s = c /\ running s
}.

(** The call [m] does not fail; the part of it before any context switch has the
    effect [V]; every state in which it gives up the CPU, and the one in which it
    returns, satisfies the invariants; its result satisfies [P], which is told in
    what stretch of execution it returned. *)
Definition call_ok `{KConfig} {A} (n : Z) (c : tid) (s : kstate) (V : kstate -> kstate -> Prop) (m : M A)
    (P : stretch -> A -> kstate -> Prop) : Prop :=
  mwp (Guar OInv V) (Rely OInv c) (Stretch true s) m s (fun b r s' =>
    Stable OInv n c b s' /\ effect V b s' /\ P b r s').

(** Whenever [c] has waited on [w], it is switched in with the return value [v]. *)
Definition woken_from (c : tid) (w : wqid) (v : Z) (s s' : kstate) : Prop :=
  c ∈ waitq s w -> swap_retval <$> threads s' !! c = Some v.

(** Who may wait: a thread other than the idle thread. *)
Definition may_wait `{KConfig} (n : Z) (c : tid) (timeout : k_timeout_t) : Prop :=
  n = 0 /\ c <> z_idle_thread /\ api_timeout timeout \/ timeout = K_NO_WAIT.

Lemma caller_stable `{KConfig} n c s : caller n c s -> Stable OInv n c (Stretch true s) s.
Proof.
  intros [Hs Ho Hn Ht]. split; [split|done]; try done; [apply seg_refl|].
  intros H0. destruct (Ht H0) as [Hc Hr]. by split_and!.
Qed.
Create HintDb kcall.
#[export] Hint Resolve caller_stable : kcall.

Lemma call_intro `{KConfig} {A} n c s V (m : M A) P (Q : stretch -> A -> kstate -> Prop) :
  mwp (Guar OInv V) (Rely OInv c) (Stretch true s) m s P ->
  (forall b r s', P b r s' -> Stable OInv n c b s' /\ effect V b s' /\ Q b r s') -> call_ok n c s V m Q.
Proof. intros Hm HPQ. by eapply mwp_mono. Qed.

(** A call from the specification [spec] of its component. *)
Tactic Notation "by_spec" uconstr(spec) :=
  intros; refine (call_intro _ _ _ _ _ _ _ spec _);
  [..|clear; cbv beta; intuition eauto]; eauto with kcall.

Section Calls.
Context `{KConfig}.
Hypothesis no_metairq : CONFIG_NUM_METAIRQ_PRIORITIES = 0.
Hypothesis ceiling_ok : -128 <= CONFIG_PRIORITY_CEILING < 128.
Context (n : Z) (c : tid) (s : kstate).
Hypothesis calls : caller n c s.

(** ** Semaphores *)

(** C21: k_sem_give hands the unit to the head of the wait queue, or else counts it up to the
    limit; k_sem_take takes a unit, returns -EBUSY, or waits and returns the value it was woken
    with: 0 from k_sem_give, -EAGAIN from k_sem_reset, and -EAGAIN, with which it went to sleep,
    when its time ran out; k_sem_reset sets the count to zero and wakes every waiter with -EAGAIN.
    No call fails or touches another object. *)
Theorem k_sem_refines sem o :
  objs s !! sem = Some (O_sem o) ->
  call_ok n c s (obj_effect (sem_view sem) sem (fun _ => abs_give) (fun s => take 1 (waitq s (WQ_obj sem))) 0)
    (z_impl_k_sem_give sem) (fun _ _ _ => True) /\
  (forall timeout, may_wait n c timeout ->
   call_ok n c s (obj_effect (sem_view sem) sem (fun s => abs_take (prio_of s) c timeout) (fun _ => []) 0)
     (z_impl_k_sem_take sem timeout) (fun b r _ =>
       if is_first b then r = (if sem_count o >? 0 then 0 else - EBUSY)
       else exists th, resumed c b th /\ r = swap_retval th /\ (r = 0 \/ r = - EAGAIN))) /\
  call_ok n c s (obj_effect (sem_view sem) sem (fun _ => abs_reset) (fun s => waitq s (WQ_obj sem)) (- EAGAIN))
    (z_impl_k_sem_reset sem) (fun _ _ _ => True).
Proof.
  intros E. split_and!; intros.
  - by_spec (k_sem_give_spec no_metairq OInv n c sem (Stretch true s) s o _ _ _ _).
  - by_spec (k_sem_take_spec no_metairq OInv n c sem (Stretch true s) s o timeout _ _ _ _ _).
  - by_spec (k_sem_reset_spec no_metairq OInv n c sem (Stretch true s) s o _ _ _ _).
Qed.

(** ** Mutexes and condition variables *)

(** C20: k_mutex_lock takes a free mutex, counts a recursive lock, and otherwise waits while
    the owner inherits the caller's priority up to the ceiling; 0 means that the caller owns the
    mutex, -EBUSY that it would not wait, -EAGAIN that its time ran out. k_mutex_unlock refuses
    a mutex that is not locked or not the caller's, counts down a recursive lock, and on the
    last unlock restores the caller's priority and hands the mutex to its first waiter. *)
Theorem k_mutex_refines mutex o :
  n = 0 -> objs s !! mutex = Some (O_mutex o) ->
  (forall timeout, c <> z_idle_thread -> api_timeout timeout -> (owner o = Some c -> lock_count o < 2 ^ 32 - 1) ->
   call_ok n c s (lock_effect c mutex timeout) (z_impl_k_mutex_lock mutex timeout) (lock_result c mutex timeout)) /\
  call_ok n c s (unlock_effect c mutex) (z_impl_k_mutex_unlock mutex) (fun _ r _ => r = unlock_retval c o).
Proof.
  intros H0 E. generalize calls. rewrite H0. split; intros.
  - by_spec (k_mutex_lock_spec no_metairq ceiling_ok OInv c mutex (Stretch true s) s o timeout _ _ _ _ _ _ _).
  - by_spec (k_mutex_unlock_spec no_metairq ceiling_ok OInv c mutex (Stretch true s) s o _ _ _ _).
Qed.

Lemma wait_call condvar mutex o timeout :
  n = 0 -> objs s !! condvar = Some O_condvar -> objs s !! mutex = Some (O_mutex o) ->
  c <> z_idle_thread -> api_timeout timeout ->
  call_ok n c s (wait_effect c condvar mutex) (z_impl_k_condvar_wait condvar mutex timeout) (fun b r s' =>
    is_first b = false /\ (r = 0 \/ r = - EAGAIN /\ timeout <> K_FOREVER) /\ exists o', owns c mutex o' s').
Proof.
  intros. refine (call_intro _ _ _ _ _ _ _
    (k_condvar_wait_spec no_metairq ceiling_ok OInv n c condvar (Stretch true s) s mutex o timeout _ _ _ _ _ _ _ _) _);
    eauto with kcall.
  cbv beta. intros b r s' (Hs' & Hf & Hr & Ho). split_and!; try done. unfold effect. by rewrite Hf.
Qed.

Lemma wait_value condvar mutex o timeout v :
  n = 0 -> objs s !! condvar = Some O_condvar -> objs s !! mutex = Some (O_mutex o) ->
  c <> z_idle_thread -> api_timeout timeout ->
  mwp (Guar OInv (wait_effect c condvar mutex)) (Rely_if OInv (woken_from c (WQ_obj condvar) v) c) (Stretch true s)
    (z_impl_k_condvar_wait condvar mutex timeout) s (fun _ r _ => r = v).
Proof.
  intros. eapply mwp_mono.
  { eapply (k_condvar_wait_if_spec no_metairq ceiling_ok OInv n c condvar (woken_from c (WQ_obj condvar) v)); eauto with kcall. }
  cbv beta. intros b r s' (_ & s1 & s2 & Hin & Hv & Hr). specialize (Hv Hin). congruence.
Qed.

(** C24: k_condvar_signal wakes the head of the wait queue, k_condvar_broadcast all waiters,
    and returns how many; k_condvar_wait releases the mutex and queues the caller before any other
    thread can run, and returns with the mutex owned by the caller again and with the value with
    which it was woken from the wait queue of the condition variable: 0 when it was signalled,
    -EAGAIN when its time ran out. *)
Theorem k_condvar_refines condvar :
  objs s !! condvar = Some O_condvar ->
  call_ok n c s (obj_effect (condvar_view condvar) condvar (fun _ => tail) (fun s => take 1 (waitq s (WQ_obj condvar))) 0)
    (z_impl_k_condvar_signal condvar) (fun _ r _ => r = 0) /\
  call_ok n c s (obj_effect (condvar_view condvar) condvar (fun _ _ => []) (fun s => waitq s (WQ_obj condvar)) 0)
    (z_impl_k_condvar_broadcast condvar) (fun _ r _ => r = Z.of_nat (length (waitq s (WQ_obj condvar)))) /\
  (forall mutex o timeout,
   n = 0 -> objs s !! mutex = Some (O_mutex o) -> c <> z_idle_thread -> api_timeout timeout ->
   call_ok n c s (wait_effect c condvar mutex) (z_impl_k_condvar_wait condvar mutex timeout) (fun b r s' =>
     is_first b = false /\ (r = 0 \/ r = - EAGAIN /\ timeout <> K_FOREVER) /\ exists o', owns c mutex o' s') /\
   forall v, mwp (Guar OInv (wait_effect c condvar mutex)) (Rely_if OInv (woken_from c (WQ_obj condvar) v) c) (Stretch true s)
     (z_impl_k_condvar_wait condvar mutex timeout) s (fun _ r _ => r = v)).
Proof.
  intros E. split_and!.
  - by_spec (k_condvar_signal_spec no_metairq OInv n c condvar (Stretch true s) s _ _ _ _).
  - by_spec (k_condvar_broadcast_spec no_metairq OInv n c condvar (Stretch true s) s _ _ _ _).
  - intros. split; [by eapply wait_call|intros v; by eapply wait_value].
Qed.

(** ** Stacks and message queues *)

(** C27: A kernel stack is a bounded stack of words: push stores the word or hands it to the
    head of the wait queue and returns -ENOMEM when full; pop returns the word pushed last, or
    -EBUSY, or waits: woken with 0 it returns the word that was handed over, and woken with
    -EAGAIN, because its time ran out, it returns -EAGAIN and no word. No other memory is written.
    *)
Theorem k_stack_refines stack o d timeout :
  objs s !! stack = Some (O_stack o) -> may_wait n c timeout ->
  call_ok n c s (push_effect stack d) (z_impl_k_stack_push stack d) (fun _ r _ =>
    r = if stk_next o =? stk_top o then - ENOMEM else 0) /\
  call_ok n c s (fun s s' =>
      obj_effect (stack_view stack) stack (fun s => abs_pop (prio_of s) c timeout) (fun _ => []) 0 s s' /\
      only_memory (fun _ => False) s s')
    (z_impl_k_stack_pop stack timeout) (fun b r s' =>
      if is_first b then r = match abs_words <$> stack_view stack s with
                             | Some (d :: _) => (0, Some d)
                             | _ => (- EBUSY, None)
                             end
      else exists th, resumed c b th /\
        (swap_retval th = 0 /\ r = (0, Some (swap_data th)) \/
         swap_retval th = - EAGAIN /\ timeout <> K_FOREVER /\ r = (- EAGAIN, None))).
Proof.
  intros E Hw. split.
  - by_spec (k_stack_push_spec no_metairq OInv writable n c stack (Stretch true s) s o d _ _ _ _).
  - by_spec (k_stack_pop_spec no_metairq OInv writable n c stack (Stretch true s) s o timeout _ _ _ _ _).
Qed.

(** C22: A message queue is a first-in first-out queue of bounded length kept in a ring of
    memory: put appends the message or copies it into the buffer of the first waiting reader,
    get copies out the oldest message and lets the first waiting writer store its own, both
    return -ENOMSG or wait otherwise; purge empties the queue and wakes every writer with
    -ENOMSG. No other memory is written. *)
Theorem k_msgq_refines msgq q :
  objs s !! msgq = Some (O_msgq q) ->
  (forall data timeout, region writable s data (msg_size q) -> may_wait n c timeout ->
   call_ok n c s (put_effect c msgq data timeout) (z_impl_k_msgq_put msgq data timeout) (fun b r _ =>
     if used_msgs q <? max_msgs q then r = 0
     else if is_first b then r = - ENOMSG
     else (r = - EAGAIN /\ timeout <> K_FOREVER \/ r = 0 \/ r = - ENOMSG) /\ exists th, resumed c b th /\ r = swap_retval th)) /\
  (forall data timeout, region writable s data (msg_size q) -> apart q data -> may_wait n c timeout ->
   call_ok n c s (get_effect c msgq data timeout) (z_impl_k_msgq_get msgq data timeout) (fun b r _ =>
     if used_msgs q >? 0 then r = 0
     else if is_first b then r = - ENOMSG
     else (r = - EAGAIN /\ timeout <> K_FOREVER \/ r = 0 \/ r = - ENOMSG) /\ exists th, resumed c b th /\ r = swap_retval th)) /\
  call_ok n c s (obj_effect (msgq_view msgq) msgq (fun _ => abs_purge) (fun s => waitq s (WQ_obj msgq)) (- ENOMSG))
    (z_impl_k_msgq_purge msgq) (fun _ _ _ => True).
Proof.
  intros E. split_and!; intros.
  - by_spec (k_msgq_put_spec no_metairq OInv writable n c msgq (Stretch true s) s q data timeout _ _ _ _ _ _).
  - by_spec (k_msgq_get_spec no_metairq OInv writable n c msgq (Stretch true s) s q data timeout _ _ _ _ _ _ _).
  - by_spec (k_msgq_purge_spec no_metairq OInv writable n c msgq (Stretch true s) s q _ _ _ _).
Qed.

(** k_msgq_peek_at copies out the message with the given index and changes nothing
    else, also where the ring wraps around; an index past the last message is answered with
    -ENOMSG. *)
Theorem k_msgq_peek_at_correct msgq q data idx :
  objs s !! msgq = Some (O_msgq q) -> region writable s data (msg_size q) -> apart q data -> 0 <= idx < 2 ^ 32 ->
  kwp (z_impl_k_msgq_peek_at msgq data idx) s
    (peeked OInv n c msgq (Stretch true s) s data (msgq_view msgq s ≫= abs_peek idx) (msg_size q)) /\
  kwp (z_impl_k_msgq_peek msgq data) s
    (peeked OInv n c msgq (Stretch true s) s data (msgq_view msgq s ≫= abs_peek 0) (msg_size q)).
Proof. intros. apply (k_msgq_peek_at_spec OInv writable); auto with kcall. Qed.

(** ** Events *)


(** ** Memory slabs *)

(** C28: k_mem_slab_alloc pops a block off the free list and counts it, or returns -ENOMEM, or
    waits: woken with 0 it returns the block that was handed over, and woken with -EAGAIN, because
    its time ran out, it returns -EAGAIN and no block; it writes no memory. k_mem_slab_free hands
    the block to the head of the wait queue or links it in front of the free list, writing only
    the block itself, so that no block is on the free list twice or in use while free. *)
Theorem k_mem_slab_refines slab o :
  objs s !! slab = Some (O_slab o) ->
  (forall timeout, may_wait n c timeout ->
   call_ok n c s (fun s s' =>
       obj_effect (slab_view slab) slab (fun s => abs_alloc (prio_of s) c timeout) (fun _ => []) 0 s s' /\
       only_memory (fun _ => False) s s')
     (k_mem_slab_alloc slab timeout) (fun b r s' =>
       if is_first b then r = match abs_free_blocks <$> slab_view slab s with
                              | Some (p :: _) => (0, Some p)
                              | _ => (- ENOMEM, Some 0)
                              end
       else exists th, resumed c b th /\
         (swap_retval th = 0 /\ r = (0, Some (swap_data th)) \/
          swap_retval th = - EAGAIN /\ timeout <> K_FOREVER /\ r = (- EAGAIN, None)))) /\
  (forall p, slab_ptr_is_good o p = true -> ~ free_cell s p -> ~ used s p ->
   call_ok n c s (free_effect slab p) (k_mem_slab_free slab p) (fun _ _ _ => True)).
Proof.
  intros E. split; intros.
  - by_spec (k_mem_slab_alloc_spec no_metairq OInv used n c slab (Stretch true s) s o timeout _ _ _ _ _).
  - by_spec (k_mem_slab_free_spec no_metairq OInv used n c slab (Stretch true s) s o p _ _ _ _ _ _ _).
Qed.

(** ** Threads *)



(** ** The clock *)

(** C4: Announcing ticks terminates with every callback run, wakes exactly the threads whose
    deadline has come, moves every other deadline by the ticks announced, advances the clock by
    them, and keeps all invariants. *)
Theorem sys_clock_announce_correct ticks :
  0 <= ticks <= INT_MAX ->
  kwp (sys_clock_announce ticks) s (fun _ s' => Stable OInv n c (Stretch true s) s' /\ clock_effect ticks s s').
Proof. intros. apply (sys_clock_announce_spec no_metairq OInv); auto with kcall. Qed.

(** C7: The callbacks of an announcement run on time: when the calls of the expiry handlers
    are recorded beside the kernel state, which they change as they do without the record, those
    for threads are exactly the thread timeouts due within the ticks announced, each once, in
    deadline order, and each with the clock at its own deadline, whatever the handlers themselves
    do to the timeout queue. *)
Theorem announce_callbacks_on_time ticks :
  0 <= ticks <= INT_MAX ->
  exists s' lg, announce_recorded ticks s = Some (s', lg) /\ announce tq set_tq run_timeout_fn ticks s = Some s' /\
    thread_entries lg = log_entry (curr_tick (tq s)) <$> expired ticks (thread_deadlines (tq s)).
Proof using no_metairq calls.
  intros Ht. destruct (announce_spec no_metairq OInv n c (Stretch true s) s ticks) as (s' & lg & ? & ? & _ & _ & ?); auto with kcall.
  by exists s', lg.
Qed.
End Calls.
