(* ===== verification/System.v ===== *)
(** * The kernel as a whole

    Threads that call the kernel in any order, interrupt handlers that call it
    between two calls, and the context switches in between, as one transition
    system.  A thread that is switched out inside a call is kept with the rest of the
    call; it goes on when it is switched in again.  Calls are atomic up to a context
    switch, as interrupts are masked or harmless inside them on one CPU. *)

From stdpp Require Import relations.
From S2P Require Import Prelude TimeUnits Timeout PriorityQ KState KLogic MemOps Sched SchedInv SchedOps Switch.
From S2P Require Import ThreadOps ThreadApi Halt Create Clock Sem Mutex Condvar Stack Msgq Events MemSlab KInv Api.

Local Open Scope Z_scope.

(** ** What can be called *)

Inductive call :=
  | Sem_give (a : addr) | Sem_take (a : addr) (timeout : k_timeout_t) | Sem_reset (a : addr)
  | Mutex_lock (a : addr) (timeout : k_timeout_t) | Mutex_unlock (a : addr)
  | Condvar_signal (a : addr) | Condvar_broadcast (a : addr) | Condvar_wait (a mutex : addr) (timeout : k_timeout_t)
  | Stack_push (a : addr) (data : Z) | Stack_pop (a : addr) (timeout : k_timeout_t)
  | Msgq_put (a : addr) (data : Z) (timeout : k_timeout_t) | Msgq_get (a : addr) (data : Z) (timeout : k_timeout_t)
  | Msgq_purge (a : addr)
  | Event_post (a : addr) (events events_mask : Z) | Event_wait (a : addr) (events options : Z) (timeout : k_timeout_t)
  | Slab_alloc (a : addr) (timeout : k_timeout_t) | Slab_free (a : addr) (block : Z)
  | Thread_create (t : tid) (base : k_thread) (p options : Z) (delay : k_timeout_t)
  | Thread_start (t : tid) | Thread_suspend (t : tid) | Thread_resume (t : tid) | Thread_abort (t : tid)
  | Thread_join (t : tid) (timeout : k_timeout_t) | Thread_priority_set (t : tid) (p : Z)
  | Wakeup (t : tid) | Sleep (ticks : Z) | Yield | Sched_lock | Sched_unlock
  | Clock_announce (ticks : Z)
  | Store (p v : Z).

Section System.
Context `{KConfig}.

Definition run_call {A} (m : M A) : M unit := _ ← m; mret tt.

Definition perform (m : call) : M unit :=
  match m with
  | Sem_give a => run_call (z_impl_k_sem_give a)
  | Sem_take a timeout => run_call (z_impl_k_sem_take a timeout)
  | Sem_reset a => run_call (z_impl_k_sem_reset a)
  | Mutex_lock a timeout => run_call (z_impl_k_mutex_lock a timeout)
  | Mutex_unlock a => run_call (z_impl_k_mutex_unlock a)
  | Condvar_signal a => run_call (z_impl_k_condvar_signal a)
  | Condvar_broadcast a => run_call (z_impl_k_condvar_broadcast a)
  | Condvar_wait a mutex timeout => run_call (z_impl_k_condvar_wait a mutex timeout)
  | Stack_push a data => run_call (z_impl_k_stack_push a data)
  | Stack_pop a timeout => run_call (z_impl_k_stack_pop a timeout)
  | Msgq_put a data timeout => run_call (z_impl_k_msgq_put a data timeout)
  | Msgq_get a data timeout => run_call (z_impl_k_msgq_get a data timeout)
  | Msgq_purge a => run_call (z_impl_k_msgq_purge a)
  | Event_post a events events_mask => run_call (k_event_post_internal a events events_mask)
  | Event_wait a events options timeout => run_call (k_event_wait_internal a events options timeout)
  | Slab_alloc a timeout => run_call (k_mem_slab_alloc a timeout)
  | Slab_free a block => run_call (k_mem_slab_free a block)
  | Thread_create t base p options delay => run_call (z_impl_k_thread_create base t p options delay)
  | Thread_start t => run_call (z_impl_k_thread_start t)
  | Thread_suspend t => run_call (z_impl_k_thread_suspend t)
  | Thread_resume t => run_call (z_impl_k_thread_resume t)
  | Thread_abort t => run_call (z_impl_k_thread_abort t)
  | Thread_join t timeout => run_call (z_impl_k_thread_join t timeout)
  | Thread_priority_set t p => run_call (z_impl_k_thread_priority_set t p)
  | Wakeup t => run_call (z_impl_k_wakeup t)
  | Sleep ticks => run_call (z_tick_sleep ticks)
  | Yield => run_call z_impl_k_yield
  | Sched_lock => lift k_sched_lock
  | Sched_unlock => run_call k_sched_unlock
  | Clock_announce ticks => lift (sys_clock_announce ticks)
  | Store p v => lift (mem_store p v)
  end.

(** Legal use, as the API documents it: the object exists and has the right kind,
    buffers are memory the caller may write, a caller that cannot wait does not ask to,
    a thread is created in fresh memory, a freed block was allocated. *)
Definition allowed (n : Z) (c : tid) (s : kstate) (m : call) : Prop :=
  match m with
  | Sem_give a | Sem_reset a => exists o, objs s !! a = Some (O_sem o)
  | Sem_take a timeout => (exists o, objs s !! a = Some (O_sem o)) /\ may_wait n c timeout
  | Mutex_lock a timeout => n = 0 /\ c <> z_idle_thread /\ api_timeout timeout /\
      exists o, objs s !! a = Some (O_mutex o) /\ (owner o = Some c -> lock_count o < 2 ^ 32 - 1)
  | Mutex_unlock a => n = 0 /\ exists o, objs s !! a = Some (O_mutex o)
  | Condvar_signal a | Condvar_broadcast a => objs s !! a = Some O_condvar
  | Condvar_wait a mutex timeout => n = 0 /\ c <> z_idle_thread /\ api_timeout timeout /\
      objs s !! a = Some O_condvar /\ exists o, objs s !! mutex = Some (O_mutex o)
  | Stack_push a _ => exists o, objs s !! a = Some (O_stack o)
  | Stack_pop a timeout => (exists o, objs s !! a = Some (O_stack o)) /\ may_wait n c timeout
  | Msgq_put a data timeout =>
      (exists q, objs s !! a = Some (O_msgq q) /\ region writable s data (msg_size q)) /\ may_wait n c timeout
  | Msgq_get a data timeout =>
      (exists q, objs s !! a = Some (O_msgq q) /\ region writable s data (msg_size q) /\ apart q data) /\
      may_wait n c timeout
  | Msgq_purge a => exists q, objs s !! a = Some (O_msgq q)
  | Event_post a events events_mask => (exists o, objs s !! a = Some (O_event o)) /\ 0 <= events < 2 ^ 32 /\ 0 <= events_mask < 2 ^ 32
  | Event_wait a _ _ timeout => (exists o, objs s !! a = Some (O_event o)) /\ may_wait n c timeout
  | Slab_alloc a timeout => (exists o, objs s !! a = Some (O_slab o)) /\ may_wait n c timeout
  | Slab_free a block =>
      exists o, objs s !! a = Some (O_slab o) /\ slab_ptr_is_good o block = true /\ ~ free_cell s block /\ ~ used s block
  | Thread_create t _ p _ delay => n = 0 /\ threads s !! t = None /\ waitq s (WQ_join t) = [] /\
      Z_VALID_PRIO p = true /\ api_timeout delay
  | Thread_start t | Thread_suspend t | Thread_resume t | Wakeup t => is_Some (threads s !! t) /\ ordinary t
  | Thread_abort t => ordinary t /\
      exists th, threads s !! t = Some th /\ z_is_thread_essential th = false /\ st 3 th = false
  | Thread_join t timeout => is_Some (threads s !! t) /\ may_wait n c timeout
  | Thread_priority_set t p => n = 0 /\ is_Some (threads s !! t) /\ t <> z_idle_thread /\ Z_VALID_PRIO p = true
  | Sleep ticks => n = 0 /\ c <> z_idle_thread /\ valid_timeout ticks
  | Yield => n = 0 /\ c <> z_idle_thread
  | Sched_lock => n = 0 /\ c <> z_idle_thread /\ exists th, threads s !! c = Some th /\ sched_locked th <> 1
  | Sched_unlock => n = 0 /\ c <> z_idle_thread /\ exists th, threads s !! c = Some th /\ sched_locked th <> 0
  | Clock_announce ticks => 0 <= ticks <= INT_MAX
  | Store p _ => writable s p /\ is_Some (mem s !! p)
  end.

(** ** Transitions *)

(** The state of the machine, and for each thread that is switched out inside a call
    the state it left and the rest of the call. *)
Record config := mkConfig {
  now : kstate;
  saved : gmap tid (kstate * (kstate -> run unit))
}.

(** The thread [t] runs up to the end of its call or to its next context switch. *)
Definition settle (t : tid) (sv : gmap tid (kstate * (kstate -> run unit))) (r : run unit) : option config :=
  match r with
  | Ret _ s => Some (mkConfig s (delete t sv))
  | Swap s k => Some (mkConfig s (<[t := (s, k)]> sv))
  | Err => None
  end.

(** An interrupt handler makes a series of calls; it cannot be switched out. *)
Fixpoint handle (l : list call) (s : kstate) : option kstate :=
  match l with
  | [] => Some s
  | m :: l => match perform m s with Ret _ s => handle l s | _ => None end
  end.

Fixpoint handler_allowed (l : list call) (s : kstate) : Prop :=
  match l with
  | [] => True
  | m :: l => allowed 1 (current s) s m /\ forall s', perform m s = Ret tt s' -> handler_allowed l s'
  end.

(** Interrupt entry, handler and exit, where the architecture's code switches to the
    thread [z_get_next_switch_handle] picks. *)
Definition interrupt (l : list call) (s : kstate) : option kstate :=
  s ← handle l (set_nested 1 s);
  snd <$> z_get_next_switch_handle (set_nested 0 s).

(** [None] is a crash: an invalid access, a failed assertion, or a handler that waits. *)
Inductive step : config -> option config -> Prop :=
  | step_call s sv m :
      sv !! current s = None -> allowed 0 (current s) s m ->
      step (mkConfig s sv) (settle (current s) sv (perform m s))
  | step_resume s sv s0 k :
      sv !! current s = Some (s0, k) ->
      step (mkConfig s sv) (settle (current s) sv (k s))
  | step_interrupt s sv l :
      sv !! current s = None -> irq_locked s = false -> handler_allowed l (set_nested 1 s) ->
      step (mkConfig s sv) (s ← interrupt l s; Some (mkConfig s sv))
  | step_clock s sv e :
      0 <= e < 2 ^ 31 - 1 ->
      step (mkConfig s sv) (Some (mkConfig (set_tq (with_hw_elapsed e (tq s)) s) sv))
  | step_mask s sv b :
      sv !! current s = None ->
      step (mkConfig s sv) (Some (mkConfig (set_irq_locked b s) sv)).

Definition moves (x y : config) : Prop := step x (Some y).
Definition boot (s : kstate) : config := mkConfig s ∅.

Hypothesis no_metairq : CONFIG_NUM_METAIRQ_PRIORITIES = 0.
Hypothesis ceiling_ok : -128 <= CONFIG_PRIORITY_CEILING < 128.
Implicit Types (s : kstate) (t u c : tid).

(** ** Each call is safe *)

Abbreviation anything := (fun _ _ : kstate => True).

Definition safe_call (n : Z) (c : tid) (s : kstate) (m : M unit) : Prop :=
  mwp (Guar OInv anything) (Rely OInv c) (Stretch true s) m s (fun b _ s' => Stable OInv n c b s').

Lemma rwp_weaken {A} V R b (r : run A) Q :
  rwp (Guar OInv V) R b r Q -> rwp (Guar OInv anything) R b r Q.
Proof.
  revert b. induction r as [a s| |s k IH]; intros b; cbn; [done..|].
  intros [(Hs & Hr & Ho & Hn & Hnb & Hseg & Hrv & _) Hk]. split; [by split_and!|]. auto.
Qed.

Lemma run_call_safe {A} n c s V (m : M A) P :
  mwp (Guar OInv V) (Rely OInv c) (Stretch true s) m s P ->
  (forall b r s', P b r s' -> Stable OInv n c b s') -> safe_call n c s (run_call m).
Proof.
  intros Hm HP. unfold safe_call, run_call. kstep. eapply mwp_mono; [by apply (rwp_weaken V)|].
  cbv beta. intros b r s' Hq. ksteps. by eapply HP.
Qed.

Tactic Notation "safe_by" uconstr(spec) :=
  refine (run_call_safe _ _ _ _ _ _ spec _); [..|clear; cbv beta; intuition eauto]; eauto with kcall.

Lemma sync_safe n c s m :
  caller n c s -> allowed n c s m ->
  match m with
  | Sem_give _ | Sem_take _ _ | Sem_reset _ | Mutex_lock _ _ | Mutex_unlock _
  | Condvar_signal _ | Condvar_broadcast _ | Condvar_wait _ _ _ => safe_call n c s (perform m)
  | _ => True
  end.
Proof using All.
  intros Hc. pose proof (caller_stable _ _ _ Hc) as Hs. destruct m; cbn [allowed perform]; try done.
  - intros [o E]. safe_by (k_sem_give_spec no_metairq OInv n c a (Stretch true s) s o _ _ _ _).
  - intros [[o E] Hw]. safe_by (k_sem_take_spec no_metairq OInv n c a (Stretch true s) s o timeout _ _ _ _ _).
  - intros [o E]. safe_by (k_sem_reset_spec no_metairq OInv n c a (Stretch true s) s o _ _ _ _).
  - intros (-> & Hid & Ht & o & E & Hmax).
    safe_by (k_mutex_lock_spec no_metairq ceiling_ok OInv c a (Stretch true s) s o timeout _ _ _ _ _ _ _).
  - intros (-> & o & E). safe_by (k_mutex_unlock_spec no_metairq ceiling_ok OInv c a (Stretch true s) s o _ _ _ _).
  - intros E. safe_by (k_condvar_signal_spec no_metairq OInv n c a (Stretch true s) s _ _ _ _).
  - intros E. safe_by (k_condvar_broadcast_spec no_metairq OInv n c a (Stretch true s) s _ _ _ _).
  - intros (H0 & Hid & Ht & E & o & Em).
    safe_by (k_condvar_wait_spec no_metairq ceiling_ok OInv n c a (Stretch true s) s mutex o timeout _ _ _ _ _ _ _ _).
Qed.

Lemma data_safe n c s m :
  caller n c s -> allowed n c s m ->
  match m with
  | Stack_push _ _ | Stack_pop _ _ | Msgq_put _ _ _ | Msgq_get _ _ _ | Msgq_purge _ | Event_post _ _ _
  | Event_wait _ _ _ _ | Slab_alloc _ _ | Slab_free _ _ => safe_call n c s (perform m)
  | _ => True
  end.
Proof using All.
  intros Hc. pose proof (caller_stable _ _ _ Hc) as Hs. destruct m; cbn [allowed perform]; try done.
  - intros [o E]. safe_by (k_stack_push_spec no_metairq OInv writable n c a (Stretch true s) s o data _ _ _ _).
  - intros [[o E] Hw]. safe_by (k_stack_pop_spec no_metairq OInv writable n c a (Stretch true s) s o timeout _ _ _ _ _).
  - intros [(q & E & Hr) Hw].
    safe_by (k_msgq_put_spec no_metairq OInv writable n c a (Stretch true s) s q data timeout _ _ _ _ _ _).
  - intros [(q & E & Hr & Ha) Hw].
    safe_by (k_msgq_get_spec no_metairq OInv writable n c a (Stretch true s) s q data timeout _ _ _ _ _ _ _).
  - intros [q E]. safe_by (k_msgq_purge_spec no_metairq OInv writable n c a (Stretch true s) s q _ _ _ _).
  - intros ([o E] & He & Hm).
    safe_by (k_event_post_spec no_metairq OInv n c a (Stretch true s) s o events events_mask _ _ _ _ _ _).
  - intros [[o E] Hw].
    safe_by (k_event_wait_spec no_metairq OInv n c a (Stretch true s) s o events options timeout _ _ _ _ _).
  - intros [[o E] Hw]. safe_by (k_mem_slab_alloc_spec no_metairq OInv used n c a (Stretch true s) s o timeout _ _ _ _ _).
  - intros (o & E & Hg & Hf & Hu).
    safe_by (k_mem_slab_free_spec no_metairq OInv used n c a (Stretch true s) s o block _ _ _ _ _ _ _).
Qed.

Lemma thread_safe n c s m :
  caller n c s -> allowed n c s m ->
  match m with
  | Thread_create _ _ _ _ _ | Thread_start _ | Thread_suspend _ | Thread_resume _ | Thread_abort _ | Thread_join _ _
  | Thread_priority_set _ _ | Wakeup _ | Sleep _ | Yield => safe_call n c s (perform m)
  | _ => True
  end.
Proof using All.
  intros Hc. pose proof (caller_stable _ _ _ Hc) as Hs. destruct m; cbn [allowed perform]; try done.
  - intros (H0 & E & Hj & Hp & Hd).
    safe_by (k_thread_create_spec no_metairq OInv n c (Stretch true s) s t base p options delay _ _ _ _ _ _ _ _).
  - intros [[th E] Ho]. safe_by (k_thread_start_spec no_metairq OInv n c (Stretch true s) s t th _ _ _ _ _).
  - intros [[th E] Ho]. safe_by (k_thread_suspend_spec no_metairq OInv n c (Stretch true s) s t th _ _ _ _ _).
  - intros [[th E] Ho]. safe_by (k_thread_resume_spec no_metairq OInv n c (Stretch true s) s t th _ _ _ _ _).
  - intros (Ho & th & E & He & Hd).
    safe_by (k_thread_abort_spec no_metairq OInv n c (Stretch true s) s t th _ _ _ _ _ _ _).
  - intros [[th E] Hw]. safe_by (k_thread_join_spec no_metairq OInv n c (Stretch true s) s t th timeout _ _ _ _ _).
  - intros (H0 & [th E] & Hid & Hp).
    safe_by (k_thread_priority_set_spec no_metairq OInv n c (Stretch true s) s t th p _ _ _ _ _ _ _).
  - intros [[th E] Ho]. safe_by (k_wakeup_spec no_metairq OInv n c (Stretch true s) s t th _ _ _ _ _).
  - intros (H0 & Hid & Ht). safe_by (z_tick_sleep_spec no_metairq OInv n c (Stretch true s) s ticks _ _ _ _ _ _).
  - intros (H0 & Hid). safe_by (k_yield_spec no_metairq OInv n c (Stretch true s) s _ _ _ _ _).
Qed.

Lemma store_safe n c s p v :
  caller n c s -> writable s p -> is_Some (mem s !! p) -> Stable OInv n c (Stretch true s) (set_mem (<[p := v]> (mem s)) s).
Proof.
  intros Hc Hw Hp. destruct (caller_stable _ _ _ Hc) as [[Hs Hn Hnb Hseg Ht] Ho]. split; [split; try done|].
  - by apply SInv_mem.
  - by apply seg_ext.
  - apply mem_write_inv; [done|..].
    + intros q. destruct (decide (q = p)) as [->|]; [rewrite lookup_insert_eq|by rewrite lookup_insert_ne].
      split; [done|eauto].
    + intros q Hq. destruct (decide (q = p)) as [->|]; [done|]. by rewrite lookup_insert_ne in Hq.
Qed.

(** Every call the API allows runs without failure and keeps the invariants. *)
Lemma perform_safe n c s m : caller n c s -> allowed n c s m -> safe_call n c s (perform m).
Proof using All.
  intros Hc Ha. pose proof (caller_stable _ _ _ Hc) as Hs.
  pose proof (sync_safe n c s m Hc Ha). pose proof (data_safe n c s m Hc Ha). pose proof (thread_safe n c s m Hc Ha).
  destruct m; try done; cbn [allowed perform] in *; unfold safe_call.
  - destruct Ha as (H0' & Hid & th & E & Hl). apply mwp_lift.
    eapply kwp_mono; [by apply (k_sched_lock_spec OInv n c (Stretch true s) s th)|]. by intros [] s' [? _].
  - destruct Ha as (H0' & Hid & th & E & Hl).
    safe_by (k_sched_unlock_spec no_metairq OInv n c (Stretch true s) s th anything _ _ _ _ _ _); done.
  - apply mwp_lift. eapply kwp_mono; [by apply (sys_clock_announce_spec no_metairq OInv n c (Stretch true s) s ticks)|].
    by intros [] s' [? _].
  - destruct Ha as [Hw Hp]. apply mwp_lift, kwp_store; [done|]. by apply store_safe.
Qed.

(** ** The invariant of the system *)

Definition resumes (t : tid) (s0 : kstate) (k : kstate -> run unit) : Prop :=
  forall s, Rely OInv t s0 s ->
    rwp (Guar OInv anything) (Rely OInv t) (Stretch false s) (k s) (fun b _ s' => Stable OInv 0 t b s').

Record sys_ok (x : config) : Prop := {
  sy_caller : caller 0 (current (now x)) (now x);
  sy_saved : forall t s0 k, saved x !! t = Some (s0, k) ->
    t <> thread_dummy /\ kept t s0 (now x) /\ resumes t s0 k
}.

Lemma caller_not_dummy n s : caller n (current s) s -> n = 0 -> current s <> thread_dummy.
Proof.
  intros [Hs _ _ Ht] H0. destruct (Ht H0) as [_ Hr]. destruct (ri_current _ _ (proj1 Hs)) as [th E].
  by destruct (running_facts s th Hs Hr E) as (_ & _ & ? & _).
Qed.

(** The others are kept by what the running thread does. *)
Lemma saved_seg s s' (sv : gmap tid (kstate * (kstate -> run unit))) u :
  (forall t s0 k, sv !! t = Some (s0, k) -> t <> thread_dummy /\ kept t s0 s /\ resumes t s0 k) -> seg u s s' ->
  forall t s0 k, sv !! t = Some (s0, k) -> t <> u -> t <> thread_dummy /\ kept t s0 s' /\ resumes t s0 k.
Proof.
  intros Hsv Hseg t s0 k E Hne. destruct (Hsv t s0 k E) as (Hdu & Hk & Hr). split_and!; [done| |done].
  by eapply kept_seg.
Qed.

Lemma settle_ok s sv b r :
  sys_ok (mkConfig s sv) -> began b = s ->
  rwp (Guar OInv anything) (Rely OInv (current s)) b r (fun b _ s' => Stable OInv 0 (current s) b s') ->
  exists y, settle (current s) sv r = Some y /\ sys_ok y /\ seg (current s) s (now y).
Proof.
  intros [Hc Hsv] Hb Hr. pose proof (caller_not_dummy 0 s Hc eq_refl) as Hnd. cbn [now saved] in *. set (c := current s) in *.
  destruct r as [[] s'| |s' k]; cbn [settle rwp] in *; [|done|].
  - eexists. split; [done|]. destruct Hr as [[Hs Hn _ Hseg Ht] Ho]. destruct (Ht eq_refl) as (Hcu & Hru & _).
    rewrite Hb in Hseg. change (exempt 0 c) with c in Hseg. split; [|done]. split; cbn [now saved].
    + split; try done.
    + intros t s0 k0 E. apply lookup_delete_Some in E as [Hne E]. by eapply saved_seg.
  - destruct Hr as [(Hs & Hru & Ho & Hn & _ & Hseg & _) Hk]. rewrite Hb in Hseg. eexists. split; [done|].
    split; [|done]. split; cbn [now saved]; [by split|]. intros t s0 k0 E.
    destruct (decide (t = c)) as [->|Hne].
    + rewrite lookup_insert_eq in E. injection E as <- <-. split_and!; [done|apply kept_refl|exact Hk].
    + rewrite lookup_insert_ne in E by done. by eapply saved_seg.
Qed.

Lemma SInv_nested i s : SInv s -> SInv (set_nested i s).
Proof. intros (Hi & Hc & Hu). split; [by eapply RInv_ext; [..|exact Hi]|done]. Qed.
Lemma OInv_nested i s : OInv s -> OInv (set_nested i s).
Proof. intros Ho. exact Ho. Qed.

Lemma handle_ok l s :
  caller 1 (current s) s -> handler_allowed l s ->
  exists s', handle l s = Some s' /\ SInv s' /\ OInv s' /\ nested s' = 1 /\ seg thread_dummy s s'.
Proof using All.
  revert s. induction l as [|m l IH]; intros s Hc; cbn [handle handler_allowed].
  { intros _. exists s. destruct Hc. split_and!; try done. apply seg_refl. }
  intros [Ha Hl]. pose proof (perform_safe 1 (current s) s m Hc Ha) as Hm. unfold safe_call, mwp in Hm.
  destruct (perform m s) as [[] s1| |s1 k]; cbn [rwp] in Hm; [|done|].
  - destruct Hm as [[Hs Hn _ Hseg _] Ho]. change (exempt 1 (current s)) with thread_dummy in Hseg.
    destruct (IH s1) as (s2 & -> & Hs2 & Ho2 & Hn2 & Hseg2); [by split|by apply Hl|].
    exists s2. split_and!; try done. by eapply seg_trans.
  - destruct Hm as [(_ & _ & _ & _ & Hn & _) _]. destruct Hc as [_ _ Hn1 _]. cbn in Hn. congruence.
Qed.

(** The thread chosen at the end of an interrupt can run. *)
Lemma exit_running s : SInv s -> SInv (set_current (cache s) s) /\ running (set_current (cache s) s).
Proof.
  intros Hs. pose proof Hs as (Hi & Hc & Ha & Hu). destruct (decide (cache s = current s)) as [E|Hne].
  - rewrite E. replace (set_current (current s) s) with s by (by destruct s). split; [done|]. unfold running.
    destruct Hc as [Hc|(_ & Hin & _)].
    + rewrite E in Hc. rewrite Hc. destruct (runq s) as [|t q] eqn:Eq; cbn.
      * destruct (ri_idle _ _ Hi) as (th & -> & Hst & _). cbn. f_equal. unfold blocked, st. by rewrite Hst.
      * destruct (ri_runq_thread None s t Hi) as (th & -> & _ & Hb & _); [rewrite Eq; left|]. cbn. by rewrite Hb.
    + destruct (ri_runq_thread None s (current s) Hi Hin) as (th & -> & _ & Hb & _). cbn. by rewrite Hb.
  - apply next_running; [by split|done].
Qed.

Lemma interrupt_ok l s :
  caller 0 (current s) s -> handler_allowed l (set_nested 1 s) ->
  exists s', interrupt l s = Some s' /\ caller 0 (current s') s' /\ seg thread_dummy s s'.
Proof using All.
  intros [Hs Ho Hn _] Hl. destruct (handle_ok l (set_nested 1 s)) as (s1 & E & Hs1 & Ho1 & Hn1 & Hseg); [|done|].
  { split; [by apply SInv_nested|exact Ho|done|done]. }
  unfold interrupt. rewrite E. cbn. eexists. split; [done|].
  destruct (exit_running (set_nested 0 s1)) as [Hs2 Hr2]; [by apply SInv_nested|]. split.
  - split; [exact Hs2|exact Ho1|done|]. intros _. split; [done|exact Hr2].
  - apply (seg_trans _ s (set_nested 1 s)); [by apply seg_ext|]. eapply seg_trans; [exact Hseg|]. by apply seg_ext.
Qed.

(** Every transition succeeds, keeps the invariant, and is a stretch of the running
    thread or of a handler as far as the other threads can tell. *)
Lemma step_ok x o :
  sys_ok x -> step x o -> exists y, o = Some y /\ sys_ok y /\
    exists c, (c = current (now x) \/ c = thread_dummy) /\ seg c (now x) (now y).
Proof using All.
  intros Hx Hst. destruct Hst as [s sv m Hsv Ha|s sv s0 k Hsv|s sv l Hsv Hirq Hl|s sv e He|s sv b Hsv].
  - destruct (settle_ok s sv (Stretch true s) (perform m s) Hx eq_refl) as (y & Hy & Hok & Hseg).
    { by apply (perform_safe 0 (current s)); [apply Hx|]. }
    exists y. split_and!; eauto.
  - destruct (sy_saved _ Hx _ _ _ Hsv) as (_ & Hk & Hr). cbn [now] in Hk.
    destruct (settle_ok s sv (Stretch false s) (k s) Hx eq_refl) as (y & Hy & Hok & Hseg).
    { apply Hr. destruct (sy_caller _ Hx) as [Hs Ho Hn Ht]. destruct (Ht eq_refl) as [_ Hru]. by split_and!. }
    exists y. split_and!; eauto.
  - destruct (interrupt_ok l s (sy_caller _ Hx) Hl) as (s' & E & Hc & Hseg). rewrite E. cbn. eexists.
    split; [done|]. split; [|eauto]. split; [done|]. intros t s0 k Et.
    eapply saved_seg; [apply Hx|exact Hseg|exact Et|]. by destruct (sy_saved _ Hx _ _ _ Et).
  - eexists. split; [done|]. destruct Hx as [[Hs Ho Hn Ht] Hsv]. cbn [now saved] in *.
    assert (Hseg : seg thread_dummy s (set_tq (with_hw_elapsed e (tq s)) s)) by (by apply seg_ext).
    split; [|eauto]. split; [split; try done|].
    + cbn [now]. destruct Hs as (Hi & Hca & Hcu). split; [|done]. eapply RInv_tq; try done; apply Hi.
    + intros t s0 k Et. eapply saved_seg; [exact Hsv|exact Hseg|exact Et|]. by destruct (Hsv _ _ _ Et).
  - eexists. split; [done|]. destruct Hx as [[Hs Ho Hn Ht] Hv]. cbn [now saved] in *.
    assert (Hseg : seg thread_dummy s (set_irq_locked b s)) by (by apply seg_ext).
    split; [|eauto]. split; [split; try done; by apply SInv_irq|].
    intros t s0 k Et. eapply saved_seg; [exact Hv|exact Hseg|exact Et|]. by destruct (Hv _ _ _ Et).
Qed.

Lemma boot_ok s : caller 0 (current s) s -> sys_ok (boot s).
Proof. intros Hc. split; [done|]. intros t s0 k E. cbn in E. by rewrite lookup_empty in E. Qed.

Lemma moves_ok x y : sys_ok x -> rtc moves x y -> sys_ok y.
Proof using All.
  intros Hx Hr. induction Hr as [|x y z Hm _ IH]; [done|]. apply IH.
  destruct (step_ok x (Some y) Hx Hm) as (y' & [= <-] & Hy & _). done.
Qed.

(** ** What holds in every reachable state *)

Section Reachable.
Context (s0 : kstate) (x : config).
Hypothesis good_boot : caller 0 (current s0) s0.
Hypothesis reachable : rtc moves (boot s0) x.

Lemma reachable_ok : sys_ok x.
Proof using All. eapply moves_ok; [by apply boot_ok|done]. Qed.

(** C1: In every state the system can reach, by any sequence of allowed kernel calls of any
    threads, context switches, resumed calls and interrupt handlers, the next step does not
    crash: no assertion fails, no invalid memory or object is accessed, no handler waits, no
    loop runs forever; and the invariants of the scheduler and of all objects hold. *)
Theorem system_safe o :
  step x o -> (exists y, o = Some y) /\ caller 0 (current (now x)) (now x).
Proof using All.
  intros Hst. destruct (step_ok x o reachable_ok Hst) as (y & -> & _). split; [eauto|apply reachable_ok].
Qed.

(** C2: In every reachable state a thread is in the ready queue exactly when nothing blocks
    it, in a wait queue exactly when it waits on that queue, never twice, the ready queue is
    sorted by priority, and the cached choice is its head unless the running thread may not be
    preempted. *)
Theorem threads_accounted t th :
  let s := now x in
  threads s !! t = Some th ->
  (t ∈ runq s <-> t <> z_idle_thread /\ blocked th = false /\ active t s = false) /\
  (forall w, t ∈ waitq s w <-> pended_on th = Some w) /\
  NoDup (runq s) /\ prio_sorted (prio_of s) (runq s) /\ (forall w, NoDup (waitq s w)) /\
  (cache s = default z_idle_thread (head (runq s)) \/
   cache s = current s /\ thread_is_preemptible <$> threads s !! current s = Some false).
Proof using All.
  intros s E. destruct (sy_caller _ reachable_ok) as [(Hi & Hc & _) _ _ _]. fold s in Hi, Hc.
  pose proof (ri_thread _ _ _ _ Hi E) as Hok. split_and!.
  - split.
    + intros Hin. by destruct (tok_runs _ _ _ _ Hok Hin) as (? & ? & ?).
    + intros (Hid & Hb & Ha). by apply (tok_ready _ _ _ _ Hok).
  - intros w. split; [|apply (tok_waitq _ _ _ _ Hok)]. intros Hin.
    destruct (ri_waitq_thread _ _ _ _ Hi Hin) as (th' & E' & Hp & _). congruence.
  - apply Hi.
  - apply Hi.
  - intros w. by eapply ri_waitq_nodup.
  - destruct Hc as [?|(? & _ & ?)]; [by left|by right].
Qed.

(** C3: A mutex stays with its owner, with the same count, whatever other threads and
    interrupt handlers do: only the running owner can give it up. *)
Theorem mutex_exclusion y u a o :
  moves x y -> owns u a o (now x) -> u <> current (now x) -> u <> thread_dummy -> owns u a o (now y).
Proof using All.
  intros Hm Ho Hne Hdu. destruct (step_ok x (Some y) reachable_ok Hm) as (y' & [= <-] & _ & c & Hc & Hseg).
  eapply (sg_owner _ _ _ Hseg); [done|]. by destruct Hc as [-> | ->].
Qed.

Lemma dead_kept y t : rtc moves x y -> dead (now x) t = true -> sys_ok y /\ dead (now y) t = true.
Proof using All.
  intros Hr Hd. pose proof reachable_ok as Hx. clear reachable. revert Hx Hd.
  induction Hr as [|x y z Hm _ IH]; [done|]. intros Hx Hd.
  destruct (step_ok x (Some y) Hx Hm) as (y' & [= <-] & Hy & c & _ & Hseg). apply IH; [done|]. by apply (sg_dead _ _ _ Hseg).
Qed.

(** C6: A thread that was aborted stays dead: it never runs again and is never in the ready
    queue. *)
Theorem dead_never_runs y t : rtc moves x y -> dead (now x) t = true -> current (now y) <> t /\ t ∉ runq (now y).
Proof using All.
  intros Hr Hd. destruct (dead_kept y t Hr Hd) as [[[(Hi & _ & _) _ _ Ht] _] Hd']. destruct (Ht eq_refl) as [_ Hru].
  assert (Hb : forall th, threads (now y) !! t = Some th -> blocked th = true).
  { intros th E. unfold dead in Hd'. rewrite E in Hd'. cbn in Hd'. unfold blocked. change (st 3 th = true) in Hd'.
    by rewrite Hd', !orb_true_r. }
  split.
  - intros <-. unfold running in Hru. destruct (threads (now y) !! current (now y)) as [th|]; [|done]. cbn in Hru.
    specialize (Hb th eq_refl). congruence.
  - intros Hin. destruct (ri_runq_thread _ _ _ Hi Hin) as (th & E & _ & Hb' & _). specialize (Hb th E). congruence.
Qed.

(** C5: A waiting or sleeping thread whose deadline the announced ticks cover is ready after
    the clock interrupt, off its wait queue and with its return value still that of a timeout.
    *)
Theorem timeout_wakes ticks u th f d :
  let s := now x in
  saved x !! current s = None -> irq_locked s = false -> 0 <= ticks <= INT_MAX ->
  threads s !! u = Some th -> st 3 th = false -> st 0 th = false ->
  (TN_thread u, f, d) ∈ deadlines (tq s) -> d <= ticks ->
  exists y th', moves x y /\ interrupt [Clock_announce ticks] s = Some (now y) /\ threads (now y) !! u = Some th' /\ u ∈ runq (now y) /\
    pended_on th' = None /\ swap_retval th' = swap_retval th /\ active u (now y) = false /\
    curr_tick (tq (now y)) = u64 (curr_tick (tq s) + ticks).
Proof using All.
  intros s Hsv Hirq Ht E H3 H0 Hd Hle. destruct (sy_caller _ reachable_ok) as [Hs Ho Hn Hth]. fold s in Hs, Ho, Hn, Hth.
  assert (Hc1 : caller 1 (current s) (set_nested 1 s)) by (split; [by apply SInv_nested|exact Ho|done|done]).
  pose proof (sys_clock_announce_spec no_metairq OInv 1 (current s) (Stretch true (set_nested 1 s)) (set_nested 1 s) ticks
    (caller_stable _ _ _ Hc1) Ht) as Hk. apply kwp_run in Hk as ([] & s1 & E1 & Hs1 & He).
  assert (Hint : interrupt [Clock_announce ticks] s = Some (set_current (cache s1) (set_nested 0 s1))).
  { unfold interrupt, handle, perform, lift. rewrite E1. done. }
  assert (Hin : TN_thread u ∈ ((fun z : deadline => z.1.1) <$> expired ticks (thread_deadlines (tq s)))).
  { apply list_elem_of_fmap. exists (TN_thread u, f, d). split; [done|]. unfold expired, thread_deadlines.
    apply list_elem_of_filter. split; [done|]. by apply list_elem_of_filter. }
  destruct (ce_timed _ _ _ He u th Hin E) as (th' & E' & (Hp & Hr & Hto) & Hq). rewrite H3 in Hto.
  destruct Hto as [Hpn Hb]. rewrite H0 in Hb. specialize (Hq Hb).
  exists (mkConfig (set_current (cache s1) (set_nested 0 s1)) (saved x)), th'. split_and!; try done.
  - pose proof (step_interrupt s (saved x) [Clock_announce ticks] Hsv Hirq) as Hst. rewrite Hint in Hst.
    unfold s in Hst. destruct x as [sx sv]. apply Hst. split; [done|]. by intros s' _.
  - destruct (so_inv _ _ _ _ Hs1) as (Hi1 & _). by destruct (ri_runq_thread _ _ _ Hi1 Hq) as (_ & _ & _ & _ & Ha & _).
  - apply (ce_tick _ _ _ He).
Qed.
End Reachable.
End System.
