(* ===== verification/Demo.v ===== *)
(** * A kernel to run

    A small concrete system: one running thread, one ready thread, threads that wait
    for objects of several kinds, and memory for the buffers.  The invariants of
    [SchedInv] and [KInv] are decided on it, and the theorems about the objects are
    applied to it. *)

From S2P Require Import Prelude TimeUnits Timeout PriorityQ KState KLogic MemOps Sched SchedInv SchedOps Switch.
From S2P Require Import ThreadOps ThreadApi Halt Create Clock Sem Mutex Condvar Stack Msgq Events MemSlab KInv Api System.

Local Open Scope Z_scope.

(** ** Deciding the scheduler's invariant *)

Section Decide.
Context `{KConfig}.
Implicit Types (s : kstate) (t : tid) (th : k_thread).

Definition thread_conds (x : option tid) (s : kstate) (t : tid) (th : k_thread) : Prop :=
  (st 7 th = bool_decide (t ∈ runq s) /\
   (t ∈ runq s -> blocked th = false /\ active t s = false /\ t <> z_idle_thread) /\
   (t <> z_idle_thread -> x <> Some t -> blocked th = false -> active t s = false -> t ∈ runq s) /\
   match pended_on th with Some w => t ∈ waitq s w | None => True end /\
   st 1 th = bool_decide (pended_on th <> None) /\
   -128 <= prio th < 128 /\ 0 <= sched_locked th < 256).

#[export] Instance thread_conds_dec x s t th : Decision (thread_conds x s t th).
Proof. unfold thread_conds. destruct (pended_on th); apply _. Defined.

Lemma thread_ok_alt x s t th : thread_conds x s t th <-> thread_ok x s t th.
Proof.
  split.
  - intros (? & ? & ? & Hw & ? & ? & ?). split; try done. intros w E. by rewrite E in Hw.
  - intros []. repeat (split; [done|]). split; [destruct (pended_on th) eqn:E; auto|done].
Qed.

#[export] Instance thread_ok_dec x s t th : Decision (thread_ok x s t th).
Proof. refine (cast_if (decide (thread_conds x s t th))); by rewrite <- thread_ok_alt. Defined.

#[export] Instance wait_ok_dec s w l : Decision (wait_ok s w l).
Proof. unfold wait_ok. apply _. Defined.

(** A thread that exists and satisfies [P]. *)
Definition thread_with (P : k_thread -> Prop) (s : kstate) (t : tid) : Prop :=
  match threads s !! t with Some th => P th | None => False end.

#[export] Instance thread_with_dec P s t : (forall th, Decision (P th)) -> Decision (thread_with P s t).
Proof. intros HP. unfold thread_with. destruct (threads s !! t); apply _. Defined.

Lemma thread_with_ex P s t : thread_with P s t <-> exists th, threads s !! t = Some th /\ P th.
Proof. unfold thread_with. destruct (threads s !! t); naive_solver. Qed.

Definition queue_conds (x : option tid) (s : kstate) : Prop :=
  (NoDup (runq s) /\ prio_sorted (prio_of s) (runq s) /\ Forall (fun t => is_Some (threads s !! t)) (runq s) /\
   map_Forall (thread_ok x s) (threads s) /\ map_Forall (wait_ok s) (waitqs s) /\
   wf_timeouts (tq s) /\ Forall (deadline_ok s) (deadlines (tq s)) /\ valid_elapsed (tq s) /\
   0 <= slice_ticks s <= INT_MAX /\ thread_with idle_ok s z_idle_thread /\ active z_idle_thread s = false /\
   is_Some (threads s !! current s) /\ thread_with dummy_ok s thread_dummy /\ active thread_dummy s = false).

#[export] Instance queue_conds_dec x s : Decision (queue_conds x s).
Proof. unfold queue_conds, prio_sorted, wf_timeouts, valid_elapsed, idle_ok, dummy_ok. apply _. Defined.

Lemma RInv_alt x s : queue_conds x s <-> RInv x s.
Proof.
  unfold queue_conds.
  rewrite !thread_with_ex. split.
  - intros (? & ? & ? & ? & ? & ? & ? & ? & ? & ? & ? & ? & ? & ?). by split.
  - intros []. repeat (split; [done|]). done.
Qed.

#[export] Instance RInv_dec x s : Decision (RInv x s).
Proof. refine (cast_if (decide (queue_conds x s))); by rewrite <- RInv_alt. Defined.

#[export] Instance SInv_dec s : Decision (SInv s).
Proof. unfold SInv, cache_ok, current_ok. destruct (threads s !! current s); apply _. Defined.
End Decide.

(** ** The system *)

Module Demo.

#[export] Instance config : KConfig := {|
  kc_timeout := {| CONFIG_TICKLESS_KERNEL := true; CONFIG_SYSTEM_CLOCK_SLOPPY_IDLE := false |};
  kc_units := {| CONFIG_SYS_CLOCK_TICKS_PER_SEC := 100; CONFIG_SYS_CLOCK_MAX_TIMEOUT_DAYS := 365 |};
  CONFIG_NUM_COOP_PRIORITIES := 16;
  CONFIG_NUM_PREEMPT_PRIORITIES := 15;
  CONFIG_NUM_METAIRQ_PRIORITIES := 0;
  CONFIG_PRIORITY_CEILING := -127;
  CONFIG_TIMESLICING := true;
  CONFIG_SWAP_NONATOMIC := false;
  CONFIG_MEM_SLAB_TRACE_MAX_UTILIZATION := true;
  z_idle_thread := 1%positive;
  thread_dummy := 2%positive
|}.

Definition main : tid := 10%positive.
Definition worker : tid := 11%positive.
Definition sem_waiter : tid := 12%positive.
Definition mutex_waiter : tid := 13%positive.
Definition cond_waiter : tid := 14%positive.
Definition event_waiter : tid := 15%positive.
Definition fresh : tid := 16%positive.
Definition parked : tid := 17%positive.
Definition zombie : tid := 18%positive.

Definition sem : positive := 1%positive.
Definition mutex : positive := 2%positive.
Definition condvar : positive := 3%positive.
Definition msgq : positive := 4%positive.
Definition stack : positive := 5%positive.
Definition event : positive := 6%positive.
Definition slab : positive := 7%positive.

Definition thread (state p : Z) : k_thread := mkThread None 0 state p 0 0 0 None 0 0 false.
Definition waiting (a : positive) (p : Z) : k_thread :=
  with_pended_on (Some (WQ_obj a)) (thread _THREAD_PENDING p).

Definition demo_objs : list (positive * kobj) :=
  [(sem, O_sem (mkSem 0 5)); (mutex, O_mutex (mkMutex (Some main) 1 5)); (condvar, O_condvar);
   (msgq, O_msgq (mkMsgq 2 2 100 104 100 102 1 0)); (stack, O_stack (mkStack 200 204 208 0));
   (event, O_event (mkEvent 2)); (slab, O_slab (mkSlab 304 308 2 4 1 1))].

(** Message 1 of the queue is stored, the stack holds one word, one of the two blocks
    of the slab is free. *)
Definition demo : kstate := {|
  threads := list_to_map
    [(z_idle_thread, thread 0 15); (thread_dummy, thread _THREAD_DUMMY 0);
     (main, thread _THREAD_QUEUED 5); (worker, thread _THREAD_QUEUED 7);
     (sem_waiter, waiting sem 3); (mutex_waiter, waiting mutex 8); (cond_waiter, waiting condvar 2);
     (event_waiter, with_event_options K_EVENT_WAIT_ALL (with_th_events 6 (waiting event 4)));
     (fresh, thread _THREAD_PRESTART 6); (parked, thread _THREAD_SUSPENDED 6); (zombie, thread _THREAD_DEAD 6)];
  current := main; cache := main; runq := [main; worker]; metairq_preempted := None;
  nested := 0; irq_locked := false;
  waitqs := list_to_map
    [(WQ_obj sem, [sem_waiter]); (WQ_obj mutex, [mutex_waiter]); (WQ_obj condvar, [cond_waiter]);
     (WQ_obj event, [event_waiter])];
  tq := mkTimeoutQ 100 [mkTimeout (TN_thread cond_waiter) fn_z_thread_timeout 10] 0 0 (Some 10);
  slice_ticks := 0; slice_max_prio := 0; slice_expired := false; pending_current := None;
  objs := list_to_map demo_objs;
  mem := list_to_map
    [(100, 7); (101, 8); (102, 0); (103, 0); (110, 1); (111, 2); (200, 9); (204, 0); (304, 0); (308, 0)]
|}.

Lemma demo_sched : SInv demo.
Proof. by_decision. Qed.

(** The only link of a free list is the free block. *)
Lemma demo_free p : free_cell demo p -> p = 308.
Proof.
  intros (a & o & l & Ea & Hc & Hp). 
  assert (map_Forall (fun _ o => match o with O_slab o => slab_free_list o =? 308 | _ => true end = true) (objs demo)) as Hall
    by by_decision.
  pose proof (Hall a _ Ea) as Hfl. apply Z.eqb_eq in Hfl. rewrite Hfl in Hc.
  assert (l = [308]) as -> by (eapply chain_unique; [exact Hc|]; cbn; eauto 10).
  by apply list_elem_of_singleton in Hp.
Qed.

Lemma demo_writable p : p <> 308 -> writable demo p.
Proof. intros Hne Hc. by apply Hne, demo_free. Qed.

Lemma demo_region p n :
  Forall (fun q => q <> 308 /\ is_Some (mem demo !! q)) (seqZ p n) -> region writable demo p n.
Proof.
  intros Hall. rewrite Forall_forall in Hall. split; intros q Hq.
  - apply Hall, elem_of_seqZ. exact Hq.
  - apply demo_writable, Hall, elem_of_seqZ. exact Hq.
Qed.

Lemma demo_slab : slab_ok demo slab (mkSlab 304 308 2 4 1 1).
Proof.
  split.
  - split; cbn; try lia. intros i Hi. assert (i = 0 \/ i = 1) as [-> | ->] by lia; vm_compute; eauto.
  - exists [308]. split; [|by vm_compute]. split_and!; try done; [cbn; eauto 10|repeat constructor; set_solver|].
    repeat constructor.
Qed.

Lemma demo_objects : OInv demo.
Proof.
  split; [by_decision|].
  assert (Hall : Forall (fun x => obj_ok demo x.1 x.2) demo_objs).
  { repeat apply Forall_cons_2; try apply Forall_nil_2; cbn [obj_ok fst snd].
    - by_decision.
    - split_and!; try done. intros t [= <-]. split_and!; by_decision.
    - done.
    - split_and!; [exists 0; by split|by apply demo_region; by_decision|done|].
      intros t Ht. by apply not_elem_of_nil in Ht.
    - exists 1%nat, 2%nat. split_and!; [lia|done..| |done].
      intros i Hi. split; [|apply demo_writable; cbn; unfold sizeof_stack_data_t; lia].
      assert (i = 0%nat \/ i = 1%nat) as [-> | ->] by lia; vm_compute; eauto.
    - by_decision.
    - apply demo_slab. }
  intros a o E. rewrite Forall_forall in Hall. apply (Hall (a, o)). by apply elem_of_list_to_map_2.
Qed.

(** ** Calls of [main] *)

Lemma demo_caller : caller 0 main demo.
Proof. split; [exact demo_sched|exact demo_objects|done|]. intros _. split; [done|by_decision]. Qed.

Lemma demo_may_wait : may_wait 0 main K_FOREVER.
Proof. left. split_and!; [done|done|by left]. Qed.
Lemma demo_forever : api_timeout K_FOREVER.
Proof. by left. Qed.
Lemma demo_ordinary t : bool_decide (t <> z_idle_thread /\ t <> thread_dummy) = true -> ordinary t.
Proof. by intros ?%bool_decide_eq_true. Qed.

Lemma demo_no_metairq : CONFIG_NUM_METAIRQ_PRIORITIES = 0.
Proof. done. Qed.
Lemma demo_ceiling : -128 <= CONFIG_PRIORITY_CEILING < 128.
Proof. done. Qed.

Definition demo_sem : k_sem := mkSem 0 5.
Definition demo_mutex : k_mutex := mkMutex (Some main) 1 5.
Definition demo_stack : k_stack := mkStack 200 204 208 0.
Definition demo_msgq : k_msgq := mkMsgq 2 2 100 104 100 102 1 0.
Definition demo_slab_obj : k_mem_slab := mkSlab 304 308 2 4 1 1.

Ltac demo_side :=
  first [exact demo_caller|reflexivity|exact demo_may_wait|exact demo_forever|by apply demo_ordinary|done|by_decision].

Lemma k_sem_witness :
  call_ok 0 main demo (obj_effect (sem_view sem) sem (fun _ => abs_give) (fun s => take 1 (waitq s (WQ_obj sem))) 0)
    (z_impl_k_sem_give sem) (fun _ _ _ => True) /\
  call_ok 0 main demo (obj_effect (sem_view sem) sem (fun s => abs_take (prio_of s) main K_FOREVER) (fun _ => []) 0)
    (z_impl_k_sem_take sem K_FOREVER) (fun b r _ =>
      if is_first b then r = - EBUSY
      else exists th, resumed main b th /\ r = swap_retval th /\ (r = 0 \/ r = - EAGAIN)).
Proof.
  destruct (k_sem_refines demo_no_metairq 0 main demo demo_caller sem demo_sem) as (Hgive & Htake & _); [demo_side|].
  split; [exact Hgive|]. apply Htake. demo_side.
Defined.

Lemma k_mutex_witness :
  call_ok 0 main demo (lock_effect main mutex K_FOREVER) (z_impl_k_mutex_lock mutex K_FOREVER)
    (lock_result main mutex K_FOREVER) /\
  call_ok 0 main demo (unlock_effect main mutex) (z_impl_k_mutex_unlock mutex) (fun _ r _ => r = 0).
Proof.
  destruct (k_mutex_refines demo_no_metairq demo_ceiling 0 main demo demo_caller mutex demo_mutex) as (Hlock & Hunlock);
    try demo_side.
  split; [apply Hlock; demo_side|exact Hunlock].
Defined.

Lemma k_condvar_witness :
  call_ok 0 main demo
    (obj_effect (condvar_view condvar) condvar (fun _ => tail) (fun s => take 1 (waitq s (WQ_obj condvar))) 0)
    (z_impl_k_condvar_signal condvar) (fun _ r _ => r = 0) /\
  call_ok 0 main demo (wait_effect main condvar mutex) (z_impl_k_condvar_wait condvar mutex K_FOREVER) (fun b r s' =>
    is_first b = false /\ (r = 0 \/ r = - EAGAIN /\ K_FOREVER <> K_FOREVER) /\ exists o', owns main mutex o' s') /\
  mwp (Guar OInv (wait_effect main condvar mutex)) (Rely_if OInv (woken_from main (WQ_obj condvar) 0) main)
    (Stretch true demo) (z_impl_k_condvar_wait condvar mutex K_FOREVER) demo (fun _ r _ => r = 0).
Proof.
  destruct (k_condvar_refines demo_no_metairq demo_ceiling 0 main demo demo_caller condvar) as (Hsig & _ & Hwait); [demo_side|].
  destruct (Hwait mutex demo_mutex K_FOREVER) as [Hw Hv]; [demo_side..|].
  split; [exact Hsig|]. split; [exact Hw|exact (Hv 0)].
Defined.

Lemma k_stack_witness :
  call_ok 0 main demo (push_effect stack 5) (z_impl_k_stack_push stack 5) (fun _ r _ => r = 0) /\
  call_ok 0 main demo (fun s s' =>
      obj_effect (stack_view stack) stack (fun s => abs_pop (prio_of s) main K_FOREVER) (fun _ => []) 0 s s' /\
      only_memory (fun _ => False) s s')
    (z_impl_k_stack_pop stack K_FOREVER) (fun b r s' => is_first b = true -> r = (0, Some 9)).
Proof.
  destruct (k_stack_refines demo_no_metairq 0 main demo demo_caller stack demo_stack 5 K_FOREVER) as [Hpush Hpop];
    try demo_side.
  split; [exact Hpush|]. refine (call_intro _ _ _ _ _ _ _ Hpop _).
  intros b r s' (Hs & He & Hr). split_and!; [done..|]. intros Hf. by rewrite Hf in Hr.
Defined.

Lemma demo_buffer : region writable demo 110 2.
Proof. apply demo_region. by_decision. Qed.
Lemma demo_apart : apart demo_msgq 110.
Proof. intros p. unfold within. cbn. lia. Qed.

Lemma k_msgq_witness :
  call_ok 0 main demo (put_effect main msgq 110 K_FOREVER) (z_impl_k_msgq_put msgq 110 K_FOREVER) (fun _ r _ => r = 0) /\
  call_ok 0 main demo (get_effect main msgq 110 K_FOREVER) (z_impl_k_msgq_get msgq 110 K_FOREVER) (fun _ r _ => r = 0).
Proof.
  destruct (k_msgq_refines demo_no_metairq 0 main demo demo_caller msgq demo_msgq) as (Hput & Hget & _); [demo_side|].
  split; [apply Hput|apply Hget]; first [exact demo_buffer|exact demo_apart|demo_side].
Defined.

(** Peeking copies the message that is stored. *)
Lemma k_msgq_peek_at_witness :
  kwp (z_impl_k_msgq_peek_at msgq 110 0) demo (fun r s' => r = 0 /\ bytes (mem s') 110 2 = [7; 8]).
Proof.
  eapply kwp_mono; [apply (k_msgq_peek_at_correct 0 main demo demo_caller msgq demo_msgq 110 0);
    first [exact demo_buffer|exact demo_apart|demo_side]|].
  intros r s' (_ & _ & H). cbn in H. naive_solver.
Defined.


Lemma k_mem_slab_init_witness :
  kwp (k_mem_slab_init slab 304 4 2 0 0) demo (fun r s' => r = 0 /\ slab_view slab s' = Some (mkSlabAbs [304; 308] 0 [])).
Proof.
  eapply kwp_mono; [apply (k_mem_slab_init_correct slab demo 304 4 2 0 0); split; cbn; try lia|].
  - intros i Hi. assert (i = 0 \/ i = 1) as [-> | ->] by lia; vm_compute; eauto.
  - by intros r s' (? & ? & _).
Defined.

(** No other object uses the block that is taken. *)
Lemma demo_unused : ~ used demo 304.
Proof.
  intros (a & o & E & Hu). assert (Hall : Forall (fun x => ~ obj_uses demo x.1 x.2 304) demo_objs).
  { repeat apply Forall_cons_2; try apply Forall_nil_2; cbn; try tauto; try lia.
    intros [Hw|(t & Ht & _)]; [unfold within in Hw; lia|by apply not_elem_of_nil in Ht]. }
  rewrite Forall_forall in Hall. apply (Hall (a, o)); [by apply elem_of_list_to_map_2|exact Hu].
Qed.

Lemma k_mem_slab_witness :
  call_ok 0 main demo (fun s s' =>
      obj_effect (slab_view slab) slab (fun s => abs_alloc (prio_of s) main K_FOREVER) (fun _ => []) 0 s s' /\
      only_memory (fun _ => False) s s')
    (k_mem_slab_alloc slab K_FOREVER) (fun b r _ => is_first b = true -> r = (0, Some 308)) /\
  call_ok 0 main demo (free_effect slab 304) (k_mem_slab_free slab 304) (fun _ _ _ => True).
Proof.
  destruct (k_mem_slab_refines demo_no_metairq 0 main demo demo_caller slab demo_slab_obj) as (Halloc & Hfree); [demo_side|].
  split; [refine (call_intro _ _ _ _ _ _ _ (Halloc K_FOREVER _) _); [demo_side|]|
    apply Hfree; first [exact demo_unused|by intros ?%demo_free|demo_side]].
  intros b r s' (Hs & He & Hr). split_and!; [done..|]. intros Hf. by rewrite Hf in Hr.
Defined.

(** ** Thread calls *)



Lemma sys_clock_announce_witness :
  kwp (sys_clock_announce 25) demo (fun _ s' => Stable OInv 0 main (Stretch true demo) s' /\ clock_effect 25 demo s').
Proof. refine (sys_clock_announce_correct demo_no_metairq 0 main demo _ 25 _); demo_side. Defined.

(** The one timeout due within 25 ticks runs with the clock at 110, its deadline. *)
Lemma announce_callbacks_witness :
  exists s' lg, announce_recorded 25 demo = Some (s', lg) /\ announce tq set_tq run_timeout_fn 25 demo = Some s' /\
    thread_entries lg = [(TN_thread cond_waiter, 110)].
Proof.
  destruct (announce_callbacks_on_time demo_no_metairq 0 main demo demo_caller 25) as (s' & lg & E & E' & Hlg); [demo_side|].
  exists s', lg. split_and!; [exact E|exact E'|]. rewrite Hlg. vm_compute. reflexivity.
Defined.

(** ** Runs of the system *)

(** [main] gives the semaphore; the waiter has the higher priority and runs. *)
Definition given_cfg : System.config := default (boot demo) (settle main ∅ (perform (Sem_give sem) demo)).

Lemma demo_give_step : step (boot demo) (settle main ∅ (perform (Sem_give sem) demo)).
Proof. apply (step_call demo ∅ (Sem_give sem)); [done|]. exists demo_sem. by vm_compute. Qed.

Lemma demo_moves : rtc moves (boot demo) given_cfg.
Proof.
  apply rtc_once. unfold moves. unfold given_cfg.
  destruct (step_ok demo_no_metairq demo_ceiling (boot demo) _ (boot_ok demo demo_caller) demo_give_step) as (y & E & _).
  pose proof demo_give_step as Hst. rewrite E in *. exact Hst.
Qed.
#[local] Opaque given_cfg.

Lemma given_current : current (now given_cfg) = sem_waiter.
Proof. vm_compute. reflexivity. Qed.

(** The waiter goes on with its own calls: its wait had been set up without one. *)
Lemma given_step : step given_cfg (Some (mkConfig (set_irq_locked false (now given_cfg)) (saved given_cfg))).
Proof.
  assert (Hm : forall x : System.config, saved x !! current (now x) = None ->
    step x (Some (mkConfig (set_irq_locked false (now x)) (saved x)))) by (intros [s sv]; apply step_mask).
  apply Hm. vm_compute. reflexivity.
Qed.

Lemma system_safe_witness :
  rtc moves (boot demo) given_cfg /\ caller 0 (current (now given_cfg)) (now given_cfg).
Proof.
  split; [exact demo_moves|].
  destruct (system_safe demo_no_metairq demo_ceiling demo given_cfg demo_caller demo_moves _ given_step) as [_ H]. exact H.
Defined.

Lemma threads_accounted_witness : main ∈ runq (now given_cfg).
Proof.
  destruct (threads_accounted demo_no_metairq demo_ceiling demo given_cfg demo_caller demo_moves
    main (with_swap_retval (- EAGAIN) (thread _THREAD_QUEUED 5))) as ((_ & H) & _); [vm_compute; reflexivity|].
  apply H. vm_compute. split; [discriminate|split; reflexivity].
Defined.

Lemma mutex_exclusion_witness :
  owns main mutex demo_mutex (set_irq_locked false (now given_cfg)).
Proof.
  refine (mutex_exclusion demo_no_metairq demo_ceiling demo given_cfg demo_caller demo_moves _ main mutex demo_mutex given_step _ _ _).
  - vm_compute. split; reflexivity.
  - rewrite given_current. discriminate.
  - discriminate.
Defined.

Lemma dead_never_runs_witness : current (now given_cfg) <> zombie /\ zombie ∉ runq (now given_cfg).
Proof.
  refine (dead_never_runs demo_no_metairq demo_ceiling demo (boot demo) demo_caller _ given_cfg zombie demo_moves _).
  - apply rtc_refl.
  - vm_compute. reflexivity.
Defined.

Lemma timeout_wakes_witness :
  exists y th', moves (boot demo) y /\ interrupt [Clock_announce 10] demo = Some (now y) /\
    threads (now y) !! cond_waiter = Some th' /\ cond_waiter ∈ runq (now y) /\
    pended_on th' = None /\ swap_retval th' = 0 /\ active cond_waiter (now y) = false /\
    curr_tick (tq (now y)) = 110.
Proof.
  refine (timeout_wakes demo_no_metairq demo_ceiling demo (boot demo) demo_caller _ 10 cond_waiter (waiting condvar 2)
    fn_z_thread_timeout 10 _ _ _ _ _ _ _ _); demo_side.
Defined.
End Demo.
