(* ===== verification/Findings.v ===== *)
(** * Where the code and its documentation differ

    Runs of the model, on the kernel of [Demo] or a variation of it, that show what the
    documentation of the kernel does not lead one to expect. *)

From S2P Require Import Prelude TimeUnits Timeout PriorityQ KState KLogic Sched SchedInv SchedOps ThreadApi.
From S2P Require Import Sem Mutex Msgq Api System Demo.
Import Demo.

Local Open Scope Z_scope.

(** The state when the call ends or gives up the CPU. *)
Definition left_in {A} (r : run A) : option kstate :=
  match r with Ret _ s | Swap s _ => Some s | Err => None end.

Definition seen {A B} (f : kstate -> B) (r : run A) : option B := f <$> left_in r.

(** [fresh] waits for the end of the delay it was created with. *)
Definition delayed : kstate :=
  set_tq (mkTimeoutQ 100 [mkTimeout (TN_thread fresh) fn_z_thread_timeout 10] 0 0 (Some 10)) demo.

(** k_wakeup is documented to have no effect on a thread that does not sleep.  On a
    thread whose start is delayed it cancels the start: the thread is left unstarted,
    with no timeout that would start it. *)
Example wakeup_cancels_delayed_start :
  active fresh delayed = true /\
  seen (fun s => (active fresh s, st 2 <$> threads s !! fresh)) (z_impl_k_wakeup fresh delayed) =
    Some (false, Some true).
Proof. vm_compute. split; reflexivity. Qed.

(** k_thread_suspend is documented to cancel the timeout of a blocked thread, which on
    resume returns from the call it is blocked in.  The thread stays on its wait queue,
    now without a timeout. *)
Example suspend_resume_stays_blocked :
  seen (fun s => (active cond_waiter s, waitq s (WQ_obj condvar), st 1 <$> threads s !! cond_waiter))
    ((z_impl_k_thread_suspend cond_waiter;; z_impl_k_thread_resume cond_waiter) demo) =
    Some (false, [cond_waiter], Some true).
Proof. vm_compute. reflexivity. Qed.

(** A thread that locked the scheduler is documented not to be preempted.  When it
    raises the priority of another thread, that thread becomes the cached choice, and the
    next call that reschedules switches to it, even one that wakes nobody. *)
Example locked_thread_preempted :
  let calls := lift k_sched_lock;; z_impl_k_thread_priority_set worker 2;; z_impl_k_msgq_purge msgq in
  seen (fun s => (current s, sched_locked <$> threads s !! main)) (calls demo) = Some (worker, Some 255).
Proof. vm_compute. reflexivity. Qed.

(** [main] is cooperative; [worker], of higher priority, is ready. *)
Definition cooperative : kstate :=
  set_runq [worker; main] (set_threads (<[main := thread _THREAD_QUEUED (-1)]>
    (<[worker := thread _THREAD_QUEUED (-5)]> (threads demo))) demo).

(** A cooperative thread is documented to remain the current thread until it makes
    itself unready.  After it suspended another thread, the next call that reschedules
    switches to a ready thread of higher priority. *)
Example cooperative_thread_preempted :
  SInv cooperative /\
  seen current (z_impl_k_msgq_purge msgq cooperative) = Some main /\
  seen current ((z_impl_k_thread_suspend fresh;; z_impl_k_msgq_purge msgq) cooperative) = Some worker.
Proof. split; [by_decision|]. vm_compute. split; reflexivity. Qed.

(** [parked] waits for the semaphore too, behind [sem_waiter]. *)
Definition two_waiters : kstate :=
  set_waitqs (<[WQ_obj sem := [sem_waiter; parked]]> (waitqs demo))
    (set_threads (<[parked := waiting sem 6]> (threads demo)) demo).

(** A semaphore is documented to be taken by the waiter of highest priority.  A waiter
    whose priority is raised while it waits keeps its place in the wait queue. *)
Example raised_waiter_not_first :
  SInv two_waiters /\
  seen (fun s => (waitq s (WQ_obj sem), prio <$> threads s !! parked, prio <$> threads s !! sem_waiter))
    ((z_impl_k_thread_priority_set parked 1;; z_impl_k_sem_give sem) two_waiters) =
    Some ([parked], Some 1, Some 3).
Proof. split; [by_decision|]. vm_compute. reflexivity. Qed.
